(* ===== verification/_CoqProject ===== *)
-Q . S2P
Prelude.v
Bitmap.v
PageManager.v
Queues.v
LibcString.v
Printf.v
PrintfSpec.v
Kstring.v
Threads.v
Kmm.v
ArchMemory.v
BootPaging.v
Boot.v
Cow.v
Scheduler.v
Locks.v
Buffers.v
BlockDevice.v
MinixStorage.v
MinixDisc.v
MinixZone.v
MinixInode.v
MinixDir.v
Descriptors.v
WaitPid.v
Vfs.v
RamFs.v
VfsSyscall.v
VfsCalls.v
MinixTree.v
