(* ===== verification/Prelude.v ===== *)
(** * kPanic: a verification development

    kPanic is a small teaching operating system (a SWEB kernel with user-space
    threads, copy on write and its own libc).  This library translates the
    kernel's and the libc's core logic into Rocq functions and proves what makes
    them correct.  It is written against the x86-64 build.

    ** How the program is put together

    The boot code hands the physical memory to the [PageManager], whose usage
    table is a [Bitmap], and the kernel's heap to the [KernelMemoryManager].
    [ArchMemory] builds an address space's page tables from frames of the
    [PageManager]; the [COWManager] shares frames between processes after a
    fork, and the [PageFaultHandler] undoes the sharing on the first write.  The
    timer interrupt calls [Scheduler::schedule]; threads sleep and wake through
    it, in [Lock] and [Mutex], in [Condition] and in the [FiFo] and [RingBuffer]
    queues between drivers and readers.  A [UserProcess] keeps the table of its
    threads, the values they return to joins, and their stacks.  File data
    travels from an inode of the MINIX file system through the superblock and a
    [BDVirtualDevice] to a driver.  User programs reach all this through libc.

    ** Modelling conventions (this file)

    An operation is a function to [res]: [Val] with its results and the new
    state, or [Err] with the reason there is none.  [EAssert] is a failed kernel
    [assert], [EUndef] a step the language leaves undefined (null dereference,
    access outside an object, signed overflow, division by 0), [EBlock] a thread
    that has to sleep, [EFuel] a loop that used up the steps given to it.
    Machine integers are [Z]; [u8], [u16], [u32], [u64], [s32], ... wrap where
    the code's type wraps.  A [while] loop is a [Fixpoint] on fuel; wherever a
    definition chooses the fuel itself, it is a bound on the size of the data
    (the length of an array or list plus a constant), and the theorems state
    that the operation returns a value, never that it would be right if it
    returned.  Where a loop can really fail to end, the fuel is a parameter and
    the theorem says for which states no fuel is enough.  An operation that runs
    under one lock from start to end is one step; [RingBuffer]'s and [Mutex]'s
    operations, which do not, are split into their shared memory accesses and
    proved for every interleaving, where the walk of a deadlock check may read any
    state of the lists.

    ** The parts

    - [Bitmap.v]: [common/source/util/Bitmap.cpp].  [BitStore] with its laws is
      the interface its clients are proved against; [bitmap_refines_set]: every
      history of operations gives the results of a set of indices.
    - [PageManager.v]: [mm/PageManager.cpp] over any [BitStore]: allocation is
      first fit on aligned runs ([allocPPN_first_fit]), freeing is exact or
      detected ([freePPN_frees_or_detects]), no page has two owners
      ([owned_runs_disjoint]).
    - [Queues.v]: [RingBuffer.h] and [FiFo.h] refine a bounded queue
      ([ringbuffer_refines_queue],
      [fifo_refines_queue]); [ringbuffer_spsc] is
      the ring buffer without a lock, access by access, for one producer and one
      consumer; two producers can lose a byte ([two_producers_lose]).
    - [LibcString.v], [Printf.v], [PrintfSpec.v]: [userspace/libc/src/] ctype.c,
      string.c, atoi.c and printf.c: [strlen_spec], [strcmp_spec],
      [parse_int_spec]; [printf_prints] relates [printf] to a grammar of formats
      without floating point and the texts the code has for them, which are not
      always the manual's ([printf_differs_from_manual]); [writeNumber_atoi]
      reads printed numbers back.
    - [Kstring.v]: [common/source/util/kstring.cpp]: the word-wise copies equal
      the byte-wise ones ([kernel_memcpy_bytewise]), [memmove_moves],
      [itoa_atoi].
    - [Threads.v]: the threads of [UserProcess.cpp]: joins never deadlock
      ([join_progress]), their check is exact and ends ([joinDeadlock_exact]),
      values are delivered once ([join_values]), except in the race of
      [join_steal_panics]; stack placement ([ASLRStackManager_spec],
      [stacks_overlap]).
    - [Kmm.v]: [mm/KernelMemoryManager.cpp] refines first fit with splitting and
      coalescing over a list of blocks ([allocateMemory_first_fit],
      [freeMemory_coalesces]); the blocks of a history, one for each allocation,
      are disjoint and keep their bytes ([owned_blocks_disjoint],
      [owned_data_kept]).
    - [ArchMemory.v]: [arch/x86/64/source/ArchMemory.cpp] over any page source:
      mapping and unmapping are insertion and deletion in a finite map from pages
      to frames, and unmapping gives back the page's frame and the emptied tables
      and nothing else ([mapPage_maps], [unmapPage_unmaps]).
    - [BootPaging.v], [Boot.v]: [init_boottime_pagetables.cpp] and the constructor
      of the page manager with the memory map of [ArchCommon.cpp]: what the
      kernel's last GiB shows after the boot ([initialisePaging_maps]), and that
      on machines with up to 256 MiB the constructor establishes the invariant of
      [PageManager.v], with exactly the right pages in use
      ([construct_sets_up]).
    - [Cow.v]: [COWManager.cpp], [PageFaultHandler.cpp] and the process list of
      [ProcessRegistry.cpp]: a fault on a shared page makes a private copy and
      leaves all other mappings alone ([handleCOWPageFault_isolates]).
    - [Scheduler.v]: [Scheduler.cpp] with the parts of Thread.cpp and Syscall.cpp
      it works with: well-formed states ([scheduler_steps_ok]), round robin
      ([schedule_round_robin]), bounded waiting ([bounded_waiting]), removal of
      dead threads ([cleanup_deletes_dead]).  [ProcessOps] is the interface a
      process offers; [Threads] implements it.
    - [Locks.v]: [Lock.cpp], [Mutex.cpp]: mutual exclusion under every
      interleaving ([mutex_excludes]), no lost wake-up ([no_lost_wakeup]), the
      deadlock check is exact when nothing runs during it
      ([checkForDeadLock_exact]); two threads can pass it together
      ([crossing_missed]).
    - [Buffers.v]: pieces of byte arrays, shared by the files below.
    - [BlockDevice.v]: [BDVirtualDevice.cpp], [BDManager.cpp], [BDRequest.h] over
      any driver that obeys [BDDriverLaws], and so carries out every request on
      its disc ([blocks_transfer]); a driver that may fail ([faulty_transfer]).
    - [MinixStorage.v], [MinixDisc.v], [MinixZone.v], [MinixInode.v],
      [MinixDir.v]:
      [common/source/fs/minixfs/]: the bitmaps and their image on the disc
      ([flush_reload], [storage_searches]); header, blocks and zones; the zone
      tables of an inode; a file's data ([writeData_overwrites]) and an inode on
      the disc, which is found again while its number is below the count of
      inodes in use ([writeInode_getInode]); the entries of a directory
      ([directory_gains]).
    - [Descriptors.v]: the local descriptors and pipes of [UserProcess.cpp] and the
      system calls on them, over any file system and terminal (class [IoOps]):
      pipes are counted exactly and never freed too early
      ([pipes_accounted]), and a pipe is a bounded queue of bytes for calls that
      do not overlap in time ([pipe_transfers]).
    - [WaitPid.v]: the rest of [ProcessRegistry.cpp] with the waiting of
      [UserThread.cpp]: the deadlock check is exact
      while no ended process is on record ([checkWaitPidDeadlock_exact]);
      processes never wait by number in a circle and the end of one wakes
      exactly its waiters ([waitpid_returns]), but waits for any process can
      close one ([any_circle]).
    - [Vfs.v]: [fs/Dentry.cpp] and [fs/PathWalker.cpp]: the walk along a path is
      following its parts ([pathWalk_follows]).
    - [RamFs.v]: [fs/ramfs/], [fs/devicefs/DeviceFSSuperblock.cpp], [File.cpp],
      [FileDescriptor.cpp] and [Superblock.cpp]: the operations on the objects of
      a file system and the invariant they keep.
    - [VfsSyscall.v], [VfsCalls.v]: [fs/VfsSyscall.cpp]: every sequence of calls
      from the boot on, without the removal of the root and the working
      directory, keeps the tree and the tables consistent and answers
      ([vfs_calls_safe]); descriptors refine a flat table ([descriptors_refine],
      [write_read_back]); [mkdir_found], [rm_spec].
    - [MinixTree.v]: the objects of a MINIX volume in memory: [MinixFSInode.cpp],
      [MinixFSSuperblock.cpp] and [MinixFSFile.cpp] on the dentries and files of
      [Vfs.v]: directories are loaded if the inodes of their
      entries are found ([loadChildren_loads]), files created
      ([createInode_stores]) and removed ([rm_erases]).

    ** Where the code falls short

    Several theorems state what the code does where that is not what it means to
    do; the comments there say so.  Examples: a join that arrives between the
    exit of a thread and the resumption of an earlier join steals its value;
    stacks may overlap; two threads can pass the deadlock check of [Mutex] at
    the same time; [flush] loses the bits behind the last whole byte of a
    bitmap; [allocInode] can run for ever; [readBytes] copies in the wrong
    direction; a write behind a file's end clears blocks of the superblock; with
    more than 256 MiB the boot writes past the end of a table on the stack.

    ** Not modelled

    - Hardware and boot: the assembly, descriptor tables and interrupt entry of
      [arch/x86], its ATA, IDE, serial, keyboard and interrupt-controller drivers
      (port I/O); the ARM and ARMv8 ports and their USB stack, which the x86-64
      build does not compile; 32-bit and PAE paging.
    - Output and debugging: the consoles, terminals and frame buffer, [kprintf],
      stack traces and the debug information readers.
    - [common/include/ustl] and [common/source/ustl], a vendored container
      library: its vectors, lists and maps are lists and finite maps here.
    - Host tools under [utils], images, the user-space test programs.
    - In the parts above: loading and running a program ([Loader.cpp], [exec],
      the creation of a thread's registers); mount and umount; two calls of a file
      system at the same time, which the code does not exclude; the calls of
      [VfsSyscall.v] on a MINIX volume, whose operations are proved by
      themselves.
    - libc's scanf, its pthread, semaphore and spin lock wrappers and its system
      call stubs. *)

From Stdlib Require Export ZArith Lia Bool.
From stdpp Require Export base numbers gmap list.

#[global] Open Scope Z_scope.

Declare Scope kpanic_scope.
Delimit Scope kpanic_scope with kp.

(** ** Outcomes of code that may fail *)

(** Why a run has no value: a failed kernel [assert], a step the C and C++
    standards leave undefined (or an access outside the modelled memory), a
    thread that has to sleep, a loop that used up the fuel given to it. *)
Inductive err : Set :=
| EAssert
| EUndef
| EBlock
| EFuel.

#[export] Instance err_eq_dec : EqDecision err.
Proof. solve_decision. Defined.

Inductive res (A : Type) : Type :=
| Val (a : A)
| Err (e : err).
Arguments Val {A} _.
Arguments Err {A} _.

#[export] Instance res_ret : MRet res := @Val.
#[export] Instance res_bind : MBind res := fun A B f m =>
  match m with
  | Val a => f a
  | Err e => Err e
  end.
#[export] Instance res_fmap : FMap res := fun A B f m =>
  match m with
  | Val a => Val (f a)
  | Err e => Err e
  end.

#[export] Instance res_eq_dec `{EqDecision A} : EqDecision (res A).
Proof. solve_decision. Defined.

(** The kernel's [assert(b)]. *)
Definition kassert (b : bool) : res unit := if b then Val tt else Err EAssert.

(** A step that is only defined when [b] holds. *)
Definition defined (b : bool) : res unit := if b then Val tt else Err EUndef.

Definition is_val {A} (m : res A) : bool := match m with Val _ => true | Err _ => false end.

Section res_laws.
Context {A B : Type}.

Lemma bind_Val (m : res A) (f : A → res B) b :
  (m ≫= f) = Val b ↔ ∃ a, m = Val a ∧ f a = Val b.
Proof. destruct m; simpl; naive_solver. Qed.

Lemma bind_Err (m : res A) (f : A → res B) e :
  (m ≫= f) = Err e ↔ m = Err e ∨ ∃ a, m = Val a ∧ f a = Err e.
Proof. destruct m; simpl; naive_solver. Qed.

Lemma kassert_Val b u : kassert b = Val u ↔ b = true.
Proof. destruct b, u; unfold kassert; naive_solver. Qed.

Lemma defined_Val b u : defined b = Val u ↔ b = true.
Proof. destruct b, u; unfold defined; naive_solver. Qed.
End res_laws.

(** [res_inv H] decomposes a successful run [H : m = Val b]. *)
Ltac res_inv_step H :=
  lazymatch type of H with
  | (_ ≫= _) = Val _ =>
      let a := fresh "r" in let H1 := fresh "Hr" in
      apply bind_Val in H as (a & H1 & H); res_inv_step H1
  | kassert _ = Val ?u => apply kassert_Val in H
  | defined _ = Val ?u => apply defined_Val in H
  | Val _ = Val _ => injection H as H; subst
  | mret _ = Val _ => injection H as H; subst
  | _ => idtac
  end.
Ltac res_inv H := repeat (progress (res_inv_step H)).

(** [bool_to_prop] turns the boolean tests of the code into propositions. *)
Ltac bool_to_prop :=
  repeat match goal with
  | H : (_ && _)%bool = true |- _ => apply andb_true_iff in H as [? ?]
  | H : (_ || _)%bool = false |- _ => apply orb_false_iff in H as [? ?]
  | H : negb _ = true |- _ => apply negb_true_iff in H
  | H : negb _ = false |- _ => apply negb_false_iff in H
  | H : (_ <? _)%Z = true |- _ => apply Z.ltb_lt in H
  | H : (_ <? _)%Z = false |- _ => apply Z.ltb_ge in H
  | H : (_ <=? _)%Z = true |- _ => apply Z.leb_le in H
  | H : (_ <=? _)%Z = false |- _ => apply Z.leb_gt in H
  | H : (_ =? _)%Z = true |- _ => apply Z.eqb_eq in H
  | H : (_ =? _)%Z = false |- _ => apply Z.eqb_neq in H
  | H : bool_decide _ = true |- _ => apply bool_decide_eq_true in H
  | H : bool_decide _ = false |- _ => apply bool_decide_eq_false in H
  end.

(** ** Histories *)

(** The results of a sequence of operations, up to the first failure. *)
Fixpoint run {S O R} (f : S → O → res (S * R)) (s : S) (os : list O) : res (list R) :=
  match os with
  | [] => Val []
  | o :: os => '(s, r) ← f s o; rs ← run f s os; Val (r :: rs)
  end.

Section simulation.
Context {S S' O R : Type} (f : S → O → res (S * R)) (g : S' → O → res (S' * R)).
Context (rel : S → S' → Prop) (args : O → Prop).

(** Both runs fail alike, or give the same result in related states. *)
Definition sim (a : res (S * R)) (b : res (S' * R)) : Prop :=
  match a, b with
  | Val (s, r), Val (s', r') => r = r' ∧ rel s s'
  | Err e, Err e' => e = e'
  | _, _ => False
  end.

Lemma sim_run os : (∀ s s' o, rel s s' → args o → sim (f s o) (g s' o)) →
  ∀ s s', rel s s' → Forall args os → run f s os = run g s' os.
Proof.
  intros Hsim. induction os as [|o os IH]; intros s s' Hr Ha; [done|].
  apply Forall_cons in Ha as [Ho Ha]. simpl.
  pose proof (Hsim s s' o Hr Ho) as Hs. unfold sim in Hs.
  destruct (f s o) as [[s1 r]|e], (g s' o) as [[s1' r']|e']; simpl in *; [|done|done|by subst].
  destruct Hs as [-> Hr']. by rewrite (IH s1 s1').
Qed.
End simulation.

(** ** Machine integers *)

Create Rewrite HintDb wraps.
Create Rewrite HintDb lens.

(** Unsigned wrap-around at [w] bits, and the value of a [w]-bit pattern read
    as a two's complement integer. *)
Definition wrap (w x : Z) : Z := x mod 2 ^ w.
Definition signed (w x : Z) : Z :=
  let u := wrap w x in if u <? 2 ^ (w - 1) then u else u - 2 ^ w.

Abbreviation u8 := (wrap 8).
Abbreviation u16 := (wrap 16).
Abbreviation u32 := (wrap 32).
Abbreviation u64 := (wrap 64).
Abbreviation s8 := (signed 8).
Abbreviation s16 := (signed 16).
Abbreviation s32 := (signed 32).
Abbreviation s64 := (signed 64).

Arguments wrap : simpl never.
Arguments signed : simpl never.

(** The signed [w]-bit range. *)
Definition in_signed (w x : Z) : bool := (- 2 ^ (w - 1) <=? x) && (x <? 2 ^ (w - 1)).
Definition in_unsigned (w x : Z) : bool := (0 <=? x) && (x <? 2 ^ w).

(** The result of a signed operation, which overflow leaves undefined. *)
Definition schk (w x : Z) : res Z := if in_signed w x then Val x else Err EUndef.

Lemma wrap_bounds w x : 0 <= w → 0 <= wrap w x < 2 ^ w.
Proof. intros. apply Z.mod_pos_bound, Z.pow_pos_nonneg; lia. Qed.

Lemma wrap_small w x : 0 <= x < 2 ^ w → wrap w x = x.
Proof. intros. by apply Z.mod_small. Qed.

Lemma wrap_wrap w x : wrap w (wrap w x) = wrap w x.
Proof. apply Z.mod_mod_divide. apply Z.divide_refl. Qed.

Lemma signed_small w x : 0 < w → - 2 ^ (w - 1) <= x < 2 ^ (w - 1) → signed w x = x.
Proof.
  intros Hw Hx. unfold signed, wrap.
  assert (2 ^ w = 2 * 2 ^ (w - 1)) as Hp
    by (rewrite <- Z.pow_succ_r by lia; f_equal; lia).
  rewrite Hp. destruct (decide (0 <= x)).
  - rewrite Z.mod_small by lia. destruct (Z.ltb_spec x (2 ^ (w - 1))); lia.
  - rewrite <- (Z_mod_plus_full x 1), Z.mul_1_l, Z.mod_small by lia.
    destruct (Z.ltb_spec (x + 2 * 2 ^ (w - 1)) (2 ^ (w - 1))); lia.
Qed.

#[export] Hint Rewrite wrap_small using lia : wraps.

(** ** Arrays indexed by machine integers *)

Section zarray.
Context {A : Type}.

(** [l[i]] and [l[i] = x] for an array of [length l] elements: outside the
    array the access is undefined. *)
Definition zget (l : list A) (i : Z) : res A :=
  if decide (0 <= i) then
    match l !! Z.to_nat i with Some x => Val x | None => Err EUndef end
  else Err EUndef.

Definition zset (l : list A) (i : Z) (x : A) : res (list A) :=
  if decide (0 <= i < Z.of_nat (length l)) then Val (<[Z.to_nat i := x]> l)
  else Err EUndef.

Lemma zget_Val l i x : zget l i = Val x ↔ 0 <= i ∧ l !! Z.to_nat i = Some x.
Proof.
  unfold zget. case_decide; [|naive_solver lia].
  destruct (l !! Z.to_nat i); naive_solver.
Qed.

Lemma zget_lt l i : 0 <= i < Z.of_nat (length l) → ∃ x, zget l i = Val x.
Proof.
  intros Hi. destruct (lookup_lt_is_Some_2 l (Z.to_nat i)) as [x Hx]; [lia|].
  exists x. apply zget_Val. split; [lia|done].
Qed.

Lemma zget_oob l i : ¬ (0 <= i < Z.of_nat (length l)) → zget l i = Err EUndef.
Proof.
  intros Hi. unfold zget. case_decide; [|done].
  by rewrite (lookup_ge_None_2 l) by lia.
Qed.

Lemma zset_Val l i x l' :
  zset l i x = Val l' ↔ 0 <= i < Z.of_nat (length l) ∧ l' = <[Z.to_nat i := x]> l.
Proof. unfold zset. case_decide; naive_solver. Qed.

Lemma zset_length l i x l' : zset l i x = Val l' → length l' = length l.
Proof. intros (_ & ->)%zset_Val. apply length_insert. Qed.

Lemma zget_zset_eq l i x l' : zset l i x = Val l' → zget l' i = Val x.
Proof.
  intros [? ->]%zset_Val. apply zget_Val. split; [lia|].
  apply list_lookup_insert_eq. lia.
Qed.

Lemma zget_zset_ne l i j x l' : zset l i x = Val l' → i ≠ j → zget l' j = zget l j.
Proof.
  intros [? ->]%zset_Val ?. unfold zget. case_decide; [|done].
  rewrite list_lookup_insert_ne by lia. done.
Qed.
End zarray.

#[export] Hint Rewrite @length_insert @length_replicate @length_app : lens.

(** ** Lists *)

Lemma filter_ext_in {A} (P Q : A → Prop) `{∀ x, Decision (P x), ∀ x, Decision (Q x)} (l : list A) :
  (∀ x, x ∈ l → P x ↔ Q x) → filter P l = filter Q l.
Proof.
  induction l as [|x l IH]; intros H1; [done|]. rewrite !filter_cons.
  rewrite (IH (λ y Hy, H1 y ltac:(by right))).
  pose proof (H1 x ltac:(by left)). repeat case_decide; naive_solver.
Qed.

Lemma seqZ_plus m n k : 0 <= n → 0 <= k → seqZ m (n + k) = seqZ m n ++ seqZ (m + n) k.
Proof.
  intros. apply list_eq. intros i.
  destruct (decide (i < Z.to_nat n)%nat) as [Hi|Hi].
  - rewrite lookup_app_l by (rewrite length_seqZ; lia).
    rewrite !lookup_seqZ_lt by lia. done.
  - rewrite lookup_app_r by (rewrite length_seqZ; lia). rewrite length_seqZ.
    destruct (decide (i < Z.to_nat (n + k))%nat).
    + rewrite !lookup_seqZ_lt by lia. f_equal. lia.
    + rewrite !lookup_seqZ_ge by lia. done.
Qed.

Lemma seqZ_map m k : seqZ m k = map (Z.add m) (seqZ 0 k).
Proof.
  unfold seqZ. change (map (Z.add m)) with (fmap (M:=list) (Z.add m)).
  rewrite <- list_fmap_compose. apply list_fmap_ext. intros ? x _. simpl. lia.
Qed.

(** ** Maps *)

(** Distinct keys of a map are at most as many as its size. *)
Lemma keys_size {A} (m : gmap Z A) (l : list Z) : NoDup l → (∀ k, k ∈ l → is_Some (m !! k)) →
  (length l <= size m)%nat.
Proof.
  intros Hl Hm. rewrite <- (size_list_to_set (C:=gset Z) l), <- size_dom by done.
  apply subseteq_size. intros k Hk%elem_of_list_to_set. by apply elem_of_dom, Hm.
Qed.

(** ** Bytes *)

Definition is_byte (b : Z) : Prop := 0 <= b < 256.

Definition all_bytes : list Z := seqZ 0 256.

Lemma all_bytes_spec (P : Z → bool) :
  forallb P all_bytes = true → ∀ b, is_byte b → P b = true.
Proof.
  intros HP b Hb. rewrite forallb_forall in HP. apply HP.
  apply list_elem_of_In, elem_of_seqZ. unfold is_byte in Hb. lia.
Qed.


Lemma Forall_is_byte l : forallb (λ b, (0 <=? b) && (b <? 256)) l = true → Forall is_byte l.
Proof.
  intros H. apply Forall_forall. intros b Hb. rewrite forallb_forall in H.
  apply list_elem_of_In, H in Hb. bool_to_prop. unfold is_byte. lia.
Qed.

Lemma lor_byte a b : is_byte a → is_byte b → is_byte (Z.lor a b).
Proof.
  unfold is_byte. intros Ha Hb. split; [apply Z.lor_nonneg; lia|].
  destruct (decide (Z.lor a b = 0)) as [->|Hn]; [lia|].
  assert (0 <= Z.lor a b) by (apply Z.lor_nonneg; lia).
  change 256 with (2 ^ 8). apply Z.log2_lt_pow2; [lia|]. rewrite Z.log2_lor by lia.
  assert (∀ x, 0 <= x < 256 → Z.log2 x < 8) as Hl.
  { intros x Hx. destruct (decide (x = 0)) as [->|]; [done|]. apply Z.log2_lt_pow2; lia. }
  pose proof (Hl a Ha). pose proof (Hl b Hb). lia.
Qed.
