(* ===== verification/Bitmap.v ===== *)
(** * Bitmap: the bit set behind the page and storage managers

    Models [common/include/util/Bitmap.h] and [common/source/util/Bitmap.cpp].
    The static member functions work on a byte array and a counter, the member
    functions on the object ([Record Bitmap]).  [BitStore] is the interface the
    page manager and the MINIX storage manager use; this file proves that
    [Bitmap] implements it. *)

From S2P Require Import Prelude.

(** ** The interface *)

(** What a client of a bit set may do with it. *)
Class BitStore (B : Type) := {
  bs_size : B → Z;
  bs_count : B → Z;
  bs_get : B → Z → res bool;
  bs_set : B → Z → res (B * bool);
  bs_unset : B → Z → res (B * bool);
}.

(** What an implementation promises: a set [bs_test b] of the indices below
    [bs_size b], read and changed one bit at a time, whose size is kept. *)
Class BitStoreLaws (B : Type) `{BitStore B} := {
  bs_test : B → Z → bool;
  bs_ok : B → Prop;
  bs_size_range b : bs_ok b → 0 <= bs_size b;
  bs_get_in b i : bs_ok b → 0 <= i < bs_size b → bs_get b i = Val (bs_test b i);
  bs_get_out b i : bs_size b <= i → bs_get b i = Err EAssert;
  bs_set_in b i : bs_ok b → 0 <= i < bs_size b →
    ∃ b', bs_set b i = Val (b', negb (bs_test b i)) ∧ bs_ok b' ∧
          bs_size b' = bs_size b ∧
          bs_count b' = bs_count b + (if bs_test b i then 0 else 1) ∧
          (∀ j, 0 <= j → bs_test b' j = bool_decide (i = j) || bs_test b j);
  bs_set_out b i : bs_size b <= i → bs_set b i = Err EAssert;
  bs_unset_in b i : bs_ok b → 0 <= i < bs_size b →
    ∃ b', bs_unset b i = Val (b', bs_test b i) ∧ bs_ok b' ∧
          bs_size b' = bs_size b ∧
          bs_count b' = bs_count b - (if bs_test b i then 1 else 0) ∧
          (∀ j, 0 <= j → bs_test b' j = negb (bool_decide (i = j)) && bs_test b j);
  bs_unset_out b i : bs_size b <= i → bs_unset b i = Err EAssert;
}.

Module Bitmap.

(** ** Code *)

Definition bits_per_bitmap_atom_ : Z := 8.

(** The macro [BITMAP_BYTE_COUNT]. *)
Definition BITMAP_BYTE_COUNT (number_of_bits : Z) : Z :=
  number_of_bits / bits_per_bitmap_atom_ +
  (if 0 <? number_of_bits mod bits_per_bitmap_atom_ then 1 else 0).

Definition BIT_COUNT : list Z :=
  [0; 1; 1; 2; 1; 2; 2; 3; 1; 2; 2; 3; 2; 3; 3; 4; 1; 2; 2; 3; 2; 3; 3; 4; 2; 3; 3; 4; 3; 4; 4; 5; 1; 2; 2; 3; 2; 3; 3; 4;
   2; 3; 3; 4; 3; 4; 4; 5; 2; 3; 3; 4; 3; 4; 4; 5; 3; 4; 4; 5; 4; 5; 5; 6; 1; 2; 2; 3; 2; 3; 3; 4; 2; 3; 3; 4; 3; 4; 4; 5;
   2; 3; 3; 4; 3; 4; 4; 5; 3; 4; 4; 5; 4; 5; 5; 6; 2; 3; 3; 4; 3; 4; 4; 5; 3; 4; 4; 5; 4; 5; 5; 6; 3; 4; 4; 5; 4; 5; 5; 6;
   4; 5; 5; 6; 5; 6; 6; 7; 1; 2; 2; 3; 2; 3; 3; 4; 2; 3; 3; 4; 3; 4; 4; 5; 2; 3; 3; 4; 3; 4; 4; 5; 3; 4; 4; 5; 4; 5; 5; 6;
   2; 3; 3; 4; 3; 4; 4; 5; 3; 4; 4; 5; 4; 5; 5; 6; 3; 4; 4; 5; 4; 5; 5; 6; 4; 5; 5; 6; 5; 6; 6; 7; 2; 3; 3; 4; 3; 4; 4; 5;
   3; 4; 4; 5; 4; 5; 5; 6; 3; 4; 4; 5; 4; 5; 5; 6; 4; 5; 5; 6; 5; 6; 6; 7; 3; 4; 4; 5; 4; 5; 5; 6; 4; 5; 5; 6; 5; 6; 6; 7;
   4; 5; 5; 6; 5; 6; 6; 7; 5; 6; 6; 7; 6; 7; 7; 8].

(** The object: [size_], [num_bits_set_] and the byte array [bitmap_]. *)
Record Bitmap := mkBitmap {
  size_ : Z;
  num_bits_set_ : Z;
  bitmap_ : list Z;
}.

#[export] Instance Bitmap_eq_dec : EqDecision Bitmap.
Proof. solve_decision. Defined.

(** The constructor: [new uint8[n]{}] is zeroed memory. *)
Definition new (number_of_bits : Z) : Bitmap :=
  mkBitmap number_of_bits 0
    (replicate (Z.to_nat (BITMAP_BYTE_COUNT number_of_bits)) 0).

(** The copy constructor: a fresh array, filled by [memcpy]. *)
Definition copy (bm : Bitmap) : Bitmap :=
  mkBitmap (size_ bm) (num_bits_set_ bm)
    (take (Z.to_nat (BITMAP_BYTE_COUNT (size_ bm))) (bitmap_ bm)).

(** The macro [MASK]. *)
Definition MASK (bit_number : Z) : Z := Z.shiftl 1 (bit_number mod bits_per_bitmap_atom_).

(** [static bool setBit(uint8* b, size_t& num_bits_set, size_t bit_number)] *)
Definition setBit_raw (b : list Z) (num_bits_set bit_number : Z) : res (list Z * Z * bool) :=
  byte ← zget b (bit_number / bits_per_bitmap_atom_);
  if Z.land byte (MASK bit_number) =? 0 then
    b' ← zset b (bit_number / bits_per_bitmap_atom_) (u8 (Z.lor byte (MASK bit_number)));
    Val (b', u64 (num_bits_set + 1), true)
  else Val (b, num_bits_set, false).

(** [static bool getBit(uint8* b, size_t bit_number)] *)
Definition getBit_raw (b : list Z) (bit_number : Z) : res bool :=
  byte ← zget b (bit_number / bits_per_bitmap_atom_);
  Val (negb (Z.land byte (MASK bit_number) =? 0)).

(** [static bool unsetBit(uint8* b, size_t& num_bits_set, size_t bit_number)] *)
Definition unsetBit_raw (b : list Z) (num_bits_set bit_number : Z) : res (list Z * Z * bool) :=
  byte ← zget b (bit_number / bits_per_bitmap_atom_);
  if negb (Z.land byte (MASK bit_number) =? 0) then
    b' ← zset b (bit_number / bits_per_bitmap_atom_)
                (u8 (Z.land byte (Z.lnot (MASK bit_number))));
    Val (b', u64 (num_bits_set - 1), true)
  else Val (b, num_bits_set, false).

Definition setBit (bm : Bitmap) (bit_number : Z) : res (Bitmap * bool) :=
  _ ← kassert (bit_number <? size_ bm);
  '(b, n, r) ← setBit_raw (bitmap_ bm) (num_bits_set_ bm) bit_number;
  Val (mkBitmap (size_ bm) n b, r).

Definition getBit (bm : Bitmap) (bit_number : Z) : res bool :=
  _ ← kassert (bit_number <? size_ bm);
  getBit_raw (bitmap_ bm) bit_number.

Definition unsetBit (bm : Bitmap) (bit_number : Z) : res (Bitmap * bool) :=
  _ ← kassert (bit_number <? size_ bm);
  '(b, n, r) ← unsetBit_raw (bitmap_ bm) (num_bits_set_ bm) bit_number;
  Val (mkBitmap (size_ bm) n b, r).

Definition setByte (bm : Bitmap) (byte_number byte : Z) : res Bitmap :=
  _ ← kassert (u64 (byte_number * bits_per_bitmap_atom_) <? size_ bm);
  b ← zget (bitmap_ bm) byte_number;
  old ← zget BIT_COUNT b;
  new ← zget BIT_COUNT byte;
  bytes ← zset (bitmap_ bm) byte_number byte;
  Val (mkBitmap (size_ bm) (u64 (u64 (num_bits_set_ bm - old) + new)) bytes).

Definition getByte (bm : Bitmap) (byte_number : Z) : res Z :=
  _ ← kassert (u64 (byte_number * bits_per_bitmap_atom_) <? size_ bm);
  zget (bitmap_ bm) byte_number.

Definition getSize (bm : Bitmap) : Z := size_ bm.
Definition getNumBitsSet (bm : Bitmap) : Z := num_bits_set_ bm.
Definition getNumFreeBits (bm : Bitmap) : Z := u64 (size_ bm - num_bits_set_ bm).

#[export] Instance bitmap_store : BitStore Bitmap := {
  bs_size := getSize;
  bs_count := getNumBitsSet;
  bs_get := getBit;
  bs_set := setBit;
  bs_unset := unsetBit;
}.

(** ** Bits of a byte *)

Definition popbyte (b : Z) : Z :=
  foldr (λ k acc, Z.b2z (Z.testbit b k) + acc) 0 [0; 1; 2; 3; 4; 5; 6; 7].

Definition popcount (l : list Z) : Z := foldr (λ b acc, popbyte b + acc) 0 l.

(** [byte_cases] proves a decidable fact about all bytes (and bit numbers) by
    computing it at each of them. *)
Definition byte_bit_all (P : Z → Z → bool) : bool :=
  forallb (λ b, forallb (P b) [0; 1; 2; 3; 4; 5; 6; 7]) all_bytes.

Lemma byte_bit_all_spec (P : Z → Z → bool) :
  byte_bit_all P = true → ∀ b k, is_byte b → 0 <= k < 8 → P b k = true.
Proof.
  intros HP b k Hb Hk. eapply all_bytes_spec in HP; [|exact Hb].
  rewrite forallb_forall in HP. apply HP. simpl. lia.
Qed.

Lemma BIT_COUNT_popbyte b : is_byte b → zget BIT_COUNT b = Val (popbyte b).
Proof.
  intros Hb.
  apply (all_bytes_spec (λ b, bool_decide (zget BIT_COUNT b = Val (popbyte b)))) in Hb.
  - by apply bool_decide_eq_true in Hb.
  - vm_compute. reflexivity.
Qed.

Lemma popbyte_range b : is_byte b → 0 <= popbyte b <= 8.
Proof.
  intros Hb. apply (all_bytes_spec (λ b, (0 <=? popbyte b) && (popbyte b <=? 8))) in Hb.
  - bool_to_prop. lia.
  - vm_compute. reflexivity.
Qed.

Lemma MASK_pow i : 0 <= i → MASK i = 2 ^ (i mod 8).
Proof. intros. unfold MASK. by rewrite Z.shiftl_1_l. Qed.

Lemma land_MASK_test b i :
  0 <= i → (Z.land b (MASK i) =? 0) = negb (Z.testbit b (i mod 8)).
Proof.
  intros Hi. rewrite MASK_pow by lia.
  assert (0 <= i mod 8) as Hk by (pose proof (Z.mod_pos_bound i 8); lia).
  destruct (Z.testbit b (i mod 8)) eqn:Ht; simpl.
  - apply Z.eqb_neq. intros H0. apply (f_equal (λ z, Z.testbit z (i mod 8))) in H0.
    rewrite Z.land_spec, Ht, Z.pow2_bits_true, Z.bits_0 in H0 by lia. done.
  - apply Z.eqb_eq, Z.bits_inj'. intros n Hn.
    rewrite Z.land_spec, Z.pow2_bits_eqb, Z.bits_0 by lia.
    destruct (Z.eqb_spec (i mod 8) n) as [<-|]; [by rewrite Ht|by rewrite andb_false_r].
Qed.

Lemma setbyte_facts b k : is_byte b → 0 <= k < 8 →
  is_byte (Z.lor b (2 ^ k)) ∧
  popbyte (Z.lor b (2 ^ k)) = popbyte b + (if Z.testbit b k then 0 else 1).
Proof.
  intros Hb Hk.
  pose proof (byte_bit_all_spec (λ b k, let v := Z.lor b (2 ^ k) in
    (0 <=? v) && (v <? 256) &&
    (popbyte v =? popbyte b + (if Z.testbit b k then 0 else 1)))
    ltac:(vm_compute; reflexivity) b k Hb Hk) as H.
  cbv beta zeta in H. bool_to_prop. unfold is_byte. split; [lia|done].
Qed.

Lemma clearbyte_facts b k : is_byte b → 0 <= k < 8 →
  is_byte (Z.land b (Z.lnot (2 ^ k))) ∧
  popbyte (Z.land b (Z.lnot (2 ^ k))) = popbyte b - (if Z.testbit b k then 1 else 0).
Proof.
  intros Hb Hk.
  pose proof (byte_bit_all_spec (λ b k, let v := Z.land b (Z.lnot (2 ^ k)) in
    (0 <=? v) && (v <? 256) &&
    (popbyte v =? popbyte b - (if Z.testbit b k then 1 else 0)))
    ltac:(vm_compute; reflexivity) b k Hb Hk) as H.
  cbv beta zeta in H. bool_to_prop. unfold is_byte. split; [lia|done].
Qed.

(** ** The set of indices a byte array stands for *)

Definition test_raw (b : list Z) (i : Z) : bool :=
  Z.testbit (default 0 (b !! Z.to_nat (i / 8))) (i mod 8).

Definition test (bm : Bitmap) : Z → bool := test_raw (bitmap_ bm).

Record bitmap_ok (bm : Bitmap) : Prop := {
  ok_size : 0 <= size_ bm <= 2 ^ 63;
  ok_length : Z.of_nat (length (bitmap_ bm)) = BITMAP_BYTE_COUNT (size_ bm);
  ok_bytes : Forall is_byte (bitmap_ bm);
  ok_count : num_bits_set_ bm = popcount (bitmap_ bm);
}.

Lemma popcount_insert l n b b' :
  l !! n = Some b → popcount (<[n:=b']> l) = popcount l - popbyte b + popbyte b'.
Proof.
  revert n. induction l as [|x l IH]; intros [|n] Hl; simplify_eq/=; [lia|].
  rewrite IH by done. lia.
Qed.

Lemma popcount_range l : Forall is_byte l → 0 <= popcount l <= 8 * Z.of_nat (length l).
Proof.
  induction 1 as [|b l Hb Hl IH]; simpl; [lia|].
  pose proof (popbyte_range b Hb). lia.
Qed.

Lemma byte_index_range bm i :
  bitmap_ok bm → 0 <= i < size_ bm → 0 <= i / 8 < Z.of_nat (length (bitmap_ bm)).
Proof.
  intros Hok Hi. rewrite (ok_length _ Hok).
  unfold BITMAP_BYTE_COUNT, bits_per_bitmap_atom_.
  destruct (Z.ltb_spec 0 (size_ bm mod 8)); Z.to_euclidean_division_equations; lia.
Qed.

Lemma byte_at bm i : bitmap_ok bm → 0 <= i < size_ bm →
  ∃ b, bitmap_ bm !! Z.to_nat (i / 8) = Some b ∧ is_byte b ∧
       zget (bitmap_ bm) (i / 8) = Val b.
Proof.
  intros Hok Hi. pose proof (byte_index_range bm i Hok Hi) as Hr.
  destruct (zget_lt (bitmap_ bm) (i / 8) Hr) as [b Hb].
  pose proof Hb as [? Hl]%zget_Val. exists b. split_and!; try done.
  eapply Forall_lookup_1; [apply (ok_bytes _ Hok)|done].
Qed.

(** The count is the number of set bits of the array. *)
Lemma count_range bm : bitmap_ok bm → 0 <= num_bits_set_ bm < 2 ^ 64 - 8.
Proof.
  intros Hok. rewrite (ok_count _ Hok).
  pose proof (popcount_range _ (ok_bytes _ Hok)) as H.
  rewrite (ok_length _ Hok) in H. pose proof (ok_size _ Hok).
  unfold BITMAP_BYTE_COUNT, bits_per_bitmap_atom_ in H.
  destruct (0 <? size_ bm mod 8); Z.to_euclidean_division_equations; lia.
Qed.

Lemma test_raw_insert l i j b v :
  0 <= i → 0 <= j → l !! Z.to_nat (i / 8) = Some b →
  (∀ k, 0 <= k < 8 → Z.testbit v k =
     if bool_decide (k = i mod 8) then Z.testbit v (i mod 8) else Z.testbit b k) →
  test_raw (<[Z.to_nat (i / 8) := v]> l) j =
  if bool_decide (i = j) then Z.testbit v (i mod 8) else test_raw l j.
Proof.
  intros Hi Hj Hb Hv. unfold test_raw.
  pose proof (Z.mod_pos_bound j 8 ltac:(lia)) as Hm.
  destruct (decide (i / 8 = j / 8)) as [Hd|Hd].
  - rewrite <- Hd, list_lookup_insert_eq by (by eapply lookup_lt_Some). rewrite Hb. simpl.
    rewrite (Hv (j mod 8) Hm).
    repeat case_bool_decide; try done; subst; Z.to_euclidean_division_equations; lia.
  - rewrite list_lookup_insert_ne by
      (intros ?; apply Hd; Z.to_euclidean_division_equations; lia).
    case_bool_decide; [congruence|done].
Qed.

Lemma set_bits b i k : 0 <= i → 0 <= k < 8 →
  Z.testbit (Z.lor b (2 ^ (i mod 8))) k =
  if bool_decide (k = i mod 8) then true else Z.testbit b k.
Proof.
  intros Hi Hk. pose proof (Z.mod_pos_bound i 8 ltac:(lia)).
  rewrite Z.lor_spec, Z.pow2_bits_eqb by lia.
  case_bool_decide; destruct (Z.eqb_spec (i mod 8) k);
    rewrite ?orb_true_r, ?orb_false_r; try done; lia.
Qed.

Lemma clear_bits b i k : 0 <= i → 0 <= k < 8 →
  Z.testbit (Z.land b (Z.lnot (2 ^ (i mod 8)))) k =
  if bool_decide (k = i mod 8) then false else Z.testbit b k.
Proof.
  intros Hi Hk. pose proof (Z.mod_pos_bound i 8 ltac:(lia)).
  rewrite Z.land_spec, Z.lnot_spec, Z.pow2_bits_eqb by lia.
  case_bool_decide; destruct (Z.eqb_spec (i mod 8) k);
    rewrite ?andb_true_r, ?andb_false_r; try done; lia.
Qed.

(** ** The operations *)

Ltac byte_step bm i Hok Hi :=
  let b := fresh "b" in
  destruct (byte_at bm i Hok Hi) as (b & Hlk & Hb & Hget).

Lemma setBit_in bm i : bitmap_ok bm → 0 <= i < size_ bm →
  ∃ bm', setBit bm i = Val (bm', negb (test bm i)) ∧ bitmap_ok bm' ∧
    size_ bm' = size_ bm ∧
    num_bits_set_ bm' = num_bits_set_ bm + (if test bm i then 0 else 1) ∧
    (∀ j, 0 <= j → test bm' j = bool_decide (i = j) || test bm j).
Proof.
  intros Hok Hi. byte_step bm i Hok Hi.
  pose proof (byte_index_range bm i Hok Hi) as Hidx.
  pose proof (Z.mod_pos_bound i 8 ltac:(lia)) as Hk.
  pose proof (setbyte_facts b (i mod 8) Hb Hk) as [Hb' Hp].
  assert (test bm i = Z.testbit b (i mod 8)) as Htest
    by (unfold test, test_raw; by rewrite Hlk).
  unfold setBit. destruct (Z.ltb_spec i (size_ bm)); [|lia]. simpl.
  unfold setBit_raw, bits_per_bitmap_atom_. rewrite Hget. simpl.
  rewrite land_MASK_test, Htest by lia.
  destruct (Z.testbit b (i mod 8)) eqn:Ht; simpl.
  - exists bm. split_and!; try done; [by destruct bm|lia|].
    intros j Hj. case_bool_decide; [subst|done]. by rewrite Htest.
  - rewrite MASK_pow by lia. unfold is_byte in Hb'. rewrite (wrap_small 8) by exact Hb'.
    unfold zset. rewrite decide_True by lia. simpl.
    pose proof (count_range bm Hok) as Hc. rewrite wrap_small by lia.
    eexists. split_and!; [done| |done|done|].
    + split; simpl; [by apply ok_size|by rewrite length_insert, (ok_length _ Hok)| |].
      * by apply Forall_insert; [apply ok_bytes|].
      * rewrite (popcount_insert _ _ b) by done. rewrite (ok_count _ Hok). lia.
    + intros j Hj. unfold test. simpl.
      rewrite (test_raw_insert _ _ _ b) by
        (try done; try lia; intros; rewrite !set_bits by lia;
         repeat case_bool_decide; done).
      rewrite set_bits by lia. repeat case_bool_decide; done.
Qed.

Lemma unsetBit_in bm i : bitmap_ok bm → 0 <= i < size_ bm →
  ∃ bm', unsetBit bm i = Val (bm', test bm i) ∧ bitmap_ok bm' ∧
    size_ bm' = size_ bm ∧
    num_bits_set_ bm' = num_bits_set_ bm - (if test bm i then 1 else 0) ∧
    (∀ j, 0 <= j → test bm' j = negb (bool_decide (i = j)) && test bm j).
Proof.
  intros Hok Hi. byte_step bm i Hok Hi.
  pose proof (byte_index_range bm i Hok Hi) as Hidx.
  pose proof (Z.mod_pos_bound i 8 ltac:(lia)) as Hk.
  pose proof (clearbyte_facts b (i mod 8) Hb Hk) as [Hb' Hp].
  assert (test bm i = Z.testbit b (i mod 8)) as Htest
    by (unfold test, test_raw; by rewrite Hlk).
  unfold unsetBit. destruct (Z.ltb_spec i (size_ bm)); [|lia]. simpl.
  unfold unsetBit_raw, bits_per_bitmap_atom_. rewrite Hget. simpl.
  rewrite land_MASK_test, Htest, negb_involutive by lia.
  destruct (Z.testbit b (i mod 8)) eqn:Ht; simpl.
  - rewrite MASK_pow by lia. unfold is_byte in Hb'. rewrite (wrap_small 8) by exact Hb'.
    unfold zset. rewrite decide_True by lia. simpl.
    assert (1 <= num_bits_set_ bm) as Hpos.
    { rewrite (ok_count _ Hok).
      pose proof (popcount_range _ (Forall_insert _ _ (Z.to_nat (i / 8)) _ (ok_bytes _ Hok) Hb')) as Hr.
      rewrite (popcount_insert _ _ b) in Hr by done. lia. }
    pose proof (count_range bm Hok) as Hc. rewrite wrap_small by lia.
    eexists. split_and!; [done| |done|done|].
    + split; simpl; [by apply ok_size|by rewrite length_insert, (ok_length _ Hok)| |].
      * by apply Forall_insert; [apply ok_bytes|].
      * rewrite (popcount_insert _ _ b) by done. rewrite (ok_count _ Hok). lia.
    + intros j Hj. unfold test. simpl.
      rewrite (test_raw_insert _ _ _ b) by
        (try done; try lia; intros; rewrite !clear_bits by lia;
         repeat case_bool_decide; done).
      rewrite clear_bits by lia. repeat case_bool_decide; done.
  - exists bm. split_and!; try done; [by destruct bm|lia|].
    intros j Hj. case_bool_decide; [subst|done]. by rewrite Htest.
Qed.

Lemma getBit_in bm i : bitmap_ok bm → 0 <= i < size_ bm → getBit bm i = Val (test bm i).
Proof.
  intros Hok Hi. byte_step bm i Hok Hi.
  unfold getBit. destruct (Z.ltb_spec i (size_ bm)); [|lia]. simpl.
  unfold getBit_raw, bits_per_bitmap_atom_. rewrite Hget. simpl.
  rewrite land_MASK_test, negb_involutive by lia.
  unfold test, test_raw. by rewrite Hlk.
Qed.

Lemma out_of_range bm i : size_ bm <= i →
  getBit bm i = Err EAssert ∧ setBit bm i = Err EAssert ∧ unsetBit bm i = Err EAssert.
Proof.
  intros Hi. unfold getBit, setBit, unsetBit.
  destruct (Z.ltb_spec i (size_ bm)); [lia|done].
Qed.

#[export] Program Instance bitmap_store_laws : BitStoreLaws Bitmap := {
  bs_test := test;
  bs_ok := bitmap_ok;
}.
Next Obligation. intros b Hb. apply Hb. Qed.
Next Obligation. exact getBit_in. Qed.
Next Obligation. intros b i Hi. by apply out_of_range. Qed.
Next Obligation. exact setBit_in. Qed.
Next Obligation. intros b i Hi. by apply out_of_range. Qed.
Next Obligation. exact unsetBit_in. Qed.
Next Obligation. intros b i Hi. by apply out_of_range. Qed.

Lemma popcount_zeros n : popcount (replicate n 0) = 0.
Proof. induction n; simpl; [done|]. rewrite IHn. done. Qed.

Lemma new_ok n : 0 <= n <= 2 ^ 63 → bitmap_ok (new n) ∧ ∀ i, 0 <= i → test (new n) i = false.
Proof.
  intros Hn. split; [split; simpl; try done|].
  - rewrite length_replicate, Z2Nat.id; [done|].
    unfold BITMAP_BYTE_COUNT, bits_per_bitmap_atom_.
    destruct (0 <? n mod 8); Z.to_euclidean_division_equations; lia.
  - apply Forall_replicate. unfold is_byte. lia.
  - by rewrite popcount_zeros.
  - intros i Hi. unfold test, test_raw. simpl.
    destruct (replicate _ 0 !! _) eqn:Hr; simpl; [|apply Z.bits_0].
    apply lookup_replicate in Hr as [-> _]. apply Z.bits_0.
Qed.

(** A byte write keeps the counter equal to the number of set bits. *)
Lemma setByte_in bm n byte : bitmap_ok bm → 0 <= n → n * 8 < size_ bm → is_byte byte →
  ∃ bm', setByte bm n byte = Val bm' ∧ bitmap_ok bm' ∧ size_ bm' = size_ bm ∧
    getByte bm' n = Val byte ∧
    (∀ j, 0 <= j → test bm' j = if bool_decide (j / 8 = n) then Z.testbit byte (j mod 8)
                                 else test bm j).
Proof.
  intros Hok Hn Hr Hbyte.
  assert (n * 8 / 8 = n) as Hdiv by (rewrite Z.div_mul; lia).
  pose proof (ok_size _ Hok) as Hsz.
  destruct (byte_at bm (n * 8) Hok ltac:(lia)) as (b & Hlk & Hb & Hget).
  pose proof (byte_index_range bm (n * 8) Hok ltac:(lia)) as Hidx.
  rewrite Hdiv in *.
  assert (u64 (n * 8) = n * 8) as Hw by (apply wrap_small; lia).
  unfold setByte, bits_per_bitmap_atom_. rewrite Hw.
  destruct (Z.ltb_spec (n * 8) (size_ bm)); [|lia]. simpl. rewrite Hget. simpl.
  rewrite !BIT_COUNT_popbyte by done. simpl.
  unfold zset. rewrite decide_True by lia. simpl.
  assert (bitmap_ok (mkBitmap (size_ bm)
    (u64 (u64 (num_bits_set_ bm - popbyte b) + popbyte byte))
    (<[Z.to_nat n:=byte]> (bitmap_ bm)))) as Hok'.
  { split; simpl; [done|by rewrite length_insert, (ok_length _ Hok)| |].
    - apply Forall_insert; [apply (ok_bytes _ Hok)|done].
    - rewrite (popcount_insert _ _ b) by done.
      unfold wrap. rewrite Zplus_mod_idemp_l, (ok_count _ Hok).
      rewrite Z.mod_small; [lia|].
      pose proof (popcount_range _ (Forall_insert _ _ (Z.to_nat n) _ (ok_bytes _ Hok) Hbyte)) as Hp.
      rewrite length_insert, (popcount_insert _ _ b) in Hp by done.
      rewrite (ok_length _ Hok) in Hp. unfold BITMAP_BYTE_COUNT, bits_per_bitmap_atom_ in Hp.
      destruct (0 <? size_ bm mod 8); Z.to_euclidean_division_equations; lia. }
  eexists. split_and!; [done|done|done| |].
  - unfold getByte, bits_per_bitmap_atom_. rewrite Hw. simpl.
    destruct (Z.ltb_spec (n * 8) (size_ bm)); [|lia]. simpl.
    apply zget_Val. split; [lia|]. apply list_lookup_insert_eq. lia.
  - intros j Hj. unfold test, test_raw. simpl. case_bool_decide as Hjn.
    + rewrite Hjn, list_lookup_insert_eq by lia. done.
    + rewrite list_lookup_insert_ne; [done|].
      intros ?. apply Hjn. Z.to_euclidean_division_equations; lia.
Qed.

(** ** Refinement: a bitmap is a set of indices *)

(** What a client can ask of a bitmap. *)
Inductive op : Set :=
| OSet (i : Z)
| OUnset (i : Z)
| OGet (i : Z)
| OSetByte (n byte : Z)
| OGetByte (n : Z)
| OCount
| OFree.

(** One operation of the code, with its result as a number. *)
Definition step (bm : Bitmap) (o : op) : res (Bitmap * Z) :=
  match o with
  | OSet i => '(bm, r) ← setBit bm i; Val (bm, Z.b2z r)
  | OUnset i => '(bm, r) ← unsetBit bm i; Val (bm, Z.b2z r)
  | OGet i => r ← getBit bm i; Val (bm, Z.b2z r)
  | OSetByte n byte => bm ← setByte bm n byte; Val (bm, 0)
  | OGetByte n => r ← getByte bm n; Val (bm, r)
  | OCount => Val (bm, getNumBitsSet bm)
  | OFree => Val (bm, getNumFreeBits bm)
  end.

(** The bits of byte [n] of a set, and the set with that byte replaced. *)
Definition byte_of (s : gset Z) (n : Z) : Z :=
  foldr (λ k acc, (if decide (8 * n + k ∈ s) then 2 ^ k else 0) + acc) 0
    [0; 1; 2; 3; 4; 5; 6; 7].
Definition byte_members (n byte : Z) : gset Z :=
  list_to_set (map (Z.add (8 * n)) (filter (λ k, Z.testbit byte k = true)
    [0; 1; 2; 3; 4; 5; 6; 7])).

(** The same operation on a set of indices, for a bitmap of [n] bits. *)
Definition spec_step (n : Z) (s : gset Z) (o : op) : res (gset Z * Z) :=
  match o with
  | OSet i => _ ← kassert (i <? n); Val ({[i]} ∪ s, Z.b2z (bool_decide (i ∉ s)))
  | OUnset i => _ ← kassert (i <? n); Val (s ∖ {[i]}, Z.b2z (bool_decide (i ∈ s)))
  | OGet i => _ ← kassert (i <? n); Val (s, Z.b2z (bool_decide (i ∈ s)))
  | OSetByte k byte => _ ← kassert (k * 8 <? n);
      Val (filter (λ i, i / 8 ≠ k) s ∪ byte_members k byte, 0)
  | OGetByte k => _ ← kassert (k * 8 <? n); Val (s, byte_of s k)
  | OCount => Val (s, Z.of_nat (size s))
  | OFree => Val (s, u64 (n - Z.of_nat (size s)))
  end.

(** The arguments are [size_t] and [uint8] values; a byte index times 8 does
    not wrap. *)
Definition op_args (o : op) : Prop :=
  match o with
  | OSet i | OUnset i | OGet i => 0 <= i < 2 ^ 64
  | OSetByte n byte => 0 <= n < 2 ^ 61 ∧ is_byte byte
  | OGetByte n => 0 <= n < 2 ^ 61
  | OCount | OFree => True
  end.

(** The set a bitmap stands for. *)
Definition abs (bm : Bitmap) : gset Z :=
  list_to_set (filter (λ i, test bm i = true) (seqZ 0 (8 * Z.of_nat (length (bitmap_ bm))))).

Lemma test_oob bm i : 8 * Z.of_nat (length (bitmap_ bm)) <= i → test bm i = false.
Proof.
  intros Hi. unfold test, test_raw. rewrite lookup_ge_None_2; [apply Z.bits_0|].
  Z.to_euclidean_division_equations; lia.
Qed.

Lemma elem_of_abs bm i : i ∈ abs bm ↔ 0 <= i ∧ test bm i = true.
Proof.
  unfold abs. rewrite elem_of_list_to_set, list_elem_of_filter, elem_of_seqZ.
  destruct (decide (i < 8 * Z.of_nat (length (bitmap_ bm)))); [naive_solver lia|].
  rewrite test_oob by lia. naive_solver.
Qed.

Lemma test_abs bm i : 0 <= i → test bm i = bool_decide (i ∈ abs bm).
Proof.
  intros. destruct (test bm i) eqn:Ht; symmetry.
  - apply bool_decide_eq_true. by rewrite elem_of_abs.
  - apply bool_decide_eq_false. rewrite elem_of_abs. intros [_ Ht']. congruence.
Qed.

(** The counter is the size of the set. *)
Lemma popcount_filter l :
  popcount l = Z.of_nat (length (filter (λ i, test_raw l i = true)
                                        (seqZ 0 (8 * Z.of_nat (length l))))).
Proof.
  induction l as [|b l IH] using rev_ind; [done|].
  replace (8 * Z.of_nat (length (l ++ [b]))) with (8 * Z.of_nat (length l) + 8)
    by (rewrite length_app; simpl; lia).
  rewrite seqZ_plus, filter_app, length_app, Nat2Z.inj_add by lia.
  replace (popcount (l ++ [b])) with (popcount l + popbyte b) by
    (clear IH; induction l as [|c l IHl]; simpl in *; [lia|rewrite <- IHl; lia]).
  rewrite IH. f_equal.
  - do 2 f_equal. apply filter_ext_in. intros i Hi%elem_of_seqZ.
    unfold test_raw. rewrite lookup_app_l; [done|].
    Z.to_euclidean_division_equations; lia.
  - rewrite Z.add_0_l. set (n := Z.of_nat (length l)).
    assert (∀ k, 0 <= k < 8 → test_raw (l ++ [b]) (8 * n + k) = Z.testbit b k) as Hk.
    { intros k Hk. unfold test_raw.
      replace ((8 * n + k) / 8) with n by (Z.to_euclidean_division_equations; lia).
      replace ((8 * n + k) mod 8) with k by (Z.to_euclidean_division_equations; lia).
      rewrite lookup_app_r by lia.
      replace (Z.to_nat n - length l)%nat with 0%nat by lia. done. }
    rewrite seqZ_map. change (seqZ 0 8) with [0; 1; 2; 3; 4; 5; 6; 7].
    assert (∀ ks, Forall (λ k, 0 <= k < 8) ks →
      foldr (λ k acc, Z.b2z (Z.testbit b k) + acc) 0 ks =
      Z.of_nat (length (filter (λ i, test_raw (l ++ [b]) i = true) (map (Z.add (8 * n)) ks)))) as H.
    { induction 1 as [|k ks Hr Hks IHks]; [done|]. simpl.
      rewrite filter_cons, IHks, Hk by lia.
      destruct (Z.testbit b k); simpl; lia. }
    apply H. repeat constructor; lia.
Qed.

Lemma popcount_size bm : popcount (bitmap_ bm) = Z.of_nat (size (abs bm)).
Proof.
  rewrite popcount_filter. unfold abs. rewrite size_list_to_set; [done|].
  apply NoDup_filter, NoDup_seqZ.
Qed.

Lemma abs_ext bm s : (∀ i, i ∈ s → 0 <= i) →
  (∀ i, 0 <= i → test bm i = bool_decide (i ∈ s)) → abs bm = s.
Proof.
  intros Hs Ht. apply set_eq. intros i. rewrite elem_of_abs. split.
  - intros [Hi H]. rewrite Ht in H by done. by apply bool_decide_eq_true in H.
  - intros Hi. split; [by apply Hs|]. rewrite Ht by auto. by apply bool_decide_eq_true.
Qed.

Lemma elem_of_byte_members n byte i : 0 <= n →
  i ∈ byte_members n byte ↔ 0 <= i ∧ i / 8 = n ∧ Z.testbit byte (i mod 8) = true.
Proof.
  intros Hn. unfold byte_members.
  rewrite elem_of_list_to_set, list_elem_of_In, in_map_iff.
  split.
  - intros (k & <- & Hk%list_elem_of_In). apply list_elem_of_filter in Hk as [Hb Hk].
    assert (0 <= k < 8) as Hr by (apply (proj1 (elem_of_seqZ 0 8 k)) in Hk; lia).
    replace ((8 * n + k) / 8) with n by (Z.to_euclidean_division_equations; lia).
    replace ((8 * n + k) mod 8) with k by (Z.to_euclidean_division_equations; lia).
    split_and!; [lia|done|done].
  - intros (Hi & Hd & Hb). exists (i mod 8).
    split; [Z.to_euclidean_division_equations; lia|].
    apply list_elem_of_In, list_elem_of_filter. split; [done|].
    apply (proj2 (elem_of_seqZ 0 8 (i mod 8))). Z.to_euclidean_division_equations; lia.
Qed.

Lemma byte_of_abs bm n b : 0 <= n → is_byte b →
  bitmap_ bm !! Z.to_nat n = Some b → byte_of (abs bm) n = b.
Proof.
  intros Hn Hb Hl.
  assert (∀ k, 0 <= k < 8 → bool_decide (8 * n + k ∈ abs bm) = Z.testbit b k) as Hk.
  { intros k Hk. rewrite <- test_abs by lia. unfold test, test_raw.
    replace ((8 * n + k) / 8) with n by (Z.to_euclidean_division_equations; lia).
    replace ((8 * n + k) mod 8) with k by (Z.to_euclidean_division_equations; lia).
    by rewrite Hl. }
  assert (∀ ks, Forall (λ k, 0 <= k < 8) ks →
    foldr (λ k acc, (if decide (8 * n + k ∈ abs bm) then 2 ^ k else 0) + acc) 0 ks =
    foldr (λ k acc, (if Z.testbit b k then 2 ^ k else 0) + acc) 0 ks) as H.
  { induction 1 as [|k ks Hr Hks IH]; [done|]. simpl. rewrite IH, <- Hk by done.
    by case_bool_decide; case_decide. }
  unfold byte_of. rewrite H by (repeat constructor; lia).
  apply Z.eqb_eq. apply (all_bytes_spec (λ b, foldr (λ k acc,
    (if Z.testbit b k then 2 ^ k else 0) + acc) 0 [0;1;2;3;4;5;6;7] =? b)); [|done].
  vm_compute. reflexivity.
Qed.

(** The simulation relation and one step of the simulation. *)
Record rel (n : Z) (bm : Bitmap) (s : gset Z) : Prop := {
  rel_ok : bitmap_ok bm;
  rel_size : size_ bm = n;
  rel_abs : abs bm = s;
}.

Lemma rel_intro n bm s : bitmap_ok bm → size_ bm = n → (∀ i, i ∈ s → 0 <= i) →
  (∀ i, 0 <= i → test bm i = bool_decide (i ∈ s)) → rel n bm s.
Proof. intros. split; [done|done|]. by apply abs_ext. Qed.

Lemma abs_nonneg bm i : i ∈ abs bm → 0 <= i.
Proof. rewrite elem_of_abs. tauto. Qed.

Lemma sim_bit n bm s i o : rel n bm s → 0 <= i → o = OSet i ∨ o = OUnset i ∨ o = OGet i →
  sim (rel n) (step bm o) (spec_step n s o).
Proof.
  intros [Hok Hsz <-] Hi Ho.
  destruct (decide (i < n)) as [Hin|Hin].
  - destruct (setBit_in bm i Hok ltac:(lia)) as (b1 & E1 & ? & ? & _ & T1).
    destruct (unsetBit_in bm i Hok ltac:(lia)) as (b2 & E2 & ? & ? & _ & T2).
    pose proof (getBit_in bm i Hok ltac:(lia)) as E3.
    destruct Ho as [->|[->| ->]]; simpl; destruct (Z.ltb_spec i n); try lia; simpl;
      rewrite ?E1, ?E2, ?E3; simpl; rewrite test_abs by done.
    + split; [by repeat case_bool_decide|]. apply rel_intro; [done|lia| |].
      * intros j [->%elem_of_singleton|?%abs_nonneg]%elem_of_union; done.
      * intros j Hj. rewrite T1, test_abs by done. repeat case_bool_decide; set_solver.
    + split; [done|]. apply rel_intro; [done|lia| |].
      * intros j [?%abs_nonneg _]%elem_of_difference; done.
      * intros j Hj. rewrite T2, test_abs by done. repeat case_bool_decide; set_solver.
    + split; [done|]. by split.
  - destruct (out_of_range bm i ltac:(lia)) as (Hg & Hs & Hu).
    destruct Ho as [->|[->| ->]]; simpl; rewrite ?Hg, ?Hs, ?Hu; simpl;
      destruct (Z.ltb_spec i n); try lia; done.
Qed.

Lemma sim_byte n bm s k o byte : rel n bm s → 0 <= k < 2 ^ 61 → is_byte byte →
  o = OSetByte k byte ∨ o = OGetByte k → sim (rel n) (step bm o) (spec_step n s o).
Proof.
  intros [Hok Hsz <-] Hk Hb Ho.
  assert (u64 (k * 8) = k * 8) as Hw by (apply wrap_small; lia).
  destruct (Z.ltb_spec (k * 8) n) as [Hin|Hout].
  - destruct Ho as [->| ->]; simpl; destruct (Z.ltb_spec (k * 8) n); try lia; simpl.
    + destruct (setByte_in bm k byte Hok ltac:(lia) ltac:(lia) Hb) as (b1 & E1 & ? & ? & _ & T).
      rewrite E1. simpl. split; [done|]. apply rel_intro; [done|lia| |].
      * intros j [[_ ?%abs_nonneg]%elem_of_filter|Hj]%elem_of_union; [done|].
        apply elem_of_byte_members in Hj; [tauto|lia].
      * intros j Hj. rewrite T, test_abs by done.
        destruct (decide (j / 8 = k)) as [He|He].
        -- rewrite bool_decide_true by done.
           destruct (Z.testbit byte (j mod 8)) eqn:Ht; symmetry;
             [apply bool_decide_eq_true|apply bool_decide_eq_false];
             rewrite elem_of_union, elem_of_filter, elem_of_byte_members by lia; intuition congruence.
        -- rewrite bool_decide_false by done. apply bool_decide_ext.
           rewrite elem_of_union, elem_of_filter, elem_of_byte_members by lia. tauto.
    + assert (k * 8 / 8 = k) as Hd by (rewrite Z.div_mul; lia).
      destruct (byte_at bm (k * 8) Hok ltac:(lia)) as (b & Hl & Hbb & Hget).
      rewrite Hd in *. unfold getByte, bits_per_bitmap_atom_. rewrite Hw, Hsz.
      destruct (Z.ltb_spec (k * 8) n); [|lia]. simpl. rewrite Hget. simpl.
      split; [|by split]. symmetry. apply byte_of_abs; [lia|done|done].
  - destruct Ho as [->| ->]; simpl; unfold setByte, getByte, bits_per_bitmap_atom_;
      rewrite Hw, Hsz; destruct (Z.ltb_spec (k * 8) n); try lia; done.
Qed.

Lemma bitmap_sim_step n bm s o : rel n bm s → op_args o → sim (rel n) (step bm o) (spec_step n s o).
Proof.
  intros Hr Ha. destruct o; simpl in Ha.
  1-3: eapply sim_bit; [done|apply Ha|naive_solver].
  - eapply sim_byte; [done|apply Ha|apply Ha|naive_solver].
  - eapply (sim_byte _ _ _ n0 _ 0); [done|apply Ha|unfold is_byte; lia|naive_solver].
  - destruct Hr as [Hok Hsz <-]. simpl. split; [|done].
    unfold getNumBitsSet. by rewrite (ok_count _ Hok), popcount_size.
  - destruct Hr as [Hok Hsz <-]. simpl. split; [|done].
    unfold getNumFreeBits. by rewrite (ok_count _ Hok), popcount_size, Hsz.
Qed.

Lemma rel_new n : 0 <= n <= 2 ^ 63 → rel n (new n) ∅.
Proof.
  intros Hn. destruct (new_ok n Hn) as [Hok Ht]. apply rel_intro; [done|done|set_solver|].
  intros i Hi. rewrite Ht by done. symmetry. apply bool_decide_eq_false. set_solver.
Qed.

(** ** Properties *)

(** C23: a fresh bitmap of [n] bits behaves as a set of indices: whatever the
    client does ([setBit], [unsetBit], [getBit], [setByte], [getByte],
    [getNumBitsSet], [getNumFreeBits], in any order), every result is the one
    the set gives, the counter is the cardinality of the set, and an index
    past the end fails the code's assertion. *)
Theorem bitmap_refines_set n os : 0 <= n <= 2 ^ 63 → Forall op_args os →
  run step (new n) os = run (spec_step n) ∅ os.
Proof. intros Hn Ha. apply (sim_run _ _ (rel n) op_args); [apply bitmap_sim_step|by apply rel_new|done]. Qed.

Definition history : list op :=
  [OSet 3; OSet 9; OSet 3; OCount; OUnset 9; OGet 9; OSetByte 0 200; OGetByte 0; OCount;
   OFree; OGet 7].

Lemma bitmap_refines_set_witness :
  0 <= 20 <= 2 ^ 63 ∧ run step (new 20) history = run (spec_step 20) ∅ history ∧
  run step (new 20) history = Val [1; 1; 0; 2; 1; 0; 0; 200; 3; 17; 1].
Proof.
  split; [lia|split; [|vm_compute; reflexivity]].
  apply (bitmap_refines_set 20 history); [lia|].
  repeat constructor; unfold is_byte; lia.
Defined.

End Bitmap.
