(* ===== verification/PageManager.v ===== *)
(** * PageManager: allocation of physical frames

    Models [common/include/mm/PageManager.h] and the run-time operations of
    [common/source/mm/PageManager.cpp] ([reservePages], [allocPPN], [freePPN]).
    The usage table is any [BitStore]; the kernel's is the [Bitmap].  The frame
    contents are part of the state because [freePPN] fills a frame with 0xFF
    and [allocPPN] asserts that nobody wrote to it since.  Each operation runs
    under the manager's spin lock and is one step here.  The constructor, which
    scans the boot memory map, is in [Boot]. *)

From S2P Require Import Prelude Bitmap.

Module PageManager.
Section pm.
Context {B : Type} `{BitStore B}.

Definition PAGE_SIZE : Z := 4096.

(** The frames are arrays of bytes indexed by their physical page number. *)
Record PageManager := mkPM {
  page_usage_table_ : B;
  number_of_pages_ : Z;
  lowest_unreserved_page_ : Z;
  frames : gmap Z (list Z);
}.

Definition getTotalNumPages (st : PageManager) : Z := number_of_pages_ st.
Definition getNumFreePages (st : PageManager) : Z :=
  u64 (bs_size (page_usage_table_ st) - bs_count (page_usage_table_ st)).

Definition filled (c : Z) : list Z := replicate (Z.to_nat PAGE_SIZE) c.

Definition frame (st : PageManager) (ppn : Z) : list Z :=
  default (filled 255) (frames st !! ppn).

(** [memset] over the frames [ppn], ..., [ppn + n - 1]. *)
Fixpoint fill_frames (fr : gmap Z (list Z)) (ppn : Z) (n : nat) (c : Z) : gmap Z (list Z) :=
  match n with
  | O => fr
  | S n => fill_frames (<[ppn := filled c]> fr) (ppn + 1) n c
  end.

(** [memnotchr(..., 0xFF, ...)] over the same frames: is there a byte that is
    not [c]? *)
Fixpoint frames_notchr (fr : gmap Z (list Z)) (ppn : Z) (n : nat) (c : Z) : bool :=
  match n with
  | O => false
  | S n => negb (forallb (Z.eqb c) (default (filled 255) (fr !! ppn)))
           || frames_notchr fr (ppn + 1) n c
  end.

(** [bool reservePages(uint32 ppn, uint32 num)]; the fuel bounds the
    recursion depth, which is [num]. *)
Fixpoint reservePages (fuel : nat) (n_pages : Z) (t : B) (ppn num : Z) : res (B * bool) :=
  match fuel with
  | O => Err EFuel
  | S fuel =>
      if ppn <? n_pages then
        used ← bs_get t ppn;
        if negb used then
          '(t, ok) ← (if num =? 1 then Val (t, true)
                      else reservePages fuel n_pages t (u32 (ppn + 1)) (u32 (num - 1)));
          if ok : bool then
            '(t, _) ← bs_set t ppn;
            Val (t, true)
          else Val (t, false)
        else Val (t, false)
      else Val (t, false)
  end.

(** The search loop of [allocPPN]: [found = 0] stands for "not found yet". *)
Fixpoint alloc_loop (fuel : nat) (n_pages k : Z) (t : B) (p found : Z) : res (B * Z) :=
  if (found =? 0) && (p <? n_pages) then
    match fuel with
    | O => Err EFuel
    | S fuel =>
        _ ← defined (negb (k =? 0));
        if negb (p mod k =? 0) then alloc_loop fuel n_pages k t (u32 (p + 1)) found
        else
          '(t, ok) ← reservePages (Z.to_nat k) n_pages t p k;
          alloc_loop fuel n_pages k t (u32 (p + 1)) (if ok : bool then p else found)
    end
  else Val (t, found).

(** The loop that moves [lowest_unreserved_page_] over used pages. *)
Fixpoint bump_lowest (fuel : nat) (n_pages : Z) (t : B) (low : Z) : res Z :=
  if low <? n_pages then
    match fuel with
    | O => Err EFuel
    | S fuel =>
        used ← bs_get t low;
        if used : bool then bump_lowest fuel n_pages t (u32 (low + 1)) else Val low
    end
  else Val low.

Definition allocPPN (st : PageManager) (page_size : Z) : res (PageManager * Z) :=
  let n := number_of_pages_ st in
  let k := page_size / PAGE_SIZE in
  _ ← kassert (page_size mod PAGE_SIZE =? 0);
  '(t, found) ← alloc_loop (Z.to_nat n) n k (page_usage_table_ st)
                  (lowest_unreserved_page_ st) 0;
  low ← bump_lowest (Z.to_nat n) n t (lowest_unreserved_page_ st);
  _ ← kassert (negb (found =? 0));
  _ ← kassert (negb (frames_notchr (frames st) found (Z.to_nat k) 255));
  Val (mkPM t n low (fill_frames (frames st) found (Z.to_nat k) 0), found).

(** The loop of [freePPN] over [p < bound]. *)
Fixpoint free_loop (fuel : nat) (t : B) (p bound : Z) : res B :=
  if p <? bound then
    match fuel with
    | O => Err EFuel
    | S fuel =>
        used ← bs_get t p;
        _ ← kassert used;
        '(t, _) ← bs_unset t p;
        free_loop fuel t (u32 (p + 1)) bound
    end
  else Val t.

(** [shared] is the answer of [COWManager::ppnShared(page_number)]. *)
Definition freePPN (shared : bool) (st : PageManager) (page_number page_size : Z)
  : res PageManager :=
  if shared then Val st else
  let k := page_size / PAGE_SIZE in
  _ ← kassert (page_size mod PAGE_SIZE =? 0);
  let fr := fill_frames (frames st) page_number (Z.to_nat k) 255 in
  let low := if page_number <? lowest_unreserved_page_ st then page_number
             else lowest_unreserved_page_ st in
  t ← free_loop (Z.to_nat k) (page_usage_table_ st) page_number (u32 (page_number + k));
  Val (mkPM t (number_of_pages_ st) low fr).

End pm.
Arguments PageManager B : clear implicits.

(** ** Correctness, for any bit store that keeps its promises *)

Section laws.
Context {B : Type} `{BitStoreLaws B}.
Implicit Types (st : PageManager B) (t : B).

(** The pages [p], ..., [p + k - 1] exist and are free. *)
Definition run_free (n : Z) (t : B) (p k : Z) : Prop :=
  p + k <= n ∧ ∀ j, p <= j < p + k → bs_test t j = false.

(** [t'] is [t] with the pages [p], ..., [p + k - 1] set to [v]. *)
Definition run_set (t t' : B) (p k : Z) (v : bool) : Prop :=
  bs_ok t' ∧ bs_size t' = bs_size t ∧
  ∀ j, 0 <= j → bs_test t' j = if bool_decide (p <= j < p + k) then v else bs_test t j.

Lemma reservePages_spec fuel n t p k :
  bs_ok t → bs_size t = n → n < 2 ^ 32 → 0 <= p → 0 < k < 2 ^ 32 →
  k <= Z.of_nat fuel →
  (run_free n t p k ∧ ∃ t', reservePages fuel n t p k = Val (t', true) ∧ run_set t t' p k true
     ∧ bs_count t' = bs_count t + k) ∨
  (¬ run_free n t p k ∧ reservePages fuel n t p k = Val (t, false)).
Proof.
  intros Hok Hsz Hn. revert p k.
  induction fuel as [|fuel IH]; intros p k Hp Hk Hkf; [lia|]. cbn [reservePages].
  destruct (Z.ltb_spec p n) as [Hpn|Hpn]; cycle 1.
  { right. split; [|done]. intros [? _]. lia. }
  rewrite bs_get_in by (done || lia). cbn.
  destruct (bs_test t p) eqn:Ht; cbn.
  { right. split; [|done]. intros [_ Hf]. rewrite Hf in Ht by lia. done. }
  assert (∀ t1, bs_ok t1 → bs_size t1 = n → run_set t t1 (p + 1) (k - 1) true →
    bs_count t1 = bs_count t + (k - 1) →
    ∃ t2, bs_set t1 p = Val (t2, true) ∧ run_set t t2 p k true ∧ bs_count t2 = bs_count t + k)
    as Hset.
  { intros t1 Hok1 Hsz1 (_ & _ & Ht1) Hc1.
    destruct (bs_set_in t1 p Hok1 ltac:(lia)) as (t2 & E & Hok2 & Hsz2 & Hc & Ht2).
    rewrite Ht1, bool_decide_false, Ht in E, Hc by lia.
    exists t2. split; [done|]. split; [|lia]. split_and!; [done|lia|].
    intros j Hj. rewrite Ht2, Ht1 by done.
    repeat case_bool_decide; simpl; try done; lia. }
  destruct (Z.eqb_spec k 1) as [->|Hk1]; cbn.
  - destruct (Hset t Hok Hsz) as (t2 & E & Hr & Hc); [|lia|].
    { split_and!; [done|done|]. intros j Hj. by rewrite bool_decide_false by lia. }
    rewrite E. cbn. left. split; [|by exists t2].
    split; [lia|]. intros j Hj. by replace j with p by lia.
  - rewrite (wrap_small 32 (p + 1)), (wrap_small 32 (k - 1)) by lia.
    destruct (IH (p + 1) (k - 1)) as [(Hf & t1 & E1 & Hr & Hc)|[Hf E1]]; [lia|lia|lia| |];
      rewrite E1; cbn.
    + destruct (Hset t1) as (t2 & E & Hr2 & Hc2); [apply Hr|by destruct Hr as (_ & -> & _)|done|lia|].
      rewrite E. cbn. left. split; [|by exists t2].
      destruct Hf as [? Hf]. split; [lia|]. intros j Hj.
      destruct (decide (j = p)); [by subst|apply Hf; lia].
    + right. split; [|done]. intros [? Hf']. apply Hf. split; [lia|].
      intros j Hj. apply Hf'. lia.
Qed.

Definition aligned_run (n : Z) (t : B) (k q : Z) : Prop := q mod k = 0 ∧ run_free n t q k.

Lemma used_no_run n t p k : 0 < k → bs_test t p = true → ¬ run_free n t p k.
Proof. intros Hk Ht [_ Hf]. rewrite Hf in Ht by lia. done. Qed.

(** The search: the first aligned free run at or after [p] is taken. *)
Lemma alloc_loop_spec fuel n k t p :
  bs_ok t → bs_size t = n → n < 2 ^ 32 → 0 < k < 2 ^ 32 → 0 <= p →
  bs_test t 0 = true → n - p <= Z.of_nat fuel →
  (∃ q t', alloc_loop fuel n k t p 0 = Val (t', q) ∧ p <= q ∧ 0 < q ∧ aligned_run n t k q ∧
     (∀ q', p <= q' < q → ¬ aligned_run n t k q') ∧
     run_set t t' q k true ∧ bs_count t' = bs_count t + k) ∨
  (alloc_loop fuel n k t p 0 = Val (t, 0) ∧ ∀ q', p <= q' → ¬ aligned_run n t k q').
Proof.
  intros Hok Hsz Hn Hk Hp Hz. revert p Hp.
  induction fuel as [|fuel IH]; intros p Hp Hf; cbn [alloc_loop]; rewrite Z.eqb_refl; cbn;
    (destruct (Z.ltb_spec p n); [|right; split; [done|intros q' ? [_ [? _]]; lia]]); [lia|].
  destruct (Z.eqb_spec k 0); [lia|]. cbn. rewrite (wrap_small 32) by lia.
  assert (¬ aligned_run n t k p → ∀ m, m = alloc_loop fuel n k t (p + 1) 0 →
    (∃ q t', m = Val (t', q) ∧ p <= q ∧ 0 < q ∧ aligned_run n t k q ∧
      (∀ q', p <= q' < q → ¬ aligned_run n t k q') ∧
      run_set t t' q k true ∧ bs_count t' = bs_count t + k) ∨
    (m = Val (t, 0) ∧ ∀ q', p <= q' → ¬ aligned_run n t k q')) as Hskip.
  { intros Hna m ->.
    destruct (IH (p + 1)) as [(q & t' & E & ? & ? & ? & Hmin & Hr)|[E Hno]]; [lia|lia|left|right].
    - exists q, t'. do 4 (split; [done||lia|]). split; [|exact Hr]. intros q' ?.
      destruct (decide (q' = p)); [by subst|apply Hmin; lia].
    - split; [done|]. intros q' ?. destruct (decide (q' = p)); [by subst|apply Hno; lia]. }
  destruct (Z.eqb_spec (p mod k) 0) as [Hal|Hal]; cbn; cycle 1.
  { apply Hskip; [|done]. intros [? _]. done. }
  destruct (reservePages_spec (Z.to_nat k) n t p k) as [(Hfree & t' & E & Hr & Hc)|[Hnf E]];
    [done|done|done|done|lia|lia| |]; rewrite E; cbn; cycle 1.
  { apply Hskip; [|done]. intros [_ ?]. done. }
  assert (0 < p) as Hp0.
  { destruct (decide (p = 0)) as [->|]; [|lia]. exfalso. by apply (used_no_run n t 0 k ltac:(lia) Hz). }
  left. exists p, t'. destruct fuel; cbn [alloc_loop];
    (destruct (Z.eqb_spec p 0); [lia|]); cbn; do 3 (split; [done||lia|]); (split; [by split|]);
    (split; [intros; lia|by split]).
Qed.

Lemma bump_lowest_spec fuel n t low :
  bs_ok t → bs_size t = n → n < 2 ^ 32 → 0 <= low <= n → n - low <= Z.of_nat fuel →
  ∃ low', bump_lowest fuel n t low = Val low' ∧ low <= low' <= n ∧
    (∀ p, low <= p < low' → bs_test t p = true) ∧ (low' < n → bs_test t low' = false).
Proof.
  intros Hok Hsz Hn. revert low.
  induction fuel as [|fuel IH]; intros low Hl Hf; cbn [bump_lowest];
    (destruct (Z.ltb_spec low n); [|exists low; split_and!; try done; intros; lia]); [lia|].
  rewrite bs_get_in by (done || lia). cbn.
  destruct (bs_test t low) eqn:Ht.
  - rewrite (wrap_small 32) by lia.
    destruct (IH (low + 1)) as (low' & E & ? & Hu & ?); [lia|lia|].
    exists low'. split_and!; [done|lia|lia| |done].
    intros p ?. destruct (decide (p = low)); [by subst|apply Hu; lia].
  - exists low. split_and!; try done. lia. intros; lia.
Qed.

Lemma fill_frames_lookup fr p n c j :
  fill_frames fr p n c !! j =
  if bool_decide (p <= j < p + Z.of_nat n) then Some (filled c) else fr !! j.
Proof.
  revert fr p. induction n as [|n IH]; intros fr p; cbn [fill_frames].
  - by rewrite bool_decide_false by lia.
  - rewrite IH. destruct (decide (p = j)) as [->|].
    + rewrite lookup_insert_eq. repeat case_bool_decide; try done; lia.
    + rewrite lookup_insert_ne by done. repeat case_bool_decide; try done; lia.
Qed.

Lemma forallb_eqb c (l : list Z) : forallb (Z.eqb c) l = true ↔ Forall (eq c) l.
Proof.
  induction l as [|x l IH]; cbn; [done|].
  rewrite andb_true_iff, Forall_cons, IH, Z.eqb_eq. done.
Qed.

Lemma frames_notchr_spec fr p n c :
  frames_notchr fr p n c = false ↔
  ∀ j, p <= j < p + Z.of_nat n → Forall (eq c) (default (filled 255) (fr !! j)).
Proof.
  revert p. induction n as [|n IH]; intros p; cbn [frames_notchr].
  - split; [intros _ j ?; lia|done].
  - rewrite orb_false_iff, negb_false_iff, IH, forallb_eqb. split.
    + intros [H1 H2] j ?. destruct (decide (j = p)) as [->|]; [done|apply H2; lia].
    + intros Hj. split; [|intros j ?]; apply Hj; lia.
Qed.

(** ** The manager's invariant *)

Record pm_ok st : Prop := {
  pm_table : bs_ok (page_usage_table_ st);
  pm_size : bs_size (page_usage_table_ st) = number_of_pages_ st;
  pm_pages : 0 < number_of_pages_ st < 2 ^ 32;
  pm_low : 0 <= lowest_unreserved_page_ st <= number_of_pages_ st;
  pm_below : ∀ p, 0 <= p < lowest_unreserved_page_ st → bs_test (page_usage_table_ st) p = true;
  pm_zero : bs_test (page_usage_table_ st) 0 = true;
}.

(** Nobody wrote to a free frame since it was filled with 0xFF. *)
Definition frames_clean st : Prop :=
  ∀ p, 0 <= p < number_of_pages_ st → bs_test (page_usage_table_ st) p = false →
    frame st p = filled 255.

Definition first_run st (k q : Z) : Prop :=
  0 < q ∧ aligned_run (number_of_pages_ st) (page_usage_table_ st) k q ∧
  ∀ q', 0 <= q' < q → ¬ aligned_run (number_of_pages_ st) (page_usage_table_ st) k q'.

Definition no_run st (k : Z) : Prop :=
  ∀ q', 0 <= q' → ¬ aligned_run (number_of_pages_ st) (page_usage_table_ st) k q'.

(** A page size that is a positive number of pages. *)
Definition pages (page_size k : Z) : Prop := page_size = PAGE_SIZE * k ∧ 0 < k < 2 ^ 20.

Lemma pages_div size k : pages size k →
  size / PAGE_SIZE = k ∧ (size mod PAGE_SIZE =? 0) = true ∧ 0 < k < 2 ^ 20.
Proof.
  intros [-> Hk]. unfold PAGE_SIZE. split_and!; [|apply Z.eqb_eq|lia|lia];
    Z.to_euclidean_division_equations; lia.
Qed.

(** What is left of [allocPPN] once the search has found [q]. *)
Lemma allocPPN_found st size k : pm_ok st → pages size k →
  (∃ q t' low', first_run st k q ∧
    run_set (page_usage_table_ st) t' q k true ∧
    bs_count t' = bs_count (page_usage_table_ st) + k ∧
    0 <= low' <= number_of_pages_ st ∧ (∀ p, 0 <= p < low' → bs_test t' p = true) ∧
    allocPPN st size =
      (_ ← kassert (negb (frames_notchr (frames st) q (Z.to_nat k) 255));
       Val (mkPM t' (number_of_pages_ st) low' (fill_frames (frames st) q (Z.to_nat k) 0), q))) ∨
  (no_run st k ∧ allocPPN st size = Err EAssert).
Proof.
  intros [Ht Hsz Hn Hlow Hbelow Hz] (Hd & Hm & Hk)%pages_div.
  unfold allocPPN. rewrite Hm, Hd. cbn.
  set (n := number_of_pages_ st) in *. set (t := page_usage_table_ st) in *.
  set (low := lowest_unreserved_page_ st) in *.
  assert (∀ q, 0 <= q < low → ¬ aligned_run n t k q) as Hbl.
  { intros q Hq [_ Hr]. revert Hr. apply used_no_run; [lia|by apply Hbelow]. }
  destruct (alloc_loop_spec (Z.to_nat n) n k t low) as [(q & t' & E & ? & ? & Ha & Hmin & Hr & Hc)|[E Hno]];
    try done; try lia; rewrite E; cbn.
  - left. pose proof Hr as (Hok' & Hsz' & Htest).
    destruct (bump_lowest_spec (Z.to_nat n) n t' low) as (low' & E' & ? & Hu & _);
      [done|lia|lia|done|lia|].
    rewrite E'. cbn. destruct (Z.eqb_spec q 0); [lia|]. cbn.
    exists q, t', low'. split.
    { split; [done|split; [done|]]. intros q' ?.
      destruct (decide (q' < low)); [apply Hbl; lia|apply Hmin; lia]. }
    split; [done|]. split; [done|]. split; [lia|]. split; [|done].
    intros p Hp. destruct (decide (p < low)); [|apply Hu; lia].
    rewrite Htest by lia. case_bool_decide; [done|]. apply Hbelow. lia.
  - right. split.
    + intros q' ?. destruct (decide (q' < low)); [apply Hbl; lia|apply Hno; lia].
    + destruct (bump_lowest_spec (Z.to_nat n) n t low) as (low' & -> & _); done || lia.
Qed.

Lemma pm_ok_run st t' q k v low' fr : pm_ok st → 0 < q → q + k <= number_of_pages_ st →
  run_set (page_usage_table_ st) t' q k v →
  0 <= low' <= number_of_pages_ st → (∀ p, 0 <= p < low' → bs_test t' p = true) →
  pm_ok (mkPM t' (number_of_pages_ st) low' fr).
Proof.
  intros [Ht Hsz Hn Hlow Hbelow Hz] Hq Hqk (Hok' & Hsz' & Htest) Hl Hb.
  split; cbn; [done|congruence|done|done|done|].
  rewrite Htest by done. rewrite bool_decide_false by lia. done.
Qed.

(** Filling the run of frames that was set keeps the clean frames clean. *)
Lemma frame_fill st t' low' q k c j : 0 <= k →
  frame (mkPM t' (number_of_pages_ st) low' (fill_frames (frames st) q (Z.to_nat k) c)) j =
  if bool_decide (q <= j < q + k) then filled c else frame st j.
Proof.
  intros Hk. unfold frame. cbn. rewrite fill_frames_lookup, Z2Nat.id by done.
  by case_bool_decide.
Qed.

Lemma clean_notchr st q k : frames_clean st → 0 <= k → 0 <= q →
  run_free (number_of_pages_ st) (page_usage_table_ st) q k →
  frames_notchr (frames st) q (Z.to_nat k) 255 = false.
Proof.
  intros Hc Hk Hq [? Hf]. apply frames_notchr_spec. intros j Hj. rewrite Z2Nat.id in Hj by done.
  fold (frame st j). rewrite Hc by (lia || by apply Hf).
  by apply Forall_replicate.
Qed.

(** The loop of [freePPN]. *)
Lemma free_loop_spec fuel t p k :
  bs_ok t → 0 <= p → 0 <= k <= Z.of_nat fuel → p + k <= bs_size t → bs_size t < 2 ^ 32 →
  ((∀ j, p <= j < p + k → bs_test t j = true) ∧
   ∃ t', free_loop fuel t p (p + k) = Val t' ∧ run_set t t' p k false ∧
         bs_count t' = bs_count t - k) ∨
  ((∃ j, p <= j < p + k ∧ bs_test t j = false) ∧ free_loop fuel t p (p + k) = Err EAssert).
Proof.
  revert t p k. induction fuel as [|fuel IH]; intros t p k Hok Hp Hk Hb Hs; cbn [free_loop];
    (destruct (Z.ltb_spec p (p + k)); cycle 1;
     [left; split; [intros; lia|]; exists t; split; [done|]; split; [|lia];
      split_and!; [done|done|]; intros; by rewrite bool_decide_false by lia|]); [lia|].
  rewrite bs_get_in by (done || lia). cbn.
  destruct (bs_test t p) eqn:Ht; cbn; [|right; split; [exists p; split; [lia|done]|done]].
  destruct (bs_unset_in t p Hok ltac:(lia)) as (t1 & E & Hok1 & Hsz1 & Hc1 & Ht1).
  rewrite E. cbn. rewrite Ht in Hc1. rewrite (wrap_small 32) by lia.
  replace (p + k) with ((p + 1) + (k - 1)) by lia.
  assert (∀ j, p + 1 <= j → bs_test t1 j = bs_test t j) as Hsame
    by (intros j Hj; rewrite Ht1 by lia; by rewrite bool_decide_false by lia).
  destruct (IH t1 (p + 1) (k - 1)) as [(Hu & t2 & E2 & (Hok2 & Hsz2 & Ht2) & Hc2)|[(j & Hj & Hjf) E2]];
    [done|lia|lia|lia|lia| |].
  - left. split.
    + intros j Hj. destruct (decide (j = p)) as [->|]; [done|]. rewrite <- Hsame by lia. apply Hu. lia.
    + exists t2. split; [done|]. split; [|lia]. split_and!; [done|lia|].
      intros j Hj. rewrite Ht2, Ht1 by done. repeat case_bool_decide; simpl; try done; lia.
  - right. split; [|done]. exists j. rewrite <- Hsame by lia. split; [lia|done].
Qed.

Lemma run_set_clean st t' low' q k v c : frames_clean st → 0 <= k → 0 <= q →
  run_set (page_usage_table_ st) t' q k v → (v = true ∨ c = 255) →
  frames_clean (mkPM t' (number_of_pages_ st) low' (fill_frames (frames st) q (Z.to_nat k) c)).
Proof.
  intros Hcl Hk Hq (_ & _ & Ht) Hv j Hj. cbn [page_usage_table_ number_of_pages_] in *.
  rewrite Ht, frame_fill by lia. case_bool_decide; [|by apply Hcl].
  destruct Hv as [->| ->]; done.
Qed.

Lemma allocPPN_ok st size k : pm_ok st → frames_clean st → pages size k →
  (∃ q st', allocPPN st size = Val (st', q) ∧ first_run st k q ∧
     run_set (page_usage_table_ st) (page_usage_table_ st') q k true ∧
     bs_count (page_usage_table_ st') = bs_count (page_usage_table_ st) + k ∧
     (∀ j, frame st' j = if bool_decide (q <= j < q + k) then filled 0 else frame st j) ∧
     number_of_pages_ st' = number_of_pages_ st ∧ pm_ok st' ∧ frames_clean st') ∨
  (no_run st k ∧ allocPPN st size = Err EAssert).
Proof.
  intros Hok Hcl Hp. pose proof (pages_div _ _ Hp) as (_ & _ & Hk).
  destruct (allocPPN_found st size k Hok Hp) as [(q & t' & low' & Hfr & Hr & Hc & Hl & Hb & E)|[? ?]];
    [left|by right].
  pose proof Hfr as (Hq & (_ & Hf) & _). pose proof Hf as [Hqk _].
  rewrite (clean_notchr st q k) in E by (done || lia).
  eexists q, _. split; [exact E|]. cbn [page_usage_table_ number_of_pages_].
  split; [done|]. split; [done|]. split; [done|].
  split; [intros j; apply frame_fill; lia|]. split; [done|].
  split; [by apply (pm_ok_run st t' q k true)|].
  apply (run_set_clean st t' low' q k true); auto; lia.
Qed.

Lemma freePPN_ok st p size k : pm_ok st → pages size k → 0 < p → p + k <= number_of_pages_ st →
  ((∀ j, p <= j < p + k → bs_test (page_usage_table_ st) j = true) ∧
   ∃ st', freePPN false st p size = Val st' ∧
     run_set (page_usage_table_ st) (page_usage_table_ st') p k false ∧
     bs_count (page_usage_table_ st') = bs_count (page_usage_table_ st) - k ∧
     (∀ j, frame st' j = if bool_decide (p <= j < p + k) then filled 255 else frame st j) ∧
     number_of_pages_ st' = number_of_pages_ st ∧ pm_ok st' ∧
     (frames_clean st → frames_clean st')) ∨
  ((∃ j, p <= j < p + k ∧ bs_test (page_usage_table_ st) j = false) ∧
   freePPN false st p size = Err EAssert).
Proof.
  intros Hok (Hd & Hm & Hk)%pages_div Hp Hpk. pose proof Hok as [Ht Hsz Hn Hlow Hbelow Hz].
  unfold freePPN. rewrite Hm, Hd. cbn. rewrite (wrap_small 32) by lia.
  destruct (free_loop_spec (Z.to_nat k) (page_usage_table_ st) p k)
    as [(Hu & t' & E & Hr & Hc)|[Hj E]]; [done|lia|lia|lia|lia| |];
    rewrite E; cbn; [left|by right].
  split; [done|]. eexists. split; [done|]. cbn [page_usage_table_ number_of_pages_].
  split; [done|]. split; [done|]. split; [intros j; apply frame_fill; lia|]. split; [done|].
  split.
  - apply (pm_ok_run st t' p k false); try done.
    + destruct (Z.ltb_spec p (lowest_unreserved_page_ st)); lia.
    + intros j Hj. destruct Hr as (_ & _ & Htest). rewrite Htest by lia.
      destruct (Z.ltb_spec p (lowest_unreserved_page_ st));
        rewrite bool_decide_false by lia; apply Hbelow; lia.
  - intros Hcl. apply (run_set_clean st t' _ p k false); auto; lia.
Qed.

(** ** Histories of allocations and frees *)

(** [reach st l]: the manager is in state [st] after some history of
    allocations and frees of allocated runs, and [l] lists the runs (first
    page and number of pages) handed out and not yet freed. *)
Inductive reach : PageManager B → list (Z * Z) → Prop :=
| reach_boot st : pm_ok st → frames_clean st → reach st []
| reach_alloc st l size k st' q : reach st l → pages size k →
    allocPPN st size = Val (st', q) → reach st' ((q, k) :: l)
| reach_free st l1 l2 size k st' q : reach st (l1 ++ (q, k) :: l2) → pages size k →
    freePPN false st q size = Val st' → reach st' (l1 ++ l2).

Definition in_run (r : Z * Z) (j : Z) : Prop := r.1 <= j < r.1 + r.2.
Definition disjoint_runs (r r' : Z * Z) : Prop := ∀ j, ¬ (in_run r j ∧ in_run r' j).
Definition run_owned st (r : Z * Z) : Prop :=
  0 < r.1 ∧ 0 < r.2 < 2 ^ 20 ∧ r.1 + r.2 <= number_of_pages_ st ∧
  ∀ j, in_run r j → bs_test (page_usage_table_ st) j = true.

Lemma run_owned_step st st' q k v r :
  run_set (page_usage_table_ st) (page_usage_table_ st') q k v →
  number_of_pages_ st' = number_of_pages_ st →
  v = true ∨ disjoint_runs (q, k) r → run_owned st r → run_owned st' r.
Proof.
  intros (_ & _ & Ht) Hn Hv (H1 & H2 & H3 & H4). split_and!; [done|lia|lia|congruence|].
  intros j Hj. unfold in_run in Hj. rewrite Ht by lia. case_bool_decide; [|by apply H4].
  destruct Hv as [?|Hd]; [done|]. exfalso. by apply (Hd j).
Qed.

Lemma disjoint_remove l1 l2 r0 : ForallOrdPairs disjoint_runs (l1 ++ r0 :: l2) →
  Forall (disjoint_runs r0) l1 ∧ Forall (disjoint_runs r0) l2 ∧
  ForallOrdPairs disjoint_runs (l1 ++ l2).
Proof.
  intros Hdis. induction l1 as [|r l1 IH]; cbn in *.
  - inversion_clear Hdis. split_and!; auto.
  - inversion_clear Hdis as [|? ? Hr Hl]. apply Forall_app in Hr as [Hr1 Hr2].
    apply Forall_cons in Hr2 as [Hrq Hr2]. destruct (IH Hl) as (? & ? & ?).
    split_and!; [|done|]; (constructor; [|done]); [|by apply Forall_app].
    intros j [? ?]. by apply (Hrq j).
Qed.

Lemma reach_inv st l : reach st l →
  pm_ok st ∧ frames_clean st ∧ Forall (run_owned st) l ∧ ForallOrdPairs disjoint_runs l.
Proof.
  induction 1 as [st Hok Hcl|st l size k st' q Hre (Hok & Hcl & Hown & Hdis) Hp E
                 |st l1 l2 size k st' q Hre (Hok & Hcl & Hown & Hdis) Hp E].
  - split_and!; [done|done|constructor|constructor].
  - pose proof (pages_div _ _ Hp) as (_ & _ & Hk).
    destruct (allocPPN_ok st size k Hok Hcl Hp) as [(q' & st2 & E' & Hfr & Hr & _ & _ & Hn & ? & ?)|[_ ?]];
      [|congruence].
    rewrite E in E'. injection E' as <- <-. destruct Hfr as (Hq & (_ & Hqk & Hf) & _).
    split_and!; [done|done| |].
    + constructor.
      * split_and!; cbn; try lia. intros j Hj. unfold in_run in Hj. cbn in Hj.
        destruct Hr as (_ & _ & Ht). rewrite Ht by lia. by rewrite bool_decide_true by lia.
      * eapply Forall_impl; [exact Hown|]. intros r. eapply run_owned_step; eauto.
    + constructor; [|done]. eapply Forall_impl; [exact Hown|].
      intros r (_ & _ & _ & Hu) j [Hj1 Hj2]. specialize (Hu j Hj2).
      unfold in_run in Hj1. cbn in Hj1. by rewrite Hf in Hu by lia.
  - apply Forall_app in Hown as [Ho1 Ho2]. apply Forall_cons in Ho2 as [Hq Ho2].
    destruct Hq as (H1 & H2 & H3 & H4). cbn in H1, H2, H3, H4.
    destruct (freePPN_ok st q size k Hok Hp H1 H3) as [(_ & st2 & E' & Hr & _ & _ & Hn & ? & Hcl')|[_ ?]];
      [|congruence].
    rewrite E in E'. injection E' as <-.
    destruct (disjoint_remove l1 l2 (q, k) Hdis) as (Hd1 & Hd2 & Hd).
    split_and!; [done|by apply Hcl'| |done].
    apply Forall_app; split; apply Forall_forall; intros r Hr'.
    + eapply run_owned_step; [done|done| |by eapply Forall_forall in Ho1]. right.
      by eapply Forall_forall in Hd1.
    + eapply run_owned_step; [done|done| |by eapply Forall_forall in Ho2]. right.
      by eapply Forall_forall in Hd2.
Qed.

(** ** Properties *)

(** C38: [allocPPN] is a first-fit allocator.  From a state that satisfies the
    manager's invariant, in which no free frame was written to, a request for
    [k] pages returns the lowest run of [k] free pages whose start is a
    multiple of [k]; exactly that run becomes used, the counter grows by [k],
    its frames are zeroed, every other frame and every other page is left
    alone, and the invariant holds again.  It fails its "out of memory"
    assertion exactly when no such run exists. *)
Theorem allocPPN_first_fit st size k : pm_ok st → frames_clean st → pages size k →
  (∃ q st', allocPPN st size = Val (st', q) ∧ first_run st k q ∧
     run_set (page_usage_table_ st) (page_usage_table_ st') q k true ∧
     bs_count (page_usage_table_ st') = bs_count (page_usage_table_ st) + k ∧
     (∀ j, frame st' j = if bool_decide (q <= j < q + k) then filled 0 else frame st j) ∧
     number_of_pages_ st' = number_of_pages_ st ∧ pm_ok st' ∧ frames_clean st') ∨
  (no_run st k ∧ allocPPN st size = Err EAssert).
Proof. intros Hok Hcl Hp. exact (allocPPN_ok st size k Hok Hcl Hp). Qed.

(** [freePPN] of a run inside memory (page 0 apart) either frees exactly
    that run, fills its frames with 0xFF, leaves everything else alone and
    keeps the invariant, or fails the "double free" assertion, the latter
    exactly when some page of the run is already free. *)
Theorem freePPN_frees_or_detects st p size k :
  pm_ok st → pages size k → 0 < p → p + k <= number_of_pages_ st →
  ((∀ j, p <= j < p + k → bs_test (page_usage_table_ st) j = true) ∧
   ∃ st', freePPN false st p size = Val st' ∧
     run_set (page_usage_table_ st) (page_usage_table_ st') p k false ∧
     bs_count (page_usage_table_ st') = bs_count (page_usage_table_ st) - k ∧
     (∀ j, frame st' j = if bool_decide (p <= j < p + k) then filled 255 else frame st j) ∧
     number_of_pages_ st' = number_of_pages_ st ∧ pm_ok st' ∧
     (frames_clean st → frames_clean st')) ∨
  ((∃ j, p <= j < p + k ∧ bs_test (page_usage_table_ st) j = false) ∧
   freePPN false st p size = Err EAssert).
Proof. intros Hok Hp Hpos Hin. exact (freePPN_ok st p size k Hok Hp Hpos Hin). Qed.

(** C24: no physical page is ever handed out twice.  After any history of
    allocations and frees the runs that are handed out are pairwise disjoint,
    lie inside memory, and can all be freed again without a failed assertion. *)
Theorem owned_runs_disjoint st l : reach st l →
  ForallOrdPairs disjoint_runs l ∧
  ∀ r, r ∈ l → r.1 + r.2 <= number_of_pages_ st ∧
    is_val (freePPN false st r.1 (PAGE_SIZE * r.2)) = true.
Proof.
  intros (Hok & _ & Hown & Hdis)%reach_inv. split; [done|]. intros r Hr.
  rewrite Forall_forall in Hown. destruct (Hown r Hr) as (H1 & H2 & H3 & Hu). split; [done|].
  destruct (freePPN_ok st r.1 (PAGE_SIZE * r.2) r.2) as [(_ & st' & -> & _)|((j & Hj & Hf) & _)];
    try done. rewrite Hu in Hf; done.
Qed.

(** a write to a free frame is caught.  If one byte of the frames
    [allocPPN] is about to hand out is no longer 0xFF, the call fails its
    assertion instead of returning the run. *)
Theorem use_after_free_detected st size k q j x :
  pm_ok st → pages size k → first_run st k q → q <= j < q + k →
  x ∈ frame st j → x ≠ 255 → allocPPN st size = Err EAssert.
Proof.
  intros Hok Hp Hf Hj Hx Hne. pose proof (pages_div _ _ Hp) as (_ & _ & Hk).
  destruct (allocPPN_found st size k Hok Hp) as [(q' & t' & low' & Hf' & _ & _ & _ & _ & E)|[_ ?]];
    [|done].
  assert (q' = q) as ->.
  { destruct Hf as (Hq & Ha & Hm), Hf' as (Hq' & Ha' & Hm').
    destruct (Z.lt_trichotomy q q') as [|[|]]; [|done|].
    - exfalso. apply (Hm' q); [lia|done].
    - exfalso. apply (Hm q'); [lia|done]. }
  rewrite E. destruct (frames_notchr _ _ _ _) eqn:Hnc; [done|]. exfalso. apply Hne.
  rewrite frames_notchr_spec in Hnc. specialize (Hnc j ltac:(lia)).
  rewrite Forall_forall in Hnc. symmetry. by apply Hnc.
Qed.
End laws.

(** ** The kernel's page manager: the interface implemented by [Bitmap] *)

#[export] Existing Instances Bitmap.bitmap_store Bitmap.bitmap_store_laws.

(** Eight pages, of which page 0 and page 3 are in use. *)
Definition demo : PageManager Bitmap.Bitmap :=
  mkPM (Bitmap.mkBitmap 8 2 [9]) 8 1 ∅.

Lemma demo_ok : pm_ok demo ∧ frames_clean demo.
Proof.
  split; [split; try done|done].
  - split; try done. cbn. repeat constructor; unfold is_byte; lia.
  - intros p Hp. cbn in Hp. by replace p with 0 by lia.
Qed.

Lemma demo_pages : pages 8192 2 ∧ pages 4096 1.
Proof. unfold pages, PAGE_SIZE. lia. Qed.

Lemma allocPPN_first_fit_witness : pm_ok demo ∧ frames_clean demo ∧ pages 8192 2 ∧
  ((∃ q st', allocPPN demo 8192 = Val (st', q) ∧ first_run demo 2 q ∧
     run_set (page_usage_table_ demo) (page_usage_table_ st') q 2 true ∧
     bs_count (page_usage_table_ st') = bs_count (page_usage_table_ demo) + 2 ∧
     (∀ j, frame st' j = if bool_decide (q <= j < q + 2) then filled 0 else frame demo j) ∧
     number_of_pages_ st' = number_of_pages_ demo ∧ pm_ok st' ∧ frames_clean st') ∨
   (no_run demo 2 ∧ allocPPN demo 8192 = Err EAssert)) ∧
  (r ← allocPPN demo 8192; Val r.2) = Val 4.
Proof.
  destruct demo_ok as [H1 H2]. destruct demo_pages as [H3 _].
  split; [exact H1|split; [exact H2|split; [exact H3|split]]].
  - exact (allocPPN_first_fit demo 8192 2 H1 H2 H3).
  - vm_compute. reflexivity.
Defined.

Lemma freePPN_frees_or_detects_witness :
  pm_ok demo ∧ pages 4096 1 ∧ 3 + 1 <= number_of_pages_ demo ∧
  is_val (freePPN false demo 3 4096) = true ∧ freePPN false demo 4 4096 = Err EAssert.
Proof.
  destruct demo_ok as [H1 H2]. destruct demo_pages as [_ H3].
  split; [exact H1|split; [exact H3|split; [cbn; lia|]]].
  destruct (freePPN_frees_or_detects demo 3 4096 1 H1 H3 ltac:(lia) ltac:(cbn; lia))
    as [(_ & st' & E & _)|(_ & E)]; [|vm_compute in E; discriminate].
  split; [rewrite E; reflexivity|vm_compute; reflexivity].
Defined.

(** Two allocations followed by a free of the first. *)
Definition demo_history : res (PageManager Bitmap.Bitmap * Z * Z) :=
  '(st1, q1) ← allocPPN demo 8192;
  '(st2, q2) ← allocPPN st1 4096;
  st3 ← freePPN false st2 q1 8192;
  Val (st3, q1, q2).

Lemma demo_reach st q1 q2 : demo_history = Val (st, q1, q2) → reach st [(q2, 1)].
Proof.
  intros E. unfold demo_history in E.
  destruct demo_ok as [H1 H2]. destruct demo_pages as [H3 H4].
  destruct (allocPPN demo 8192) as [[st1 q]|] eqn:E1; [|done]. cbn [mbind res_bind] in E.
  destruct (allocPPN st1 4096) as [[st2 q']|] eqn:E2; [|done]. cbn [mbind res_bind] in E.
  destruct (freePPN false st2 q 8192) as [st3|] eqn:E3; [|done]. cbn [mbind res_bind] in E.
  injection E as <- <- <-.
  apply (reach_free st2 [(q', 1)] [] 8192 2 st3 q); [|done|done].
  eapply reach_alloc; [|exact H4|exact E2]. eapply reach_alloc; [|exact H3|exact E1].
  by apply reach_boot.
Qed.

Lemma owned_runs_disjoint_witness : ∃ st q1 q2, demo_history = Val (st, q1, q2) ∧
  q1 = 4 ∧ q2 = 1 ∧ reach st [(q2, 1)] ∧ is_val (freePPN false st q2 4096) = true.
Proof.
  destruct demo_history as [[[st q1] q2]|e] eqn:E; [|vm_compute in E; discriminate].
  pose proof (demo_reach st q1 q2 E) as Hr.
  exists st, q1, q2. split; [reflexivity|].
  split; [apply (f_equal (λ m, match m with Val r => r.1.2 | Err _ => 0 end)) in E;
          vm_compute in E; by symmetry|].
  split; [apply (f_equal (λ m, match m with Val r => r.2 | Err _ => 0 end)) in E;
          vm_compute in E; by symmetry|].
  split; [exact Hr|].
  destruct (owned_runs_disjoint st [(q2, 1)] Hr) as [_ H].
  apply (H (q2, 1)). apply list_elem_of_singleton. reflexivity.
Defined.

(** [demo] after a stray write of 7 to the first byte of the free page 4. *)
Definition demo_dirty : PageManager Bitmap.Bitmap :=
  mkPM (page_usage_table_ demo) 8 1 {[4 := <[0%nat := 7]> (filled 255)]}.

Lemma use_after_free_detected_witness :
  pm_ok demo_dirty ∧ first_run demo_dirty 2 4 ∧ allocPPN demo_dirty 8192 = Err EAssert.
Proof.
  assert (pm_ok demo_dirty) as H1.
  { destruct demo_ok as [[? ? ? ? ? ?] _]. split; assumption. }
  assert (first_run demo_dirty 2 4) as H2.
  { split; [lia|split].
    - split; [done|]. split; [cbn; lia|]. intros j Hj.
      assert (j = 4 ∨ j = 5) as [->| ->] by lia; done.
    - intros q' Hq' [Hm [_ Hf]].
      assert (q' = 0 ∨ q' = 1 ∨ q' = 2 ∨ q' = 3) as [->|[->|[->| ->]]] by lia.
      + specialize (Hf 0 ltac:(lia)). discriminate.
      + discriminate.
      + specialize (Hf 3 ltac:(lia)). discriminate.
      + discriminate. }
  split; [exact H1|split; [exact H2|]].
  apply (use_after_free_detected demo_dirty 8192 2 4 4 7 H1 (proj1 demo_pages) H2); [lia| |lia].
  change (frame demo_dirty 4) with (<[0%nat := 7]> (filled 255)).
  apply list_elem_of_lookup. exists 0%nat. reflexivity.
Defined.

End PageManager.
