(* ===== verification/Queues.v ===== *)
(** * RingBuffer and FiFo: the kernel's bounded queues

    Models [common/include/util/RingBuffer.h] and [common/include/util/FiFo.h].
    Both keep an array, a write position and a read position; the slot at the
    read position is never occupied, so a queue over [n] slots holds at most
    [n - 1] elements.  The relation [ring] states which list of elements the
    array and the two positions stand for; both classes are proved against it.
    [FiFo] runs every operation under its mutex, so one operation is one step
    ([Err EBlock]: the caller waits on the condition variable).  [RingBuffer] has
    no lock: its [put] and [get] are also modelled as the interleaved memory
    accesses of one producer and one consumer. *)

From S2P Require Import Prelude.

Module Ring.
Section ring.
Context {A : Type}.
Implicit Types (buf l : list A).

(** The slot of the [k]-th element. *)
Definition slot (n r k : Z) : Z := (r + 1 + k) mod n.

(** The elements [l], oldest first, are what the array [buf] of [n] slots with
    write position [w] and read position [r] holds. *)
Record ring (n : Z) (buf : list A) (w r : Z) (l : list A) : Prop := {
  ring_n : 1 < n < 2 ^ 32;
  ring_len : Z.of_nat (length buf) = n;
  ring_r : 0 <= r < n;
  ring_w : w = slot n r (Z.of_nat (length l));
  ring_cap : Z.of_nat (length l) < n;
  ring_at : ∀ k x, l !! k = Some x → buf !! Z.to_nat (slot n r (Z.of_nat k)) = Some x;
}.

Lemma slot_range n r k : 1 < n → 0 <= slot n r k < n.
Proof. intros. apply Z.mod_pos_bound. lia. Qed.

Lemma slot_cases n r k : 0 <= r < n → 0 <= k < n →
  slot n r k = r + 1 + k ∨ slot n r k = r + 1 + k - n.
Proof.
  intros Hr Hk. unfold slot. destruct (decide (r + 1 + k < n)); [left; apply Z.mod_small; lia|right].
  rewrite <- (Z_mod_plus_full _ (-1)). rewrite Z.mod_small; lia.
Qed.

Lemma slot_inj n r k k' : 1 < n → 0 <= k < n → 0 <= k' < n → slot n r k = slot n r k' → k = k'.
Proof.
  unfold slot. intros Hn Hk Hk' E.
  pose proof (Z.div_mod (r + 1 + k) n ltac:(lia)) as E1.
  pose proof (Z.div_mod (r + 1 + k') n ltac:(lia)) as E2. rewrite E in E1.
  set (q1 := (r + 1 + k) / n) in *. set (q2 := (r + 1 + k') / n) in *.
  assert (q1 - q2 = 0) by (assert (k - k' = n * (q1 - q2)) by lia; nia). nia.
Qed.

Lemma slot_succ n r k : 1 < n → (slot n r k + 1) mod n = slot n r (k + 1).
Proof. intros. unfold slot. rewrite Zplus_mod_idemp_l. f_equal. lia. Qed.

Lemma slot_shift n r k : 1 < n → slot n ((r + 1) mod n) k = slot n r (k + 1).
Proof.
  intros. unfold slot. rewrite <- Z.add_assoc, Zplus_mod_idemp_l. f_equal. lia.
Qed.

Lemma ring_w_range n buf w r l : ring n buf w r l → 0 <= w < n.
Proof. intros H. rewrite (ring_w _ _ _ _ _ H). apply slot_range, H. Qed.

Lemma ring_new n buf : 1 < n < 2 ^ 32 → Z.of_nat (length buf) = n → ring n buf 1 0 [].
Proof.
  intros Hn Hl. split; [done|done|lia| |cbn; lia|done].
  unfold slot. rewrite Z.mod_small; cbn; lia.
Qed.

Lemma ring_full n buf w r l : ring n buf w r l → w = r ↔ Z.of_nat (length l) = n - 1.
Proof.
  intros [Hn _ Hr -> Hc _]. assert (slot n r (n - 1) = r) as Hs; [|rewrite <- Hs at 2].
  - unfold slot. replace (r + 1 + (n - 1)) with (r + 1 * n) by lia.
    rewrite Z_mod_plus_full. by apply Z.mod_small.
  - split; [intros E%slot_inj; lia|by intros ->].
Qed.

Lemma ring_empty n buf w r l : ring n buf w r l → w = (r + 1) mod n ↔ l = [].
Proof.
  intros [Hn _ Hr -> Hc _]. replace ((r + 1) mod n) with (slot n r 0) by (unfold slot; f_equal; lia).
  split.
  - intros E%slot_inj; [|lia..]. destruct l; [done|cbn in E; lia].
  - intros ->. done.
Qed.

Lemma ring_put n buf w r l c : ring n buf w r l → w ≠ r →
  ring n (<[Z.to_nat w := c]> buf) ((w + 1) mod n) r (l ++ [c]).
Proof.
  intros Hring Hw. pose proof (ring_full _ _ _ _ _ Hring) as Hf.
  pose proof (ring_w_range _ _ _ _ _ Hring) as Hwr.
  destruct Hring as [Hn Hl Hr Hw' Hc Hat].
  assert (Z.of_nat (length l) < n - 1) by (destruct (decide (Z.of_nat (length l) = n - 1)); [tauto|lia]).
  split; [done|by rewrite length_insert|done| | |].
  - rewrite Hw', slot_succ by lia. f_equal. rewrite length_app. cbn. lia.
  - rewrite length_app. cbn. lia.
  - intros k x Hk. destruct (decide (k < length l)%nat) as [Hlt|Hge].
    + rewrite lookup_app_l in Hk by done.
      rewrite list_lookup_insert_ne; [by apply Hat|].
      intros E. rewrite Hw' in E. apply Z2Nat.inj in E; [|apply slot_range; lia..].
      apply slot_inj in E; lia.
    + rewrite lookup_app_r in Hk by lia. apply list_lookup_singleton_Some in Hk as [Hk ->].
      replace k with (length l) by lia. rewrite <- Hw'. apply list_lookup_insert_eq. lia.
Qed.

Lemma ring_get n buf w r x l : ring n buf w r (x :: l) →
  zget buf ((r + 1) mod n) = Val x ∧ ring n buf w ((r + 1) mod n) l.
Proof.
  intros [Hn Hl Hr Hw Hc Hat]. pose proof (Z.mod_pos_bound (r + 1) n ltac:(lia)). split.
  - apply zget_Val. split; [lia|].
    replace ((r + 1) mod n) with (slot n r 0) by (unfold slot; f_equal; lia).
    by apply (Hat 0%nat x).
  - cbn [length] in *. split; [done|done|done| |lia|].
    + rewrite slot_shift, Hw by lia. f_equal. lia.
    + intros k y Hk. rewrite slot_shift by lia.
      replace (Z.of_nat k + 1) with (Z.of_nat (S k)) by lia. by apply Hat.
Qed.

(** A store outside the occupied slots changes nothing. *)
Lemma ring_store n buf w r l c : ring n buf w r l → ring n (<[Z.to_nat w := c]> buf) w r l.
Proof.
  intros [Hn Hl Hr Hw Hc Hat]. split; [done|by rewrite length_insert|done|done|done|].
  intros k x Hk. pose proof (lookup_lt_Some _ _ _ Hk).
  rewrite list_lookup_insert_ne; [by apply Hat|].
  intros E. rewrite Hw in E. apply Z2Nat.inj in E; [|apply slot_range; lia..].
  apply slot_inj in E; lia.
Qed.

(** The queue both classes are meant to be: at most [n - 1] elements. *)
Definition q_put (n : Z) (l : list A) (c : A) : list A * bool :=
  if Z.of_nat (length l) =? n - 1 then (l, false) else (l ++ [c], true).
Definition q_get (l : list A) : list A * option A :=
  match l with [] => ([], None) | x :: l => (l, Some x) end.
End ring.
End Ring.
Import Ring.

(** ** RingBuffer *)

Module RingBuffer.

Record RingBuffer (T : Type) := mkRB {
  buffer_size_ : Z;
  buffer_ : list T;
  write_pos_ : Z;
  read_pos_ : Z;
  connected_proc_counter_ : Z;
}.
Arguments mkRB {T}.
Arguments buffer_size_ {T}.
Arguments buffer_ {T}.
Arguments write_pos_ {T}.
Arguments read_pos_ {T}.
Arguments connected_proc_counter_ {T}.

Section code.
Context {T : Type}.
Implicit Types (rb : RingBuffer T).

(** The constructor; [garbage] is what [new T[size]] happens to contain. *)
Definition new (size : Z) (garbage : list T) : res (RingBuffer T) :=
  _ ← kassert (1 <? size);
  Val (mkRB size garbage 1 0 0).

Definition put rb (c : T) : res (RingBuffer T * bool) :=
  let old_write_pos := write_pos_ rb in
  if old_write_pos =? read_pos_ rb then Val (rb, false)
  else
    b ← zset (buffer_ rb) old_write_pos c;
    Val (mkRB (buffer_size_ rb) b ((old_write_pos + 1) mod buffer_size_ rb) (read_pos_ rb)
              (connected_proc_counter_ rb), true).

Definition clear rb : RingBuffer T :=
  mkRB (buffer_size_ rb) (buffer_ rb) 1 0 (connected_proc_counter_ rb).

(** [bool get(T& c)]: [None] when there is nothing to read. *)
Definition get rb : res (RingBuffer T * option T) :=
  let new_read_pos := u32 ((read_pos_ rb + 1) mod buffer_size_ rb) in
  if write_pos_ rb =? new_read_pos then Val (rb, None)
  else
    c ← zget (buffer_ rb) new_read_pos;
    Val (mkRB (buffer_size_ rb) (buffer_ rb) (write_pos_ rb) new_read_pos
              (connected_proc_counter_ rb), Some c).

Definition incProcCount rb : RingBuffer T :=
  mkRB (buffer_size_ rb) (buffer_ rb) (write_pos_ rb) (read_pos_ rb)
       (u64 (connected_proc_counter_ rb + 1)).
Definition decProcCount rb : RingBuffer T :=
  mkRB (buffer_size_ rb) (buffer_ rb) (write_pos_ rb) (read_pos_ rb)
       (u64 (connected_proc_counter_ rb - 1)).
Definition getProcCount rb : Z := connected_proc_counter_ rb.

(** ** One producer and one consumer, access by access *)

(** Where the producer is inside [put]: before it, before the comparison with
    [read_pos_], before the store, before [write_pos_] is published. *)
Inductive prod_pc :=
| PIdle
| PCmp (c : T) (old_write_pos : Z)
| PStore (c : T) (old_write_pos : Z)
| PPub (c : T) (old_write_pos : Z).

(** The same for the consumer inside [get]. *)
Inductive cons_pc :=
| CIdle
| CCmp (new_read_pos : Z)
| CRead (new_read_pos : Z)
| CPub (new_read_pos : Z) (c : T).

(** The shared buffer, both program counters, and the values [put] returned
    [true] for and [get] returned so far. *)
Record conf := mkConf {
  cf_rb : RingBuffer T;
  cf_prod : prod_pc;
  cf_cons : cons_pc;
  cf_sent : list T;
  cf_received : list T;
}.

Definition set_buffer rb b : RingBuffer T :=
  mkRB (buffer_size_ rb) b (write_pos_ rb) (read_pos_ rb) (connected_proc_counter_ rb).
Definition set_write rb w : RingBuffer T :=
  mkRB (buffer_size_ rb) (buffer_ rb) w (read_pos_ rb) (connected_proc_counter_ rb).
Definition set_read rb r : RingBuffer T :=
  mkRB (buffer_size_ rb) (buffer_ rb) (write_pos_ rb) r (connected_proc_counter_ rb).

Inductive step : conf → conf → Prop :=
| p_load rb cc s v c :
    step (mkConf rb PIdle cc s v) (mkConf rb (PCmp c (write_pos_ rb)) cc s v)
| p_full rb cc s v c o : o = read_pos_ rb →
    step (mkConf rb (PCmp c o) cc s v) (mkConf rb PIdle cc s v)
| p_room rb cc s v c o : o ≠ read_pos_ rb →
    step (mkConf rb (PCmp c o) cc s v) (mkConf rb (PStore c o) cc s v)
| p_store rb cc s v c o b : zset (buffer_ rb) o c = Val b →
    step (mkConf rb (PStore c o) cc s v) (mkConf (set_buffer rb b) (PPub c o) cc s v)
| p_publish rb cc s v c o :
    step (mkConf rb (PPub c o) cc s v)
         (mkConf (set_write rb ((o + 1) mod buffer_size_ rb)) PIdle cc (s ++ [c]) v)
| c_load rb pc s v :
    step (mkConf rb pc CIdle s v)
         (mkConf rb pc (CCmp (u32 ((read_pos_ rb + 1) mod buffer_size_ rb))) s v)
| c_none rb pc s v nr : write_pos_ rb = nr →
    step (mkConf rb pc (CCmp nr) s v) (mkConf rb pc CIdle s v)
| c_some rb pc s v nr : write_pos_ rb ≠ nr →
    step (mkConf rb pc (CCmp nr) s v) (mkConf rb pc (CRead nr) s v)
| c_read rb pc s v nr c : zget (buffer_ rb) nr = Val c →
    step (mkConf rb pc (CRead nr) s v) (mkConf rb pc (CPub nr c) s v)
| c_publish rb pc s v nr c :
    step (mkConf rb pc (CPub nr c) s v) (mkConf (set_read rb nr) pc CIdle s (v ++ [c])).

(** Is an access of this thread outside the buffer? *)
Definition stuck (cf : conf) : bool :=
  match cf_prod cf with
  | PStore c o => negb (is_val (zset (buffer_ (cf_rb cf)) o c))
  | _ => false
  end ||
  match cf_cons cf with
  | CRead nr => negb (is_val (zget (buffer_ (cf_rb cf)) nr))
  | _ => false
  end.

(** ** Proofs *)

Definition holds rb (l : list T) : Prop :=
  ring (buffer_size_ rb) (buffer_ rb) (write_pos_ rb) (read_pos_ rb) l.

Lemma new_holds size garbage : 1 < size < 2 ^ 32 → Z.of_nat (length garbage) = size →
  ∃ rb, new size garbage = Val rb ∧ buffer_size_ rb = size ∧ holds rb [].
Proof.
  intros Hs Hl. unfold new. destruct (Z.ltb_spec 1 size); [|lia].
  eexists. split; [done|]. split; [done|]. by apply ring_new.
Qed.

Lemma next_read rb l : holds rb l →
  u32 ((read_pos_ rb + 1) mod buffer_size_ rb) = (read_pos_ rb + 1) mod buffer_size_ rb.
Proof.
  intros H. pose proof (ring_n _ _ _ _ _ H). apply wrap_small.
  pose proof (Z.mod_pos_bound (read_pos_ rb + 1) (buffer_size_ rb)). lia.
Qed.

Lemma put_holds rb l c : holds rb l →
  ∃ rb', put rb c = Val (rb', (q_put (buffer_size_ rb) l c).2) ∧
    buffer_size_ rb' = buffer_size_ rb ∧ holds rb' (q_put (buffer_size_ rb) l c).1.
Proof.
  intros H. pose proof (ring_full _ _ _ _ _ H) as Hf. pose proof (ring_w_range _ _ _ _ _ H) as Hw.
  unfold put, q_put. destruct (Z.eqb_spec (write_pos_ rb) (read_pos_ rb)) as [E|E].
  - apply Hf in E. rewrite E, Z.eqb_refl. by exists rb.
  - destruct (Z.eqb_spec (Z.of_nat (length l)) (buffer_size_ rb - 1)); [tauto|].
    unfold zset. rewrite decide_True by (rewrite (ring_len _ _ _ _ _ H); lia).
    eexists. split; [done|]. split; [done|]. by apply ring_put.
Qed.

Lemma get_holds rb l : holds rb l →
  ∃ rb', get rb = Val (rb', (q_get l).2) ∧
    buffer_size_ rb' = buffer_size_ rb ∧ holds rb' (q_get l).1.
Proof.
  intros H. pose proof (ring_empty _ _ _ _ _ H) as He.
  unfold get. rewrite (next_read _ _ H).
  destruct (Z.eqb_spec (write_pos_ rb) ((read_pos_ rb + 1) mod buffer_size_ rb)) as [E|E].
  - apply He in E as ->. by exists rb.
  - destruct l as [|x l]; [tauto|]. destruct (ring_get _ _ _ _ _ _ H) as [-> Hr].
    eexists. split; [done|]. split; [done|]. exact Hr.
Qed.

Lemma clear_holds rb l : holds rb l → holds (clear rb) [].
Proof. intros H. apply ring_new; apply H. Qed.

(** Histories of a ring buffer and of the bounded queue. *)
Inductive op := OPut (c : T) | OGet | OClear.
Inductive out := RPut (b : bool) | RGet (x : option T) | RUnit.

Definition op_step rb (o : op) : res (RingBuffer T * out) :=
  match o with
  | OPut c => '(rb, b) ← put rb c; Val (rb, RPut b)
  | OGet => '(rb, x) ← get rb; Val (rb, RGet x)
  | OClear => Val (clear rb, RUnit)
  end.

Definition spec_step (n : Z) (l : list T) (o : op) : res (list T * out) :=
  match o with
  | OPut c => let '(l, b) := q_put n l c in Val (l, RPut b)
  | OGet => let '(l, x) := q_get l in Val (l, RGet x)
  | OClear => Val ([], RUnit)
  end.

Definition rel (n : Z) rb (l : list T) : Prop := buffer_size_ rb = n ∧ holds rb l.

Lemma rb_sim_step n rb l o : rel n rb l → sim (rel n) (op_step rb o) (spec_step n l o).
Proof.
  intros [<- H]. destruct o as [c| |]; simpl.
  - destruct (put_holds rb l c H) as (rb' & -> & Hs & Hh). simpl.
    destruct (q_put _ _ _) as [l' b]. by split.
  - destruct (get_holds rb l H) as (rb' & -> & Hs & Hh). simpl.
    destruct (q_get _) as [l' b]. by split.
  - split; [done|]. split; [done|]. by eapply clear_holds.
Qed.

(** The invariant of the interleaved run. *)
Definition prod_ok rb (pc : prod_pc) : Prop :=
  match pc with
  | PIdle => True
  | PCmp c o => o = write_pos_ rb
  | PStore c o => o = write_pos_ rb ∧ write_pos_ rb ≠ read_pos_ rb
  | PPub c o => o = write_pos_ rb ∧ write_pos_ rb ≠ read_pos_ rb ∧
      buffer_ rb !! Z.to_nat (write_pos_ rb) = Some c
  end.

Definition next rb : Z := (read_pos_ rb + 1) mod buffer_size_ rb.

Definition cons_ok rb (l : list T) (cc : cons_pc) : Prop :=
  match cc with
  | CIdle => True
  | CCmp nr => nr = next rb
  | CRead nr => nr = next rb ∧ l ≠ []
  | CPub nr v => nr = next rb ∧ ∃ l', l = v :: l'
  end.

Definition conf_ok (n : Z) (cf : conf) : Prop :=
  ∃ l, rel n (cf_rb cf) l ∧ cf_sent cf = cf_received cf ++ l ∧
       prod_ok (cf_rb cf) (cf_prod cf) ∧ cons_ok (cf_rb cf) l (cf_cons cf).

Lemma ring_same n b w r (l : list T) c : ring n b w r l → w ≠ r → b !! Z.to_nat w = Some c →
  ring n b ((w + 1) mod n) r (l ++ [c]).
Proof.
  intros H Hw Hc. rewrite <- (list_insert_id b (Z.to_nat w) c) by done. by apply ring_put.
Qed.

Lemma get_room n b w r x (l : list T) : ring n b w r (x :: l) → w ≠ (r + 1) mod n.
Proof. intros H E. by apply (ring_empty _ _ _ _ _ H) in E. Qed.

Lemma publish_ok n rb cc s v c o : conf_ok n (mkConf rb (PPub c o) cc s v) →
  conf_ok n (mkConf (set_write rb ((o + 1) mod buffer_size_ rb)) PIdle cc (s ++ [c]) v).
Proof.
  intros (l & [Hn H] & Hs & (-> & Hne & Hlk) & Hc). simpl in *. exists (l ++ [c]). split_and!.
  - split; [done|]. by apply ring_same.
  - simpl. by rewrite Hs, app_assoc.
  - done.
  - destruct cc; simpl in *; try done.
    + destruct Hc. split; [done|by destruct l].
    + destruct Hc as (? & l' & ->). split; [done|by exists (l' ++ [c])].
Qed.

Lemma consume_ok n rb pc s v c nr : conf_ok n (mkConf rb pc (CPub nr c) s v) →
  conf_ok n (mkConf (set_read rb nr) pc CIdle s (v ++ [c])).
Proof.
  intros (l & [Hn H] & Hs & Hp & (-> & l' & ->)). simpl in *.
  pose proof (get_room _ _ _ _ _ _ H) as Hne. exists l'. split_and!.
  - split; [done|]. by apply (ring_get _ _ _ _ c).
  - simpl. by rewrite <- app_assoc.
  - destruct pc; simpl in *; naive_solver.
  - done.
Qed.

Lemma conf_step n cf cf' : conf_ok n cf → step cf cf' → conf_ok n cf'.
Proof.
  intros Hok Hst. destruct Hst as
    [rb cc s v c|rb cc s v c o Ho|rb cc s v c o Ho|rb cc s v c o b Hb|rb cc s v c o
    |rb pc s v|rb pc s v nr Hw|rb pc s v nr Hw|rb pc s v nr c Hg|rb pc s v nr c];
    try (by apply publish_ok); try (by apply consume_ok);
    destruct Hok as (l & [Hn H] & Hs & Hp & Hc); simpl in *;
    exists l; (split; [split; [done|]|split; [done|split]]); simpl; try done.
  - by subst o.
  - apply zset_Val in Hb as [_ ->]. destruct Hp as [-> _]. by apply ring_store.
  - apply zset_Val in Hb as [? ->]. destruct Hp as [-> Hne]. split_and!; [done|done|].
    apply list_lookup_insert_eq. lia.
  - apply (next_read _ _ H).
  - split; [done|]. intros ->. apply Hw. rewrite Hc. by apply (ring_empty _ _ _ _ _ H).
  - destruct Hc as [-> Hl]. split; [done|]. destruct l as [|x l]; [done|].
    destruct (ring_get _ _ _ _ _ _ H) as [Hx _]. unfold next in Hg. rewrite Hx in Hg.
    injection Hg as <-. by exists l.
Qed.

Lemma conf_not_stuck n cf : conf_ok n cf → stuck cf = false.
Proof.
  intros (l & [Hn H] & _ & Hp & Hc). pose proof (ring_w_range _ _ _ _ _ H) as Hw.
  unfold stuck. apply orb_false_iff. split.
  - destruct (cf_prod cf); try done. destruct Hp as [-> _]. unfold zset.
    by rewrite decide_True by (rewrite (ring_len _ _ _ _ _ H); lia).
  - destruct (cf_cons cf); try done. destruct Hc as [-> Hl]. destruct l as [|x l]; [done|].
    destruct (ring_get _ _ _ _ _ _ H) as [Hx _]. unfold next. by rewrite Hx.
Qed.

Definition init_conf rb : conf := mkConf rb PIdle CIdle [] [].

Lemma reach_ok n cf cf' : conf_ok n cf → rtc step cf cf' → conf_ok n cf'.
Proof. intros Hok Hr. induction Hr; eauto using conf_step. Qed.

(** Two producers: the accesses of the second one, [q], in between those of the
    first. *)
Inductive step2 : conf * prod_pc → conf * prod_pc → Prop :=
| s2_first cf cf' q : step cf cf' → step2 (cf, q) (cf', q)
| s2_second rb rb' p q q' cc s s' v : step (mkConf rb q cc s v) (mkConf rb' q' cc s' v) →
    step2 (mkConf rb p cc s v, q) (mkConf rb' p cc s' v, q').

(** Nothing protects two producers from each other: on an empty buffer both [put]s
    answer [true], and one of the two values is lost. *)
Lemma two_producers_lose n garbage rb (a b : T) : 1 < n < 2 ^ 32 → Z.of_nat (length garbage) = n → new n garbage = Val rb →
  ∃ rb', rtc step2 (init_conf rb, PIdle) (mkConf rb' PIdle CIdle [a; b] [], PIdle) ∧ holds rb' [b].
Proof.
  intros Hn Hg E. destruct (new_holds n garbage Hn Hg) as (rb0 & E0 & Hs & Hh). rewrite E in E0. injection E0 as <-.
  pose proof E as E'. unfold new in E'. rewrite (proj2 (Z.ltb_lt _ _)) in E' by lia. cbn in E'. injection E' as <-.
  set (rb := mkRB n garbage 1 0 0) in *.
  assert (Hz : ∀ c (l : list T), Z.of_nat (length l) = n → zset l 1 c = Val (<[1%nat := c]> l)).
  { intros c l Hl. apply zset_Val. split; [lia|done]. }
  set (rb1 := set_buffer rb (<[1%nat := a]> garbage)). set (rb2 := set_buffer rb1 (<[1%nat := b]> (<[1%nat := a]> garbage))).
  exists (set_write rb2 ((1 + 1) mod n)). split.
  - eapply rtc_l; [apply s2_first, (p_load _ _ _ _ a)|]. eapply rtc_l; [apply s2_second, (p_load _ _ _ _ b)|].
    eapply rtc_l; [apply s2_first, p_room; done|]. eapply rtc_l; [apply s2_second, p_room; done|].
    eapply rtc_l; [apply s2_first, p_store; by apply Hz|].
    eapply rtc_l; [apply s2_second, p_store; apply Hz; cbn; by rewrite length_insert|].
    eapply rtc_l; [apply s2_first, p_publish|]. eapply rtc_l; [apply s2_second, p_publish|]. apply rtc_refl.
  - unfold holds in *. cbn [set_write set_buffer buffer_size_ buffer_ write_pos_ read_pos_ rb rb1 rb2] in *.
    refine (ring_same n _ 1 0 [] b _ _ _); [|done|].
    + by do 2 apply (ring_store n _ 1 0 []).
    + apply list_lookup_insert_eq. rewrite length_insert. lia.
Qed.

(** ** Properties *)

(** A ring buffer over [n] slots is a FIFO queue of at most [n - 1]
    elements: whatever sequence of [put], [get] and [clear] it sees, every
    result is the queue's, and no access leaves the buffer. *)
Theorem ringbuffer_refines_queue n garbage rb os :
  1 < n < 2 ^ 32 → Z.of_nat (length garbage) = n → new n garbage = Val rb →
  run op_step rb os = run (spec_step n) [] os.
Proof.
  intros Hn Hg E. destruct (new_holds n garbage Hn Hg) as (rb' & E' & Hs & Hh).
  rewrite E in E'. injection E' as <-.
  apply (sim_run _ _ (rel n) (λ _, True)); [intros; by apply rb_sim_step|by split|].
  by apply Forall_true.
Qed.

(** C11: [put] and [get] need no lock for one producer and one consumer.  In
    every interleaving of their memory accesses the values received are a
    prefix of the values sent (nothing is lost, duplicated or reordered), at
    most [n - 1] values are in flight, and no access leaves the buffer. *)
Theorem ringbuffer_spsc n garbage rb cf :
  1 < n < 2 ^ 32 → Z.of_nat (length garbage) = n → new n garbage = Val rb →
  rtc step (init_conf rb) cf →
  (∃ l, cf_sent cf = cf_received cf ++ l ∧ Z.of_nat (length l) <= n - 1) ∧ stuck cf = false.
Proof.
  intros Hn Hg E Hr. destruct (new_holds n garbage Hn Hg) as (rb' & E' & Hs & Hh).
  rewrite E in E'. injection E' as <-.
  assert (conf_ok n cf) as Hok.
  { eapply reach_ok; [|exact Hr]. by exists []. }
  split; [|by eapply conf_not_stuck].
  destruct Hok as (l & [Hl H] & ? & _). exists l. split; [done|].
  pose proof (ring_cap _ _ _ _ _ H). lia.
Qed.

End code.
Arguments prod_pc : clear implicits.
Arguments cons_pc : clear implicits.
Arguments conf : clear implicits.

Lemma ringbuffer_refines_queue_witness :
  ∃ rb, new 3 [0; 0; 0] = Val rb ∧
    run op_step rb [OPut 5; OPut 6; OPut 7; OGet; OPut 8; OGet; OGet; OGet] =
    run (spec_step 3) [] [OPut 5; OPut 6; OPut 7; OGet; OPut 8; OGet; OGet; OGet] ∧
    run op_step rb [OPut 5; OPut 6; OPut 7; OGet; OPut 8; OGet; OGet; OGet] =
    Val [RPut true; RPut true; RPut false; RGet (Some 5); RPut true; RGet (Some 6);
         RGet (Some 8); RGet None].
Proof.
  eexists. split; [reflexivity|]. split.
  - apply (ringbuffer_refines_queue 3 [0; 0; 0]); [lia|reflexivity|reflexivity].
  - vm_compute. reflexivity.
Defined.

(** The consumer looks between the producer's store and its publication. *)
Lemma ringbuffer_spsc_witness :
  ∃ rb cf, new 2 [0; 0] = Val rb ∧ rtc step (init_conf rb) cf ∧
    cf_sent cf = [7] ∧ cf_received cf = [7] ∧ stuck cf = false.
Proof.
  eexists. eexists. split; [reflexivity|].
  match goal with |- ?P ∧ _ => assert P as Hr end.
  { eapply rtc_l; [apply (p_load _ _ _ _ 7)|]. eapply rtc_l; [apply p_room; done|].
    eapply rtc_l; [eapply p_store; reflexivity|].
    eapply rtc_l; [apply c_load|]. eapply rtc_l; [apply c_none; reflexivity|].
    eapply rtc_l; [apply p_publish|]. eapply rtc_l; [apply c_load|].
    eapply rtc_l; [apply c_some; vm_compute; discriminate|].
    eapply rtc_l; [eapply c_read; reflexivity|]. eapply rtc_l; [apply c_publish|].
    apply rtc_refl. }
  split; [exact Hr|]. split; [reflexivity|]. split; [reflexivity|].
  apply (ringbuffer_spsc 2 [0; 0] _ _ ltac:(lia) eq_refl eq_refl Hr).
Defined.
End RingBuffer.

(** ** FiFo *)

Module FiFo.

Definition FIFO_NOBLOCK_PUT : Z := 1.
Definition FIFO_NOBLOCK_PUT_OVERWRITE_OLD : Z := 2.

Record FiFo (T : Type) := mkFiFo {
  input_buffer_size_ : Z;
  input_buffer_ : list T;
  ib_write_pos_ : Z;
  ib_read_pos_ : Z;
  flags_ : Z;
}.
Arguments mkFiFo {T}.
Arguments input_buffer_size_ {T}.
Arguments input_buffer_ {T}.
Arguments ib_write_pos_ {T}.
Arguments ib_read_pos_ {T}.
Arguments flags_ {T}.

Section code.
Context {T : Type}.
Implicit Types (ff : FiFo T).

(** The number of slots the constructor allocates. *)
Definition new_size (inputb_size : Z) : Z := if inputb_size <? 2 then 512 else inputb_size.

Definition new (inputb_size flags : Z) (garbage : list T) : FiFo T :=
  mkFiFo (new_size inputb_size) garbage 1 0 flags.

(** The common end of [put]: store, advance, wrap. *)
Definition put_slot ff (read_pos : Z) (c : T) : res (FiFo T) :=
  b ← zset (input_buffer_ ff) (ib_write_pos_ ff) c;
  Val (mkFiFo (input_buffer_size_ ff) b
        (u32 (ib_write_pos_ ff + 1) mod input_buffer_size_ ff) read_pos (flags_ ff)).

(** [Err EBlock]: the caller waits on [space_to_write_]. *)
Definition put ff (c : T) : res (FiFo T) :=
  if ib_write_pos_ ff =? ib_read_pos_ ff then
    if negb (Z.land (flags_ ff) FIFO_NOBLOCK_PUT =? 0) then
      if negb (Z.land (flags_ ff) FIFO_NOBLOCK_PUT_OVERWRITE_OLD =? 0) then
        put_slot ff (u32 (ib_read_pos_ ff + 1) mod input_buffer_size_ ff) c
      else Val ff
    else Err EBlock
  else put_slot ff (ib_read_pos_ ff) c.

Definition clear ff : FiFo T :=
  mkFiFo (input_buffer_size_ ff) (input_buffer_ ff) 1 0 (flags_ ff).

(** [Err EBlock]: the caller waits on [something_to_read_]. *)
Definition get ff : res (FiFo T * T) :=
  let next := u32 (ib_read_pos_ ff + 1) mod input_buffer_size_ ff in
  if ib_write_pos_ ff =? next then Err EBlock
  else
    ret ← zget (input_buffer_ ff) next;
    Val (mkFiFo (input_buffer_size_ ff) (input_buffer_ ff) (ib_write_pos_ ff) next (flags_ ff), ret).

Definition peekAhead ff : res (option T) :=
  let next := u32 (ib_read_pos_ ff + 1) mod input_buffer_size_ ff in
  if ib_write_pos_ ff =? next then Val None
  else ret ← zget (input_buffer_ ff) next; Val (Some ret).

(** [count] is a [uint32], so the last branch of the code is dead. *)
Definition countElementsAhead ff : Z :=
  let count := u32 (ib_write_pos_ ff - ib_read_pos_ ff) in
  if count =? 0 then input_buffer_size_ ff
  else if 0 <? count then u32 (count - 1)
  else u32 (input_buffer_size_ ff + count).

(** ** The policy of a full queue *)

Inductive policy := Block | DropNew | DropOld.

Definition policy_of (flags : Z) : policy :=
  if Z.testbit flags 0 then (if Z.testbit flags 1 then DropOld else DropNew) else Block.

Definition full_put (p : policy) (l : list T) (c : T) : res (list T) :=
  match p with
  | Block => Err EBlock
  | DropNew => Val l
  | DropOld => Val (tail l ++ [c])
  end.

Inductive op := OPut (c : T) | OGet | OPeek | OClear.

Definition op_step ff (o : op) : res (FiFo T * option T) :=
  match o with
  | OPut c => ff ← put ff c; Val (ff, None)
  | OGet => '(ff, x) ← get ff; Val (ff, Some x)
  | OPeek => x ← peekAhead ff; Val (ff, x)
  | OClear => Val (clear ff, None)
  end.

Definition spec_step (n : Z) (p : policy) (l : list T) (o : op) : res (list T * option T) :=
  match o with
  | OPut c => l ← (if Z.of_nat (length l) =? n - 1 then full_put p l c else Val (l ++ [c]));
              Val (l, None)
  | OGet => match l with [] => Err EBlock | x :: l => Val (l, Some x) end
  | OPeek => Val (l, head l)
  | OClear => Val ([], None)
  end.

Definition holds ff (l : list T) : Prop :=
  ring (input_buffer_size_ ff) (input_buffer_ ff) (ib_write_pos_ ff) (ib_read_pos_ ff) l.

Definition rel (n : Z) (p : policy) ff (l : list T) : Prop :=
  input_buffer_size_ ff = n ∧ policy_of (flags_ ff) = p ∧ holds ff l.

Lemma u32_incr n buf w r (l : list T) x : ring n buf w r l → 0 <= x < n → u32 (x + 1) = x + 1.
Proof. intros H ?. pose proof (ring_n _ _ _ _ _ H). apply wrap_small. lia. Qed.

Lemma put_slot_ok n p ff l r l' c : rel n p ff l → ring n (input_buffer_ ff) (ib_write_pos_ ff) r l' →
  ib_write_pos_ ff ≠ r → ∃ ff', put_slot ff r c = Val ff' ∧ rel n p ff' (l' ++ [c]).
Proof.
  intros (Hn & Hp & H) H' Hne. pose proof (ring_w_range _ _ _ _ _ H') as Hw.
  unfold put_slot, zset. rewrite decide_True by (rewrite (ring_len _ _ _ _ _ H'); lia).
  rewrite (u32_incr _ _ _ _ _ _ H') by lia.
  eexists. split; [done|]. split_and!; [done|done|]. unfold holds. simpl. rewrite Hn.
  by apply ring_put.
Qed.

Lemma flag_bit flags k : 0 <= k → (Z.land flags (2 ^ k) =? 0) = negb (Z.testbit flags k).
Proof.
  intros Hk. destruct (Z.testbit flags k) eqn:Ht; simpl.
  - apply Z.eqb_neq. intros H0. apply (f_equal (λ z, Z.testbit z k)) in H0.
    rewrite Z.land_spec, Ht, Z.pow2_bits_true, Z.bits_0 in H0 by lia. done.
  - apply Z.eqb_eq, Z.bits_inj'. intros m Hm.
    rewrite Z.land_spec, Z.pow2_bits_eqb, Z.bits_0 by lia.
    destruct (Z.eqb_spec k m) as [<-|]; [by rewrite Ht|by rewrite andb_false_r].
Qed.

Lemma sim_put n p ff l c : rel n p ff l →
  sim (rel n p) (op_step ff (OPut c)) (spec_step n p l (OPut c)).
Proof.
  intros Hrel. pose proof Hrel as (Hn & Hp & H). unfold holds in H. rewrite Hn in H.
  pose proof (ring_full _ _ _ _ _ H) as Hf. pose proof (ring_n _ _ _ _ _ H).
  simpl. unfold put, FIFO_NOBLOCK_PUT, FIFO_NOBLOCK_PUT_OVERWRITE_OLD.
  rewrite (flag_bit _ 0), (flag_bit _ 1), !negb_involutive by lia.
  destruct (Z.eqb_spec (ib_write_pos_ ff) (ib_read_pos_ ff)) as [E|E].
  - rewrite (proj1 Hf E), Z.eqb_refl. unfold policy_of in Hp.
    destruct (Z.testbit (flags_ ff) 0); [destruct (Z.testbit (flags_ ff) 1)|]; subst p; simpl; try done.
    destruct l as [|x l]; [cbn in Hf; apply Hf in E; lia|].
    destruct (ring_get _ _ _ _ _ _ H) as [_ H'].
    pose proof (ring_r _ _ _ _ _ H). rewrite (u32_incr _ _ _ _ _ _ H), Hn by lia.
    destruct (put_slot_ok n DropOld ff (x :: l) _ l c Hrel H') as (ff' & -> & Hr).
    + intros E'. apply (ring_full _ _ _ _ _ H') in E'. apply Hf in E. cbn in E. lia.
    + by split.
  - destruct (Z.eqb_spec (Z.of_nat (length l)) (n - 1)); [tauto|].
    destruct (put_slot_ok n p ff l _ l c Hrel H E) as (ff' & -> & Hr). by split.
Qed.

Lemma fifo_sim_step n p ff l o : rel n p ff l → sim (rel n p) (op_step ff o) (spec_step n p l o).
Proof.
  intros Hrel. destruct o as [c| | |]; [by apply sim_put|..];
    destruct Hrel as (Hn & Hp & H); unfold holds in H; rewrite Hn in H;
    pose proof (ring_empty _ _ _ _ _ H) as He; pose proof (ring_r _ _ _ _ _ H);
    simpl; unfold get, peekAhead; rewrite ?Hn, ?(u32_incr _ _ _ _ _ _ H) by lia;
    try destruct (Z.eqb_spec (ib_write_pos_ ff) ((ib_read_pos_ ff + 1) mod n)) as [E|E].
  - apply He in E as ->. done.
  - destruct l as [|x l]; [tauto|]. destruct (ring_get _ _ _ _ _ _ H) as [-> Hr].
    split; [done|]. by split_and!.
  - apply He in E as ->. split; [done|]. split_and!; [done|done|]. unfold holds. by rewrite Hn.
  - destruct l as [|x l]; [tauto|]. destruct (ring_get _ _ _ _ _ _ H) as [-> Hr].
    split; [done|]. split_and!; [done|done|]. unfold holds. by rewrite Hn.
  - split; [done|]. split_and!; [done|done|]. unfold holds. simpl. rewrite Hn.
    apply ring_new; apply H.
  - split; [done|]. split_and!; [done|done|]. unfold holds. simpl. rewrite Hn.
    apply ring_new; apply H.
Qed.

(** ** Properties *)

(** A [FiFo] over [n] slots is a FIFO queue of at most [n - 1] elements.
    On a full queue [put] waits, drops the new element or drops the oldest one,
    as the two low bits of the flags say; [get] waits exactly when the queue is
    empty; [peekAhead] returns the oldest element and keeps it. *)
Theorem fifo_refines_queue inputb_size flags garbage os :
  let n := new_size inputb_size in
  0 <= inputb_size < 2 ^ 32 → Z.of_nat (length garbage) = n →
  run op_step (new inputb_size flags garbage) os = run (spec_step n (policy_of flags)) [] os.
Proof.
  intros n Hs Hg. apply (sim_run _ _ (rel n (policy_of flags)) (λ _, True)).
  - intros. by apply fifo_sim_step.
  - split_and!; [done|done|]. apply (ring_new n); [|done].
    unfold n, new_size. destruct (Z.ltb_spec inputb_size 2); lia.
  - by apply Forall_true.
Qed.

(** what [countElementsAhead] returns for a queue of [l] elements in [n]
    slots: the number of elements while the write position is ahead of the read
    position; [n], one too many, when the queue is full; and a value that is
    wrong by [2^32 - n] once the write position has wrapped around, even for an
    empty queue. *)
Theorem countElementsAhead_value ff l : holds ff l →
  let n := input_buffer_size_ ff in
  countElementsAhead ff =
    if ib_read_pos_ ff <? ib_write_pos_ ff then Z.of_nat (length l)
    else if ib_read_pos_ ff =? ib_write_pos_ ff then Z.of_nat (length l) + 1
    else Z.of_nat (length l) + 2 ^ 32 - n.
Proof.
  intros H n. pose proof (ring_full _ _ _ _ _ H) as Hf.
  pose proof (ring_w_range _ _ _ _ _ H) as Hwr.
  destruct H as [Hn _ Hr Hw Hc _]. fold n in Hn, Hr, Hw, Hc, Hf, Hwr. unfold countElementsAhead.
  assert (ib_write_pos_ ff - ib_read_pos_ ff - 1 = Z.of_nat (length l) ∨
          ib_write_pos_ ff - ib_read_pos_ ff - 1 = Z.of_nat (length l) - n) as Hd.
  { rewrite Hw. destruct (slot_cases n (ib_read_pos_ ff) (Z.of_nat (length l))); lia. }
  destruct (Z.ltb_spec (ib_read_pos_ ff) (ib_write_pos_ ff)).
  - rewrite wrap_small by lia.
    destruct (Z.eqb_spec (ib_write_pos_ ff - ib_read_pos_ ff) 0); [lia|].
    destruct (Z.ltb_spec 0 (ib_write_pos_ ff - ib_read_pos_ ff)); [|lia].
    rewrite wrap_small by lia. lia.
  - destruct (Z.eqb_spec (ib_read_pos_ ff) (ib_write_pos_ ff)) as [E|E].
    + rewrite E, Z.sub_diag. simpl. fold n. symmetry in E. apply Hf in E. lia.
    + assert (u32 (ib_write_pos_ ff - ib_read_pos_ ff) =
              ib_write_pos_ ff - ib_read_pos_ ff + 2 ^ 32) as ->.
      { unfold wrap. rewrite <- (Z_mod_plus_full _ 1), Z.mul_1_l. apply Z.mod_small. lia. }
      destruct (Z.eqb_spec (ib_write_pos_ ff - ib_read_pos_ ff + 2 ^ 32) 0); [lia|].
      destruct (Z.ltb_spec 0 (ib_write_pos_ ff - ib_read_pos_ ff + 2 ^ 32)); [|lia].
      rewrite wrap_small by lia. lia.
Qed.
End code.

Lemma fifo_refines_queue_witness :
  run op_step (new 3 3 [0; 0; 0]) [OPut 1; OPut 2; OPut 3; OPeek; OGet; OGet; OPeek] =
  run (spec_step 3 DropOld) [] [OPut 1; OPut 2; OPut 3; OPeek; OGet; OGet; OPeek] ∧
  run op_step (new 3 3 [0; 0; 0]) [OPut 1; OPut 2; OPut 3; OPeek; OGet; OGet; OPeek] =
  Val [None; None; None; Some 2; Some 2; Some 3; None].
Proof.
  split; [|vm_compute; reflexivity].
  apply (fifo_refines_queue 3 3 [0; 0; 0]); [lia|reflexivity].
Defined.

(** Empty, after the write position of three slots wrapped around. *)
Lemma countElementsAhead_value_witness :
  let ff := mkFiFo 3 [0; 0; 0] 0 2 3 in
  holds ff [] ∧ countElementsAhead ff = 2 ^ 32 - 3.
Proof.
  assert (holds (mkFiFo 3 [0; 0; 0] 0 2 3) []) as H
    by (split; first [done | cbn; lia | vm_compute; reflexivity]).
  split; [exact H|].
  rewrite (countElementsAhead_value _ _ H). vm_compute. reflexivity.
Defined.

End FiFo.
