(* ===== verification/LibcString.v ===== *)
(** * libc: character classes, strings, number parsing

    Models [userspace/libc/include/ctype.h], [src/ctype.c], [src/string.c] and
    [src/atoi.c].  A process's memory is a flat array of bytes and a pointer is
    an index into it, so that two pointers may alias; an access outside the
    array is undefined.  [char] is signed, as on x86-64. *)

From S2P Require Import Prelude.

Module Libc.

(** ** Memory *)

Abbreviation mem := (list Z).

(** Reading a [char] and an [unsigned char]. *)
Definition load (m : mem) (p : Z) : res Z := zget m p.
Definition char (m : mem) (p : Z) : res Z := b ← load m p; Val (s8 b).
Definition store (m : mem) (p c : Z) : res mem := zset m p (u8 c).

(** ** ctype.h, ctype.c *)

Definition _U : Z := 1.
Definition _L : Z := 2.
Definition _D : Z := 4.
Definition _C : Z := 8.
Definition _P : Z := 16.
Definition _S : Z := 32.
Definition _X : Z := 64.
Definition _SP : Z := 128.

(** The table, row by row of the source: [n] times the same class. *)
Definition _ctype : list Z :=
  replicate 8 _C ++
  [_C; Z.lor _C _S; Z.lor _C _S; Z.lor _C _S; Z.lor _C _S; Z.lor _C _S; _C; _C] ++
  replicate 8 _C ++ replicate 8 _C ++
  Z.lor _S _SP :: replicate 7 _P ++ replicate 8 _P ++
  replicate 8 _D ++ replicate 2 _D ++ replicate 6 _P ++
  _P :: replicate 6 (Z.lor _U _X) ++ [_U] ++
  replicate 8 _U ++ replicate 8 _U ++ replicate 3 _U ++ replicate 5 _P ++
  _P :: replicate 6 (Z.lor _L _X) ++ [_L] ++
  replicate 8 _L ++ replicate 8 _L ++ replicate 3 _L ++ replicate 4 _P ++ [_C] ++
  replicate 16 0 ++ replicate 16 0 ++
  Z.lor _S _SP :: replicate 15 _P ++ replicate 16 _P ++
  replicate 16 _U ++ replicate 7 _U ++ [_P] ++ replicate 7 _U ++ [_L] ++
  replicate 16 _L ++ replicate 7 _L ++ [_P] ++ replicate 8 _L.

(** [__ismask]: the index is an [unsigned char], always inside the table. *)
Definition ismask (x : Z) : Z := nth (Z.to_nat (u8 x)) _ctype 0.
Definition has_class (x mask : Z) : bool := negb (Z.land (ismask x) mask =? 0).

Definition isalnum (c : Z) : bool := has_class c (Z.lor (Z.lor _U _L) _D).
Definition isalpha (c : Z) : bool := has_class c (Z.lor _U _L).
Definition iscntrl (c : Z) : bool := has_class c _C.
Definition isdigit (c : Z) : bool := has_class c _D.
Definition isgraph (c : Z) : bool := has_class c (Z.lor (Z.lor (Z.lor _P _U) _L) _D).
Definition islower (c : Z) : bool := has_class c _L.
Definition isprint (c : Z) : bool := has_class c (Z.lor (Z.lor (Z.lor (Z.lor _P _U) _L) _D) _SP).
Definition ispunct (c : Z) : bool := has_class c _P.
Definition isspace (c : Z) : bool := has_class c _S.
Definition isupper (c : Z) : bool := has_class c _U.
Definition isxdigit (c : Z) : bool := has_class c (Z.lor _D _X).
Definition isascii (c : Z) : bool := u8 c <=? 127.
Definition toascii (c : Z) : Z := Z.land (u8 c) 127.
Definition tolower (c : Z) : Z := let c := u8 c in if isupper c then u8 (c - (65 - 97)) else c.
Definition toupper (c : Z) : Z := let c := u8 c in if islower c then u8 (c - (97 - 65)) else c.

(** ** string.c *)

Fixpoint memcmp (m : mem) (b1 b2 : Z) (number_of_bytes : nat) : res Z :=
  match number_of_bytes with
  | O => Val 0
  | S n =>
      c1 ← char m b1;
      c2 ← char m b2;
      if negb (c1 =? c2) then Val (c1 - c2) else memcmp m (b1 + 1) (b2 + 1) n
  end.

Fixpoint memcpy_loop (m : mem) (dst src : Z) (n : nat) : res mem :=
  match n with
  | O => Val m
  | S n =>
      c ← load m src;
      m ← store m dst c;
      memcpy_loop m (dst + 1) (src + 1) n
  end.

Definition memcpy (m : mem) (destination source number_of_bytes : Z) : res (mem * Z) :=
  if ((source <? destination + number_of_bytes) && (destination <? source)) ||
     ((destination <? source + number_of_bytes) && (source <? destination))
  then Val (m, destination)
  else if (number_of_bytes =? 0) || (source =? destination) then Val (m, destination)
  else
    m ← memcpy_loop m destination source (Z.to_nat number_of_bytes);
    Val (m, destination).

Fixpoint memset_loop (m : mem) (p value : Z) (n : nat) : res mem :=
  match n with
  | O => Val m
  | S n => m ← store m p value; memset_loop m (p + 1) value n
  end.

Definition memset (m : mem) (position value number_of_bytes : Z) : res (mem * Z) :=
  m ← memset_loop m position value (Z.to_nat number_of_bytes);
  Val (m, position).

(** The loop of [strlen]; the fuel is the size of the memory, past which the
    next read is out of bounds. *)
Fixpoint strlen_loop (fuel : nat) (m : mem) (str count : Z) : res Z :=
  c ← char m (str + count);
  if negb (c =? 0) then
    match fuel with
    | O => Err EFuel
    | S fuel => strlen_loop fuel m str (count + 1)
    end
  else Val count.
Definition strlen (m : mem) (str : Z) : res Z := strlen_loop (length m) m str 0.

Fixpoint strcmp_loop (fuel : nat) (m : mem) (l r : Z) : res Z :=
  cl ← char m l;
  cr ← char m r;
  if cl =? cr then
    if cl =? 0 then Val 0
    else match fuel with
         | O => Err EFuel
         | S fuel => strcmp_loop fuel m (l + 1) (r + 1)
         end
  else
    ul ← load m l;
    ur ← load m r;
    Val (if ul <? ur then -1 else 1).
Definition strcmp (m : mem) (l r : Z) : res Z := strcmp_loop (length m) m l r.

(** ** atoi.c *)

(** The digit loop shared by [atoi] and [atol]: an [int] (or [long]) of [w]
    bits, whose overflow is undefined. *)
Fixpoint digits_loop (fuel : nat) (w : Z) (m : mem) (p number : Z) : res Z :=
  c ← char m p;
  if (48 <=? c) && (c <=? 57) then
    number ← schk w (number * 10);
    number ← schk w (number + (c - 48));
    match fuel with
    | O => Err EFuel
    | S fuel => digits_loop fuel w m (p + 1) number
    end
  else Val number.

Definition parse_int (w : Z) (m : mem) (string : Z) : res Z :=
  c ← char m string;
  let negative := c =? 45 in
  let string := if negative then string + 1 else if c =? 43 then string + 1 else string in
  number ← digits_loop (length m) w m string 0;
  if negative then schk w (number * -1) else Val number.

Definition atoi (m : mem) (string : Z) : res Z := parse_int 32 m string.
Definition atol (m : mem) (string : Z) : res Z := parse_int 64 m string.

(** ** Strings in memory *)

(** The bytes [s] lie at [p]. *)
Definition at_mem (m : mem) (p : Z) (s : list Z) : Prop :=
  0 <= p ∧ ∀ k b, s !! k = Some b → m !! Z.to_nat (p + Z.of_nat k) = Some b.

(** [p] points to the NUL-terminated string [s]. *)
Definition cstr (m : mem) (p : Z) (s : list Z) : Prop :=
  at_mem m p (s ++ [0]) ∧ Forall (λ b, 0 < b < 256) s.

Definition mem_ok (m : mem) : Prop := Forall (λ b, 0 <= b < 256) m.

Definition bytes (m : mem) (p n : Z) : list Z := take (Z.to_nat n) (drop (Z.to_nat p) m).

(** The order of strings by their bytes. *)
Fixpoint lex (s t : list Z) : comparison :=
  match s, t with
  | [], [] => Eq
  | [], _ :: _ => Lt
  | _ :: _, [] => Gt
  | x :: s, y :: t => match x ?= y with Eq => lex s t | c => c end
  end.

Definition sign_of (c : comparison) : Z := match c with Eq => 0 | Lt => -1 | Gt => 1 end.


(** ** Reading memory *)

Lemma s8_byte b : is_byte b → s8 b = 0 ↔ b = 0.
Proof.
  intros Hb. unfold is_byte in Hb. unfold signed. rewrite wrap_small by lia.
  destruct (Z.ltb_spec b (2 ^ (8 - 1))); lia.
Qed.

Lemma s8_nz b : 0 < b < 256 → (s8 b =? 0) = false.
Proof.
  intros Hb. apply Z.eqb_neq. intros E. apply (proj1 (s8_byte b ltac:(unfold is_byte; lia))) in E. lia.
Qed.

Lemma s8_inj a b : is_byte a → is_byte b → s8 a = s8 b → a = b.
Proof.
  unfold is_byte. intros Ha Hb. unfold signed. rewrite !wrap_small by lia.
  destruct (Z.ltb_spec a (2 ^ (8 - 1))), (Z.ltb_spec b (2 ^ (8 - 1))); lia.
Qed.

Lemma s8_low b : 0 <= b < 128 → s8 b = b.
Proof. intros. apply signed_small; lia. Qed.

Lemma u8_s8 b : is_byte b → u8 (s8 b) = b.
Proof.
  unfold is_byte. intros Hb. unfold signed. rewrite (wrap_small 8 b) by lia.
  destruct (Z.ltb_spec b (2 ^ (8 - 1))); [apply wrap_small; lia|].
  unfold wrap. rewrite <- (Z_mod_plus_full _ 1). rewrite Z.mod_small; lia.
Qed.

Lemma load_ok m p b : 0 <= p → m !! Z.to_nat p = Some b → load m p = Val b.
Proof. intros. by apply zget_Val. Qed.

Lemma char_ok m p b : 0 <= p → m !! Z.to_nat p = Some b → char m p = Val (s8 b).
Proof. intros. unfold char. by rewrite (load_ok m p b). Qed.

Lemma char_oob m p : Z.of_nat (length m) <= p → char m p = Err EUndef.
Proof. intros. unfold char, load. by rewrite zget_oob by lia. Qed.

Lemma at_mem_cons m p b s : at_mem m p (b :: s) ↔
  0 <= p ∧ m !! Z.to_nat p = Some b ∧ at_mem m (p + 1) s.
Proof.
  split.
  - intros [Hp Hm]. split; [done|split; [|split; [lia|]]].
    + replace p with (p + Z.of_nat 0) by lia. by apply Hm.
    + intros k x Hk. replace (p + 1 + Z.of_nat k) with (p + Z.of_nat (S k)) by lia. by apply Hm.
  - intros (Hp & Hb & _ & Hm). split; [done|]. intros [|k] x Hk; simplify_eq/=.
    + by rewrite Z.add_0_r.
    + replace (p + Z.of_nat (S k)) with (p + 1 + Z.of_nat k) by lia. by apply Hm.
Qed.

Lemma at_mem_app m p s t : at_mem m p (s ++ t) →
  at_mem m p s ∧ at_mem m (p + Z.of_nat (length s)) t.
Proof.
  intros [Hp Hm]. split; (split; [lia|]); intros k b Hk.
  - apply Hm. by apply lookup_app_l_Some.
  - replace (p + Z.of_nat (length s) + Z.of_nat k) with (p + Z.of_nat (length s + k)) by lia.
    apply Hm. rewrite lookup_app_r by lia. by replace (length s + k - length s)%nat with k by lia.
Qed.

Lemma at_mem_length m p s : at_mem m p s → (0 < length s)%nat →
  p + Z.of_nat (length s) <= Z.of_nat (length m).
Proof.
  intros [Hp Hm] Hl. destruct (lookup_lt_is_Some_2 s (length s - 1)) as [b Hb]; [lia|].
  apply Hm, lookup_lt_Some in Hb. lia.
Qed.

Lemma cstr_nil m p : cstr m p [] → 0 <= p ∧ m !! Z.to_nat p = Some 0.
Proof. intros [(? & ? & _)%at_mem_cons _]. done. Qed.

Lemma cstr_cons m p b s : cstr m p (b :: s) →
  0 <= p ∧ 0 < b < 256 ∧ m !! Z.to_nat p = Some b ∧ cstr m (p + 1) s.
Proof.
  intros [(? & ? & ?)%at_mem_cons [? ?]%Forall_cons]. done.
Qed.

Lemma cstr_length m p s : cstr m p s → p + Z.of_nat (length s) < Z.of_nat (length m).
Proof.
  intros [H _]. pose proof (at_mem_length m p (s ++ [0]) H) as Hl.
  rewrite length_app in Hl. cbn in Hl. lia.
Qed.

(** ** strlen *)

Lemma strlen_loop_cstr fuel m p s n : cstr m (p + n) s → (length s <= fuel)%nat →
  strlen_loop fuel m p n = Val (n + Z.of_nat (length s)).
Proof.
  revert n fuel. induction s as [|b s IH]; intros n fuel Hs Hf.
  - apply cstr_nil in Hs as [Hp Hm]. destruct fuel; cbn [strlen_loop];
      rewrite (char_ok _ _ _ Hp Hm); cbn; f_equal; lia.
  - apply cstr_cons in Hs as (Hp & Hb & Hm & Hs). destruct fuel as [|fuel]; [cbn in Hf; lia|].
    cbn [strlen_loop]. rewrite (char_ok _ _ _ Hp Hm). cbn [mbind res_bind].
    rewrite s8_nz by done. cbn [negb]. rewrite IH by (by rewrite Z.add_assoc || (cbn in Hf; lia)).
    f_equal. cbn [length]. lia.
Qed.

Lemma strlen_loop_total fuel m p n : mem_ok m → 0 <= p + n →
  Z.of_nat (length m) <= p + n + Z.of_nat fuel →
  strlen_loop fuel m p n = Err EUndef ∨ ∃ s, cstr m (p + n) s ∧ (length s <= fuel)%nat.
Proof.
  intros Hok. revert n. induction fuel as [|fuel IH]; intros n Hn Hf; cbn [strlen_loop].
  - left. by rewrite char_oob by lia.
  - destruct (m !! Z.to_nat (p + n)) as [b|] eqn:Hm; cycle 1.
    { left. apply lookup_ge_None in Hm. by rewrite char_oob by lia. }
    rewrite (char_ok _ _ _ Hn Hm). cbn [mbind res_bind].
    pose proof (Forall_lookup_1 _ _ _ _ Hok Hm) as Hb. cbn in Hb.
    destruct (Z.eqb_spec (s8 b) 0) as [E|E]; cbn [negb].
    + right. exists []. apply (proj1 (s8_byte b Hb)) in E as ->. split; [|cbn; lia]. split; [|done].
      apply at_mem_cons. split; [done|split; [done|split; [lia|done]]].
    + destruct (IH (n + 1)) as [?|(s & [Hs Hz] & Hl)]; [lia|lia|by left|right].
      rewrite Z.add_assoc in Hs.
      exists (b :: s). split; [|cbn; lia]. split.
      * apply at_mem_cons. done.
      * constructor; [|done]. assert (b ≠ 0) by (intros ->; by apply E). lia.
Qed.

(** ** strcmp *)

(** The bytes of the string followed by its NUL decide every step. *)
Lemma cstr_head m p s : cstr m p s →
  ∃ b, m !! Z.to_nat p = Some b ∧ 0 <= p ∧ is_byte b ∧
    ((s = [] ∧ b = 0) ∨ ∃ s', s = b :: s' ∧ b ≠ 0 ∧ cstr m (p + 1) s').
Proof.
  unfold is_byte. destruct s as [|b s]; intros Hs.
  - apply cstr_nil in Hs as [? ?]. exists 0. split_and!; try done; try lia. by left.
  - apply cstr_cons in Hs as (? & ? & ? & ?). exists b. split_and!; try done; try lia.
    right. exists s. split_and!; try done; lia.
Qed.

Lemma s8_eqb a b : is_byte a → is_byte b → (s8 a =? s8 b) = (a =? b).
Proof.
  intros Ha Hb. destruct (Z.eqb_spec a b) as [->|Hn]; [apply Z.eqb_refl|].
  apply Z.eqb_neq. intros E. by apply Hn, s8_inj.
Qed.

Lemma s8_eqb0 a : is_byte a → (s8 a =? 0) = (a =? 0).
Proof. intros Ha. apply (s8_eqb a 0); [done|unfold is_byte; lia]. Qed.

Lemma strcmp_step fuel m l r bl br : 0 <= l → 0 <= r → is_byte bl → is_byte br →
  m !! Z.to_nat l = Some bl → m !! Z.to_nat r = Some br →
  strcmp_loop fuel m l r =
    if bl =? br then
      if bl =? 0 then Val 0
      else match fuel with O => Err EFuel | S fuel => strcmp_loop fuel m (l + 1) (r + 1) end
    else Val (if bl <? br then -1 else 1).
Proof.
  intros Hl Hr Hbl Hbr El Er.
  destruct fuel; cbn [strcmp_loop];
    rewrite (char_ok _ _ _ Hl El), (char_ok _ _ _ Hr Er), (load_ok _ _ _ Hl El),
      (load_ok _ _ _ Hr Er); cbn [mbind res_bind];
    rewrite s8_eqb, s8_eqb0 by done; done.
Qed.

Lemma strcmp_loop_cstr fuel m l r s t : cstr m l s → cstr m r t → (length s <= fuel)%nat →
  strcmp_loop fuel m l r = Val (sign_of (lex s t)).
Proof.
  revert fuel l r t. induction s as [|x s IH]; intros fuel l r t Hs Ht Hf;
    destruct (cstr_head m l _ Hs) as (bl & Hl & Hpl & Hbl & Hcl);
    destruct (cstr_head m r _ Ht) as (br & Hr & Hpr & Hbr & Hcr);
    rewrite (strcmp_step _ _ _ _ bl br) by done.
  - destruct Hcl as [[_ ->]|(s' & ? & _)]; [|done].
    destruct Hcr as [[-> ->]|(t' & -> & Hnz & _)]; [done|].
    unfold is_byte in *. destruct (Z.eqb_spec 0 br), (Z.ltb_spec 0 br); try done; lia.
  - destruct Hcl as [[? _]|(s' & Es & Hnz & Hs')]; [done|]. injection Es as <- <-.
    destruct (Z.eqb_spec x 0); [done|].
    destruct Hcr as [[-> ->]|(t' & -> & Hnz' & Ht')]; unfold is_byte in *.
    + destruct (Z.eqb_spec x 0), (Z.ltb_spec x 0); try done; lia.
    + destruct fuel as [|fuel]; [cbn in Hf; lia|]. cbn [lex].
      destruct (Z.eqb_spec x br) as [->|].
      * rewrite Z.compare_refl. apply IH; [done|done|cbn in Hf; lia].
      * destruct (Z.compare_spec x br), (Z.ltb_spec x br); try done; lia.
Qed.

Lemma lex_refl s : lex s s = Eq.
Proof. induction s as [|x s IH]; cbn; [done|]. by rewrite Z.compare_refl. Qed.

Lemma lex_eq s t : lex s t = Eq ↔ s = t.
Proof.
  split; [|intros ->; apply lex_refl].
  revert t. induction s as [|x s IH]; intros [|y t]; cbn; try done.
  destruct (Z.compare_spec x y); [|done|done]. intros ->%IH. by subst.
Qed.

(** ** memcmp, memset, memcpy *)

Lemma bytes_S m p n b : m !! Z.to_nat p = Some b → 0 <= p →
  bytes m p (Z.of_nat (S n)) = b :: bytes m (p + 1) (Z.of_nat n).
Proof.
  intros Hb Hp. unfold bytes. rewrite !Nat2Z.id. rewrite (drop_S m b) by done. cbn.
  by replace (S (Z.to_nat p)) with (Z.to_nat (p + 1)) by lia.
Qed.

Lemma memcmp_ok m b1 b2 n : mem_ok m → 0 <= b1 → 0 <= b2 →
  b1 + Z.of_nat n <= Z.of_nat (length m) → b2 + Z.of_nat n <= Z.of_nat (length m) →
  ∃ r, memcmp m b1 b2 n = Val r ∧
    (r = 0 ↔ bytes m b1 (Z.of_nat n) = bytes m b2 (Z.of_nat n)) ∧
    (r ≠ 0 → ∃ k x y, 0 <= k < Z.of_nat n ∧
      bytes m b1 k = bytes m b2 k ∧
      m !! Z.to_nat (b1 + k) = Some x ∧ m !! Z.to_nat (b2 + k) = Some y ∧
      x ≠ y ∧ r = s8 x - s8 y).
Proof.
  intros Hok. revert b1 b2. induction n as [|n IH]; intros b1 b2 H1 H2 Hl1 Hl2; cbn [memcmp].
  - exists 0. split; [done|]. by split.
  - destruct (lookup_lt_is_Some_2 m (Z.to_nat b1)) as [x Hx]; [lia|].
    destruct (lookup_lt_is_Some_2 m (Z.to_nat b2)) as [y Hy]; [lia|].
    rewrite (char_ok _ _ _ H1 Hx), (char_ok _ _ _ H2 Hy). cbn [mbind res_bind].
    rewrite (bytes_S m b1 n x), (bytes_S m b2 n y) by done.
    pose proof (Forall_lookup_1 _ _ _ _ Hok Hx). pose proof (Forall_lookup_1 _ _ _ _ Hok Hy).
    destruct (Z.eqb_spec (s8 x) (s8 y)) as [E|E]; cbn [negb].
    + apply s8_inj in E as ->; [|done|done].
      destruct (IH (b1 + 1) (b2 + 1)) as (r & -> & Heq & Hne); [lia..|].
      exists r. split; [done|]. split; [rewrite Heq; split; [by intros ->|by intros [= ?]]|].
      intros (k & x' & y' & Hk & Hb & Hx' & Hy' & ? & ?)%Hne.
      exists (k + 1), x', y'. replace (k + 1) with (Z.of_nat (S (Z.to_nat k))) by lia.
      rewrite (bytes_S m b1 _ y), (bytes_S m b2 _ y) by done. rewrite Z2Nat.id by lia.
      split; [lia|]. split; [by rewrite Hb|].
      replace (b1 + Z.of_nat (S (Z.to_nat k))) with (b1 + 1 + k) by lia.
      by replace (b2 + Z.of_nat (S (Z.to_nat k))) with (b2 + 1 + k) by lia.
    + eexists. split; [done|]. assert (x ≠ y) by congruence. split.
      * split; [lia|congruence].
      * intros _. exists 0, x, y. rewrite !Z.add_0_r. split_and!; try done; lia.
Qed.

(** [m'] is [m] with the bytes from [p] on replaced by [l]. *)
Definition written (m m' : mem) (p : Z) (l : list Z) : Prop := m' = list_inserts (Z.to_nat p) l m.

Lemma memset_loop_ok m p v n : 0 <= p → p + Z.of_nat n <= Z.of_nat (length m) →
  ∃ m', memset_loop m p v n = Val m' ∧ written m m' p (replicate n (u8 v)).
Proof.
  revert m p. induction n as [|n IH]; intros m p Hp Hl; cbn [memset_loop].
  - by exists m.
  - unfold store, zset. rewrite decide_True by lia. cbn [mbind res_bind].
    destruct (IH (<[Z.to_nat p := u8 v]> m) (p + 1)) as (m' & -> & Hw);
      [lia|rewrite length_insert; lia|].
    exists m'. split; [done|]. unfold written in *. rewrite Hw. cbn [replicate list_inserts].
    replace (Z.to_nat (p + 1)) with (S (Z.to_nat p)) by lia.
    by rewrite list_insert_inserts_lt by lia.
Qed.

Lemma bytes_insert_ne m p d n v : 0 <= p → 0 <= d → d < p ∨ p + Z.of_nat n <= d →
  bytes (<[Z.to_nat d := v]> m) p (Z.of_nat n) = bytes m p (Z.of_nat n).
Proof.
  intros Hp Hd Hne. unfold bytes. rewrite Nat2Z.id. apply list_eq. intros i.
  destruct (decide (i < n)%nat).
  - rewrite !lookup_take_lt, !lookup_drop by done.
    rewrite list_lookup_insert_ne; [done|lia].
  - by rewrite !lookup_take_ge by lia.
Qed.

Lemma memcpy_loop_ok m d s n : mem_ok m → 0 <= d → 0 <= s →
  d + Z.of_nat n <= Z.of_nat (length m) → s + Z.of_nat n <= Z.of_nat (length m) →
  s + Z.of_nat n <= d ∨ d <= s →
  ∃ m', memcpy_loop m d s n = Val m' ∧ written m m' d (bytes m s (Z.of_nat n)).
Proof.
  revert m d s. induction n as [|n IH]; intros m d s Hok Hd Hs Hld Hls Hov; cbn [memcpy_loop].
  - by exists m.
  - destruct (lookup_lt_is_Some_2 m (Z.to_nat s)) as [x Hx]; [lia|].
    pose proof (Forall_lookup_1 _ _ _ _ Hok Hx) as Hb. cbn in Hb.
    rewrite (load_ok _ _ _ Hs Hx). cbn [mbind res_bind].
    unfold store, zset. rewrite decide_True by lia. cbn [mbind res_bind].
    rewrite wrap_small by lia.
    destruct (IH (<[Z.to_nat d := x]> m) (d + 1) (s + 1)) as (m' & -> & Hw);
      [by apply Forall_insert|lia|lia|rewrite length_insert; lia..|lia|].
    exists m'. split; [done|]. unfold written in *.
    rewrite Hw, bytes_insert_ne, (bytes_S m s n x) by (done || lia). cbn [list_inserts].
    replace (Z.to_nat (d + 1)) with (S (Z.to_nat d)) by lia.
    by rewrite list_insert_inserts_lt by lia.
Qed.

(** ** Parsing numbers *)

Definition digit (c : Z) : Prop := 48 <= c <= 57.

(** The number a digit string denotes, most significant digit first. *)
Definition value (acc : Z) (ds : list Z) : Z := foldl (λ a c, a * 10 + (c - 48)) acc ds.

Lemma value_cons acc c ds : value acc (c :: ds) = value (acc * 10 + (c - 48)) ds.
Proof. done. Qed.

Lemma value_ge acc ds : Forall digit ds → 0 <= acc → acc <= value acc ds.
Proof.
  intros Hd. revert acc. induction Hd as [|c ds Hc Hd IH]; intros acc Ha; [done|].
  rewrite value_cons. unfold digit in Hc. specialize (IH (acc * 10 + (c - 48)) ltac:(lia)). lia.
Qed.

Lemma schk_nonneg w x : 0 < w → 0 <= x → schk w x = if x <? 2 ^ (w - 1) then Val x else Err EUndef.
Proof.
  intros Hw Hx. unfold schk, in_signed. pose proof (Z.pow_pos_nonneg 2 (w - 1) ltac:(lia) ltac:(lia)).
  destruct (Z.leb_spec (- 2 ^ (w - 1)) x); [done|lia].
Qed.

Lemma digits_loop_ok fuel w m p acc ds e : 0 < w → at_mem m p (ds ++ [e]) →
  Forall digit ds → is_byte e → ¬ digit e → (length ds <= fuel)%nat → 0 <= acc < 2 ^ (w - 1) →
  digits_loop fuel w m p acc =
    if value acc ds <? 2 ^ (w - 1) then Val (value acc ds) else Err EUndef.
Proof.
  intros Hw Hm Hd He Hne. revert fuel p acc Hm.
  induction Hd as [|c ds Hc Hd IH]; intros fuel p acc (Hp & Hlk & Hm)%at_mem_cons Hf Ha.
  - destruct fuel; cbn [digits_loop]; rewrite (char_ok _ _ _ Hp Hlk); cbn [mbind res_bind].
    all: destruct (Z.leb_spec 48 (s8 e)), (Z.leb_spec (s8 e) 57); cbn [andb].
    all: try (exfalso; apply Hne; unfold digit, signed in *; unfold is_byte in He;
              rewrite wrap_small in * by lia; destruct (Z.ltb_spec e (2 ^ (8 - 1))); lia).
    all: cbn; destruct (Z.ltb_spec acc (2 ^ (w - 1))); [done|lia].
  - destruct fuel as [|fuel]; [cbn in Hf; lia|]. cbn [digits_loop].
    rewrite (char_ok _ _ _ Hp Hlk). cbn [mbind res_bind].
    unfold digit in Hc. rewrite s8_low by lia.
    destruct (Z.leb_spec 48 c); [|lia]. destruct (Z.leb_spec c 57); [|lia]. cbn [andb].
    rewrite value_cons.
    pose proof (value_ge (acc * 10 + (c - 48)) ds Hd ltac:(lia)).
    rewrite schk_nonneg by lia.
    destruct (Z.ltb_spec (acc * 10) (2 ^ (w - 1))); cbn [mbind res_bind];
      [|destruct (Z.ltb_spec (value (acc * 10 + (c - 48)) ds) (2 ^ (w - 1))); [lia|done]].
    rewrite schk_nonneg by lia.
    destruct (Z.ltb_spec (acc * 10 + (c - 48)) (2 ^ (w - 1))); cbn [mbind res_bind];
      [|destruct (Z.ltb_spec (value (acc * 10 + (c - 48)) ds) (2 ^ (w - 1))); [lia|done]].
    apply IH; [done|cbn in Hf; lia|lia].
Qed.

(** The optional sign [-] or [+] in front of a number. *)
Inductive sign := NoSign | Minus | Plus.
#[export] Instance sign_eq_dec : EqDecision sign.
Proof. solve_decision. Defined.
Definition sign_text (sg : sign) : list Z :=
  match sg with NoSign => [] | Minus => [45] | Plus => [43] end.

Lemma parse_int_ok w m p sg ds e : 0 < w → at_mem m p (sign_text sg ++ ds ++ [e]) →
  ds ≠ [] → Forall digit ds → is_byte e → ¬ digit e →
  parse_int w m p =
    if value 0 ds <? 2 ^ (w - 1)
    then Val (if decide (sg = Minus) then - value 0 ds else value 0 ds) else Err EUndef.
Proof.
  intros Hw Hm Hne Hd He Hnd. pose proof (value_ge 0 ds Hd ltac:(lia)) as Hv.
  assert (0 < 2 ^ (w - 1)) as Hpow by (apply Z.pow_pos_nonneg; lia).
  pose proof (at_mem_app m p (sign_text sg) (ds ++ [e]) Hm) as [_ Hm'].
  assert ((length ds <= length m)%nat) as Hlen.
  { pose proof (at_mem_length _ _ _ Hm) as Hl. destruct Hm as [? _].
    rewrite !length_app in Hl. cbn in Hl. lia. }
  unfold parse_int. destruct sg; cbn [sign_text app length] in *.
  - destruct ds as [|c ds]; [done|]. apply at_mem_cons in Hm as (Hp & Hlk & _).
    apply Forall_cons in Hd as Hd'. destruct Hd' as [Hc _]. unfold digit in Hc.
    rewrite (char_ok _ _ _ Hp Hlk). cbn [mbind res_bind]. rewrite s8_low by lia.
    destruct (Z.eqb_spec c 45); [lia|]. destruct (Z.eqb_spec c 43); [lia|].
    rewrite Z.add_0_r in Hm'. rewrite (digits_loop_ok _ _ _ _ _ (c :: ds) e) by (done || lia).
    by destruct (_ <? _).
  - apply at_mem_cons in Hm as (Hp & Hlk & _). rewrite (char_ok _ _ _ Hp Hlk).
    cbn [mbind res_bind]. rewrite s8_low by lia. cbn [Z.eqb Pos.eqb].
    rewrite (digits_loop_ok _ _ _ _ _ ds e) by (done || lia).
    destruct (Z.ltb_spec (value 0 ds) (2 ^ (w - 1))); [|done]. cbn [mbind res_bind].
    unfold schk, in_signed. destruct (Z.leb_spec (- 2 ^ (w - 1)) (value 0 ds * -1)); [|lia].
    destruct (Z.ltb_spec (value 0 ds * -1) (2 ^ (w - 1))); [|lia]. cbn [andb]. rewrite decide_True by done. f_equal. lia.
  - apply at_mem_cons in Hm as (Hp & Hlk & _). rewrite (char_ok _ _ _ Hp Hlk).
    cbn [mbind res_bind]. rewrite s8_low by lia. cbn [Z.eqb Pos.eqb].
    rewrite (digits_loop_ok _ _ _ _ _ ds e) by (done || lia).
    by destruct (_ <? _).
Qed.

(** ** Properties *)

(** The classes of the 7-bit characters, written with ranges. *)
Definition ascii_classes_ok (c : Z) : bool :=
  let within a b := (a <=? c) && (c <=? b) in
  eqb (isupper c) (within 65 90) && eqb (islower c) (within 97 122) &&
  eqb (isdigit c) (within 48 57) && eqb (isalpha c) (within 65 90 || within 97 122) &&
  eqb (isalnum c) (within 65 90 || within 97 122 || within 48 57) &&
  eqb (isxdigit c) (within 48 57 || within 65 70 || within 97 102) &&
  eqb (isspace c) (within 9 13 || (c =? 32)) && eqb (iscntrl c) (within 0 31 || (c =? 127)) &&
  eqb (isprint c) (within 32 126) && eqb (isgraph c) (within 33 126) &&
  eqb (ispunct c) (within 33 126 && negb (isalnum c)) && isascii c && (toascii c =? c) &&
  (tolower c =? (if within 65 90 then c + 32 else c)) &&
  (toupper c =? (if within 97 122 then c - 32 else c)).

(** on the 7-bit characters the table gives every class its ASCII range,
    and [tolower] and [toupper] change exactly the letters. *)
Theorem ctype_ascii c : 0 <= c < 128 → ascii_classes_ok c = true.
Proof.
  intros Hc. assert ((127 <? c) || ascii_classes_ok c = true) as [Hh|]%orb_true_iff; [| |done].
  - apply (all_bytes_spec (λ c, (127 <? c) || ascii_classes_ok c)); [vm_compute; reflexivity|].
    unfold is_byte. lia.
  - apply Z.ltb_lt in Hh. lia.
Qed.

Lemma ctype_ascii_witness : 0 <= 95 < 128 ∧ ascii_classes_ok 95 = true ∧ ispunct 95 = true.
Proof. split; [lia|split; [apply ctype_ascii; lia|reflexivity]]. Defined.

(** [strlen] on any pointer into memory either returns the length of the
    NUL-terminated string there, or there is no such string and the scan runs
    off the end of memory; it always ends. *)
Theorem strlen_spec m p : mem_ok m → 0 <= p →
  (∃ s, cstr m p s ∧ strlen m p = Val (Z.of_nat (length s))) ∨
  ((¬ ∃ s, cstr m p s) ∧ strlen m p = Err EUndef).
Proof.
  intros Hok Hp. unfold strlen.
  destruct (strlen_loop_total (length m) m p 0 Hok) as [E|(s & Hs & Hl)]; [lia|lia| |].
  - right. split; [|done]. intros [s Hs]. pose proof (cstr_length _ _ _ Hs).
    rewrite (strlen_loop_cstr _ _ _ s) in E; [done|by rewrite Z.add_0_r|lia].
  - left. exists s. rewrite Z.add_0_r in Hs. split; [done|].
    by rewrite (strlen_loop_cstr _ _ _ s) by (by rewrite Z.add_0_r || done).
Qed.

(** [strcmp] of two strings is -1, 0 or 1, as the strings compare
    lexicographically by their unsigned bytes; it is 0 exactly for equal
    strings. *)
Theorem strcmp_spec m l r s t : cstr m l s → cstr m r t →
  strcmp m l r = Val (sign_of (lex s t)) ∧ (strcmp m l r = Val 0 ↔ s = t).
Proof.
  intros Hs Ht. pose proof (cstr_length _ _ _ Hs). pose proof (proj1 (proj1 Hs)).
  assert (strcmp m l r = Val (sign_of (lex s t))) as ->
    by (apply strcmp_loop_cstr; [done|done|lia]).
  split; [done|]. rewrite <- lex_eq. destruct (lex s t); naive_solver.
Qed.

(** [memcpy] between ranges of memory that do not overlap writes the
    source bytes at the destination and changes nothing else; when the ranges
    overlap it copies nothing at all. *)
Theorem memcpy_spec m d s n : mem_ok m → 0 <= d → 0 <= s → 0 <= n →
  d + n <= Z.of_nat (length m) → s + n <= Z.of_nat (length m) →
  ∃ m', memcpy m d s n = Val (m', d) ∧
    if decide (s + n <= d ∨ d + n <= s) then written m m' d (bytes m s n) else m' = m.
Proof.
  intros Hok Hd Hs Hn Hdl Hsl. unfold memcpy. case_decide as Hov.
  - assert (((s <? d + n) && (d <? s)) || ((d <? s + n) && (s <? d)) = false) as ->.
    { destruct (Z.ltb_spec s (d + n)), (Z.ltb_spec d s), (Z.ltb_spec d (s + n)), (Z.ltb_spec s d);
        cbn; lia. }
    destruct (Z.eqb_spec n 0) as [->|]; [by exists m|].
    destruct (Z.eqb_spec s d); [lia|]. cbn [orb].
    destruct (memcpy_loop_ok m d s (Z.to_nat n)) as (m' & -> & Hw); try done; try lia.
    exists m'. split; [done|]. by rewrite Z2Nat.id in Hw by done.
  - exists m. split; [|done].
    destruct (Z.ltb_spec s (d + n)), (Z.ltb_spec d s), (Z.ltb_spec d (s + n)), (Z.ltb_spec s d);
      cbn [andb orb]; try done; try lia.
    destruct (Z.eqb_spec s d); [by rewrite orb_true_r|lia].
Qed.

(** [atoi] (32 bits) and [atol] (64 bits) of an optional sign and a
    non-empty run of digits return the number with its sign as long as the
    digits alone denote a value below [2^(w-1)]; otherwise the code runs into
    a signed overflow, also for the most negative number. *)
Theorem parse_int_spec w m p sg ds e :
  0 < w → at_mem m p (sign_text sg ++ ds ++ [e]) →
  ds ≠ [] → Forall digit ds → is_byte e → ¬ digit e →
  parse_int w m p =
    if value 0 ds <? 2 ^ (w - 1)
    then Val (if decide (sg = Minus) then - value 0 ds else value 0 ds) else Err EUndef.
Proof. exact (parse_int_ok w m p sg ds e). Qed.

(** [memcmp] of two ranges is 0 exactly when they hold the same bytes;
    otherwise it is the difference of the first two bytes that differ, taken as
    signed characters. *)
Theorem memcmp_spec m b1 b2 n : mem_ok m → 0 <= b1 → 0 <= b2 →
  b1 + Z.of_nat n <= Z.of_nat (length m) → b2 + Z.of_nat n <= Z.of_nat (length m) →
  ∃ r, memcmp m b1 b2 n = Val r ∧
    (r = 0 ↔ bytes m b1 (Z.of_nat n) = bytes m b2 (Z.of_nat n)) ∧
    (r ≠ 0 → ∃ k x y, 0 <= k < Z.of_nat n ∧ bytes m b1 k = bytes m b2 k ∧
      m !! Z.to_nat (b1 + k) = Some x ∧ m !! Z.to_nat (b2 + k) = Some y ∧
      x ≠ y ∧ r = s8 x - s8 y).
Proof. exact (memcmp_ok m b1 b2 n). Qed.

(** "ab", "abc" and "-17 " in memory. *)
Definition demo : mem := [97; 98; 0; 97; 98; 99; 0; 45; 49; 55; 32].

Lemma demo_bytes_ok : mem_ok demo.
Proof. repeat constructor; lia. Qed.

Lemma at_mem_compute m p s : 0 <= p →
  forallb (λ k, bool_decide (s !! k = m !! (Z.to_nat p + k)%nat)) (seq 0 (length s)) = true →
  at_mem m p s.
Proof.
  intros Hp H. split; [done|]. intros k b Hk. rewrite forallb_forall in H.
  specialize (H k). rewrite bool_decide_eq_true in H. rewrite <- Hk, H.
  - f_equal. lia.
  - apply in_seq. apply lookup_lt_Some in Hk. lia.
Qed.

Lemma demo_strings : cstr demo 0 [97; 98] ∧ cstr demo 3 [97; 98; 99] ∧
  at_mem demo 7 (sign_text Minus ++ [49; 55] ++ [32]).
Proof.
  split; [|split]; [split; [|repeat constructor; lia]..|];
    (apply at_mem_compute; [lia|vm_compute; reflexivity]).
Qed.

Lemma strlen_spec_witness : mem_ok demo ∧
  ((∃ s, cstr demo 3 s ∧ strlen demo 3 = Val (Z.of_nat (length s))) ∨
   ((¬ ∃ s, cstr demo 3 s) ∧ strlen demo 3 = Err EUndef)) ∧
  strlen demo 3 = Val 3 ∧ strlen demo 7 = Err EUndef.
Proof.
  split; [exact demo_bytes_ok|]. split; [apply (strlen_spec demo 3 demo_bytes_ok); lia|].
  split; vm_compute; reflexivity.
Defined.

Lemma strcmp_spec_witness : cstr demo 0 [97; 98] ∧ cstr demo 3 [97; 98; 99] ∧
  strcmp demo 0 3 = Val (-1).
Proof.
  destruct demo_strings as (H1 & H2 & _). split; [exact H1|split; [exact H2|]].
  exact (proj1 (strcmp_spec demo 0 3 _ _ H1 H2)).
Defined.

Lemma memcpy_spec_witness : ∃ m', memcpy demo 0 3 2 = Val (m', 0) ∧ written demo m' 0 [97; 98] ∧
  memcpy demo 2 3 2 = Val (demo, 2).
Proof.
  destruct (memcpy_spec demo 0 3 2 demo_bytes_ok) as (m' & E & Hw);
    [lia|lia|lia|vm_compute; discriminate|vm_compute; discriminate|].
  exists m'. split; [exact E|]. split; [exact Hw|vm_compute; reflexivity].
Defined.

Lemma parse_int_spec_witness :
  at_mem demo 7 (sign_text Minus ++ [49; 55] ++ [32]) ∧ atoi demo 7 = Val (-17).
Proof.
  destruct demo_strings as (_ & _ & H). split; [exact H|].
  apply (parse_int_spec 32 demo 7 Minus [49; 55] 32); [lia|exact H|discriminate| | |];
    unfold digit, is_byte; [repeat constructor; lia|lia|lia].
Defined.

Lemma memcmp_spec_witness : mem_ok demo ∧
  (∃ r, memcmp demo 0 3 2 = Val r ∧ (r = 0 ↔ bytes demo 0 2 = bytes demo 3 2)) ∧
  memcmp demo 0 3 3 = Val (-99).
Proof.
  split; [exact demo_bytes_ok|]. split; [|vm_compute; reflexivity].
  destruct (memcmp_spec demo 0 3 2 demo_bytes_ok) as (r & E & Hr & _);
    [lia|lia|vm_compute; discriminate|vm_compute; discriminate|].
  exists r. split; [exact E|exact Hr].
Defined.

End Libc.
