(* ===== verification/Printf.v ===== *)
(** * libc: formatted output

    Models [userspace/libc/src/printf.c]: [writeFillChars], [writeNumber],
    [_log10], [_pow10], [writeFloat], [printf], [putchar] and [puts].  The
    format, the string arguments and the rest of the process's memory are a
    [mem]; the 256-byte stack buffer is a separate array, and a store past its
    end is undefined.  [double] arithmetic is the standard library's executable
    specification of IEEE 754 at 53 bits.  [write] is a parameter. *)

From Stdlib Require Import SpecFloat.
From S2P Require Import Prelude LibcString.
Import Libc.

Module Printf.

(** ** The output string *)

(** [struct c_string]; [start] is index 0 of the buffer. *)
Record c_string := mkStr {
  buffer : list Z;
  ptr : Z;
  length_ : Z;
}.

(** [*s->ptr++ = c; ++s->length]. *)
Definition putc (s : c_string) (c : Z) : res c_string :=
  b ← zset (buffer s) (ptr s) (u8 c);
  Val (mkStr b (ptr s + 1) (u64 (length_ s + 1))).

Definition ZEROPAD : Z := 1.
Definition SIGN : Z := 2.
Definition PLUS : Z := 4.
Definition SPACE : Z := 8.
Definition LEFT : Z := 16.
Definition SPECIAL : Z := 32.
Definition LARGE : Z := 64.
Definition LONG : Z := 128.

Definition has (type flag : Z) : bool := negb (Z.land type flag =? 0).

Fixpoint writeFillChars (output_string : c_string) (size : nat) (fill : Z) : res c_string :=
  match size with
  | O => Val output_string
  | S n => s ← putc output_string fill; writeFillChars s n fill
  end.

(** ** Numbers *)

Definition small_digits : list Z :=
  map (Z.add 48) (seqZ 0 10) ++ map (Z.add 97) (seqZ 0 26).
Definition large_digits : list Z :=
  map (Z.add 48) (seqZ 0 10) ++ map (Z.add 65) (seqZ 0 26).

(** [tmp[i++] = c] on [char tmp[70]], kept as the list of its first [i] bytes. *)
Definition push (tmp : list Z) (c : Z) : res (list Z) :=
  if Z.of_nat (length tmp) <? 70 then Val (tmp ++ [c]) else Err EUndef.

(** The digit loop; 64 divisions bring any 64-bit number to 0. *)
Fixpoint digit_loop (fuel : nat) (digits : list Z) (base number : Z) (tmp : list Z)
  : res (list Z) :=
  if number =? 0 then Val tmp
  else match fuel with
       | O => Err EFuel
       | S fuel =>
           d ← zget digits (number mod base);
           tmp ← push tmp d;
           digit_loop fuel digits base (number / base) tmp
       end.

(** [while (size-- - precision > i)]. *)
Fixpoint pad_loop (fuel : nat) (s : c_string) (size precision i c : Z) : res c_string :=
  if i <? u32 (size - precision) then
    match fuel with
    | O => Err EFuel
    | S fuel => s ← putc s c; pad_loop fuel s (u32 (size - 1)) precision i c
    end
  else Val s.

(** [while (precision-- > i)]. *)
Fixpoint prec_loop (fuel : nat) (s : c_string) (precision i : Z) : res c_string :=
  if i <? precision then
    match fuel with
    | O => Err EFuel
    | S fuel => s ← putc s 48; prec_loop fuel s (u32 (precision - 1)) i
    end
  else Val s.

(** The characters of [tmp], last first. *)
Fixpoint emit (s : c_string) (l : list Z) : res c_string :=
  match l with
  | [] => Val s
  | c :: l => s ← putc s c; emit s l
  end.

(** The sign character (0: none) and the magnitude. *)
Definition sign_of_number (number type : Z) : res (Z * Z) :=
  if has type SIGN then
    if has type LONG && (s64 number <? 0) then
      n ← schk 64 (- s64 number); Val (45, u64 n)
    else if negb (has type LONG) && (s32 number <? 0) then
      n ← schk 32 (- s32 number); Val (45, u64 n)
    else if has type PLUS then Val (43, number)
    else if has type SPACE then Val (32, number)
    else Val (0, number)
  else Val (0, number).

(** The digits, then the sign, then the prefix, all into [tmp]. *)
Definition fill_tmp (digits : list Z) (sign number base type : Z) : res (list Z) :=
  tmp ← (if number =? 0 then push [] 48 else digit_loop 64 digits base number []);
  tmp ← (if negb (sign =? 0) then push tmp sign else Val tmp);
  if has type SPECIAL then
    if base =? 8 then push tmp 48
    else if base =? 16 then
      x ← zget digits 33; tmp ← push tmp x; push tmp 48
    else Val tmp
  else Val tmp.

Definition writeNumber (output_string : c_string) (number base size precision type : Z)
  : res c_string :=
  let digits := if has type LARGE then large_digits else small_digits in
  let size := if has type LEFT then 0 else size in
  let type := if has type LEFT then Z.land type (u8 (Z.lnot ZEROPAD)) else type in
  if (base <? 2) || (36 <? base) then Val output_string
  else
    let c := if has type ZEROPAD then 48 else 32 in
    '(sign, number) ← sign_of_number number type;
    tmp ← fill_tmp digits sign number base type;
    let precision := if has type SPECIAL then 0 else precision in
    let precision := if size <? precision then size else precision in
    let i := Z.of_nat (length tmp) in
    s ← pad_loop (Z.to_nat size) output_string size precision i c;
    s ← prec_loop (Z.to_nat precision) s precision i;
    emit s (rev tmp).

(** ** Floating point *)

Definition double : Type := spec_float.
Definition f_of_Z (z : Z) : double := binary_normalize 53 1024 z 0 false.
Definition f_mul : double → double → double := SFmul 53 1024.
Definition f_div : double → double → double := SFdiv 53 1024.
Definition f_sub : double → double → double := SFsub 53 1024.
Definition f_lt (x y : double) : bool := SFltb x y.
Definition f_isnan (x : double) : bool := match x with S754_nan => true | _ => false end.
Definition f_isinf (x : double) : bool := match x with S754_infinity _ => true | _ => false end.
(** [(int) x]: towards zero; undefined when the value does not fit. *)
Definition f_to_int (x : double) : res Z :=
  match x with
  | S754_zero _ => Val 0
  | S754_finite s m e =>
      let a := if 0 <=? e then Zpos m * 2 ^ e else Zpos m / 2 ^ (- e) in
      schk 32 (if s then - a else a)
  | _ => Err EUndef
  end.

Fixpoint log10_loop (fuel : nat) (n : double) (log : Z) : res Z :=
  if SFleb (f_of_Z 10) n then
    match fuel with
    | O => Err EFuel
    | S fuel => log10_loop fuel (f_div n (f_of_Z 10)) (log + 1)
    end
  else Val log.
Definition _log10 (n : double) : res Z := log10_loop 400 n 0.

Definition _pow10 (p : Z) : double :=
  if 0 <=? p then Nat.iter (Z.to_nat p) (λ r, f_mul r (f_of_Z 10)) (f_of_Z 1)
  else Nat.iter (Z.to_nat (- p)) (λ r, f_div r (f_of_Z 10)) (f_of_Z 1).

(** The conversion loop: [m] counts down from the magnitude. *)
Fixpoint convert_loop (fuel : nat) (s : c_string) (n precision : double) (m : Z)
  : res (c_string * Z) :=
  if f_lt precision n || (0 <=? m) then
    match fuel with
    | O => Err EFuel
    | S fuel =>
        let weight := _pow10 m in
        '(s, n) ← (if f_lt (f_of_Z 0) weight && negb (f_isinf weight) then
                     digit ← f_to_int (f_div n weight);
                     s ← putc s (48 + digit);
                     Val (s, f_sub n (f_mul (f_of_Z digit) weight))
                   else Val (s, n));
        s ← (if (m =? 0) && f_lt (f_of_Z 0) n then putc s 46 else Val s);
        convert_loop fuel s n precision (m - 1)
    end
  else Val (s, m).

(** The exponent's digits, least significant first; [m] counts them. *)
Fixpoint exp_loop (fuel : nat) (s : c_string) (m1 m : Z) : res (c_string * Z) :=
  if 0 <? m1 then
    match fuel with
    | O => Err EFuel
    | S fuel => s ← putc s (48 + m1 mod 10); exp_loop fuel s (m1 / 10) (m + 1)
    end
  else Val (s, m).

(** The swap loop over [s.ptr[i]] and [s.ptr[j]], [base] being [s.ptr]. *)
Fixpoint swap_loop (fuel : nat) (b : list Z) (base i j : Z) : res (list Z) :=
  if i <? j then
    match fuel with
    | O => Err EFuel
    | S fuel =>
        tmp ← zget b (base + i);
        o ← zget b (base + j);
        b ← zset b (base + i) o;
        b ← zset b (base + j) tmp;
        swap_loop fuel b base (i + 1) (j - 1)
    end
  else Val b.

(** A finite number other than zero. *)
Definition write_finite (s : c_string) (n precision : double) : res c_string :=
  let neg := f_lt n (f_of_Z 0) in
  let n := if neg then SFopp n else n in
  m ← _log10 n;
  let useExp := (14 <=? m) || (neg && (9 <=? m)) || (m <=? -9) in
  s ← (if neg then putc s 45 else Val s);
  let m := if useExp && (m <? 0) then m - 1 else m in
  let n := if useExp then f_div n (_pow10 m) else n in
  let m1 := m in
  let m := if useExp then 0 else m in
  let m := if m <? 1 then 0 else m in
  '(s, _) ← convert_loop 1500 s n precision m;
  if useExp then
    s ← putc s 101;
    s ← (if 0 <? m1 then putc s 43 else putc s 45);
    let m1 := if 0 <? m1 then m1 else - m1 in
    '(s, m) ← exp_loop 20 s m1 0;
    b ← swap_loop 20 (buffer s) (ptr s - m) 0 (m - 1);
    Val (mkStr b (ptr s) (length_ s))
  else Val s.

Definition empty_str (size : nat) : c_string := mkStr (replicate size 0) 0 0.

Definition writeFloat (output_string : c_string) (n : double) (width prec flags : Z)
  : res c_string :=
  let s := empty_str 70 in
  let precision := _pow10 (s32 (u32 (- prec))) in
  s ← (if f_isnan n then emit s (if has flags LARGE then [78; 65; 78] else [110; 97; 110])
       else if f_isinf n then emit s (if has flags LARGE then [73; 78; 70] else [105; 110; 102])
       else if SFeqb n (f_of_Z 0) then putc s 48
       else write_finite s n precision);
  out ← writeFillChars output_string (Z.to_nat (width - length_ s))
          (if has flags ZEROPAD then 48 else 32);
  emit out (take (Z.to_nat (length_ s)) (buffer s)).

(** ** printf *)

(** What [va_arg] finds in a variadic slot: an integer or pointer, or a double. *)
Inductive arg :=
| AWord (x : Z)
| ADouble (d : double).

Definition next_word (args : list arg) : res (Z * list arg) :=
  match args with AWord x :: args => Val (x, args) | _ => Err EUndef end.
Definition next_double (args : list arg) : res (double * list arg) :=
  match args with ADouble d :: args => Val (d, args) | _ => Err EUndef end.

(** [for(; *format >= (c ? '0' : '1') && *format <= '9'; ++format, ++c)]: the
    digits read, and where the scan stops. *)
Fixpoint num_loop (fuel : nat) (m : mem) (format c : Z) : res (list Z * Z) :=
  ch ← char m format;
  if ((if c =? 0 then 49 else 48) <=? ch) && (ch <=? 57) then
    match fuel with
    | O => Err EFuel
    | S fuel => '(ds, format) ← num_loop fuel m (format + 1) (c + 1); Val (ch :: ds, format)
    end
  else Val ([], format).

(** [char num[4]], cut to three digits by [num[c < 4 ? c : 3] = 0]. *)
Definition num_value (ds : list Z) : res Z := atoi (take 3 ds ++ [0]) 0.

Fixpoint prefix_loop (fuel : nat) (m : mem) (format flag width character_count : Z)
  : res (Z * Z * Z) :=
  match fuel with
  | O => Err EFuel
  | S fuel =>
      ch ← char m format;
      if ch =? 45 then prefix_loop fuel m (format + 1) (Z.lor flag LEFT) width character_count
      else if ch =? 43 then prefix_loop fuel m (format + 1) (Z.lor flag PLUS) width character_count
      else if ch =? 48 then prefix_loop fuel m (format + 1) (Z.lor flag ZEROPAD) width character_count
      else if (ch =? 122) || (ch =? 108) then
        prefix_loop fuel m (format + 1) (Z.lor flag LONG) width character_count
      else if negb (width =? 0) then Val (format, flag, width)
      else
        '(ds, format) ← num_loop (length m) m format 0;
        if negb (Z.of_nat (length ds) =? 0) then
          width ← num_value ds;
          let width := if character_count <? width then character_count else width in
          prefix_loop fuel m format flag width character_count
        else Val (format, flag, width)
  end.

(** The copy loop of [%s]: it stops at the NUL or when the count reaches 0. *)
Fixpoint str_loop (fuel : nat) (m : mem) (s : c_string) (p character_count : Z)
  : res (c_string * Z) :=
  ch ← char m p;
  if negb (ch =? 0) then
    if character_count =? 0 then Val (s, character_count)
    else match fuel with
         | O => Err EFuel
         | S fuel => s ← putc s ch; str_loop fuel m s (p + 1) (character_count - 1)
         end
  else Val (s, character_count).

Definition case_s (m : mem) (s : c_string) (p flag width character_count : Z)
  : res (c_string * Z) :=
  _ ← defined (negb (p =? 0));
  n ← strlen m p;
  let len := s32 n in
  let right := negb (has flag LEFT) && (len <? width) in
  let character_count := if right then character_count - (width - len) else character_count in
  if right && (character_count <? 0) then Val (s, character_count)
  else
    s ← (if right then writeFillChars s (Z.to_nat (width - len)) 32 else Val s);
    '(s, character_count) ← str_loop (length m) m s p character_count;
    let left := has flag LEFT && (len <? width) in
    let character_count := if left then character_count - (width - len) else character_count in
    if left && (character_count <? 0) then Val (s, character_count)
    else
      s ← (if left then writeFillChars s (Z.to_nat (width - len)) 32 else Val s);
      Val (s, character_count).

(** The conversion switch. *)
Definition conversion (m : mem) (conv : Z) (s : c_string) (args : list arg)
    (flag width precision character_count : Z) : res (c_string * list arg * Z) :=
  let number base type :=
    '(x, args) ← next_word args;
    s ← writeNumber s x base (u32 width) 0 type;
    Val (s, args, character_count) in
  let float type :=
    '(d, args) ← next_double args;
    s ← writeFloat s d (u32 width) (u32 precision) type;
    Val (s, args, character_count) in
  if conv =? 37 then s ← putc s conv; Val (s, args, character_count - 1)
  else if conv =? 115 then
    '(p, args) ← next_word args;
    '(s, character_count) ← case_s m s p flag width character_count;
    Val (s, args, character_count)
  else if conv =? 100 then number 10 (Z.lor flag SIGN)
  else if conv =? 111 then number 8 (Z.lor flag SPECIAL)
  else if conv =? 117 then number 10 flag
  else if (conv =? 112) || (conv =? 120) then number 16 (Z.lor flag SPECIAL)
  else if conv =? 88 then number 16 (Z.lor (Z.lor flag SPECIAL) LARGE)
  else if conv =? 102 then float flag
  else if conv =? 70 then float (Z.lor flag LARGE)
  else if conv =? 99 then
    '(x, args) ← next_word args;
    s ← putc s x;
    Val (s, args, character_count)
  else s ← putc s 37; Val (s, args, character_count).

(** One [%] directive, [format] pointing past the [%]; the result points to the
    conversion character. *)
Definition directive (m : mem) (format : Z) (s : c_string) (args : list arg)
    (character_count : Z) : res (Z * c_string * list arg * Z) :=
  '(format, flag, width) ← prefix_loop (S (length m)) m format 0 0 character_count;
  ch ← char m format;
  '(format, precision) ←
    (if ch =? 46 then
       '(ds, format) ← num_loop (length m) m (format + 1) 0;
       if negb (Z.of_nat (length ds) =? 0) then p ← num_value ds; Val (format, p)
       else Val (format, 14)
     else Val (format, 14));
  conv ← char m format;
  '(s, args, character_count) ← conversion m conv s args flag width precision character_count;
  Val (format, s, args, character_count).

(** The format loop: it ends at the NUL or when the count is exactly 0. *)
Fixpoint format_loop (fuel : nat) (m : mem) (format : Z) (s : c_string) (args : list arg)
    (character_count : Z) : res c_string :=
  ch ← char m format;
  if ch =? 0 then Val s
  else if character_count =? 0 then Val s
  else match fuel with
  | O => Err EFuel
  | S fuel =>
      if ch =? 37 then
        '(format, s, args, character_count) ← directive m (format + 1) s args character_count;
        format_loop fuel m (format + 1) s args character_count
      else
        s ← putc s ch;
        format_loop fuel m (format + 1) s args (character_count - 1)
  end.

Section output.
Context (write : Z → list Z → Z).

Definition STDOUT_FILENO : Z := 1.
Definition EOF : Z := -1.

(** The bytes handed to [write] and the value returned. *)
Definition printf (m : mem) (format : Z) (args : list arg) : res (list Z * Z) :=
  s ← (if format =? 0 then Val (empty_str 256)
       else format_loop (length m) m format (empty_str 256) args 256);
  let out := take (Z.to_nat (length_ s)) (buffer s) in
  Val (out, s32 (write STDOUT_FILENO out)).

Definition putchar (character : Z) : list Z * Z :=
  let output_char := u8 character in
  let characters_written := s32 (write STDOUT_FILENO [output_char]) in
  ([output_char],
   if (characters_written =? 0) || (characters_written =? -1) then EOF else output_char).

(** The writes [puts] makes and the value it returns. *)
Definition puts (m : mem) (output_string : Z) : res (list (list Z) * Z) :=
  string_length ← (if output_string =? 0 then Val 0 else strlen m output_string);
  let text := bytes m output_string string_length in
  let w1 := s32 (write STDOUT_FILENO text) in
  if negb (string_length =? 0) && ((w1 =? 0) || (w1 =? -1)) then Val ([text], EOF)
  else
    let w2 := s32 (write STDOUT_FILENO [10]) in
    Val ((if negb (string_length =? 0) then [text] else []) ++ [[10]],
         if (w2 =? 0) || (w2 =? -1) then EOF else 0).
End output.

(** ** Writing characters *)

Lemma emit_app s l1 l2 : emit s (l1 ++ l2) = (s ← emit s l1; emit s l2).
Proof.
  revert s. induction l1 as [|c l1 IH]; intros s; cbn; [done|].
  destruct (putc s c); cbn; [apply IH|done].
Qed.

Lemma writeFillChars_emit s n c : writeFillChars s n c = emit s (replicate n c).
Proof.
  revert s. induction n as [|n IH]; intros s; cbn; [done|].
  destruct (putc s c); cbn; [apply IH|done].
Qed.

(** The buffer [size] bytes long holds the output [out]. *)
Record str_holds (size : Z) (s : c_string) (out : list Z) : Prop := {
  sh_size : Z.of_nat (length (buffer s)) = size;
  sh_ptr : ptr s = Z.of_nat (length out);
  sh_length : length_ s = Z.of_nat (length out);
  sh_text : take (length out) (buffer s) = out;
  sh_max : Z.of_nat (length out) <= size < 2 ^ 63;
}.

Lemma str_holds_empty n : Z.of_nat n < 2 ^ 63 → str_holds (Z.of_nat n) (empty_str n) [].
Proof. intros. split; cbn; rewrite ?length_replicate; done || lia. Qed.

Lemma putc_ok size s out c : str_holds size s out → Z.of_nat (length out) < size →
  ∃ s', putc s c = Val s' ∧ str_holds size s' (out ++ [u8 c]).
Proof.
  intros [Hs Hp Hl Ht Hm] Hlt. unfold putc, zset. rewrite decide_True by lia. cbn.
  eexists. split; [done|]. rewrite Hp, Hl, Nat2Z.id.
  split; cbn; rewrite ?length_insert, ?length_app; cbn; try done; try lia.
  - rewrite wrap_small; lia.
  - rewrite Nat.add_1_r, (take_S_r _ _ (u8 c)) by (apply list_lookup_insert_eq; lia).
    f_equal. by rewrite take_insert_ge by lia.
Qed.

Lemma putc_full size s out c : str_holds size s out → Z.of_nat (length out) = size →
  putc s c = Err EUndef.
Proof.
  intros [Hs Hp Hl Ht Hm] Hlt. unfold putc, zset. rewrite decide_False by lia. done.
Qed.

Lemma emit_ok size s out l : str_holds size s out → Z.of_nat (length out + length l) <= size →
  ∃ s', emit s l = Val s' ∧ str_holds size s' (out ++ map u8 l).
Proof.
  revert s out. induction l as [|c l IH]; intros s out Hs Hl; cbn.
  - exists s. by rewrite app_nil_r.
  - cbn in Hl. destruct (putc_ok size s out c Hs) as (s1 & -> & Hs1); [lia|]. cbn.
    destruct (IH s1 (out ++ [u8 c]) Hs1) as (s2 & -> & Hs2); [rewrite length_app; cbn; lia|].
    exists s2. split; [done|]. by rewrite <- app_assoc in Hs2.
Qed.

Lemma emit_full size s out l : str_holds size s out → size < Z.of_nat (length out + length l) →
  emit s l = Err EUndef.
Proof.
  revert s out. induction l as [|c l IH]; intros s out Hs Hl; cbn in *.
  - pose proof (sh_max _ _ _ Hs). lia.
  - destruct (decide (Z.of_nat (length out) = size)).
    + by rewrite (putc_full size s out).
    + destruct (putc_ok size s out c Hs) as (s1 & -> & Hs1);
        [pose proof (sh_max _ _ _ Hs); lia|]. cbn.
      apply (IH s1 (out ++ [u8 c]) Hs1). rewrite length_app. cbn. lia.
Qed.

(** ** What writeNumber writes *)

Definition dig (digits : list Z) (d : Z) : Z := nth (Z.to_nat d) digits 0.

(** The digits of [n], most significant first. *)
Fixpoint numeral (fuel : nat) (digits : list Z) (base n : Z) : list Z :=
  match fuel with
  | O => []
  | S fuel => if n <? base then [dig digits n]
              else numeral fuel digits base (n / base) ++ [dig digits (n mod base)]
  end.

(** Sign or prefix, and digits. *)
Definition number_body (sign mag base type : Z) : list Z :=
  let digits := if has type LARGE then large_digits else small_digits in
  (if has type SPECIAL then
     if base =? 8 then [48] else if base =? 16 then [48; dig digits 33] else []
   else []) ++
  (if sign =? 0 then [] else [sign]) ++ numeral 64 digits base mag.

(** The whole field: fill characters, zeros up to the precision, body. *)
Definition number_text (sign mag base size precision type : Z) : list Z :=
  let body := number_body sign mag base type in
  let i := Z.of_nat (length body) in
  let size := if has type LEFT then 0 else size in
  let p := Z.min (if has type SPECIAL then 0 else precision) size in
  replicate (Z.to_nat (size - p - i)) (if has type ZEROPAD then 48 else 32) ++
  replicate (Z.to_nat (p - i)) 48 ++ body.

Lemma pad_loop_emit fuel s size precision i c :
  0 <= precision <= size → size < 2 ^ 32 → 0 < i → size <= Z.of_nat fuel →
  pad_loop fuel s size precision i c = emit s (replicate (Z.to_nat (size - precision - i)) c).
Proof.
  revert s size. induction fuel as [|fuel IH]; intros s size Hp Hs Hi Hf; cbn [pad_loop];
    rewrite (wrap_small 32 (size - precision)) by lia;
    destruct (Z.ltb_spec i (size - precision)); try lia;
    try (replace (Z.to_nat (size - precision - i)) with 0%nat by lia; done).
  replace (Z.to_nat (size - precision - i)) with (S (Z.to_nat (size - 1 - precision - i))) by lia.
  cbn. destruct (putc s c); [|done]. cbn. rewrite wrap_small by lia. apply IH; lia.
Qed.

Lemma prec_loop_emit fuel s precision i : 0 <= precision < 2 ^ 32 → 0 < i →
  precision <= Z.of_nat fuel →
  prec_loop fuel s precision i = emit s (replicate (Z.to_nat (precision - i)) 48).
Proof.
  revert s precision. induction fuel as [|fuel IH]; intros s precision Hp Hi Hf; cbn [prec_loop];
    destruct (Z.ltb_spec i precision); try lia;
    try (replace (Z.to_nat (precision - i)) with 0%nat by lia; done).
  replace (Z.to_nat (precision - i)) with (S (Z.to_nat (precision - 1 - i))) by lia.
  cbn. destruct (putc s 48); [|done]. cbn. rewrite wrap_small by lia. apply IH; lia.
Qed.

Lemma numeral_length fuel digits base n : (length (numeral fuel digits base n) <= fuel)%nat.
Proof.
  revert n. induction fuel as [|fuel IH]; intros n; cbn; [done|].
  destruct (n <? base); [cbn; lia|]. rewrite length_app. cbn. specialize (IH (n / base)). lia.
Qed.

Lemma numeral_nonempty fuel digits base n : numeral (S fuel) digits base n ≠ [].
Proof. cbn. destruct (n <? base); [done|]. by destruct (numeral fuel digits base _). Qed.

Lemma digit_loop_numeral fuel digits base n tmp :
  2 <= base → base <= Z.of_nat (length digits) → 0 < n < 2 ^ Z.of_nat fuel →
  Z.of_nat (length tmp + fuel) <= 70 →
  digit_loop fuel digits base n tmp = Val (tmp ++ rev (numeral fuel digits base n)).
Proof.
  intros Hb Hd. revert n tmp. induction fuel as [|fuel IH]; intros n tmp Hn Hl; [lia|].
  cbn [digit_loop numeral]. destruct (Z.eqb_spec n 0); [lia|].
  pose proof (Z.mod_pos_bound n base ltac:(lia)) as Hmod.
  assert (zget digits (n mod base) = Val (dig digits (n mod base))) as ->.
  { apply zget_Val. split; [lia|]. unfold dig.
    destruct (lookup_lt_is_Some_2 digits (Z.to_nat (n mod base))) as [x Hx]; [lia|].
    rewrite Hx. f_equal. symmetry. by apply nth_lookup_Some. }
  cbn [mbind res_bind]. unfold push. destruct (Z.ltb_spec (Z.of_nat (length tmp)) 70); [|lia].
  cbn [mbind res_bind].
  destruct (Z.ltb_spec n base).
  - rewrite Z.div_small, Z.mod_small by lia. destruct fuel; done.
  - rewrite rev_app_distr. cbn [rev app]. rewrite IH, <- app_assoc; [done| |].
    + split; [apply Z.div_str_pos; lia|].
      apply Z.div_lt_upper_bound; [lia|].
      replace (Z.of_nat (S fuel)) with (Z.of_nat fuel + 1) in Hn by lia.
      rewrite Z.pow_add_r in Hn by lia. nia.
    + rewrite length_app. cbn. lia.
Qed.

Lemma digits_length type :
  Z.of_nat (length (if has type LARGE then large_digits else small_digits)) = 36.
Proof. by destruct (has type LARGE). Qed.

Lemma has_unzero type : is_byte type →
  let type' := Z.land type (u8 (Z.lnot ZEROPAD)) in
  has type' ZEROPAD = false ∧ has type' SIGN = has type SIGN ∧ has type' LONG = has type LONG ∧
  has type' PLUS = has type PLUS ∧ has type' SPACE = has type SPACE ∧
  has type' SPECIAL = has type SPECIAL.
Proof.
  intros Ht. pose proof (all_bytes_spec (λ type,
    let type' := Z.land type (u8 (Z.lnot ZEROPAD)) in
    negb (has type' ZEROPAD) && eqb (has type' SIGN) (has type SIGN) &&
    eqb (has type' LONG) (has type LONG) && eqb (has type' PLUS) (has type PLUS) &&
    eqb (has type' SPACE) (has type SPACE) && eqb (has type' SPECIAL) (has type SPECIAL))
    ltac:(vm_compute; reflexivity) type Ht) as H.
  cbv beta zeta in *. bool_to_prop. rewrite !eqb_true_iff in *. by split_and!.
Qed.

Lemma sign_of_number_range number type sg mag : 0 <= number < 2 ^ 64 →
  sign_of_number number type = Val (sg, mag) → 0 <= mag < 2 ^ 64.
Proof.
  intros Hn. unfold sign_of_number. pose proof (wrap_bounds 64).
  repeat case_match; try (intros [= <- <-]; lia);
    intros H'; apply bind_Val in H' as (n & _ & [= <- <-]); auto with lia.
Qed.

Lemma push_ok tmp c : Z.of_nat (length tmp) < 70 → push tmp c = Val (tmp ++ [c]).
Proof. intros. unfold push. by destruct (Z.ltb_spec (Z.of_nat (length tmp)) 70); [|lia]. Qed.

(** The part of [writeNumber] that fills [tmp]. *)
Lemma tmp_body sign mag base type :
  let digits := if has type LARGE then large_digits else small_digits in
  2 <= base <= 36 → 0 <= mag < 2 ^ 64 →
  fill_tmp digits sign mag base type = Val (rev (number_body sign mag base type)).
Proof.
  intros digits Hb Hm. unfold fill_tmp. pose proof (digits_length type) as Hdl. fold digits in Hdl.
  assert ((if mag =? 0 then push [] 48 else digit_loop 64 digits base mag []) =
          Val (rev (numeral 64 digits base mag))) as ->.
  { destruct (Z.eqb_spec mag 0) as [->|].
    - cbn [numeral]. destruct (Z.ltb_spec 0 base); [|lia].
      unfold digits. by destruct (has type LARGE).
    - by rewrite digit_loop_numeral by (lia || (cbn; lia)). }
  cbn [mbind res_bind]. unfold number_body. fold digits.
  pose proof (numeral_length 64 digits base mag) as Hl.
  set (ds := numeral 64 digits base mag) in *.
  assert ((if negb (sign =? 0) then push (rev ds) sign else Val (rev ds)) =
          Val (rev ((if sign =? 0 then [] else [sign]) ++ ds))) as ->.
  { destruct (Z.eqb_spec sign 0); cbn [negb]; [done|].
    rewrite push_ok by (rewrite length_rev; lia). done. }
  cbn [mbind res_bind].
  assert (Z.of_nat (length (rev ((if sign =? 0 then [] else [sign]) ++ ds))) <= 65) as Hl2
    by (rewrite length_rev, length_app; destruct (sign =? 0); cbn [length]; lia).
  set (t := rev ((if sign =? 0 then [] else [sign]) ++ ds)) in *.
  destruct (has type SPECIAL); [|done].
  assert (zget digits 33 = Val (dig digits 33)) as -> by
    (unfold digits; by destruct (has type LARGE)).
  destruct (Z.eqb_spec base 8); [by rewrite push_ok by lia|].
  destruct (Z.eqb_spec base 16); [|done]. cbn [mbind res_bind].
  rewrite push_ok by lia. cbn [mbind res_bind].
  rewrite push_ok by (rewrite length_app; cbn; lia). done.
Qed.

(** [writeNumber] writes exactly [number_text]. *)
Lemma writeNumber_emit s number base size precision type :
  0 <= number < 2 ^ 64 → 2 <= base <= 36 → 0 <= size < 2 ^ 32 → 0 <= precision < 2 ^ 32 →
  is_byte type →
  writeNumber s number base size precision type =
    ('(sg, mag) ← sign_of_number number type;
     emit s (number_text sg mag base size precision type)).
Proof.
  intros Hn Hb Hs Hp Ht. unfold writeNumber.
  destruct (has_unzero type Ht) as (Hz & H1 & H2 & H3 & H4 & H5).
  destruct (Z.ltb_spec base 2); [lia|]. destruct (Z.ltb_spec 36 base); [lia|]. cbn [orb].
  set (type' := if has type LEFT then Z.land type (u8 (Z.lnot ZEROPAD)) else type).
  assert (sign_of_number number type' = sign_of_number number type) as ->.
  { unfold type'. destruct (has type LEFT); [|done]. unfold sign_of_number.
    by rewrite H1, H2, H3, H4. }
  assert (has type' SPECIAL = has type SPECIAL) as Hsp by
    (unfold type'; destruct (has type LEFT); done).
  rewrite Hsp.
  destruct (sign_of_number number type) as [[sg mag]|] eqn:Hsg; [|done].
  pose proof (sign_of_number_range _ _ _ _ Hn Hsg) as Hm. cbn [mbind res_bind].
  pose proof (tmp_body sg mag base type Hb Hm) as Htmp. cbv zeta in Htmp.
  set (digits := if has type LARGE then large_digits else small_digits) in *.
  assert (0 < Z.of_nat (length (number_body sg mag base type))) as Hi.
  { unfold number_body. rewrite !length_app.
    pose proof (numeral_nonempty 63 digits base mag). fold digits.
    destruct (numeral 64 digits base mag); [done|]. cbn [length]. lia. }
  assert (fill_tmp digits sg mag base type' = fill_tmp digits sg mag base type) as ->
    by (unfold fill_tmp; by rewrite Hsp).
  rewrite Htmp. cbn [mbind res_bind]. rewrite length_rev, rev_involutive.
  set (body := number_body sg mag base type) in *.
  set (size' := if has type LEFT then 0 else size).
  assert (0 <= size' < 2 ^ 32) as Hsz by (unfold size'; destruct (has type LEFT); lia).
  set (prec' := if has type SPECIAL then 0 else precision).
  assert (0 <= prec' < 2 ^ 32) as Hpr by (unfold prec'; destruct (has type SPECIAL); lia).
  assert ((if size' <? prec' then size' else prec') = Z.min prec' size') as ->
    by (destruct (Z.ltb_spec size' prec'); lia).
  rewrite pad_loop_emit by lia.
  unfold number_text. fold body size' prec'. rewrite !emit_app.
  replace (replicate _ (if has type' ZEROPAD then 48 else 32)) with
    (replicate (Z.to_nat (size' - Z.min prec' size' - Z.of_nat (length body)))
       (if has type ZEROPAD then 48 else 32)).
  - destruct (emit s _) as [s1|]; cbn [mbind res_bind]; [|done].
    rewrite prec_loop_emit by lia. by rewrite emit_app.
  - unfold type', size'. destruct (has type LEFT); [|done].
    by replace (Z.to_nat _) with 0%nat by lia.
Qed.

(** ** Decimal numerals and [atoi] *)

Lemma dig10 d : 0 <= d < 10 → dig small_digits d = 48 + d.
Proof.
  intros Hd. assert (d = 0 ∨ d = 1 ∨ d = 2 ∨ d = 3 ∨ d = 4 ∨ d = 5 ∨ d = 6 ∨ d = 7 ∨ d = 8 ∨ d = 9)
    by lia.
  repeat match goal with H : _ ∨ _ |- _ => destruct H as [->|H] | H : d = _ |- _ => subst d end; done.
Qed.

Lemma value_snoc acc ds c : value acc (ds ++ [c]) = value acc ds * 10 + (c - 48).
Proof. unfold value. by rewrite foldl_app. Qed.

Lemma numeral_value fuel n : 0 <= n < 2 ^ Z.of_nat fuel →
  Forall digit (numeral fuel small_digits 10 n) ∧
  value 0 (numeral fuel small_digits 10 n) = n.
Proof.
  revert n. induction fuel as [|fuel IH]; intros n Hn; cbn [numeral].
  - split; [done|]. cbn in *. lia.
  - destruct (Z.ltb_spec n 10).
    + rewrite dig10 by lia. split; [repeat constructor; unfold digit; lia|].
      rewrite value_cons. cbn. lia.
    + destruct (IH (n / 10)) as [Hd Hv].
      { replace (Z.of_nat (S fuel)) with (Z.of_nat fuel + 1) in Hn by lia.
        rewrite Z.pow_add_r in Hn by lia. Z.to_euclidean_division_equations. lia. }
      pose proof (Z.mod_pos_bound n 10 ltac:(lia)). rewrite dig10 by lia.
      split; [apply Forall_app; split; [done|repeat constructor; unfold digit; lia]|].
      rewrite value_snoc, Hv. Z.to_euclidean_division_equations. lia.
Qed.

Lemma numeral_bytes fuel digits base n : Forall is_byte digits → 0 <= n →
  2 <= base <= Z.of_nat (length digits) → Forall is_byte (numeral fuel digits base n).
Proof.
  intros Hd. revert n. induction fuel as [|fuel IH]; intros n Hn Hb; cbn [numeral]; [done|].
  assert (∀ k, is_byte (dig digits k)) as Hdig.
  { intros k. unfold dig. destruct (nth_in_or_default (Z.to_nat k) digits 0) as [Hi| ->];
      [|unfold is_byte; lia].
    rewrite Forall_forall in Hd. apply Hd. by apply list_elem_of_In. }
  destruct (n <? base); [by apply Forall_singleton|].
  apply Forall_app. split; [|by apply Forall_singleton]. apply IH; [|done]. apply Z.div_pos; lia.
Qed.

Lemma map_u8_bytes l : Forall is_byte l → map u8 l = l.
Proof. induction 1 as [|b l Hb Hl IH]; cbn; [done|]. by rewrite wrap_small, IH. Qed.

Lemma number_text_bytes sign mag base size precision type :
  is_byte sign → 0 <= mag → 2 <= base <= 36 →
  Forall is_byte (number_text sign mag base size precision type).
Proof.
  intros Hs Hm Hb. unfold number_text, number_body.
  set (digits := if has type LARGE then large_digits else small_digits).
  assert (Forall is_byte digits) as Hd.
  { unfold digits. destruct (has type LARGE); by apply Forall_is_byte. }
  assert (Z.of_nat (length digits) = 36) by apply digits_length.
  rewrite !Forall_app. split_and!.
  - apply Forall_replicate. unfold is_byte. destruct (has type ZEROPAD); lia.
  - apply Forall_replicate. unfold is_byte. lia.
  - destruct (has type SPECIAL); [|done]. destruct (base =? 8); [repeat constructor; unfold is_byte; lia|].
    destruct (base =? 16); [|done]. constructor; [unfold is_byte; lia|]. constructor; [|done].
    unfold digits. destruct (has type LARGE); vm_compute; split; done.
  - destruct (sign =? 0); [done|by apply Forall_singleton].
  - apply numeral_bytes; done || lia.
Qed.

Lemma sign_byte number type sg mag : sign_of_number number type = Val (sg, mag) → is_byte sg.
Proof.
  unfold sign_of_number, is_byte. repeat case_match; try (intros [= <- <-]; lia);
    intros H'; apply bind_Val in H' as (n & _ & [= <- <-]); lia.
Qed.

(** The sign and magnitude of a signed 32-bit integer passed to [%d]. *)
Lemma sign_of_int x : - 2 ^ 31 < x < 2 ^ 31 →
  sign_of_number (u64 x) SIGN = Val (if x <? 0 then 45 else 0, Z.abs x).
Proof.
  intros Hx. unfold sign_of_number. change (has SIGN SIGN) with true.
  change (has SIGN LONG) with false. change (has SIGN PLUS) with false.
  change (has SIGN SPACE) with false. cbn [andb negb].
  assert (s32 (u64 x) = x) as ->.
  { unfold signed. replace (wrap 32 (u64 x)) with (wrap 32 x).
    - apply signed_small; lia.
    - symmetry. apply Z.mod_mod_divide. by exists (2 ^ 32). }
  destruct (Z.ltb_spec x 0).
  - unfold schk, in_signed. destruct (Z.leb_spec (- 2 ^ (32 - 1)) (- x)); [|lia].
    destruct (Z.ltb_spec (- x) (2 ^ (32 - 1))); [|lia]. cbn [andb mbind res_bind].
    rewrite wrap_small by lia. do 2 f_equal. lia.
  - rewrite wrap_small by lia. do 2 f_equal. lia.
Qed.

(** Both outcomes of a number directive on a buffer that holds [out]. *)
Lemma writeNumber_ok bsize s out number base size precision type :
  str_holds bsize s out →
  0 <= number < 2 ^ 64 → 2 <= base <= 36 → 0 <= size < 2 ^ 32 → 0 <= precision < 2 ^ 32 →
  is_byte type →
  match sign_of_number number type with
  | Err e => writeNumber s number base size precision type = Err e
  | Val (sg, mag) =>
      let text := number_text sg mag base size precision type in
      if decide (Z.of_nat (length out + length text) <= bsize) then
        ∃ s', writeNumber s number base size precision type = Val s' ∧ str_holds bsize s' (out ++ text)
      else writeNumber s number base size precision type = Err EUndef
  end.
Proof.
  intros Hs Hn Hb Hsz Hp Ht. rewrite writeNumber_emit by done.
  destruct (sign_of_number number type) as [[sg mag]|] eqn:Hsg; [|done]. cbn [mbind res_bind].
  cbv zeta. case_decide.
  - destruct (emit_ok bsize s out (number_text sg mag base size precision type) Hs)
      as (s' & -> & Hs'); [done|].
    exists s'. split; [done|]. rewrite map_u8_bytes in Hs'; [done|].
    apply number_text_bytes; [by eapply sign_byte| |done].
    eapply sign_of_number_range; [|done]; lia.
  - apply (emit_full bsize s out); [done|lia].
Qed.

(** ** Properties *)

(** A printed number reads back.  [writeNumber] of a 32-bit integer other
    than the smallest one, in base 10 with a sign, followed by a NUL, is text
    from which [atoi] gives the integer again. *)
Theorem writeNumber_atoi x : - 2 ^ 31 < x < 2 ^ 31 →
  ∃ s, writeNumber (empty_str 256) (u64 x) 10 0 0 SIGN = Val s ∧
       atoi (take (Z.to_nat (length_ s)) (buffer s) ++ [0]) 0 = Val x.
Proof.
  intros Hx.
  pose proof (writeNumber_ok 256 (empty_str 256) [] (u64 x) 10 0 0 SIGN
    (str_holds_empty 256 ltac:(done)) (wrap_bounds 64 x ltac:(lia)) ltac:(lia) ltac:(lia)
    ltac:(lia) ltac:(unfold is_byte, SIGN; lia)) as H.
  rewrite sign_of_int in H by done. cbv zeta in H.
  set (text := number_text _ _ _ _ _ _) in H.
  set (ds := numeral 64 small_digits 10 (Z.abs x)).
  assert (text = sign_text (if x <? 0 then Minus else NoSign) ++ ds) as Htext.
  { unfold text, number_text, number_body. change (has SIGN LEFT) with false.
    change (has SIGN SPECIAL) with false. change (has SIGN LARGE) with false. cbv iota.
    rewrite Z.min_l by lia.
    replace (Z.to_nat (0 - 0 - _)) with 0%nat by lia. replace (Z.to_nat (0 - _)) with 0%nat by lia.
    by destruct (x <? 0). }
  destruct (numeral_value 64 (Z.abs x)) as [Hd Hv]; [lia|]. fold ds in Hd, Hv.
  pose proof (numeral_length 64 small_digits 10 (Z.abs x)) as Hl. fold ds in Hl.
  rewrite decide_True in H by (rewrite Htext, length_app; destruct (x <? 0); cbn [sign_text length]; lia).
  destruct H as (s & E & [_ _ Hlen Htx _]). exists s. split; [done|].
  cbn [app] in Hlen, Htx. rewrite Hlen, Nat2Z.id, Htx, Htext, <- app_assoc.
  unfold atoi. rewrite (parse_int_ok 32 _ 0 (if x <? 0 then Minus else NoSign) ds 0).
  - rewrite Hv. destruct (Z.ltb_spec (Z.abs x) (2 ^ (32 - 1))); [|lia].
    destruct (Z.ltb_spec x 0); case_decide; try done; f_equal; lia.
  - lia.
  - split; [lia|]. intros k b Hk. by rewrite Z.add_0_l, Nat2Z.id.
  - apply numeral_nonempty.
  - done.
  - unfold is_byte. lia.
  - unfold digit. lia.
Qed.

(** [writeNumber] appends its field (fill characters up to the size, then
    zeros up to the precision, then prefix, sign and digits) or, when the field
    does not fit what is left of the buffer, stores past the end of it: no
    check protects the buffer.  The fill characters come before the sign, also
    when they are zeros. *)
Theorem writeNumber_field bsize s out number base size precision type :
  str_holds bsize s out →
  0 <= number < 2 ^ 64 → 2 <= base <= 36 → 0 <= size < 2 ^ 32 → 0 <= precision < 2 ^ 32 →
  is_byte type →
  match sign_of_number number type with
  | Err e => writeNumber s number base size precision type = Err e
  | Val (sg, mag) =>
      let text := number_text sg mag base size precision type in
      if decide (Z.of_nat (length out + length text) <= bsize) then
        ∃ s', writeNumber s number base size precision type = Val s' ∧ str_holds bsize s' (out ++ text)
      else writeNumber s number base size precision type = Err EUndef
  end.
Proof. exact (writeNumber_ok bsize s out number base size precision type). Qed.

(** a format that ends in a lone [%] makes [printf] read past the NUL: it
    prints a [%] and goes on with whatever lies behind the format. *)
Theorem printf_percent_end fuel m f s args cc : 0 <= f → 0 < cc →
  at_mem m f [37; 0] →
  format_loop (S fuel) m f s args cc =
    (s ← putc s 37; format_loop fuel m (f + 2) s args cc).
Proof.
  intros Hf Hcc (_ & H0 & (Hp1 & H1 & _)%at_mem_cons)%at_mem_cons.
  pose proof (lookup_lt_Some _ _ _ H1) as Hl.
  cbn [format_loop]. rewrite (char_ok _ _ _ Hf H0). cbn [mbind res_bind Z.eqb Pos.eqb].
  rewrite s8_low by lia. cbn [Z.eqb Pos.eqb]. destruct (Z.eqb_spec cc 0); [lia|].
  unfold directive. cbn [prefix_loop]. rewrite (char_ok _ _ _ Hp1 H1). cbn [mbind res_bind].
  change (s8 0) with 0. cbn [Z.eqb orb negb].
  destruct (length m) as [|k] eqn:El; [lia|]. cbn [num_loop].
  rewrite (char_ok _ _ _ Hp1 H1). cbn [mbind res_bind].
  change (s8 0) with 0. cbn.
  rewrite (char_ok _ _ _ Hp1 H1). cbn.
  change (Z.of_nat 0 =? 0) with true. cbn. rewrite !(char_ok _ _ _ Hp1 H1). cbn.
  change (s8 0) with 0. cbn. rewrite (char_ok _ _ _ Hp1 H1). cbn [mbind res_bind].
  change (s8 0) with 0. cbn. destruct (putc s 37); [|done]. cbn.
  by replace (f + 1 + 1) with (f + 2) by lia.
Qed.

Lemma writeNumber_atoi_witness : ∃ s, writeNumber (empty_str 256) (u64 (-305)) 10 0 0 SIGN = Val s ∧
  take (Z.to_nat (length_ s)) (buffer s) = [45; 51; 48; 53] ∧
  atoi (take (Z.to_nat (length_ s)) (buffer s) ++ [0]) 0 = Val (-305).
Proof.
  destruct (writeNumber_atoi (-305)) as (s & E & Ha); [lia|].
  exists s. split; [exact E|]. split; [|exact Ha].
  assert (Val s = writeNumber (empty_str 256) (u64 (-305)) 10 0 0 SIGN) as E' by (symmetry; exact E).
  vm_compute in E'. injection E' as ->. vm_compute. reflexivity.
Defined.

Lemma writeNumber_field_witness :
  str_holds 8 (empty_str 8) [] ∧
  (∃ s', writeNumber (empty_str 8) 255 16 7 0 (Z.lor SPECIAL LARGE) = Val s' ∧
     str_holds 8 s' [32; 32; 32; 48; 88; 70; 70]) ∧
  writeNumber (empty_str 8) 255 16 9 0 SPECIAL = Err EUndef.
Proof.
  assert (str_holds 8 (empty_str 8) []) as Hs by (apply (str_holds_empty 8); lia).
  split; [exact Hs|]. split.
  - apply (writeNumber_field 8 (empty_str 8) [] 255 16 7 0 (Z.lor SPECIAL LARGE) Hs);
      [lia|lia|lia|lia|vm_compute; split; [discriminate|reflexivity]].
  - vm_compute. reflexivity.
Defined.

(** ["%"] in front of ["no"]. *)
Lemma printf_percent_end_witness :
  let m := [0; 37; 0; 110; 111; 0] in
  at_mem m 1 [37; 0] ∧
  format_loop 6 m 1 (empty_str 256) [] 256 =
    (s ← putc (empty_str 256) 37; format_loop 5 m 3 s [] 256) ∧
  printf (λ _ l, Z.of_nat (length l)) m 1 [] = Val ([37; 110; 111], 3).
Proof.
  assert (at_mem [0; 37; 0; 110; 111; 0] 1 [37; 0]) as H
    by (apply at_mem_compute; [lia|vm_compute; reflexivity]).
  split; [exact H|]. split; [|vm_compute; reflexivity].
  apply (printf_percent_end 5 _ 1); [lia|lia|exact H].
Defined.

End Printf.
