(* ===== verification/PrintfSpec.v ===== *)
(** * libc: what printf prints

    A specification of the format language of [printf] by its syntax (a list of
    literal characters and directives, with their printed form) and by the text
    each directive stands for in the code, and the theorems that relate it to
    [Printf]: the output for every format of the language, which has no floating
    point, whose text fits the 256-byte buffer, where the texts differ from the
    manual's, and how the code leaves its buffer. *)

From S2P Require Import Prelude LibcString Printf.
Import Libc Printf.

Module PrintfSpec.

(** ** Syntax *)

Inductive fl := FLeft | FPlus | FZero | FLong | FSize.

Definition fl_char (f : fl) : Z :=
  match f with FLeft => 45 | FPlus => 43 | FZero => 48 | FLong => 108 | FSize => 122 end.
Definition fl_bit (f : fl) : Z :=
  match f with FLeft => LEFT | FPlus => PLUS | FZero => ZEROPAD | FLong | FSize => LONG end.

Inductive conv :=
| CPercent | CString | CDecimal | COctal | CUnsigned | CHex | CPointer | CHexUpper | CChar.

Definition conv_char (c : conv) : Z :=
  match c with
  | CPercent => 37 | CString => 115 | CDecimal => 100 | COctal => 111 | CUnsigned => 117
  | CHex => 120 | CPointer => 112 | CHexUpper => 88 | CChar => 99
  end.

(** The base of a number conversion and the bits it adds to the flags. *)
Definition number_conv (c : conv) (flag : Z) : option (Z * Z) :=
  match c with
  | CDecimal => Some (10, Z.lor flag SIGN)
  | COctal => Some (8, Z.lor flag SPECIAL)
  | CUnsigned => Some (10, flag)
  | CHex | CPointer => Some (16, Z.lor flag SPECIAL)
  | CHexUpper => Some (16, Z.lor (Z.lor flag SPECIAL) LARGE)
  | _ => None
  end.

Inductive piece :=
| Lit (b : Z)
| Dir (fls : list fl) (width prec : option Z) (c : conv).

Definition width_text (w : option Z) : list Z :=
  match w with Some w => numeral 64 small_digits 10 w | None => [] end.

Definition prec_text (r : option Z) : list Z :=
  match r with Some _ => 46 :: width_text r | None => [] end.
Definition dir_text (fls : list fl) (w r : option Z) (c : conv) : list Z :=
  map fl_char fls ++ width_text w ++ prec_text r ++ [conv_char c].

Definition print_piece (p : piece) : list Z :=
  match p with
  | Lit b => [b]
  | Dir fls w r c => 37 :: dir_text fls w r c
  end.
Definition print (ps : list piece) : list Z := concat (map print_piece ps).

Definition wf_width (w : option Z) : Prop :=
  match w with Some w => 1 <= w <= 999 | None => True end.

Definition wf (p : piece) : Prop :=
  match p with
  | Lit b => 0 < b < 256 ∧ b ≠ 37
  | Dir _ w r _ => wf_width w ∧ wf_width r
  end.

(** ** Meaning *)

Definition flag_bits (flag : Z) (fls : list fl) : Z := foldl (λ a f, Z.lor a (fl_bit f)) flag fls.

Definition width_of (w : option Z) : Z := default 0 w.

(** A string in a field of at least [w] characters. *)
Definition pad_string (flag w : Z) (s : list Z) : list Z :=
  let fill := replicate (Z.to_nat (w - Z.of_nat (length s))) 32 in
  if has flag LEFT then s ++ fill else fill ++ s.

(** The text of a format: a precision changes nothing, a number in [number_text]
    has its fill characters before the sign and the prefix, and is not padded
    after [-]; [x], [p], [X] always have a prefix. *)
Inductive renders (m : mem) : list piece → list arg → list Z → Prop :=
| r_nil args : renders m [] args []
| r_lit b ps args t : renders m ps args t → renders m (Lit b :: ps) args (b :: t)
| r_percent fls w r ps args t : renders m ps args t →
    renders m (Dir fls w r CPercent :: ps) args (37 :: t)
| r_string fls w r ps args t p s : p ≠ 0 → cstr m p s → renders m ps args t →
    renders m (Dir fls w r CString :: ps) (AWord p :: args)
      (pad_string (flag_bits 0 fls) (width_of w) s ++ t)
| r_number fls w r c ps args t x base type sg mag :
    number_conv c (flag_bits 0 fls) = Some (base, type) → 0 <= x < 2 ^ 64 →
    sign_of_number x type = Val (sg, mag) → renders m ps args t →
    renders m (Dir fls w r c :: ps) (AWord x :: args)
      (number_text sg mag base (width_of w) 0 type ++ t)
| r_char fls w r ps args t x : renders m ps args t →
    renders m (Dir fls w r CChar :: ps) (AWord x :: args) (u8 x :: t).

(** ** Reading a directive *)

Lemma fl_char_eq f p m : 0 <= p → m !! Z.to_nat p = Some (fl_char f) → char m p = Val (fl_char f).
Proof. intros Hp Hm. rewrite (char_ok m p _ Hp Hm). by destruct f. Qed.

Lemma flag_bits_byte flag fls : is_byte flag → is_byte (flag_bits flag fls).
Proof.
  revert flag. induction fls as [|f fls IH]; intros flag Hf; [done|]. cbn. apply IH.
  apply lor_byte; [done|]. destruct f; unfold is_byte, fl_bit, LEFT, PLUS, ZEROPAD, LONG; lia.
Qed.

Lemma number_conv_ok c flag base type : is_byte flag → number_conv c flag = Some (base, type) →
  2 <= base <= 36 ∧ is_byte type.
Proof.
  intros Hf. destruct c; cbn; intros [= <- <-]; (split; [lia|]); try done;
    repeat apply lor_byte; try done; unfold is_byte, SIGN, SPECIAL, LARGE; lia.
Qed.

Lemma num_loop_ok fuel m p c ds e : at_mem m p (ds ++ [e]) → Forall digit ds → is_byte e →
  ¬ digit e → (c = 0 → head ds ≠ Some 48) → 0 <= c → (length ds <= fuel)%nat →
  num_loop fuel m p c = Val (ds, p + Z.of_nat (length ds)).
Proof.
  intros Hm Hd He Hne. revert fuel p c Hm.
  induction Hd as [|d ds Hd Hds IH]; intros fuel p c (Hp & Hlk & Hm)%at_mem_cons Hc H0 Hf.
  - assert ((if c =? 0 then 49 else 48) <=? s8 e = false ∨ s8 e <=? 57 = false) as Hs.
    { unfold digit, is_byte in *. unfold signed. rewrite wrap_small by lia.
      destruct (Z.ltb_spec e (2 ^ (8 - 1))).
      - destruct (decide (e < 48)); [left|right]; [|apply Z.leb_gt; lia].
        apply Z.leb_gt. destruct (c =? 0); lia.
      - left. apply Z.leb_gt. destruct (c =? 0); lia. }
    destruct fuel; cbn [num_loop]; rewrite (char_ok _ _ _ Hp Hlk); cbn [mbind res_bind];
      destruct Hs as [-> | ->]; rewrite ?andb_false_r; cbn; by rewrite Z.add_0_r.
  - destruct fuel as [|fuel]; [cbn in Hf; lia|]. cbn [num_loop].
    unfold digit in Hd. rewrite (char_ok _ _ _ Hp Hlk), s8_low by lia. cbn [mbind res_bind].
    assert ((if c =? 0 then 49 else 48) <=? d = true) as ->.
    { apply Z.leb_le. destruct (Z.eqb_spec c 0); [|lia].
      assert (d ≠ 48) by (intros ->; by apply Hc). lia. }
    destruct (Z.leb_spec d 57); [|lia]. cbn [andb].
    rewrite IH by (done || lia || (cbn in Hf; lia)). cbn [mbind res_bind length].
    do 2 f_equal. lia.
Qed.

(** The printed form of a width, checked for every width. *)
Definition width_ok (w : Z) : bool :=
  let ds := numeral 64 small_digits 10 w in
  forallb (λ d, (48 <=? d) && (d <=? 57)) ds && (Z.of_nat (length ds) <=? 3) &&
  negb (Z.of_nat (length ds) =? 0) && bool_decide (head ds ≠ Some 48) &&
  bool_decide (num_value ds = Val w).

Lemma width_all w : 1 <= w <= 999 → width_ok w = true.
Proof.
  intros Hw. assert (forallb width_ok (seqZ 1 999) = true) as H by (vm_compute; reflexivity).
  rewrite forallb_forall in H. apply H, list_elem_of_In, elem_of_seqZ. lia.
Qed.

Lemma width_facts w : 1 <= w <= 999 → let ds := numeral 64 small_digits 10 w in
  Forall digit ds ∧ ds ≠ [] ∧ head ds ≠ Some 48 ∧ num_value ds = Val w.
Proof.
  intros Hw%width_all. unfold width_ok in Hw. cbv zeta in *.
  apply andb_true_iff in Hw as [Hw Hv%bool_decide_eq_true].
  apply andb_true_iff in Hw as [Hw Hh%bool_decide_eq_true].
  apply andb_true_iff in Hw as [Hw Hn]. apply andb_true_iff in Hw as [Hw _].
  split_and!; [|by destruct (numeral _ _ _ _)|done|done].
  apply Forall_forall. intros d Hd%list_elem_of_In. rewrite forallb_forall in Hw.
  apply Hw in Hd. bool_to_prop. unfold digit. lia.
Qed.

(** A character that ends flags and width. *)
Definition stops (e : Z) : Prop :=
  is_byte e ∧ ¬ digit e ∧ s8 e = e ∧ e ≠ 45 ∧ e ≠ 43 ∧ e ≠ 48 ∧ e ≠ 122 ∧ e ≠ 108.

Lemma conv_stops c : stops (conv_char c) ∧ conv_char c ≠ 46.
Proof. unfold stops, is_byte, digit. destruct c; cbn; split_and!; try done; lia. Qed.

Lemma dot_stops : stops 46.
Proof. unfold stops, is_byte, digit. split_and!; try done; lia. Qed.

(** One turn of the prefix loop at such a character. *)
Lemma prefix_turn fuel m p flag width cc e : 0 <= p → m !! Z.to_nat p = Some e → stops e →
  prefix_loop (S fuel) m p flag width cc =
    if negb (width =? 0) then Val (p, flag, width)
    else
      '(ds, format) ← num_loop (length m) m p 0;
      if negb (Z.of_nat (length ds) =? 0) then
        width ← num_value ds;
        let width := if cc <? width then cc else width in
        prefix_loop fuel m format flag width cc
      else Val (format, flag, width).
Proof.
  intros Hp Hlk (_ & _ & Hs & ? & ? & ? & ? & ?). cbn [prefix_loop].
  rewrite (char_ok _ _ _ Hp Hlk), Hs. cbn [mbind res_bind].
  repeat (rewrite (proj2 (Z.eqb_neq e _)) by done). done.
Qed.

(** The digits of a number in a format. *)
Lemma num_loop_width m p w e : at_mem m p (width_text (Some w) ++ [e]) → 1 <= w <= 999 → stops e →
  let ds := width_text (Some w) in
  num_loop (length m) m p 0 = Val (ds, p + Z.of_nat (length ds)) ∧ Z.of_nat (length ds) =? 0 = false ∧ num_value ds = Val w.
Proof.
  intros Hm Hw (Hb & Hd & _). pose proof (at_mem_length _ _ _ Hm) as Hlen. rewrite length_app in Hlen. cbn [length] in Hlen.
  destruct (width_facts w Hw) as (Hds & Hne & Hh & Hv). cbn [width_text] in *. set (ds := numeral 64 small_digits 10 w) in *.
  cbv zeta. split_and!; [|by destruct ds|done].
  pose proof (proj1 Hm). apply (num_loop_ok (length m) m p 0 ds e Hm Hds Hb Hd (λ _, Hh)); lia.
Qed.

Lemma prefix_width fuel m p flag cc w e : at_mem m p (width_text w ++ [e]) → stops e →
  wf_width w → 0 < cc →
  prefix_loop (S (S fuel)) m p flag 0 cc =
    Val (p + Z.of_nat (length (width_text w)), flag, Z.min (width_of w) cc).
Proof.
  intros Hm He Hw Hcc. pose proof (at_mem_length _ _ _ Hm) as Hlen. rewrite length_app in Hlen. cbn [length] in Hlen.
  destruct w as [w|]; cbn [width_of default wf_width] in *.
  - destruct (num_loop_width m p w e Hm Hw He) as (Hnum & Hz & Hv).
    destruct (width_facts w Hw) as (Hd & Hne & Hh & _).
    pose proof (at_mem_app m p _ [e] Hm) as [_ (Hp' & Hlk' & _)%at_mem_cons].
    change (numeral 64 small_digits 10 w) with (width_text (Some w)) in *. set (ds := width_text (Some w)) in *.
    assert (∃ d ds', ds = d :: ds') as (d & ds' & Eds) by (destruct ds as [|d ds']; [done|by exists d, ds']).
    assert (char m p = Val d ∧ 49 <= d <= 57) as [Hch Hdr].
    { rewrite Eds in Hm. apply at_mem_cons in Hm as (Hp & Hlk & _). rewrite Eds in Hd, Hh.
      apply Forall_cons in Hd as [Hd _]. unfold digit in Hd.
      assert (d ≠ 48) by (intros ->; by apply Hh).
      rewrite (char_ok _ _ _ Hp Hlk), s8_low by lia. split; [done|lia]. }
    remember (S fuel) as fuel1 eqn:Ef. cbn [prefix_loop]. rewrite Hch. cbn [mbind res_bind].
    destruct (Z.eqb_spec d 45); [lia|]. destruct (Z.eqb_spec d 43); [lia|].
    destruct (Z.eqb_spec d 48); [lia|]. destruct (Z.eqb_spec d 122); [lia|].
    destruct (Z.eqb_spec d 108); [lia|]. cbn [orb]. rewrite Z.eqb_refl. cbn [negb].
    rewrite Hnum. cbn [mbind res_bind]. rewrite Hz. cbn [negb]. rewrite Hv. cbn [mbind res_bind]. subst fuel1.
    replace (if cc <? w then cc else w) with (Z.min w cc) by (destruct (Z.ltb_spec cc w); lia).
    rewrite (prefix_turn _ _ _ _ _ _ e) by done. by rewrite (proj2 (Z.eqb_neq _ 0)) by lia.
  - cbn [width_text] in *. pose proof He as (Hb & Hnd & _).
    pose proof (num_loop_ok (length m) m p 0 [] e Hm) as Hnum. pose proof (proj1 Hm).
    apply at_mem_cons in Hm as (Hp & Hlk & _). rewrite (prefix_turn _ _ _ _ _ _ e) by done.
    rewrite Hnum by (done || lia || (cbn; lia)). rewrite Z.min_l by lia. done.
Qed.

Lemma prefix_loop_ok fuel m p flag cc fls w e :
  at_mem m p (map fl_char fls ++ width_text w ++ [e]) → stops e → wf_width w → 0 < cc →
  (length fls + 2 <= fuel)%nat →
  prefix_loop fuel m p flag 0 cc =
    Val (p + Z.of_nat (length fls) + Z.of_nat (length (width_text w)), flag_bits flag fls,
         Z.min (width_of w) cc).
Proof.
  revert fuel p flag. induction fls as [|f fls IH]; intros fuel p flag Hm He Hw Hcc Hf.
  - destruct fuel as [|[|fuel]]; [cbn in Hf; lia..|]. rewrite Z.add_0_r.
    by apply (prefix_width fuel m p flag cc w e).
  - destruct fuel as [|fuel]; [lia|]. apply at_mem_cons in Hm as (Hp & Hlk & Hm).
    cbn [prefix_loop]. rewrite (fl_char_eq f) by done. cbn [mbind res_bind].
    replace (p + Z.of_nat (length (f :: fls))) with (p + 1 + Z.of_nat (length fls))
      by (cbn [length]; lia).
    change (flag_bits flag (f :: fls)) with (flag_bits (Z.lor flag (fl_bit f)) fls).
    rewrite <- (IH fuel); [|done|done|done|done|cbn in Hf; lia]. by destruct f.
Qed.

(** ** The directives *)

Lemma str_loop_ok fuel m s out p text cc : str_holds 256 s out → cstr m p text →
  Z.of_nat (length out + length text) <= 256 → Z.of_nat (length text) <= cc →
  (length text <= fuel)%nat →
  ∃ s', str_loop fuel m s p cc = Val (s', cc - Z.of_nat (length text)) ∧
        str_holds 256 s' (out ++ text).
Proof.
  intros Hs Ht. revert fuel s out p cc Hs Ht.
  induction text as [|b text IH]; intros fuel s out p cc Hs Ht Ho Hcc Hf.
  - apply cstr_nil in Ht as [Hp Hlk]. exists s. rewrite app_nil_r, Z.sub_0_r. split; [|done].
    destruct fuel; cbn [str_loop]; by rewrite (char_ok _ _ _ Hp Hlk).
  - apply cstr_cons in Ht as (Hp & Hb & Hlk & Ht). destruct fuel as [|fuel]; [cbn in Hf; lia|].
    cbn [length] in *. cbn [str_loop]. rewrite (char_ok _ _ _ Hp Hlk). cbn [mbind res_bind].
    rewrite s8_nz by done. cbn [negb]. destruct (Z.eqb_spec cc 0); [lia|].
    destruct (putc_ok 256 s out (s8 b) Hs) as (s1 & -> & Hs1); [lia|]. cbn [mbind res_bind].
    destruct (IH fuel s1 (out ++ [u8 (s8 b)]) (p + 1) (cc - 1) Hs1 Ht) as (s2 & -> & Hs2);
      [rewrite length_app; cbn; lia|lia|lia|].
    exists s2. split; [do 2 f_equal; lia|].
    rewrite u8_s8, <- app_assoc in Hs2 by (unfold is_byte; lia). exact Hs2.
Qed.

Lemma fill_ok s out n : str_holds 256 s out → Z.of_nat (length out + n) <= 256 →
  ∃ s', writeFillChars s n 32 = Val s' ∧ str_holds 256 s' (out ++ replicate n 32).
Proof.
  intros Hs Hn. rewrite writeFillChars_emit.
  destruct (emit_ok 256 s out (replicate n 32) Hs) as (s' & -> & Hs');
    [rewrite length_replicate; lia|].
  exists s'. split; [done|]. rewrite map_u8_bytes in Hs'; [done|].
  apply Forall_replicate. unfold is_byte. lia.
Qed.

Lemma pad_string_length flag w text :
  Z.of_nat (length (pad_string flag w text)) = Z.max w (Z.of_nat (length text)).
Proof.
  unfold pad_string. destruct (has flag LEFT); rewrite length_app, length_replicate; lia.
Qed.

Lemma case_s_ok m s out p flag w text cc : p ≠ 0 → str_holds 256 s out → cstr m p text →
  let t := pad_string flag w text in
  Z.of_nat (length out + length t) <= 256 → Z.of_nat (length t) <= cc →
  ∃ s', case_s m s p flag w cc = Val (s', cc - Z.of_nat (length t)) ∧ str_holds 256 s' (out ++ t).
Proof.
  intros Hp Hs Ht t Ho Hcc. pose proof (cstr_length _ _ _ Ht) as Hlen.
  assert (Z.of_nat (length t) = Z.max w (Z.of_nat (length text))) as Htl
    by apply pad_string_length.
  pose proof (proj1 (proj1 Ht)) as Hp0.
  unfold case_s. destruct (Z.eqb_spec p 0); [done|]. cbn [negb defined mbind res_bind].
  unfold strlen. rewrite (strlen_loop_cstr _ m p text 0) by (rewrite ?Z.add_0_r; done || lia).
  cbn [mbind res_bind]. rewrite Z.add_0_l, signed_small by lia.
  set (len := Z.of_nat (length text)) in *. set (k := Z.to_nat (w - len)).
  unfold t, pad_string in *. fold len k in Ho, Hcc, Htl |- *.
  destruct (has flag LEFT); cbn [negb andb];
    (destruct (Z.ltb_spec len w); [|assert (k = 0%nat) as Hk by lia; rewrite Hk in *]);
    cbn [andb mbind res_bind].
  - destruct (str_loop_ok (length m) m s out p text cc) as (s1 & -> & Hs1); try done; try lia.
    cbn [mbind res_bind andb]. fold len. destruct (Z.ltb_spec (cc - len - (w - len)) 0); [lia|].
    destruct (fill_ok s1 (out ++ text) k Hs1) as (s2 & -> & Hs2); [rewrite length_app; lia|].
    exists s2. cbn. split; [do 2 f_equal; lia|]. by rewrite <- app_assoc in Hs2.
  - destruct (str_loop_ok (length m) m s out p text cc) as (s1 & -> & Hs1); try done; try lia.
    cbn [mbind res_bind replicate]. fold len. exists s1. rewrite app_nil_r.
    split; [do 2 f_equal; cbn in Htl; rewrite app_nil_r in Htl; lia|done].
  - destruct (Z.ltb_spec (cc - (w - len)) 0); [lia|].
    destruct (fill_ok s out k Hs) as (s1 & -> & Hs1); [lia|]. cbn [mbind res_bind].
    destruct (str_loop_ok (length m) m s1 (out ++ replicate k 32) p text (cc - (w - len)))
      as (s2 & -> & Hs2); try done; try lia; [rewrite length_app, length_replicate; lia|].
    exists s2. cbn. split; [do 2 f_equal; lia|]. by rewrite <- app_assoc in Hs2.
  - destruct (str_loop_ok (length m) m s out p text cc) as (s1 & -> & Hs1); try done; try lia.
    cbn [mbind res_bind replicate app]. fold len. exists s1.
    split; [do 2 f_equal; cbn in Htl; lia|done].
Qed.

(** What one directive does, whatever its conversion: [t] is its text. *)
Definition dir_post (m : mem) (f : Z) (s : c_string) (args args' : list arg) (cc : Z)
    (out t : list Z) (f' : Z) : Prop :=
  ∃ s' cc', directive m f s args cc = Val (f', s', args', cc') ∧ str_holds 256 s' (out ++ t) ∧
    cc - Z.of_nat (length t) <= cc'.

Definition dir_len (fls : list fl) (w r : option Z) : Z :=
  Z.of_nat (length fls) + Z.of_nat (length (width_text w)) + Z.of_nat (length (prec_text r)).

Lemma directive_prefix m p fls w r c s args cc :
  at_mem m p (dir_text fls w r c) → wf_width w → wf_width r → 0 < cc →
  directive m p s args cc =
    ('(s, args, character_count) ← conversion m (conv_char c) s args (flag_bits 0 fls)
        (Z.min (width_of w) cc) (default 14 r) cc;
     Val (p + dir_len fls w r, s, args, character_count)).
Proof.
  intros Hm Hw Hr Hcc. destruct (conv_stops c) as [Hc Hdot]. unfold dir_text in Hm. unfold dir_len.
  set (e := match r with Some _ => 46 | None => conv_char c end).
  assert (He : stops e) by (unfold e; destruct r; [apply dot_stops|done]).
  assert (∃ tl, prec_text r ++ [conv_char c] = [e] ++ tl) as [tl Etl] by (unfold e; destruct r; by eexists).
  pose proof Hm as Hm1. rewrite Etl, !app_assoc, <- (app_assoc (map _ _)) in Hm1. apply at_mem_app in Hm1 as [Hm1 _].
  pose proof (at_mem_length _ _ _ Hm1) as Hl. rewrite !length_app, length_map in Hl. cbn [length] in Hl. pose proof (proj1 Hm1) as Hp0.
  unfold directive. rewrite (prefix_loop_ok _ m p 0 cc fls w e) by (done || lia). cbn [mbind res_bind].
  apply at_mem_app in Hm as [_ Hm]. apply at_mem_app in Hm as [_ Hm]. rewrite length_map in Hm.
  set (q := p + Z.of_nat (length fls) + Z.of_nat (length (width_text w))) in *. rewrite !Z.add_assoc. fold q.
  unfold e in *. clear e Etl Hm1 He Hl Hp0. destruct r as [r|]; cbn [prec_text wf_width default] in *.
  - rewrite <- app_comm_cons in Hm. apply at_mem_cons in Hm as (Hq & Hlk & Hm). rewrite (char_ok _ _ _ Hq Hlk).
    change (s8 46) with 46. cbn [mbind res_bind]. change (46 =? 46) with true. cbv iota.
    destruct (num_loop_width m (q + 1) r (conv_char c) Hm Hr Hc) as (-> & Hz & Hv). cbn [mbind res_bind].
    rewrite Hz. cbn [negb]. rewrite Hv. cbn [mbind res_bind].
    apply at_mem_app in Hm as [_ (Hq' & Hlk' & _)%at_mem_cons]. rewrite (char_ok _ _ _ Hq' Hlk'), (proj1 (proj2 (proj2 Hc))).
    cbn [mbind res_bind]. cbn [length]. by replace (q + Z.of_nat (S (length (width_text (Some r))))) with (q + 1 + Z.of_nat (length (width_text (Some r)))) by lia.
  - cbn [app] in Hm. apply at_mem_cons in Hm as (Hq & Hlk & _). rewrite (char_ok _ _ _ Hq Hlk), (proj1 (proj2 (proj2 Hc))).
    cbn [mbind res_bind]. rewrite (proj2 (Z.eqb_neq _ _)) by done. cbn [mbind res_bind].
    rewrite (char_ok _ _ _ Hq Hlk), (proj1 (proj2 (proj2 Hc))). cbn [mbind res_bind]. by rewrite Z.add_0_r.
Qed.

Lemma number_left_width w cc sg mag base type : has type LEFT = true →
  number_text sg mag base w 0 type = number_text sg mag base (Z.min w cc) 0 type.
Proof. intros Hl. unfold number_text. by rewrite Hl. Qed.

Lemma number_text_width sg mag base w type : has type LEFT = false → 0 <= w →
  w <= Z.of_nat (length (number_text sg mag base w 0 type)).
Proof.
  intros Hl Hw. unfold number_text. rewrite Hl, !length_app, !length_replicate.
  destruct (has type SPECIAL); lia.
Qed.

(** A clipped width prints the same field. *)
Lemma number_text_clip sg mag base w type cc : 0 <= w →
  Z.of_nat (length (number_text sg mag base w 0 type)) <= cc →
  number_text sg mag base (Z.min w cc) 0 type = number_text sg mag base w 0 type.
Proof.
  intros Hw Hcc. destruct (has type LEFT) eqn:Hl.
  - symmetry. by apply number_left_width.
  - pose proof (number_text_width sg mag base w type Hl Hw). by rewrite Z.min_l by lia.
Qed.

Lemma wf_width_range w : wf_width w → 0 <= width_of w <= 999.
Proof. destruct w; cbn; lia. Qed.

(** The conversion switch on each conversion. *)
Lemma conversion_number m c s args x flag w r cc base type : number_conv c flag = Some (base, type) →
  conversion m (conv_char c) s (AWord x :: args) flag w r cc =
    (s ← writeNumber s x base (u32 w) 0 type; Val (s, args, cc)).
Proof. destruct c; cbn [number_conv]; intros [= <- <-]; done. Qed.

Lemma dir_number m f fls w r c s args x out cc base type sg mag t :
  at_mem m f (dir_text fls w r c) → wf_width w → wf_width r → 0 < cc →
  number_conv c (flag_bits 0 fls) = Some (base, type) → 0 <= x < 2 ^ 64 →
  sign_of_number x type = Val (sg, mag) → str_holds 256 s out →
  t = number_text sg mag base (width_of w) 0 type →
  Z.of_nat (length out + length t) <= 256 → Z.of_nat (length t) <= cc →
  dir_post m f s (AWord x :: args) args cc out t
    (f + dir_len fls w r).
Proof.
  intros Hm Hw Hwp Hcc Hc Hx Hsg Hs -> Ho Hlt.
  destruct (number_conv_ok c _ _ _ (flag_bits_byte 0 fls ltac:(unfold is_byte; lia)) Hc)
    as [Hbase Htype].
  pose proof (wf_width_range w Hw) as Hwr.
  pose proof (writeNumber_ok 256 s out x base (Z.min (width_of w) cc) 0 type Hs Hx Hbase
                ltac:(lia) ltac:(lia) Htype) as Hwn.
  rewrite Hsg in Hwn. cbv zeta in Hwn. rewrite number_text_clip in Hwn by lia.
  rewrite decide_True in Hwn by done. destruct Hwn as (s' & E & Hs').
  exists s', cc. rewrite (directive_prefix m f fls w r c) by done.
  rewrite (conversion_number _ _ _ _ _ _ _ _ _ base type) by done.
  rewrite (wrap_small 32) by lia. rewrite E. cbn [mbind res_bind]. split; [done|]. split; [done|]. lia.
Qed.

Lemma dir_string m f fls w r s args p text out cc :
  at_mem m f (dir_text fls w r CString) → wf_width w → wf_width r → 0 < cc →
  p ≠ 0 → cstr m p text → str_holds 256 s out →
  let t := pad_string (flag_bits 0 fls) (width_of w) text in
  Z.of_nat (length out + length t) <= 256 → Z.of_nat (length t) <= cc →
  dir_post m f s (AWord p :: args) args cc out t
    (f + dir_len fls w r).
Proof.
  intros Hm Hw Hwp Hcc Hp Ht Hs t Ho Hlt.
  pose proof (pad_string_length (flag_bits 0 fls) (width_of w) text) as Hl. fold t in Hl.
  destruct (case_s_ok m s out p (flag_bits 0 fls) (width_of w) text cc Hp Hs Ht Ho Hlt)
    as (s' & E & Hs').
  exists s', (cc - Z.of_nat (length t)). rewrite (directive_prefix m f fls w r CString) by done.
  rewrite Z.min_l by lia. cbn. rewrite E. cbn. split; [done|]. split; [done|]. lia.
Qed.

Lemma dir_char m f fls w r c s args args' b out cc k :
  at_mem m f (dir_text fls w r c) → wf_width w → wf_width r → 0 < cc →
  str_holds 256 s out → Z.of_nat (length out) < 256 → 0 <= k <= 1 →
  (∀ flag w p, conversion m (conv_char c) s args flag w p cc =
     (s ← putc s b; Val (s, args', cc - k))) →
  dir_post m f s args args' cc out [u8 b]
    (f + dir_len fls w r).
Proof.
  intros Hm Hw Hwp Hcc Hs Ho Hk Hc. destruct (putc_ok 256 s out b Hs Ho) as (s' & E & Hs').
  exists s', (cc - k). rewrite (directive_prefix m f fls w r c) by done.
  rewrite Hc, E. cbn. split; [done|]. split; [done|]. lia.
Qed.

(** ** The format loop *)

Lemma print_cons p ps : print (p :: ps) = print_piece p ++ print ps.
Proof. done. Qed.

(** The start of a directive in a format string, and what follows it. *)
Lemma cstr_dir m f fls w r c rest :
  cstr m f (print_piece (Dir fls w r c) ++ rest) →
  0 <= f ∧ char m f = Val 37 ∧ at_mem m (f + 1) (dir_text fls w r c) ∧
  cstr m (f + 1 + dir_len fls w r + 1) rest.
Proof.
  cbn [print_piece]. rewrite <- app_comm_cons. intros (Hp & _ & Hlk & Hs)%cstr_cons.
  split; [done|]. split; [by rewrite (char_ok _ _ _ Hp Hlk)|].
  destruct Hs as [Hs Hb]. rewrite <- app_assoc in Hs.
  pose proof (at_mem_app _ _ _ _ Hs) as [H1 H2]. split; [exact H1|].
  apply Forall_app in Hb as [_ Hb]. split; [|done].
  unfold dir_text in H2. rewrite !length_app, length_map in H2. cbn [length] in H2.
  unfold dir_len. match type of H2 with at_mem _ ?x _ => match goal with |- at_mem _ ?y _ => replace y with x by lia end end.
  exact H2.
Qed.

Lemma format_step_dir fuel m f s args args' cc out t f' : char m f = Val 37 → 0 < cc →
  dir_post m (f + 1) s args args' cc out t f' →
  ∃ s' cc', format_loop (S fuel) m f s args cc = format_loop fuel m (f' + 1) s' args' cc' ∧
    str_holds 256 s' (out ++ t) ∧ cc - Z.of_nat (length t) <= cc'.
Proof.
  intros Hch Hcc (s' & cc' & E & Hs' & Hcc'). exists s', cc'. split; [|done].
  cbn [format_loop]. rewrite Hch. cbn [mbind res_bind]. cbn [Z.eqb Pos.eqb].
  destruct (Z.eqb_spec cc 0); [lia|]. by rewrite E.
Qed.

(** One piece of a format takes the loop from one state to the next. *)
Lemma format_piece fuel m f fls w r c rest s args args' cc out t :
  cstr m f (print_piece (Dir fls w r c) ++ rest) → 0 < cc →
  dir_post m (f + 1) s args args' cc out t
    (f + 1 + dir_len fls w r) →
  ∃ f' s' cc', format_loop (S fuel) m f s args cc = format_loop fuel m f' s' args' cc' ∧
    cstr m f' rest ∧ str_holds 256 s' (out ++ t) ∧ cc - Z.of_nat (length t) <= cc'.
Proof.
  intros Hc Hcc Hd. apply cstr_dir in Hc as (_ & Hch & _ & Hrest).
  destruct (format_step_dir fuel m f s args args' cc out t _ Hch Hcc Hd) as (s' & cc' & E & ? & ?).
  eexists _, s', cc'. split; [exact E|]. by split_and!.
Qed.

Lemma format_lit fuel m f b rest s args cc out :
  cstr m f (b :: rest) → b ≠ 37 → 0 < cc → str_holds 256 s out → Z.of_nat (length out) < 256 →
  ∃ f' s' cc', format_loop (S fuel) m f s args cc = format_loop fuel m f' s' args cc' ∧
    cstr m f' rest ∧ str_holds 256 s' (out ++ [b]) ∧ cc - 1 <= cc'.
Proof.
  intros (Hp & Hb & Hlk & Hrest)%cstr_cons Hne Hcc Hs Ho.
  destruct (putc_ok 256 s out (s8 b) Hs Ho) as (s' & E & Hs').
  assert (u8 (s8 b) = b) as Hu by (apply u8_s8; unfold is_byte; lia). rewrite Hu in Hs'.
  exists (f + 1), s', (cc - 1). split; [|by split_and!].
  cbn [format_loop]. rewrite (char_ok _ _ _ Hp Hlk). cbn [mbind res_bind].
  rewrite s8_nz by done. destruct (Z.eqb_spec cc 0); [lia|].
  destruct (Z.eqb_spec (s8 b) 37) as [E37|_]; [|by rewrite E].
  exfalso. apply Hne, s8_inj; [unfold is_byte; lia|unfold is_byte; lia|by rewrite E37].
Qed.

Lemma format_end fuel m f rest s args cc out : cstr m f rest → rest = [] ∨ cc = 0 →
  str_holds 256 s out →
  format_loop fuel m f s args cc = Val s.
Proof.
  intros Hc Hor Hs. destruct (cstr_head m f rest Hc) as (b & Hlk & Hp & Hb & Hcase).
  assert (format_loop fuel m f s args cc =
    if s8 b =? 0 then Val s else if cc =? 0 then Val s else format_loop fuel m f s args cc) as ->.
  { destruct fuel; cbn [format_loop]; rewrite (char_ok _ _ _ Hp Hlk); cbn [mbind res_bind];
      by destruct (s8 b =? 0), (cc =? 0). }
  destruct Hor as [->| ->]; [|by destruct (s8 b =? 0)].
  destruct Hcase as [[_ ->]|(s' & ? & _)]; [done|congruence].
Qed.

(** What the loop does from a state with output [out] on the pieces [ps]. *)
Definition loop_prints (m : mem) (ps : list piece) (args : list arg) (t : list Z) : Prop :=
  ∀ fuel f s out cc, Forall wf ps → cstr m f (print ps) → str_holds 256 s out →
    Z.of_nat (length out + length t) <= 256 → 256 - Z.of_nat (length out) <= cc →
    (length (print ps) <= fuel)%nat →
    ∃ s', format_loop fuel m f s args cc = Val s' ∧ str_holds 256 s' (out ++ t).

(** One piece with text [t], and then the rest. *)
Lemma loop_cons m p ps args args' t t' : loop_prints m ps args' t' →
  (∀ fuel f s out cc, wf p → cstr m f (print_piece p ++ print ps) → str_holds 256 s out →
     0 < cc → Z.of_nat (length out + length t) <= 256 → Z.of_nat (length t) <= cc →
     ∃ f' s' cc', format_loop (S fuel) m f s args cc = format_loop fuel m f' s' args' cc' ∧
       cstr m f' (print ps) ∧ str_holds 256 s' (out ++ t) ∧ cc - Z.of_nat (length t) <= cc') →
  loop_prints m (p :: ps) args (t ++ t').
Proof.
  intros IH Hstep fuel f s out cc Hwf Hf Hs Ho Hcc Hfuel.
  apply Forall_cons in Hwf as [Hwp Hwf]. rewrite print_cons in Hf, Hfuel.
  rewrite length_app in Hfuel, Ho.
  destruct (decide (cc = 0)) as [->|].
  { exists s. assert (t = [] ∧ t' = []) as [-> ->] by (split; apply nil_length_inv; lia).
    rewrite !app_nil_r. split; [|done]. by eapply format_end; [|right|]. }
  assert (1 <= length (print_piece p))%nat by (destruct p; cbn; lia).
  destruct fuel as [|fuel]; [lia|].
  destruct (Hstep fuel f s out cc) as (f' & s' & cc' & -> & Hf' & Hs' & Hcc');
    [done|done|done|lia|lia|lia|].
  rewrite app_assoc. apply (IH fuel f' s' (out ++ t) cc'); try done; rewrite ?length_app; lia.
Qed.

(** A directive, given what [directive] does with it. *)
Lemma loop_dir m fls w r c ps args args' t t' : loop_prints m ps args' t' →
  (∀ f s out cc, at_mem m f (dir_text fls w r c) → wf_width w → wf_width r →
     0 < cc → str_holds 256 s out → Z.of_nat (length out + length t) <= 256 →
     Z.of_nat (length t) <= cc →
     dir_post m f s args args' cc out t
       (f + dir_len fls w r)) →
  loop_prints m (Dir fls w r c :: ps) args (t ++ t').
Proof.
  intros IH Hd. apply (loop_cons m _ ps args args'); [done|].
  intros fuel f s out cc [Hww Hwp] Hf Hs Hcc Ho Hlt.
  apply (format_piece fuel m f fls w r c); [done|done|].
  apply cstr_dir in Hf as (_ & _ & Hm & _). by apply Hd.
Qed.

Lemma format_loop_renders m ps args t : renders m ps args t → loop_prints m ps args t.
Proof.
  induction 1 as [args|b ps args t Hr IH|fls w r ps args t Hr IH
    |fls w r ps args t p text Hp Ht Hr IH|fls w r c ps args t x base type sg mag Hc Hx Hsg Hr IH
    |fls w r ps args t x Hr IH].
  - intros fuel f s out cc _ Hf Hs _ _ _. exists s. rewrite app_nil_r. split; [|done].
    by eapply format_end; [|left|].
  - apply (loop_cons m (Lit b) ps args args [b] t IH).
    intros fuel f s out cc [Hb Hne] Hf Hs Hcc Ho _. cbn [length] in Ho.
    apply (format_lit fuel m f b (print ps)); done || lia.
  - apply (loop_dir m fls w r CPercent ps args args [37] t IH).
    intros f s out cc Hm Hw Hwp Hcc Hs Ho _. cbn [length] in Ho.
    apply (dir_char m f fls w r CPercent s args args 37 out cc 1); done || lia.
  - apply (loop_dir m fls w r CString ps (AWord p :: args) args _ t IH).
    intros f s out cc Hm Hw Hwp Hcc Hs Ho Hlt. by apply dir_string.
  - apply (loop_dir m fls w r c ps (AWord x :: args) args _ t IH).
    intros f s out cc Hm Hw Hwp Hcc Hs Ho Hlt.
    by apply (dir_number m f fls w r c s args x out cc base type sg mag).
  - apply (loop_dir m fls w r CChar ps (AWord x :: args) args [u8 x] t IH).
    intros f s out cc Hm Hw Hwp Hcc Hs Ho _. cbn [length] in Ho.
    apply (dir_char m f fls w r CChar s (AWord x :: args) args x out cc 0); try done; try lia.
    intros. cbn. by rewrite Z.sub_0_r.
Qed.

Lemma printf_format write m f ps args t : f ≠ 0 → Forall wf ps → cstr m f (print ps) →
  renders m ps args t → Z.of_nat (length t) <= 256 →
  printf write m f args = Val (t, s32 (write STDOUT_FILENO t)).
Proof.
  intros Hf Hwf Hc Hr Ht. pose proof (cstr_length _ _ _ Hc) as Hl. pose proof (proj1 (proj1 Hc)).
  destruct (format_loop_renders m ps args t Hr (length m) f (empty_str 256) [] 256)
    as (s & E & Hs); try done; try (cbn; lia).
  unfold printf. destruct (Z.eqb_spec f 0); [done|]. rewrite E. cbn [mbind res_bind].
  destruct Hs as [_ _ -> Htx _]. rewrite Nat2Z.id. cbn [app] in *. by rewrite Htx.
Qed.

(** ** Leaving the buffers *)

(** [n] times the directive [%c]. *)
Definition percent_c (n : nat) : list Z := concat (replicate n [37; 99]).

(** One [%c] leaves the count of free characters alone. *)
Lemma format_step_char fuel m f rest s args x cc : cstr m f ([37; 99] ++ rest) → 0 < cc →
  cstr m (f + 1 + 1) rest ∧
  format_loop (S fuel) m f s (AWord x :: args) cc =
    (s ← putc s x; format_loop fuel m (f + 1 + 1) s args cc).
Proof.
  intros Hf Hcc. change ([37; 99] ++ rest) with (print_piece (Dir [] None None CChar) ++ rest) in Hf.
  apply cstr_dir in Hf as (_ & Hch & Hm & Hrest). change (dir_len [] None None) with 0 in Hrest.
  rewrite !Z.add_0_r in Hrest. split; [done|].
  cbn [format_loop]. rewrite Hch. cbn [mbind res_bind Z.eqb Pos.eqb].
  destruct (Z.eqb_spec cc 0); [lia|].
  rewrite (directive_prefix m (f + 1) [] None None CChar) by done. change (dir_len [] None None) with 0. cbn.
  destruct (putc s x); [|done]. cbn. by rewrite !Z.add_0_r.
Qed.

Lemma format_loop_chars n : ∀ fuel m f s out cc x,
  cstr m f (percent_c n) → str_holds 256 s out → 0 < cc → (n <= fuel)%nat →
  256 < Z.of_nat (length out) + Z.of_nat n →
  format_loop fuel m f s (replicate n (AWord x)) cc = Err EUndef.
Proof.
  induction n as [|n IH]; intros fuel m f s out cc x Hf Hs Hcc Hfuel Ho;
    pose proof (sh_max _ _ _ Hs); [lia|].
  destruct fuel as [|fuel]; [lia|]. cbn [replicate].
  destruct (format_step_char fuel m f (percent_c n) s (replicate n (AWord x)) x cc Hf Hcc)
    as [Hrest ->].
  destruct (decide (Z.of_nat (length out) = 256)); [by rewrite (putc_full 256 s out)|].
  destruct (putc_ok 256 s out x Hs) as (s' & -> & Hs'); [lia|]. cbn [mbind res_bind].
  apply (IH fuel m _ s' (out ++ [u8 x]) cc x); try done; try lia.
  rewrite length_app. cbn [length]. lia.
Qed.

(** ** Properties *)

(** C35: For every format made of literal characters and directives [%], flags
    ([-+0lz]), a width and a precision of 1 to 999, each or none of them, and one of
    the conversions [% s d o u x p X c], and arguments that match it, the bytes
    [printf] hands to [write] are exactly the concatenated texts of the pieces,
    provided they fit the 256-byte buffer, and the result is what [write] returns.
    The text of a directive is that of the code, which ignores the precision and the
    width of [%] and [c], puts zeros before the sign and the prefix, does not pad
    numbers after [-], and always prints the prefix of [o], [x], [p] and [X].  The
    conversions [f] and [F], for which a precision is meant, are not part of it. *)
Theorem printf_prints write m f ps args t : f ≠ 0 → Forall wf ps → cstr m f (print ps) →
  renders m ps args t → Z.of_nat (length t) <= 256 →
  printf write m f args = Val (t, s32 (write STDOUT_FILENO t)).
Proof. exact (printf_format write m f ps args t). Qed.

(** more than 256 [%c] directives make [printf] store past the end of its
    buffer: the count of free characters, which ends the loop for literal
    characters, is not kept by [%c]. *)
Theorem printf_chars_overflow write m f n x :
  f ≠ 0 → cstr m f (percent_c n) → 256 < Z.of_nat n →
  printf write m f (replicate n (AWord x)) = Err EUndef.
Proof.
  intros Hf Hc Hn. pose proof (cstr_length _ _ _ Hc) as Hl. pose proof (proj1 (proj1 Hc)) as Hp.
  assert (length (percent_c n) = 2 * n)%nat as Hln.
  { clear. unfold percent_c. induction n as [|n IH]; [done|]. cbn. cbn in IH. lia. }
  unfold printf. destruct (Z.eqb_spec f 0); [done|].
  rewrite (format_loop_chars n _ _ _ _ []); try done; lia.
Qed.

(** ** Concrete runs *)

Definition write_all (fd : Z) (l : list Z) : Z := Z.of_nat (length l).

(** Where the texts are not those of the Linux manual: ["%-5d"] is not padded,
    ["%05d"] has its zeros before the sign, ["%x"] has a prefix without [#], and
    ["%.1s"] is not cut. *)
Lemma printf_differs_from_manual :
  let run d args := printf write_all (0 :: print [d] ++ [0; 97; 98; 0]) 1 args in
  run (Dir [FLeft] (Some 5) None CDecimal) [AWord 7] = Val ([55], 1) ∧
  run (Dir [FZero] (Some 5) None CDecimal) [AWord (2 ^ 64 - 42)] = Val ([48; 48; 45; 52; 50], 5) ∧
  run (Dir [] None None CHex) [AWord 255] = Val ([48; 120; 102; 102], 4) ∧
  run (Dir [] None (Some 1) CString) [AWord 6] = Val ([97; 98], 2).
Proof. vm_compute. done. Qed.

(** ["%-3s|%05.9d"] and the string ["ab"]. *)
Definition demo_format : list piece :=
  [Dir [FLeft] (Some 3) None CString; Lit 124; Dir [FZero] (Some 5) (Some 9) CDecimal].
Definition demo_mem : list Z := 0 :: print demo_format ++ [0; 97; 98; 0].

Lemma printf_prints_witness :
  Forall wf demo_format ∧ cstr demo_mem 1 (print demo_format) ∧
  renders demo_mem demo_format [AWord 13; AWord (2 ^ 64 - 42)] [97; 98; 32; 124; 48; 48; 45; 52; 50] ∧
  printf write_all demo_mem 1 [AWord 13; AWord (2 ^ 64 - 42)] =
    Val ([97; 98; 32; 124; 48; 48; 45; 52; 50], 9).
Proof.
  assert (Forall wf demo_format) as H1 by (repeat constructor; cbn; lia).
  assert (cstr demo_mem 1 (print demo_format)) as H2.
  { split; [apply at_mem_compute; [lia|vm_compute; reflexivity]|].
    repeat constructor; vm_compute; done. }
  assert (renders demo_mem demo_format [AWord 13; AWord (2 ^ 64 - 42)]
            [97; 98; 32; 124; 48; 48; 45; 52; 50]) as H3.
  { apply (r_string demo_mem [FLeft] (Some 3) None _ _ [124; 48; 48; 45; 52; 50] 13 [97; 98]);
      [discriminate| |].
    - split; [apply at_mem_compute; [lia|vm_compute; reflexivity]|repeat constructor; lia].
    - apply r_lit. apply (r_number demo_mem [FZero] (Some 5) (Some 9) CDecimal [] [] [] _ 10 3 45 42);
        [reflexivity|lia|vm_compute; reflexivity|apply r_nil]. }
  split; [exact H1|split; [exact H2|split; [exact H3|]]].
  apply (printf_prints write_all demo_mem 1 demo_format); [lia|exact H1|exact H2|exact H3|cbn; lia].
Defined.

(** 257 times ["%c"]. *)
Lemma printf_chars_overflow_witness :
  let m := 0 :: percent_c 257 ++ [0] in
  cstr m 1 (percent_c 257) ∧ printf write_all m 1 (replicate 257 (AWord 120)) = Err EUndef.
Proof.
  assert (cstr (0 :: percent_c 257 ++ [0]) 1 (percent_c 257)) as H.
  { split; [apply at_mem_compute; [lia|vm_compute; reflexivity]|].
    apply Forall_concat, Forall_replicate. repeat constructor; lia. }
  split; [exact H|].
  apply (printf_chars_overflow write_all _ 1 257 120); [lia|exact H|lia].
Defined.

End PrintfSpec.
