(* ===== verification/Kstring.v ===== *)
(** * The kernel's string and memory routines

    Models [common/source/util/kstring.cpp] on the memory of [LibcString]: a
    flat array of bytes, pointers are indices, [None] is the null pointer.
    [size_t] has 8 bytes, stored little-endian.  [strdup] gets the kernel's
    [kmalloc] as an argument. *)

From S2P Require Import Prelude LibcString Printf.

Module Kstring.
Import Libc.

(** ** Words in memory *)

Definition sizeof_size_t : nat := 8.

Fixpoint load_le (n : nat) (m : mem) (p : Z) : res Z :=
  match n with
  | O => Val 0
  | S n => b ← load m p; r ← load_le n m (p + 1); Val (b + 256 * r)
  end.

Fixpoint store_le (n : nat) (m : mem) (p v : Z) : res mem :=
  match n with
  | O => Val m
  | S n => m ← store m p v; store_le n m (p + 1) (v / 256)
  end.

(** ** Blocks *)

Fixpoint strlen_loop (fuel : nat) (m : mem) (str pos : Z) : res Z :=
  c ← char m pos;
  if negb (c =? 0) then
    match fuel with
    | O => Err EFuel
    | S fuel => strlen_loop fuel m str (pos + 1)
    end
  else Val (pos - str).
Definition strlen (m : mem) (str : Z) : res Z := strlen_loop (length m) m str str.

(** The two loops of [memcpy]: whole words, then the bytes that are left. *)
Fixpoint copy_words (m : mem) (d s : Z) (n : nat) : res mem :=
  match n with
  | O => Val m
  | S n =>
      w ← load_le sizeof_size_t m s;
      m ← store_le sizeof_size_t m d w;
      copy_words m (d + Z.of_nat sizeof_size_t) (s + Z.of_nat sizeof_size_t) n
  end.

Fixpoint copy_forward (m : mem) (dest8 src8 : Z) (n : nat) : res mem :=
  match n with
  | O => Val m
  | S n => c ← load m src8; m ← store m dest8 c; copy_forward m (dest8 + 1) (src8 + 1) n
  end.

Fixpoint copy_backward (m : mem) (dest8 src8 : Z) (n : nat) : res mem :=
  match n with
  | O => Val m
  | S n => c ← load m src8; m ← store m dest8 c; copy_backward m (dest8 - 1) (src8 - 1) n
  end.

Definition memcpy (m : mem) (dest src length : Z) : res (mem * Z) :=
  let num_large_copies := length / Z.of_nat sizeof_size_t in
  let num_rest_copies := length mod Z.of_nat sizeof_size_t in
  m ← copy_words m dest src (Z.to_nat num_large_copies);
  let done := num_large_copies * Z.of_nat sizeof_size_t in
  m ← copy_forward m (dest + done) (src + done) (Z.to_nat num_rest_copies);
  Val (m, dest).

Definition memmove (m : mem) (dest src length : Z) : res (mem * Z) :=
  if (length =? 0) || (src =? dest) then Val (m, dest)
  else if dest <? src then
    m ← copy_forward m dest src (Z.to_nat length); Val (m, dest)
  else
    m ← copy_backward m (dest + (length - 1)) (src + (length - 1)) (Z.to_nat length); Val (m, dest).

Definition bcopy (m : mem) (src dest length : Z) : res mem :=
  if (length =? 0) || (src =? dest) then Val m
  else if src <? dest then copy_forward m dest src (Z.to_nat length)
  else copy_backward m (dest + length) (src + length) (Z.to_nat length).

Fixpoint memccpy_loop (m : mem) (dest8 src8 c : Z) (n : nat) : res (mem * option Z) :=
  match n with
  | O => Val (m, None)
  | S n =>
      b ← load m src8;
      m ← store m dest8 b;
      if b =? c then Val (m, Some (dest8 + 1)) else memccpy_loop m (dest8 + 1) (src8 + 1) c n
  end.
Definition memccpy (m : mem) (dest src c length : Z) : res (mem * option Z) :=
  if length =? 0 then Val (m, None) else memccpy_loop m dest src c (Z.to_nat length).

(** [large_c]: [c] shifted in once more for every byte of a word. *)
Fixpoint spread (n : nat) (large_c c : Z) : Z :=
  match n with
  | O => large_c
  | S n => spread n (Z.lor (u64 (Z.shiftl large_c 8)) c) c
  end.

Fixpoint set_words (m : mem) (d large_c : Z) (n : nat) : res mem :=
  match n with
  | O => Val m
  | S n => m ← store_le sizeof_size_t m d large_c; set_words m (d + Z.of_nat sizeof_size_t) large_c n
  end.

Fixpoint set_bytes (m : mem) (d8 c : Z) (n : nat) : res mem :=
  match n with
  | O => Val m
  | S n => m ← store m d8 c; set_bytes m (d8 + 1) c n
  end.

Definition memset (m : mem) (block c size : Z) : res (mem * Z) :=
  if negb (size =? 0) then
    let large_c := spread sizeof_size_t c c in
    let num_large_copies := size / Z.of_nat sizeof_size_t in
    let num_rest_copies := size mod Z.of_nat sizeof_size_t in
    m ← set_words m block large_c (Z.to_nat num_large_copies);
    m ← set_bytes m (block + num_large_copies * Z.of_nat sizeof_size_t) c (Z.to_nat num_rest_copies);
    Val (m, block)
  else Val (m, block).

(** The loop of [memcmp] and of [bcmp]. *)
Fixpoint memcmp_loop (m : mem) (b1 b2 : Z) (n : nat) : res Z :=
  match n with
  | O => Val 0
  | S n =>
      x ← load m b1;
      y ← load m b2;
      if negb (x =? y) then Val (x - y) else memcmp_loop m (b1 + 1) (b2 + 1) n
  end.
Definition memcmp (m : mem) (region1 region2 size : Z) : res Z :=
  if size =? 0 then Val 0 else memcmp_loop m region1 region2 (Z.to_nat size).
Definition bcmp (m : mem) (region1 region2 size : Z) : res Z :=
  if size =? 0 then Val 0 else memcmp_loop m region1 region2 (Z.to_nat size).

Fixpoint memnotchr (m : mem) (block c : Z) (size : nat) : res (option Z) :=
  match size with
  | O => Val None
  | S size => b ← load m block; if negb (b =? c) then Val (Some block) else memnotchr m (block + 1) c size
  end.

Fixpoint memchr (m : mem) (block c : Z) (size : nat) : res (option Z) :=
  match size with
  | O => Val None
  | S size => b ← load m block; if b =? c then Val (Some block) else memchr m (block + 1) c size
  end.

Fixpoint memrchr_loop (m : mem) (b c : Z) (n : nat) : res (option Z) :=
  match n with
  | O => Val None
  | S n => x ← load m b; if x =? c then Val (Some b) else memrchr_loop m (b - 1) c n
  end.
Definition memrchr (m : mem) (block c size : Z) : res (option Z) :=
  memrchr_loop m (block + size - 1) c (Z.to_nat size).

(** ** Strings *)

Fixpoint strcpy_loop (fuel : nat) (m : mem) (dest src : Z) : res mem :=
  c ← load m src;
  m ← store m dest c;
  if c =? 0 then Val m
  else match fuel with
       | O => Err EFuel
       | S fuel => strcpy_loop fuel m (dest + 1) (src + 1)
       end.

(** The assertion compares a string literal with the null pointer: it always
    fails. *)
Definition strcpy (m : mem) (dest src : Z) : res (mem * Z) :=
  _ ← kassert false;
  m ← strcpy_loop (length m) m dest src;
  Val (m, dest).

Fixpoint strncpy_loop (m : mem) (dest src : Z) (fill : bool) (size : nat) : res mem :=
  match size with
  | O => Val m
  | S size =>
      if fill then m ← store m dest 0; strncpy_loop m (dest + 1) (src + 1) true size
      else
        c ← load m src;
        m ← store m dest c;
        strncpy_loop m (dest + 1) (src + 1) (c =? 0) size
  end.
Definition strncpy (m : mem) (dest src size : Z) : res (mem * Z) :=
  m ← strncpy_loop m dest src false (Z.to_nat size); Val (m, dest).

Definition strdup (kmalloc : mem → Z → res (mem * option Z)) (m : mem) (src : Z) : res (mem * option Z) :=
  n ← strlen m src;
  let size := n + 1 in
  '(m, dest) ← kmalloc m size;
  match dest with
  | None => Val (m, None)
  | Some dest => '(m, p) ← memcpy m dest src size; Val (m, Some p)
  end.

Definition strcat (m : mem) (dest append : Z) : res (mem * Z) :=
  n ← strlen m dest;
  '(m, _) ← strcpy m (dest + n) append;
  Val (m, dest).

Fixpoint skip_string (fuel : nat) (m : mem) (dest : Z) : res Z :=
  c ← load m dest;
  if negb (c =? 0) then
    match fuel with O => Err EFuel | S fuel => skip_string fuel m (dest + 1) end
  else Val dest.

(** The copying loop of [strncat]: the memory and the final [dest]. *)
Fixpoint strncat_loop (m : mem) (dest append : Z) (size : nat) : res (mem * Z) :=
  match size with
  | O => Val (m, dest)
  | S size =>
      c ← load m append;
      m ← store m dest c;
      if c =? 0 then Val (m, dest) else strncat_loop m (dest + 1) (append + 1) size
  end.
Definition strncat (m : mem) (dest append size : Z) : res (mem * Z) :=
  let save := dest in
  if size =? 0 then Val (m, save)
  else
    dest ← skip_string (length m) m dest;
    '(m, dest) ← strncat_loop m dest append (Z.to_nat size);
    m ← store m dest 0;
    Val (m, save).

(** The two loops of [strlcat]: [count] and [dest]; the memory and [append]. *)
Fixpoint strlcat_skip (m : mem) (dest : Z) (count : nat) : res (nat * Z) :=
  match count with
  | O => Val (O, dest)
  | S n =>
      c ← load m dest;
      if negb (c =? 0) then strlcat_skip m (dest + 1) n else Val (count, dest)
  end.
Fixpoint strlcat_copy (m : mem) (dest append : Z) (count : nat) : res (mem * Z) :=
  match count with
  | O => Val (m, append)
  | S n =>
      c ← load m append;
      m ← store m dest c;
      if c =? 0 then Val (m, append) else strlcat_copy m (dest + 1) (append + 1) n
  end.
Definition strlcat (m : mem) (dest append size : Z) : res (mem * Z) :=
  '(count, dest) ← strlcat_skip m dest (Z.to_nat size);
  let done := size - Z.of_nat count in
  if Z.of_nat count =? 0 then n ← strlen m append; Val (m, done + n)
  else
    '(m, append') ← strlcat_copy m dest append count;
    Val (m, u64 (done + (append' - append) - 1)).

(** The common loop of [strcmp] and [strncmp]; [n] is [None] for [strcmp]. *)
Fixpoint strcmp_loop (fuel : nat) (m : mem) (str1 str2 : Z) : res (Z * Z) :=
  a ← load m str1;
  b ← (if a =? 0 then Val 0 else load m str2);
  if negb (a =? 0) && negb (b =? 0) && (a =? b) then
    match fuel with O => Err EFuel | S fuel => strcmp_loop fuel m (str1 + 1) (str2 + 1) end
  else Val (str1, str2).
Definition strcmp (m : mem) (str1 str2 : Z) : res Z :=
  _ ← kassert (negb (str1 =? 0));
  _ ← kassert (negb (str2 =? 0));
  if str1 =? str2 then Val 0
  else
    '(p, q) ← strcmp_loop (length m) m str1 str2;
    a ← load m p;
    b ← load m q;
    Val (a - b).

Fixpoint strncmp (m : mem) (str1 str2 : Z) (n : nat) : res Z :=
  match n with
  | O => Val 0
  | S n =>
      a ← load m str1;
      b ← load m str2;
      if negb (a =? 0) && negb (b =? 0) && (a =? b) then strncmp m (str1 + 1) (str2 + 1) n
      else Val (a - b)
  end.

(** [c] is the value of a (signed) [char]. *)
Fixpoint strchr (fuel : nat) (m : mem) (str c : Z) : res (option Z) :=
  x ← char m str;
  if x =? c then Val (Some str)
  else
    y ← char m (str + 1);
    if negb (y =? 0) then
      match fuel with O => Err EFuel | S fuel => strchr fuel m (str + 1) c end
    else Val None.

Fixpoint strrchr_loop (fuel : nat) (m : mem) (pos len c : Z) : res (option Z) :=
  x ← char m (pos - 1);
  if x =? c then Val (Some (pos - 1))
  else
    let len := u32 (len - 1) in
    if negb (len =? 0) then
      match fuel with O => Err EFuel | S fuel => strrchr_loop fuel m (pos - 1) len c end
    else Val None.
Definition strrchr (m : mem) (str c : Z) : res (option Z) :=
  n ← strlen m str;
  let len := u32 n in
  strrchr_loop (length m) m (str + len) len c.

(** [strtok]: the static [str_to_tok] is passed in and out. *)
Fixpoint find_delimiter (fuel : nat) (m : mem) (c delimiters del_pos : Z) : res bool :=
  d ← char m (delimiters + del_pos);
  if d =? 0 then Val false
  else if c =? d then Val true
  else match fuel with
       | O => Err EFuel
       | S fuel => find_delimiter fuel m c delimiters (u32 (del_pos + 1))
       end.

(** The two scans: the first character that is, or is not, a delimiter ([stop]
    tells which), from [str_pos] on; [none] at the end of the string. *)
Fixpoint scan (fuel : nat) (m : mem) (str_to_tok delimiters : Z) (stop : bool) (none str_pos : Z) : res Z :=
  c ← char m (str_to_tok + str_pos);
  if c =? 0 then Val none
  else
    char_is_delimiter ← find_delimiter (length m) m c delimiters 0;
    if eqb char_is_delimiter stop then Val str_pos
    else match fuel with
         | O => Err EFuel
         | S fuel => scan fuel m str_to_tok delimiters stop none (u32 (str_pos + 1))
         end.

Definition strtok (m : mem) (str_to_tok str delimiters : option Z) : res (mem * option Z * option Z) :=
  let str_to_tok := match str with Some _ => str | None => str_to_tok end in
  match delimiters, str_to_tok with
  | None, _ => Val (m, str_to_tok, str_to_tok)
  | _, None => Val (m, str_to_tok, None)
  | Some delimiters, Some s =>
      tok_start ← scan (length m) m s delimiters false 0 0;
      tok_end ← scan (length m) m s delimiters true (u32 (-1)) tok_start;
      let token := s + tok_start in
      if tok_end =? u32 (-1) then Val (m, None, Some token)
      else
        m ← store m (s + tok_end) 0;
        Val (m, Some (s + (tok_end + 1)), Some token)
  end.

(** ** Numbers *)

Definition numToASCIIChar (number : Z) : Z :=
  if number <=? 9 then 0x30 + number
  else if (0xa <=? number) && (number <=? 0xf) then 0x61 + number - 0xa
  else 63.

(** The digits of [itoa], least significant first: the memory, [div] and
    [str_pos]. *)
Fixpoint itoa_digits (fuel : nat) (m : mem) (str div base str_pos : Z) : res (mem * Z * Z) :=
  if base <=? div then
    _ ← defined (negb (base =? 0));
    q ← schk 32 (Z.quot div base);
    m ← store m (str + str_pos) (numToASCIIChar (u8 (Z.rem div base)));
    match fuel with
    | O => Err EFuel
    | S fuel => itoa_digits fuel m str q base (u32 (str_pos + 1))
    end
  else Val (m, div, str_pos).

Fixpoint itoa_swap (n : nat) (m : mem) (str str_len i : Z) : res mem :=
  match n with
  | O => Val m
  | S n =>
      temp ← load m (str + (str_len - 1 - i));
      x ← load m (str + i);
      m ← store m (str + (str_len - 1 - i)) x;
      m ← store m (str + i) temp;
      itoa_swap n m str str_len (i + 1)
  end.

Definition itoa (m : mem) (value : Z) (str : option Z) (base : Z) : res (mem * option Z) :=
  match str with
  | None => Val (m, None)
  | Some p =>
      '(m, div, str_pos) ← itoa_digits (length m) m p value base 0;
      m ← store m (p + str_pos) (numToASCIIChar (u8 div));
      let str_pos := u32 (str_pos + 1) in
      '(m, str_pos) ← (if value <? 0 then
         m ← store m (p + str_pos) 45; Val (m, u32 (str_pos + 1))
         else Val (m, str_pos));
      m ← store m (p + str_pos) 0;
      if 1 <? str_pos then
        n ← strlen m p;
        let str_len := u32 n in
        m ← itoa_swap (Z.to_nat (str_len / 2)) m p str_len 0;
        Val (m, Some p)
      else Val (m, Some p)
  end.

Definition poly : Z := 0xEDB88320.

Fixpoint checksum_bits (bit : nat) (word r : Z) {struct bit} : Z :=
  match bit with
  | O => r
  | S bit =>
      checksum_bits bit word
        (if negb (Z.land r 1 =? Z.land (Z.shiftr word (Z.of_nat bit)) 1)
         then Z.lxor (Z.shiftr r 1) poly else u32 (Z.shiftr r 1 + 7))
  end.

Fixpoint checksum_words (m : mem) (src r : Z) (n : nat) {struct n} : res Z :=
  match n with
  | O => Val r
  | S n => w ← load_le 4 m src; checksum_words m (src + 4) (checksum_bits 32 w r) n
  end.

Definition checksum (m : mem) (src nbytes : Z) : res Z :=
  r ← checksum_words m src 0xFFFFFFFF (Z.to_nat (nbytes / 4));
  Val (Z.lxor r 0xFFFFFFFF).


(** ** Words and bytes *)

Lemma load_err m p e : load m p = Err e → e = EUndef.
Proof. unfold load, zget. case_decide; [|congruence]. destruct (m !! _); congruence. Qed.

Lemma store_err m p c e : store m p c = Err e → e = EUndef.
Proof. unfold store, zset. case_decide; congruence. Qed.

Lemma load_byte m p b : mem_ok m → load m p = Val b → is_byte b.
Proof. intros Hm [_ Hb]%zget_Val. exact (Forall_lookup_1 _ _ _ _ Hm Hb). Qed.

Lemma store_ok m p c m' : mem_ok m → store m p c = Val m' → mem_ok m'.
Proof.
  intros Hm [_ ->]%zset_Val. apply Forall_insert; [done|]. apply (wrap_bounds 8 c). lia.
Qed.

Lemma load_le_ne n m m' d v p : store m d v = Val m' → d < p ∨ p + Z.of_nat n <= d →
  load_le n m' p = load_le n m p.
Proof.
  intros Hs. revert p. induction n as [|n IH]; intros p Hd; cbn [load_le]; [done|].
  unfold load. rewrite (zget_zset_ne _ _ _ _ _ Hs) by lia. fold (load m p).
  by rewrite IH by lia.
Qed.

Lemma load_le_err n m p e : load_le n m p = Err e → e = EUndef.
Proof.
  revert p. induction n as [|n IH]; intros p; cbn [load_le]; [done|].
  intros [H|(b & _ & [H|(r & _ & H)]%bind_Err)]%bind_Err; [by eapply load_err|by eapply IH|done].
Qed.

Lemma store_wrap m d v w : u8 v = u8 w → store m d v = store m d w.
Proof. unfold store. by intros ->. Qed.

(** Moving a word is moving its bytes, also when the ranges overlap, as long
    as no byte of the source is written before it is read. *)
Lemma copy_word n m d s : mem_ok m → d <= s ∨ s + Z.of_nat n <= d →
  (w ← load_le n m s; store_le n m d w) = copy_forward m d s n.
Proof.
  revert m d s. induction n as [|n IH]; intros m d s Hm Hd; cbn [load_le store_le copy_forward]; [done|].
  destruct (load m s) as [b|] eqn:Eb; cbn [mbind res_bind]; [|done].
  pose proof (load_byte _ _ _ Hm Eb) as Hb. unfold is_byte in Hb.
  assert (∀ r, store m d (b + 256 * r) = store m d b) as Hst.
  { intros r. apply store_wrap. unfold wrap. rewrite (Z.mul_comm 256), Z.mod_add by done. done. }
  assert (∀ r, (b + 256 * r) / 256 = r) as Hdiv by (intros r; Z.to_euclidean_division_equations; lia).
  destruct (store m d b) as [m1|e] eqn:Es; cbn [mbind res_bind].
  - rewrite <- IH by (by eapply store_ok || lia). rewrite (load_le_ne n m m1 d b) by (done || lia).
    destruct (load_le n m (s + 1)) as [r|]; cbn [mbind res_bind]; [|done].
    by rewrite Hst, Hdiv.
  - destruct (load_le n m (s + 1)) as [r|e'] eqn:El; cbn [mbind res_bind].
    + by rewrite Hst.
    + by rewrite (load_le_err _ _ _ _ El), (store_err _ _ _ _ Es).
Qed.

Lemma copy_forward_app a b m d s : copy_forward m d s (a + b) =
  (m ← copy_forward m d s a; copy_forward m (d + Z.of_nat a) (s + Z.of_nat a) b).
Proof.
  revert m d s. induction a as [|a IH]; intros m d s; cbn [copy_forward Nat.add].
  - cbn [mbind res_bind]. by rewrite !Z.add_0_r.
  - destruct (load m s); cbn [mbind res_bind]; [|done]. destruct (store m d a0); cbn [mbind res_bind]; [|done].
    rewrite IH. destruct (copy_forward _ _ _ _); cbn [mbind res_bind]; [|done]. f_equal; lia.
Qed.

Lemma copy_forward_mem_ok n m d s m' : mem_ok m → copy_forward m d s n = Val m' → mem_ok m'.
Proof.
  revert m d s. induction n as [|n IH]; intros m d s Hm; cbn [copy_forward]; [by intros [= <-]|].
  intros (b & _ & (m1 & Hs & H)%bind_Val)%bind_Val. eapply IH; [|done]. by eapply store_ok.
Qed.

Lemma copy_words_forward k m d s : mem_ok m → d <= s ∨ s + 8 <= d →
  copy_words m d s k = copy_forward m d s (8 * k).
Proof.
  revert m d s. induction k as [|k IH]; intros m d s Hm Hd; [done|].
  replace (8 * S k)%nat with (sizeof_size_t + 8 * k)%nat by (unfold sizeof_size_t; lia).
  rewrite copy_forward_app. cbn [copy_words].
  pose proof (copy_word sizeof_size_t m d s Hm ltac:(unfold sizeof_size_t; lia)) as Hw.
  rewrite <- Hw. destruct (load_le sizeof_size_t m s) as [w|]; cbn [mbind res_bind] in *; [|done].
  destruct (store_le sizeof_size_t m d w) as [m1|]; cbn [mbind res_bind]; [|done].
  apply IH; [|unfold sizeof_size_t; lia]. by eapply copy_forward_mem_ok.
Qed.

Lemma memcpy_ok m d s n : mem_ok m → 0 <= n → d <= s ∨ s + 8 <= d →
  memcpy m d s n = (m ← copy_forward m d s (Z.to_nat n); Val (m, d)).
Proof.
  intros Hm Hn Hd. unfold memcpy. change (Z.of_nat sizeof_size_t) with 8.
  rewrite copy_words_forward by done.
  replace (Z.to_nat n) with (8 * Z.to_nat (n / 8) + Z.to_nat (n mod 8))%nat
    by (Z.to_euclidean_division_equations; lia).
  rewrite copy_forward_app. destruct (copy_forward m d s _) as [m1|]; cbn [mbind res_bind]; [|done].
  by replace (Z.of_nat (8 * Z.to_nat (n / 8))) with (n / 8 * 8) by (Z.to_euclidean_division_equations; lia).
Qed.

(** A word whose [n] low bytes are all [c]. *)
Fixpoint all_same (n : nat) (c w : Z) : bool :=
  match n with
  | O => true
  | S n => (u8 w =? c) && all_same n c (w / 256)
  end.

Lemma spread_same c : is_byte c → all_same sizeof_size_t c (spread sizeof_size_t c c) = true.
Proof. apply (all_bytes_spec (λ c, all_same sizeof_size_t c (spread sizeof_size_t c c))). vm_compute. reflexivity. Qed.

Lemma set_word n m d c w : is_byte c → all_same n c w = true → store_le n m d w = set_bytes m d c n.
Proof.
  intros Hc. revert m d w. induction n as [|n IH]; intros m d w; cbn [all_same store_le set_bytes]; [done|].
  intros [E%Z.eqb_eq Hw]%andb_true_iff. unfold is_byte in Hc.
  rewrite (store_wrap m d w c) by (rewrite E, wrap_small; lia).
  destruct (store m d c); cbn [mbind res_bind]; [|done]. by apply IH.
Qed.

Lemma set_bytes_app a b m d c : set_bytes m d c (a + b) =
  (m ← set_bytes m d c a; set_bytes m (d + Z.of_nat a) c b).
Proof.
  revert m d. induction a as [|a IH]; intros m d; cbn [set_bytes Nat.add].
  - cbn [mbind res_bind]. by rewrite Z.add_0_r.
  - destruct (store m d c); cbn [mbind res_bind]; [|done].
    rewrite IH. destruct (set_bytes _ _ _ _); cbn [mbind res_bind]; [|done]. f_equal; lia.
Qed.

Lemma set_words_bytes k m d c : is_byte c →
  set_words m d (spread sizeof_size_t c c) k = set_bytes m d c (8 * k).
Proof.
  intros Hc. revert m d. induction k as [|k IH]; intros m d; [done|].
  replace (8 * S k)%nat with (sizeof_size_t + 8 * k)%nat by (unfold sizeof_size_t; lia).
  rewrite set_bytes_app. cbn [set_words]. rewrite (set_word _ _ _ c) by (done || by apply spread_same).
  destruct (set_bytes m d c sizeof_size_t); cbn [mbind res_bind]; [|done]. apply IH.
Qed.

Lemma memset_bytes m d c n : is_byte c → 0 <= n →
  memset m d c n = (m ← set_bytes m d c (Z.to_nat n); Val (m, d)).
Proof.
  intros Hc Hn. unfold memset. destruct (Z.eqb_spec n 0) as [->|Hz]; [done|]. cbn [negb].
  rewrite set_words_bytes by done. change (Z.of_nat sizeof_size_t) with 8.
  replace (Z.to_nat n) with (8 * Z.to_nat (n / 8) + Z.to_nat (n mod 8))%nat
    by (Z.to_euclidean_division_equations; lia).
  rewrite set_bytes_app. destruct (set_bytes m d c _) as [m1|]; cbn [mbind res_bind]; [|done].
  by replace (Z.of_nat (8 * Z.to_nat (n / 8))) with (n / 8 * 8) by (Z.to_euclidean_division_equations; lia).
Qed.

(** ** Moving overlapping blocks *)

Lemma copy_forward_loop m d s n : copy_forward m d s n = memcpy_loop m d s n.
Proof. reflexivity. Qed.

Lemma bytes_snoc m p n x : m !! Z.to_nat (p + Z.of_nat n) = Some x → 0 <= p →
  bytes m p (Z.of_nat (S n)) = bytes m p (Z.of_nat n) ++ [x].
Proof.
  intros Hx Hp. unfold bytes. rewrite !Nat2Z.id. apply take_S_r. rewrite lookup_drop. rewrite <- Hx. f_equal. lia.
Qed.

Lemma bytes_length m p n : 0 <= p → 0 <= n → p + n <= Z.of_nat (length m) →
  length (bytes m p n) = Z.to_nat n.
Proof. intros. unfold bytes. rewrite length_take, length_drop. lia. Qed.

Lemma written_intro m m' p l : 0 <= p → p + Z.of_nat (length l) <= Z.of_nat (length m) →
  length m' = length m →
  (∀ k b, l !! k = Some b → m' !! (Z.to_nat p + k)%nat = Some b) →
  (∀ j, (j < Z.to_nat p ∨ Z.to_nat p + length l <= j)%nat → m' !! j = m !! j) →
  written m m' p l.
Proof.
  intros Hp Hl Hlen Hin Hout. unfold written. apply list_eq. intros j.
  destruct (decide (j < Z.to_nat p)%nat); [rewrite list_lookup_inserts_lt by lia; apply Hout; lia|].
  destruct (decide (Z.to_nat p + length l <= j)%nat); [rewrite list_lookup_inserts_ge by lia; apply Hout; lia|].
  rewrite list_lookup_inserts by lia.
  destruct (lookup_lt_is_Some_2 l (j - Z.to_nat p)%nat) as [b Hb]; [lia|]. rewrite Hb.
  apply Hin in Hb. rewrite <- Hb. f_equal. lia.
Qed.

Lemma copy_backward_ok m d s n : mem_ok m → 0 <= d → 0 <= s →
  d + Z.of_nat n <= Z.of_nat (length m) → s + Z.of_nat n <= Z.of_nat (length m) → s <= d →
  ∃ m', copy_backward m (d + (Z.of_nat n - 1)) (s + (Z.of_nat n - 1)) n = Val m' ∧
    written m m' d (bytes m s (Z.of_nat n)).
Proof.
  revert m. induction n as [|n IH]; intros m Hok Hd Hs Hld Hls Hov; cbn [copy_backward]; [by exists m|].
  replace (Z.of_nat (S n) - 1) with (Z.of_nat n) by lia.
  destruct (lookup_lt_is_Some_2 m (Z.to_nat (s + Z.of_nat n))) as [x Hx]; [lia|].
  pose proof (Forall_lookup_1 _ _ _ _ Hok Hx) as Hb. cbn in Hb.
  rewrite (load_ok m (s + Z.of_nat n) x) by (done || lia). cbn [mbind res_bind].
  unfold store, zset. rewrite decide_True by lia. cbn [mbind res_bind]. rewrite wrap_small by lia.
  rewrite (bytes_snoc m s n x) by done.
  replace (d + Z.of_nat n - 1) with (d + (Z.of_nat n - 1)) by lia.
  replace (s + Z.of_nat n - 1) with (s + (Z.of_nat n - 1)) by lia.
  destruct (IH (<[Z.to_nat (d + Z.of_nat n) := x]> m)) as (m' & -> & Hw);
    [by apply Forall_insert|lia|lia|rewrite length_insert; lia..|lia|].
  exists m'. split; [done|]. unfold written in *. rewrite bytes_insert_ne in Hw by lia.
  rewrite Hw. pose proof (bytes_length m s (Z.of_nat n) Hs ltac:(lia) ltac:(lia)) as Hl.
  set (l := bytes m s (Z.of_nat n)) in *.
  apply written_intro; [lia|rewrite length_app; cbn [length]; lia|by rewrite length_inserts, length_insert| |].
  - intros k b Hk. destruct (decide (k < n)%nat).
    + rewrite lookup_app_l in Hk by lia. rewrite list_lookup_inserts by (rewrite ?length_insert; lia).
      rewrite <- Hk. f_equal. lia.
    + assert (k = n) as -> by (apply lookup_lt_Some in Hk; rewrite length_app in Hk; cbn [length] in Hk; lia).
      rewrite list_lookup_inserts_ge by lia.
      replace (Z.to_nat d + n)%nat with (Z.to_nat (d + Z.of_nat n)) by lia.
      rewrite list_lookup_insert_eq by lia. rewrite <- Hk. symmetry. apply list_lookup_middle. lia.
  - rewrite length_app. cbn [length]. intros j Hj.
    destruct Hj; [rewrite list_lookup_inserts_lt by lia|rewrite list_lookup_inserts_ge by lia];
      apply list_lookup_insert_ne; lia.
Qed.

Lemma memmove_ok m d s n : mem_ok m → 0 <= d → 0 <= s → 0 <= n →
  d + n <= Z.of_nat (length m) → s + n <= Z.of_nat (length m) →
  ∃ m', memmove m d s n = Val (m', d) ∧ written m m' d (bytes m s n).
Proof.
  intros Hok Hd Hs Hn Hld Hls. unfold memmove.
  destruct (Z.eqb_spec n 0) as [->|Hz]; cbn [orb]; [by exists m|].
  destruct (Z.eqb_spec s d) as [->|Hsd].
  { exists m. split; [done|]. pose proof (bytes_length m d n Hd Hn Hld).
    apply written_intro; [lia|lia|done| |done]. intros k b. unfold bytes. rewrite lookup_take_Some, lookup_drop. tauto. }
  destruct (Z.ltb_spec d s).
  - rewrite copy_forward_loop. destruct (memcpy_loop_ok m d s (Z.to_nat n)) as (m' & -> & Hw); try done; try lia.
    exists m'. split; [done|]. by rewrite Z2Nat.id in Hw by lia.
  - destruct (copy_backward_ok m d s (Z.to_nat n)) as (m' & E & Hw); try done; try lia.
    rewrite Z2Nat.id in E, Hw by lia. rewrite E. by exists m'.
Qed.

(** ** Decimal numbers *)

Lemma strlen_loop_libc fuel m str n :
  strlen_loop fuel m str (str + n) = Libc.strlen_loop fuel m str n.
Proof.
  revert n. induction fuel as [|fuel IH]; intros n; cbn [strlen_loop Libc.strlen_loop];
    (destruct (char m (str + n)) as [c|]; cbn [mbind res_bind]; [|done]);
    destruct (negb (c =? 0)); try done.
  - f_equal; lia.
  - rewrite <- IH. by rewrite Z.add_assoc.
  - f_equal; lia.
Qed.

Lemma strlen_cstr m p s : cstr m p s → strlen m p = Val (Z.of_nat (length s)).
Proof.
  intros Hs. unfold strlen. replace p with (p + 0) at 2 by lia. rewrite strlen_loop_libc.
  pose proof (cstr_length _ _ _ Hs). pose proof (proj1 (proj1 Hs)).
  rewrite (Libc.strlen_loop_cstr _ m p s) by (by rewrite Z.add_0_r || lia). done.
Qed.

Lemma written_app m m1 m2 p l1 l2 : 0 <= p → written m m1 p l1 →
  written m1 m2 (p + Z.of_nat (length l1)) l2 → written m m2 p (l1 ++ l2).
Proof.
  unfold written. intros Hp -> ->. rewrite list_inserts_app_l. f_equal. lia.
Qed.

Lemma store_written m p c : 0 <= p < Z.of_nat (length m) → 0 <= c < 256 →
  ∃ m', store m p c = Val m' ∧ written m m' p [c].
Proof.
  intros Hp Hc. unfold store, zset. rewrite decide_True by lia. rewrite wrap_small by lia.
  eexists. done.
Qed.

Lemma written_length m m' p l : written m m' p l → length m' = length m.
Proof. intros ->. apply length_inserts. Qed.

Lemma written_at m m' p l : 0 <= p → p + Z.of_nat (length l) <= Z.of_nat (length m) →
  written m m' p l → at_mem m' p l.
Proof.
  intros Hp Hl ->. split; [done|]. intros k b Hk. pose proof (lookup_lt_Some _ _ _ Hk).
  rewrite list_lookup_inserts by lia. rewrite <- Hk. f_equal. lia.
Qed.

Lemma digit_char d : 0 <= d < 10 → numToASCIIChar (u8 d) = 48 + d ∧ Printf.dig Printf.small_digits d = 48 + d.
Proof.
  intros Hd. split.
  - unfold numToASCIIChar. rewrite wrap_small by lia. destruct (Z.leb_spec d 9); lia.
  - pose proof (all_bytes_spec (λ d, (9 <? d) || (Printf.dig Printf.small_digits d =? 48 + d))
      ltac:(vm_compute; reflexivity) d ltac:(unfold is_byte; lia)) as H. cbn beta in H.
    apply orb_true_iff in H as [H|H]; bool_to_prop; lia.
Qed.

Lemma itoa_digits_ok n : ∀ v m p pos fuel, 0 <= v < 10 ^ (Z.of_nat n + 1) → v < 2 ^ 31 → 0 <= p → 0 <= pos →
  p + pos + Z.of_nat n <= Z.of_nat (length m) → pos + Z.of_nat n < 2 ^ 32 → (n <= fuel)%nat →
  ∃ ds m' dv, itoa_digits fuel m p v 10 pos = Val (m', dv, pos + Z.of_nat (length ds)) ∧
    (length ds <= n)%nat ∧ written m m' (p + pos) ds ∧ 0 <= dv < 10 ∧
    ∀ F, (n <= F)%nat → Printf.numeral (S F) Printf.small_digits 10 v = (48 + dv) :: rev ds.
Proof.
  induction n as [|n IH]; intros v m p pos fuel Hv Hv31 Hp Hpos Hm Hpn Hf.
  - exists [], m, v. cbn in Hv. split; [|split; [done|split; [done|split; [lia|]]]].
    + destruct fuel; cbn [itoa_digits]; (destruct (Z.leb_spec 10 v); [lia|]); cbn [length]; do 2 f_equal; lia.
    + intros F _. cbn [Printf.numeral]. destruct (Z.ltb_spec v 10); [|lia]. cbn [rev]. by rewrite (proj2 (digit_char v ltac:(lia))).
  - destruct fuel as [|fuel]; [lia|]. cbn [itoa_digits]. destruct (Z.leb_spec 10 v) as [H10|H10].
    + cbn [Z.eqb negb defined mbind res_bind]. rewrite Z.quot_div_nonneg, Z.rem_mod_nonneg by lia.
      assert (0 <= v / 10 < 10 ^ (Z.of_nat n + 1)) as Hq.
      { split; [apply Z.div_pos; lia|]. apply Z.div_lt_upper_bound; [lia|].
        rewrite <- Z.pow_succ_r by lia. replace (Z.succ (Z.of_nat n + 1)) with (Z.of_nat (S n) + 1) by lia. lia. }
      assert (v / 10 < 2 ^ 31) as Hq31 by (Z.to_euclidean_division_equations; lia).
      unfold schk, in_signed. cbn [Z.sub]. rewrite (proj2 (Z.leb_le (- 2 ^ (32 - 1)) (v / 10))) by lia.
      rewrite (proj2 (Z.ltb_lt (v / 10) (2 ^ (32 - 1)))) by lia. cbn [andb mbind res_bind].
      pose proof (Z.mod_pos_bound v 10 ltac:(lia)) as Hr.
      destruct (digit_char (v mod 10) Hr) as [-> Hdig].
      destruct (store_written m (p + pos) (48 + v mod 10)) as (m1 & -> & W1); [lia|lia|]. cbn [mbind res_bind].
      rewrite (wrap_small 32) by lia.
      destruct (IH (v / 10) m1 p (pos + 1) fuel) as (ds & m' & dv & E & Hl & W & Hdv & Hn); try lia.
      { rewrite (written_length _ _ _ _ W1). lia. }
      exists ((48 + v mod 10) :: ds), m', dv. rewrite E. split; [cbn [length]; do 2 f_equal; lia|].
      split; [cbn [length]; lia|]. split.
      { apply (written_app m m1 m' (p + pos) [48 + v mod 10] ds); [lia|done|]. cbn [length]. by rewrite Z.add_assoc in W. }
      split; [done|]. intros F HF. destruct F as [|F]; [lia|].
      assert (Printf.numeral (S (S F)) Printf.small_digits 10 v =
        Printf.numeral (S F) Printf.small_digits 10 (v / 10) ++ [Printf.dig Printf.small_digits (v mod 10)]) as ->.
      { cbn [Printf.numeral]. destruct (Z.ltb_spec v 10); [lia|]. done. }
      rewrite (Hn F) by lia. rewrite Hdig. done.
    + exists [], m, v. cbn [length]. split; [do 2 f_equal; lia|]. split; [lia|]. split; [done|]. split; [lia|].
      intros F _. cbn [Printf.numeral]. destruct (Z.ltb_spec v 10); [|lia]. cbn [rev]. by rewrite (proj2 (digit_char v ltac:(lia))).
Qed.

Lemma written_mem_ok m m' p l : mem_ok m → Forall is_byte l → written m m' p l → mem_ok m'.
Proof.
  unfold written. intros Hm Hl. revert m' p. induction Hl as [|b l Hb Hl IH]; intros m' p ->; [done|].
  cbn [list_inserts]. apply Forall_insert; [|done]. apply (IH _ (p `max` 0 + 1)).
  by replace (Z.to_nat (p `max` 0 + 1)) with (S (Z.to_nat p)) by lia.
Qed.

(** The swapping loop turns the first [L] bytes around. *)
Lemma itoa_swap_ok n : ∀ m p L i, mem_ok m → 0 <= p → 0 <= i → 2 * (i + Z.of_nat n) <= L <= 2 * (i + Z.of_nat n) + 1 →
  p + L <= Z.of_nat (length m) →
  ∃ m', itoa_swap n m p L i = Val m' ∧ length m' = length m ∧
    ∀ j, 0 <= j → m' !! Z.to_nat j =
      m !! Z.to_nat (if decide (p + i <= j < p + L - i) then 2 * p + L - 1 - j else j).
Proof.
  induction n as [|n IH]; intros m p L i Hok Hp Hi Hn Hl; cbn [itoa_swap].
  - exists m. split; [done|]. split; [done|]. intros j Hj. case_decide; [|done].
    do 2 f_equal. lia.
  - assert (i < L - 1 - i) as Hlt by lia.
    destruct (lookup_lt_is_Some_2 m (Z.to_nat (p + (L - 1 - i)))) as [t Ht]; [lia|].
    destruct (lookup_lt_is_Some_2 m (Z.to_nat (p + i))) as [x Hx]; [lia|].
    rewrite (load_ok m (p + (L - 1 - i)) t), (load_ok m (p + i) x) by (done || lia). cbn [mbind res_bind].
    pose proof (Forall_lookup_1 _ _ _ _ Hok Ht) as Ht'. pose proof (Forall_lookup_1 _ _ _ _ Hok Hx) as Hx'.
    cbn in Ht', Hx'. unfold store, zset. rewrite !wrap_small by lia.
    rewrite decide_True by lia. cbn [mbind res_bind]. rewrite decide_True by (rewrite length_insert; lia).
    cbn [mbind res_bind].
    set (m2 := <[Z.to_nat (p + i) := t]> (<[Z.to_nat (p + (L - 1 - i)) := x]> m)).
    destruct (IH m2 p L (i + 1)) as (m' & -> & Hlen & Hm').
    { by repeat apply Forall_insert. }
    1-4: unfold m2; rewrite ?length_insert; lia.
    exists m'. split; [done|]. split; [rewrite Hlen; unfold m2; by rewrite !length_insert|].
    assert (∀ j, 0 <= j → m2 !! Z.to_nat j =
      if decide (j = p + i) then Some t else if decide (j = p + (L - 1 - i)) then Some x else m !! Z.to_nat j) as Hm2.
    { intros j Hj. unfold m2. destruct (decide (j = p + i)) as [->|].
      - rewrite list_lookup_insert_eq; [done|rewrite length_insert; lia].
      - rewrite list_lookup_insert_ne by lia. destruct (decide (j = p + (L - 1 - i))) as [->|].
        + apply list_lookup_insert_eq. lia.
        + apply list_lookup_insert_ne. lia. }
    intros j Hj. rewrite Hm' by done. rewrite Hm2 by (case_decide; lia).
    destruct (decide (j = p + i)) as [->|].
    { rewrite (decide_False (P:=_ <= _ < _)) by lia. rewrite decide_True by done.
      rewrite decide_True by lia. rewrite <- Ht. do 2 f_equal. lia. }
    destruct (decide (j = p + (L - 1 - i))) as [->|].
    { rewrite (decide_False (P:=_ <= _ < _)) by lia. rewrite decide_False by lia. rewrite decide_True by done.
      rewrite decide_True by lia. rewrite <- Hx. do 2 f_equal. lia. }
    destruct (decide (p + (i + 1) <= j < p + L - (i + 1))).
    + rewrite !decide_False by lia. by rewrite decide_True by lia.
    + rewrite decide_False by lia. rewrite decide_False by lia. by rewrite decide_False by lia.
Qed.

Lemma rev_reverse {A} (l : list A) : reverse l = rev l.
Proof. unfold reverse. by rewrite rev_append_rev, app_nil_r. Qed.

Lemma at_mem_rev m m' p l e : at_mem m p (l ++ [e]) → length m' = length m →
  (∀ j, 0 <= j → m' !! Z.to_nat j = m !! Z.to_nat
     (if decide (p + 0 <= j < p + Z.of_nat (length l) - 0) then 2 * p + Z.of_nat (length l) - 1 - j else j)) →
  at_mem m' p (rev l ++ [e]).
Proof.
  intros [Hp Hm] _ Hj. split; [done|]. intros k b Hk. rewrite Hj by lia.
  destruct (decide (k < length l)%nat) as [Hlt|Hge].
  - rewrite decide_True by lia. rewrite lookup_app_l in Hk by (rewrite length_rev; lia).
    rewrite <- rev_reverse, reverse_lookup_Some in Hk. destruct Hk as [Hk _].
    replace (2 * p + Z.of_nat (length l) - 1 - (p + Z.of_nat k)) with (p + Z.of_nat (length l - S k)) by lia.
    apply Hm. by apply lookup_app_l_Some.
  - rewrite decide_False by lia. apply Hm. rewrite lookup_app_r in Hk |- * by (rewrite ?length_rev; lia).
    by rewrite length_rev in Hk.
Qed.

(** [itoa] of a number that is not negative writes its decimal digits. *)
Lemma itoa_ok m v p : mem_ok m → 0 <= p → p + 11 <= Z.of_nat (length m) → 0 <= v < 2 ^ 31 →
  ∃ m', itoa m v (Some p) 10 = Val (m', Some p) ∧
    at_mem m' p (Printf.numeral 64 Printf.small_digits 10 v ++ [0]).
Proof.
  intros Hok Hp Hl Hv. unfold itoa.
  destruct (itoa_digits_ok 9 v m p 0 (length m)) as (ds & m1 & dv & E & Hds & W1 & Hdv & Hn); try lia.
  rewrite E. cbn [mbind res_bind]. rewrite Z.add_0_r in W1. rewrite (proj1 (digit_char dv Hdv)).
  pose proof (written_length _ _ _ _ W1) as L1.
  destruct (store_written m1 (p + (0 + Z.of_nat (length ds))) (48 + dv)) as (m2 & -> & W2); [lia|lia|].
  cbn [mbind res_bind]. rewrite (wrap_small 32 (0 + Z.of_nat (length ds) + 1)) by lia.
  destruct (Z.ltb_spec v 0); [lia|]. cbn [mbind res_bind].
  pose proof (written_length _ _ _ _ W2) as L2.
  destruct (store_written m2 (p + (0 + Z.of_nat (length ds) + 1)) 0) as (m3 & -> & W3); [lia|lia|].
  cbn [mbind res_bind].
  pose proof (written_length _ _ _ _ W3) as L3.
  assert (written m m3 p ((ds ++ [48 + dv]) ++ [0])) as W.
  { apply (written_app m m2); [done|apply (written_app m m1); [done..|]; by rewrite Z.add_0_l in W2|].
    rewrite length_app. cbn [length]. by replace (Z.of_nat (length ds + 1)) with (0 + Z.of_nat (length ds) + 1) by lia. }
  assert (at_mem m3 p ((ds ++ [48 + dv]) ++ [0])) as Hat.
  { apply (written_at m); [done| |done]. rewrite !length_app. cbn [length]. lia. }
  rewrite (Hn 63%nat) by lia.
  replace ((48 + dv) :: rev ds) with (rev (ds ++ [48 + dv])) by (by rewrite rev_app_distr).
  assert (Forall digit (ds ++ [48 + dv])) as Hdig.
  { destruct (Printf.numeral_value 64 v) as [Hd _]; [lia|]. rewrite (Hn 63%nat) in Hd by lia.
    apply Forall_cons in Hd as [? Hd]. apply Forall_app. split; [|by constructor].
    by rewrite <- rev_reverse, Forall_reverse in Hd. }
  destruct (Z.ltb_spec 1 (0 + Z.of_nat (length ds) + 1)).
  - assert (cstr m3 p (ds ++ [48 + dv])) as Hc.
    { split; [done|]. eapply Forall_impl; [exact Hdig|]. unfold digit. cbn. lia. }
    rewrite (strlen_cstr m3 p _ Hc). cbn [mbind res_bind]. rewrite (wrap_small 32) by (rewrite length_app; cbn [length]; lia).
    destruct (itoa_swap_ok (Z.to_nat (Z.of_nat (length (ds ++ [48 + dv])) / 2)) m3 p (Z.of_nat (length (ds ++ [48 + dv]))) 0)
      as (m4 & E4 & L4 & Hs); [|done|done|Z.to_euclidean_division_equations; lia|rewrite length_app; cbn [length]; lia|].
    { eapply (written_mem_ok m m3); [done| |exact W]. apply Forall_app. split; [|by repeat constructor].
      eapply Forall_impl; [exact Hdig|]. unfold digit, is_byte. lia. }
    rewrite E4. cbn [mbind res_bind]. exists m4. split; [done|]. by eapply at_mem_rev.
  - destruct ds; [|cbn [length] in *; lia]. exists m3. done.
Qed.

(** ** Properties *)

(** C39: the word-wise loops of the kernel's [memcpy] and [memset] do what the
    plain loops over bytes do, in memory, result and failure.  For [memcpy] the
    destination may overlap the source unless it starts within the seven bytes
    after the source's start. *)
Theorem kernel_memcpy_bytewise m d s c n : mem_ok m → 0 <= n → is_byte c →
  (d <= s ∨ s + 8 <= d → memcpy m d s n = (m ← copy_forward m d s (Z.to_nat n); Val (m, d))) ∧
  memset m d c n = (m ← set_bytes m d c (Z.to_nat n); Val (m, d)).
Proof.
  intros Hm Hn Hc. split; [intros Hd; by apply memcpy_ok|by apply memset_bytes].
Qed.

(** [memmove] leaves at the destination the bytes the source held before,
    however the two ranges overlap, and changes nothing else. *)
Theorem memmove_moves m d s n : mem_ok m → 0 <= d → 0 <= s → 0 <= n →
  d + n <= Z.of_nat (length m) → s + n <= Z.of_nat (length m) →
  ∃ m', memmove m d s n = Val (m', d) ∧ written m m' d (bytes m s n).
Proof. exact (memmove_ok m d s n). Qed.

(** What the kernel's [itoa] writes in base 10 for a number that is not
    negative is a string that libc's [atoi] reads back as this number. *)
Theorem itoa_atoi m v p : mem_ok m → 0 <= p → p + 11 <= Z.of_nat (length m) → 0 <= v < 2 ^ 31 →
  ∃ m', itoa m v (Some p) 10 = Val (m', Some p) ∧ atoi m' p = Val v.
Proof.
  intros Hm Hp Hl Hv. destruct (itoa_ok m v p Hm Hp Hl Hv) as (m' & E & Hat). exists m'. split; [done|].
  destruct (Printf.numeral_value 64 v) as [Hd Hval]; [lia|].
  unfold atoi. rewrite (parse_int_ok 32 m' p NoSign (Printf.numeral 64 Printf.small_digits 10 v) 0);
    [|lia|exact Hat|apply Printf.numeral_nonempty|exact Hd|unfold is_byte; lia|unfold digit; lia].
  rewrite Hval, decide_False by done. destruct (Z.ltb_spec v (2 ^ (32 - 1))); [done|lia].
Qed.

Definition demo_block : mem := [0; 97; 98; 99; 100; 101; 102; 103; 104; 105; 106; 0].

Lemma demo_block_ok : mem_ok demo_block.
Proof. apply Forall_is_byte. reflexivity. Qed.

Lemma kernel_memcpy_bytewise_witness : mem_ok demo_block ∧
  memcpy demo_block 1 3 9 = (m ← copy_forward demo_block 1 3 9; Val (m, 1)) ∧
  memcpy demo_block 1 3 9 = Val ([0; 99; 100; 101; 102; 103; 104; 105; 106; 0; 106; 0], 1) ∧
  memset demo_block 1 65 9 = (m ← set_bytes demo_block 1 65 9; Val (m, 1)).
Proof.
  split; [exact demo_block_ok|].
  destruct (kernel_memcpy_bytewise demo_block 1 3 65 9 demo_block_ok) as [H1 H2]; [lia|unfold is_byte; lia|].
  split; [apply H1; left; lia|]. split; [vm_compute; reflexivity|exact H2].
Defined.

Lemma memmove_moves_witness : ∃ m', memmove demo_block 3 1 8 = Val (m', 3) ∧
  written demo_block m' 3 [97; 98; 99; 100; 101; 102; 103; 104].
Proof.
  apply (memmove_moves demo_block 3 1 8 demo_block_ok); [lia|lia|lia|vm_compute; discriminate|vm_compute; discriminate].
Defined.

Lemma itoa_atoi_witness : ∃ m', itoa demo_block 2047 (Some 1) 10 = Val (m', Some 1) ∧ atoi m' 1 = Val 2047.
Proof. apply (itoa_atoi demo_block 2047 1 demo_block_ok); [lia|vm_compute; discriminate|lia]. Defined.

(** ** Where the code does not do what it means to do *)

(** [bcopy] to a lower address moves the block one byte off: the byte at the
    destination stays, the byte after its end is overwritten. *)
Lemma bcopy_off_by_one : bcopy [1; 2; 3; 4; 5; 6] 3 0 2 = Val [1; 5; 6; 4; 5; 6].
Proof. reflexivity. Qed.

(** [bcopy] to a higher address copies forward and so repeats the start of an
    overlapping block. *)
Lemma bcopy_overlap : bcopy [1; 2; 3; 4; 5; 6] 0 1 4 = Val [1; 1; 1; 1; 1; 6].
Proof. reflexivity. Qed.

(** [itoa] of -7 writes "-?". *)
Lemma itoa_negative : itoa (replicate 4 0) (-7) (Some 1) 10 = Val ([0; 45; 63; 0], Some 1).
Proof. vm_compute. reflexivity. Qed.

(** [strlcat] of "b" to "a" reports 1, not the length 2 of the result. *)
Lemma strlcat_length : strlcat [0; 97; 0; 0; 98; 0] 1 4 3 = Val ([0; 97; 98; 0; 98; 0], 1).
Proof. vm_compute. reflexivity. Qed.

(** [strrchr] on the empty string finds characters in front of it. *)
Lemma strrchr_before : strrchr [97; 98; 0] 2 97 = Val (Some 0).
Proof. vm_compute. reflexivity. Qed.

(** [strcat] panics on all strings. *)
Lemma strcat_panics m dest append s : cstr m dest s → strcat m dest append = Err EAssert.
Proof. intros Hs. unfold strcat. by rewrite (strlen_cstr _ _ _ Hs). Qed.

(** [strtok] at the end of the string returns the rest again: a string of
    delimiters only is its own token. *)
Lemma strtok_only_delimiters : strtok [44; 0; 44; 0] None (Some 0) (Some 2) = Val ([0; 0; 44; 0], Some 1, Some 0).
Proof. vm_compute. reflexivity. Qed.

End Kstring.
