(* ===== verification/Threads.v ===== *)
(** * UserProcess: the threads of a process

    Models the thread life cycle of [common/source/kernel/UserProcess.cpp]
    ([createThread], [exitThread], [joinThread], [cancelThread],
    [onThreadDestroyed], [joinDeadlock], [allocNextFreeTID], the stack placement
    [ASLRStackManager]) and the part of [UserThread.cpp] it uses.  An operation's
    critical section under [waiters_lock_] (with [thread_list_lock_] nested in
    it) is one step.  A join that has to wait is two steps: going to sleep on
    the [Condition], and resuming once the mutex is held again after the signal;
    steps of other threads may come between the signal and the resumption.  A
    thread's id stands for its [UserThread] object. *)

From stdpp Require Import sorting relations.
From S2P Require Import Prelude.

Module Threads.

(** ** Data *)

Inductive ThreadState := Running | Sleeping | ToBeDestroyed.

#[export] Instance ThreadState_eq_dec : EqDecision ThreadState.
Proof. solve_decision. Defined.

Record UserThread := mkThread {
  state_ : ThreadState;
  exited_ : bool;
  cancel_req_ : bool;
  cancelable_ : bool;
  stack_start_addr_ : Z;
  stack_end_addr_ : Z;
}.

(** [waiter_] and whether it is still on the waiters list of [cond_]. *)
Record WaitingInfo := mkWait {
  waiter_ : Z;
  cond_waiting : bool;
}.

Record UserStackInfo := mkStack {
  start_address_ : Z;
  end_address_ : Z;
}.

(** The fields of [UserProcess] the thread operations use. *)
Record UserProcess := mkProc {
  next_tid_ : Z;
  thread_list_ : gmap Z UserThread;
  user_stack_list_ : gmap Z UserStackInfo;
  waiting_list_ : gmap Z WaitingInfo;
  ret_values_ : gmap Z Z;
  called_exit_ : bool;
}.

Definition set_threads (p : UserProcess) (l : gmap Z UserThread) : UserProcess :=
  mkProc (next_tid_ p) l (user_stack_list_ p) (waiting_list_ p) (ret_values_ p) (called_exit_ p).
Definition set_next (p : UserProcess) (n : Z) : UserProcess :=
  mkProc n (thread_list_ p) (user_stack_list_ p) (waiting_list_ p) (ret_values_ p) (called_exit_ p).
Definition set_stacks (p : UserProcess) (l : gmap Z UserStackInfo) : UserProcess :=
  mkProc (next_tid_ p) (thread_list_ p) l (waiting_list_ p) (ret_values_ p) (called_exit_ p).
Definition set_join (p : UserProcess) (w : gmap Z WaitingInfo) (r : gmap Z Z) : UserProcess :=
  mkProc (next_tid_ p) (thread_list_ p) (user_stack_list_ p) w r (called_exit_ p).

Definition set_state (t : UserThread) (s : ThreadState) : UserThread :=
  mkThread s (exited_ t) (cancel_req_ t) (cancelable_ t) (stack_start_addr_ t) (stack_end_addr_ t).

(** ** Stack placement *)

Definition PAGE_SIZE : Z := 4096.
Definition STACK_SPACE_START : Z := 0x7fffffffdfff.
Definition STACK_SPACE_END : Z := 0x2AAAAAAAAAAA.
Definition STACK_MAX_SIZE : Z := 0xA000.

(** The pseudo random number computed from the time-stamp counter [tsc]. *)
Definition mersenneTwister (tsc : Z) : Z :=
  Nat.iter 10 (λ x, u64 (u64 (378 * x) + 2310) mod STACK_SPACE_START) tsc.

(** The test against one existing stack. *)
Definition stack_conflict (new_start new_end : Z) (s2check : UserStackInfo) : bool :=
  (new_start <? u64 (start_address_ s2check + PAGE_SIZE)) &&
  (u64 (end_address_ s2check - PAGE_SIZE) <? new_start) &&
  (new_end <? u64 (start_address_ s2check + PAGE_SIZE)) &&
  (u64 (end_address_ s2check - PAGE_SIZE) <? new_end).

(** The candidate start address drawn from one reading of the counter. *)
Definition stack_candidate (tsc : Z) : Z :=
  Z.shiftl (Z.shiftr (mersenneTwister tsc mod STACK_SPACE_START) 12) 12.

(** The loop of [ASLRStackManager]; [tscs] are the successive readings of the
    time-stamp counter. *)
Fixpoint stack_loop (tscs : list Z) (stacks : gmap Z UserStackInfo) : res (Z * Z) :=
  match tscs with
  | [] => Err EFuel
  | tsc :: tscs =>
      let new_start := stack_candidate tsc in
      if new_start <? STACK_SPACE_END + STACK_MAX_SIZE then stack_loop tscs stacks
      else
        let new_end := new_start - STACK_MAX_SIZE in
        if existsb (λ e, stack_conflict new_start new_end e.2) (map_to_list stacks)
        then stack_loop tscs stacks
        else Val (new_start, new_end)
  end.

Definition ASLRStackManager (p : UserProcess) (tid : Z) (tscs : list Z) : res (UserProcess * Z) :=
  '(new_start, new_end) ← stack_loop tscs (user_stack_list_ p);
  let p := set_stacks p (<[tid := mkStack new_start new_end]> (user_stack_list_ p)) in
  _ ← kassert (new_start <=? STACK_SPACE_START);
  _ ← kassert (STACK_SPACE_END <=? new_end);
  Val (p, new_start).

(** The thread whose stack range holds the address, if any; the map is visited
    in the order of the ids. *)
Definition within_stack (address : Z) (t : UserThread) : bool :=
  (address <=? stack_start_addr_ t) && (u64 (stack_start_addr_ t - STACK_MAX_SIZE) <? address).

Definition addrIsWithinAnyUserStack (p : UserProcess) (address : Z) : option Z :=
  if (STACK_SPACE_START <? address) || (address <? STACK_SPACE_END) then None
  else List.find (λ tid, match thread_list_ p !! tid with
                         | Some t => within_stack address t | None => false end)
         (merge_sort Z.le (map_to_list (thread_list_ p)).*1).

(** ** Creating threads *)

Definition isThreadTidInThreadList (p : UserProcess) (tid : Z) : bool :=
  bool_decide (is_Some (thread_list_ p !! tid)).

Fixpoint tid_loop (fuel : nat) (p : UserProcess) (tid : Z) : res Z :=
  if isThreadTidInThreadList p tid then
    match fuel with
    | O => Err EFuel
    | S fuel => tid_loop fuel p (u64 (tid + 1))
    end
  else Val tid.

(** [size_t allocNextFreeTID()]; each turn of the loop skips a thread. *)
Definition allocNextFreeTID (p : UserProcess) : res (UserProcess * Z) :=
  tid ← tid_loop (size (thread_list_ p)) p (next_tid_ p);
  Val (set_next p (u64 (tid + 1)), tid).

(** The new [UserThread] object of [internalAddNewThread] with [on_fork] false. *)
Definition internalAddNewThread (p : UserProcess) (tscs : list Z) : res (UserProcess * option Z) :=
  if called_exit_ p then Val (p, None)
  else
    '(p, tid) ← allocNextFreeTID p;
    '(p, start) ← ASLRStackManager p tid tscs;
    let t := mkThread Running false false true start (start - STACK_MAX_SIZE) in
    Val (set_threads p (<[tid := t]> (thread_list_ p)), Some tid).

(** The return value and, on success, the id stored through [thread]. *)
Definition createThread (p : UserProcess) (tscs : list Z) : res (UserProcess * Z * option Z) :=
  '(p, tid) ← internalAddNewThread p tscs;
  match tid with
  | None => Val (p, u64 (-1), None)
  | Some tid => Val (p, 0, Some tid)
  end.

(** ** Exiting *)

(** The critical section of [exitThread] run by thread [tid]: [true] when the
    thread goes on to [UserThread::exit]. *)
Definition exitThread (p : UserProcess) (tid retval : Z) : res (UserProcess * bool) :=
  match thread_list_ p !! tid with
  | None => Err EUndef
  | Some t =>
      if bool_decide (is_Some (ret_values_ p !! tid)) || exited_ t then Val (p, false)
      else
        let ret := <[tid := retval]> (ret_values_ p) in
        let t := mkThread (state_ t) true (cancel_req_ t) (cancelable_ t)
                   (stack_start_addr_ t) (stack_end_addr_ t) in
        let threads := <[tid := t]> (thread_list_ p) in
        match waiting_list_ p !! tid with
        | Some w =>
            (* signal: the waiter leaves the list and is set running *)
            let threads := if cond_waiting w then alter (λ u, set_state u Running) (waiter_ w) threads
                           else threads in
            let waiting := <[tid := mkWait (waiter_ w) false]> (waiting_list_ p) in
            Val (set_join (set_threads p threads) waiting ret, true)
        | None => Val (set_join (set_threads p threads) (waiting_list_ p) ret, true)
        end
  end.

(** [void UserThread::exit(void* val)] *)
Definition exit (p : UserProcess) (tid : Z) : res UserProcess :=
  match thread_list_ p !! tid with
  | None => Err EUndef
  | Some t =>
      _ ← kassert (bool_decide (state_ t ≠ ToBeDestroyed));
      Val (set_threads p (<[tid := set_state t ToBeDestroyed]> (thread_list_ p)))
  end.

(** [onThreadDestroyed]; [true] when the process object is deleted. *)
Definition eraseThreadInformation (p : UserProcess) (tid : Z) : UserProcess :=
  set_stacks (set_threads p (delete tid (thread_list_ p))) (delete tid (user_stack_list_ p)).

Definition onThreadDestroyed (p : UserProcess) (id : Z) : res (UserProcess * bool) :=
  if bool_decide (thread_list_ p = ∅) then Val (p, true)
  else
    _ ← kassert (isThreadTidInThreadList p id);
    let p := eraseThreadInformation p id in
    Val (p, bool_decide (thread_list_ p = ∅)).

(** ** Joining *)

(** Does [target] wait, directly or through others, for [caller]?  Each turn
    follows one entry of [waiting_list_]. *)
Fixpoint deadlock_loop (fuel : nat) (p : UserProcess) (nextWaiter target : Z) : res bool :=
  match waiting_list_ p !! nextWaiter with
  | Some w =>
      if waiter_ w =? target then Val true
      else match fuel with
           | O => Err EFuel
           | S fuel => deadlock_loop fuel p (waiter_ w) target
           end
  | None => Val false
  end.

Definition joinDeadlock (p : UserProcess) (caller target : Z) : res bool :=
  deadlock_loop (size (waiting_list_ p)) p caller target.

Inductive join_result :=
| JoinReturns (code : Z) (retval : option Z)
| JoinSleeps.

(** [joinThread] up to [cond->wait()]. *)
Definition joinThread (p : UserProcess) (caller tid : Z) : res (UserProcess * join_result) :=
  if caller =? tid then Val (p, JoinReturns (u64 (-1)) None)
  else
    match ret_values_ p !! tid with
    | Some rv => Val (set_join p (waiting_list_ p) (delete tid (ret_values_ p)), JoinReturns 0 (Some rv))
    | None =>
        match thread_list_ p !! tid with
        | None => Val (p, JoinReturns (u64 (-1)) None)
        | Some target =>
            if exited_ target then Val (p, JoinReturns (u64 (-1)) None)
            else if bool_decide (is_Some (waiting_list_ p !! tid))
            then Val (p, JoinReturns (u64 (-1)) None)
            else
              dead ← joinDeadlock p caller tid;
              if dead : bool then Val (p, JoinReturns (u64 (-1)) None)
              else
                let p := set_join p (<[tid := mkWait caller true]> (waiting_list_ p)) (ret_values_ p) in
                Val (set_threads p (alter (λ t, set_state t Sleeping) caller (thread_list_ p)),
                     JoinSleeps)
        end
    end.

(** The rest of [joinThread], after the wait. *)
Definition joinResume (p : UserProcess) (tid : Z) : res (UserProcess * Z) :=
  _ ← kassert (bool_decide (is_Some (waiting_list_ p !! tid)));
  _ ← kassert (bool_decide (is_Some (ret_values_ p !! tid)));
  match ret_values_ p !! tid with
  | Some rv => Val (set_join p (delete tid (waiting_list_ p)) (delete tid (ret_values_ p)), rv)
  | None => Err EUndef
  end.

(** ** Cancelling *)

Definition isCancelableState (t : UserThread) : bool :=
  bool_decide (state_ t = Sleeping) || bool_decide (state_ t = Running).
Definition shouldCancel (t : UserThread) : bool := cancelable_ t && cancel_req_ t.
Definition receiveCancelRequest (t : UserThread) : UserThread :=
  mkThread (state_ t) (exited_ t) true (cancelable_ t) (stack_start_addr_ t) (stack_end_addr_ t).
Definition setCancelled (t : UserThread) : UserThread :=
  mkThread (state_ t) (exited_ t) (cancel_req_ t) false (stack_start_addr_ t) (stack_end_addr_ t).

Definition cancelThread (p : UserProcess) (id : Z) : UserProcess * Z :=
  match thread_list_ p !! id with
  | None => (p, u64 (-1))
  | Some target =>
      if negb (isCancelableState target) then (p, u64 (-2))
      else (set_threads p (<[id := receiveCancelRequest target]> (thread_list_ p)), 0)
  end.

(** ** The process as a transition system *)

(** The process, the join each thread is inside of, the value each thread gave
    to [exitThread], and the values joins have returned, with their thread. *)
Record sys := mkSys {
  proc : UserProcess;
  joining : gmap Z Z;
  sent : gmap Z Z;
  got : list (Z * Z);
}.

(** Thread [t] can make a system call. *)
Definition ready (s : sys) (t : Z) : Prop :=
  joining s !! t = None ∧
  ∃ u, thread_list_ (proc s) !! t = Some u ∧ state_ u = Running ∧ exited_ u = false.

Definition deliver (tid : Z) (rv : option Z) : list (Z * Z) :=
  match rv with Some v => [(tid, v)] | None => [] end.

Inductive step : sys → sys → Prop :=
| st_create p j e g p' tscs code tid :
    next_tid_ p + 1 < 2 ^ 64 → createThread p tscs = Val (p', code, tid) →
    step (mkSys p j e g) (mkSys p' j e g)
| st_join p j e g p' caller tid code rv :
    ready (mkSys p j e g) caller → joinThread p caller tid = Val (p', JoinReturns code rv) →
    step (mkSys p j e g) (mkSys p' j e (g ++ deliver tid rv))
| st_sleep p j e g p' caller tid :
    ready (mkSys p j e g) caller → joinThread p caller tid = Val (p', JoinSleeps) →
    step (mkSys p j e g) (mkSys p' (<[caller := tid]> j) e g)
| st_resume p j e g p' caller tid u rv :
    j !! caller = Some tid → thread_list_ p !! caller = Some u → state_ u = Running →
    joinResume p tid = Val (p', rv) →
    step (mkSys p j e g) (mkSys p' (delete caller j) e (g ++ [(tid, rv)]))
| st_exit p j e g p' tid rv :
    ready (mkSys p j e g) tid → exitThread p tid rv = Val (p', true) →
    step (mkSys p j e g) (mkSys p' j (<[tid := rv]> e) g)
| st_finish p j e g p' tid u :
    thread_list_ p !! tid = Some u → exited_ u = true → exit p tid = Val p' →
    step (mkSys p j e g) (mkSys p' j e g)
| st_destroy p j e g p' tid u b :
    thread_list_ p !! tid = Some u → state_ u = ToBeDestroyed →
    onThreadDestroyed p tid = Val (p', b) →
    step (mkSys p j e g) (mkSys p' j e g)
| st_cancel p j e g p' id code :
    cancelThread p id = (p', code) →
    step (mkSys p j e g) (mkSys p' j e g)
| st_cancelled p j e g tid u :
    ready (mkSys p j e g) tid → thread_list_ p !! tid = Some u → shouldCancel u = true →
    step (mkSys p j e g) (mkSys (set_threads p (<[tid := setCancelled u]> (thread_list_ p))) j e g).

(** A process that has just been given its first thread. *)
Definition empty_proc : UserProcess := mkProc 0 ∅ ∅ ∅ ∅ false.
Definition booted (s : sys) : Prop :=
  ∃ p tscs, createThread empty_proc tscs = Val (p, 0, Some 0) ∧ s = mkSys p ∅ ∅ [].

Definition reachable (s : sys) : Prop := ∃ s0, booted s0 ∧ rtc step s0 s.

(** [c] is inside a join on [t]. *)
Definition waits (j : gmap Z Z) (c t : Z) : Prop := j !! c = Some t.
Definition acyclic (j : gmap Z Z) : Prop := ∀ c, ¬ tc (waits j) c c.

(** ** Graphs of waiting threads *)

Lemma tc_add {A} (R : relation A) a b x y :
  tc (λ u v, R u v ∨ (u = a ∧ v = b)) x y → tc R x y ∨ (rtc R x a ∧ rtc R b y).
Proof.
  induction 1 as [x y [H|[-> ->]]|x y z [H|[-> ->]] Hyz IH].
  - left. by constructor.
  - right. by split.
  - destruct IH as [IH|[IH1 IH2]]; [left; by eapply tc_l|right; split; [by eapply rtc_l|done]].
  - right. split; [done|]. destruct IH as [IH|[_ IH]]; [by apply tc_rtc|done].
Qed.

Lemma acyclic_insert j c t : acyclic j → j !! c = None → c ≠ t → ¬ tc (waits j) t c →
  acyclic (<[c := t]> j).
Proof.
  intros Ha Hc Hne Ht x Hx.
  assert (tc (λ u v, waits j u v ∨ (u = c ∧ v = t)) x x) as Hx'.
  { revert Hx. generalize x at 2 4. intros y Hx. induction Hx as [x y H|x y z H Hyz IH].
    - constructor. unfold waits in *. destruct (decide (x = c)) as [->|].
      + rewrite lookup_insert_eq in H. injection H as <-. by right.
      + rewrite lookup_insert_ne in H by done. by left.
    - eapply tc_l; [|exact IH]. unfold waits in *. destruct (decide (x = c)) as [->|].
      + rewrite lookup_insert_eq in H. injection H as <-. by right.
      + rewrite lookup_insert_ne in H by done. by left. }
  apply tc_add in Hx' as [H|[H1 H2]]; [by apply (Ha x)|].
  assert (rtc (waits j) t c) as Hr by (by etrans).
  apply rtc_tc in Hr as [->|Hr]; [done|by apply Ht].
Qed.

Lemma acyclic_sub (j j' : gmap Z Z) : (∀ c t, j' !! c = Some t → j !! c = Some t) →
  acyclic j → acyclic j'.
Proof.
  intros Hs Ha c Hc. apply (Ha c). revert Hc. generalize c at 2 4. intros y Hc.
  induction Hc as [x y H|x y z H Hyz IH]; [constructor; by apply Hs|].
  eapply tc_l; [apply Hs, H|done].
Qed.

Lemma tc_r_inv {A} (R : relation A) x z : tc R x z → ∃ y, rtc R x y ∧ R y z.
Proof.
  induction 1 as [x y H|x y z H Hyz (w & Hw & Hwz)]; [by exists x|].
  exists w. split; [by eapply rtc_l|done].
Qed.

(** ** The invariant *)

Record inv (s : sys) : Prop := {
  (* a join in progress has its entry, and its thread sleeps until the signal *)
  inv_join c t : joining s !! c = Some t → ∃ b u,
    waiting_list_ (proc s) !! t = Some (mkWait c b) ∧
    thread_list_ (proc s) !! c = Some u ∧ exited_ u = false ∧
    state_ u = (if b : bool then Sleeping else Running);
  inv_wait t w : waiting_list_ (proc s) !! t = Some w → joining s !! waiter_ w = Some t;
  (* the thread waited for runs until it signals *)
  inv_target t w : waiting_list_ (proc s) !! t = Some w →
    if cond_waiting w then ∃ u, thread_list_ (proc s) !! t = Some u ∧ exited_ u = false
    else is_Some (sent s !! t);
  inv_thread t u : thread_list_ (proc s) !! t = Some u →
    0 <= t < next_tid_ (proc s) ∧ (exited_ u = true ↔ is_Some (sent s !! t)) ∧
    (exited_ u = false → state_ u = Running ∨ state_ u = Sleeping ∧ is_Some (joining s !! t));
  inv_sent t : is_Some (sent s !! t) → 0 <= t < next_tid_ (proc s);
  (* a value is stored from the exit to the first join that takes it *)
  inv_ret t : ret_values_ (proc s) !! t = if decide (t ∈ (got s).*1) then None else sent s !! t;
  inv_got t v : (t, v) ∈ got s → sent s !! t = Some v;
  inv_once : NoDup (got s).*1;
  inv_acyclic : acyclic (joining s);
  inv_next : 0 <= next_tid_ (proc s);
}.

Lemma ready_alt s c : inv s → joining s !! c = None →
  (∃ u, thread_list_ (proc s) !! c = Some u ∧ exited_ u = false) → ready s c.
Proof.
  intros Hi Hj (u & Hu & He). split; [done|]. exists u.
  destruct (inv_thread s Hi c u Hu) as (_ & _ & Hst).
  destruct (Hst He) as [?|[_ [t Ht]]]; [done|congruence].
Qed.

(** *** joinDeadlock *)

Lemma waiter_waits s t w : inv s → waiting_list_ (proc s) !! t = Some w →
  waits (joining s) (waiter_ w) t.
Proof. intros Hi Hw. by apply (inv_wait s Hi). Qed.

(** Only the waiter recorded for a thread waits for it. *)
Lemma waits_waiter s c t : inv s → waits (joining s) c t →
  ∃ w, waiting_list_ (proc s) !! t = Some w ∧ waiter_ w = c.
Proof.
  intros Hi H. destruct (inv_join s Hi c t H) as (b & u & Hw & _). by eexists.
Qed.

Lemma deadlock_loop_ok s fuel x target vs : inv s →
  NoDup vs → (∀ v, v ∈ vs → is_Some (waiting_list_ (proc s) !! v) ∧ tc (waits (joining s)) x v) →
  (size (waiting_list_ (proc s)) <= length vs + fuel)%nat →
  ∃ b, deadlock_loop fuel (proc s) x target = Val b ∧
       (b = true ↔ tc (waits (joining s)) target x).
Proof.
  intros Hi. revert x vs. induction fuel as [|fuel IH]; intros x vs Hnd Hvs Hsz; cbn [deadlock_loop];
    destruct (waiting_list_ (proc s) !! x) as [w|] eqn:Hw; cycle 1.
  1, 3: exists false; split; [done|]; split; [done|]; intros Ht%tc_r_inv;
    destruct Ht as (y & _ & (w & ? & _)%(waits_waiter s)); congruence.
  all: assert (x ∉ vs) as Hx by (intros Hx; destruct (Hvs x Hx) as [_ Hc]; by apply (inv_acyclic s Hi x)).
  - pose proof (waiter_waits s x w Hi Hw) as Hwx.
    destruct (Z.eqb_spec (waiter_ w) target) as [Ht|Ht].
    + exists true. split; [done|]. split; [|done]. intros _. rewrite <- Ht. by constructor.
    + destruct (IH (waiter_ w) (x :: vs)) as (b & -> & Hb).
      * by constructor.
      * intros v [->|Hv]%elem_of_cons; [split; [by eexists|by constructor]|].
        destruct (Hvs v Hv). split; [done|]. by eapply tc_l.
      * cbn [length]. lia.
      * exists b. split; [done|]. rewrite Hb. split; [intros ?; by eapply tc_r|].
        intros Hc%tc_r_inv. destruct Hc as (y & Hy & Hyx).
        destruct (waits_waiter s y x Hi Hyx) as (w' & Hw' & <-). rewrite Hw in Hw'.
        injection Hw' as <-. apply rtc_tc in Hy as [->|Hy]; done.
  - exfalso. assert (length (x :: vs) <= size (waiting_list_ (proc s)))%nat as Hl.
    { apply keys_size; [by constructor|].
      intros k [->|Hk]%elem_of_cons; [by eexists|by apply Hvs]. }
    cbn [length] in Hl. lia.
Qed.

Lemma joinDeadlock_ok s caller target : inv s →
  ∃ b, joinDeadlock (proc s) caller target = Val b ∧
       (b = true ↔ tc (waits (joining s)) target caller).
Proof.
  intros Hi. apply (deadlock_loop_ok s _ caller target []); [done|by constructor| |cbn [length]; unfold joinDeadlock; lia].
  intros v Hv. by apply elem_of_nil in Hv.
Qed.

(** ** Every step keeps the invariant *)

Lemma createThread_shape s tscs p' code tid : inv s → next_tid_ (proc s) + 1 < 2 ^ 64 →
  createThread (proc s) tscs = Val (p', code, tid) →
  (p' = proc s ∧ code = u64 (-1) ∧ tid = None) ∨
  ∃ t st, state_ t = Running ∧ exited_ t = false ∧ code = 0 ∧ tid = Some (next_tid_ (proc s)) ∧
    p' = mkProc (next_tid_ (proc s) + 1) (<[next_tid_ (proc s) := t]> (thread_list_ (proc s)))
           st (waiting_list_ (proc s)) (ret_values_ (proc s)) (called_exit_ (proc s)).
Proof.
  intros Hi Hn E. pose proof (inv_next s Hi) as Hn0.
  unfold createThread, internalAddNewThread in E.
  destruct (called_exit_ (proc s)) eqn:Hc; cbn [mbind res_bind] in E.
  { left. by injection E as <- <- <-. }
  assert (isThreadTidInThreadList (proc s) (next_tid_ (proc s)) = false) as Hfresh.
  { apply bool_decide_eq_false. intros [u Hu]. apply (inv_thread s Hi) in Hu as [? _]. lia. }
  assert (allocNextFreeTID (proc s) =
          Val (set_next (proc s) (next_tid_ (proc s) + 1), next_tid_ (proc s))) as Ha.
  { unfold allocNextFreeTID. destruct (size (thread_list_ (proc s))); cbn [tid_loop];
      rewrite Hfresh; cbn [mbind res_bind]; by rewrite wrap_small by lia. }
  rewrite Ha in E. cbn [mbind res_bind] in E. unfold ASLRStackManager in E.
  destruct (stack_loop tscs _) as [[st en]|]; [|done]. cbn [mbind res_bind] in E.
  destruct (st <=? STACK_SPACE_START); cbn [kassert mbind res_bind] in E; [|done].
  destruct (STACK_SPACE_END <=? en); cbn [kassert mbind res_bind] in E; [|done].
  injection E as <- <- <-. right. exists (mkThread Running false false true st (st - STACK_MAX_SIZE)).
  eexists _. do 4 (split; [done|]).
  unfold set_threads, set_stacks, set_next. cbn. by rewrite Hc.
Qed.

Lemma inv_create s tscs p' code tid : inv s → next_tid_ (proc s) + 1 < 2 ^ 64 →
  createThread (proc s) tscs = Val (p', code, tid) → inv (mkSys p' (joining s) (sent s) (got s)).
Proof.
  intros Hi Hn E. destruct (createThread_shape s tscs p' code tid Hi Hn E)
    as [(-> & _)|(t & st & Hst & Hex & _ & _ & ->)]; [by destruct s|].
  set (n := next_tid_ (proc s)) in *.
  assert (∀ c u, thread_list_ (proc s) !! c = Some u → c ≠ n) as Hne.
  { intros c u Hu ->. apply (inv_thread s Hi) in Hu as [? _]. unfold n in *. lia. }
  destruct Hi as [H1 H2 H3 H4 H5 H6 H7 H8 H9 H10]. split; cbn; try done.
  - intros c t' Hc. destruct (H1 c t' Hc) as (b & u & ? & Hu & ? & ?).
    exists b, u. rewrite lookup_insert_ne by (symmetry; by eapply Hne). done.
  - intros t' w Hw. specialize (H3 t' w Hw). destruct (cond_waiting w); [|done].
    destruct H3 as (u & Hu & ?). exists u. rewrite lookup_insert_ne; [done|]. symmetry. by eapply Hne.
  - intros t' u Hu. destruct (decide (t' = n)) as [->|Hn'].
    + rewrite lookup_insert_eq in Hu. injection Hu as <-. split; [fold n in H10; lia|].
      split; [|intros _; by left]. rewrite Hex. split; [done|].
      intros Hs. apply H5 in Hs. unfold n in Hs. lia.
    + rewrite lookup_insert_ne in Hu by done. destruct (H4 t' u Hu) as (? & ? & ?).
      split; [unfold n; lia|done].
  - intros t' Ht. apply H5 in Ht. unfold n. lia.
  - fold n in H10. lia.
Qed.

(** Only the fields of [UserThread] that the invariant does not look at change. *)
Lemma inv_same s p' : inv s →
  next_tid_ p' = next_tid_ (proc s) → waiting_list_ p' = waiting_list_ (proc s) →
  ret_values_ p' = ret_values_ (proc s) →
  (∀ t u', thread_list_ p' !! t = Some u' → ∃ u, thread_list_ (proc s) !! t = Some u ∧
     exited_ u' = exited_ u ∧ (exited_ u = false → state_ u' = state_ u)) →
  (∀ t u, thread_list_ (proc s) !! t = Some u → exited_ u = false →
     is_Some (thread_list_ p' !! t)) →
  inv (mkSys p' (joining s) (sent s) (got s)).
Proof.
  intros [H1 H2 H3 H4 H5 H6 H7 H8 H9 H10] En Ew Er Hb Hf.
  split; cbn; rewrite ?En, ?Ew, ?Er; try done.
  - intros c t Hc. destruct (H1 c t Hc) as (b & u & ? & Hu & Hex & Hst).
    destruct (Hf c u Hu Hex) as [u' Hu']. destruct (Hb c u' Hu') as (u1 & Hu1 & Ee & Es).
    rewrite Hu in Hu1. injection Hu1 as <-.
    exists b, u'. split; [done|]. split; [done|]. split; [congruence|]. by rewrite Es.
  - intros t w Hw. specialize (H3 t w Hw). destruct (cond_waiting w); [|done].
    destruct H3 as (u & Hu & Hex). destruct (Hf t u Hu Hex) as [u' Hu'].
    destruct (Hb t u' Hu') as (u1 & Hu1 & Ee & _). exists u'. split; [done|congruence].
  - intros t u' Hu'. destruct (Hb t u' Hu') as (u & Hu & Ee & Es).
    destruct (H4 t u Hu) as (? & Hx & Hs). split; [done|]. rewrite Ee. split; [done|].
    intros Hex. rewrite Es by done. by apply Hs.
Qed.

Lemma inv_update s t u u' : inv s → thread_list_ (proc s) !! t = Some u →
  exited_ u' = exited_ u → (exited_ u = false → state_ u' = state_ u) →
  inv (mkSys (set_threads (proc s) (<[t := u']> (thread_list_ (proc s)))) (joining s) (sent s) (got s)).
Proof.
  intros Hi Hu Ee Es. apply inv_same; try done; cbn.
  - intros t1 u1 H1. destruct (decide (t1 = t)) as [->|].
    + rewrite lookup_insert_eq in H1. injection H1 as <-. by exists u.
    + rewrite lookup_insert_ne in H1 by done. by exists u1.
  - intros t1 u1 H1 _. destruct (decide (t1 = t)) as [->|].
    + rewrite lookup_insert_eq. by eexists.
    + rewrite lookup_insert_ne by done. by eexists.
Qed.

Lemma inv_destroy s p' tid u b : inv s → thread_list_ (proc s) !! tid = Some u →
  state_ u = ToBeDestroyed → onThreadDestroyed (proc s) tid = Val (p', b) →
  inv (mkSys p' (joining s) (sent s) (got s)).
Proof.
  intros Hi Hu Hst E. unfold onThreadDestroyed in E.
  assert (exited_ u = true) as Hex.
  { destruct (exited_ u) eqn:He; [done|]. destruct (inv_thread s Hi tid u Hu) as (_ & _ & Hs).
    destruct (Hs He) as [?|[? _]]; congruence. }
  case_bool_decide; [injection E as <- <-; by destruct s|].
  destruct (kassert _); [|done]. injection E as <- <-.
  apply inv_same; try done; cbn.
  - intros t1 u1 H1. apply lookup_delete_Some in H1 as [_ H1]. by exists u1.
  - intros t1 u1 H1 H1x. destruct (decide (t1 = tid)) as [->|]; [congruence|].
    rewrite lookup_delete_ne by done. by eexists.
Qed.

Lemma inv_finish s tid u p' : inv s → thread_list_ (proc s) !! tid = Some u → exited_ u = true →
  exit (proc s) tid = Val p' → inv (mkSys p' (joining s) (sent s) (got s)).
Proof.
  intros Hi Hu Hex E. unfold exit in E. rewrite Hu in E.
  case_bool_decide; [|done]. injection E as <-.
  apply (inv_update s tid u); [done|done|done|congruence].
Qed.

Lemma inv_cancel s p' id code : inv s → cancelThread (proc s) id = (p', code) →
  inv (mkSys p' (joining s) (sent s) (got s)).
Proof.
  intros Hi E. unfold cancelThread in E.
  destruct (thread_list_ (proc s) !! id) as [t|] eqn:Ht; [|injection E as <- <-; by destruct s].
  destruct (negb _); injection E as <- <-; [by destruct s|]. by apply (inv_update s id t).
Qed.

(** Taking the stored value of [tid]. *)
Lemma inv_take s tid rv : inv s → ret_values_ (proc s) !! tid = Some rv →
  sent s !! tid = Some rv ∧ tid ∉ (got s).*1 ∧
  NoDup (got s ++ [(tid, rv)]).*1 ∧
  (∀ t v, (t, v) ∈ got s ++ [(tid, rv)] → sent s !! t = Some v) ∧
  ∀ t, delete tid (ret_values_ (proc s)) !! t =
       if decide (t ∈ (got s ++ [(tid, rv)]).*1) then None else sent s !! t.
Proof.
  intros Hi Hr. pose proof (inv_ret s Hi tid) as Ht. rewrite Hr in Ht.
  case_decide as Hg; [done|]. symmetry in Ht. split; [done|]. split; [done|].
  split; [|split].
  - rewrite fmap_app. apply NoDup_app. split; [apply (inv_once s Hi)|]. split.
    + intros t H1 H2. cbn in H2. apply list_elem_of_singleton in H2 as ->. done.
    + apply NoDup_singleton.
  - intros t v [H|H]%elem_of_app; [by apply (inv_got s Hi)|].
    apply list_elem_of_singleton in H. by injection H as -> ->.
  - intros t. rewrite fmap_app. destruct (decide (t = tid)) as [->|Hne].
    + rewrite lookup_delete_eq, decide_True; [done|]. apply elem_of_app. right. cbn.
      by apply list_elem_of_singleton.
    + rewrite lookup_delete_ne, (inv_ret s Hi) by done.
      assert (t ∈ (got s).*1 ++ [(tid, rv)].*1 ↔ t ∈ (got s).*1) as Hiff.
      { rewrite elem_of_app. cbn. rewrite list_elem_of_singleton. tauto. }
      repeat case_decide; tauto.
Qed.

Lemma inv_join_ret s caller tid p' code rv : inv s →
  joinThread (proc s) caller tid = Val (p', JoinReturns code rv) →
  inv (mkSys p' (joining s) (sent s) (got s ++ deliver tid rv)).
Proof.
  intros Hi E. assert (∀ q, q = proc s → rv = None →
    inv (mkSys q (joining s) (sent s) (got s ++ deliver tid rv))) as Hsame.
  { intros q -> ->. cbn. rewrite app_nil_r. by destruct s. }
  unfold joinThread in E.
  destruct (caller =? tid); [injection E as <- <- <-; by apply Hsame|].
  destruct (ret_values_ (proc s) !! tid) as [v|] eqn:Hr.
  - injection E as <- <- <-. destruct (inv_take s tid v Hi Hr) as (_ & _ & Hn & Hg & Hd).
    destruct Hi. split; cbn; done.
  - destruct (thread_list_ (proc s) !! tid) as [t|]; [|injection E as <- <- <-; by apply Hsame].
    destruct (exited_ t); [injection E as <- <- <-; by apply Hsame|].
    case_bool_decide; [injection E as <- <- <-; by apply Hsame|].
    destruct (joinDeadlock (proc s) caller tid) as [[|]|]; cbn [mbind res_bind] in E; [|done|done].
    injection E as <- <- <-. by apply Hsame.
Qed.

Lemma join_sleep_shape s caller tid p' : inv s →
  joinThread (proc s) caller tid = Val (p', JoinSleeps) →
  caller ≠ tid ∧ ret_values_ (proc s) !! tid = None ∧
  (∃ t, thread_list_ (proc s) !! tid = Some t ∧ exited_ t = false) ∧
  waiting_list_ (proc s) !! tid = None ∧ ¬ tc (waits (joining s)) tid caller ∧
  p' = set_threads
         (set_join (proc s) (<[tid := mkWait caller true]> (waiting_list_ (proc s))) (ret_values_ (proc s)))
         (alter (λ t, set_state t Sleeping) caller (thread_list_ (proc s))).
Proof.
  intros Hi E. unfold joinThread in E. destruct (Z.eqb_spec caller tid); [done|].
  destruct (ret_values_ (proc s) !! tid) as [v|] eqn:Hr; [done|].
  destruct (thread_list_ (proc s) !! tid) as [t|] eqn:Ht; [|done].
  destruct (exited_ t) eqn:Hx; [done|]. case_bool_decide as Hw; [done|].
  destruct (joinDeadlock_ok s caller tid Hi) as (b & Hb & Hiff). rewrite Hb in E.
  destruct b; cbn [mbind res_bind] in E; [done|]. injection E as <-.
  split; [done|]. split; [done|]. split; [by exists t|].
  split; [by apply eq_None_not_Some|]. split; [|done]. intros Hc. by apply Hiff in Hc.
Qed.

Lemma inv_sleep s caller tid p' : inv s → ready s caller →
  joinThread (proc s) caller tid = Val (p', JoinSleeps) →
  inv (mkSys p' (<[caller := tid]> (joining s)) (sent s) (got s)).
Proof.
  intros Hi [Hj (u & Hu & Hst & Hx)] E.
  destruct (join_sleep_shape s caller tid p' Hi E) as (Hne & Hr & (t & Ht & Htx) & Hw & Hdl & ->).
  pose proof Hi as [H1 H2 H3 H4 H5 H6 H7 H8 H9 H10].
  split; cbn; try done.
  - intros c t' Hc. destruct (decide (c = caller)) as [->|Hcc].
    + rewrite lookup_insert_eq in Hc. injection Hc as <-.
      exists true, (set_state u Sleeping). rewrite lookup_insert_eq, lookup_alter_eq, Hu. done.
    + rewrite lookup_insert_ne in Hc by done. destruct (H1 c t' Hc) as (b & uc & Hwc & Huc & ? & ?).
      exists b, uc. rewrite lookup_alter_ne by done. rewrite lookup_insert_ne; [done|congruence].
  - intros t' w Hw'. destruct (decide (t' = tid)) as [->|Htt].
    + rewrite lookup_insert_eq in Hw'. injection Hw' as <-. by rewrite lookup_insert_eq.
    + rewrite lookup_insert_ne in Hw' by done. pose proof (H2 t' w Hw').
      rewrite lookup_insert_ne; [done|congruence].
  - intros t' w Hw'. destruct (decide (t' = tid)) as [->|Htt].
    + rewrite lookup_insert_eq in Hw'. injection Hw' as <-. cbn.
      exists t. by rewrite lookup_alter_ne by done.
    + rewrite lookup_insert_ne in Hw' by done. specialize (H3 t' w Hw').
      destruct (cond_waiting w); [|done]. destruct H3 as (u' & Hu' & Hx').
      destruct (decide (t' = caller)) as [->|]; [|exists u'; by rewrite lookup_alter_ne].
      exists (set_state u' Sleeping). by rewrite lookup_alter_eq, Hu'.
  - intros t' u' Hu'. destruct (decide (t' = caller)) as [->|].
    + rewrite lookup_alter_eq, Hu in Hu'. injection Hu' as <-. cbn.
      destruct (H4 caller u Hu) as (? & ? & _). split; [done|]. split; [done|].
      intros _. right. rewrite lookup_insert_eq. split; [done|by eexists].
    + rewrite lookup_alter_ne in Hu' by done. by rewrite lookup_insert_ne by done; apply H4.
  - by apply acyclic_insert.
Qed.

Lemma resume_shape s tid p' rv : joinResume (proc s) tid = Val (p', rv) →
  ret_values_ (proc s) !! tid = Some rv ∧
  p' = set_join (proc s) (delete tid (waiting_list_ (proc s))) (delete tid (ret_values_ (proc s))).
Proof.
  unfold joinResume. intros E.
  repeat case_bool_decide; cbn [kassert mbind res_bind] in E; try discriminate.
  destruct (ret_values_ (proc s) !! tid) as [v|]; cbn in E; [|done]. by injection E as <- <-.
Qed.

Lemma inv_resume s caller tid u p' rv : inv s → joining s !! caller = Some tid →
  thread_list_ (proc s) !! caller = Some u → state_ u = Running →
  joinResume (proc s) tid = Val (p', rv) →
  inv (mkSys p' (delete caller (joining s)) (sent s) (got s ++ [(tid, rv)])).
Proof.
  intros Hi Hj Hu Hst E. apply resume_shape in E as [Hr ->].
  destruct (inv_take s tid rv Hi Hr) as (_ & _ & Hn & Hg & Hd).
  pose proof Hi as [H1 H2 H3 H4 H5 H6 H7 H8 H9 H10].
  destruct (H1 caller tid Hj) as (b & u' & Hw & Hu' & Hx & Hst').
  rewrite Hu in Hu'. injection Hu' as <-.
  split; cbn; try done.
  - intros c t Hc. apply lookup_delete_Some in Hc as [Hcc Hc].
    destruct (H1 c t Hc) as (b' & uc & Hwc & ?). exists b', uc.
    rewrite lookup_delete_ne; [by split|]. intros ->. congruence.
  - intros t w Hw'. apply lookup_delete_Some in Hw' as [Htt Hw'].
    pose proof (H2 t w Hw'). rewrite lookup_delete_ne; [done|congruence].
  - intros t w Hw'. apply lookup_delete_Some in Hw' as [_ Hw']. by apply H3.
  - intros t ut Hut. destruct (H4 t ut Hut) as (? & ? & Hs). split; [done|]. split; [done|].
    intros Hxt. destruct (decide (t = caller)) as [->|]; [left; congruence|].
    rewrite lookup_delete_ne by done. by apply Hs.
  - eapply acyclic_sub; [|exact H9]. intros c t Hc. by apply lookup_delete_Some in Hc as [_ Hc].
Qed.

(** The threads after [exitThread] by [tid]. *)
Definition mark_exited (t : UserThread) : UserThread :=
  mkThread (state_ t) true (cancel_req_ t) (cancelable_ t) (stack_start_addr_ t) (stack_end_addr_ t).

Lemma exit_shape p tid rv p' u : thread_list_ p !! tid = Some u →
  exitThread p tid rv = Val (p', true) →
  ret_values_ p !! tid = None ∧ exited_ u = false ∧
  ∃ threads waiting,
    p' = set_join (set_threads p threads) waiting (<[tid := rv]> (ret_values_ p)) ∧
    match waiting_list_ p !! tid with
    | None => threads = <[tid := mark_exited u]> (thread_list_ p) ∧ waiting = waiting_list_ p
    | Some w => waiting = <[tid := mkWait (waiter_ w) false]> (waiting_list_ p) ∧
        threads = (if cond_waiting w then alter (λ u, set_state u Running) (waiter_ w)
                                            (<[tid := mark_exited u]> (thread_list_ p))
                   else <[tid := mark_exited u]> (thread_list_ p))
    end.
Proof.
  intros Hu E. unfold exitThread in E. rewrite Hu in E.
  destruct (bool_decide _ || exited_ u) eqn:Hb; [done|].
  apply orb_false_iff in Hb as [Hr%bool_decide_eq_false Hx].
  split; [by apply eq_None_not_Some|]. split; [done|].
  destruct (waiting_list_ p !! tid) as [w|]; injection E as <-; eexists _, _; by split.
Qed.

Lemma exit_fresh s tid u : inv s → thread_list_ (proc s) !! tid = Some u → exited_ u = false →
  sent s !! tid = None ∧ tid ∉ (got s).*1.
Proof.
  intros Hi Hu Hx. assert (sent s !! tid = None) as Hsent.
  { apply eq_None_not_Some. intros Hs. destruct (inv_thread s Hi tid u Hu) as (_ & Hiff & _).
    apply Hiff in Hs. congruence. }
  split; [done|]. intros ([t v] & Heq & Hin)%list_elem_of_fmap. cbn in Heq. subst t.
  apply (inv_got s Hi) in Hin. congruence.
Qed.

(** The waiter's thread, woken up, and the others. *)
Lemma exit_threads s tid u w b c : inv s → joining s !! tid = None →
  thread_list_ (proc s) !! tid = Some u → waiting_list_ (proc s) !! tid = Some w →
  w = mkWait c b →
  ∃ uc, c ≠ tid ∧ joining s !! c = Some tid ∧ thread_list_ (proc s) !! c = Some uc ∧
    exited_ uc = false ∧
    (if b then alter (λ u, set_state u Running) c (<[tid := mark_exited u]> (thread_list_ (proc s)))
     else <[tid := mark_exited u]> (thread_list_ (proc s))) =
    <[c := set_state uc Running]> (<[tid := mark_exited u]> (thread_list_ (proc s))).
Proof.
  intros Hi Hj Hu Hw ->. pose proof (inv_wait s Hi tid _ Hw) as Hjc. cbn in Hjc.
  assert (c ≠ tid) as Hne by (intros ->; congruence).
  destruct (inv_join s Hi c tid Hjc) as (b' & uc & Hw' & Huc & Hx & Hst).
  rewrite Hw in Hw'. injection Hw' as <-. exists uc. do 4 (split; [done|]).
  apply map_eq. intros t. destruct (decide (t = c)) as [->|Hc].
  - rewrite lookup_insert_eq. destruct b.
    + by rewrite lookup_alter_eq, lookup_insert_ne, Huc by done.
    + rewrite lookup_insert_ne, Huc by done. f_equal. destruct uc; cbn in *. by subst.
  - rewrite (lookup_insert_ne _ c) by done. destruct b; [|done]. by rewrite lookup_alter_ne.
Qed.

Lemma inv_exit_none s tid rv u : inv s → joining s !! tid = None →
  thread_list_ (proc s) !! tid = Some u → exited_ u = false →
  waiting_list_ (proc s) !! tid = None →
  inv (mkSys (set_join (set_threads (proc s) (<[tid := mark_exited u]> (thread_list_ (proc s))))
               (waiting_list_ (proc s)) (<[tid := rv]> (ret_values_ (proc s))))
         (joining s) (<[tid := rv]> (sent s)) (got s)).
Proof.
  intros Hi Hj Hu Hx Hw. destruct (exit_fresh s tid u Hi Hu Hx) as [Hsent Hgot].
  pose proof Hi as [H1 H2 H3 H4 H5 H6 H7 H8 H9 H10]. split; cbn; try done.
  - intros c t Hc. destruct (H1 c t Hc) as (b & uc & ?). exists b, uc.
    rewrite lookup_insert_ne; [done|congruence].
  - intros t w Hwt. specialize (H3 t w Hwt). assert (t ≠ tid) by congruence.
    rewrite !lookup_insert_ne by done. done.
  - intros t ut Hut. destruct (decide (t = tid)) as [->|].
    + rewrite lookup_insert_eq in Hut. injection Hut as <-. cbn. rewrite lookup_insert_eq.
      split; [by eapply H4|]. split; [|done]. split; [by eexists|done].
    + rewrite lookup_insert_ne in Hut by done. rewrite lookup_insert_ne by done. by apply H4.
  - intros t Ht. destruct (decide (t = tid)) as [->|]; [by eapply H4|].
    rewrite lookup_insert_ne in Ht by done. by apply H5.
  - intros t. destruct (decide (t = tid)) as [->|].
    + by rewrite !lookup_insert_eq, decide_False by done.
    + by rewrite !lookup_insert_ne by done.
  - intros t v Hin. rewrite lookup_insert_ne; [by apply H7|]. intros <-. apply Hgot.
    by apply list_elem_of_fmap; exists (tid, v).
Qed.

Lemma inv_exit_wake s tid rv u uc c b : inv s → joining s !! tid = None →
  thread_list_ (proc s) !! tid = Some u → exited_ u = false →
  waiting_list_ (proc s) !! tid = Some (mkWait c b) → c ≠ tid → joining s !! c = Some tid →
  thread_list_ (proc s) !! c = Some uc → exited_ uc = false →
  inv (mkSys (set_join (set_threads (proc s)
                (<[c := set_state uc Running]> (<[tid := mark_exited u]> (thread_list_ (proc s)))))
               (<[tid := mkWait c false]> (waiting_list_ (proc s)))
               (<[tid := rv]> (ret_values_ (proc s))))
         (joining s) (<[tid := rv]> (sent s)) (got s)).
Proof.
  intros Hi Hj Hu Hx Hw Hne Hjc Huc Hxc. destruct (exit_fresh s tid u Hi Hu Hx) as [Hsent Hgot].
  pose proof Hi as [H1 H2 H3 H4 H5 H6 H7 H8 H9 H10]. split; cbn; try done.
  - intros c' t Hc. destruct (decide (t = tid)) as [->|Ht].
    + destruct (H1 c' tid Hc) as (b' & uc' & Hw' & _). rewrite Hw in Hw'. injection Hw' as -> ->.
      exists false, (set_state uc Running). by rewrite !lookup_insert_eq.
    + destruct (H1 c' t Hc) as (b' & uc' & ?). exists b', uc'.
      assert (c' ≠ c) by congruence. assert (c' ≠ tid) by congruence.
      by rewrite !lookup_insert_ne by done.
  - intros t w Hwt. destruct (decide (t = tid)) as [->|Ht].
    + rewrite lookup_insert_eq in Hwt. by injection Hwt as <-.
    + rewrite lookup_insert_ne in Hwt by done. by apply H2.
  - intros t w Hwt. destruct (decide (t = tid)) as [->|Ht].
    + rewrite lookup_insert_eq in Hwt. injection Hwt as <-. cbn. rewrite lookup_insert_eq. by eexists.
    + rewrite lookup_insert_ne in Hwt by done. specialize (H3 t w Hwt).
      rewrite (lookup_insert_ne (sent s)) by done. destruct (cond_waiting w); [|done].
      destruct H3 as (ut & Hut & Hxt). destruct (decide (t = c)) as [->|].
      * exists (set_state uc Running). by rewrite lookup_insert_eq.
      * exists ut. by rewrite !lookup_insert_ne by done.
  - intros t ut Hut. destruct (decide (t = c)) as [->|].
    { rewrite lookup_insert_eq in Hut. injection Hut as <-. cbn.
      rewrite lookup_insert_ne by done. destruct (H4 c uc Huc) as (? & ? & _).
      split; [done|]. split; [done|]. intros _. by left. }
    rewrite lookup_insert_ne in Hut by done. destruct (decide (t = tid)) as [->|].
    + rewrite lookup_insert_eq in Hut. injection Hut as <-. cbn. rewrite lookup_insert_eq.
      split; [by eapply H4|]. split; [|done]. split; [by eexists|done].
    + rewrite lookup_insert_ne in Hut by done. rewrite lookup_insert_ne by done. by apply H4.
  - intros t Ht. destruct (decide (t = tid)) as [->|]; [by eapply H4|].
    rewrite lookup_insert_ne in Ht by done. by apply H5.
  - intros t. destruct (decide (t = tid)) as [->|].
    + by rewrite !lookup_insert_eq, decide_False by done.
    + by rewrite !lookup_insert_ne by done.
  - intros t v Hin. rewrite lookup_insert_ne; [by apply H7|]. intros <-. apply Hgot.
    by apply list_elem_of_fmap; exists (tid, v).
Qed.

Lemma inv_exit s tid rv p' : inv s → ready s tid → exitThread (proc s) tid rv = Val (p', true) →
  inv (mkSys p' (joining s) (<[tid := rv]> (sent s)) (got s)).
Proof.
  intros Hi [Hj (u & Hu & Hst & Hx)] E.
  destruct (exit_shape (proc s) tid rv p' u Hu E) as (Hr & _ & threads & waiting & -> & Hcase).
  destruct (waiting_list_ (proc s) !! tid) as [[c b]|] eqn:Hw.
  - destruct Hcase as [-> ->]. cbn [waiter_ cond_waiting].
    destruct (exit_threads s tid u _ b c Hi Hj Hu Hw eq_refl) as (uc & ? & ? & ? & ? & ->).
    by apply (inv_exit_wake s tid rv u uc c b).
  - destruct Hcase as [-> ->]. by apply inv_exit_none.
Qed.

Lemma inv_boot s : booted s → inv s.
Proof.
  intros (p & tscs & E & ->).
  set (s0 := mkSys empty_proc ∅ ∅ []).
  assert (inv s0) as Hi0.
  { split; cbn.
    1-4: intros ? ? ?; by simplify_map_eq.
    - intros t [? ?]. by simplify_map_eq.
    - intros t. by simplify_map_eq.
    - intros t v Hin. by apply elem_of_nil in Hin.
    - constructor.
    - intros c (y & _ & Hy)%tc_r_inv. unfold waits in Hy. by simplify_map_eq.
    - done. }
  by apply (inv_create s0 tscs p 0 (Some 0)).
Qed.

Lemma inv_step s s' : inv s → step s s' → inv s'.
Proof.
  intros Hi Hst. destruct Hst as
    [p j e g p' tscs code tid Hn E|p j e g p' caller tid code rv Hr E|p j e g p' caller tid Hr E
    |p j e g p' caller tid u rv Hj Hu Hs E|p j e g p' tid rv Hr E|p j e g p' tid u Hu Hx E
    |p j e g p' tid u b Hu Hs E|p j e g p' id code E|p j e g tid u Hr Hu Hc].
  - by apply (inv_create (mkSys p j e g) tscs p' code tid).
  - by apply (inv_join_ret (mkSys p j e g) caller tid p' code rv).
  - by apply (inv_sleep (mkSys p j e g)).
  - by apply (inv_resume (mkSys p j e g) caller tid u p' rv).
  - by apply (inv_exit (mkSys p j e g)).
  - by apply (inv_finish (mkSys p j e g) tid u p').
  - by apply (inv_destroy (mkSys p j e g) p' tid u b).
  - by apply (inv_cancel (mkSys p j e g) p' id code).
  - by apply (inv_update (mkSys p j e g) tid u).
Qed.

Lemma inv_reachable s : reachable s → inv s.
Proof.
  intros (s0 & H0 & Hr). apply inv_boot in H0. induction Hr; eauto using inv_step.
Qed.

(** A chain of waiting threads ends. *)
Lemma chain_end j fuel x vs : acyclic j → NoDup vs →
  (∀ v, v ∈ vs → is_Some (j !! v) ∧ tc (waits j) v x) → (size j <= length vs + fuel)%nat →
  ∃ r, rtc (waits j) x r ∧ j !! r = None.
Proof.
  intros Ha. revert x vs. induction fuel as [|fuel IH]; intros x vs Hnd Hvs Hsz;
    (destruct (j !! x) as [y|] eqn:Hx; [|exists x; split; [apply rtc_refl|done]]);
    assert (x ∉ vs) as Hnx by (intros Hin; destruct (Hvs x Hin) as [_ Hc]; by apply (Ha x)).
  - exfalso. assert (length (x :: vs) <= size j)%nat as Hl.
    { apply keys_size; [by constructor|].
      intros k [->|Hk]%elem_of_cons; [by eexists|by apply Hvs]. }
    cbn [length] in Hl. lia.
  - destruct (IH y (x :: vs)) as (r & Hr & Hn).
    + by constructor.
    + intros v [->|Hv]%elem_of_cons; [split; [by eexists|by constructor]|].
      destruct (Hvs v Hv). split; [done|]. by eapply tc_r.
    + cbn [length]. lia.
    + exists r. split; [by eapply rtc_l|done].
Qed.

(** The last link of a chain. *)
Lemma last_link j x r : rtc (waits j) x r → is_Some (j !! x) → j !! r = None →
  ∃ c, rtc (waits j) x c ∧ waits j c r.
Proof.
  intros Hr [y Hx] Hn. apply rtc_inv_r in Hr as [->|(c & ? & ?)]; [congruence|by exists c].
Qed.

Lemma joinResume_ok s c tid u : inv s → joining s !! c = Some tid →
  thread_list_ (proc s) !! c = Some u → state_ u = Running →
  if decide (tid ∈ (got s).*1) then joinResume (proc s) tid = Err EAssert
  else ∃ v p', sent s !! tid = Some v ∧ joinResume (proc s) tid = Val (p', v).
Proof.
  intros Hi Hj Hu Hst. destruct (inv_join s Hi c tid Hj) as (b & u' & Hw & Hu' & _ & Hst').
  rewrite Hu in Hu'. injection Hu' as <-. destruct b; [congruence|].
  pose proof (inv_target s Hi tid _ Hw) as [v Hv]. cbn in Hv.
  pose proof (inv_ret s Hi tid) as Hr. unfold joinResume.
  rewrite (bool_decide_eq_true_2 (is_Some (waiting_list_ (proc s) !! tid))) by (by eexists).
  cbn [kassert mbind res_bind]. rewrite Hr. case_decide.
  - by rewrite bool_decide_eq_false_2 by (intros [? ?]; done).
  - rewrite Hv, bool_decide_eq_true_2 by (by eexists). cbn. by eexists _, _.
Qed.

(** ** Properties *)

(** C28: in every reachable state [joinDeadlock] ends, and it answers [true]
    exactly when the target of the new join already waits, directly or through
    other joins, for the caller. *)
Theorem joinDeadlock_exact s caller target : reachable s →
  ∃ b, joinDeadlock (proc s) caller target = Val b ∧
       (b = true ↔ tc (waits (joining s)) target caller).
Proof. intros Hr%inv_reachable. by apply joinDeadlock_ok. Qed.

(** C18: joins never deadlock.  From every thread inside a join the chain of
    waiting leads to a join that can go on: the thread it waits for can run, or
    has exited and the joining thread has been woken up. *)
Theorem join_progress s c t : reachable s → joining s !! c = Some t →
  ∃ c' r, rtc (waits (joining s)) c c' ∧ waits (joining s) c' r ∧
    (ready s r ∨ ∃ u, thread_list_ (proc s) !! c' = Some u ∧ state_ u = Running).
Proof.
  intros Hi%inv_reachable Hj.
  destruct (chain_end (joining s) (size (joining s)) c [] (inv_acyclic s Hi)) as (r & Hr & Hn);
    [by constructor|intros v Hv; by apply elem_of_nil in Hv|cbn [length]; lia|].
  destruct (last_link _ c r Hr) as (c' & Hc' & Hw); [by eexists|done|].
  exists c', r. split; [done|]. split; [done|].
  destruct (inv_join s Hi c' r Hw) as (b & u & Hwr & Hu & _ & Hst).
  pose proof (inv_target s Hi r _ Hwr) as Ht. cbn in Ht.
  destruct b; [left|right; by exists u]. by apply ready_alt.
Qed.

(** C19: the value a thread exits with is returned by at most one join, and
    unchanged; until a join takes it, it stays stored. *)
Theorem join_values s : reachable s →
  NoDup (got s).*1 ∧ (∀ t v, (t, v) ∈ got s → sent s !! t = Some v) ∧
  ∀ t v, sent s !! t = Some v → t ∉ (got s).*1 → ret_values_ (proc s) !! t = Some v.
Proof.
  intros Hi%inv_reachable. split; [apply (inv_once s Hi)|]. split; [apply (inv_got s Hi)|].
  intros t v Hs Hg. by rewrite (inv_ret s Hi), decide_False.
Qed.

(** what a woken join finds.  It returns the value its target exited with,
    unless another join took that value since the signal; then it fails the
    kernel's assertion that a value is there. *)
Theorem joinResume_outcome s c tid u : reachable s → joining s !! c = Some tid →
  thread_list_ (proc s) !! c = Some u → state_ u = Running →
  if decide (tid ∈ (got s).*1) then joinResume (proc s) tid = Err EAssert
  else ∃ v p', sent s !! tid = Some v ∧ joinResume (proc s) tid = Val (p', v).
Proof. intros Hi%inv_reachable. by apply joinResume_ok. Qed.

(** A process with the threads 0, 1 and 2, created with the given readings of
    the time-stamp counter. *)
Definition three_threads (t0 t1 t2 : Z) : res UserProcess :=
  '(p, _, _) ← createThread empty_proc [t0];
  '(p, _, _) ← createThread p [t1];
  '(p, _, _) ← createThread p [t2];
  Val p.

(** Thread 0 joins thread 1 and sleeps; thread 1 exits with 7; thread 2 joins
    thread 1 before thread 0 runs again. *)
Definition ex_proc (n : nat) : res UserProcess :=
  p ← three_threads 3 4 1136631302833;
  '(p, _) ← if decide (1 <= n)%nat then joinThread p 0 1 else Val (p, JoinSleeps);
  '(p, _) ← if decide (2 <= n)%nat then exitThread p 1 7 else Val (p, true);
  '(p, _) ← if decide (3 <= n)%nat then joinThread p 2 1 else Val (p, JoinSleeps);
  Val p.

Definition ex_state (n : nat) : sys :=
  mkSys (match ex_proc n with Val p => p | Err _ => empty_proc end)
    (if decide (1 <= n)%nat then {[0 := 1]} else ∅)
    (if decide (2 <= n)%nat then {[1 := 7]} else ∅)
    (if decide (3 <= n)%nat then [(1, 7)] else []).

Lemma reachable_step s s' : reachable s → step s s' → reachable s'.
Proof. intros (s0 & ? & ?) ?. exists s0. split; [done|]. by eapply rtc_r. Qed.

Definition val_or_empty {R} (r : res (UserProcess * Z * R)) : UserProcess :=
  match r with Val (p, _, _) => p | Err _ => empty_proc end.

Lemma three_reachable t0 t1 t2 p :
  next_tid_ (val_or_empty (createThread empty_proc [t0])) + 1 < 2 ^ 64 →
  next_tid_ (val_or_empty (createThread (val_or_empty (createThread empty_proc [t0])) [t1])) + 1 < 2 ^ 64 →
  createThread empty_proc [t0] = Val (val_or_empty (createThread empty_proc [t0]), 0, Some 0) →
  three_threads t0 t1 t2 = Val p → reachable (mkSys p ∅ ∅ []).
Proof.
  unfold three_threads, val_or_empty. intros H1 H2 H0 E.
  destruct (createThread empty_proc [t0]) as [[[p1 c1] i1]|] eqn:E1; [|done].
  cbn [mbind res_bind] in E. injection H0 as -> ->.
  destruct (createThread p1 [t1]) as [[[p2 c2] i2]|] eqn:E2; [|done].
  cbn [mbind res_bind] in E. destruct (createThread p2 [t2]) as [[[p3 c3] i3]|] eqn:E3; [|done].
  injection E as <-. eapply (reachable_step (mkSys p2 ∅ ∅ [])); [|by eapply st_create].
  eapply (reachable_step (mkSys p1 ∅ ∅ [])); [|by eapply st_create].
  exists (mkSys p1 ∅ ∅ []). split; [by exists p1, [t0]|apply rtc_refl].
Qed.

Ltac ready_now :=
  split; [vm_compute; reflexivity|]; eexists; split; [vm_compute; reflexivity|by split].

Lemma ex_step s s1 s2 : reachable s →
  step (mkSys (proc s) (joining s) (sent s) (got s)) s1 → s1 = s2 → reachable s2.
Proof. intros ? ? <-. eapply reachable_step; [|done]. by destruct s. Qed.

Lemma ex_reachable n : (n <= 3)%nat → reachable (ex_state n).
Proof.
  assert (reachable (ex_state 0)) as R0.
  { apply (three_reachable 3 4 1136631302833); vm_compute; reflexivity. }
  assert (reachable (ex_state 1)) as R1.
  { eapply ex_step; [exact R0|eapply (st_sleep _ _ _ _ (proc (ex_state 1)) 0 1)|];
      [ready_now|vm_compute; reflexivity..]. }
  assert (reachable (ex_state 2)) as R2.
  { eapply ex_step; [exact R1|eapply (st_exit _ _ _ _ (proc (ex_state 2)) 1 7)|];
      [ready_now|vm_compute; reflexivity..]. }
  assert (reachable (ex_state 3)) as R3.
  { eapply ex_step; [exact R2|eapply (st_join _ _ _ _ (proc (ex_state 3)) 2 1 0 (Some 7))|];
      [ready_now|vm_compute; reflexivity..]. }
  intros Hn. destruct n as [|[|[|[|]]]]; [done..|lia].
Qed.

Lemma joinDeadlock_exact_witness : reachable (ex_state 1) ∧
  ∃ b, joinDeadlock (proc (ex_state 1)) 1 0 = Val b ∧
       (b = true ↔ tc (waits (joining (ex_state 1))) 0 1).
Proof.
  split; [apply ex_reachable; lia|].
  apply (joinDeadlock_exact (ex_state 1) 1 0). apply ex_reachable; lia.
Defined.

Lemma join_progress_witness : joining (ex_state 1) !! 0 = Some 1 ∧
  ∃ c' r, rtc (waits (joining (ex_state 1))) 0 c' ∧ waits (joining (ex_state 1)) c' r ∧
    (ready (ex_state 1) r ∨
     ∃ u, thread_list_ (proc (ex_state 1)) !! c' = Some u ∧ state_ u = Running).
Proof.
  split; [reflexivity|]. apply (join_progress (ex_state 1) 0 1); [apply ex_reachable; lia|reflexivity].
Defined.

Lemma join_values_witness : got (ex_state 3) = [(1, 7)] ∧
  NoDup (got (ex_state 3)).*1 ∧
  (∀ t v, (t, v) ∈ got (ex_state 3) → sent (ex_state 3) !! t = Some v) ∧
  ∀ t v, sent (ex_state 3) !! t = Some v → t ∉ (got (ex_state 3)).*1 →
    ret_values_ (proc (ex_state 3)) !! t = Some v.
Proof. split; [reflexivity|]. apply (join_values (ex_state 3)), ex_reachable. lia. Defined.

Lemma joinResume_outcome_witness : ∃ u, thread_list_ (proc (ex_state 2)) !! 0 = Some u ∧
  if decide (1 ∈ (got (ex_state 2)).*1) then joinResume (proc (ex_state 2)) 1 = Err EAssert
  else ∃ v p', sent (ex_state 2) !! 1 = Some v ∧ joinResume (proc (ex_state 2)) 1 = Val (p', v).
Proof.
  eexists. split; [vm_compute; reflexivity|].
  eapply (joinResume_outcome (ex_state 2) 0 1);
    [apply ex_reachable; lia|reflexivity|vm_compute; reflexivity|reflexivity].
Defined.

(** A value can be taken from under a waiting join.  There is a reachable
    state in which thread 0 waited for thread 1 and was woken up by its exit,
    thread 2's join of thread 1 has returned the value meanwhile, and the rest
    of thread 0's join fails the kernel's assertion. *)
Theorem join_steal_panics : ∃ s, reachable s ∧ joining s !! 0 = Some 1 ∧
  (∃ u, thread_list_ (proc s) !! 0 = Some u ∧ state_ u = Running) ∧
  got s = [(1, 7)] ∧ joinResume (proc s) 1 = Err EAssert.
Proof.
  exists (ex_state 3). split; [apply ex_reachable; lia|]. split; [reflexivity|].
  split; [eexists; split; [vm_compute; reflexivity|reflexivity]|].
  split; [reflexivity|vm_compute; reflexivity].
Qed.

(** *** Stacks *)

(** Page aligned, of the maximal size, in the stack area. *)
Definition wf_stack (st : UserStackInfo) : Prop :=
  (PAGE_SIZE | start_address_ st) ∧ end_address_ st = start_address_ st - STACK_MAX_SIZE ∧
  STACK_SPACE_END <= end_address_ st ∧ start_address_ st <= STACK_SPACE_START.

Lemma stack_conflict_iff st st' : wf_stack st → wf_stack st' →
  stack_conflict (start_address_ st) (end_address_ st) st' = bool_decide (start_address_ st = start_address_ st').
Proof.
  unfold wf_stack, stack_conflict, PAGE_SIZE, STACK_SPACE_END, STACK_SPACE_START, STACK_MAX_SIZE.
  intros ([k Hk] & -> & He & Hs) ([k' Hk'] & -> & He' & Hs').
  rewrite (wrap_small 64 (start_address_ st' + 4096)) by lia.
  rewrite (wrap_small 64 (start_address_ st' - 40960 - 4096)) by lia.
  apply eq_true_iff_eq. rewrite !andb_true_iff, !Z.ltb_lt, bool_decide_eq_true. lia.
Qed.

Lemma candidate_bounds tsc : (PAGE_SIZE | stack_candidate tsc) ∧
  0 <= stack_candidate tsc < STACK_SPACE_START.
Proof.
  unfold stack_candidate. set (x := mersenneTwister tsc mod STACK_SPACE_START).
  assert (0 <= x < STACK_SPACE_START) by (apply Z.mod_pos_bound; reflexivity).
  rewrite Z.shiftl_mul_pow2, Z.shiftr_div_pow2 by lia. change (2 ^ 12) with 4096.
  split; [apply Z.divide_factor_r|]. pose proof (Z.div_mod x 4096). pose proof (Z.mod_pos_bound x 4096).
  lia.
Qed.

(** A drawn number that the loop rejects. *)
Definition rejected (stacks : gmap Z UserStackInfo) (tsc : Z) : Prop :=
  stack_candidate tsc < STACK_SPACE_END + STACK_MAX_SIZE ∨
  ∃ t st, stacks !! t = Some st ∧ start_address_ st = stack_candidate tsc.

Lemma existsb_conflict (stacks : gmap Z UserStackInfo) c : map_Forall (λ _, wf_stack) stacks → (PAGE_SIZE | c) →
  STACK_SPACE_END + STACK_MAX_SIZE <= c < STACK_SPACE_START →
  existsb (λ e, stack_conflict c (c - STACK_MAX_SIZE) e.2) (map_to_list stacks) = true ↔
  ∃ t st, stacks !! t = Some st ∧ start_address_ st = c.
Proof.
  intros Hwf Hd Hb. set (s := mkStack c (c - STACK_MAX_SIZE)).
  assert (wf_stack s) as Hs by (unfold wf_stack; cbn; split_and!; [done|done|lia|lia]).
  rewrite existsb_exists. split.
  - intros ([t st] & Hin & Hc). apply list_elem_of_In, elem_of_map_to_list in Hin.
    pose proof (stack_conflict_iff s st Hs (Hwf t st Hin)) as Hiff. cbn in Hiff, Hc.
    rewrite Hc in Hiff. symmetry in Hiff. apply bool_decide_eq_true in Hiff. by exists t, st.
  - intros (t & st & Ht & He). exists (t, st).
    split; [by apply list_elem_of_In, elem_of_map_to_list|].
    pose proof (stack_conflict_iff s st Hs (Hwf t st Ht)) as Hiff. cbn in Hiff |- *.
    by rewrite Hiff, bool_decide_eq_true_2.
Qed.

Lemma stack_loop_ok stacks tscs : map_Forall (λ _, wf_stack) stacks →
  match stack_loop tscs stacks with
  | Val (s, e) => wf_stack (mkStack s e) ∧
      ∀ t st, stacks !! t = Some st → start_address_ st ≠ s
  | Err e => e = EFuel ∧ ∀ tsc, tsc ∈ tscs → rejected stacks tsc
  end.
Proof.
  intros Hwf. induction tscs as [|tsc tscs IH]; cbn [stack_loop].
  { split; [done|]. intros ? Hin. by apply elem_of_nil in Hin. }
  destruct (candidate_bounds tsc) as [Hd Hb].
  assert (∀ r, rejected stacks tsc → match stack_loop tscs stacks with
    | Val (s, e) => r = stack_loop tscs stacks
    | Err e => r = stack_loop tscs stacks
    end → match r with
    | Val (s, e) => wf_stack (mkStack s e) ∧
        ∀ t st, stacks !! t = Some st → start_address_ st ≠ s
    | Err e => e = EFuel ∧ ∀ tsc', tsc' ∈ tsc :: tscs → rejected stacks tsc'
    end) as Hrej.
  { intros r Hr. destruct (stack_loop tscs stacks) as [[s e]|e]; intros ->; [done|].
    destruct IH as [-> IH]. split; [done|]. intros t' [->|?]%elem_of_cons; [done|by apply IH]. }
  clear IH. unfold rejected in Hrej at 1. remember (stack_candidate tsc) as c eqn:Ec. clear Ec.
  destruct (Z.ltb_spec c (STACK_SPACE_END + STACK_MAX_SIZE)) as [Hl|Hl].
  { apply Hrej; [by left|]. by destruct (stack_loop tscs stacks) as [[? ?]|]. }
  pose proof (existsb_conflict stacks c Hwf Hd ltac:(lia)) as Hx.
  destruct (existsb _ _).
  - apply Hrej; [right; by apply Hx|]. by destruct (stack_loop tscs stacks) as [[? ?]|].
  - split; [unfold wf_stack; cbn; split_and!; [done|done|lia|lia]|].
    intros t st Ht He. enough (false = true) by done. apply Hx. by exists t, st.
Qed.

(** C40: the placement of stacks.  Over stacks that are page aligned, of full
    size and inside the stack area, the test of the loop rejects exactly a
    stack with the same start; [ASLRStackManager] keeps that shape, never fails
    its assertions, gives the new thread a start no other stack has, and goes
    on only when every number drawn was too low or taken. *)
Theorem ASLRStackManager_spec p tid tscs : map_Forall (λ _, wf_stack) (user_stack_list_ p) →
  match ASLRStackManager p tid tscs with
  | Val (p', s) => wf_stack (mkStack s (s - STACK_MAX_SIZE)) ∧
      (∀ t st, user_stack_list_ p !! t = Some st → start_address_ st ≠ s) ∧
      p' = set_stacks p (<[tid := mkStack s (s - STACK_MAX_SIZE)]> (user_stack_list_ p)) ∧
      map_Forall (λ _, wf_stack) (user_stack_list_ p')
  | Err e => e = EFuel ∧ ∀ tsc, tsc ∈ tscs → rejected (user_stack_list_ p) tsc
  end.
Proof.
  intros Hwf. pose proof (stack_loop_ok (user_stack_list_ p) tscs Hwf) as Hl.
  unfold ASLRStackManager. destruct (stack_loop tscs _) as [[s e]|e]; cbn [mbind res_bind]; [|done].
  destruct Hl as [Hst Hne]. pose proof Hst as (_ & He & H1 & H2). cbn in He, H1, H2. subst e.
  do 2 (rewrite (proj2 (Z.leb_le _ _)) by done; cbn [kassert mbind res_bind]).
  split; [done|]. split; [done|]. split; [done|]. cbn. by apply map_Forall_insert_2.
Qed.

Lemma ASLRStackManager_spec_witness :
  map_Forall (λ _, wf_stack) (user_stack_list_ empty_proc) ∧
  match ASLRStackManager empty_proc 0 [3] with
  | Val (p', s) => wf_stack (mkStack s (s - STACK_MAX_SIZE)) ∧
      (∀ t st, user_stack_list_ empty_proc !! t = Some st → start_address_ st ≠ s) ∧
      p' = set_stacks empty_proc (<[0 := mkStack s (s - STACK_MAX_SIZE)]> (user_stack_list_ empty_proc)) ∧
      map_Forall (λ _, wf_stack) (user_stack_list_ p')
  | Err e => e = EFuel ∧ ∀ tsc, tsc ∈ [3] → rejected (user_stack_list_ empty_proc) tsc
  end.
Proof.
  split; [apply map_Forall_empty|]. apply (ASLRStackManager_spec empty_proc 0 [3]), map_Forall_empty.
Defined.

(** Three threads, two of them with neighbouring stack starts. *)
Definition ov_proc : UserProcess :=
  match three_threads 3 1136631302833 1537335932264 with Val p => p | Err _ => empty_proc end.

Lemma ov_reachable : reachable (mkSys ov_proc ∅ ∅ []).
Proof.
  apply (three_reachable 3 1136631302833 1537335932264); vm_compute; reflexivity.
Qed.

Definition ov_thread (start : Z) : UserThread :=
  mkThread Running false false true start (start - STACK_MAX_SIZE).

Lemma ov_thread1 : thread_list_ ov_proc !! 1 = Some (ov_thread 52899239280640).
Proof. vm_compute; reflexivity. Qed.
Lemma ov_thread2 : thread_list_ ov_proc !! 2 = Some (ov_thread 52899239284736).
Proof. vm_compute; reflexivity. Qed.
Lemma ov_owner : addrIsWithinAnyUserStack ov_proc 52899239280640 = Some 1.
Proof. vm_compute; reflexivity. Qed.

(** Stacks can overlap.  There is a reachable state with two threads whose
    stacks share nine of their ten pages; an address in them is attributed to
    the thread with the smaller id. *)
Theorem stacks_overlap : ∃ s t1 t2 a, reachable s ∧
  thread_list_ (proc s) !! 1 = Some t1 ∧ thread_list_ (proc s) !! 2 = Some t2 ∧
  within_stack a t1 = true ∧ within_stack a t2 = true ∧
  stack_start_addr_ t2 - stack_start_addr_ t1 = PAGE_SIZE ∧
  addrIsWithinAnyUserStack (proc s) a = Some 1.
Proof.
  exists (mkSys ov_proc ∅ ∅ []), (ov_thread 52899239280640), (ov_thread 52899239284736), 52899239280640.
  split; [exact ov_reachable|]. split; [exact ov_thread1|]. split; [exact ov_thread2|].
  do 3 (split; [reflexivity|]). exact ov_owner.
Qed.

End Threads.
