(* ===== verification/Kmm.v ===== *)
(** * KernelMemoryManager: the kernel heap

    Models [common/source/mm/KernelMemoryManager.cpp] and the class
    [MallocSegment] of its header.  The heap is the segment headers by address
    and the bytes between them; a segment's links are addresses, 0 for none.
    Each public function runs under the heap's spin lock and is one step.
    [alloc_by_], which is only printed, and the debugging output are left out.

    The second half relates the heap to a list of blocks: the abstract
    allocator is first fit with splitting and coalescing. *)

From S2P Require Import Prelude.

Module Kmm.

(** ** MallocSegment *)

Record MallocSegment := mkSeg {
  marker_ : Z;
  next_ : Z;
  prev_ : Z;
  freed_at_ : Z;
  alloc_at_ : Z;
  size_flag_ : Z;
}.

(** [sizeof(MallocSegment)]: seven words of 8 bytes. *)
Definition sizeof_MallocSegment : Z := 56.
Abbreviation HDR := sizeof_MallocSegment.

(** What [markerOk] compares [marker_] with for [this] at address [a]. *)
Definition marker (a : Z) : Z := Z.lor 0xdeadbeef00000000 (u32 a).

Definition new_segment (a prev next size : Z) (used : bool) : MallocSegment :=
  let flag := Z.land size 0x7FFFFFFF in
  mkSeg (marker a) next prev 0 0 (if used then Z.lor flag 0x80000000 else flag).

Definition getSize (s : MallocSegment) : Z := Z.land (size_flag_ s) 0x7FFFFFFF.

Definition set_flag (s : MallocSegment) (f : Z) : MallocSegment :=
  mkSeg (marker_ s) (next_ s) (prev_ s) (freed_at_ s) (alloc_at_ s) f.
Definition set_next (n : Z) (s : MallocSegment) : MallocSegment :=
  mkSeg (marker_ s) n (prev_ s) (freed_at_ s) (alloc_at_ s) (size_flag_ s).
Definition set_prev (n : Z) (s : MallocSegment) : MallocSegment :=
  mkSeg (marker_ s) (next_ s) n (freed_at_ s) (alloc_at_ s) (size_flag_ s).
Definition set_freed (n : Z) (s : MallocSegment) : MallocSegment :=
  mkSeg (marker_ s) (next_ s) (prev_ s) n (alloc_at_ s) (size_flag_ s).
Definition set_alloc (n : Z) (s : MallocSegment) : MallocSegment :=
  mkSeg (marker_ s) (next_ s) (prev_ s) (freed_at_ s) n (size_flag_ s).

Definition setSize (size : Z) (s : MallocSegment) : MallocSegment :=
  set_flag s (Z.lor (Z.land (size_flag_ s) 0x80000000) (Z.land size 0x7FFFFFFF)).

Definition getUsed (s : MallocSegment) : bool := negb (Z.land (size_flag_ s) 0x80000000 =? 0).

Definition setUsed (used : bool) (s : MallocSegment) : MallocSegment :=
  let f := Z.land (size_flag_ s) 0x7FFFFFFF in
  set_flag s (if used then Z.lor f 0x80000000 else f).

(** ** The heap *)

(** [mem] holds the bytes of the heap outside the headers, absent ones are 0. *)
Record KMM := mkKMM {
  hdr : gmap Z MallocSegment;
  mem : gmap Z Z;
  first_ : Z;
  last_ : Z;
  base_break_ : Z;
  kernel_break_ : Z;
  reserved_max_ : Z;
  reserved_min_ : Z;
  tracing_ : bool;
}.

Definition set_hdr (k : KMM) (h : gmap Z MallocSegment) : KMM :=
  mkKMM h (mem k) (first_ k) (last_ k) (base_break_ k) (kernel_break_ k)
    (reserved_max_ k) (reserved_min_ k) (tracing_ k).
Definition set_mem (k : KMM) (m : gmap Z Z) : KMM :=
  mkKMM (hdr k) m (first_ k) (last_ k) (base_break_ k) (kernel_break_ k)
    (reserved_max_ k) (reserved_min_ k) (tracing_ k).
Definition set_last (k : KMM) (l : Z) : KMM :=
  mkKMM (hdr k) (mem k) (first_ k) l (base_break_ k) (kernel_break_ k)
    (reserved_max_ k) (reserved_min_ k) (tracing_ k).
Definition set_break (k : KMM) (b : Z) : KMM :=
  mkKMM (hdr k) (mem k) (first_ k) (last_ k) (base_break_ k) b
    (reserved_max_ k) (reserved_min_ k) (tracing_ k).
Definition set_tracing (k : KMM) (b : bool) : KMM :=
  mkKMM (hdr k) (mem k) (first_ k) (last_ k) (base_break_ k) (kernel_break_ k)
    (reserved_max_ k) (reserved_min_ k) b.

Definition byte_at (k : KMM) (a : Z) : Z := default 0 (mem k !! a).

(** Little-endian words. *)
Fixpoint word_at (n : nat) (k : KMM) (a : Z) : Z :=
  match n with O => 0 | S n => byte_at k a + 256 * word_at n k (a + 1) end.

Definition overlaps (a n h : Z) : bool := (h <? a + n) && (a <? h + HDR).

(** The header at [a], and a store to its fields. *)
Definition seg (k : KMM) (a : Z) : res MallocSegment :=
  match hdr k !! a with Some s => Val s | None => Err EUndef end.
Definition upd (k : KMM) (a : Z) (f : MallocSegment → MallocSegment) : res KMM :=
  s ← seg k a; Val (set_hdr k (<[a := f s]> (hdr k))).

(** [markerOk]: where there is no header it compares plain bytes.  A read that
    hits a header anywhere but at its start is outside the model. *)
Definition markerOk (k : KMM) (a : Z) : res bool :=
  match hdr k !! a with
  | Some s => Val (marker_ s =? marker a)
  | None =>
      if existsb (overlaps a 8) (map_to_list (hdr k)).*1 then Err EUndef
      else Val (word_at 8 k a =? marker a)
  end.
Definition check_marker (k : KMM) (a : Z) : res unit := ok ← markerOk k a; kassert ok.

(** [memset(a, 0, n)]: a header it reaches is gone. *)
Definition clear_range (k : KMM) (a n : Z) : KMM :=
  let h := filter (λ e, overlaps a n e.1 = false) (hdr k) in
  let m := filter (λ e, ¬ (a <= e.1 < a + n)) (mem k) in
  set_mem (set_hdr k h) m.

(** [new (a) MallocSegment(...)] *)
Definition construct (k : KMM) (a : Z) (s : MallocSegment) : KMM :=
  let k := clear_range k a HDR in
  set_hdr k (<[a := s]> (hdr k)).

Definition PAGE_SIZE : Z := 4096.
Definition DYNAMIC_KMM : bool := false.

(** The constructor; [start_address] is [ArchCommon::getFreeKernelMemoryStart()]. *)
Definition new (start_address min_heap_pages max_heap_pages : Z) : res KMM :=
  _ ← kassert (start_address mod PAGE_SIZE =? 0);
  let s := new_segment start_address 0 0 (u64 (min_heap_pages * PAGE_SIZE - HDR)) false in
  Val (mkKMM {[start_address := s]} ∅ start_address start_address start_address
    (u64 (start_address + min_heap_pages * PAGE_SIZE))
    (u64 (max_heap_pages * PAGE_SIZE)) (u64 (min_heap_pages * PAGE_SIZE)) false).

(** Moves the end of the heap.  The mapping of pages that follows the
    assertions is never reached with [DYNAMIC_KMM] 0. *)
Definition ksbrk (k : KMM) (size : Z) : res (KMM * Z) :=
  _ ← kassert (base_break_ k <=? u64 (kernel_break_ k + size));
  _ ← kassert ((reserved_max_ k =? 0) ||
               (u64 (u64 (kernel_break_ k - base_break_ k) + size) <=? reserved_max_ k));
  _ ← kassert DYNAMIC_KMM;
  Val (set_break k (u64 (kernel_break_ k + size)), kernel_break_ k).

(** The loop over the segments from [current]. *)
Fixpoint find_loop (fuel : nat) (k : KMM) (current requested_size : Z) : res (option Z) :=
  if current =? 0 then Val None
  else match fuel with
  | O => Err EFuel
  | S fuel =>
      _ ← check_marker k current;
      s ← seg k current;
      if (requested_size <=? getSize s) && negb (getUsed s) then Val (Some current)
      else find_loop fuel k (next_ s) requested_size
  end.

Definition findFreeSegment (k : KMM) (requested_size : Z) : res (KMM * Z) :=
  found ← find_loop (size (hdr k)) k (first_ k) requested_size;
  match found with
  | Some a => Val (k, a)
  | None =>
      l ← seg k (last_ k);
      if getUsed l then
        '(k, a) ← ksbrk k (HDR + requested_size);
        let k := construct k a (new_segment a (last_ k) 0 requested_size false) in
        k ← upd k (last_ k) (set_next a);
        Val (set_last k a, a)
      else
        '(k, _) ← ksbrk k (u64 (requested_size - getSize l));
        k ← upd k (last_ k) (setSize requested_size);
        Val (k, last_ k)
  end.

(** The check of the words of a block that is handed out. *)
Fixpoint zero_loop (n : nat) (k : KMM) (p freed : Z) : res KMM :=
  match n with
  | O => Val k
  | S n =>
      if word_at 4 k p =? 0 then zero_loop n k (p + 4) freed
      else
        _ ← kassert (freed =? 0);
        zero_loop n (set_mem k (filter (λ e, ¬ (p <= e.1 < p + 4)) (mem k))) (p + 4) freed
  end.

Definition fillSegment (k : KMM) (this_one requested_size : Z) (zero_check : bool) : res KMM :=
  _ ← check_marker k this_one;
  s ← seg k this_one;
  _ ← kassert (requested_size <=? getSize s);
  _ ← kassert (Z.land requested_size 0xF =? 0);
  k ← (if zero_check
       then zero_loop (Z.to_nat (requested_size / 4)) k (this_one + HDR) (freed_at_ s) else Val k);
  let space_left := u64 (getSize s - requested_size) in
  k ← upd k this_one (setUsed true);
  if HDR <? space_left then
    k ← upd k this_one (setSize requested_size);
    s ← seg k this_one;
    _ ← kassert (getSize s =? requested_size);
    _ ← kassert (getUsed s);
    let a := u64 (this_one + HDR + requested_size) in
    let k := construct k a (new_segment a this_one (next_ s) (space_left - HDR) false) in
    k ← (if next_ s =? 0 then Val k
         else _ ← check_marker k (next_ s); upd k (next_ s) (set_prev a));
    k ← upd k this_one (set_next a);
    Val (if next_ s =? 0 then set_last k a else k)
  else Val k.

Definition private_AllocateMemory (k : KMM) (requested_size called_by : Z) : res (KMM * Z) :=
  _ ← kassert (Z.land requested_size 0xF =? 0);
  '(k, a) ← findFreeSegment k requested_size;
  k ← fillSegment k a requested_size true;
  k ← upd k a (set_freed 0);
  k ← upd k a (set_alloc (if tracing_ k then called_by else 0));
  Val (k, u64 (a + HDR)).

Definition round16 (n : Z) : Z := Z.land (u64 (n + 0xF)) (u64 (Z.lnot 0xF)).

Definition allocateMemory (k : KMM) (requested_size called_by : Z) : res (KMM * Z) :=
  _ ← kassert (Z.land requested_size 0x80000000 =? 0);
  private_AllocateMemory k (round16 requested_size) called_by.

Definition getSegmentFromAddress (k : KMM) (virtual_address : Z) : res Z :=
  let m := u64 (virtual_address - HDR) in
  _ ← kassert (negb (virtual_address =? 0) && negb (m =? 0));
  _ ← check_marker k m;
  Val m.

(** From one segment to the next, or to the end of the heap. *)
Definition true_size (k : KMM) (a : Z) (s : MallocSegment) : Z :=
  if next_ s =? 0 then u64 (kernel_break_ k - a) else u64 (next_ s - a).

Definition mergeWithFollowingFreeSegment (k : KMM) (this_one : Z) : res (KMM * bool) :=
  _ ← check_marker k this_one;
  s ← seg k this_one;
  if next_ s =? 0 then Val (k, false)
  else
    _ ← check_marker k (next_ s);
    n ← seg k (next_ s);
    if getUsed n then Val (k, false)
    else
      k ← upd k this_one (setSize (getSize s + true_size k (next_ s) n));
      k ← upd k this_one (set_next (next_ n));
      k ← (if next_ n =? 0 then Val k
           else _ ← check_marker k (next_ n); upd k (next_ n) (set_prev this_one));
      let k := clear_range k (next_ s) HDR in
      Val (if next_ n =? 0 then set_last k this_one else k, true).

(** The merge with a free segment before; returns the segment that remains. *)
Definition premerge (k : KMM) (this_one : Z) : res (KMM * Z) :=
  s ← seg k this_one;
  if prev_ s =? 0 then Val (k, this_one)
  else
    _ ← check_marker k (prev_ s);
    p ← seg k (prev_ s);
    if getUsed p then Val (k, this_one)
    else
      k ← upd k (prev_ s) (setSize (true_size k this_one s + getSize p));
      k ← upd k (prev_ s) (set_next (next_ s));
      k ← (if next_ s =? 0 then
             _ ← kassert (this_one =? last_ k); Val (set_last k (prev_ s))
           else _ ← check_marker k (next_ s); upd k (next_ s) (set_prev (prev_ s)));
      Val (k, prev_ s).

(** The change of the break after a segment became free. *)
Definition shrink (k : KMM) (this_one : Z) : res KMM :=
  if negb (this_one =? last_ k) then Val k
  else
    s ← seg k this_one;
    let limit := u64 (base_break_ k + reserved_min_ k) in
    if negb (this_one =? first_ k) then
      if limit <? this_one then
        _ ← kassert (negb (prev_ s =? 0));
        _ ← check_marker k (prev_ s);
        k ← upd k (prev_ s) (set_next 0);
        '(k, _) ← ksbrk (set_last k (prev_ s)) (- (getSize s + HDR));
        Val k
      else if u64 (this_one + HDR + getSize s) <=? limit then Val k
      else
        let segment_size := u64 (limit - u64 (this_one + HDR)) in
        '(k, _) ← ksbrk k (s64 (segment_size - getSize s));
        upd k this_one (setSize segment_size)
    else if u64 (getSize s - reserved_min_ k) =? 0 then Val k
    else
      '(k, _) ← ksbrk k (s64 (- (getSize s - reserved_min_ k)));
      upd k this_one (setSize (reserved_min_ k)).

(** The final walk over all segments. *)
Fixpoint check_loop (fuel : nat) (k : KMM) (current : Z) : res unit :=
  if current =? 0 then Val tt
  else match fuel with
  | O => Err EFuel
  | S fuel => _ ← check_marker k current; s ← seg k current; check_loop fuel k (next_ s)
  end.

Definition freeSegment (k : KMM) (this_one : Z) : res KMM :=
  _ ← check_marker k this_one;
  s ← seg k this_one;
  _ ← kassert (getUsed s);
  k ← upd k this_one (setUsed false);
  '(k, this_one) ← premerge k this_one;
  '(k, _) ← mergeWithFollowingFreeSegment k this_one;
  s ← seg k this_one;
  let k := clear_range k (this_one + HDR) (getSize s) in
  k ← shrink k this_one;
  _ ← check_loop (size (hdr k)) k (first_ k);
  Val k.

(** The note of the caller, when the segment's header is still there. *)
Definition note_freed (k : KMM) (m called_by : Z) : res KMM :=
  if m <? kernel_break_ k then
    ok ← markerOk k m;
    if ok : bool then upd k m (set_freed called_by) else Val k
  else Val k.

Definition freeMemory (k : KMM) (virtual_address called_by : Z) : res (KMM * bool) :=
  if (virtual_address =? 0) || (virtual_address <? first_ k) || (kernel_break_ k <=? virtual_address)
  then Val (k, false)
  else
    m ← getSegmentFromAddress k virtual_address;
    ok ← markerOk k m;
    if negb ok then Val (k, false)
    else
      k ← freeSegment k m;
      k ← note_freed k m called_by;
      Val (k, true).

(** [memcpy] between two blocks. *)
Fixpoint copy_loop (n : nat) (k : KMM) (dst src : Z) : KMM :=
  match n with
  | O => k
  | S n => copy_loop n (set_mem k (<[dst := byte_at k src]> (mem k))) (dst + 1) (src + 1)
  end.

Definition reallocateMemory (k : KMM) (virtual_address new_size called_by : Z) : res (KMM * Z) :=
  _ ← kassert (Z.land new_size 0x80000000 =? 0);
  if new_size =? 0 then '(k, _) ← freeMemory k virtual_address called_by; Val (k, 0)
  else if virtual_address =? 0 then allocateMemory k new_size called_by
  else
    let new_size := round16 new_size in
    m ← getSegmentFromAddress k virtual_address;
    s ← seg k m;
    if new_size =? getSize s then Val (k, virtual_address)
    else if new_size <? getSize s then
      k ← fillSegment k m new_size false; Val (k, virtual_address)
    else
      easy ← (if next_ s =? 0 then Val false
              else n ← seg k (next_ s);
                   Val (negb (getUsed n) && (new_size <=? getSize n + getSize s)));
      if easy : bool then
        '(k, _) ← mergeWithFollowingFreeSegment k m;
        k ← fillSegment k m new_size false; Val (k, virtual_address)
      else
        '(k, new_address) ← private_AllocateMemory k new_size called_by;
        s ← seg k m;
        let k := copy_loop (Z.to_nat (getSize s)) k new_address virtual_address in
        k ← freeSegment k m;
        k ← note_freed k m called_by;
        Val (k, new_address).

(** The walk of [getUsedKernelMemory]. *)
Fixpoint used_loop (fuel : nat) (k : KMM) (current total : Z) : res Z :=
  if current =? 0 then Val total
  else match fuel with
  | O => Err EFuel
  | S fuel =>
      s ← seg k current;
      used_loop fuel k (next_ s) (if getUsed s then u64 (total + getSize s) else total)
  end.
Definition getUsedKernelMemory (k : KMM) : res Z := used_loop (size (hdr k)) k (first_ k) 0.

Definition startTracing (k : KMM) : KMM := set_tracing k true.
Definition stopTracing (k : KMM) : KMM := set_tracing k false.
Definition getKernelBreak (k : KMM) : Z := kernel_break_ k.

(** ** Blocks *)

(** What a segment stands for: its size, whether it is in use, and the notes of
    its last change. *)
Record block := mkB { bsize : Z; bused : bool; bfreed : Z; balloc : Z }.

#[export] Instance block_eq_dec : EqDecision block.
Proof. solve_decision. Defined.

Definition flag_of (size : Z) (used : bool) : Z := if used then size + 2 ^ 31 else size.

(** The segment of block [b] at [a] between [p] and [n]. *)
Definition seg_of (b : block) (a p n : Z) : MallocSegment :=
  mkSeg (marker a) n p (bfreed b) (balloc b) (flag_of (bsize b) (bused b)).

Definition wfb (b : block) : Prop := 0 <= bsize b < 2 ^ 31 ∧ (8 | bsize b).

(** The address after the blocks [bs] that start at [a]; the address of the
    last of them, or [p]; the link to the blocks [bs] at [e], or [n]. *)
Fixpoint end_ (a : Z) (bs : list block) : Z :=
  match bs with [] => a | b :: bs => end_ (a + HDR + bsize b) bs end.
Fixpoint lastp (p a : Z) (bs : list block) : Z :=
  match bs with [] => p | b :: bs => lastp a (a + HDR + bsize b) bs end.
Definition hdn (bs : list block) (e n : Z) : Z := match bs with [] => n | _ => e end.

(** The headers [h] from [a] on include those of the blocks [bs]. *)
Fixpoint chain (h : gmap Z MallocSegment) (p a : Z) (bs : list block) (n : Z) : Prop :=
  match bs with
  | [] => True
  | b :: bs =>
      h !! a = Some (seg_of b a p (hdn bs (a + HDR + bsize b) n)) ∧
      chain h a (a + HDR + bsize b) bs n
  end.

Lemma flag_ok size used : 0 <= size < 2 ^ 31 →
  Z.land (flag_of size used) 0x7FFFFFFF = size ∧
  Z.land (flag_of size used) 0x80000000 = (if used then 2 ^ 31 else 0).
Proof.
  intros Hs. change 0x7FFFFFFF with (Z.ones 31). rewrite Z.land_ones by lia.
  assert (flag_of size used = Z.lor size (if used then 2 ^ 31 else 0)) as Hf.
  { unfold flag_of. destruct used; [|by rewrite Z.lor_0_r].
    symmetry. rewrite <- Z.add_lor_land. enough (Z.land size (2 ^ 31) = 0) by lia.
    apply Z.bits_inj'. intros i Hi. rewrite Z.land_spec, Z.bits_0, Z.pow2_bits_eqb by lia.
    destruct (Z.eqb_spec 31 i) as [<-|]; [|by rewrite andb_false_r].
    rewrite Z.testbit_eqb by lia. rewrite Z.div_small by lia. done. }
  split.
  - unfold flag_of. destruct used; [|by rewrite Z.mod_small].
    rewrite <- (Z.mul_1_l (2 ^ 31)) at 1. by rewrite Z_mod_plus_full, Z.mod_small.
  - rewrite Hf, Z.land_lor_distr_l. change 0x80000000 with (2 ^ 31).
    assert (Z.land size (2 ^ 31) = 0) as ->.
    { apply Z.bits_inj'. intros i Hi. rewrite Z.land_spec, Z.bits_0, Z.pow2_bits_eqb by lia.
      destruct (Z.eqb_spec 31 i) as [<-|]; [|by rewrite andb_false_r].
      rewrite Z.testbit_eqb by lia. rewrite Z.div_small by lia. done. }
    by destruct used.
Qed.

Section seg_of.
Context (b : block) (Hb : wfb b) (a p n : Z).

Lemma getSize_ok : getSize (seg_of b a p n) = bsize b.
Proof. apply flag_ok, Hb. Qed.

Lemma getUsed_ok : getUsed (seg_of b a p n) = bused b.
Proof. unfold getUsed. cbn. rewrite (proj2 (flag_ok _ _ (proj1 Hb))). by destruct (bused b). Qed.

Lemma setUsed_ok u : setUsed u (seg_of b a p n) = seg_of (mkB (bsize b) u (bfreed b) (balloc b)) a p n.
Proof.
  unfold setUsed, set_flag, seg_of. cbn. rewrite (proj1 (flag_ok _ _ (proj1 Hb))).
  f_equal. unfold flag_of. destruct u; [|done]. change (2 ^ 31) with 0x80000000.
  rewrite <- Z.add_lor_land. enough (Z.land (bsize b) 0x80000000 = 0) by lia.
  apply (proj2 (flag_ok (bsize b) false (proj1 Hb))).
Qed.

Lemma setSize_ok size : 0 <= size < 2 ^ 31 →
  setSize size (seg_of b a p n) = seg_of (mkB size (bused b) (bfreed b) (balloc b)) a p n.
Proof.
  intros Hs. unfold setSize, set_flag, seg_of. cbn. rewrite (proj2 (flag_ok _ _ (proj1 Hb))).
  pose proof (flag_ok size false Hs) as [H1 H2]. unfold flag_of in H1, H2. rewrite H1.
  f_equal. unfold flag_of. destruct (bused b); [|by rewrite Z.lor_0_l].
  rewrite Z.lor_comm, <- Z.add_lor_land. change (2 ^ 31) with 0x80000000. rewrite H2. lia.
Qed.
End seg_of.

(** *** Chains *)

Ltac slia := unfold sizeof_MallocSegment in *; lia.

Lemma end_app a l1 l2 : end_ a (l1 ++ l2) = end_ (end_ a l1) l2.
Proof. revert a. induction l1; intros; [done|]. cbn. done. Qed.

Lemma lastp_app p a l1 l2 : lastp p a (l1 ++ l2) = lastp (lastp p a l1) (end_ a l1) l2.
Proof. revert p a. induction l1; intros; [done|]. cbn. done. Qed.

Lemma end_le a bs : Forall wfb bs → a <= end_ a bs.
Proof.
  intros Hw. revert a. induction Hw as [|b bs Hb Hw IH]; intros a; cbn [end_]; [lia|].
  specialize (IH (a + HDR + bsize b)). destruct Hb. unfold sizeof_MallocSegment in *. lia.
Qed.

Lemma end_lt a b bs : Forall wfb (b :: bs) → a + HDR + bsize b <= end_ a (b :: bs).
Proof. intros [Hb Hw]%Forall_cons. cbn [end_]. by apply end_le. Qed.

Lemma lastp_lt p a bs : Forall wfb bs → bs ≠ [] → a <= lastp p a bs < end_ a bs.
Proof.
  intros Hw. revert p a. induction Hw as [|b bs Hb Hw IH]; intros p a Hne; [done|].
  cbn [end_ lastp]. pose proof (end_le (a + HDR + bsize b) bs Hw). destruct Hb. unfold sizeof_MallocSegment in *.
  destruct bs as [|b' bs]; [cbn [lastp]; lia|]. specialize (IH a (a + 56 + bsize b) ltac:(done)).
  unfold sizeof_MallocSegment in *. lia.
Qed.

Lemma hdn_app l1 l2 e n : hdn (l1 ++ l2) e n = hdn l1 e (hdn l2 e n).
Proof. by destruct l1. Qed.

Lemma chain_app h p a l1 l2 n :
  chain h p a (l1 ++ l2) n ↔
  chain h p a l1 (hdn l2 (end_ a l1) n) ∧ chain h (lastp p a l1) (end_ a l1) l2 n.
Proof.
  revert p a. induction l1 as [|b l1 IH]; intros p a; cbn [app chain end_ lastp]; [tauto|].
  rewrite IH. destruct l1 as [|b' l1]; [cbn [app hdn end_]; tauto|].
  cbn [app hdn]. tauto.
Qed.

Lemma chain_ext h h' p a bs n : Forall wfb bs → (∀ x, a <= x < end_ a bs → h' !! x = h !! x) →
  chain h p a bs n → chain h' p a bs n.
Proof.
  intros Hw. revert p a. induction Hw as [|b bs Hb Hw IH]; intros p a Hx; cbn [chain]; [done|].
  pose proof (end_le (a + HDR + bsize b) bs Hw) as Hle. cbn [end_] in Hx. destruct Hb as [Hb _].
  intros (H1 & H3). split; [rewrite Hx; [done|slia]|].
  apply IH; [|done]. intros x ?. apply Hx. slia.
Qed.

(** A new predecessor for the first block. *)
Definition relink (p : Z) (bs : list block) (e : Z) (h : gmap Z MallocSegment) : gmap Z MallocSegment :=
  match bs with [] => h | _ => alter (set_prev p) e h end.

Lemma chain_relink h p p' a bs n : Forall wfb bs → chain h p a bs n →
  chain (relink p' bs a h) p' a bs n.
Proof.
  intros Hw. destruct bs as [|b bs]; [done|]. apply Forall_cons in Hw as [[Hs _] Hw].
  cbn [chain relink]. intros (H1 & H3). rewrite lookup_alter_eq, H1. split; [done|].
  eapply chain_ext; [done| |exact H3]. intros x ?. apply lookup_alter_ne. slia.
Qed.

Lemma relink_ne p bs e h x : x ≠ e → relink p bs e h !! x = h !! x.
Proof. intros. destruct bs; [done|]. by apply lookup_alter_ne. Qed.

(** Replacing the blocks in the middle by others that take the same space. *)
Lemma chain_replace h h' p a l1 m m' l2 n : m ≠ [] → m' ≠ [] →
  Forall wfb l1 → Forall wfb m → Forall wfb l2 →
  end_ (end_ a l1) m' = end_ (end_ a l1) m →
  chain h p a (l1 ++ m ++ l2) n →
  chain h' (lastp p a l1) (end_ a l1) m' (hdn l2 (end_ (end_ a l1) m) n) →
  (∀ x, x < end_ a l1 → h' !! x = h !! x) →
  (∀ x, end_ (end_ a l1) m <= x →
    h' !! x = relink (lastp (lastp p a l1) (end_ a l1) m') l2 (end_ (end_ a l1) m) h !! x) →
  chain h' p a (l1 ++ m' ++ l2) n.
Proof.
  intros Hm Hm' W1 Wm W2 He Hc Hmid Hlo Hhi. rewrite !chain_app in *. rewrite He.
  destruct Hc as (C1 & _ & C2). split.
  - rewrite hdn_app in *. destruct m, m'; [done..|]. cbn [hdn] in *.
    eapply chain_ext; [done| |exact C1]. intros x ?. apply Hlo. lia.
  - split; [done|]. apply (chain_relink _ _ (lastp (lastp p a l1) (end_ a l1) m')) in C2; [|done].
    eapply chain_ext; [done| |exact C2]. intros x ?. apply Hhi. lia.
Qed.

Lemma chain_lookup h p a l1 b l2 n : chain h p a (l1 ++ b :: l2) n →
  h !! end_ a l1 = Some (seg_of b (end_ a l1) (lastp p a l1) (hdn l2 (end_ a l1 + HDR + bsize b) n)).
Proof. intros (_ & H1 & _)%chain_app. done. Qed.

(** The addresses of the blocks. *)
Fixpoint addrs (a : Z) (bs : list block) : list Z :=
  match bs with [] => [] | b :: bs => a :: addrs (a + HDR + bsize b) bs end.

Lemma addrs_app a l1 l2 : addrs a (l1 ++ l2) = addrs a l1 ++ addrs (end_ a l1) l2.
Proof. revert a. induction l1; intros; [done|]. cbn. by f_equal. Qed.

Lemma addrs_in a bs x : Forall wfb bs → x ∈ addrs a bs → a <= x < end_ a bs.
Proof.
  intros Hw. revert a. induction Hw as [|b bs Hb Hw IH]; intros a; cbn [addrs end_].
  { intros Hx. by apply elem_of_nil in Hx. }
  pose proof (end_le (a + HDR + bsize b) bs Hw). destruct Hb.
  intros [->|Hx]%elem_of_cons; [slia|]. apply IH in Hx. slia.
Qed.

Lemma addrs_NoDup a bs : Forall wfb bs → NoDup (addrs a bs).
Proof.
  intros Hw. revert a. induction Hw as [|b bs Hb Hw IH]; intros a; cbn [addrs]; constructor; [|done].
  intros Hx%addrs_in; [|done]. destruct Hb. slia.
Qed.

Lemma addrs_chain h p a bs n x : chain h p a bs n → x ∈ addrs a bs → is_Some (h !! x).
Proof.
  revert p a. induction bs as [|b bs IH]; intros p a; cbn [addrs chain].
  { intros _ Hx. by apply elem_of_nil in Hx. }
  intros (H1 & H3) [->|Hx]%elem_of_cons; [by eexists|by eapply IH].
Qed.

Lemma addrs_split a bs x : x ∈ addrs a bs → ∃ l1 b l2, bs = l1 ++ b :: l2 ∧ x = end_ a l1.
Proof.
  revert a. induction bs as [|b bs IH]; intros a; cbn [addrs].
  { intros Hx. by apply elem_of_nil in Hx. }
  intros [->|Hx]%elem_of_cons; [by exists [], b, bs|].
  destruct (IH _ Hx) as (l1 & b' & l2 & -> & ->). by exists (b :: l1), b', l2.
Qed.

Lemma chain_length h p a bs n : Forall wfb bs → chain h p a bs n → (length bs <= size h)%nat.
Proof.
  intros Hw Hc. assert (length bs = length (addrs a bs)) as ->.
  { clear. revert a. induction bs; intros; cbn; [done|by rewrite <- IHbs]. }
  apply keys_size; [by apply addrs_NoDup|]. intros x Hx. by eapply addrs_chain.
Qed.

(** A free block with a note of its release holds only zeros. *)
Fixpoint clean (f : Z → Z) (a : Z) (bs : list block) : Prop :=
  match bs with
  | [] => True
  | b :: bs =>
      (bused b = false → bfreed b ≠ 0 → ∀ x, a + HDR <= x < a + HDR + bsize b → f x = 0) ∧
      clean f (a + HDR + bsize b) bs
  end.

Lemma clean_app f a l1 l2 : clean f a (l1 ++ l2) ↔ clean f a l1 ∧ clean f (end_ a l1) l2.
Proof. revert a. induction l1 as [|b l1 IH]; intros; cbn; [tauto|]. rewrite IH. tauto. Qed.

Lemma clean_ext f g a bs : Forall wfb bs → (∀ x, a <= x < end_ a bs → g x = f x) →
  clean f a bs → clean g a bs.
Proof.
  intros Hw. revert a. induction Hw as [|b bs Hb Hw IH]; intros a Hx; cbn [clean]; [done|].
  pose proof (end_le (a + HDR + bsize b) bs Hw) as Hle. cbn [end_] in Hx. destruct Hb as [Hb _].
  intros (H1 & H3). split; [intros ? ? x ?; rewrite Hx by slia; by apply H1|].
  apply IH; [|done]. intros x ?. apply Hx. slia.
Qed.

(** ** The heap holds a list of blocks *)

Record spine (k : KMM) (bs : list block) : Prop := {
  sp_chain : chain (hdr k) 0 (first_ k) bs 0;
  sp_wfb : Forall wfb bs;
  sp_ne : bs ≠ [];
  sp_bytes x : 0 <= byte_at k x;
  sp_end : end_ (first_ k) bs = kernel_break_ k;
  sp_last : last_ k = lastp 0 (first_ k) bs;
  sp_first : 0 < first_ k;
  sp_top : kernel_break_ k < 2 ^ 64;
  sp_base : base_break_ k = first_ k;
  sp_min : kernel_break_ k = first_ k + reserved_min_ k;
  sp_small : reserved_min_ k <= 2 ^ 31;
}.

(** No other headers are left over, and released blocks are zeroed. *)
Record heap (k : KMM) (bs : list block) : Prop := {
  heap_spine :> spine k bs;
  heap_dom x : is_Some (hdr k !! x) → x ∈ addrs (first_ k) bs;
  heap_clean : clean (byte_at k) (first_ k) bs;
}.

(** The same, except for what is inside the blocks [m]. *)
Record almost (k : KMM) (l1 m l2 : list block) : Prop := {
  al_spine :> spine k (l1 ++ m ++ l2);
  al_dom x : is_Some (hdr k !! x) →
    x ∈ addrs (first_ k) l1 ∨ end_ (first_ k) l1 <= x < end_ (first_ k) (l1 ++ m) ∨
    x ∈ addrs (end_ (first_ k) (l1 ++ m)) l2;
  al_clean1 : clean (byte_at k) (first_ k) l1;
  al_clean2 : clean (byte_at k) (end_ (first_ k) (l1 ++ m)) l2;
}.

Section heap_mid.
Context (k : KMM) (l1 : list block) (b : block) (l2 : list block).
Context (Hh : spine k (l1 ++ b :: l2)).
Let a := end_ (first_ k) l1.
Let p := lastp 0 (first_ k) l1.
Let e := a + HDR + bsize b.

Lemma mid_wfb : Forall wfb l1 ∧ wfb b ∧ Forall wfb l2.
Proof. pose proof (sp_wfb _ _ Hh) as [? [? ?]%Forall_cons]%Forall_app. done. Qed.

Lemma mid_bounds : 0 < first_ k <= a ∧ e <= kernel_break_ k < 2 ^ 64 ∧
  end_ e l2 = kernel_break_ k ∧ (l2 ≠ [] → e < kernel_break_ k) ∧ 0 <= bsize b < 2 ^ 31.
Proof.
  destruct mid_wfb as (W1 & Wb & W2). pose proof (sp_first _ _ Hh). pose proof (sp_top _ _ Hh).
  pose proof (end_le (first_ k) l1 W1). pose proof (end_le e l2 W2).
  pose proof (sp_end _ _ Hh) as He. rewrite end_app in He. cbn [end_] in He. fold a e in He.
  split; [lia|]. split; [lia|]. split; [done|]. split; [|apply Wb].
  intros Hne. pose proof (lastp_lt 0 e l2 W2 Hne). lia.
Qed.

Lemma mid_seg : hdr k !! a = Some (seg_of b a p (hdn l2 e 0)).
Proof. apply chain_lookup, (sp_chain _ _ Hh). Qed.

Lemma mid_next c l3 : l2 = c :: l3 → hdr k !! e = Some (seg_of c e a (hdn l3 (e + HDR + bsize c) 0)).
Proof.
  intros ->. pose proof (sp_chain _ _ Hh) as Hc.
  replace (l1 ++ b :: c :: l3) with ((l1 ++ [b]) ++ c :: l3) in Hc by by rewrite <- app_assoc.
  apply chain_lookup in Hc. rewrite end_app, lastp_app in Hc. done.
Qed.

Lemma mid_prev l0 c : l1 = l0 ++ [c] → p = end_ (first_ k) l0 ∧ a = p + HDR + bsize c ∧
  hdr k !! p = Some (seg_of c p (lastp 0 (first_ k) l0) a).
Proof.
  intros E. subst p a. rewrite E, lastp_app, end_app. cbn [lastp end_]. split; [done|]. split; [done|].
  pose proof (sp_chain _ _ Hh) as Hc. rewrite E, <- app_assoc in Hc. cbn [app] in Hc.
  by apply chain_lookup in Hc.
Qed.
End heap_mid.

(** No header starts inside a block. *)
Lemma mid_gap k l1 b l2 x : heap k (l1 ++ b :: l2) →
  end_ (first_ k) l1 < x < end_ (first_ k) l1 + HDR + bsize b → hdr k !! x = None.
Proof.
  intros Hh Hx. apply eq_None_not_Some. intros Hs%(heap_dom _ _ Hh).
  destruct (mid_wfb k l1 b l2 Hh) as (W1 & Wb & W2). rewrite addrs_app in Hs. cbn [addrs] in Hs.
  apply elem_of_app in Hs as [Hs|[->|Hs]%elem_of_cons]; [|lia|].
  - apply addrs_in in Hs; [lia|done].
  - apply addrs_in in Hs; [lia|done].
Qed.

(** *** Steps of the code *)

Lemma seg_val k a s : hdr k !! a = Some s → seg k a = Val s.
Proof. intros E. unfold seg. by rewrite E. Qed.

Lemma upd_val k a f s : hdr k !! a = Some s → upd k a f = Val (set_hdr k (alter f a (hdr k))).
Proof.
  intros E. unfold upd, seg. rewrite E. cbn. f_equal. f_equal. apply map_eq. intros x.
  destruct (decide (x = a)) as [->|].
  - by rewrite lookup_insert_eq, lookup_alter_eq, E.
  - by rewrite lookup_insert_ne, lookup_alter_ne.
Qed.

Lemma check_val k a b p n : hdr k !! a = Some (seg_of b a p n) → check_marker k a = Val tt.
Proof. intros E. unfold check_marker, markerOk. rewrite E. cbn. by rewrite Z.eqb_refl. Qed.

Lemma clear_hdr k a n x :
  hdr (clear_range k a n) !! x = if overlaps a n x then None else hdr k !! x.
Proof.
  unfold clear_range. cbn. destruct (overlaps a n x) eqn:E.
  - apply map_lookup_filter_None. right. intros s _. cbn. by rewrite E.
  - destruct (hdr k !! x) eqn:Ex.
    + by apply map_lookup_filter_Some.
    + apply map_lookup_filter_None. by left.
Qed.

Lemma clear_byte k a n x :
  byte_at (clear_range k a n) x = if bool_decide (a <= x < a + n) then 0 else byte_at k x.
Proof.
  unfold clear_range, byte_at. cbn. case_bool_decide.
  - rewrite (proj2 (map_lookup_filter_None _ _ _)); [done|]. right. intros s _. cbn. tauto.
  - destruct (mem k !! x) eqn:Ex; cbn.
    + by rewrite (map_lookup_filter_Some_2 _ _ _ z).
    + rewrite (proj2 (map_lookup_filter_None _ _ _)); [done|]. by left.
Qed.

Lemma overlaps_iff a n x : overlaps a n x = true ↔ a - HDR < x < a + n.
Proof. unfold overlaps. rewrite andb_true_iff, !Z.ltb_lt. lia. Qed.

Lemma clear_hdr_ne k a n x : ¬ (a - HDR < x < a + n) → hdr (clear_range k a n) !! x = hdr k !! x.
Proof. intros Hx. rewrite clear_hdr. destruct (overlaps a n x) eqn:E; [|done]. by apply overlaps_iff in E. Qed.

Lemma clear_hdr_in k a n x : a - HDR < x < a + n → hdr (clear_range k a n) !! x = None.
Proof. intros Hx. rewrite clear_hdr. by rewrite (proj2 (overlaps_iff a n x)). Qed.

Lemma word4_zero k a : word_at 4 k a = 0 → (∀ x, 0 <= byte_at k x) →
  ∀ x, a <= x < a + 4 → byte_at k x = 0.
Proof.
  cbn [word_at]. intros E Hb x Hx. pose proof (Hb a). pose proof (Hb (a + 1)).
  pose proof (Hb (a + 1 + 1)). pose proof (Hb (a + 1 + 1 + 1)).
  assert (x = a ∨ x = a + 1 ∨ x = a + 1 + 1 ∨ x = a + 1 + 1 + 1) as [-> | [-> | [-> | ->]]] by lia; lia.
Qed.

Lemma word4_of_zero k a : (∀ x, a <= x < a + 4 → byte_at k x = 0) → word_at 4 k a = 0.
Proof. intros Hz. cbn [word_at]. rewrite !Hz by lia. done. Qed.

(** Handing out [4 n] bytes. *)
Lemma zero_loop_ok n k p freed : (∀ x, 0 <= byte_at k x) →
  freed = 0 ∨ (∀ x, p <= x < p + 4 * Z.of_nat n → byte_at k x = 0) →
  ∃ m, zero_loop n k p freed = Val (set_mem k m) ∧
    ∀ x, byte_at (set_mem k m) x = if bool_decide (p <= x < p + 4 * Z.of_nat n) then 0 else byte_at k x.
Proof.
  revert k p. induction n as [|n IH]; intros k p Hb Hz; cbn [zero_loop].
  { exists (mem k). split; [by destruct k|]. intros x. rewrite bool_decide_eq_false_2 by lia. by destruct k. }
  assert (∀ k', (∀ x, 0 <= byte_at k' x) →
    (∀ x, byte_at k' x = if bool_decide (p <= x < p + 4) then 0 else byte_at k x) →
    ∃ m, zero_loop n k' (p + 4) freed = Val (set_mem k' m) ∧
      ∀ x, byte_at (set_mem k' m) x =
        if bool_decide (p <= x < p + 4 * Z.of_nat (S n)) then 0 else byte_at k x) as Hstep.
  { intros k' Hb' Hk'. destruct (IH k' (p + 4)) as (m & E & Hm); [done| |].
    - destruct Hz as [?|Hz]; [by left|right]. intros x Hx. rewrite Hk'.
      case_bool_decide; [done|]. apply Hz. lia.
    - exists m. split; [done|]. intros x. rewrite Hm, Hk'.
      repeat case_bool_decide; try done; lia. }
  destruct (Z.eqb_spec (word_at 4 k p) 0) as [Ew|Ew].
  - apply Hstep; [done|]. intros x. case_bool_decide; [|done]. by apply (word4_zero k p).
  - destruct Hz as [->|Hz]; [|exfalso; apply Ew, word4_of_zero; intros; apply Hz; lia].
    cbn [kassert Z.eqb mbind res_bind].
    set (k' := set_mem k _). assert (∀ x, byte_at k' x = if bool_decide (p <= x < p + 4) then 0 else byte_at k x) as Hk'.
    { intros x. exact (clear_byte k p 4 x). }
    destruct (Hstep k') as (m & E & Hm); [|done|exists m; by split].
    intros x. rewrite Hk'. case_bool_decide; [done|apply Hb].
Qed.

(** ** Replacing blocks of a heap *)

Record same_area (k k' : KMM) : Prop := {
  sa_first : first_ k' = first_ k;
  sa_break : kernel_break_ k' = kernel_break_ k;
  sa_base : base_break_ k' = base_break_ k;
  sa_min : reserved_min_ k' = reserved_min_ k;
  sa_max : reserved_max_ k' = reserved_max_ k;
  sa_tracing : tracing_ k' = tracing_ k;
}.

Lemma same_area_trans k1 k2 k3 : same_area k1 k2 → same_area k2 k3 → same_area k1 k3.
Proof. intros [] []. split; congruence. Qed.

Lemma heap_almost k l1 m l2 : heap k (l1 ++ m ++ l2) → almost k l1 m l2.
Proof.
  intros Hh. pose proof (sp_wfb _ _ Hh) as [W1 [Wm W2]%Forall_app]%Forall_app.
  pose proof (heap_clean _ _ Hh) as Hc. rewrite !clean_app in Hc. destruct Hc as (C1 & _ & C2).
  split; rewrite ?end_app; [apply Hh| |done|done].
  intros x Hx. apply (heap_dom _ _ Hh) in Hx. rewrite !addrs_app in Hx.
  apply elem_of_app in Hx as [Hx|[Hx|Hx]%elem_of_app]; [by left| |by right; right].
  right; left. by apply addrs_in.
Qed.

Lemma almost_heap k l1 m l2 : almost k l1 m l2 →
  let A := end_ (first_ k) l1 in
  (∀ x, A <= x < end_ A m → is_Some (hdr k !! x) → x ∈ addrs A m) →
  clean (byte_at k) A m → heap k (l1 ++ m ++ l2).
Proof.
  intros Ha A Hd Hc. destruct Ha as [Hs H1 H2 H3]. rewrite end_app in *. fold A in H1, H2, H3.
  split; [done| |rewrite !clean_app; by split_and!].
  intros x Hx. rewrite !addrs_app. fold A. rewrite !elem_of_app.
  destruct (H1 x Hx) as [?|[?|?]]; [by left|right; left; by apply Hd|by right; right].
Qed.

Lemma almost_replace k k' l1 m m' l2 A E P : almost k l1 m l2 → m ≠ [] → m' ≠ [] →
  same_area k k' → Forall wfb m' →
  A = end_ (first_ k) l1 → E = end_ A m → end_ A m' = E → P = lastp 0 (first_ k) l1 →
  chain (hdr k') P A m' (hdn l2 E 0) →
  (∀ x, x < A → hdr k' !! x = hdr k !! x) →
  (∀ x, E <= x → hdr k' !! x = relink (lastp P A m') l2 E (hdr k) !! x) →
  last_ k' = (match l2 with [] => lastp P A m' | _ => last_ k end) →
  (∀ x, 0 <= byte_at k' x) →
  (∀ x, ¬ (A <= x < E) → byte_at k' x = byte_at k x) →
  almost k' l1 m' l2.
Proof.
  intros Hh Hm Hm' Ha Wm' -> -> HE -> Hc Hlo Hhi Hl Hb Hbs.
  pose proof (sp_wfb _ _ Hh) as [W1 [Wm W2]%Forall_app]%Forall_app.
  set (A := end_ (first_ k) l1) in *. set (P := lastp 0 (first_ k) l1) in *.
  destruct Ha as [S1 S2 S3 S4 _ _].
  pose proof (end_le (first_ k) l1 W1) as Le1. pose proof (end_le A m Wm) as Le2. fold A in Le1.
  assert (end_ (first_ k) (l1 ++ m) = end_ A m) as Em by by rewrite end_app.
  destruct Hh as [Hs Hd C1 C2]. rewrite Em in Hd, C2.
  split; [split|..]; rewrite ?S1, ?S2, ?S3, ?S4; try apply Hs; try done.
  - apply (chain_replace (hdr k) (hdr k') 0 (first_ k) l1 m m' l2 0); try done. apply (sp_chain _ _ Hs).
  - apply Forall_app. split; [done|]. by apply Forall_app.
  - intros Hx%(f_equal length). rewrite !length_app in Hx. destruct m'; [done|]. cbn [length] in Hx. lia.
  - rewrite <- (sp_end _ _ Hs), !end_app. fold A. by rewrite HE.
  - rewrite Hl, !lastp_app. fold A P. rewrite HE. destruct l2 as [|b l2]; [done|].
    by rewrite (sp_last _ _ Hs), !lastp_app.
  - rewrite end_app. fold A. rewrite HE. intros x Hx.
    destruct (decide (A <= x < end_ A m)); [by right; left|]. apply Hd.
    destruct (decide (x < A)); [by rewrite <- Hlo|]. rewrite Hhi in Hx by lia.
    unfold relink in Hx. destruct l2; [done|]. destruct Hx as [s Hx].
    destruct (decide (x = end_ A m)) as [->|]; [|rewrite lookup_alter_ne in Hx by done; by eexists].
    rewrite lookup_alter_eq in Hx. destruct (hdr k !! _); [by eexists|done].
  - eapply clean_ext; [done| |exact C1]. intros x ?. apply Hbs. fold A in H. lia.
  - rewrite end_app. fold A. rewrite HE.
    eapply clean_ext; [done| |exact C2]. intros x ?. apply Hbs. lia.
Qed.

Lemma heap_replace k k' l1 m m' l2 A E P : heap k (l1 ++ m ++ l2) → m ≠ [] → m' ≠ [] →
  same_area k k' → Forall wfb m' →
  A = end_ (first_ k) l1 → E = end_ A m → end_ A m' = E → P = lastp 0 (first_ k) l1 →
  chain (hdr k') P A m' (hdn l2 E 0) →
  (∀ x, x < A → hdr k' !! x = hdr k !! x) →
  (∀ x, E <= x → hdr k' !! x = relink (lastp P A m') l2 E (hdr k) !! x) →
  (∀ x, A <= x < E → is_Some (hdr k' !! x) → x ∈ addrs A m') →
  last_ k' = (match l2 with [] => lastp P A m' | _ => last_ k end) →
  (∀ x, 0 <= byte_at k' x) →
  clean (byte_at k') A m' →
  (∀ x, ¬ (A <= x < E) → byte_at k' x = byte_at k x) →
  heap k' (l1 ++ m' ++ l2).
Proof.
  intros Hh Hm Hm' Ha Wm' EA EE HE EP Hc Hlo Hhi Hin Hl Hb Hcl Hbs.
  assert (first_ k' = first_ k) as Ef by apply Ha.
  apply almost_heap; rewrite ?Ef, <- ?EA, ?HE; try done.
  by apply (almost_replace k k' l1 m m' l2 A E P (heap_almost _ _ _ _ Hh)).
Qed.

(** A change of one header that keeps its place and size. *)
Lemma heap_alter k l1 b b' l2 f : heap k (l1 ++ b :: l2) → bsize b' = bsize b →
  (∀ a p n, f (seg_of b a p n) = seg_of b' a p n) →
  (bused b' = false → bfreed b' ≠ 0 → ∀ x, end_ (first_ k) l1 + HDR <= x < end_ (first_ k) l1 + HDR + bsize b →
     byte_at k x = 0) →
  heap (set_hdr k (alter f (end_ (first_ k) l1) (hdr k))) (l1 ++ b' :: l2).
Proof.
  intros Hh Hs Hf Hcl. pose proof (mid_wfb k l1 b l2 Hh) as (W1 & Wb & W2).
  pose proof (mid_seg k l1 b l2 Hh) as Hg. pose proof (proj1 Wb).
  assert (wfb b') as Wb' by (unfold wfb; by rewrite Hs).
  set (A := end_ (first_ k) l1) in *.
  eapply (heap_replace k _ l1 [b] [b'] l2 A (A + HDR + bsize b)); try done; cbn [end_ lastp hdr last_ set_hdr].
  - by constructor.
  - by rewrite Hs.
  - cbn [chain hdn]. rewrite lookup_alter_eq, Hg. cbn. by rewrite Hf.
  - intros x ?. rewrite lookup_alter_ne; [done|lia].
  - intros x ?. rewrite lookup_alter_ne by slia. unfold relink. destruct l2 as [|c l2]; [done|].
    destruct (decide (x = A + HDR + bsize b)) as [->|]; [|by rewrite lookup_alter_ne].
    rewrite lookup_alter_eq.
    pose proof (mid_next k l1 b (c :: l2) Hh c l2 eq_refl) as Hn. fold A in Hn. by rewrite Hn.
  - intros x ? Hx. cbn [addrs]. destruct (decide (x = A)) as [->|]; [by left|].
    rewrite lookup_alter_ne in Hx by done.
    rewrite (mid_gap k l1 b l2 _ Hh) in Hx by (fold A; lia). by destruct Hx.
  - rewrite (sp_last _ _ Hh), lastp_app. destruct l2; done.
  - apply (sp_bytes _ _ Hh).
  - cbn [clean]. rewrite Hs. by split.
Qed.

(** Bytes change inside one block. *)
Lemma heap_mem k m l1 b l2 : heap k (l1 ++ b :: l2) →
  let A := end_ (first_ k) l1 in
  let k' := set_mem k m in
  (∀ x, 0 <= byte_at k' x) →
  (bused b = false → bfreed b ≠ 0 → ∀ x, A + HDR <= x < A + HDR + bsize b → byte_at k' x = 0) →
  (∀ x, ¬ (A <= x < A + HDR + bsize b) → byte_at k' x = byte_at k x) →
  heap k' (l1 ++ b :: l2).
Proof.
  intros Hh A k' Hb Hc Hbs. pose proof (mid_wfb k l1 b l2 Hh) as (W1 & Wb & W2).
  set (e := A + HDR + bsize b).
  apply (heap_replace k k' l1 [b] [b] l2 A e (lastp 0 (first_ k) l1)); try done.
  - by apply Forall_singleton.
  - split; [|done]. apply (mid_seg k l1 b l2 Hh).
  - intros x Hx. unfold relink. destruct l2 as [|c l2]; [done|]. cbn [lastp].
    destruct (decide (x = e)) as [->|]; [|by rewrite lookup_alter_ne].
    rewrite lookup_alter_eq. pose proof (mid_next k l1 b (c :: l2) Hh c l2 eq_refl) as Hn.
    fold A e in Hn. change (hdr k') with (hdr k). by rewrite Hn.
  - intros x Hx Hi. cbn [addrs]. destruct (decide (x = A)) as [->|]; [by left|].
    change (hdr k') with (hdr k) in Hi.
    rewrite (mid_gap k l1 b l2 _ Hh) in Hi by (fold A; unfold e in Hx; lia). by destruct Hi.
  - change (last_ k') with (last_ k). rewrite (sp_last _ _ Hh), lastp_app. by destruct l2.
Qed.

(** *** Fill *)

Definition split_block (b : block) (n : Z) : list block :=
  if HDR <? bsize b - n
  then [mkB n true (bfreed b) (balloc b); mkB (bsize b - n - HDR) false 0 0]
  else [mkB (bsize b) true (bfreed b) (balloc b)].

Lemma relink_val k q l2 e :
  (∀ c l3, l2 = c :: l3 → e ≠ 0 ∧ ∃ p n, hdr k !! e = Some (seg_of c e p n)) →
  (if hdn l2 e 0 =? 0 then Val k
   else _ ← check_marker k (hdn l2 e 0); upd k (hdn l2 e 0) (set_prev q)) =
  Val (set_hdr k (relink q l2 e (hdr k))).
Proof.
  intros Hn. destruct l2 as [|c l3]; cbn [hdn relink]; [by destruct k|].
  destruct (Hn c l3 eq_refl) as (He & p & n & E). rewrite (proj2 (Z.eqb_neq _ _)) by done.
  by rewrite (check_val _ _ _ _ _ E), (upd_val _ _ _ _ E).
Qed.

Lemma hdn_last l2 e (x y : Z) : e ≠ 0 →
  (if hdn l2 e 0 =? 0 then x else y) = match l2 with [] => x | _ => y end.
Proof. intros He. destruct l2; [done|]. cbn [hdn]. by rewrite (proj2 (Z.eqb_neq _ _)). Qed.

Lemma land15 n : (16 | n) → Z.land n 0xF =? 0 = true.
Proof.
  intros [q ->]. apply Z.eqb_eq. change 0xF with (Z.ones 4). rewrite Z.land_ones by lia.
  by rewrite Z.mod_mul.
Qed.

Lemma construct_hdr k a s x : hdr (construct k a s) !! x =
  if decide (x = a) then Some s else if overlaps a HDR x then None else hdr k !! x.
Proof.
  unfold construct. cbn [hdr set_hdr]. case_decide as E; [subst; by rewrite lookup_insert_eq|].
  rewrite lookup_insert_ne by done. apply clear_hdr.
Qed.

(** The step of [fillSegment] that cuts a block in two, from the state in which
    the block's header already has its new size and flag. *)
Lemma heap_split k kx l1 b l2 n : heap k (l1 ++ b :: l2) →
  0 <= n → (8 | n) → n + HDR < bsize b →
  let A := end_ (first_ k) l1 in
  let C := A + HDR + n in
  let e := A + HDR + bsize b in
  let b1 := mkB n true (bfreed b) (balloc b) in
  hdr kx = alter (setSize n) A (alter (setUsed true) A (hdr k)) →
  last_ kx = last_ k → same_area k kx → (∀ x, 0 <= byte_at kx x) →
  (∀ x, ¬ (A <= x < e) → byte_at kx x = byte_at k x) →
  let kc := construct kx C (new_segment C A (hdn l2 e 0) (bsize b - n - HDR) false) in
  let kr := set_hdr kc (relink C l2 e (hdr kc)) in
  let k' := set_hdr kr (alter (set_next C) A (hdr kr)) in
  hdr kr !! A = Some (seg_of b1 A (lastp 0 (first_ k) l1) (hdn l2 e 0)) ∧
  heap (if hdn l2 e 0 =? 0 then set_last k' C else k')
       (l1 ++ [b1; mkB (bsize b - n - HDR) false 0 0] ++ l2).
Proof.
  intros Hh Hn Hn8 Hs A C e b1 Eh El Ha Hb Hbs kc kr k'.
  pose proof (mid_wfb k l1 b l2 Hh) as (W1 & Wb & W2).
  pose proof (mid_seg k l1 b l2 Hh) as Hg. fold A e in Hg.
  pose proof (mid_bounds k l1 b l2 Hh) as (B1 & B2 & B3 & B4 & B5). fold A e in B1, B2, B3, B4.
  assert (wfb b1) as Wb1 by (unfold wfb, b1; cbn [bsize]; split; [slia|done]).
  set (b2 := mkB (bsize b - n - HDR) false 0 0).
  assert (wfb b2) as Wb2.
  { unfold wfb, b2; cbn [bsize]; split; [slia|]. apply Z.divide_sub_r; [apply Z.divide_sub_r; [apply Wb|done]|by exists 7]. }
  assert (new_segment C A (hdn l2 e 0) (bsize b - n - HDR) false = seg_of b2 C A (hdn l2 e 0)) as Hnew.
  { unfold new_segment, seg_of. cbn. f_equal. change 0x7FFFFFFF with (Z.ones 31).
    rewrite Z.land_ones by lia. apply Z.mod_small. slia. }
  assert (∀ x, hdr kc !! x = if decide (x = C) then Some (seg_of b2 C A (hdn l2 e 0))
    else if decide (x = A) then Some (seg_of b1 A (lastp 0 (first_ k) l1) (hdn l2 e 0))
    else hdr k !! x) as Hkc.
  { intros x. unfold kc. rewrite construct_hdr, Hnew, Eh. case_decide; [done|]. case_decide as Ex.
    - subst x. destruct (overlaps C HDR A) eqn:Eo; [apply overlaps_iff in Eo; slia|].
      rewrite !lookup_alter_eq, Hg. cbn [fmap option_fmap option_map].
      rewrite (setUsed_ok b Wb), setSize_ok; [done|by split; apply Wb|slia].
    - rewrite !lookup_alter_ne by done. destruct (overlaps C HDR x) eqn:Eo; [|done].
      apply overlaps_iff in Eo. symmetry. apply (mid_gap k l1 b l2 _ Hh). fold A e. slia. }
  assert (hdr kr !! A = Some (seg_of b1 A (lastp 0 (first_ k) l1) (hdn l2 e 0))) as HrA.
  { unfold kr. cbn [hdr set_hdr]. rewrite relink_ne by slia. rewrite Hkc.
    rewrite decide_False by slia. by rewrite decide_True. }
  split; [done|].
  assert (∀ x, byte_at kc x = if bool_decide (C <= x < C + HDR) then 0 else byte_at kx x) as Hkcb
    by (intros x; exact (clear_byte kx C HDR x)).
  set (kf := if hdn l2 e 0 =? 0 then set_last k' C else k').
  assert (∀ x, byte_at kf x = byte_at kc x) as Hkfb by (intros x; unfold kf; by destruct (_ =? 0)).
  assert (hdr kf = hdr k') as Ehf by (unfold kf; by destruct (_ =? 0)).
  apply (heap_replace k kf l1 [b] [b1; b2] l2 A e (lastp 0 (first_ k) l1)); try done.
  - destruct Ha. unfold kf. destruct (_ =? 0); by split.
  - apply Forall_cons. split; [done|]. by apply Forall_singleton.
  - cbn [end_ bsize b1 b2]. unfold e, b1, b2. cbn [bsize]. slia.
  - rewrite Ehf. cbn [chain hdn]. unfold k'. cbn [hdr set_hdr]. rewrite lookup_alter_eq, HrA.
    split; [done|]. split; [|done]. cbn [bsize b1].
    rewrite lookup_alter_ne by slia. unfold kr. cbn [hdr set_hdr]. fold C.
    rewrite relink_ne by slia. rewrite Hkc, decide_True by done. done.
  - intros x Hx. rewrite Ehf. unfold k', kr. cbn [hdr set_hdr].
    rewrite lookup_alter_ne, relink_ne by slia. rewrite Hkc. by rewrite !decide_False by slia.
  - intros x Hx. rewrite Ehf. unfold k'. cbn [hdr set_hdr lastp b1]. cbn [bsize].
    rewrite lookup_alter_ne by slia. unfold kr, relink. cbn [hdr set_hdr]. fold C.
    destruct l2 as [|c l2]; [rewrite Hkc; by rewrite !decide_False by slia|].
    destruct (decide (x = e)) as [->|]; [rewrite !lookup_alter_eq|rewrite !lookup_alter_ne by done];
      rewrite Hkc; by rewrite !decide_False by slia.
  - intros x Hx Hi. rewrite Ehf in Hi. cbn [addrs]. unfold k', kr in Hi. cbn [hdr set_hdr] in Hi.
    destruct (decide (x = A)) as [->|]; [by left|]. rewrite lookup_alter_ne in Hi by done.
    rewrite relink_ne, Hkc in Hi by lia. case_decide as Ex; [rewrite Ex; right; left|].
    rewrite decide_False in Hi by done.
    rewrite (mid_gap k l1 b l2 _ Hh) in Hi by (fold A e; lia). by destruct Hi.
  - unfold kf. cbn [lastp]. destruct l2 as [|c l2]; cbn [hdn].
    + rewrite Z.eqb_refl. done.
    + rewrite (proj2 (Z.eqb_neq _ _)) by slia. done.
  - intros x. rewrite Hkfb, Hkcb. case_bool_decide; [done|apply Hb].
  - intros x Hx. rewrite Hkfb, Hkcb, bool_decide_eq_false_2 by slia. by apply Hbs.
Qed.

(** What [fillSegment] does to the block at [A]. *)
Lemma fillSegment_ok k l1 b l2 n zc : heap k (l1 ++ b :: l2) → 0 <= n <= bsize b → (16 | n) →
  (zc = true → bused b = false) →
  let A := end_ (first_ k) l1 in
  ∃ k', fillSegment k A n zc = Val k' ∧ heap k' (l1 ++ split_block b n ++ l2) ∧ same_area k k' ∧
    (∀ x, A + HDR <= x < A + HDR + n → byte_at k' x = if zc then 0 else byte_at k x) ∧
    (∀ x, ¬ (A <= x < A + HDR + bsize b) → byte_at k' x = byte_at k x).
Proof.
  intros Hh Hn Hn16 Hz A.
  pose proof (mid_wfb k l1 b l2 Hh) as (W1 & Wb & W2).
  pose proof (mid_seg k l1 b l2 Hh) as Hg.
  pose proof (mid_bounds k l1 b l2 Hh) as (B1 & B2 & B3 & B4 & B5).
  fold A in Hg, B1, B2, B3, B4. set (e := A + HDR + bsize b) in *.
  unfold fillSegment. rewrite (check_val _ _ _ _ _ Hg), (seg_val _ _ _ Hg). cbn [mbind res_bind].
  rewrite (getSize_ok b Wb). rewrite (proj2 (Z.leb_le _ _)) by lia.
  rewrite (land15 n Hn16). cbn [kassert mbind res_bind].
  assert (4 * Z.of_nat (Z.to_nat (n / 4)) = n) as Hn4.
  { destruct Hn16 as [q ->]. replace (q * 16) with ((q * 4) * 4) by lia. rewrite Z.div_mul by lia. lia. }
  assert (∃ m, (if zc then zero_loop (Z.to_nat (n / 4)) k (A + HDR) (freed_at_ (seg_of b A (lastp 0 (first_ k) l1) (hdn l2 e 0))) else Val k) = Val (set_mem k m) ∧
    ∀ x, byte_at (set_mem k m) x = if zc && bool_decide (A + HDR <= x < A + HDR + n) then 0 else byte_at k x)
    as (m & -> & Hm).
  { destruct zc; [|exists (mem k); split; [by destruct k|by destruct k]].
    destruct (zero_loop_ok (Z.to_nat (n / 4)) k (A + HDR) (bfreed b)) as (m & E & Hm).
    - apply (sp_bytes _ _ Hh).
    - destruct (decide (bfreed b = 0)) as [|Hf]; [by left|right]. intros x Hx.
      pose proof (heap_clean _ _ Hh) as Hc. rewrite clean_app in Hc. destruct Hc as (_ & Hc & _).
      apply Hc; [by apply Hz|done|]. fold A. lia.
    - exists m. split; [done|]. intros x. rewrite Hm, Hn4. done. }
  cbn [mbind res_bind]. set (k1 := set_mem k m) in *.
  assert (∀ x, ¬ (A <= x < e) → byte_at k1 x = byte_at k x) as Hm1.
  { intros x Hx. rewrite Hm, bool_decide_eq_false_2, andb_false_r by (unfold e in Hx; slia). done. }
  assert (∀ x, 0 <= byte_at k1 x) as Hm0.
  { intros x. rewrite Hm. destruct (zc && _); [done|apply (sp_bytes _ _ Hh)]. }
  assert (hdr k1 !! A = Some (seg_of b A (lastp 0 (first_ k) l1) (hdn l2 e 0))) as Hg1 by done.
  rewrite (upd_val _ _ _ _ Hg1). cbn [mbind res_bind]. rewrite (wrap_small 64) by lia.
  unfold split_block. destruct (Z.ltb_spec HDR (bsize b - n)) as [Hs|Hs].
  - set (k2 := set_hdr k1 _).
    assert (hdr k2 !! A = Some (seg_of (mkB (bsize b) true (bfreed b) (balloc b)) A (lastp 0 (first_ k) l1) (hdn l2 e 0))) as Hg2.
    { unfold k2. cbn [hdr set_hdr]. rewrite lookup_alter_eq, Hg1. cbn [fmap option_fmap option_map].
      by rewrite (setUsed_ok b Wb). }
    rewrite (upd_val _ _ _ _ Hg2). cbn [mbind res_bind]. set (k3 := set_hdr k2 _).
    assert (wfb (mkB n true (bfreed b) (balloc b))) as Wb1.
    { unfold wfb; cbn [bsize]. split; [lia|]. destruct Hn16 as [q ->]. exists (q * 2). lia. }
    assert (hdr k3 !! A = Some (seg_of (mkB n true (bfreed b) (balloc b)) A (lastp 0 (first_ k) l1) (hdn l2 e 0))) as Hg3.
    { unfold k3. cbn [hdr set_hdr]. rewrite lookup_alter_eq, Hg2. cbn [fmap option_fmap option_map].
      rewrite setSize_ok; [done|exact Wb|lia]. }
    rewrite (seg_val _ _ _ Hg3). cbn [mbind res_bind].
    rewrite (getSize_ok _ Wb1), (getUsed_ok _ Wb1). cbn [bsize bused]. rewrite Z.eqb_refl.
    cbn [kassert mbind res_bind next_ seg_of]. rewrite (wrap_small 64) by (unfold e in *; slia).
    destruct (heap_split k k3 l1 b l2 n Hh) as [HrA Hf]; try done; [lia|apply Wb1|slia|].
    fold A e in HrA, Hf. cbv zeta in HrA, Hf.
    set (kc := construct k3 _ _) in *.
    rewrite (relink_val kc (A + HDR + n) l2 e).
    2: { intros c l3 E. split; [unfold e in *; slia|].
         pose proof (mid_next k l1 b l2 Hh c l3 E) as Hc. fold A e in Hc.
         exists A, (hdn l3 (e + HDR + bsize c) 0). unfold kc. rewrite construct_hdr.
         rewrite decide_False by (unfold e; slia).
         destruct (overlaps _ _ e) eqn:Eo; [apply overlaps_iff in Eo; unfold e in Eo; slia|].
         cbn [k3 k2 hdr set_hdr]. by rewrite !lookup_alter_ne by (unfold e; slia). }
    cbn [mbind res_bind]. rewrite (upd_val _ _ _ _ HrA). cbn [mbind res_bind].
    eexists. split; [reflexivity|]. split; [exact Hf|].
    assert (∀ x, byte_at kc x = if bool_decide (A + HDR + n <= x < A + HDR + n + HDR) then 0 else byte_at k1 x) as Hkc
      by (intros x; exact (clear_byte k3 (A + HDR + n) HDR x)).
    split; [destruct (_ =? 0); by split|]. split.
    + intros x Hx. transitivity (byte_at kc x); [by destruct (_ =? 0)|].
      rewrite Hkc, bool_decide_eq_false_2, Hm, bool_decide_eq_true_2 by lia. by destruct zc.
    + intros x Hx. transitivity (byte_at kc x); [by destruct (_ =? 0)|].
      rewrite Hkc, bool_decide_eq_false_2 by (unfold e in *; slia). by apply Hm1.
  - eexists. split; [reflexivity|]. split.
    + assert (heap k1 (l1 ++ b :: l2)) as Hh1.
      { apply heap_mem; try done. intros Hu Hf x Hx. rewrite Hm.
        destruct (zc && _); [done|]. pose proof (heap_clean _ _ Hh) as Hc.
        rewrite clean_app in Hc. destruct Hc as (_ & Hc & _). by apply Hc. }
      apply (heap_alter k1 l1 b (mkB (bsize b) true (bfreed b) (balloc b)) l2 (setUsed true) Hh1); try done.
      intros. by apply setUsed_ok.
    + split; [by split|]. split; [|done]. intros x Hx. change (byte_at _ x) with (byte_at k1 x) at 1.
      rewrite Hm, bool_decide_eq_true_2 by lia. by destruct zc.
Qed.

(** *** Walks over all segments *)

(** The first block that fits, between those before and after it. *)
Fixpoint first_fit (n : Z) (bs : list block) : option (list block * block * list block) :=
  match bs with
  | [] => None
  | b :: bs =>
      if (n <=? bsize b) && negb (bused b) then Some ([], b, bs)
      else '(l1, c, l2) ← first_fit n bs; Some (b :: l1, c, l2)
  end.

Lemma first_fit_Some n bs l1 b l2 : first_fit n bs = Some (l1, b, l2) →
  bs = l1 ++ b :: l2 ∧ n <= bsize b ∧ bused b = false.
Proof.
  revert l1. induction bs as [|c bs IH]; intros l1; cbn [first_fit]; [done|].
  destruct (_ && _) eqn:E; [intros [= <- <- <-]; bool_to_prop; done|].
  destruct (first_fit n bs) as [[[l1' b'] l2']|]; [|done]. intros [= <- <- <-].
  by destruct (IH _ eq_refl) as (-> & ? & ?).
Qed.

Lemma find_loop_ok fuel k p a bs n : Forall wfb bs → 0 < a → (length bs <= fuel)%nat →
  chain (hdr k) p a bs 0 →
  find_loop fuel k (hdn bs a 0) n =
    Val (match first_fit n bs with Some (l1, _, _) => Some (end_ a l1) | None => None end).
Proof.
  revert p a bs. induction fuel as [|fuel IH]; intros p a bs Hw Ha Hf Hc;
    (destruct bs as [|b bs]; [done|]); cbn [length] in Hf; [lia|].
  apply Forall_cons in Hw as [Wb Hw]. destruct Hc as [Hg Hc]. cbn [hdn find_loop].
  rewrite (proj2 (Z.eqb_neq _ _)) by lia.
  rewrite (check_val _ _ _ _ _ Hg), (seg_val _ _ _ Hg). cbn [mbind res_bind first_fit].
  rewrite (getSize_ok b Wb), (getUsed_ok b Wb). destruct (_ && _); [done|]. cbn [next_ seg_of].
  pose proof (proj1 Wb). rewrite (IH a (a + HDR + bsize b) bs); [|done|slia|slia|done].
  by destruct (first_fit n bs) as [[[l1 c] l2]|].
Qed.

Lemma check_loop_ok fuel k p a bs : Forall wfb bs → 0 < a → (length bs <= fuel)%nat →
  chain (hdr k) p a bs 0 → check_loop fuel k (hdn bs a 0) = Val tt.
Proof.
  revert p a bs. induction fuel as [|fuel IH]; intros p a bs Hw Ha Hf Hc;
    (destruct bs as [|b bs]; [done|]); cbn [length] in Hf; [lia|].
  apply Forall_cons in Hw as [Wb Hw]. destruct Hc as [Hg Hc]. cbn [hdn check_loop].
  rewrite (proj2 (Z.eqb_neq _ _)) by lia.
  rewrite (check_val _ _ _ _ _ Hg), (seg_val _ _ _ Hg). cbn [mbind res_bind next_ seg_of].
  pose proof (proj1 Wb). apply (IH a (a + HDR + bsize b) bs); [done|slia|slia|done].
Qed.

Lemma heap_hdn k bs : heap k bs → hdn bs (first_ k) 0 = first_ k.
Proof. intros Hh. pose proof (sp_ne _ _ Hh). by destruct bs. Qed.

Lemma heap_length k bs : heap k bs → (length bs <= size (hdr k))%nat.
Proof. intros Hh. by eapply chain_length; [apply (sp_wfb _ _ Hh)|apply (sp_chain _ _ Hh)]. Qed.

Lemma ksbrk_fails k n : ksbrk k n = Err EAssert.
Proof. unfold ksbrk. by destruct (base_break_ k <=? _), (reserved_max_ k =? 0), (_ <=? reserved_max_ k). Qed.

(** *** Allocation *)

(** A block handed out, with its note, and the rest that stays free. *)
Definition taken (b : block) (n t : Z) : list block :=
  if HDR <? bsize b - n
  then [mkB n true 0 t; mkB (bsize b - n - HDR) false 0 0]
  else [mkB (bsize b) true 0 t].

Lemma round16_ok n : 0 <= n < 2 ^ 31 → round16 n = 16 * ((n + 15) / 16).
Proof.
  intros Hn. unfold round16. rewrite wrap_small by lia.
  change (u64 (Z.lnot 0xF)) with (Z.ones 64 - 15).
  assert (0 <= (n + 15) / 16 < 2 ^ 60) as Hq.
  { split; [apply Z.div_pos; lia|]. apply Z.div_lt_upper_bound; lia. }
  pose proof (Z.mod_pos_bound (n + 15) 16 ltac:(lia)) as Hr.
  rewrite (Z.div_mod (n + 15) 16) at 1 by lia.
  apply Z.bits_inj'. intros i Hi. rewrite Z.land_spec.
  change (Z.ones 64 - 15) with (Z.shiftl (Z.ones 60) 4). rewrite Z.shiftl_spec by done.
  change 16 with (2 ^ 4) in *. rewrite (Z.mul_comm (2 ^ 4)).
  destruct (decide (i < 4)).
  - rewrite (Z.testbit_neg_r _ (i - 4)), andb_false_r by lia.
    rewrite <- Z.shiftl_mul_pow2, Z.shiftl_spec_low by lia. done.
  - rewrite Z.mul_pow2_bits by lia.
    assert (Z.testbit ((n + 15) / 2 ^ 4 * 2 ^ 4 + (n + 15) mod 2 ^ 4) i = Z.testbit ((n + 15) / 2 ^ 4) (i - 4)) as ->.
    { rewrite (Z.mul_comm _ (2 ^ 4)), <- Z.div_mod by lia.
      rewrite <- Z.shiftr_div_pow2, Z.shiftr_spec by lia. f_equal. lia. }
    destruct (decide (i < 64)).
    + rewrite Z.ones_spec_low by lia. by rewrite andb_true_r.
    + rewrite Z.ones_spec_high by lia. rewrite andb_false_r. symmetry.
      destruct (decide ((n + 15) / 2 ^ 4 = 0)) as [->|]; [by rewrite Z.bits_0|].
      apply Z.bits_above_log2; [lia|]. enough (Z.log2 ((n + 15) / 2 ^ 4) < 60) by lia.
      apply Z.log2_lt_pow2; lia.
Qed.

Lemma private_ok k bs n c : heap k bs → 0 <= n → (16 | n) →
  match first_fit n bs with
  | None => private_AllocateMemory k n c = Err EAssert
  | Some (l1, b, l2) =>
      let A := end_ (first_ k) l1 in
      ∃ k', private_AllocateMemory k n c = Val (k', A + HDR) ∧
        heap k' (l1 ++ taken b n (if tracing_ k then c else 0) ++ l2) ∧ same_area k k' ∧
        (∀ x, A + HDR <= x < A + HDR + n → byte_at k' x = 0) ∧
        (∀ x, ¬ (A <= x < A + HDR + bsize b) → byte_at k' x = byte_at k x)
  end.
Proof.
  intros Hh Hn H16. unfold private_AllocateMemory, findFreeSegment. rewrite (land15 n H16).
  cbn [kassert mbind res_bind].
  pose proof (find_loop_ok (size (hdr k)) k 0 (first_ k) bs n (sp_wfb _ _ Hh) (sp_first _ _ Hh)
    (heap_length _ _ Hh) (sp_chain _ _ Hh)) as Hf.
  rewrite (heap_hdn k bs Hh) in Hf. rewrite Hf. cbn [mbind res_bind].
  destruct (first_fit n bs) as [[[l1 b] l2]|] eqn:Ef.
  - apply first_fit_Some in Ef as (-> & Hb & Hu). cbn [mbind res_bind].
    set (A := end_ (first_ k) l1).
    destruct (fillSegment_ok k l1 b l2 n true Hh) as (k1 & E & Hh1 & Ha1 & Hz & Hs); [lia|done|done|].
    fold A in E, Hz, Hs. rewrite E. cbn [mbind res_bind]. clear E.
    set (h := match split_block b n with x :: _ => x | [] => b end).
    assert (∃ r, split_block b n = h :: r ∧
      taken b n (if tracing_ k then c else 0) = mkB (bsize h) true 0 (if tracing_ k then c else 0) :: r ∧ bused h = true)
      as (r & Er & Et & Hhu) by (unfold h, split_block, taken; destruct (_ <? _); by eexists).
    rewrite Er in Hh1. cbn [app] in Hh1. rewrite Et. clearbody h. clear Er Et.
    pose proof Ha1 as [F1 F2 F3 F4 F5 F6].
    assert (A = end_ (first_ k1) l1) as EA by by rewrite F1.
    pose proof (mid_seg k1 l1 h (r ++ l2) Hh1) as G1. rewrite <- EA in G1.
    rewrite (upd_val _ _ _ _ G1). cbn [mbind res_bind].
    apply (heap_alter k1 l1 h (mkB (bsize h) (bused h) 0 (balloc h)) (r ++ l2) (set_freed 0)) in Hh1; [|done..].
    rewrite <- EA in Hh1. set (k2 := set_hdr k1 _) in *.
    pose proof (mid_seg k2 l1 _ (r ++ l2) Hh1) as G2.
    change (first_ k2) with (first_ k1) in G2. rewrite <- EA in G2.
    rewrite (upd_val _ _ _ _ G2). cbn [mbind res_bind]. change (tracing_ k2) with (tracing_ k1). rewrite F6.
    apply (heap_alter k2 l1 _ (mkB (bsize h) true 0 (if tracing_ k then c else 0)) (r ++ l2)
      (set_alloc (if tracing_ k then c else 0))) in Hh1; [|done| |done].
    2: { intros. unfold seg_of, set_alloc. cbn. by rewrite Hhu. }
    change (first_ k2) with (first_ k1) in Hh1. rewrite <- EA in Hh1.
    pose proof (mid_bounds k l1 b l2 Hh) as (B1 & B2 & _). fold A in B1, B2.
    pose proof (proj1 (proj1 (proj2 (mid_wfb k l1 b l2 Hh)))).
    eexists. split; [f_equal; f_equal; by rewrite (wrap_small 64) by slia|].
    split; [exact Hh1|]. split; [by split|]. by split.
  - pose proof (sp_ne _ _ Hh) as Hne. pose proof (sp_wfb _ _ Hh) as Hw.
    destruct (exists_last Hne) as (l0 & b & ->). apply Forall_app in Hw as [_ [Wb _]%Forall_cons].
    pose proof (mid_seg k l0 b [] Hh) as G. rewrite (sp_last _ _ Hh), lastp_app. cbn [lastp].
    rewrite (seg_val _ _ _ G). cbn [mbind res_bind].
    destruct (getUsed _); by rewrite ksbrk_fails.
Qed.

(** *** Release *)

(** A block grown over the block [b] that follows it. *)
Definition join (c b : block) : block :=
  mkB (bsize c + HDR + bsize b) (bused c) (bfreed c) (balloc c).

Definition absorb_prev (l1 : list block) (b : block) : list block * block :=
  match last l1 with
  | Some c => if bused c then (l1, b) else (removelast l1, join c b)
  | None => (l1, b)
  end.
Definition absorb_next (b : block) (l2 : list block) : block * list block :=
  match l2 with
  | c :: l3 => if bused c then (b, l2) else (join b c, l3)
  | [] => (b, [])
  end.

Lemma join_wfb k l1 c b l2 : spine k (l1 ++ c :: b :: l2) → wfb (join c b).
Proof.
  intros Hs. pose proof (sp_wfb _ _ Hs) as [_ [Wc [Wb _]%Forall_cons]%Forall_cons]%Forall_app.
  pose proof (mid_bounds k l1 c (b :: l2) Hs) as (B1 & B2 & B3 & _).
  pose proof (end_le (end_ (first_ k) l1 + HDR + bsize c + HDR + bsize b) l2) as Hl.
  cbn [end_] in B3. pose proof (sp_min _ _ Hs). pose proof (sp_small _ _ Hs).
  pose proof (sp_wfb _ _ Hs) as [_ [_ [_ W2]%Forall_cons]%Forall_cons]%Forall_app.
  specialize (Hl W2). destruct Wc as [? Dc], Wb as [? Db].
  unfold wfb, join. cbn [bsize]. split; [slia|].
  apply Z.divide_add_r; [apply Z.divide_add_r; [done|by exists 7]|done].
Qed.

Lemma true_size_ok k bs a b p l2 : spine k bs → 0 < a → a + HDR + bsize b <= kernel_break_ k →
  wfb b → end_ (a + HDR + bsize b) l2 = kernel_break_ k →
  true_size k a (seg_of b a p (hdn l2 (a + HDR + bsize b) 0)) = HDR + bsize b.
Proof.
  intros Hs Ha Hle Wb He. pose proof (sp_top _ _ Hs). pose proof (proj1 Wb). unfold true_size.
  destruct l2 as [|c l3]; cbn [next_ seg_of hdn].
  - cbn [end_] in He. rewrite Z.eqb_refl, wrap_small by slia. lia.
  - rewrite (proj2 (Z.eqb_neq _ _)), wrap_small by slia. lia.
Qed.

Lemma alter2 (h : gmap Z MallocSegment) a f g s : h !! a = Some s →
  alter f a (alter g a h) !! a = Some (f (g s)).
Proof. intros E. by rewrite !lookup_alter_eq, E. Qed.

(** The state after the header at [A] has grown over the next block. *)
Lemma almost_join k k' l1 c b l2 A E : almost k l1 [c; b] l2 →
  A = end_ (first_ k) l1 → E = A + HDR + bsize c + HDR + bsize b →
  same_area k k' →
  hdr k' !! A = Some (seg_of (join c b) A (lastp 0 (first_ k) l1) (hdn l2 E 0)) →
  (∀ x, x < A → hdr k' !! x = hdr k !! x) →
  (∀ x, E <= x → hdr k' !! x = relink A l2 E (hdr k) !! x) →
  last_ k' = (match l2 with [] => A | _ => last_ k end) →
  (∀ x, 0 <= byte_at k' x) →
  (∀ x, ¬ (A <= x < E) → byte_at k' x = byte_at k x) →
  almost k' l1 [join c b] l2.
Proof.
  intros Hk EA EE Ha Hg Hlo Hhi Hl Hb Hbs. pose proof (join_wfb k l1 c b l2 Hk) as Wj.
  apply (almost_replace k k' l1 [c; b] [join c b] l2 A E (lastp 0 (first_ k) l1)); try done.
  - by apply Forall_singleton.
  - cbn [end_ join bsize]. lia.
Qed.

Lemma merge_ok k l1 b l2 : almost k l1 [b] l2 →
  let A := end_ (first_ k) l1 in
  let bl := absorb_next b l2 in
  ∃ k' r, mergeWithFollowingFreeSegment k A = Val (k', r) ∧ almost k' l1 [bl.1] bl.2 ∧ same_area k k' ∧
    ∀ x, ¬ (A <= x < A + HDR + bsize bl.1) → byte_at k' x = byte_at k x.
Proof.
  intros Hk A bl. pose proof (mid_wfb k l1 b l2 Hk) as (W1 & Wb & W2).
  pose proof (mid_bounds k l1 b l2 Hk) as (B1 & B2 & B3 & B4 & B5).
  pose proof (mid_seg k l1 b l2 Hk) as Hg. fold A in B1, B2, B3, B4, Hg.
  unfold mergeWithFollowingFreeSegment. rewrite (check_val _ _ _ _ _ Hg), (seg_val _ _ _ Hg).
  cbn [mbind res_bind next_ seg_of]. unfold bl, absorb_next. destruct l2 as [|c l3]; cbn [hdn] in *.
  { rewrite Z.eqb_refl. eexists _, _. split; [reflexivity|]. split; [done|]. by split. }
  pose proof (mid_next k l1 b (c :: l3) Hk c l3 eq_refl) as Hc. fold A in Hc.
  set (e := A + HDR + bsize b) in *. rewrite (proj2 (Z.eqb_neq _ _)) by (unfold e; slia).
  rewrite (check_val _ _ _ _ _ Hc), (seg_val _ _ _ Hc). cbn [mbind res_bind next_ seg_of].
  apply Forall_cons in W2 as [Wc W3]. rewrite (getUsed_ok c Wc).
  destruct (bused c); cbn [fst snd].
  { eexists _, _. split; [reflexivity|]. split; [done|]. by split. }
  set (E := e + HDR + bsize c) in *. cbn [end_] in B3. fold E in B3.
  assert (almost k l1 [b; c] l3) as Hk2.
  { destruct Hk as [Hs Hd C1 C2]. rewrite end_app in Hd, C2. cbn [end_ clean] in Hd, C2. fold A e in Hd, C2.
    split; rewrite ?end_app; cbn [end_]; fold A e E; [done| |done|by apply C2].
    intros x Hx. pose proof (proj1 Wc). destruct (Hd x Hx) as [?|[?|Hin]]; [by left|right; left; unfold E; slia|].
    cbn [addrs] in Hin. apply elem_of_cons in Hin as [->|?]; [right; left; unfold E, e; slia|by right; right]. }
  pose proof (join_wfb k l1 b c l3 Hk2) as Wj. pose proof (proj1 Wc). pose proof (proj1 Wj) as Hj. cbn [join bsize] in Hj.
  pose proof (end_le E l3 W3) as Le.
  assert (true_size k e (seg_of c e A (hdn l3 E 0)) = HDR + bsize c) as ->.
  { apply (true_size_ok k (l1 ++ b :: c :: l3) e c A l3 Hk); (done || (unfold E, e in *; slia)). }
  rewrite (getSize_ok b Wb), (upd_val _ _ _ _ Hg). cbn [mbind res_bind]. set (k1 := set_hdr k _).
  assert (hdr k1 !! A = Some (seg_of (join b c) A (lastp 0 (first_ k) l1) e)) as G1.
  { unfold k1. cbn [hdr set_hdr]. rewrite lookup_alter_eq, Hg. cbn [fmap option_fmap option_map].
    rewrite setSize_ok; [|done|slia]. unfold join. by rewrite Z.add_assoc. }
  rewrite (upd_val _ _ _ _ G1). cbn [mbind res_bind]. set (k2 := set_hdr k1 _).
  assert (∀ x, x ≠ A → hdr k2 !! x = hdr k !! x) as K2.
  { intros x Hx. unfold k2, k1. cbn [hdr set_hdr]. by rewrite !lookup_alter_ne by done. }
  assert (hdr k2 !! A = Some (seg_of (join b c) A (lastp 0 (first_ k) l1) (hdn l3 E 0))) as G2.
  { unfold k2. cbn [hdr set_hdr]. by rewrite lookup_alter_eq, G1. }
  rewrite (relink_val k2 A l3 E).
  2: { intros d l4 ->. split; [unfold E, e; slia|]. exists e, (hdn l4 (E + HDR + bsize d) 0).
       rewrite K2 by (unfold E, e; slia).
       pose proof (sp_chain _ _ Hk2) as Hch. cbn [app] in Hch.
       replace (l1 ++ b :: c :: d :: l4) with ((l1 ++ [b; c]) ++ d :: l4) in Hch by by rewrite <- app_assoc.
       apply chain_lookup in Hch. rewrite end_app, lastp_app in Hch. done. }
  cbn [mbind res_bind]. set (k3 := set_hdr k2 _). set (k4 := clear_range k3 e HDR).
  set (kf := if hdn l3 E 0 =? 0 then set_last k4 A else k4).
  eexists kf, true. split; [done|].
  assert (same_area k kf) as Ha by (unfold kf; destruct (_ =? 0); by split).
  assert (∀ x, byte_at kf x = if bool_decide (e <= x < e + HDR) then 0 else byte_at k x) as Hb.
  { intros x. transitivity (byte_at k4 x); [unfold kf; by destruct (_ =? 0)|]. apply (clear_byte k3 e HDR x). }
  assert (∀ x, ¬ (e - HDR < x < e + HDR) → hdr kf !! x = relink A l3 E (hdr k2) !! x) as Hf.
  { intros x Hx. transitivity (hdr k4 !! x); [unfold kf; by destruct (_ =? 0)|].
    unfold k4. by rewrite clear_hdr_ne. }
  split; [|split; [done|]].
  - apply (almost_join k kf l1 b c l3 A E); try done.
    + rewrite Hf, relink_ne by (unfold E, e; slia). done.
    + intros x Hx. rewrite Hf, relink_ne, K2 by (unfold E, e; slia). done.
    + intros x Hx. rewrite Hf by (unfold E, e in Hx; slia). unfold relink.
      destruct l3; [apply K2; unfold E, e in Hx; slia|].
      destruct (decide (x = E)) as [->|]; [rewrite !lookup_alter_eq|rewrite !lookup_alter_ne by done];
        rewrite K2; (done || (unfold E, e in *; slia)).
    + unfold kf. destruct l3; cbn [hdn]; [done|]. rewrite (proj2 (Z.eqb_neq _ _)); [done|unfold E, e; slia].
    + intros x. rewrite Hb. case_bool_decide; [done|apply (sp_bytes _ _ Hk)].
    + intros x Hx. rewrite Hb, bool_decide_eq_false_2; [done|unfold E, e in *; slia].
  - intros x Hx. cbn [join bsize] in Hx. rewrite Hb, bool_decide_eq_false_2; [done|unfold e in *; slia].
Qed.

Lemma absorb_prev_cases l1 b :
  (absorb_prev l1 b = (l1, b) ∧ (l1 = [] ∨ ∃ l0 c, l1 = l0 ++ [c] ∧ bused c = true)) ∨
  ∃ l0 c, l1 = l0 ++ [c] ∧ bused c = false ∧ absorb_prev l1 b = (l0, join c b).
Proof.
  unfold absorb_prev. destruct l1 as [|x l] using rev_ind; [left; by split; [|left]|].
  rewrite last_snoc, removelast_last. destruct (bused x) eqn:E.
  - left. split; [done|]. right. by exists l, x.
  - right. by exists l, x.
Qed.

Lemma premerge_ok k l1 b l2 : heap k (l1 ++ b :: l2) → bused b = false →
  let A := end_ (first_ k) l1 in
  let r := absorb_prev l1 b in
  ∃ k', premerge k A = Val (k', end_ (first_ k) r.1) ∧ almost k' r.1 [r.2] l2 ∧ same_area k k' ∧
    mem k' = mem k ∧ bused r.2 = false.
Proof.
  intros Hh Hu A r. pose proof (mid_wfb k l1 b l2 Hh) as (W1 & Wb & W2).
  pose proof (mid_bounds k l1 b l2 Hh) as (B1 & B2 & B3 & B4 & B5).
  pose proof (mid_seg k l1 b l2 Hh) as Hg. fold A in B1, B2, B3, B4, Hg.
  set (e := A + HDR + bsize b) in *.
  unfold premerge. rewrite (seg_val _ _ _ Hg). cbn [mbind res_bind prev_ next_ seg_of].
  destruct (absorb_prev_cases l1 b) as [[Er Hl]|(l0 & c & -> & Hc & Er)]; subst r; rewrite Er; cbn [fst snd].
  - exists k. split; [|split; [by apply (heap_almost k l1 [b] l2)|by split]].
    destruct Hl as [-> | (l0 & c & -> & Hc)]; [done|].
    destruct (mid_prev k _ b l2 Hh l0 c eq_refl) as (Ep & Ea & Gp).
    pose proof (end_le (first_ k) l0 (proj1 (proj1 (Forall_app _ _ _) W1))) as L0.
    apply Forall_app in W1 as [_ [Wc _]%Forall_cons].
    rewrite (proj2 (Z.eqb_neq _ _)) by (rewrite Ep; lia).
    rewrite (check_val _ _ _ _ _ Gp), (seg_val _ _ _ Gp). cbn [mbind res_bind].
    by rewrite (getUsed_ok c Wc), Hc.
  - destruct (mid_prev k _ b l2 Hh l0 c eq_refl) as (Ep & Ea & Gp). fold A in Ea.
    set (P := lastp 0 (first_ k) (l0 ++ [c])) in *.
    pose proof (end_le (first_ k) l0 (proj1 (proj1 (Forall_app _ _ _) W1))) as L0.
    apply Forall_app in W1 as [W0 [Wc _]%Forall_cons].
    rewrite (proj2 (Z.eqb_neq _ _)) by lia.
    rewrite (check_val _ _ _ _ _ Gp), (seg_val _ _ _ Gp). cbn [mbind res_bind].
    rewrite (getUsed_ok c Wc), Hc.
    assert (heap k (l0 ++ [c; b] ++ l2)) as Hh2 by by rewrite <- app_assoc in Hh.
    pose proof (heap_almost _ _ _ _ Hh2) as Hk2.
    pose proof (join_wfb k l0 c b l2 Hk2) as Wj. pose proof (proj1 Wj) as Hj. cbn [join bsize] in Hj.
    pose proof (proj1 Wc) as Hc0. fold A in Gp.
    assert (true_size k A (seg_of b A P (hdn l2 e 0)) = HDR + bsize b) as ->.
    { apply (true_size_ok k _ A b P l2 Hh); (done || (unfold e in *; slia)). }
    rewrite (getSize_ok c Wc), (upd_val _ _ _ _ Gp). cbn [mbind res_bind]. set (k1 := set_hdr k _).
    assert (hdr k1 !! P = Some (seg_of (join c b) P (lastp 0 (first_ k) l0) A)) as G1.
    { unfold k1. cbn [hdr set_hdr]. rewrite lookup_alter_eq, Gp. cbn [fmap option_fmap option_map].
      rewrite setSize_ok; [|done|slia]. unfold join. do 3 f_equal. lia. }
    rewrite (upd_val _ _ _ _ G1). cbn [mbind res_bind]. set (k2 := set_hdr k1 _).
    assert (∀ x, x ≠ P → hdr k2 !! x = hdr k !! x) as K2.
    { intros x Hx. unfold k2, k1. cbn [hdr set_hdr]. by rewrite !lookup_alter_ne by done. }
    assert (hdr k2 !! P = Some (seg_of (join c b) P (lastp 0 (first_ k) l0) (hdn l2 e 0))) as G2.
    { unfold k2. cbn [hdr set_hdr]. by rewrite lookup_alter_eq, G1. }
    set (k3 := match l2 with [] => set_last k2 P | _ => set_hdr k2 (relink P l2 e (hdr k2)) end).
    assert (∀ T (f : KMM → res T),
      ((if hdn l2 e 0 =? 0 then _ ← kassert (A =? last_ k2); Val (set_last k2 P)
        else _ ← check_marker k2 (hdn l2 e 0); upd k2 (hdn l2 e 0) (set_prev P)) ≫= f) = f k3) as Hstep.
    { intros T f. destruct l2 as [|d l3]; cbn [hdn].
      - rewrite Z.eqb_refl. change (last_ k2) with (last_ k). rewrite (sp_last _ _ Hh), lastp_app.
        cbn [lastp]. fold A. by rewrite Z.eqb_refl.
      - pose proof (mid_next k _ b (d :: l3) Hh d l3 eq_refl) as Hd. fold A e in Hd.
        rewrite <- K2 in Hd by (unfold e; slia).
        rewrite (proj2 (Z.eqb_neq _ _)) by (unfold e; slia).
        by rewrite (check_val _ _ _ _ _ Hd), (upd_val _ _ _ _ Hd). }
    rewrite Hstep. exists k3. rewrite <- Ep. split; [done|].
    assert (same_area k k3) as Ha by (unfold k3; destruct l2; by split).
    assert (mem k3 = mem k) as Hm by (unfold k3; by destruct l2).
    assert (∀ x, byte_at k3 x = byte_at k x) as Hb by (intros x; unfold byte_at; by rewrite Hm).
    assert (hdr k3 = relink P l2 e (hdr k2)) as H3 by (unfold k3; by destruct l2).
    split; [|by split].
    apply (almost_join k k3 l0 c b l2 P e); try done.
    + unfold e. lia.
    + rewrite H3, relink_ne by (unfold e; slia). done.
    + intros x Hx. rewrite H3, relink_ne, K2 by (unfold e in *; slia). done.
    + intros x Hx. rewrite H3. unfold relink. destruct l2; [apply K2; unfold e in Hx; slia|].
      destruct (decide (x = e)) as [->|]; [rewrite !lookup_alter_eq|rewrite !lookup_alter_ne by done];
        rewrite K2; (done || (unfold e in *; slia)).
    + unfold k3. by destruct l2.
    + intros x. rewrite Hb. apply (sp_bytes _ _ Hh).
Qed.

(** Clearing the inside of the merged block. *)
Lemma clear_ok k l1 b l2 : almost k l1 [b] l2 →
  let A := end_ (first_ k) l1 in
  let k' := clear_range k (A + HDR) (bsize b) in
  heap k' (l1 ++ b :: l2) ∧ same_area k k' ∧
  ∀ x, byte_at k' x = if bool_decide (A + HDR <= x < A + HDR + bsize b) then 0 else byte_at k x.
Proof.
  intros Hk A k'. pose proof (mid_wfb k l1 b l2 Hk) as (W1 & Wb & W2).
  pose proof (mid_seg k l1 b l2 Hk) as Hg. fold A in Hg. set (e := A + HDR + bsize b) in *.
  assert (∀ x, byte_at k' x = if bool_decide (A + HDR <= x < e) then 0 else byte_at k x) as Hb
    by exact (clear_byte k (A + HDR) (bsize b)).
  split; [|split; [by split|done]].
  assert (∀ x, ¬ (A < x < e) → hdr k' !! x = hdr k !! x) as Hx
    by (intros x ?; unfold k'; rewrite clear_hdr_ne; [done|unfold e in *; slia]).
  apply (almost_heap k' l1 [b] l2).
  - apply (almost_replace k k' l1 [b] [b] l2 A e (lastp 0 (first_ k) l1)); try done.
    + by apply Forall_singleton.
    + split; [|done]. rewrite Hx by lia. done.
    + intros x ?. apply Hx. lia.
    + intros x ?. rewrite Hx by lia. unfold relink. destruct l2 as [|c l2]; [done|]. cbn [lastp].
      destruct (decide (x = e)) as [->|]; [|by rewrite lookup_alter_ne].
      rewrite lookup_alter_eq. pose proof (mid_next k l1 b (c :: l2) Hk c l2 eq_refl) as Hn.
      fold A e in Hn. by rewrite Hn.
    + change (last_ k') with (last_ k). rewrite (sp_last _ _ Hk), lastp_app. by destruct l2.
    + intros x. rewrite Hb. case_bool_decide; [done|apply (sp_bytes _ _ Hk)].
    + intros x ?. rewrite Hb, bool_decide_eq_false_2; [done|slia].
  - intros x Hx1 Hi. cbn [addrs end_] in *. change (first_ k') with (first_ k) in Hx1. fold A in Hx1.
    destruct (decide (x = A)) as [->|]; [by left|].
    unfold k' in Hi. rewrite clear_hdr_in in Hi by slia. by destruct Hi.
  - cbn [clean]. split; [|done]. intros _ _ x Hx1. change (first_ k') with (first_ k) in *. fold A in Hx1.
    rewrite Hb, bool_decide_eq_true_2; [done|unfold e; lia].
Qed.

(** The end of the heap cannot move, so a release that leaves a single free
    block fails. *)
Lemma shrink_ok k l1 b l2 : heap k (l1 ++ b :: l2) →
  shrink k (end_ (first_ k) l1) = if decide (l1 = [] ∧ l2 = []) then Err EAssert else Val k.
Proof.
  intros Hh. pose proof (mid_wfb k l1 b l2 Hh) as (W1 & Wb & W2).
  pose proof (mid_bounds k l1 b l2 Hh) as (B1 & B2 & B3 & B4 & B5).
  pose proof (mid_seg k l1 b l2 Hh) as Hg.
  pose proof (sp_last _ _ Hh) as El. rewrite lastp_app in El. cbn [lastp] in El.
  pose proof (sp_base _ _ Hh). pose proof (sp_min _ _ Hh).
  unfold shrink. set (A := end_ (first_ k) l1) in *.
  destruct l2 as [|c l2].
  - cbn [lastp end_] in *. rewrite El, Z.eqb_refl, (seg_val _ _ _ Hg). cbn [negb mbind res_bind].
    rewrite (getSize_ok b Wb). rewrite (wrap_small 64 (base_break_ k + _)) by slia.
    destruct l1 as [|d l1].
    + cbn [end_] in A. subst A. rewrite Z.eqb_refl. cbn [negb]. rewrite decide_True by done.
      replace (bsize b - reserved_min_ k) with (- HDR) by slia.
      change (u64 (- HDR) =? 0) with false. cbv iota. by rewrite ksbrk_fails.
    + rewrite decide_False by (by intros [? ?]).
      pose proof (lastp_lt 0 (first_ k) (d :: l1) W1 ltac:(done)). fold A in H1.
      rewrite (proj2 (Z.eqb_neq A (first_ k))) by lia. cbn [negb].
      rewrite (proj2 (Z.ltb_ge _ _)) by slia.
      rewrite (proj2 (Z.leb_le _ _)); [done|]. rewrite wrap_small by slia. lia.
  - rewrite decide_False by (by intros [? ?]).
    pose proof (lastp_lt A (A + HDR + bsize b) (c :: l2) W2 ltac:(done)).
    rewrite El, (proj2 (Z.eqb_neq _ _)); [done|slia].
Qed.

(** What a release makes of the blocks. *)
Definition released (l1 : list block) (b : block) (l2 : list block) : list block * block * list block :=
  let lb := absorb_prev l1 (mkB (bsize b) false (bfreed b) (balloc b)) in
  let bl := absorb_next lb.2 l2 in
  (lb.1, bl.1, bl.2).

(** The block [c] after the release covers the block [b] before it. *)
Lemma released_cover a l1 b l2 l1' c l2' : released l1 b l2 = (l1', c, l2') →
  Forall wfb l1 → wfb b → Forall wfb l2 →
  end_ a l1' <= end_ a l1 ∧ end_ a l1 + HDR + bsize b <= end_ a l1' + HDR + bsize c ∧
  (l1' = l1 ∨ end_ a l1' + HDR <= end_ a l1).
Proof.
  unfold released. intros [= <- <- <-] W1 [Hb _] W2.
  set (b0 := mkB (bsize b) false _ _).
  assert (∀ d, bsize d <= bsize (absorb_next d l2).1) as Hn.
  { intros d. unfold absorb_next. destruct W2 as [|x l2 Wx _]; [done|].
    destruct (bused x); cbn [fst]; [done|]. cbn [join bsize]. destruct Wx. slia. }
  specialize (Hn (absorb_prev l1 b0).2).
  destruct (absorb_prev_cases l1 b0) as [[Er _]|(l0 & x & -> & _ & Er)]; rewrite Er in *; cbn [fst snd] in *.
  - split; [lia|]. split; [change (bsize b0) with (bsize b) in Hn; lia|]. by left.
  - apply Forall_app in W1 as [_ [[Wx _] _]%Forall_cons]. rewrite end_app. cbn [end_].
    change (bsize (join x b0)) with (bsize x + HDR + bsize b) in Hn. split; [slia|]. split; [slia|]. right. slia.
Qed.

Lemma freeSegment_ok k l1 b l2 l1' c l2' : heap k (l1 ++ b :: l2) → bused b = true → bfreed b = 0 →
  released l1 b l2 = (l1', c, l2') →
  if decide (l1' = [] ∧ l2' = []) then freeSegment k (end_ (first_ k) l1) = Err EAssert
  else ∃ k', freeSegment k (end_ (first_ k) l1) = Val k' ∧ heap k' (l1' ++ c :: l2') ∧ same_area k k' ∧
    (∀ x, end_ (first_ k) l1' + HDR <= x < end_ (first_ k) l1' + HDR + bsize c → byte_at k' x = 0) ∧
    (∀ x, ¬ (end_ (first_ k) l1' <= x < end_ (first_ k) l1' + HDR + bsize c) → byte_at k' x = byte_at k x).
Proof.
  intros Hh Hu Hf Er. pose proof (mid_wfb k l1 b l2 Hh) as (W1 & Wb & W2).
  pose proof (mid_seg k l1 b l2 Hh) as Hg. set (A := end_ (first_ k) l1) in *.
  unfold freeSegment. rewrite (check_val _ _ _ _ _ Hg), (seg_val _ _ _ Hg). cbn [mbind res_bind].
  rewrite (getUsed_ok b Wb), Hu. cbn [kassert mbind res_bind].
  rewrite (upd_val _ _ _ _ Hg). cbn [mbind res_bind].
  set (b0 := mkB (bsize b) false (bfreed b) (balloc b)).
  assert (heap (set_hdr k (alter (setUsed false) A (hdr k))) (l1 ++ b0 :: l2)) as Hh1.
  { apply (heap_alter k l1 b b0 l2 (setUsed false) Hh); [done|intros; by apply setUsed_ok|].
    intros _ Hn. by destruct Hn. }
  set (k1 := set_hdr k _) in *.
  destruct (premerge_ok k1 l1 b0 l2 Hh1 eq_refl) as (k2 & E2 & H2 & A2 & M2 & _).
  change (first_ k1) with (first_ k) in E2. fold A in E2. rewrite E2. cbn [mbind res_bind]. clear E2.
  unfold released in Er. fold b0 in Er. set (lb := absorb_prev l1 b0) in *.
  assert (first_ k2 = first_ k) as F2 by apply A2.
  destruct (merge_ok k2 lb.1 lb.2 l2 H2) as (k3 & r & E3 & H3 & A3 & B3).
  rewrite F2 in E3, B3. rewrite E3. cbn [mbind res_bind]. clear E3.
  set (bl := absorb_next lb.2 l2) in *. injection Er as <- <- <-.
  assert (first_ k3 = first_ k) as F3 by (rewrite <- F2; apply A3).
  pose proof (mid_seg k3 lb.1 bl.1 bl.2 H3) as G3. rewrite F3 in G3.
  rewrite (seg_val _ _ _ G3). cbn [mbind res_bind].
  rewrite (getSize_ok bl.1) by apply (mid_wfb k3 lb.1 bl.1 bl.2 H3).
  destruct (clear_ok k3 lb.1 bl.1 bl.2 H3) as (H4 & A4 & B4). rewrite F3 in H4, A4, B4.
  set (k4 := clear_range k3 _ _) in *. assert (first_ k4 = first_ k) as F4 by done.
  pose proof (shrink_ok k4 lb.1 bl.1 bl.2 H4) as Hs. rewrite F4 in Hs. rewrite Hs.
  destruct (decide _); [done|]. cbn [mbind res_bind].
  pose proof (check_loop_ok (size (hdr k4)) k4 0 (first_ k4) _ (sp_wfb _ _ H4) (sp_first _ _ H4)
    (heap_length _ _ H4) (sp_chain _ _ H4)) as Hc.
  rewrite (heap_hdn _ _ H4) in Hc. rewrite Hc. cbn [mbind res_bind].
  exists k4. split; [done|]. split; [done|]. split.
  { apply (same_area_trans _ k3); [|done]. apply (same_area_trans _ k2); [|done].
    apply (same_area_trans _ k1); [by split|done]. }
  split; [intros x Hx; by rewrite B4, bool_decide_eq_true_2|].
  intros x Hx. rewrite B4, bool_decide_eq_false_2, B3 by slia. unfold byte_at. by rewrite M2.
Qed.

Definition noted (moved : bool) (c : block) (called_by : Z) : block :=
  if moved then c else mkB (bsize c) (bused c) called_by (balloc c).

Lemma note_freed_ok k l1 l1' c l2' A called : heap k (l1' ++ c :: l2') → A < kernel_break_ k →
  A = end_ (first_ k) l1 → Forall wfb l1 → end_ (first_ k) l1' <= A < end_ (first_ k) l1' + HDR + bsize c →
  (l1' = l1 ∨ end_ (first_ k) l1' + HDR <= A ∧ A + 8 <= end_ (first_ k) l1' + HDR + bsize c ∧ l1' ≠ l1) →
  (∀ x, end_ (first_ k) l1' + HDR <= x < end_ (first_ k) l1' + HDR + bsize c → byte_at k x = 0) →
  ∃ k', note_freed k A called = Val k' ∧ heap k' (l1' ++ noted (bool_decide (l1' ≠ l1)) c called :: l2') ∧
    same_area k k' ∧ mem k' = mem k.
Proof.
  intros Hh Hlt EA W1 HA Hcase Hz. unfold note_freed. rewrite (proj2 (Z.ltb_lt _ _)) by done.
  pose proof (mid_seg k l1' c l2' Hh) as Hg.
  destruct Hcase as [-> | (Hin1 & Hin2 & Hne)].
  - rewrite <- EA in *. unfold markerOk. rewrite Hg. cbn [mbind res_bind marker_ seg_of]. rewrite Z.eqb_refl.
    rewrite (upd_val _ _ _ _ Hg). rewrite bool_decide_eq_false_2 by tauto.
    eexists. split; [done|]. split; [|by split]. rewrite EA. unfold noted.
    apply (heap_alter k l1 c (mkB (bsize c) (bused c) called (balloc c)) l2' (set_freed called) Hh); [done|done|].
    intros _ _. by rewrite <- EA.
  - rewrite bool_decide_eq_true_2 by done. exists k. split; [|by split].
    unfold markerOk. rewrite (mid_gap k l1' c l2' A Hh) by slia.
    destruct (existsb _ _) eqn:Ex.
    + exfalso. apply existsb_exists in Ex as (x & Hx & Ho). apply list_elem_of_In in Hx.
      apply list_elem_of_fmap in Hx as ([y s] & -> & Hy). apply elem_of_map_to_list in Hy. cbn [fst] in *.
      apply overlaps_iff in Ho. rewrite (mid_gap k l1' c l2' y Hh) in Hy by slia. done.
    + cbn [mbind res_bind].
      assert (word_at 8 k A = 0) as -> by (cbn [word_at]; rewrite !Hz by lia; done).
      rewrite (proj2 (Z.eqb_neq _ _)); [done|]. unfold marker. intros E.
      assert (Z.testbit (Z.lor 0xdeadbeef00000000 (u32 A)) 32 = true) as Ht by (by rewrite Z.lor_spec).
      rewrite <- E in Ht. by rewrite Z.bits_0 in Ht.
Qed.

Lemma getSegment_ok k l1 b l2 : heap k (l1 ++ b :: l2) →
  getSegmentFromAddress k (end_ (first_ k) l1 + HDR) = Val (end_ (first_ k) l1).
Proof.
  intros Hh. pose proof (mid_bounds k l1 b l2 Hh) as (B1 & B2 & _ & _ & B5).
  pose proof (mid_seg k l1 b l2 Hh) as Hg. unfold getSegmentFromAddress.
  rewrite wrap_small by slia. rewrite Z.add_simpl_r.
  rewrite !(proj2 (Z.eqb_neq _ _)) by slia. cbn [negb andb kassert mbind res_bind].
  by rewrite (check_val _ _ _ _ _ Hg).
Qed.

Lemma freeMemory_ok k l1 b l2 l1' c l2' called :
  heap k (l1 ++ b :: l2) → bused b = true → bfreed b = 0 →
  let A := end_ (first_ k) l1 in
  let A' := end_ (first_ k) l1' in
  A + HDR < kernel_break_ k → released l1 b l2 = (l1', c, l2') →
  if decide (l1' = [] ∧ l2' = []) then freeMemory k (A + HDR) called = Err EAssert
  else ∃ k', freeMemory k (A + HDR) called = Val (k', true) ∧
    heap k' (l1' ++ noted (bool_decide (l1' ≠ l1)) c called :: l2') ∧ same_area k k' ∧
    (∀ x, A' + HDR <= x < A' + HDR + bsize c → byte_at k' x = 0) ∧
    (∀ x, ¬ (A' <= x < A' + HDR + bsize c) → byte_at k' x = byte_at k x).
Proof.
  intros Hh Hu Hf A A' Hlt Er. pose proof (mid_wfb k l1 b l2 Hh) as (W1 & Wb & W2).
  pose proof (mid_bounds k l1 b l2 Hh) as (B1 & _). fold A in B1.
  destruct (released_cover (first_ k) l1 b l2 l1' c l2' Er W1 Wb W2) as (C1 & C2 & C3).
  fold A A' in C1, C2, C3. pose proof (proj1 Wb) as Hb.
  unfold freeMemory. rewrite (proj2 (Z.eqb_neq _ _)) by slia. rewrite (proj2 (Z.ltb_ge _ _)) by slia.
  rewrite (proj2 (Z.leb_gt _ _)) by slia. cbn [orb].
  pose proof (getSegment_ok k l1 b l2 Hh) as Hs. fold A in Hs. rewrite Hs. clear Hs. cbn [mbind res_bind].
  pose proof (mid_seg k l1 b l2 Hh) as Hg. fold A in Hg.
  unfold markerOk. rewrite Hg. cbn [mbind res_bind marker_ seg_of]. rewrite Z.eqb_refl. cbn [negb].
  pose proof (freeSegment_ok k l1 b l2 l1' c l2' Hh Hu Hf Er) as Hs. fold A A' in Hs.
  destruct (decide _); [by rewrite Hs|]. destruct Hs as (k1 & -> & H1 & S1 & Z1 & R1).
  cbn [mbind res_bind]. pose proof S1 as [F1 G1 _ _ _ _].
  destruct (note_freed_ok k1 l1 l1' c l2' A called H1) as (k2 & -> & H2 & S2 & M2);
    rewrite ?F1, ?G1; try done; [slia|split; [done|slia]| |].
  { destruct (decide (l1' = l1)); [by left|right]. destruct C3 as [?|?]; [done|].
    split; [done|]. split; [slia|done]. }
  exists k2. split; [done|]. split; [done|]. split; [by apply (same_area_trans _ k1)|].
  unfold byte_at. rewrite M2. by split.
Qed.

Lemma free_true_lt k va called k' : freeMemory k va called = Val (k', true) → va < kernel_break_ k.
Proof.
  intros E. destruct (decide (va < kernel_break_ k)); [done|]. unfold freeMemory in E.
  by rewrite (proj2 (Z.leb_le (kernel_break_ k) _)), orb_true_r in E by lia.
Qed.

(** ** Histories of the heap *)

(** The blocks in use carry no note of a release. *)
Definition tidy (bs : list block) : Prop := Forall (λ b, bused b = true → bfreed b = 0) bs.

Lemma tidy_mid l1 b l2 : tidy (l1 ++ b :: l2) → bused b = true → bfreed b = 0.
Proof. unfold tidy. rewrite Forall_app, Forall_cons. tauto. Qed.

(** The heap, and the addresses handed out and not given back, with the sizes
    asked for: one entry for each allocation, also when two had the same
    address. *)
Record hist := mkHist { kmm : KMM; owned : list (Z * Z) }.

Inductive hstep : hist → hist → Prop :=
| h_alloc k o n called k' va :
    0 <= n < 2 ^ 31 → allocateMemory k n called = Val (k', va) →
    hstep (mkHist k o) (mkHist k' ((va, n) :: o))
| h_free k o1 va n o2 called k' :
    freeMemory k va called = Val (k', true) →
    hstep (mkHist k (o1 ++ (va, n) :: o2)) (mkHist k' (o1 ++ o2))
| h_write k o va n a v :
    (va, n) ∈ o → va <= a < va + n → 0 <= v < 256 →
    hstep (mkHist k o) (mkHist (set_mem k (<[a := v]> (mem k))) o)
| h_trace k o b : hstep (mkHist k o) (mkHist (set_tracing k b) o).

Definition booted (s : hist) : Prop := ∃ start pages max k,
  0 < start ∧ start mod PAGE_SIZE = 0 ∧ 0 < pages ∧ pages * PAGE_SIZE <= 2 ^ 31 ∧
  start + pages * PAGE_SIZE < 2 ^ 64 ∧ new start pages max = Val k ∧ s = mkHist k [].

Definition reachable (s : hist) : Prop := ∃ s0, booted s0 ∧ rtc hstep s0 s.

(** The blocks with their addresses. *)
Fixpoint located (a : Z) (bs : list block) : list (Z * block) :=
  match bs with [] => [] | b :: bs => (a, b) :: located (a + HDR + bsize b) bs end.

(** [va] is the address of a block in use with room for [n] bytes. *)
Definition holds (k : KMM) (bs : list block) (va n : Z) : Prop := ∃ b,
  (va - HDR, b) ∈ located (first_ k) bs ∧ bused b = true ∧ 0 <= n <= bsize b.

Lemma located_app a l1 l2 : located a (l1 ++ l2) = located a l1 ++ located (end_ a l1) l2.
Proof. revert a. induction l1; intros; [done|]. cbn. by f_equal. Qed.

Lemma located_in a bs x b : Forall wfb bs → (x, b) ∈ located a bs →
  a <= x ∧ x + HDR + bsize b <= end_ a bs ∧ 0 <= bsize b.
Proof.
  intros Hw. revert a. induction Hw as [|c bs Hc Hw IH]; intros a; cbn [located end_].
  { intros Hx. by apply elem_of_nil in Hx. }
  pose proof (end_le (a + HDR + bsize c) bs Hw). destruct Hc.
  intros [[= -> ->]|Hx]%elem_of_cons; [slia|]. apply IH in Hx. slia.
Qed.

Lemma located_split a bs x b : (x, b) ∈ located a bs →
  ∃ l1 l2, bs = l1 ++ b :: l2 ∧ x = end_ a l1.
Proof.
  revert a. induction bs as [|c bs IH]; intros a; cbn [located].
  { intros Hx. by apply elem_of_nil in Hx. }
  intros [[= -> ->]|Hx]%elem_of_cons; [by exists [], bs|].
  destruct (IH _ Hx) as (l1 & l2 & -> & ->). by exists (c :: l1), l2.
Qed.

Lemma located_disjoint a bs x b y c : Forall wfb bs → (x, b) ∈ located a bs → (y, c) ∈ located a bs →
  (x = y ∧ b = c) ∨ x + HDR + bsize b <= y ∨ y + HDR + bsize c <= x.
Proof.
  intros Hw. revert a. induction Hw as [|d bs Hd Hw IH]; intros a; cbn [located].
  { intros Hx. by apply elem_of_nil in Hx. }
  intros [[= -> ->]|Hx]%elem_of_cons [[= -> ->]|Hy]%elem_of_cons; [by left|..].
  - apply located_in in Hy; [lia|done].
  - apply located_in in Hx; [lia|done].
  - by apply (IH _ Hx Hy).
Qed.

(** Every other block in use survives a release at its place. *)
Lemma released_located a l1 b l2 l1' c l2' x d : released l1 b l2 = (l1', c, l2') →
  (x, d) ∈ located a (l1 ++ b :: l2) → bused d = true → x ≠ end_ a l1 →
  ∀ c', bsize c' = bsize c → (x, d) ∈ located a (l1' ++ c' :: l2').
Proof.
  unfold released. set (b0 := mkB (bsize b) false _ _). intros [= <- <- <-] Hx Hu Hne c' Hc'.
  assert (∀ l1 b1 b2 l2, bsize b1 = bsize b2 → x ≠ end_ a l1 ∨ bused b1 = false →
    (x, d) ∈ located a (l1 ++ b1 :: l2) → (x, d) ∈ located a (l1 ++ b2 :: l2)) as Hrepl.
  { intros m1 b1 b2 m2 Hs Hn. rewrite !located_app. cbn [located]. rewrite Hs, !elem_of_app, !elem_of_cons.
    intros [?|[[= -> ->]|?]]; [by left|destruct Hn; congruence|by right; right]. }
  assert (∀ l1 b1 b2 l2, bused b1 = false ∨ bused b2 = false ∧ x ≠ end_ a l1 →
    bused b2 = false ∨ bused b1 = false ∧ x ≠ end_ (end_ a l1) [b1] →
    (x, d) ∈ located a (l1 ++ b1 :: b2 :: l2) → (x, d) ∈ located a (l1 ++ join b1 b2 :: l2)) as Hjoin.
  { intros m1 b1 b2 m2 H1 H2. rewrite !located_app. cbn [located end_ join bsize] in *.
    rewrite !elem_of_app, !elem_of_cons, Z.add_assoc.
    replace (end_ a m1 + HDR + (bsize b1 + HDR) + bsize b2) with (end_ a m1 + HDR + bsize b1 + HDR + bsize b2) by lia.
    intros [?|[[= -> ->]|[[= -> ->]|?]]]; [by left| | |by right; right].
    - destruct H1 as [?|[? ?]]; congruence.
    - destruct H2 as [?|[? ?]]; congruence. }
  apply (Hrepl l1 b b0 l2 eq_refl (or_introl Hne)) in Hx.
  set (lb := absorb_prev l1 b0) in *.
  assert ((x, d) ∈ located a (lb.1 ++ lb.2 :: l2) ∧ bused lb.2 = false) as [Hx1 Hu1].
  { subst lb. destruct (absorb_prev_cases l1 b0) as [[Er _]|(l0 & e & -> & He & Er)]; rewrite Er; cbn [fst snd].
    - by split.
    - split; [|done]. apply Hjoin; [by left|by left|]. by rewrite <- app_assoc in Hx. }
  assert ((x, d) ∈ located a (lb.1 ++ (absorb_next lb.2 l2).1 :: (absorb_next lb.2 l2).2) ∧
          bused (absorb_next lb.2 l2).1 = false) as [Hx2 Hu2].
  { unfold absorb_next. destruct l2 as [|e l3]; [by split|]. destruct (bused e) eqn:He; cbn [fst snd]; [by split|].
    split; [|done]. apply Hjoin; [by left|by left|done]. }
  apply (Hrepl _ (absorb_next lb.2 l2).1); [done|by right|done].
Qed.

Record hinv (s : hist) (bs : list block) : Prop := {
  hi_heap : heap (kmm s) bs;
  hi_tidy : tidy bs;
  hi_owned va n : (va, n) ∈ owned s → holds (kmm s) bs va n;
  hi_once : NoDup (owned s).*1;
}.

Lemma new_heap start pages max k :
  0 < start → start mod PAGE_SIZE = 0 → 0 < pages → pages * PAGE_SIZE <= 2 ^ 31 →
  start + pages * PAGE_SIZE < 2 ^ 64 → new start pages max = Val k →
  heap k [mkB (pages * PAGE_SIZE - HDR) false 0 0].
Proof.
  intros H1 H2 H3 H4 H5 E. unfold new in E.
  rewrite H2 in E. cbn [Z.eqb kassert mbind res_bind] in E. injection E as <-.
  unfold PAGE_SIZE in *. set (b := mkB (pages * 4096 - HDR) false 0 0).
  rewrite (wrap_small 64 (pages * 4096 - HDR)), (wrap_small 64 (pages * 4096)), (wrap_small 64 (start + _)) by slia.
  assert (wfb b) as Wb.
  { unfold wfb, b. cbn [bsize]. split; [slia|]. exists (pages * 512 - 7). slia. }
  split; [split|..]; cbn [hdr first_ last_ base_break_ kernel_break_ reserved_min_ chain end_ lastp hdn];
    try done; try (unfold b; cbn [bsize]; slia).
  - split; [|done]. rewrite lookup_singleton_eq. f_equal. unfold new_segment, seg_of. f_equal.
    change 0x7FFFFFFF with (Z.ones 31). rewrite Z.land_ones by lia. unfold b. cbn [bsize bused flag_of].
    apply Z.mod_small. slia.
  - by apply Forall_singleton.
  - intros x Hx. cbn [addrs]. destruct (decide (x = start)) as [->|]; [by left|].
    rewrite lookup_singleton_ne in Hx by done. by destruct Hx.
Qed.

Lemma hinv_boot s : booted s → ∃ bs, hinv s bs.
Proof.
  intros (start & pages & max & k & H1 & H2 & H3 & H4 & H5 & E & ->).
  exists [mkB (pages * PAGE_SIZE - HDR) false 0 0].
  split; [by apply (new_heap start pages max)|by apply Forall_singleton| |apply NoDup_nil_2].
  by intros va n ?%elem_of_nil.
Qed.

Lemma round16_spec n : 0 <= n < 2 ^ 31 → n <= round16 n ∧ (16 | round16 n).
Proof.
  intros Hn. rewrite round16_ok by done. split; [|apply Z.divide_factor_l].
  pose proof (Z.div_mod (n + 15) 16). pose proof (Z.mod_pos_bound (n + 15) 16). lia.
Qed.

Lemma small_request n : 0 <= n < 2 ^ 31 → Z.land n 0x80000000 =? 0 = true.
Proof. intros Hn. apply Z.eqb_eq. apply (proj2 (flag_ok n false Hn)). Qed.

Lemma allocateMemory_ok k bs n c : heap k bs → 0 <= n < 2 ^ 31 →
  match first_fit (round16 n) bs with
  | None => allocateMemory k n c = Err EAssert
  | Some (l1, b, l2) =>
      let A := end_ (first_ k) l1 in
      ∃ k', allocateMemory k n c = Val (k', A + HDR) ∧
        heap k' (l1 ++ taken b (round16 n) (if tracing_ k then c else 0) ++ l2) ∧ same_area k k' ∧
        (∀ x, A + HDR <= x < A + HDR + round16 n → byte_at k' x = 0) ∧
        (∀ x, ¬ (A <= x < A + HDR + bsize b) → byte_at k' x = byte_at k x)
  end.
Proof.
  intros Hh Hn. destruct (round16_spec n Hn) as [H1 H2]. unfold allocateMemory.
  rewrite (small_request n Hn). cbn [kassert mbind res_bind]. apply private_ok; [done|lia|done].
Qed.

Lemma taken_located a b n t x d l1 l2 : (x, d) ∈ located a (l1 ++ b :: l2) → bused b = false → bused d = true →
  0 <= n <= bsize b → (x, d) ∈ located a (l1 ++ taken b n t ++ l2).
Proof.
  intros Hx Hb Hd Hn. rewrite !located_app in *. cbn [located] in Hx.
  assert (end_ (end_ a l1) (taken b n t) = end_ a l1 + HDR + bsize b) as He.
  { unfold taken. destruct (_ <? _); cbn [end_ bsize]; slia. }
  rewrite He, !elem_of_app in *. rewrite elem_of_cons in Hx.
  destruct Hx as [?|[[= -> ->]|?]]; [by left|congruence|by right; right].
Qed.

Lemma released_free l1 b l2 l1' c l2' : released l1 b l2 = (l1', c, l2') →
  bused c = false ∧ (∀ d, d ∈ l1' → d ∈ l1) ∧ (∀ d, d ∈ l2' → d ∈ l2).
Proof.
  unfold released. set (b0 := mkB (bsize b) false _ _). intros [= <- <- <-].
  assert (∀ d l, bused d = false → bused (absorb_next d l).1 = false ∧
    ∀ x, x ∈ (absorb_next d l).2 → x ∈ l) as Hn.
  { intros d [|e l] Hd; [by split|]. unfold absorb_next. destruct (bused e); cbn [fst snd]; [by split|].
    split; [done|]. intros x ?. by right. }
  destruct (absorb_prev_cases l1 b0) as [[Er _]|(l0 & e & -> & He & Er)]; rewrite Er; cbn [fst snd].
  - destruct (Hn b0 l2 eq_refl). by split_and!.
  - destruct (Hn (join e b0) l2 He). split_and!; [done| |done]. intros d ?. apply elem_of_app. by left.
Qed.

(** A free block is not owned. *)
Lemma free_not_owned k bs va n l1 b l2 : heap k bs → holds k bs va n → bs = l1 ++ b :: l2 → bused b = false →
  va ≠ end_ (first_ k) l1 + HDR.
Proof.
  intros Hh (d & Hd & Hu & _) -> Hb ->. rewrite Z.add_simpl_r in Hd. pose proof (sp_wfb _ _ Hh) as Hw.
  assert ((end_ (first_ k) l1, b) ∈ located (first_ k) (l1 ++ b :: l2)) as Hl.
  { rewrite located_app. cbn [located]. apply elem_of_app. right. by left. }
  pose proof (located_in _ _ _ _ Hw Hl) as (_ & _ & ?). pose proof (located_in _ _ _ _ Hw Hd) as (_ & _ & ?).
  destruct (located_disjoint _ _ _ _ _ _ Hw Hd Hl) as [[_ ->]|Hdis]; [congruence|slia].
Qed.

Lemma hinv_alloc k o bs n called k' va : hinv (mkHist k o) bs → 0 <= n < 2 ^ 31 →
  allocateMemory k n called = Val (k', va) → ∃ bs', hinv (mkHist k' ((va, n) :: o)) bs'.
Proof.
  intros [Hh Ht Ho Hnd] Hn E. cbn [kmm owned] in *. destruct (round16_spec n Hn) as [R1 _].
  pose proof (allocateMemory_ok k bs n called Hh Hn) as Hs.
  destruct (first_fit (round16 n) bs) as [[[l1 b] l2]|] eqn:Ef; [|by rewrite Hs in E].
  destruct Hs as (k1 & E' & H1 & S1 & _ & _). rewrite E in E'. injection E' as -> ->.
  apply first_fit_Some in Ef as (Ebs & Hb & Hu). destruct S1 as [F1 _ _ _ _ _].
  exists (l1 ++ taken b (round16 n) (if tracing_ k then called else 0) ++ l2).
  split; cbn [kmm owned]; [done| | |].
  - subst bs. unfold tidy in *. rewrite !Forall_app, Forall_cons in *. destruct Ht as (? & _ & ?).
    split; [done|]. split; [|done]. unfold taken.
    destruct (_ <? _); repeat (apply Forall_cons; split; [done|]); by apply Forall_nil.
  - subst bs. intros va n' [[= -> ->]|Hl]%elem_of_cons.
    + unfold holds. rewrite F1, Z.add_simpl_r. unfold taken. destruct (Z.ltb_spec HDR (bsize b - round16 n)).
      * exists (mkB (round16 n) true 0 (if tracing_ k then called else 0)).
        split; [|cbn [bsize bused]; split; [done|lia]].
        rewrite located_app. cbn [app located]. apply elem_of_app. right. by left.
      * exists (mkB (bsize b) true 0 (if tracing_ k then called else 0)).
        split; [|cbn [bsize bused]; split; [done|lia]].
        rewrite located_app. cbn [app located]. apply elem_of_app. right. by left.
    + destruct (Ho _ _ Hl) as (d & Hd & Hd2 & Hd3).
      exists d. rewrite F1. split; [|done]. eapply taken_located; [exact Hd|done|done|lia].
  - cbn [fmap list_fmap fst]. apply NoDup_cons. split; [|done]. intros ([va n'] & Eva & Hin)%list_elem_of_fmap.
    cbn in Eva. exact (free_not_owned k bs va n' l1 b l2 Hh (Ho _ _ Hin) Ebs Hu (eq_sym Eva)).
Qed.

Lemma hinv_free k o1 o2 bs va n called k' : hinv (mkHist k (o1 ++ (va, n) :: o2)) bs →
  freeMemory k va called = Val (k', true) → ∃ bs', hinv (mkHist k' (o1 ++ o2)) bs'.
Proof.
  intros [Hh Ht Ho Hnd] E. cbn [kmm owned] in *.
  destruct (Ho va n) as (b & Hb & Hu & _); [apply elem_of_app; right; by left|].
  apply located_split in Hb as (l1 & l2 & -> & Ea).
  assert (va = end_ (first_ k) l1 + HDR) as -> by lia.
  assert (bfreed b = 0) as Hf.
  { by eapply tidy_mid. }
  pose proof (free_true_lt _ _ _ _ E) as Hlt.
  destruct (released l1 b l2) as [[l1' c] l2'] eqn:Er.
  pose proof (freeMemory_ok k l1 b l2 l1' c l2' called Hh Hu Hf Hlt Er) as Hs. cbv zeta in Hs.
  destruct (decide _); [by rewrite Hs in E|]. destruct Hs as (k1 & E1 & H1 & S1 & _).
  rewrite E in E1. injection E1 as ->. destruct S1 as [F1 _ _ _ _ _].
  exists (l1' ++ noted (bool_decide (l1' ≠ l1)) c called :: l2').
  destruct (released_free _ _ _ _ _ _ Er) as (Hc & Hl1 & Hl2).
  rewrite fmap_app, fmap_cons in Hnd. cbn [fst] in Hnd.
  assert (Hperm : (o1.*1 ++ (end_ (first_ k) l1 + HDR) :: o2.*1) ≡ₚ (end_ (first_ k) l1 + HDR) :: (o1 ++ o2).*1)
    by (by rewrite fmap_app, <- Permutation_middle).
  rewrite Hperm in Hnd. apply NoDup_cons in Hnd as [Hout Hnd].
  split; cbn [kmm owned]; [done| | |done].
  - unfold tidy in *. rewrite Forall_app, Forall_cons, !Forall_forall in *.
    destruct Ht as (T1 & _ & T2). split; [auto|]. split; [|auto].
    unfold noted. destruct (bool_decide _); cbn [bused]; congruence.
  - intros va n' Hl'. destruct (Ho va n') as (d & Hd & Hd2 & Hd3).
    { apply elem_of_app in Hl' as [|]; apply elem_of_app; [by left|right; by right]. }
    exists d. rewrite F1. split; [|done].
    assert (va ≠ end_ (first_ k) l1 + HDR) by (intros ->; apply Hout; by apply (list_elem_of_fmap_2 fst) in Hl').
    eapply released_located; [exact Er|exact Hd|done|lia|]. unfold noted. by destruct (bool_decide _).
Qed.

Lemma hinv_write k o bs va n a v : hinv (mkHist k o) bs → (va, n) ∈ o → va <= a < va + n → 0 <= v < 256 →
  hinv (mkHist (set_mem k (<[a := v]> (mem k))) o) bs.
Proof.
  intros [Hh Ht Ho Hnd] Hl Ha Hv. cbn [kmm owned] in *. destruct (Ho _ _ Hl) as (b & Hb & Hu & Hn).
  split; cbn [kmm owned]; [|done|done|done].
  apply located_split in Hb as (l1 & l2 & -> & Ea).
  assert (∀ x, byte_at (set_mem k (<[a := v]> (mem k))) x = if decide (x = a) then v else byte_at k x) as Hbt.
  { intros x. unfold byte_at. cbn [mem set_mem]. case_decide as Ex; [subst; by rewrite lookup_insert_eq|].
    by rewrite lookup_insert_ne. }
  apply heap_mem; [done|..].
  - intros x. rewrite Hbt. case_decide; [lia|apply (sp_bytes _ _ Hh)].
  - congruence.
  - intros x Hx. rewrite Hbt, decide_False; [done|slia].
Qed.

Lemma hinv_reachable s : reachable s → ∃ bs, hinv s bs.
Proof.
  intros (s0 & H0 & Hr). apply hinv_boot in H0. revert H0.
  induction Hr as [|s1 s2 s3 Hst _ IH]; [done|]. intros [bs Hi]. apply IH.
  destruct Hst as [k o n c k' va ? E|k o1 va n o2 c k' E|k o va n a v Hl ? ?|k o b].
  - by eapply hinv_alloc.
  - by eapply hinv_free.
  - exists bs. by eapply hinv_write.
  - exists bs. destruct Hi as [[[] ? ?] Ht Ho Hnd]. by split; [split; [split|..]|..].
Qed.

Lemma release_twice k l1 b l2 called called' k' : heap k (l1 ++ b :: l2) → bused b = true → bfreed b = 0 →
  let va := end_ (first_ k) l1 + HDR in
  freeMemory k va called = Val (k', true) → freeMemory k' va called' = Err EAssert.
Proof.
  intros Hh Hu Hf va E. pose proof (mid_wfb k l1 b l2 Hh) as (W1 & Wb & W2). pose proof (proj1 Wb) as Hb.
  pose proof (mid_bounds k l1 b l2 Hh) as (B1 & B2 & _).
  pose proof (free_true_lt _ _ _ _ E) as Hlt.
  destruct (released l1 b l2) as [[l1' c] l2'] eqn:Er.
  pose proof (freeMemory_ok k l1 b l2 l1' c l2' called Hh Hu Hf Hlt Er) as Hs. cbv zeta in Hs.
  destruct (released_free _ _ _ _ _ _ Er) as (Hc & _ & _).
  destruct (released_cover (first_ k) l1 b l2 l1' c l2' Er W1 Wb W2) as (C1 & C2 & C3).
  fold va in Hs. destruct (decide _); [by rewrite Hs in E|]. destruct Hs as (k1 & E1 & H1 & S1 & Z1 & _).
  rewrite E in E1. injection E1 as ->. destruct S1 as [F1 G1 _ _ _ _].
  set (c' := noted _ c called) in *. assert (bsize c' = bsize c) as Hs' by (unfold c', noted; by destruct (bool_decide _)).
  assert (bused c' = false) as Hu' by (unfold c', noted; destruct (bool_decide _); by cbn).
  unfold freeMemory. rewrite F1, G1. rewrite (proj2 (Z.eqb_neq _ _)) by (unfold va; slia).
  rewrite (proj2 (Z.ltb_ge _ _)) by (unfold va; slia). rewrite (proj2 (Z.leb_gt _ _)) by done. cbn [orb].
  destruct (decide (l1' = l1)) as [->|Hne].
  - pose proof (getSegment_ok k1 l1 c' l2' H1) as Hg. rewrite F1 in Hg. fold va in Hg. rewrite Hg.
    pose proof (mid_seg k1 l1 c' l2' H1) as Hg'. rewrite F1 in Hg'.
    pose proof (mid_wfb k1 l1 c' l2' H1) as (_ & Wc & _).
    cbn [mbind res_bind]. unfold markerOk. rewrite Hg'. cbn [mbind res_bind marker_ seg_of].
    rewrite Z.eqb_refl. cbn [negb]. unfold freeSegment.
    rewrite (check_val _ _ _ _ _ Hg'), (seg_val _ _ _ Hg'). cbn [mbind res_bind].
    by rewrite (getUsed_ok c' Wc), Hu'.
  - destruct C3 as [?|C3]; [done|]. unfold getSegmentFromAddress, va.
    rewrite wrap_small by slia. rewrite Z.add_simpl_r.
    rewrite !(proj2 (Z.eqb_neq _ _)) by slia. cbn [negb andb kassert mbind res_bind].
    destruct (note_freed_ok k1 l1 l1' c' l2' (end_ (first_ k) l1) called' H1) as (k2 & En & _);
      rewrite ?F1, ?G1, ?Hs'; try done; [slia|split; [done|slia]|right; split; [done|split; [slia|done]]|].
    unfold note_freed in En. rewrite G1, (proj2 (Z.ltb_lt _ _)) in En by slia.
    unfold check_marker. unfold markerOk in En |- *.
    pose proof (mid_gap k1 l1' c' l2' (end_ (first_ k) l1) H1) as Hgap. rewrite F1, Hs' in Hgap.
    rewrite Hgap in En |- * by slia.
    destruct (existsb _ _); [done|]. cbn [mbind res_bind] in En |- *.
    destruct (_ =? _) eqn:Ew; [|done]. exfalso.
    unfold upd, seg in En. by rewrite Hgap in En by slia.
Qed.

Lemma alloc_keeps k bs va d n called k' va' x : heap k bs → (va - HDR, d) ∈ located (first_ k) bs →
  bused d = true → va <= x < va + bsize d → 0 <= n < 2 ^ 31 →
  allocateMemory k n called = Val (k', va') → va' ≠ va ∧ byte_at k' x = byte_at k x.
Proof.
  intros Hh Hd Hu Hx Hn E. pose proof (allocateMemory_ok k bs n called Hh Hn) as Hs.
  destruct (first_fit _ bs) as [[[l1 b] l2]|] eqn:Ef; [|by rewrite Hs in E].
  destruct Hs as (k1 & E' & _ & _ & _ & Hk). rewrite E in E'. injection E' as -> ->.
  apply first_fit_Some in Ef as (-> & _ & Hb).
  assert ((end_ (first_ k) l1, b) ∈ located (first_ k) (l1 ++ b :: l2)) as Hl.
  { rewrite located_app. cbn [located]. apply elem_of_app. right. by left. }
  destruct (located_disjoint _ _ _ _ _ _ (sp_wfb _ _ Hh) Hd Hl) as [[_ ->]|Hdis]; [congruence|].
  pose proof (located_in _ _ _ _ (sp_wfb _ _ Hh) Hl) as (_ & _ & ?).
  split; [slia|]. apply Hk. slia.
Qed.

Lemma free_keeps k bs va d va' b called k' x : heap k bs → tidy bs → (va - HDR, d) ∈ located (first_ k) bs →
  bused d = true → va <= x < va + bsize d → (va' - HDR, b) ∈ located (first_ k) bs →
  bused b = true → va' ≠ va → freeMemory k va' called = Val (k', true) → byte_at k' x = byte_at k x.
Proof.
  intros Hh Ht Hd Hu Hx Hb Hub Hne E.
  apply located_split in Hb as (l1 & l2 & -> & Ea).
  assert (va' = end_ (first_ k) l1 + HDR) as -> by lia.
  assert (bfreed b = 0) as Hf by (eapply tidy_mid; [exact Ht|exact Hub]).
  pose proof (free_true_lt _ _ _ _ E) as Hlt.
  destruct (released l1 b l2) as [[l1' c] l2'] eqn:Er.
  pose proof (freeMemory_ok k l1 b l2 l1' c l2' called Hh Hub Hf Hlt Er) as Hs. cbv zeta in Hs.
  destruct (decide _); [by rewrite Hs in E|]. destruct Hs as (k1 & E1 & H1 & [F1 _ _ _ _ _] & _ & Hk).
  rewrite E in E1. injection E1 as ->.
  destruct (released_free _ _ _ _ _ _ Er) as (Hc & _ & _).
  set (c' := noted _ c called) in *. assert (bsize c' = bsize c) as Hs' by (unfold c', noted; by destruct (bool_decide _)).
  assert (bused c' = false) as Hc' by (unfold c', noted; destruct (bool_decide _); by cbn).
  apply (released_located _ _ _ _ _ _ _ _ _ Er Hd) with (c' := c') in Hu as Hd'; [|lia|done].
  pose proof (sp_wfb _ _ H1) as Hw.
  assert ((end_ (first_ k) l1', c') ∈ located (first_ k) (l1' ++ c' :: l2')) as Hl.
  { rewrite located_app. cbn [located]. apply elem_of_app. right. by left. }
  destruct (located_disjoint _ _ _ _ _ _ Hw Hd' Hl) as [[_ ->]|Hdis]; [congruence|].
  pose proof (located_in _ _ _ _ Hw Hl) as (_ & _ & ?). apply Hk. slia.
Qed.

(** A heap of four pages with two blocks. *)
Definition ex_kmm : res (KMM * Z * Z) :=
  k ← new 0x100000 4 4;
  '(k, a) ← allocateMemory k 100 7;
  '(k, b) ← allocateMemory k 20 8;
  Val (k, a, b).

Lemma ex_heap_reachable k a b : ex_kmm = Val (k, a, b) → reachable (mkHist k [(b, 20); (a, 100)]).
Proof.
  unfold ex_kmm. intros E. apply bind_Val in E as (k0 & E0 & E).
  apply bind_Val in E as ([k1 a1] & E1 & E). apply bind_Val in E as ([k2 b2] & E2 & E).
  injection E as <- <- <-. exists (mkHist k0 []). split.
  - exists 0x100000, 4, 4, k0. split_and!; done.
  - eapply rtc_l; [eapply (h_alloc k0 [] 100 7); [lia|exact E1]|].
    eapply rtc_l; [eapply (h_alloc k1 _ 20 8); [lia|exact E2]|]. apply rtc_refl.
Qed.

Lemma ex_heap k a b : ex_kmm = Val (k, a, b) →
  heap k [mkB 112 true 0 0; mkB 32 true 0 0; mkB 16072 false 0 0] ∧ first_ k = 0x100000 ∧
  kernel_break_ k = 0x104000.
Proof.
  unfold ex_kmm. intros E. apply bind_Val in E as (k0 & E0 & E).
  apply bind_Val in E as ([k1 a1] & E1 & E). apply bind_Val in E as ([k2 b2] & E2 & E).
  injection E as <- <- <-.
  assert (heap k0 [mkB 16328 false 0 0]) as H0 by by apply (new_heap 0x100000 4 4).
  assert (tracing_ k0 = false ∧ first_ k0 = 0x100000 ∧ kernel_break_ k0 = 0x104000) as (T0 & F0 & B0).
  { unfold new in E0. cbn [kassert mbind res_bind] in E0. injection E0 as <-.
    split; [reflexivity|split; reflexivity]. }
  destruct (allocateMemory_ok k0 _ 100 7 H0) as (k & E1' & H1 & S1 & _); [lia|].
  rewrite E1 in E1'. injection E1' as <- _. rewrite T0 in H1.
  change (heap k1 [mkB 112 true 0 0; mkB 16160 false 0 0]) in H1. destruct S1 as [F1 B1 _ _ _ T1].
  destruct (allocateMemory_ok k1 _ 20 8 H1) as (k & E2' & H2 & S2 & _); [lia|].
  rewrite E2 in E2'. injection E2' as <- _. rewrite T1, T0 in H2. destruct S2 as [F2 B2 _ _ _ _].
  split; [exact H2|]. split; congruence.
Qed.

(** ** Properties *)

(** C13: [allocateMemory] is first fit.  On a heap of blocks, a request for fewer than
    2 GiB takes the first free block with room for it, rounded up to 16 bytes, cuts
    the block when more than a header is left over, and returns its address; the
    bytes asked are zero and no byte outside the block changes.  When no block fits,
    the kernel panics in an assertion of [ksbrk]; the header's promise to return 0
    then is not kept, and the statements that do so come after failing assertions. *)
Theorem allocateMemory_first_fit k bs n c : heap k bs → 0 <= n < 2 ^ 31 →
  let r := 16 * ((n + 15) / 16) in
  match first_fit r bs with
  | None => allocateMemory k n c = Err EAssert
  | Some (l1, b, l2) =>
      let A := end_ (first_ k) l1 in
      ∃ k', allocateMemory k n c = Val (k', A + HDR) ∧
        heap k' (l1 ++ taken b r (if tracing_ k then c else 0) ++ l2) ∧ same_area k k' ∧
        (∀ x, A + HDR <= x < A + HDR + r → byte_at k' x = 0) ∧
        (∀ x, ¬ (A <= x < A + HDR + bsize b) → byte_at k' x = byte_at k x)
  end.
Proof. intros Hh Hn r. unfold r. rewrite <- round16_ok by done. by apply allocateMemory_ok. Qed.

Lemma allocateMemory_first_fit_witness : ∃ k, new 0x100000 4 4 = Val k ∧
  match allocateMemory k 100 7 with
  | Val (k', va) => va = 0x100000 + 56 ∧ kernel_break_ k' = kernel_break_ k ∧
      ∀ x, va <= x < va + 112 → byte_at k' x = 0
  | Err _ => False
  end.
Proof.
  eexists. split; [vm_compute; reflexivity|].
  set (k := mkKMM _ _ _ _ _ _ _ _ _).
  pose proof (allocateMemory_first_fit k [mkB (4 * PAGE_SIZE - HDR) false 0 0] 100 7) as Hs.
  destruct Hs as (k' & E & _ & Ha & Hz & _).
  - apply (new_heap 0x100000 4 4); [done..|vm_compute; reflexivity].
  - lia.
  - rewrite E. split; [reflexivity|]. split; [apply Ha|exact Hz].
Defined.

(** C14: [freeMemory] of a block in use joins it with the free blocks around it,
    zeroes the result and changes no other byte.  It fails when no other block
    is in use: the heap would then be one free block, whose size is compared
    with the size of the area without its header, and the end of the heap
    cannot move. *)
Theorem freeMemory_coalesces k l1 b l2 l1' c l2' called :
  heap k (l1 ++ b :: l2) → bused b = true → bfreed b = 0 →
  let A := end_ (first_ k) l1 in
  let A' := end_ (first_ k) l1' in
  A + HDR < kernel_break_ k → released l1 b l2 = (l1', c, l2') →
  if decide (l1' = [] ∧ l2' = []) then freeMemory k (A + HDR) called = Err EAssert
  else ∃ k', freeMemory k (A + HDR) called = Val (k', true) ∧
    heap k' (l1' ++ noted (bool_decide (l1' ≠ l1)) c called :: l2') ∧ same_area k k' ∧
    (∀ x, A' + HDR <= x < A' + HDR + bsize c → byte_at k' x = 0) ∧
    (∀ x, ¬ (A' <= x < A' + HDR + bsize c) → byte_at k' x = byte_at k x).
Proof. apply freeMemory_ok. Qed.

Lemma freeMemory_coalesces_witness : ∃ k, (∃ a b, ex_kmm = Val (k, a, b)) ∧
  ∃ k', freeMemory k (0x100000 + HDR) 9 = Val (k', true) ∧
    heap k' [mkB 112 false 9 0; mkB 32 true 0 0; mkB 16072 false 0 0].
Proof.
  eexists. split; [eexists _, _; vm_compute; reflexivity|].
  match goal with |- ∃ _, freeMemory ?x _ _ = _ ∧ _ => set (k := x) end.
  destruct (ex_heap k 0x100038 0x1000e0) as (Hh & Hf & Hb); [vm_compute; reflexivity|].
  destruct (freeMemory_coalesces k [] (mkB 112 true 0 0) [mkB 32 true 0 0; mkB 16072 false 0 0]
    [] (mkB 112 false 0 0) [mkB 32 true 0 0; mkB 16072 false 0 0] 9 Hh eq_refl eq_refl)
    as (k' & E & Hh' & _); [reflexivity|reflexivity|].
  exists k'. split; [exact E|exact Hh'].
Defined.

(** C12: over any history of allocations, releases and writes to owned memory,
    the blocks handed out and not given back lie inside the heap behind its first
    header, and any two of them, by whichever allocations, never share a byte, not
    even with each other's headers; so no address is handed out a second time
    before it was given back. *)
Theorem owned_blocks_disjoint s i j va n va' n' : reachable s →
  owned s !! i = Some (va, n) → owned s !! j = Some (va', n') → i ≠ j →
  first_ (kmm s) + HDR <= va ∧ va + n <= kernel_break_ (kmm s) ∧
  (va + n + HDR <= va' ∨ va' + n' + HDR <= va).
Proof.
  intros [bs [Hh Ht Ho Hnd]]%hinv_reachable H1 H2 Hij.
  assert (va ≠ va') as Hne.
  { intros <-. apply Hij. eapply NoDup_lookup; [exact Hnd|rewrite list_lookup_fmap, H1|rewrite list_lookup_fmap, H2]; done. }
  apply list_elem_of_lookup_2 in H1, H2.
  destruct (Ho _ _ H1) as (b & Hb & _ & ?), (Ho _ _ H2) as (d & Hd & _ & ?).
  pose proof (located_in _ _ _ _ (sp_wfb _ _ Hh) Hb) as (L1 & L2 & _).
  rewrite (sp_end _ _ Hh) in L2. split; [lia|]. split; [lia|].
  destruct (located_disjoint _ _ _ _ _ _ (sp_wfb _ _ Hh) Hb Hd) as [[? _]|[?|?]]; lia.
Qed.

Lemma owned_blocks_disjoint_witness : ∃ k a b, ex_kmm = Val (k, a, b) ∧
  first_ k + HDR <= a ∧ a + 100 <= kernel_break_ k ∧ (a + 100 + HDR <= b ∨ b + 20 + HDR <= a).
Proof.
  eexists _, _, _. split; [vm_compute; reflexivity|].
  match goal with |- first_ ?x + _ <= ?y ∧ _ ∧ (_ <= ?z ∨ _) => set (k := x); set (a := y); set (b := z) end.
  apply (owned_blocks_disjoint (mkHist k [(b, 20); (a, 100)]) 1 0 a 100 b 20);
    [apply ex_heap_reachable; vm_compute; reflexivity|reflexivity|reflexivity|discriminate].
Defined.

(** No operation of the heap touches the bytes of a block that is owned,
    and an address that is still owned is not handed out again. *)
Theorem owned_data_kept s va n x : reachable s → (va, n) ∈ owned s → va <= x < va + n →
  (∀ m called k' va', 0 <= m < 2 ^ 31 → allocateMemory (kmm s) m called = Val (k', va') →
     va' ≠ va ∧ byte_at k' x = byte_at (kmm s) x) ∧
  (∀ va' n' called k', (va', n') ∈ owned s → va' ≠ va →
     freeMemory (kmm s) va' called = Val (k', true) → byte_at k' x = byte_at (kmm s) x).
Proof.
  intros [bs [Hh Ht Ho _]]%hinv_reachable H1 Hx. destruct (Ho _ _ H1) as (d & Hd & Hdu & Hn). split.
  - intros m called k' va' Hm E. eapply alloc_keeps; [exact Hh|exact Hd|done|lia|exact Hm|exact E].
  - intros va' n' called k' H2 Hne E. destruct (Ho _ _ H2) as (b & Hb & Hu & _).
    eapply free_keeps; [exact Hh|exact Ht|exact Hd|done|lia|exact Hb|done|done|exact E].
Qed.

Lemma owned_data_kept_witness : ∃ k a b, ex_kmm = Val (k, a, b) ∧
  ∃ k', freeMemory k b 9 = Val (k', true) ∧ byte_at k' a = byte_at k a.
Proof.
  eexists _, _, _. split; [vm_compute; reflexivity|].
  eexists. split; [vm_compute; reflexivity|].
  match goal with |- byte_at ?k' ?y = byte_at ?x _ => set (k := x); set (a := y) end.
  eapply (owned_data_kept (mkHist k [(0x1000e0, 20); (a, 100)]) a 100 a)
    with (va' := 0x1000e0) (n' := 20) (called := 9);
    [apply ex_heap_reachable; vm_compute; reflexivity|right; by left|unfold a; lia|by left|discriminate|].
  vm_compute. reflexivity.
Defined.

(** a second release of the same address is detected: the block's header
    is marked free, or gone since the block was joined with its predecessor. *)
Theorem double_free_detected s va n called called' k' : reachable s → (va, n) ∈ owned s →
  freeMemory (kmm s) va called = Val (k', true) → freeMemory k' va called' = Err EAssert.
Proof.
  intros [bs [Hh Ht Ho _]]%hinv_reachable H1 E. destruct (Ho _ _ H1) as (b & Hb & Hu & _).
  apply located_split in Hb as (l1 & l2 & -> & Ea).
  assert (va = end_ (first_ (kmm s)) l1 + HDR) as -> by lia.
  eapply release_twice; [exact Hh|done| |exact E].
  by eapply tidy_mid.
Qed.

Lemma double_free_detected_witness : ∃ k a b, ex_kmm = Val (k, a, b) ∧
  ∃ k', freeMemory k b 9 = Val (k', true) ∧ freeMemory k' b 10 = Err EAssert.
Proof.
  eexists _, _, _. split; [vm_compute; reflexivity|].
  eexists. split; [vm_compute; reflexivity|].
  match goal with |- freeMemory ?k' ?y 10 = _ => set (b := y) end.
  eapply (double_free_detected (mkHist _ [(b, 20); (0x100038, 100)]) b 20 9);
    [apply ex_heap_reachable; vm_compute; reflexivity|by left|].
  vm_compute. reflexivity.
Defined.

End Kmm.
