(* ===== verification/ArchMemory.v ===== *)
(** * ArchMemory: the four-level page tables of x86-64

    Models [arch/x86/64/source/ArchMemory.cpp] and the entry layouts of
    [paging-definitions.h].  Physical memory is the 512 words of every frame; a
    pointer to a table is the number of the frame it lies in (the kernel reaches
    all frames through one linear mapping).  The locks of the four levels are
    held one at a time around single accesses and are left out; the operations
    are single steps.  Frames come from any page source, an interface that
    [PageManager] implements. *)

From S2P Require Import Prelude Bitmap PageManager.

Module ArchMemory.

(** ** Entries *)

Definition PAGE_MAP_LEVEL_4_ENTRIES : Z := 512.
Definition PAGE_DIR_POINTER_TABLE_ENTRIES : Z := 512.
Definition PAGE_DIR_ENTRIES : Z := 512.
Definition PAGE_TABLE_ENTRIES : Z := 512.
Definition PAGE_SIZE : Z := 4096.

(** Bit fields: the [w] bits of [e] from bit [lo] on. *)
Definition field (lo w e : Z) : Z := Z.land (Z.shiftr e lo) (Z.ones w).
Definition set_field (lo w v e : Z) : Z :=
  Z.lor (Z.land e (Z.lnot (Z.shiftl (Z.ones w) lo))) (Z.shiftl (Z.land v (Z.ones w)) lo).

(** The fields that all entries share, and the frame number in the entries
    that refer to a table or a 4 KiB page. *)
Definition present (e : Z) : bool := negb (field 0 1 e =? 0).
Definition size_bit (e : Z) : Z := field 7 1 e.
Definition page_ppn (e : Z) : Z := field 12 28 e.
(** The frame numbers of [PageDirPageEntry] (2 MiB) and
    [PageDirPointerTablePageEntry] (1 GiB). *)
Definition page_ppn_2m (e : Z) : Z := field 21 19 e.
Definition page_ppn_1g (e : Z) : Z := field 30 10 e.

Definition set_present (v e : Z) : Z := set_field 0 1 v e.
Definition set_writeable (v e : Z) : Z := set_field 1 1 v e.
Definition set_user_access (v e : Z) : Z := set_field 2 1 v e.
Definition set_size (v e : Z) : Z := set_field 7 1 v e.
Definition set_page_ppn (v e : Z) : Z := set_field 12 28 v e.

Definition writeable (e : Z) : Z := field 1 1 e.
Definition user_access (e : Z) : Z := field 2 1 e.

(** ** Where frames come from *)

(** What the paging code asks of the page manager: a frame, the return of a
    frame ([false]: it is shared and stays in use), and the number of frames;
    [ps_used] are the frames in use. *)
Class PageSource (S : Type) := {
  ps_alloc : S → res (S * Z);
  ps_free : S → Z → res (S * bool);
  ps_total : S → Z;
  ps_used : S → Z → Prop;
  ps_ok : S → Prop;
}.

Definition is_Some_res {A} (r : res A) : Prop := ∃ a, r = Val a.

(** An allocated frame was unused and is not frame 0; a release gives up at
    most the frame it names.  Allocation fails only when all frames are in use,
    the release of a frame in use never. *)
Class PageSourceLaws (S : Type) `{PageSource S} := {
  ps_alloc_ok s s' p : ps_ok s → ps_alloc s = Val (s', p) →
    ps_ok s' ∧ ps_total s' = ps_total s ∧ 0 < p < ps_total s ∧ ¬ ps_used s p ∧
    ∀ q, ps_used s' q ↔ ps_used s q ∨ q = p;
  ps_free_ok s s' p b : ps_ok s → ps_used s p → 0 < p → ps_free s p = Val (s', b) →
    ps_ok s' ∧ ps_total s' = ps_total s ∧
    (∀ q, ps_used s' q → ps_used s q) ∧ ∀ q, q ≠ p → ps_used s q → ps_used s' q;
  ps_alloc_full s e q : ps_ok s → ps_alloc s = Err e → 0 < q < ps_total s → ps_used s q;
  ps_free_some s p : ps_ok s → ps_used s p → 0 < p < ps_total s → is_Some_res (ps_free s p);
  ps_total_ok s : ps_ok s → ps_total s <= 2 ^ 28;
}.

Section arch.
Context {S : Type} `{PageSource S}.

(** Frames never written read as the pattern [freePPN] leaves. *)
Record Mem := mkMem {
  words : gmap Z (list Z);
  source : S;
}.

Definition words_of (m : Mem) (ppn : Z) : list Z :=
  default (replicate 512 (2 ^ 64 - 1)) (words m !! ppn).

Definition get (m : Mem) (ppn i : Z) : res Z := zget (words_of m ppn) i.
Definition put (m : Mem) (ppn i e : Z) : res Mem :=
  l ← zset (words_of m ppn) i e; Val (mkMem (<[ppn := l]> (words m)) (source m)).
(** [memset] with 0 and [memcpy] of whole frames *)
Definition zero_frame (m : Mem) (ppn : Z) : Mem :=
  mkMem (<[ppn := replicate 512 0]> (words m)) (source m).
Definition copy_frame (m : Mem) (dst src : Z) : Mem :=
  mkMem (<[dst := words_of m src]> (words m)) (source m).

(** [PageManager::allocPPN] zeroes the frame, [freePPN] fills a frame that
    becomes free with ones. *)
Definition allocPPN (m : Mem) : res (Mem * Z) :=
  '(s, p) ← ps_alloc (source m); Val (zero_frame (mkMem (words m) s) p, p).
Definition freePPN (m : Mem) (ppn : Z) : res Mem :=
  '(s, freed) ← ps_free (source m) ppn;
  Val (mkMem (if freed : bool then delete ppn (words m) else words m) s).

Definition getIdentAddressOfPPN (ppn page_size : Z) : Z :=
  Z.lor 0xFFFFF00000000000 (u64 (ppn * page_size)).

(** ** Looking up a page *)

(** [None] is a null pointer. *)
Record ArchMemoryMapping := mkMapping {
  m_pml4 : Z;
  m_pdpt : option Z;
  m_pd : option Z;
  m_pt : option Z;
  m_page : Z;
  m_pml4_ppn : Z;
  m_pdpt_ppn : Z;
  m_pd_ppn : Z;
  m_pt_ppn : Z;
  m_page_ppn : Z;
  m_page_size : Z;
  m_pml4i : Z;
  m_pdpti : Z;
  m_pdi : Z;
  m_pti : Z;
}.

Definition indices (vpage : Z) : Z * Z * Z * Z :=
  let pti := vpage in
  let pdi := pti / PAGE_TABLE_ENTRIES in
  let pdpti := pdi / PAGE_DIR_ENTRIES in
  let pml4i := pdpti / PAGE_DIR_POINTER_TABLE_ENTRIES in
  (pml4i mod PAGE_MAP_LEVEL_4_ENTRIES, pdpti mod PAGE_DIR_POINTER_TABLE_ENTRIES,
   pdi mod PAGE_DIR_ENTRIES, pti mod PAGE_TABLE_ENTRIES).

Definition total (m : Mem) : Z := ps_total (source m).

Definition resolveMapping (m : Mem) (pml4 vpage : Z) : res ArchMemoryMapping :=
  let '(pml4i, pdpti, pdi, pti) := indices vpage in
  let found pdpt pd pt page pdpt_ppn pd_ppn pt_ppn page_ppn page_size :=
    Val (mkMapping pml4 pdpt pd pt page pml4 pdpt_ppn pd_ppn pt_ppn page_ppn page_size
           pml4i pdpti pdi pti) in
  _ ← kassert (pml4 <? total m);
  e4 ← get m pml4 pml4i;
  if negb (present e4) then found None None None 0 0 0 0 0 0
  else
    let pdpt := page_ppn e4 in
    e3 ← get m pdpt pdpti;
    if present e3 && (size_bit e3 =? 0) then
      let pd := page_ppn e3 in
      _ ← kassert (pd <? total m);
      e2 ← get m pd pdi;
      if present e2 && (size_bit e2 =? 0) then
        let pt := page_ppn e2 in
        _ ← kassert (pt <? total m);
        e1 ← get m pt pti;
        if present e1 then
          let p := page_ppn e1 in
          _ ← kassert (p <? total m);
          found (Some pdpt) (Some pd) (Some pt) (getIdentAddressOfPPN p PAGE_SIZE) pdpt pd pt p PAGE_SIZE
        else found (Some pdpt) (Some pd) (Some pt) 0 pdpt pd pt 0 0
      else if present e2 then
        let p := page_ppn_2m e2 in
        found (Some pdpt) (Some pd) None (getIdentAddressOfPPN p PAGE_SIZE) pdpt pd 0 p
          (PAGE_SIZE * PAGE_TABLE_ENTRIES)
      else found (Some pdpt) (Some pd) None 0 pdpt pd 0 0 0
    else if present e3 then
      let p := page_ppn_1g e3 in
      _ ← kassert (p <? total m);
      found (Some pdpt) None None (getIdentAddressOfPPN p PAGE_SIZE) pdpt 0 0 p
        (PAGE_SIZE * PAGE_TABLE_ENTRIES * PAGE_DIR_ENTRIES)
    else found (Some pdpt) None None 0 pdpt 0 0 0 0.

Definition checkAddressValid (m : Mem) (root vaddress_to_check : Z) : res Z :=
  mp ← resolveMapping m root (vaddress_to_check / PAGE_SIZE);
  if negb (m_page mp =? 0)
  then Val (Z.lor (m_page mp) (vaddress_to_check mod m_page_size mp))
  else Val 0.

(** The page size, the page's frame and the page table's frame. *)
Definition get_PPN_Of_VPN_In_KernelMapping (m : Mem) (kernel_pml4 virtual_page : Z)
  : res (Z * Z * Z) :=
  mp ← resolveMapping m kernel_pml4 virtual_page;
  Val (m_page_size mp, m_page_ppn mp, m_pt_ppn mp).

(** ** Mapping and unmapping *)

(** [map_ptr & ~0xFFFFF00000000000] of the pointer to frame [map]. *)
Definition ptr_ok (map : Z) : bool :=
  negb (Z.land (getIdentAddressOfPPN map PAGE_SIZE) 0x00000FFFFFFFFFFF =? 0).

Definition insert (m : Mem) (map index ppn bzero size user_access writeable : Z) : res (Mem * bool) :=
  _ ← kassert (ptr_ok map);
  m ← (if negb (bzero =? 0) then
         let m := zero_frame m ppn in
         e ← get m map index; _ ← kassert (e =? 0); Val m
       else Val m);
  e ← get m map index;
  m ← put m map index
        (set_present 1 (set_user_access user_access (set_page_ppn ppn
          (set_writeable writeable (set_size size e)))));
  Val (m, true).

(** One of the three blocks of [mapPage]: the table below entry [index] of
    [table], allocated when the lookup found none. *)
Definition next_table (m : Mem) (known table index : Z) : res (Mem * Z) :=
  if known =? 0 then
    '(m, p) ← allocPPN m;
    '(m, _) ← insert m table index p 1 0 1 1;
    Val (m, p)
  else Val (m, known).

Definition mapPage (m : Mem) (root virtual_page physical_page user_access : Z) : res (Mem * bool) :=
  mp ← resolveMapping m root virtual_page;
  _ ← kassert ((m_page_size mp =? 0) || (m_page_size mp =? PAGE_SIZE));
  '(m, pdpt) ← next_table m (m_pdpt_ppn mp) (m_pml4 mp) (m_pml4i mp);
  '(m, pd) ← next_table m (m_pd_ppn mp) pdpt (m_pdpti mp);
  '(m, pt) ← next_table m (m_pt_ppn mp) pd (m_pdi mp);
  if m_page_ppn mp =? 0 then insert m pt (m_pti mp) physical_page 0 0 user_access 1
  else Val (m, false).

(** Clears the entry; is the table empty now? *)
Definition checkAndRemove (m : Mem) (map index : Z) : res (Mem * bool) :=
  m ← put m map index 0;
  Val (m, forallb (λ e, negb (present e)) (words_of m map)).

(** One of the three blocks of [unmapPage]: the table [child] below entry
    [index] of [map] turned out empty. *)
Definition drop_table (m : Mem) (empty : bool) (map index child : Z) : res (Mem * bool) :=
  if empty then
    '(m, empty) ← checkAndRemove m map index;
    m ← freePPN m child;
    Val (m, empty)
  else Val (m, false).

Definition unmapPage (m : Mem) (root virtual_page : Z) : res (Mem * bool) :=
  mp ← resolveMapping m root virtual_page;
  pt ← (match m_pt mp with Some pt => Val pt | None => Err EAssert end);
  e ← get m pt (m_pti mp);
  _ ← kassert (negb (m_page_ppn mp =? 0) && (m_page_size mp =? PAGE_SIZE) && present e);
  m ← put m pt (m_pti mp) (set_present 0 e);
  m ← freePPN m (m_page_ppn mp);
  m ← put m pt (m_pti mp) 0;
  '(m, empty) ← checkAndRemove m (m_pt_ppn mp) (m_pti mp);
  '(m, empty) ← drop_table m empty (m_pd_ppn mp) (m_pdi mp) (m_pt_ppn mp);
  '(m, empty) ← drop_table m empty (m_pdpt_ppn mp) (m_pdpti mp) (m_pd_ppn mp);
  '(m, _) ← drop_table m empty (m_pml4_ppn mp) (m_pml4i mp) (m_pdpt_ppn mp);
  Val (m, true).

(** ** Address spaces *)

(** The constructor: the upper half of the kernel's top table, an empty lower
    half; the result is [page_map_level_4_]. *)
Definition new (m : Mem) (kernel_pml4 : Z) : res (Mem * Z) :=
  '(m, root) ← allocPPN m;
  let m := copy_frame m root kernel_pml4 in
  Val (mkMem (<[root := replicate 256 0 ++ drop 256 (words_of m root)]> (words m)) (source m), root).

Fixpoint forM {A} (l : list Z) (f : A → Z → res A) (a : A) : res A :=
  match l with
  | [] => Val a
  | i :: l => a ← f a i; forM l f a
  end.

(** The nested loops of the destructor, over the tables [n] levels above the
    page tables; only the lower half of the top table is visited. *)
Definition limit (n : nat) : Z := if decide (n = 3%nat) then 256 else 512.

Fixpoint free_level (n : nat) (m : Mem) (table : Z) : res Mem :=
  forM (seqZ 0 (limit n)) (λ m i,
    e ← get m table i;
    if negb (present e) then Val m
    else match n with
    | O =>
        m ← put m table i (set_present 0 e);
        freePPN m (page_ppn e)
    | Datatypes.S n' =>
        _ ← kassert (bool_decide (n = 3%nat) || (size_bit e =? 0));
        m ← free_level n' m (page_ppn e);
        e ← get m table i;
        m ← put m table i (set_present 0 e);
        freePPN m (page_ppn e)
    end) m.

(** [cr3] is the root in use by the current thread. *)
Definition destroy (m : Mem) (cr3 root : Z) : res Mem :=
  _ ← kassert (negb (cr3 =? u64 (root * PAGE_SIZE)));
  m ← free_level 3 m root;
  freePPN m root.

Definition getRootOfPagingStructure (root : Z) : Z := root.

(** ** The kernel's own mappings *)

(** The four entries on the way to [virtual_page], all asserted present but the
    last; the page table and its index. *)
Definition kernel_entry (m : Mem) (kernel_pml4 virtual_page : Z) : res (Z * Z * Z) :=
  mp ← resolveMapping m kernel_pml4 virtual_page;
  e4 ← get m kernel_pml4 (m_pml4i mp);
  _ ← kassert (present e4);
  e3 ← get m (page_ppn e4) (m_pdpti mp);
  _ ← kassert (present e3);
  e2 ← get m (page_ppn e3) (m_pdi mp);
  _ ← kassert (present e2);
  e1 ← get m (page_ppn e2) (m_pti mp);
  Val (page_ppn e2, m_pti mp, e1).

Definition mapKernelPage (m : Mem) (kernel_pml4 virtual_page physical_page : Z) : res Mem :=
  '(pt, pti, e) ← kernel_entry m kernel_pml4 virtual_page;
  _ ← kassert (negb (present e));
  put m pt pti (set_present 1 (set_page_ppn physical_page (set_writeable 1 e))).

Definition unmapKernelPage (m : Mem) (kernel_pml4 virtual_page : Z) : res Mem :=
  '(pt, pti, e) ← kernel_entry m kernel_pml4 virtual_page;
  _ ← kassert (present e);
  m ← put m pt pti (set_writeable 0 (set_present 0 e));
  freePPN m (page_ppn e).

(** ** Copies for fork *)

Definition insertCopy (m : Mem) (map index ppn writeable old : Z) : res (Mem * bool) :=
  _ ← kassert (ptr_ok map);
  m ← (if negb (writeable =? 0) then
         let m := zero_frame m ppn in
         e ← get m map index; _ ← kassert (e =? 0); Val m
       else Val m);
  m ← put m map index (set_writeable writeable (set_page_ppn ppn old));
  Val (m, true).

(** An entry of a table the lookup reached; [None] would be a null pointer. *)
Definition get_opt (m : Mem) (table : option Z) (i : Z) : res Z :=
  match table with Some t => get m t i | None => Err EUndef end.

Definition copyPageHierarchy (m : Mem) (old_root new_root virtual_page physical_page writeable : Z)
  : res (Mem * bool) :=
  nm ← resolveMapping m new_root virtual_page;
  om ← resolveMapping m old_root virtual_page;
  _ ← kassert ((m_page_size nm =? 0) || (m_page_size nm =? PAGE_SIZE));
  '(m, pdpt) ← (if m_pdpt_ppn nm =? 0 then
     '(m, p) ← allocPPN m; old ← get m (m_pml4 om) (m_pml4i om);
     '(m, _) ← insertCopy m (m_pml4 nm) (m_pml4i nm) p 1 old; Val (m, p)
     else Val (m, m_pdpt_ppn nm));
  '(m, pd) ← (if m_pd_ppn nm =? 0 then
     '(m, p) ← allocPPN m; old ← get_opt m (m_pdpt om) (m_pdpti om);
     '(m, _) ← insertCopy m pdpt (m_pdpti nm) p 1 old; Val (m, p)
     else Val (m, m_pd_ppn nm));
  '(m, pt) ← (if m_pt_ppn nm =? 0 then
     '(m, p) ← allocPPN m; old ← get_opt m (m_pd om) (m_pdi om);
     '(m, _) ← insertCopy m pd (m_pdi nm) p 1 old; Val (m, p)
     else Val (m, m_pt_ppn nm));
  if m_page_ppn nm =? 0 then
    old ← get_opt m (m_pt om) (m_pti om);
    insertCopy m pt (m_pti nm) physical_page writeable old
  else Val (m, false).

(** The nested loops over all present pages of the lower half; [f] gets the
    page table, the index and the virtual page. *)
Fixpoint walk {A} (mem : A → Mem) (n : nat) (f : A → Z → Z → Z → res A) (vpage table : Z) (a : A) : res A :=
  forM (seqZ 0 (limit n)) (λ a i,
    e ← get (mem a) table i;
    if negb (present e) then Val a
    else match n with
    | O => f a table i (vpage * 512 + i)
    | Datatypes.S n' =>
        _ ← kassert (bool_decide (n = 3%nat) || (size_bit e =? 0));
        walk mem n' f (vpage * 512 + i) (page_ppn e) a
    end) a.

Definition copyPagesToNewArchMem (m : Mem) (root new_root : Z) : res Mem :=
  walk id 3 (λ m pt pti vpage,
    '(m, phys_page) ← allocPPN m;
    '(m, vpn_mapped) ← copyPageHierarchy m root new_root vpage phys_page 1;
    _ ← kassert vpn_mapped;
    e ← get m pt pti;
    Val (copy_frame m phys_page (page_ppn e))) 0 root m.

(** [share ppn] is [COWManager::addToCOWMap(ppn, pid1, pid2)] on the manager's
    state [c]. *)
Definition copyPagesToNewArchMemCOW {C} (share : C → Z → res C) (m : Mem) (c : C) (root new_root : Z)
  : res (Mem * C) :=
  walk fst 3 (λ '(m, c) pt pti vpage,
    e ← get m pt pti;
    '(m, vpn_mapped) ← copyPageHierarchy m root new_root vpage (page_ppn e) 0;
    _ ← kassert vpn_mapped;
    e ← get m pt pti;
    m ← put m pt pti (set_writeable 0 e);
    c ← share c (page_ppn e);
    Val (m, c)) 0 root (m, c).

(** [virt_page] is the page of [ARGS_SEGMENT_START]. *)
Definition copyArgsSegmentToNewArchMem (m : Mem) (new_root virt_page old_args_ppn : Z) : res Mem :=
  '(m, new_args_ppn) ← allocPPN m;
  '(m, vpn_mapped) ← mapPage m new_root (virt_page - 1) new_args_ppn 1;
  _ ← kassert vpn_mapped;
  Val (copy_frame m new_args_ppn old_args_ppn).

End arch.
Arguments Mem S : clear implicits.

(** ** Bit fields *)

Lemma field_bits lo w e i : 0 <= lo → 0 <= w → 0 <= i →
  Z.testbit (field lo w e) i = (i <? w) && Z.testbit e (i + lo).
Proof.
  intros. unfold field. rewrite Z.land_spec, Z.shiftr_spec by done.
  destruct (Z.ltb_spec i w); [rewrite Z.ones_spec_low by lia|rewrite Z.ones_spec_high by lia].
  - by rewrite andb_true_r.
  - by rewrite andb_false_r.
Qed.

Lemma set_field_bits lo w v e i : 0 <= lo → 0 <= w → 0 <= i →
  Z.testbit (set_field lo w v e) i =
    if (lo <=? i) && (i <? lo + w) then Z.testbit v (i - lo) else Z.testbit e i.
Proof.
  intros. unfold set_field. rewrite Z.lor_spec, Z.land_spec, Z.lnot_spec, !Z.shiftl_spec by done.
  destruct (Z.leb_spec lo i); cbn [andb].
  - rewrite Z.land_spec. destruct (Z.ltb_spec i (lo + w)).
    + rewrite Z.ones_spec_low by lia. cbn [negb]. by rewrite andb_false_r, andb_true_r.
    + rewrite Z.ones_spec_high by lia. cbn [negb]. by rewrite andb_true_r, andb_false_r, orb_false_r.
  - rewrite !(Z.testbit_neg_r _ (i - lo)) by lia. cbn [negb]. by rewrite andb_true_r, orb_false_r.
Qed.

Lemma field_set_same lo w v e : 0 <= lo → 0 <= w → 0 <= v < 2 ^ w → field lo w (set_field lo w v e) = v.
Proof.
  intros Hl Hw Hv. apply Z.bits_inj'. intros i Hi.
  rewrite field_bits, set_field_bits by lia. rewrite (proj2 (Z.leb_le _ _)) by lia.
  replace (i + lo <? lo + w) with (i <? w) by (destruct (Z.ltb_spec i w), (Z.ltb_spec (i + lo) (lo + w)); lia).
  destruct (Z.ltb_spec i w); cbn [andb]; [by rewrite Z.add_simpl_r|].
  symmetry. destruct (decide (v = 0)) as [->|]; [by rewrite Z.bits_0|].
  apply Z.bits_above_log2; [lia|]. enough (Z.log2 v < w) by lia. apply Z.log2_lt_pow2; lia.
Qed.

Lemma field_set_other lo w lo' w' v e : 0 <= lo → 0 <= w → 0 <= lo' → 0 <= w' →
  lo + w <= lo' ∨ lo' + w' <= lo → field lo w (set_field lo' w' v e) = field lo w e.
Proof.
  intros Hl Hw Hl' Hw' Hd. apply Z.bits_inj'. intros i Hi. rewrite !field_bits by lia.
  destruct (Z.ltb_spec i w); cbn [andb]; [|done]. rewrite set_field_bits by lia.
  destruct (Z.leb_spec lo' (i + lo)), (Z.ltb_spec (i + lo) (lo' + w')); cbn [andb]; lia || done.
Qed.

(** The entry [insert] writes over an entry that was 0. *)
Definition entry (ppn size user_access writeable : Z) : Z :=
  set_present 1 (set_user_access user_access (set_page_ppn ppn
    (set_writeable writeable (set_size size 0)))).

Lemma entry_ok ppn size ua wr : 0 <= ppn < 2 ^ 28 → 0 <= size < 2 → 0 <= ua < 2 → 0 <= wr < 2 →
  present (entry ppn size ua wr) = true ∧ size_bit (entry ppn size ua wr) = size ∧
  page_ppn (entry ppn size ua wr) = ppn ∧ writeable (entry ppn size ua wr) = wr ∧
  user_access (entry ppn size ua wr) = ua.
Proof.
  intros. unfold entry, present, size_bit, page_ppn, writeable, user_access,
    set_present, set_user_access, set_page_ppn, set_writeable, set_size.
  split_and!; repeat first [rewrite field_set_same by lia|rewrite field_set_other by lia]; done.
Qed.

(** ** Page tables as trees

    [own] gives every table frame of the lower half the indices on the way to it
    from the root. *)

Section wf.
Context {S : Type} `{PageSourceLaws S}.
Implicit Types m : Mem S.

Definition ent m (f i : Z) : Z := default 0 (words_of m f !! Z.to_nat i).
Definition lim (p : list Z) : Z := match p with [] => 256 | _ => 512 end.

Record wf (own : gmap Z (list Z)) m (root : Z) : Prop := {
  wf_root : own !! root = Some [];
  wf_root_only f : own !! f = Some [] → f = root;
  wf_len f p : own !! f = Some p → length (words_of m f) = 512%nat ∧ (length p <= 3)%nat;
  wf_used f p : own !! f = Some p → ps_used (source m) f ∧ 0 < f < total m;
  wf_parent f p i : own !! f = Some (p ++ [i]) → ∃ g, own !! g = Some p ∧ 0 <= i < lim p ∧
    present (ent m g i) = true ∧ page_ppn (ent m g i) = f;
  wf_child f p i : own !! f = Some p → (length p < 3)%nat → 0 <= i < lim p →
    present (ent m f i) = true → size_bit (ent m f i) = 0 ∧ own !! page_ppn (ent m f i) = Some (p ++ [i]);
  wf_leaf f p i : own !! f = Some p → length p = 3%nat → 0 <= i < 512 → present (ent m f i) = true →
    ps_used (source m) (page_ppn (ent m f i)) ∧ 0 < page_ppn (ent m f i) < total m ∧
    own !! page_ppn (ent m f i) = None;
  wf_zero f p i : own !! f = Some p → 0 <= i < lim p → present (ent m f i) = false → ent m f i = 0;
  wf_src : ps_ok (source m);
}.

(** The table below entry [i] of table [f]. *)
Definition child m (f i : Z) : option Z :=
  if present (ent m f i) then Some (page_ppn (ent m f i)) else None.

(** The page tables as a partial function from pages to entries. *)
Definition translate m (root v : Z) : option Z :=
  let '(i4, i3, i2, i1) := indices v in
  t3 ← child m root i4; t2 ← child m t3 i3; t1 ← child m t2 i2;
  if present (ent m t1 i1) then Some (ent m t1 i1) else None.

Definition in_range (l : list Z) : Prop :=
  match l with [] => True | i :: l => 0 <= i < 256 ∧ Forall (λ j, 0 <= j < 512) l end.

Lemma get_ent m f i : length (words_of m f) = 512%nat → 0 <= i < 512 → get m f i = Val (ent m f i).
Proof.
  intros Hl Hi. unfold get, ent. destruct (zget_lt (words_of m f) i) as [x Hx]; [lia|].
  rewrite Hx. apply zget_Val in Hx as [_ ->]. done.
Qed.

Lemma put_ent m f i e : length (words_of m f) = 512%nat → 0 <= i < 512 →
  ∃ m', put m f i e = Val m' ∧ source m' = source m ∧
    (∀ g, length (words_of m' g) = length (words_of m g)) ∧
    ∀ g j, 0 <= j → ent m' g j = if decide (g = f ∧ j = i) then e else ent m g j.
Proof.
  intros Hl Hi. unfold put. set (l := <[Z.to_nat i := e]> (words_of m f)).
  assert (zset (words_of m f) i e = Val l) as -> by (apply zset_Val; split; [lia|done]).
  cbn [mbind res_bind]. eexists. split; [done|]. split; [done|].
  unfold ent, words_of. cbn [words]. split.
  - intros g. destruct (decide (g = f)) as [->|]; [rewrite lookup_insert_eq|by rewrite lookup_insert_ne].
    change (length l = length (words_of m f)). unfold l. by rewrite length_insert.
  - intros g j Hj. destruct (decide (g = f)) as [->|];
      [rewrite lookup_insert_eq|rewrite lookup_insert_ne, decide_False by (done || intros []; done); done].
    unfold l. cbn [default]. unfold id. case_decide as E.
    + destruct E as [_ ->]. rewrite list_lookup_insert_eq; [done|lia].
    + rewrite list_lookup_insert_ne; [done|]. intros ?. apply E. split; [done|lia].
Qed.

Lemma zero_ent m f : (∀ g, length (words_of (zero_frame m f) g) = if decide (g = f) then 512%nat else length (words_of m g)) ∧
  ∀ g j, 0 <= j < 512 → ent (zero_frame m f) g j = if decide (g = f) then 0 else ent m g j.
Proof.
  unfold ent, words_of, zero_frame. cbn [words]. split; intros g *; case_decide as E.
  - subst. by rewrite lookup_insert_eq.
  - by rewrite lookup_insert_ne.
  - intros Hj. subst. rewrite lookup_insert_eq. cbn [default]. unfold id. rewrite lookup_replicate_2; [done|lia].
  - intros Hj. by rewrite lookup_insert_ne.
Qed.

Section tree.
Context (own : gmap Z (list Z)) (m : Mem S) (root : Z) (Hw : wf own m root).

Lemma own_inj f g p : own !! f = Some p → own !! g = Some p → f = g.
Proof.
  revert f g. induction p as [|i p IH] using rev_ind; intros f g Hf Hg.
  - rewrite (wf_root_only _ _ _ Hw f Hf). by rewrite (wf_root_only _ _ _ Hw g Hg).
  - destruct (wf_parent _ _ _ Hw f p i Hf) as (f' & Hf' & _ & _ & <-).
    destruct (wf_parent _ _ _ Hw g p i Hg) as (g' & Hg' & _ & _ & <-).
    by rewrite (IH f' g' Hf' Hg').
Qed.

Lemma child_own f p i g : own !! f = Some p → (length p < 3)%nat → 0 <= i < lim p →
  child m f i = Some g ↔ own !! g = Some (p ++ [i]).
Proof.
  intros Hf Hl Hi. unfold child. split.
  - destruct (present _) eqn:E; [|done]. intros [= <-]. by eapply wf_child.
  - intros Hg. destruct (wf_parent _ _ _ Hw g p i Hg) as (f' & Hf' & _ & E & <-).
    rewrite <- (own_inj f f' p Hf Hf') in *. by rewrite E.
Qed.

Lemma child_none f p i : own !! f = Some p → (length p < 3)%nat → 0 <= i < lim p →
  child m f i = None → ∀ g, own !! g ≠ Some (p ++ [i]).
Proof. intros Hf Hl Hi Hc g Hg. apply (child_own f p i g Hf Hl Hi) in Hg. congruence. Qed.
End tree.

Lemma indices_range v : 0 <= v < 2 ^ 35 → let '(i4, i3, i2, i1) := indices v in
  0 <= i4 < 256 ∧ 0 <= i3 < 512 ∧ 0 <= i2 < 512 ∧ 0 <= i1 < 512 ∧
  v = ((i4 * 512 + i3) * 512 + i2) * 512 + i1.
Proof.
  intros Hv. unfold indices, PAGE_TABLE_ENTRIES, PAGE_DIR_ENTRIES, PAGE_DIR_POINTER_TABLE_ENTRIES,
    PAGE_MAP_LEVEL_4_ENTRIES.
  pose proof (Z.div_mod v 512). pose proof (Z.div_mod (v / 512) 512).
  pose proof (Z.div_mod (v / 512 / 512) 512). pose proof (Z.mod_pos_bound v 512).
  pose proof (Z.mod_pos_bound (v / 512) 512). pose proof (Z.mod_pos_bound (v / 512 / 512) 512).
  assert (0 <= v / 512 / 512 / 512 < 256) as Hq.
  { rewrite !Z.div_div by lia. split; [apply Z.div_pos; lia|apply Z.div_lt_upper_bound; lia]. }
  rewrite (Z.mod_small (v / 512 / 512 / 512) 512) by lia. lia.
Qed.

(** A page is mapped exactly when its page table is in the tree and the entry
    in it is present. *)
Lemma translate_own own m root v e : wf own m root → 0 <= v < 2 ^ 35 →
  let '(i4, i3, i2, i1) := indices v in
  translate m root v = Some e ↔
  ∃ t, own !! t = Some [i4; i3; i2] ∧ present (ent m t i1) = true ∧ e = ent m t i1.
Proof.
  intros Hw Hv. pose proof (indices_range v Hv) as Hi. unfold translate.
  destruct (indices v) as [[[i4 i3] i2] i1]. destruct Hi as (H4 & H3 & H2 & H1 & _).
  pose proof (wf_root _ _ _ Hw) as Hr.
  assert (∀ f p i, own !! f = Some p → (length p < 3)%nat → 0 <= i < lim p →
    ∀ g, child m f i = Some g ↔ own !! g = Some (p ++ [i])) as Hc by (intros; by apply (child_own own m root)).
  split.
  - intros Ht. apply bind_Some in Ht as (t3 & E3 & Ht). apply bind_Some in Ht as (t2 & E2 & Ht).
    apply bind_Some in Ht as (t1 & E1 & Ht).
    apply (Hc root [] i4) in E3; [|done|cbn [length]; lia|done].
    apply (Hc t3 [i4] i3) in E2; [|done|cbn [length]; lia|done].
    apply (Hc t2 [i4; i3] i2) in E1; [|done|cbn [length]; lia|done].
    exists t1. split; [done|]. destruct (present _); [by injection Ht as <-|done].
  - intros (t & Ht & Hp & ->).
    destruct (wf_parent _ _ _ Hw t [i4; i3] i2 Ht) as (t2 & Ht2 & _).
    destruct (wf_parent _ _ _ Hw t2 [i4] i3 Ht2) as (t3 & Ht3 & _).
    rewrite (proj2 (Hc root [] i4 Hr ltac:(cbn [length]; lia) H4 t3)) by done. cbn [mbind option_bind].
    rewrite (proj2 (Hc t3 [i4] i3 Ht3 ltac:(cbn [length]; lia) H3 t2)) by done. cbn [mbind option_bind].
    rewrite (proj2 (Hc t2 [i4; i3] i2 Ht2 ltac:(cbn [length]; lia) H2 t)) by done. cbn [mbind option_bind].
    by rewrite Hp.
Qed.

Lemma child_facts own m root f p i g : wf own m root → own !! f = Some p → (length p < 3)%nat →
  0 <= i < lim p → child m f i = Some g →
  present (ent m f i) = true ∧ size_bit (ent m f i) = 0 ∧ page_ppn (ent m f i) = g ∧
  own !! g = Some (p ++ [i]) ∧ 0 < g < total m ∧ length (words_of m g) = 512%nat.
Proof.
  intros Hw Hf Hl Hi Hc. pose proof Hc as Hg.
  apply (child_own own m root Hw f p i g Hf Hl Hi) in Hg.
  unfold child in Hc. destruct (present _) eqn:E; [|done]. injection Hc as Hc.
  destruct (wf_child _ _ _ Hw f p i Hf Hl Hi E) as [Hs _].
  pose proof (wf_used _ _ _ Hw _ _ Hg). pose proof (wf_len _ _ _ Hw _ _ Hg). tauto.
Qed.

Lemma lim_le p i : 0 <= i < lim p → 0 <= i < 512.
Proof. destruct p; cbn; lia. Qed.

(** The lookup, on a tree. *)
Lemma resolve_ok own m root v : wf own m root → 0 <= v < 2 ^ 35 →
  let '(i4, i3, i2, i1) := indices v in
  let t3 := child m root i4 in
  let t2 := t3 ≫= λ t, child m t i3 in
  let t1 := t2 ≫= λ t, child m t i2 in
  let pg := t1 ≫= λ t, child m t i1 in
  resolveMapping m root v = Val (mkMapping root t3 t2 t1
    (match pg with Some p => getIdentAddressOfPPN p PAGE_SIZE | None => 0 end)
    root (default 0 t3) (default 0 t2) (default 0 t1) (default 0 pg)
    (match pg with Some _ => PAGE_SIZE | None => 0 end) i4 i3 i2 i1).
Proof.
  intros Hw Hv. pose proof (indices_range v Hv) as Hi. unfold resolveMapping.
  destruct (indices v) as [[[i4 i3] i2] i1]. destruct Hi as (H4 & H3 & H2 & H1 & _).
  pose proof (wf_root _ _ _ Hw) as Hr. destruct (wf_used _ _ _ Hw _ _ Hr) as [_ Br].
  rewrite (proj2 (Z.ltb_lt _ _)) by lia. cbn [kassert mbind res_bind].
  rewrite get_ent by (apply (wf_len _ _ _ Hw _ _ Hr) || lia). cbn [mbind res_bind].
  destruct (child m root i4) as [t3|] eqn:E3.
  2: { unfold child in E3. by destruct (present (ent m root i4)). }
  destruct (child_facts own m root root [] i4 t3 Hw Hr) as (P3 & S3 & Q3 & O3 & B3 & L3);
    [cbn; lia|done|done|].
  rewrite P3, Q3. cbn [negb mbind option_bind default]. rewrite get_ent by (done || lia). cbn [mbind res_bind].
  destruct (child m t3 i3) as [t2|] eqn:E2.
  2: { unfold child in E2. by destruct (present (ent m t3 i3)). }
  destruct (child_facts own m root t3 [i4] i3 t2 Hw O3) as (P2 & S2 & Q2 & O2 & B2 & L2);
    [cbn; lia|done|done|].
  rewrite P2, S2, Q2. cbn [Z.eqb andb mbind option_bind default].
  rewrite (proj2 (Z.ltb_lt t2 _)) by lia. cbn [kassert mbind res_bind].
  rewrite get_ent by (done || lia). cbn [mbind res_bind].
  destruct (child m t2 i2) as [t1|] eqn:E1.
  2: { unfold child in E1. by destruct (present (ent m t2 i2)). }
  destruct (child_facts own m root t2 [i4; i3] i2 t1 Hw O2) as (P1 & S1 & Q1 & O1 & B1 & L1);
    [cbn; lia|done|done|].
  rewrite P1, S1, Q1. cbn [Z.eqb andb mbind option_bind default].
  rewrite (proj2 (Z.ltb_lt t1 _)) by lia. cbn [kassert mbind res_bind].
  rewrite get_ent by (done || lia). cbn [mbind res_bind]. unfold child.
  destruct (present (ent m t1 i1)) eqn:P0; [|done].
  destruct (wf_leaf _ _ _ Hw t1 _ i1 O1 eq_refl H1 P0) as (_ & B0 & _).
  by rewrite (proj2 (Z.ltb_lt (page_ppn _) _)) by lia.
Qed.

Lemma ptr_ok_true f : 0 < f < 2 ^ 28 → ptr_ok f = true.
Proof.
  intros Hf. unfold ptr_ok, getIdentAddressOfPPN, PAGE_SIZE. rewrite wrap_small by lia.
  rewrite Z.land_lor_distr_l. change (Z.land 0xFFFFF00000000000 0x00000FFFFFFFFFFF) with 0.
  rewrite Z.lor_0_l. change 0x00000FFFFFFFFFFF with (Z.ones 44). rewrite Z.land_ones by lia.
  rewrite Z.mod_small by lia. apply negb_true_iff, Z.eqb_neq. lia.
Qed.

(** A new table [g] below entry [i] of table [f]. *)
Lemma insert_ok own m root f p i g s : wf own m root → own !! f = Some p → (length p < 3)%nat →
  0 <= i < lim p → child m f i = None → ps_alloc (source m) = Val (s, g) →
  ∃ m', insert (zero_frame (mkMem (words m) s) g) f i g 1 0 1 1 = Val (m', true) ∧ source m' = s ∧
    (∀ h, length (words_of m' h) = if decide (h = g) then 512%nat else length (words_of m h)) ∧
    ∀ h j, 0 <= j < 512 → ent m' h j =
      if decide (h = f ∧ j = i) then entry g 0 1 1 else if decide (h = g) then 0 else ent m h j.
Proof.
  intros Hw Hf Hl Hi Hc Ea. pose proof (lim_le _ _ Hi) as Hi'.
  destruct (ps_alloc_ok _ _ _ (wf_src _ _ _ Hw) Ea) as (Hs & Ht & Hg & Hu & Hu').
  destruct (wf_used _ _ _ Hw _ _ Hf) as [Huf Hbf]. destruct (wf_len _ _ _ Hw _ _ Hf) as [Hlf _].
  pose proof (ps_total_ok _ (wf_src _ _ _ Hw)) as Htot. fold (total m) in Htot.
  assert (f ≠ g) as Hfg by (intros ->; done).
  set (m0 := mkMem (words m) s). unfold insert. rewrite ptr_ok_true by lia.
  cbn [kassert mbind res_bind Z.eqb negb].
  destruct (zero_ent m0 g) as [L1 E1]. destruct (zero_ent (zero_frame m0 g) g) as [L2 E2].
  set (m2 := zero_frame (zero_frame m0 g) g) in *.
  assert (ent m f i = 0) as Hz.
  { apply (wf_zero _ _ _ Hw f p i Hf Hi). unfold child in Hc. by destruct (present _). }
  assert (length (words_of m2 f) = 512%nat) as Hl2 by (by rewrite L2, decide_False, L1, decide_False).
  assert (ent m2 f i = 0) as Hz2.
  { rewrite E2, decide_False, E1, decide_False by done. exact Hz. }
  rewrite (get_ent m2 f i Hl2 Hi'), Hz2. cbn [mbind res_bind kassert Z.eqb].
  rewrite (get_ent m2 f i Hl2 Hi'), Hz2. cbn [mbind res_bind].
  destruct (put_ent m2 f i (entry g 0 1 1) Hl2 Hi') as (m3 & Ep & Es & L3 & E3).
  fold (entry g 0 1 1). rewrite Ep. cbn [mbind res_bind]. exists m3. split; [done|]. split; [done|]. split.
  - intros h. rewrite L3, L2. case_decide; [done|]. rewrite L1. by rewrite decide_False.
  - intros h j Hj. rewrite E3 by lia. case_decide; [done|]. rewrite E2 by done.
    case_decide; [done|]. rewrite E1 by done. by rewrite decide_False.
Qed.

Lemma snoc_inj (p q : list Z) i j : p ++ [i] = q ++ [j] → p = q ∧ i = j.
Proof. intros E. by apply app_inj_tail in E. Qed.

Lemma present_0 : present 0 = false.
Proof. done. Qed.

Lemma wf_insert own m m' root f p i g s : wf own m root → own !! f = Some p → (length p < 3)%nat →
  0 <= i < lim p → child m f i = None → ps_alloc (source m) = Val (s, g) → source m' = s →
  (∀ h, length (words_of m' h) = if decide (h = g) then 512%nat else length (words_of m h)) →
  (∀ h j, 0 <= j < 512 → ent m' h j =
      if decide (h = f ∧ j = i) then entry g 0 1 1 else if decide (h = g) then 0 else ent m h j) →
  own !! g = None ∧ wf (<[g := p ++ [i]]> own) m' root.
Proof.
  intros Hw Hf Hl Hi Hc Ea Es HL HE. pose proof (lim_le _ _ Hi) as Hi'.
  destruct (ps_alloc_ok _ _ _ (wf_src _ _ _ Hw) Ea) as (Hs & Ht & Hg & Hu & Hu').
  pose proof (ps_total_ok _ (wf_src _ _ _ Hw)) as Htot.
  assert (own !! g = None) as Hn.
  { apply eq_None_not_Some. intros [q Hq]. by apply (wf_used _ _ _ Hw) in Hq as [? _]. }
  split; [done|]. assert (f ≠ g) as Hfg by congruence.
  destruct (entry_ok g 0 1 1) as (P & Sz & Q & _); [lia..|].
  assert (total m' = total m) as Htm by (unfold total; by rewrite Es).
  assert (present (ent m f i) = false) as Hnp by (unfold child in Hc; by destruct (present _)).
  split.
  - rewrite lookup_insert_ne; [apply (wf_root _ _ _ Hw)|]. intros ->. by rewrite (wf_root _ _ _ Hw) in Hn.
  - intros h. destruct (decide (h = g)) as [->|]; [rewrite lookup_insert_eq|rewrite lookup_insert_ne by done].
    + intros [= E]. by destruct p.
    + apply (wf_root_only _ _ _ Hw).
  - intros h q. rewrite HL. destruct (decide (h = g)) as [->|]; [rewrite lookup_insert_eq|rewrite lookup_insert_ne by done].
    + intros [= <-]. rewrite length_app. cbn [length]. split; [done|lia].
    + apply (wf_len _ _ _ Hw).
  - intros h q. rewrite Htm, Es, Hu'. destruct (decide (h = g)) as [->|]; [rewrite lookup_insert_eq|rewrite lookup_insert_ne by done].
    + intros _. split; [by right|]. unfold total. lia.
    + intros Hq. apply (wf_used _ _ _ Hw) in Hq. tauto.
  - intros h q j. destruct (decide (h = g)) as [->|]; [rewrite lookup_insert_eq|rewrite lookup_insert_ne by done].
    + intros [= [-> ->]%snoc_inj]. exists f. rewrite lookup_insert_ne, HE, decide_True by done. done.
    + intros Hq. destruct (wf_parent _ _ _ Hw h q j Hq) as (h' & Hh' & Hj & Hp & Hpp).
      exists h'. rewrite lookup_insert_ne by congruence. rewrite HE by by eapply lim_le.
      rewrite !decide_False by (intros ?; destruct_and?; subst; congruence). done.
  - intros h q j. destruct (decide (h = g)) as [->|]; [rewrite lookup_insert_eq|rewrite (lookup_insert_ne _ g h) by done].
    + intros _ _ Hj. rewrite HE by by eapply lim_le.
      rewrite decide_False, decide_True by (done || by intros [? _]). by rewrite present_0.
    + intros Hq Hlq Hj. rewrite HE by by eapply lim_le. case_decide as Eh.
      * destruct Eh as [-> ->]. intros _. rewrite Sz, Q, lookup_insert_eq. split; [done|]. congruence.
      * rewrite decide_False by done. intros Hp. destruct (wf_child _ _ _ Hw h q j Hq Hlq Hj Hp) as [H1 H2].
        split; [done|]. rewrite lookup_insert_ne; [done|]. intros E. rewrite <- E in H2. congruence.
  - intros h q j. destruct (decide (h = g)) as [->|]; [rewrite lookup_insert_eq|rewrite (lookup_insert_ne _ g h) by done].
    + intros _ _ Hj. rewrite HE by done.
      rewrite decide_False, decide_True by (done || by intros [? _]). by rewrite present_0.
    + intros Hq Hlq Hj. rewrite HE by done.
      rewrite decide_False by (intros [-> _]; rewrite Hf in Hq; injection Hq as ->; lia).
      rewrite decide_False by done. intros Hp.
      destruct (wf_leaf _ _ _ Hw h q j Hq Hlq Hj Hp) as (H1 & H2 & H3).
      rewrite Htm, Es, Hu'. split; [by left|]. split; [done|].
      rewrite lookup_insert_ne; [done|]. intros E. by rewrite <- E in H1.
  - intros h q j. destruct (decide (h = g)) as [->|]; [rewrite lookup_insert_eq|rewrite (lookup_insert_ne _ g h) by done].
    + intros _ Hj _. rewrite HE by by eapply lim_le. by rewrite decide_False, decide_True by (done || by intros [? _]).
    + intros Hq Hj. rewrite HE by by eapply lim_le. case_decide; [congruence|]. rewrite decide_False by done.
      by apply (wf_zero _ _ _ Hw h q).
  - by rewrite Es.
Qed.

(** Two trees with the same page tables translate alike. *)
Lemma translate_ext own own' m m' root v : wf own m root → wf own' m' root → 0 <= v < 2 ^ 35 →
  (∀ t p i, length p = 3%nat → 0 <= i < 512 →
    own !! t = Some p ∧ present (ent m t i) = true → own' !! t = Some p ∧ ent m' t i = ent m t i) →
  (∀ t p i, length p = 3%nat → 0 <= i < 512 →
    own' !! t = Some p ∧ present (ent m' t i) = true → own !! t = Some p ∧ ent m' t i = ent m t i) →
  translate m' root v = translate m root v.
Proof.
  intros Hw Hw' Hv H1 H2. apply option_eq. intros e.
  pose proof (translate_own own m root v e Hw Hv) as T. pose proof (translate_own own' m' root v e Hw' Hv) as T'.
  pose proof (indices_range v Hv) as Hi. destruct (indices v) as [[[i4 i3] i2] i1].
  destruct Hi as (_ & _ & _ & Hi & _). rewrite T, T'. split; intros (t & Ho & Hp & ->).
  - destruct (H2 t [i4; i3; i2] i1 eq_refl Hi (conj Ho Hp)) as [Ho' Ee]. exists t. by rewrite <- Ee.
  - destruct (H1 t [i4; i3; i2] i1 eq_refl Hi (conj Ho Hp)) as [Ho' Ee]. exists t. by rewrite Ee.
Qed.

(** At most [n] frames are not in use. *)
Definition nearly_full (n : nat) m : Prop :=
  ∃ l, (length l <= n)%nat ∧ ∀ q, 0 < q < total m → ps_used (source m) q ∨ q ∈ l.

Lemma nearly_full_mono n n' m : nearly_full n m → (n <= n')%nat → nearly_full n' m.
Proof. intros (l & Hl & H1) Hn. exists l. split; [lia|done]. Qed.

(** What [next_table] keeps of the tree. *)
Record grows (own own' : gmap Z (list Z)) m m' (p : list Z) : Prop := {
  gr_own h q : own !! h = Some q → own' !! h = Some q;
  gr_new h : ps_used (source m) h → own !! h = None → own' !! h = None;
  gr_used h : ps_used (source m) h → ps_used (source m') h;
  gr_total : total m' = total m;
  gr_few : ∃ l, (length l <= 1)%nat ∧ ∀ h, ps_used (source m') h → ps_used (source m) h ∨ h ∈ l;
  gr_ent h q j : own !! h = Some q → q ≠ p → 0 <= j < 512 → ent m' h j = ent m h j;
}.

Lemma next_ok own m root f p i : wf own m root → own !! f = Some p → (length p < 3)%nat → 0 <= i < lim p →
  match next_table m (default 0 (child m f i)) f i with
  | Err e => child m f i = None ∧ ps_alloc (source m) = Err e
  | Val (m', g) => ∃ own', wf own' m' root ∧ own' !! g = Some (p ++ [i]) ∧ grows own own' m m' p ∧
      (∀ j, 0 <= j < 512 → child m' g j = child m f i ≫= λ g, child m g j) ∧
      (∀ v, 0 <= v < 2 ^ 35 → translate m' root v = translate m root v) ∧
      (is_Some (child m f i) → m' = m)
  end.
Proof.
  intros Hw Hf Hl Hi. unfold next_table. destruct (child m f i) as [g|] eqn:Hc; cbn [default].
  - destruct (child_facts own m root f p i g Hw Hf Hl Hi Hc) as (_ & _ & _ & Ho & Hb & _).
    unfold id. rewrite (proj2 (Z.eqb_neq _ _)) by lia. exists own. split; [done|]. split; [done|].
    split; [|by split_and!]. split; try done. exists []. split; [cbn; lia|by left].
  - cbn [Z.eqb]. unfold allocPPN. destruct (ps_alloc (source m)) as [[s g]|e] eqn:Ea; cbn [mbind res_bind]; [|done].
    destruct (insert_ok own m root f p i g s Hw Hf Hl Hi Hc Ea) as (m' & -> & Es & HL & HE).
    cbn [mbind res_bind].
    destruct (wf_insert own m m' root f p i g s Hw Hf Hl Hi Hc Ea Es HL HE) as [Hn Hw'].
    destruct (ps_alloc_ok _ _ _ (wf_src _ _ _ Hw) Ea) as (_ & Ht & _ & Hu & Hu').
    assert (∀ h q j, own !! h = Some q → q ≠ p → 0 <= j < 512 → ent m' h j = ent m h j) as Hent.
    { intros h q j Hq Hne Hj. rewrite HE by done.
      rewrite decide_False by (intros [-> _]; congruence). by rewrite decide_False by congruence. }
    exists (<[g := p ++ [i]]> own). split; [done|]. split; [by rewrite lookup_insert_eq|]. split.
    { split.
      - intros h q Hq. rewrite lookup_insert_ne by congruence. done.
      - intros h Hh Ho. rewrite lookup_insert_ne; [done|]. by intros ->.
      - intros h. rewrite Es, Hu'. by left.
      - unfold total. by rewrite Es.
      - exists [g]. split; [done|]. intros h. rewrite Es, Hu', list_elem_of_singleton. tauto.
      - done. }
    assert (∀ j, 0 <= j < 512 → ent m' g j = 0) as Hg0.
    { intros j Hj. rewrite HE by done. rewrite decide_False by (intros [-> _]; congruence). by rewrite decide_True. }
    split; [intros j Hj; unfold child; by rewrite Hg0|]. split; [|by intros [? ?]].
    intros v Hv. apply (translate_ext own (<[g := p ++ [i]]> own)); try done.
    + intros t q j Hq Hj [Ho _]. rewrite lookup_insert_ne by congruence. split; [done|].
      apply (Hent t q); [done|intros ->; lia|done].
    + intros t q j Hq Hj [Ho Hp]. destruct (decide (t = g)) as [->|Hne]; [by rewrite Hg0 in Hp|].
      rewrite lookup_insert_ne in Ho by done. split; [done|].
      apply (Hent t q); [done|intros ->; lia|done].
Qed.

(** Writing an entry of a page table. *)
Lemma leaf_ok own m root t p i e s m' : wf own m root → own !! t = Some p → length p = 3%nat → 0 <= i < 512 →
  put m t i e = Val m' → s = source m' →
  (present e = true → ps_used s (page_ppn e) ∧ 0 < page_ppn e < total m ∧ own !! page_ppn e = None) →
  (present e = false → e = 0) →
  wf own m' root ∧ source m' = source m ∧
  (∀ h j, 0 <= j < 512 → ent m' h j = if decide (h = t ∧ j = i) then e else ent m h j).
Proof.
  intros Hw Ht Hp Hi Ep -> He1 He0. destruct (wf_len _ _ _ Hw _ _ Ht) as [Hl _].
  destruct (put_ent m t i e Hl Hi) as (m1 & Ep' & Es & HL & HE). rewrite Ep in Ep'. injection Ep' as <-.
  assert (total m' = total m) as Htm by (unfold total; by rewrite Es).
  assert (∀ h j, 0 <= j < 512 → ent m' h j = if decide (h = t ∧ j = i) then e else ent m h j) as HE'
    by (intros; by rewrite HE by lia).
  split; [|done]. split.
  - apply (wf_root _ _ _ Hw).
  - apply (wf_root_only _ _ _ Hw).
  - intros h q. rewrite HL. apply (wf_len _ _ _ Hw).
  - intros h q. rewrite Es, Htm. apply (wf_used _ _ _ Hw).
  - intros h q j Hq. destruct (wf_parent _ _ _ Hw h q j Hq) as (h' & Hh' & Hj & ?).
    exists h'. rewrite HE' by by eapply lim_le. rewrite decide_False; [done|].
    intros [-> _]. destruct (wf_len _ _ _ Hw _ _ Hq) as [_ Hlq]. rewrite length_app in Hlq. cbn [length] in Hlq.
    assert (q = p) by congruence. subst. lia.
  - intros h q j Hq Hlq Hj. rewrite HE' by by eapply lim_le.
    rewrite decide_False by (intros [-> _]; assert (q = p) by congruence; subst; lia).
    by apply (wf_child _ _ _ Hw).
  - intros h q j Hq Hlq Hj. rewrite HE', Htm by done. case_decide as E.
    + destruct E as [-> ->]. by apply He1.
    + rewrite Es. by eapply (wf_leaf _ _ _ Hw h q j).
  - intros h q j Hq Hj. rewrite HE' by by eapply lim_le. case_decide; [done|].
    by apply (wf_zero _ _ _ Hw h q).
  - rewrite Es. apply (wf_src _ _ _ Hw).
Qed.

Lemma translate_leaf own m m' root t i4 i3 i2 i1 e : wf own m root → wf own m' root →
  own !! t = Some [i4; i3; i2] → 0 <= i1 < 512 →
  (∀ h q j, own !! h = Some q → 0 <= j < 512 → ent m' h j = if decide (h = t ∧ j = i1) then e else ent m h j) →
  ∀ v, 0 <= v < 2 ^ 35 → translate m' root v =
    if decide (indices v = (i4, i3, i2, i1)) then (if present e then Some e else None) else translate m root v.
Proof.
  intros Hw Hw' Ht Hi HE v Hv. apply option_eq. intros x.
  pose proof (translate_own own m root v x Hw Hv) as T. pose proof (translate_own own m' root v x Hw' Hv) as T'.
  pose proof (indices_range v Hv) as Hr. destruct (indices v) as [[[j4 j3] j2] j1].
  destruct Hr as (_ & _ & _ & Hj & _). rewrite T'. case_decide as E.
  - injection E as -> -> -> ->. split.
    + intros (t' & Ho & Hp & ->). rewrite (own_inj own m root Hw t' t _ Ho Ht) in *.
      rewrite (HE t _ _ Ht), decide_True in Hp |- * by done. by rewrite Hp.
    + destruct (present e) eqn:Hp; [|done]. intros [= <-]. exists t. rewrite (HE t _ _ Ht), decide_True by done. done.
  - rewrite T. assert (∀ t', own !! t' = Some [j4; j3; j2] → ent m' t' j1 = ent m t' j1) as Hsame.
    { intros t' Ho. rewrite (HE t' _ _ Ho) by done. rewrite decide_False; [done|]. intros [-> ->].
      apply E. rewrite Ht in Ho. by injection Ho as -> -> ->. }
    split; intros (t' & Ho & Hp & ->); exists t'; rewrite (Hsame t' Ho) in *; done.
Qed.

Lemma child_ext (own : gmap Z (list Z)) m m' f p i : (∀ h q j, own !! h = Some q → q ≠ p → 0 <= j < 512 → ent m' h j = ent m h j) →
  ∀ q, own !! f = Some q → q ≠ p → 0 <= i < 512 → child m' f i = child m f i.
Proof. intros HE q Hq Hne Hi. unfold child. by rewrite (HE f q i). Qed.

Lemma grows_trans own own1 own2 m m1 m2 p p' : grows own own1 m m1 p → grows own1 own2 m1 m2 p' →
  (∀ h q, own !! h = Some q → own2 !! h = Some q) ∧
  (∀ h, ps_used (source m) h → own !! h = None → own2 !! h = None) ∧
  (∀ h, ps_used (source m) h → ps_used (source m2) h) ∧ total m2 = total m.
Proof.
  intros [A1 A2 A3 A4 _ _] [B1 B2 B3 B4 _ _]. split; [auto|]. split; [|split; [auto|congruence]].
  intros h Hu Hn. apply B2; [by apply A3|by apply A2].
Qed.

Lemma grows_full own own' m m' p n : grows own own' m m' p → nearly_full n m' →
  nearly_full (Datatypes.S n) m.
Proof.
  intros [_ _ _ Et (l & Hl & Hu) _] (l' & Hl' & Hu'). exists (l ++ l').
  split; [rewrite length_app; lia|]. intros q Hq. rewrite elem_of_app. rewrite <- Et in Hq.
  destruct (Hu' q Hq) as [H1|]; [|tauto]. destruct (Hu q H1); tauto.
Qed.

Lemma full_0 m e : ps_ok (source m) → ps_alloc (source m) = Err e → nearly_full 0 m.
Proof. intros Hk E. exists []. split; [done|]. intros q Hq. left. by apply (ps_alloc_full _ e). Qed.

(** The tables on the way to [v], as [mapPage] sets them up. *)
Lemma tables_ok own m root v : wf own m root → 0 <= v < 2 ^ 35 →
  let '(i4, i3, i2, i1) := indices v in
  let t3 := child m root i4 in
  let t2 := t3 ≫= λ t, child m t i3 in
  let t1 := t2 ≫= λ t, child m t i2 in
  let pg := t1 ≫= λ t, child m t i1 in
  match ('(m, pdpt) ← next_table m (default 0 t3) root i4;
         '(m, pd) ← next_table m (default 0 t2) pdpt i3;
         next_table m (default 0 t1) pd i2) with
  | Err e => nearly_full 2 m
  | Val (m', pt) => ∃ own', wf own' m' root ∧ own' !! pt = Some [i4; i3; i2] ∧ child m' pt i1 = pg ∧
      (∀ h, ps_used (source m) h → own !! h = None → own' !! h = None) ∧
      (∀ h, ps_used (source m) h → ps_used (source m') h) ∧ total m' = total m ∧
      (∀ v, 0 <= v < 2 ^ 35 → translate m' root v = translate m root v) ∧ (is_Some t1 → m' = m)
  end.
Proof.
  intros Hw Hv. pose proof (indices_range v Hv) as Hi. destruct (indices v) as [[[i4 i3] i2] i1].
  destruct Hi as (H4 & H3 & H2 & H1 & _). cbv zeta.
  pose proof (wf_root _ _ _ Hw) as Hr.
  pose proof (next_ok own m root root [] i4 Hw Hr ltac:(cbn; lia) H4) as N1.
  destruct (next_table m (default 0 (child m root i4)) root i4) as [[m1 t3]|e];
    cbn [mbind res_bind];
    [|destruct N1 as [_ N1]; apply (nearly_full_mono 0); [apply (full_0 m e (wf_src _ _ _ Hw) N1)|lia]].
  destruct N1 as (own1 & W1 & O1 & G1 & C1 & T1 & S1). cbn [app] in O1.
  pose proof (next_ok own1 m1 root t3 [i4] i3 W1 O1 ltac:(cbn; lia) H3) as N2.
  rewrite C1 in N2 by done. set (t2' := child m root i4 ≫= λ t, child m t i3) in *.
  destruct (next_table m1 (default 0 t2') t3 i3) as [[m2 t2]|e];
    cbn [mbind res_bind];
    [|destruct N2 as [_ N2]; apply (nearly_full_mono 1); [|lia];
      apply (grows_full _ _ _ _ _ _ G1), (full_0 m1 e (wf_src _ _ _ W1) N2)].
  destruct N2 as (own2 & W2 & O2 & G2 & C2 & T2 & S2). cbn [app] in O2.
  assert (∀ g q, own !! g = Some q → q ≠ [] → ∀ i, 0 <= i < 512 → child m1 g i = child m g i) as E1.
  { intros g q Hq Hne i Hi. by apply (child_ext own m m1 g [] i (gr_ent _ _ _ _ _ G1) q). }
  assert (∀ g, t2' = Some g → own !! g = Some [i4; i3]) as Ot2.
  { intros g Eg. unfold t2' in Eg. apply bind_Some in Eg as (g3 & Eg3 & Eg).
    destruct (child_facts own m root root [] i4 g3 Hw Hr) as (_ & _ & _ & Og & _); [cbn; lia|done|done|].
    by destruct (child_facts own m root g3 [i4] i3 g Hw Og) as (_ & _ & _ & Og2 & _); [cbn; lia|done|done|]. }
  pose proof (next_ok own2 m2 root t2 [i4; i3] i2 W2 O2 ltac:(cbn; lia) H2) as N3.
  assert (child m2 t2 i2 = t2' ≫= λ t, child m t i2) as Et1.
  { rewrite C2 by done. destruct t2' as [g|] eqn:Eg; cbn [mbind option_bind]; [|done].
    apply (E1 g [i4; i3]); [by apply Ot2|done|done]. }
  rewrite Et1 in N3. set (t1' := t2' ≫= λ t, child m t i2) in *.
  destruct (next_table m2 (default 0 t1') t2 i2) as [[m3 t1]|e];
    [|destruct N3 as [_ N3]; apply (grows_full _ _ _ _ _ _ G1), (grows_full _ _ _ _ _ _ G2),
      (full_0 m2 e (wf_src _ _ _ W2) N3)].
  destruct N3 as (own3 & W3 & O3 & G3 & C3 & T3 & S3). cbn [app] in O3.
  exists own3. split; [done|]. split; [done|].
  destruct (grows_trans _ _ _ _ _ _ _ _ G1 G2) as (X1 & X2 & X3 & X4).
  split.
  { rewrite C3 by done. destruct t1' as [g|] eqn:Eg; cbn [mbind option_bind]; [|done].
    assert (own !! g = Some [i4; i3; i2]) as Og.
    { unfold t1' in Eg. apply bind_Some in Eg as (g2 & Eg2 & Eg).
      by destruct (child_facts own m root g2 [i4; i3] i2 g Hw (Ot2 _ Eg2)) as (_ & _ & _ & ? & _); [cbn; lia|done|done|]. }
    rewrite (child_ext own1 m1 m2 g [i4] i1 (gr_ent _ _ _ _ _ G2) [i4; i3; i2]);
      [by apply (E1 g [i4; i3; i2])|by apply (gr_own _ _ _ _ _ G1)|done|done]. }
  split; [intros h Hu Hn; apply (gr_new _ _ _ _ _ G3); auto|].
  split; [intros h Hu; apply (gr_used _ _ _ _ _ G3); auto|].
  split; [rewrite (gr_total _ _ _ _ _ G3); done|].
  split; [intros; by rewrite T3, T2, T1|].
  intros Hs. assert (is_Some t2') as Hs2 by (unfold t1' in Hs; destruct t2'; [by eexists|by destruct Hs]).
  assert (is_Some (child m root i4)) as Hs3 by (unfold t2' in Hs2; destruct (child m root i4); [by eexists|by destruct Hs2]).
  by rewrite S3, S2, S1.
Qed.

Lemma translate_resolve m root v : translate m root v =
  let '(i4, i3, i2, i1) := indices v in
  child m root i4 ≫= λ t3, child m t3 i3 ≫= λ t2, child m t2 i2 ≫= λ t1,
  if present (ent m t1 i1) then Some (ent m t1 i1) else None.
Proof. unfold translate. by destruct (indices v) as [[[i4 i3] i2] i1]. Qed.

Lemma indices_inj v v' : 0 <= v < 2 ^ 35 → 0 <= v' < 2 ^ 35 → indices v = indices v' → v = v'.
Proof.
  intros Hv Hv' E. pose proof (indices_range v Hv) as H1. pose proof (indices_range v' Hv') as H2.
  rewrite <- E in H2. destruct (indices v) as [[[i4 i3] i2] i1]. lia.
Qed.

Lemma indices_of i4 i3 i2 i1 : 0 <= i4 < 256 → 0 <= i3 < 512 → 0 <= i2 < 512 → 0 <= i1 < 512 →
  0 <= ((i4 * 512 + i3) * 512 + i2) * 512 + i1 < 2 ^ 35 ∧
  indices (((i4 * 512 + i3) * 512 + i2) * 512 + i1) = (i4, i3, i2, i1).
Proof.
  intros H4 H3 H2 H1. split; [lia|]. unfold indices, PAGE_TABLE_ENTRIES, PAGE_DIR_ENTRIES,
    PAGE_DIR_POINTER_TABLE_ENTRIES, PAGE_MAP_LEVEL_4_ENTRIES.
  rewrite !Z.div_add_l, (Z.div_small i1), Z.add_0_r by lia.
  rewrite !Z.div_add_l, (Z.div_small i2), Z.add_0_r by lia.
  rewrite !Z.div_add_l, (Z.div_small i3), Z.add_0_r by lia.
  rewrite (Z.mod_small i4) by lia.
  rewrite !(Z.add_comm (_ * 512)), !Z.mod_add, !Z.mod_small by lia. done.
Qed.

Lemma own_range own m root t i4 i3 i2 : wf own m root → own !! t = Some [i4; i3; i2] →
  0 <= i4 < 256 ∧ 0 <= i3 < 512 ∧ 0 <= i2 < 512.
Proof.
  intros Hw Ht. destruct (wf_parent _ _ _ Hw t [i4; i3] i2 Ht) as (t2 & Ht2 & H2 & _).
  destruct (wf_parent _ _ _ Hw t2 [i4] i3 Ht2) as (t3 & Ht3 & H3 & _).
  destruct (wf_parent _ _ _ Hw t3 [] i4 Ht3) as (t4 & Ht4 & H4 & _). done.
Qed.

(** *** Removal *)

(** Entry [i] of table [f], which refers to frame [x], is cleared and [x] given
    back; a table is given back empty, a page while nothing else maps it. *)
Lemma wf_remove own m m' root f p i x : wf own m root → own !! f = Some p → 0 <= i < lim p →
  present (ent m f i) = true → x = page_ppn (ent m f i) →
  ((length p < 3)%nat → ∀ j, 0 <= j < 512 → present (ent m x j) = false) →
  (length p = 3%nat → ∀ h q j, own !! h = Some q → length q = 3%nat → 0 <= j < 512 →
     present (ent m h j) = true → page_ppn (ent m h j) = x → h = f ∧ j = i) →
  ps_ok (source m') → total m' = total m → (∀ q, ps_used (source m') q → ps_used (source m) q) →
  (∀ q, q ≠ x → ps_used (source m) q → ps_used (source m') q) →
  (∀ h q, own !! h = Some q → h ≠ x → length (words_of m' h) = length (words_of m h) ∧
     ∀ j, 0 <= j < 512 → ent m' h j = if decide (h = f ∧ j = i) then 0 else ent m h j) →
  wf (delete x own) m' root.
Proof.
  intros Hw Hf Hi Hp Hx Hempty Huniq Hok Ht Hu1 Hu2 HE. pose proof (lim_le _ _ Hi) as Hi'.
  destruct (wf_len _ _ _ Hw _ _ Hf) as [_ Hl].
  assert ((length p < 3)%nat → own !! x = Some (p ++ [i])) as Hx1.
  { intros Hlt. rewrite Hx. by apply (wf_child _ _ _ Hw f p i). }
  assert (length p = 3%nat → own !! x = None) as Hx2.
  { intros E. rewrite Hx. destruct p as [|? [|? [|? [|]]]]; try done.
    by destruct (wf_leaf _ _ _ Hw f _ i Hf eq_refl Hi' Hp) as (_ & _ & ?). }
  assert (∀ h q, own !! h = Some q → (length q <= length p)%nat → h ≠ x) as Hne.
  { intros h q Hq Hlq ->. destruct (decide (length p = 3%nat)) as [E|]; [rewrite Hx2 in Hq; done|].
    rewrite Hx1 in Hq by lia. injection Hq as <-. rewrite length_app in Hlq. cbn [length] in Hlq. lia. }
  split.
  - rewrite lookup_delete_ne; [apply (wf_root _ _ _ Hw)|]. symmetry.
    apply (Hne root []); [apply (wf_root _ _ _ Hw)|cbn; lia].
  - intros h [_ Hh]%lookup_delete_Some. by apply (wf_root_only _ _ _ Hw).
  - intros h q [Hhx%not_eq_sym Hh]%lookup_delete_Some. destruct (HE h q Hh) as [-> _]; [done|]. by apply (wf_len _ _ _ Hw).
  - intros h q [Hhx%not_eq_sym Hh]%lookup_delete_Some. rewrite Ht.
    destruct (wf_used _ _ _ Hw h q Hh) as [? ?]. split; [by apply Hu2|done].
  - intros h q j [Hhx%not_eq_sym Hh]%lookup_delete_Some.
    destruct (wf_parent _ _ _ Hw h q j Hh) as (g & Hg & Hj & Hpg & Hgh). pose proof (lim_le _ _ Hj) as Hj'.
    exists g. assert (g ≠ x) as Hgx.
    { intros ->. destruct (decide (length p = 3%nat)) as [E|]; [rewrite Hx2 in Hg; done|].
      rewrite Hempty in Hpg by (done || lia). done. }
    rewrite lookup_delete_ne by done. rewrite (proj2 (HE g q Hg Hgx) j Hj').
    rewrite decide_False; [done|]. intros [-> ->]. congruence.
  - intros h q j [Hhx%not_eq_sym Hh]%lookup_delete_Some Hlq Hj. pose proof (lim_le _ _ Hj) as Hj'.
    rewrite (proj2 (HE h q Hh Hhx) j Hj'). case_decide as E; [by rewrite present_0|].
    intros Hpj. destruct (wf_child _ _ _ Hw h q j Hh Hlq Hj Hpj) as [? Hc]. split; [done|].
    rewrite lookup_delete_ne; [done|]. intros Ex. rewrite <- Ex in Hc.
    destruct (decide (length p = 3%nat)); [rewrite Hx2 in Hc; done|].
    rewrite Hx1 in Hc by lia. injection Hc as [-> ->]%snoc_inj. apply E. split; [|done].
    by apply (own_inj own m root Hw h f q).
  - intros h q j [Hhx%not_eq_sym Hh]%lookup_delete_Some Hlq Hj.
    rewrite (proj2 (HE h q Hh Hhx) j Hj). case_decide as E; [by rewrite present_0|].
    intros Hpj. destruct (wf_leaf _ _ _ Hw h q j Hh Hlq Hj Hpj) as (? & ? & Hn). rewrite Ht.
    split; [|split; [done|by rewrite lookup_delete_None; right]]. apply Hu2; [|done].
    intros Ex. destruct (decide (length p = 3%nat)).
    + apply E. by apply (Huniq ltac:(done) h q j).
    + rewrite Ex, Hx1 in Hn by lia. done.
  - intros h q j [Hhx%not_eq_sym Hh]%lookup_delete_Some Hj. rewrite (proj2 (HE h q Hh Hhx) j (lim_le _ _ Hj)).
    case_decide; [done|]. by apply (wf_zero _ _ _ Hw h q j).
  - done.
Qed.

(** Frames given back one after the other. *)
Fixpoint releases (s : S) (l : list Z) : res S :=
  match l with
  | [] => Val s
  | p :: l => '(s, _) ← ps_free s p; releases s l
  end.

Lemma releases_cons s s' p l : releases s [p] = Val s' → releases s (p :: l) = releases s' l.
Proof. cbn [releases]. destruct (ps_free s p) as [[s1 b]|]; cbn [mbind res_bind]; [by intros [= ->]|done]. Qed.

(** No entry of a table but the [i]-th is present. *)
Definition sole m (f i : Z) : bool := forallb (λ j, (j =? i) || negb (present (ent m f j))) (seqZ 0 512).

Lemma sole_true m f i : sole m f i = true ↔ ∀ j, 0 <= j < 512 → j ≠ i → present (ent m f j) = false.
Proof.
  unfold sole. rewrite forallb_forall. split.
  - intros Hall j Hj Hne. specialize (Hall j). rewrite <- list_elem_of_In, elem_of_seqZ in Hall.
    rewrite (proj2 (Z.eqb_neq _ _) Hne) in Hall. cbn in Hall. apply negb_true_iff, Hall. lia.
  - intros Hall j. rewrite <- list_elem_of_In, elem_of_seqZ. intros Hj. destruct (Z.eqb_spec j i) as [|Hne]; [done|].
    cbn. rewrite Hall; [done|lia|done].
Qed.

Lemma sole_ext m m' f i : (∀ j, 0 <= j < 512 → j ≠ i → ent m' f j = ent m f j) → sole m' f i = sole m f i.
Proof.
  intros E. apply eq_true_iff_eq. rewrite !sole_true. by split; intros Hall j Hj Hne; [rewrite <- E|rewrite E]; auto.
Qed.

Lemma free_ent m x : ps_ok (source m) → ps_used (source m) x → 0 < x < total m →
  ∃ m', freePPN m x = Val m' ∧ ps_ok (source m') ∧ total m' = total m ∧ (∀ q, ps_used (source m') q → ps_used (source m) q) ∧
  (∀ q, q ≠ x → ps_used (source m) q → ps_used (source m') q) ∧
  (∀ h, h ≠ x → words_of m' h = words_of m h) ∧ releases (source m) [x] = Val (source m').
Proof.
  intros Hok Hu Hx. unfold freePPN. destruct (ps_free_some _ _ Hok Hu Hx) as [[s b] Ef]. rewrite Ef.
  cbn [mbind res_bind]. eexists. split; [done|]. cbn [source].
  destruct (ps_free_ok _ _ _ _ Hok Hu ltac:(lia) Ef) as (? & ? & ? & ?). cbn [releases]. rewrite Ef.
  split_and!; try done. intros h Hh. unfold words_of. cbn [words]. destruct b; [|done]. by rewrite lookup_delete_ne.
Qed.

Lemma ent_words m m' h j : words_of m' h = words_of m h → ent m' h j = ent m h j.
Proof. unfold ent. by intros ->. Qed.

Lemma empty_table m f : length (words_of m f) = 512%nat →
  forallb (λ e, negb (present e)) (words_of m f) = true ↔ ∀ j, 0 <= j < 512 → present (ent m f j) = false.
Proof.
  intros Hl. rewrite forallb_forall. split.
  - intros Hall j Hj. apply negb_true_iff, Hall. apply list_elem_of_In, list_elem_of_lookup.
    exists (Z.to_nat j). unfold ent. destruct (lookup_lt_is_Some_2 (words_of m f) (Z.to_nat j)) as [e He]; [lia|].
    by rewrite He.
  - intros Hall e He. apply list_elem_of_In, list_elem_of_lookup in He as [n Hn].
    apply negb_true_iff. pose proof (lookup_lt_Some _ _ _ Hn).
    specialize (Hall (Z.of_nat n) ltac:(lia)). unfold ent in Hall. rewrite Nat2Z.id, Hn in Hall. done.
Qed.

(** Clearing an entry, and whether the table is empty then. *)
Lemma checkAndRemove_ok m f i : length (words_of m f) = 512%nat → 0 <= i < 512 →
  ∃ m', checkAndRemove m f i = Val (m', sole m f i) ∧ source m' = source m ∧
    (∀ g, length (words_of m' g) = length (words_of m g)) ∧
    ∀ g j, 0 <= j → ent m' g j = if decide (g = f ∧ j = i) then 0 else ent m g j.
Proof.
  intros Hl Hi. unfold checkAndRemove. destruct (put_ent m f i 0 Hl Hi) as (m' & -> & Es & HL & HE).
  cbn [mbind res_bind]. exists m'. split_and!; try done. do 2 f_equal. apply eq_true_iff_eq.
  rewrite empty_table by (by rewrite HL). rewrite sole_true. split; intros Hall j Hj.
  - intros Hne. specialize (Hall j Hj). rewrite HE in Hall by lia. by rewrite decide_False in Hall by naive_solver.
  - rewrite HE by lia. destruct (decide (j = i)) as [->|Hne]; [by rewrite decide_True|].
    rewrite decide_False by naive_solver. by apply Hall.
Qed.

(** One of the three blocks of [unmapPage] that give back an empty table. *)
Lemma remove_ok own m root f p i x : wf own m root → own !! f = Some p → (length p < 3)%nat → 0 <= i < lim p →
  child m f i = Some x → (∀ j, 0 <= j < 512 → present (ent m x j) = false) →
  ∃ m', drop_table m true f i x = Val (m', sole m f i) ∧ wf (delete x own) m' root ∧
      releases (source m) [x] = Val (source m') ∧
      (∀ h q j, own !! h = Some q → h ≠ x → 0 <= j < 512 →
         ent m' h j = if decide (h = f ∧ j = i) then 0 else ent m h j) ∧
      (∀ v, 0 <= v < 2 ^ 35 → translate m' root v = translate m root v).
Proof.
  intros Hw Hf Hl Hi Hc Hempty. pose proof (lim_le _ _ Hi) as Hi'.
  destruct (wf_len _ _ _ Hw _ _ Hf) as [Hlf _].
  destruct (child_facts own m root f p i x Hw Hf Hl Hi Hc) as (Hp & _ & Hx & Ox & _).
  destruct (wf_used _ _ _ Hw _ _ Ox) as [Ux Bx].
  unfold drop_table. destruct (checkAndRemove_ok m f i Hlf Hi') as (m1 & -> & Es & HL & HE). cbn [mbind res_bind].
  destruct (free_ent m1 x) as (m2 & -> & F1 & F2 & F3 & F4 & F5 & F6);
    [rewrite Es; apply (wf_src _ _ _ Hw)|by rewrite Es|unfold total; rewrite Es; exact Bx|].
  cbn [mbind res_bind]. rewrite Es in F6.
  assert (∀ h q j, own !! h = Some q → h ≠ x → 0 <= j < 512 →
     ent m2 h j = if decide (h = f ∧ j = i) then 0 else ent m h j) as HE2.
  { intros h q j Hq Hh Hj. rewrite (ent_words m1 m2 h j) by by apply F5. apply HE; lia. }
  assert (wf (delete x own) m2 root) as Hw2.
  { apply (wf_remove own m m2 root f p i x); try done; try lia.
    - unfold total. rewrite <- Es. exact F2.
    - intros q. rewrite <- Es. apply F3.
    - intros q. rewrite <- Es. apply F4.
    - intros h q Hq Hh. split; [rewrite F5 by done; apply HL|]. intros j Hj. by apply (HE2 h q). }
  exists m2. split_and!; try done. intros v Hv. apply (translate_ext own (delete x own)); try done.
  - intros t q j Hq Hj [Ho Hpj]. assert (t ≠ x) as Htx by (intros ->; by rewrite Hempty in Hpj).
    rewrite lookup_delete_ne by done. split; [done|]. rewrite (HE2 t q) by done.
    rewrite decide_False; [done|]. intros [-> _]. rewrite Hf in Ho. injection Ho as ->. lia.
  - intros t q j Hq Hj [[Htx%not_eq_sym Ho]%lookup_delete_Some _]. split; [done|]. rewrite (HE2 t q) by done.
    rewrite decide_False; [done|]. intros [-> _]. rewrite Hf in Ho. injection Ho as ->. lia.
Qed.

(** The part of [unmapPage] in the page table. *)
Lemma unmap_leaf_ok own m root t i4 i3 i2 i1 : wf own m root → own !! t = Some [i4; i3; i2] → 0 <= i1 < 512 →
  present (ent m t i1) = true →
  let x := page_ppn (ent m t i1) in
  (∀ h q j, own !! h = Some q → length q = 3%nat → 0 <= j < 512 →
     present (ent m h j) = true → page_ppn (ent m h j) = x → h = t ∧ j = i1) →
  match (m ← put m t i1 (set_present 0 (ent m t i1)); m ← freePPN m x; m ← put m t i1 0;
         checkAndRemove m t i1) with
  | Err _ => False
  | Val (m', b) => wf own m' root ∧ b = sole m t i1 ∧ releases (source m) [x] = Val (source m') ∧
      (∀ h q j, own !! h = Some q → 0 <= j < 512 →
         ent m' h j = if decide (h = t ∧ j = i1) then 0 else ent m h j)
  end.
Proof.
  intros Hw Ht Hi Hp x Huniq. destruct (wf_len _ _ _ Hw _ _ Ht) as [Hl _].
  destruct (wf_leaf _ _ _ Hw t _ i1 Ht eq_refl Hi Hp) as (Ux & Bx & Hx). fold x in Ux, Bx, Hx.
  destruct (put_ent m t i1 (set_present 0 (ent m t i1)) Hl Hi) as (m1 & -> & Es1 & L1 & E1). cbn [mbind res_bind].
  destruct (free_ent m1 x) as (m2 & -> & F1 & F2 & F3 & F4 & F5 & F6);
    [rewrite Es1; apply (wf_src _ _ _ Hw)|by rewrite Es1|unfold total; rewrite Es1; exact Bx|].
  cbn [mbind res_bind].
  assert (∀ h q, own !! h = Some q → h ≠ x) as Hne0 by congruence.
  assert (length (words_of m2 t) = 512%nat) as Hl2 by (rewrite F5 by (by eapply Hne0); by rewrite L1).
  destruct (put_ent m2 t i1 0 Hl2 Hi) as (m3 & -> & Es3 & L3 & E3). cbn [mbind res_bind].
  assert (length (words_of m3 t) = 512%nat) as Hl3 by by rewrite L3.
  destruct (checkAndRemove_ok m3 t i1 Hl3 Hi) as (m4 & -> & Es4 & L4 & E4).
  assert (∀ h q j, own !! h = Some q → 0 <= j < 512 →
     ent m4 h j = if decide (h = t ∧ j = i1) then 0 else ent m h j) as HE.
  { intros h q j Hq Hj. rewrite E4 by lia. case_decide; [done|]. rewrite E3 by lia.
    rewrite decide_False by done. rewrite (ent_words m1 m2 h j) by (apply F5; by eapply Hne0).
    rewrite E1 by lia. by rewrite decide_False. }
  assert (source m4 = source m2) as Es by congruence.
  split; [|split; [|split; [|done]]].
  - replace own with (delete x own) by (by apply delete_id).
    apply (wf_remove own m m4 root t [i4; i3; i2] i1 x); try done.
    + cbn [length]. lia.
    + by rewrite Es.
    + unfold total. rewrite Es, <- Es1. exact F2.
    + intros q. rewrite Es, <- Es1. apply F3.
    + intros q. rewrite Es, <- Es1. apply F4.
    + intros h q Hq Hh. split; [rewrite L4, L3, F5 by done; apply L1|]. intros j Hj. by apply (HE h q).
  - apply sole_ext. intros j Hj Hne. rewrite E3, decide_False by (lia || naive_solver).
    rewrite (ent_words m1 m2 t j) by (apply F5; by eapply Hne0). by rewrite E1, decide_False by (lia || naive_solver).
  - by rewrite Es, <- Es1.
Qed.

(** One of the three blocks: the table [x] is given back if it is empty. *)
Lemma drop_ok own m root f p i x (b : bool) : wf own m root → own !! f = Some p → (length p < 3)%nat → 0 <= i < lim p →
  child m f i = Some x → (b = true → ∀ j, 0 <= j < 512 → present (ent m x j) = false) →
  ∃ m', drop_table m b f i x = Val (m', b && sole m f i) ∧ wf (if b then delete x own else own) m' root ∧
      releases (source m) (if b then [x] else []) = Val (source m') ∧
      (∀ h q j, own !! h = Some q → h ≠ x → 0 <= j < 512 →
         ent m' h j = if decide (b = true ∧ h = f ∧ j = i) then 0 else ent m h j) ∧
      (∀ v, 0 <= v < 2 ^ 35 → translate m' root v = translate m root v).
Proof.
  intros Hw Hf Hl Hi Hc Hb. destruct b.
  - destruct (remove_ok own m root f p i x Hw Hf Hl Hi Hc (Hb eq_refl)) as (m' & R1 & R2 & R3 & R4 & R5).
    exists m'. split; [done|]. split; [done|]. split; [done|]. split; [|done]. intros h q j Hq Hh Hj. rewrite (R4 h q j Hq Hh Hj).
    by destruct (decide (h = f ∧ j = i)); [rewrite decide_True|rewrite decide_False by naive_solver].
  - exists m. split; [done|]. split; [done|]. split; [done|]. split; [|done]. intros. by rewrite decide_False by naive_solver.
Qed.

(** After a block its table [f] is empty if the block says so. *)
Lemma dropped_empty (own : gmap Z (list Z)) m m' f p i x (b : bool) : own !! f = Some p → f ≠ x →
  (∀ h q j, own !! h = Some q → h ≠ x → 0 <= j < 512 →
     ent m' h j = if decide (b = true ∧ h = f ∧ j = i) then 0 else ent m h j) →
  b && sole m f i = true → ∀ j, 0 <= j < 512 → present (ent m' f j) = false.
Proof.
  intros Hf Hx HE [-> Hs]%andb_true_iff j Hj. rewrite (HE f p j Hf Hx Hj). destruct (decide (true = true ∧ f = f ∧ j = i)) as [E|E]; [by apply present_0|].
  apply (proj1 (sole_true m f i) Hs j Hj). naive_solver.
Qed.



(** A new address space is empty. *)
Lemma new_space_ok m kernel m' root : ps_ok (source m) → length (words_of m kernel) = 512%nat →
  (∀ s p, ps_alloc (source m) = Val (s, p) → p ≠ kernel) →
  new m kernel = Val (m', root) →
  wf {[root := []]} m' root ∧ (∀ v, 0 <= v < 2 ^ 35 → translate m' root v = None) ∧
  (∀ h, ps_used (source m) h → ps_used (source m') h ∧ h ≠ root) ∧ total m' = total m.
Proof.
  intros Hok Hk Hne E. unfold new, allocPPN in E.
  destruct (ps_alloc (source m)) as [[s p]|] eqn:Ea; [|done]. cbn [mbind res_bind] in E. injection E as <- <-.
  destruct (ps_alloc_ok _ _ _ Hok Ea) as (O1 & O2 & O3 & O4 & O5). cbn [source].
  set (m' := mkMem _ s).
  assert (words_of m' p = replicate 256 0 ++ drop 256 (words_of m kernel)) as Hw.
  { unfold m', words_of at 1. cbn [words]. rewrite lookup_insert_eq. cbn [default]. unfold id. f_equal. f_equal.
    unfold words_of at 1, copy_frame. cbn [words]. rewrite lookup_insert_eq. cbn [default]. unfold id.
    unfold words_of, zero_frame. cbn [words]. by rewrite lookup_insert_ne by (by eapply Hne). }
  assert (∀ j, 0 <= j < 256 → ent m' p j = 0) as He.
  { intros j Hj. unfold ent. rewrite Hw, lookup_app_l by (rewrite length_replicate; lia).
    by rewrite lookup_replicate_2 by lia. }
  assert (∀ h q, ({[p := []]} : gmap Z (list Z)) !! h = Some q → h = p ∧ q = []) as Ho.
  { intros h q Hh. apply lookup_singleton_Some in Hh as [<- <-]. done. }
  assert (wf {[p := []]} m' p) as Hwf.
  { split.
    - by rewrite lookup_singleton_eq.
    - intros h [-> _]%Ho. done.
    - intros h q [-> ->]%Ho. rewrite Hw, length_app, length_replicate, length_drop, Hk. split; [done|cbn; lia].
    - intros h q [-> ->]%Ho. split; [apply O5; by right|]. unfold total, m'. cbn [source]. by rewrite O2.
    - intros h q i [_ Hq]%Ho. by destruct q.
    - intros h q i [-> ->]%Ho _ Hi Hp. by rewrite He in Hp.
    - intros h q i [_ ->]%Ho Hl. done.
    - intros h q i [-> ->]%Ho Hi _. by apply He.
    - done. }
  split; [done|]. split; [|split; [|done]].
  - intros v Hv. apply eq_None_not_Some. intros [e Ht].
    pose proof (translate_own _ m' p v e Hwf Hv) as T. destruct (indices v) as [[[i4 i3] i2] i1].
    apply T in Ht. destruct Ht as (t & Ht & _). by apply Ho in Ht as [_ ?].
  - intros h Hh. split; [apply O5; by left|]. by intros ->.
Qed.

Lemma mapPage_ok own m root v phys ua : wf own m root → 0 <= v < 2 ^ 35 →
  ps_used (source m) phys → 0 < phys < total m → own !! phys = None → 0 <= ua < 2 →
  match mapPage m root v phys ua with
  | Err e => nearly_full 2 m
  | Val (m', b) => b = bool_decide (translate m root v = None) ∧ (b = false → m' = m) ∧
      ∃ own', wf own' m' root ∧ ∀ v', 0 <= v' < 2 ^ 35 →
        translate m' root v' = if decide (v' = v ∧ b = true) then Some (entry phys 0 ua 1)
                               else translate m root v'
  end.
Proof.
  intros Hw Hv Hu Hp Hn Hua. pose proof (resolve_ok own m root v Hw Hv) as Hr.
  pose proof (tables_ok own m root v Hw Hv) as Ht. pose proof (indices_range v Hv) as Hi.
  pose proof (translate_own own m root v) as Htr. pose proof (ps_total_ok _ (wf_src _ _ _ Hw)) as Htot.
  unfold mapPage. destruct (indices v) as [[[i4 i3] i2] i1] eqn:Ei. cbv zeta in *.
  destruct Hi as (H4 & H3 & H2 & H1 & _). rewrite Hr. cbn [mbind res_bind m_page_size m_pdpt_ppn m_pd_ppn m_pt_ppn m_pml4 m_pml4i m_pdpti m_pdi m_pti m_page_ppn].
  set (t3 := child m root i4) in *. set (t2 := t3 ≫= λ t, child m t i3) in *.
  set (t1 := t2 ≫= λ t, child m t i2) in *. set (pg := t1 ≫= λ t, child m t i1) in *.
  assert ((match pg with Some _ => PAGE_SIZE | None => 0 end =? 0) ||
          (match pg with Some _ => PAGE_SIZE | None => 0 end =? PAGE_SIZE) = true) as -> by by destruct pg.
  cbn [kassert mbind res_bind]. fold t3 t2 t1 pg.
  destruct (next_table m (default 0 t3) root i4) as [[m1 pdpt]|e]; cbn [mbind res_bind] in Ht |- *; [|done].
  destruct (next_table m1 (default 0 t2) pdpt i3) as [[m2 pd]|e]; cbn [mbind res_bind] in Ht |- *; [|done].
  destruct (next_table m2 (default 0 t1) pd i2) as [[m3 pt]|e]; cbn [mbind res_bind] in Ht |- *; [|done].
  destruct Ht as (own3 & W3 & O3 & C3 & N3 & U3 & T3 & Tr3 & S3).
  assert (translate m root v = None ↔ pg = None) as Hpg.
  { unfold translate. rewrite Ei. unfold pg, t1, t2, t3.
    destruct (child m root i4) as [g3|]; cbn [mbind option_bind]; [|done].
    destruct (child m g3 i3) as [g2|]; cbn [mbind option_bind]; [|done].
    destruct (child m g2 i2) as [g1|]; cbn [mbind option_bind]; [|done].
    unfold child. by destruct (present (ent m g1 i1)). }
  destruct pg as [g|] eqn:Eg; cbn [default].
  - assert (is_Some t1) as Hs by (unfold pg in Eg; destruct t1; [by eexists|discriminate Eg]).
    assert (0 < g) as Hg.
    { rewrite <- C3 in *. unfold child in C3. destruct (present (ent m3 pt i1)) eqn:P; [|done].
      injection C3 as <-. by destruct (wf_leaf _ _ _ W3 pt _ i1 O3 eq_refl H1 P) as (_ & [? _] & _). }
    unfold id. rewrite (proj2 (Z.eqb_neq _ _)) by lia.
    rewrite bool_decide_eq_false_2 by (intros E; by apply Hpg in E). split; [done|].
    split; [intros _; by apply S3|]. exists own3. split; [done|]. intros v' Hv'.
    rewrite decide_False by (by intros [_ ?]). by apply Tr3.
  - cbn [Z.eqb]. destruct (wf_len _ _ _ W3 _ _ O3) as [Hl3 _]. destruct (wf_used _ _ _ W3 _ _ O3) as [_ B3].
    pose proof (ps_total_ok _ (wf_src _ _ _ W3)) as Htot3. fold (total m3) in Htot3. fold (total m) in Htot.
    unfold insert. rewrite ptr_ok_true by lia. cbn [kassert mbind res_bind Z.eqb negb].
    assert (ent m3 pt i1 = 0) as Hz.
    { apply (wf_zero _ _ _ W3 pt _ i1 O3 H1). unfold child in C3. by destruct (present (ent m3 pt i1)). }
    rewrite (get_ent m3 pt i1 Hl3 H1), Hz. cbn [mbind res_bind]. fold (entry phys 0 ua 1).
    destruct (put_ent m3 pt i1 (entry phys 0 ua 1) Hl3 H1) as (m4 & Ep & _). rewrite Ep. cbn [mbind res_bind].
    destruct (entry_ok phys 0 ua 1) as (P & _ & Q & _); [lia..|].
    rewrite bool_decide_eq_true_2 by by apply Hpg. split; [done|]. split; [done|].
    destruct (leaf_ok own3 m3 root pt [i4; i3; i2] i1 (entry phys 0 ua 1) (source m4) m4 W3 O3 eq_refl H1 Ep eq_refl)
      as (W4 & _ & E4).
    { intros _. rewrite Q. destruct (put_ent m3 pt i1 (entry phys 0 ua 1) Hl3 H1) as (m4' & Ep' & Es & _).
      rewrite Ep in Ep'. injection Ep' as <-. rewrite Es, T3. split; [by apply U3|]. split; [done|by apply N3]. }
    { congruence. }
    exists own3. split; [done|]. intros v' Hv'.
    rewrite (translate_leaf own3 m3 m4 root pt i4 i3 i2 i1 _ W3 W4 O3 H1 (λ h _ j _, E4 h j) v' Hv'), P, Tr3 by done.
    rewrite <- Ei. destruct (decide (v' = v)) as [->|Hne].
    + rewrite !decide_True by done. done.
    + rewrite !decide_False; [done|by intros [? _]|]. intros E. apply Hne. by apply indices_inj.
Qed.

(** C2: [mapPage] is the insertion into the page table seen as a finite map.
    When it succeeds the result tells whether the page was unmapped; then the
    page, and only it, becomes mapped to the frame, writable, with the access
    asked for, and otherwise nothing changes.  It fails only when at most two
    frames are free (three may be needed for the tables). *)
Theorem mapPage_maps own m root v phys ua : wf own m root → 0 <= v < 2 ^ 35 →
  ps_used (source m) phys → 0 < phys < total m → own !! phys = None → 0 <= ua < 2 →
  match mapPage m root v phys ua with
  | Err e => nearly_full 2 m
  | Val (m', b) => b = bool_decide (translate m root v = None) ∧ (b = false → m' = m) ∧
      ∃ own', wf own' m' root ∧ ∀ v', 0 <= v' < 2 ^ 35 →
        translate m' root v' = if decide (v' = v ∧ b = true) then Some (entry phys 0 ua 1)
                               else translate m root v'
  end.
Proof. exact (mapPage_ok own m root v phys ua). Qed.

(** The tables on the way to a page, the page table first, with the indices of
    the entries that the way takes. *)
Definition way m (root v : Z) : list (Z * Z) :=
  let '(i4, i3, i2, i1) := indices v in
  match t3 ← child m root i4; t2 ← child m t3 i3; t1 ← child m t2 i2; Some [(t1, i1); (t2, i2); (t3, i3)] with
  | Some l => l
  | None => []
  end.

(** The tables that are empty without the page: the page table if it has no other
    entry, and then the table above, and so on. *)
Fixpoint emptied m (l : list (Z * Z)) : list Z :=
  match l with
  | [] => []
  | (t, i) :: l => if sole m t i then t :: emptied m l else []
  end.

(** On a mapped page: the way, with the positions of its tables. *)
Lemma mapped_way own m root v e : wf own m root → 0 <= v < 2 ^ 35 → translate m root v = Some e →
  ∃ i4 i3 i2 i1 t3 t2 t1, indices v = (i4, i3, i2, i1) ∧ way m root v = [(t1, i1); (t2, i2); (t3, i3)] ∧
    child m root i4 = Some t3 ∧ child m t3 i3 = Some t2 ∧ child m t2 i2 = Some t1 ∧
    own !! t3 = Some [i4] ∧ own !! t2 = Some [i4; i3] ∧ own !! t1 = Some [i4; i3; i2] ∧
    present (ent m t1 i1) = true ∧ e = ent m t1 i1.
Proof.
  intros Hw Hv Ht. pose proof (indices_range v Hv) as Hi. unfold translate in Ht. unfold way.
  destruct (indices v) as [[[i4 i3] i2] i1]. destruct Hi as (H4 & H3 & H2 & H1 & _).
  destruct (child m root i4) as [t3|] eqn:C4; [|done]. cbn [mbind option_bind] in *.
  destruct (child_facts own m root root [] i4 t3 Hw (wf_root _ _ _ Hw)) as (_ & _ & _ & O3 & _); [cbn; lia|done|done|].
  destruct (child m t3 i3) as [t2|] eqn:C3; [|done]. cbn [mbind option_bind] in *.
  destruct (child_facts own m root t3 [i4] i3 t2 Hw O3) as (_ & _ & _ & O2 & _); [cbn; lia|done|done|].
  destruct (child m t2 i2) as [t1|] eqn:C2; [|done]. cbn [mbind option_bind] in *.
  destruct (child_facts own m root t2 [i4; i3] i2 t1 Hw O2) as (_ & _ & _ & O1 & _); [cbn; lia|done|done|].
  destruct (present (ent m t1 i1)) eqn:P1; [|done]. injection Ht as <-.
  exists i4, i3, i2, i1, t3, t2, t1. by split_and!.
Qed.

(** The three blocks that follow the page table's, from a state in which only the
    page's entry changed. *)
Lemma drops_ok own m m1 root v e : wf own m root → 0 <= v < 2 ^ 35 → translate m root v = Some e →
  ∀ i4 i3 i2 i1 t3 t2 t1, indices v = (i4, i3, i2, i1) → way m root v = [(t1, i1); (t2, i2); (t3, i3)] →
  wf own m1 root → (∀ h q j, own !! h = Some q → 0 <= j < 512 →
    ent m1 h j = if decide (h = t1 ∧ j = i1) then 0 else ent m h j) →
  let gone := emptied m (way m root v) in
  match ('(m, empty) ← drop_table m1 (sole m t1 i1) t2 i2 t1; '(m, empty) ← drop_table m empty t3 i3 t2;
         drop_table m empty root i4 t3) with
  | Err _ => False
  | Val (m', _) => wf (foldl (λ o x, delete x o) own gone) m' root ∧ releases (source m1) gone = Val (source m') ∧
      ∀ v, 0 <= v < 2 ^ 35 → translate m' root v = translate m1 root v
  end.
Proof.
  intros Hw Hv Ht i4 i3 i2 i1 t3 t2 t1 Ei Eway W1 E1.
  destruct (mapped_way own m root v e Hw Hv Ht) as (j4 & j3 & j2 & j1 & s3 & s2 & s1 & Ej & Ew & C4 & C3 & C2 & O3 & O2 & O1 & P1 & _).
  rewrite Ei in Ej. injection Ej as <- <- <- <-. rewrite Eway in Ew. injection Ew as <- <- <-.
  pose proof (indices_range v Hv) as Hi. rewrite Ei in Hi. destruct Hi as (H4 & H3 & H2 & H1 & _).
  pose proof (wf_root _ _ _ Hw) as O4. cbv zeta. rewrite Eway. cbn [emptied].
  assert (t2 ≠ t1 ∧ t3 ≠ t1 ∧ root ≠ t1 ∧ t3 ≠ t2 ∧ root ≠ t2 ∧ root ≠ t3) as (N21 & N31 & N41 & N32 & N42 & N43)
    by (split_and!; congruence).
  assert (child m1 t2 i2 = Some t1 ∧ child m1 t3 i3 = Some t2 ∧ child m1 root i4 = Some t3) as (D2 & D3 & D4).
  { unfold child in *. rewrite (E1 t2 _ i2 O2), (E1 t3 _ i3 O3), (E1 root _ i4 O4) by lia.
    by rewrite !decide_False by naive_solver. }
  assert (S2 : sole m1 t2 i2 = sole m t2 i2)
    by (apply sole_ext; intros j Hj _; rewrite (E1 t2 _ j O2 Hj), decide_False by naive_solver; done).
  assert (S3 : sole m1 t3 i3 = sole m t3 i3)
    by (apply sole_ext; intros j Hj _; rewrite (E1 t3 _ j O3 Hj), decide_False by naive_solver; done).
  set (b1 := sole m t1 i1) in *.
  destruct (drop_ok own m1 root t2 [i4; i3] i2 t1 b1 W1 O2) as (m2 & -> & W2 & R2 & E2 & T2); [cbn; lia|cbn; lia|done| |].
  { intros Hb j Hj. rewrite (E1 t1 _ j O1 Hj). case_decide as E; [done|]. apply (proj1 (sole_true m t1 i1) Hb j Hj). naive_solver. }
  cbn [mbind res_bind]. rewrite S2. set (b2 := b1 && sole m t2 i2) in *. set (own2 := if b1 then delete t1 own else own) in *.
  assert (X2 : ∀ h q, own !! h = Some q → h ≠ t1 → own2 !! h = Some q).
  { intros h q Hq Hh. unfold own2. destruct b1; [by rewrite lookup_delete_ne by congruence|done]. }
  destruct (drop_ok own2 m2 root t3 [i4] i3 t2 b2 W2 (X2 _ _ O3 N31)) as (m3 & -> & W3 & R3 & E3 & T3); [cbn; lia|cbn; lia| | |].
  { unfold child. rewrite (E2 t3 _ i3 O3 N31 H3), decide_False by naive_solver. exact D3. }
  { unfold b2. rewrite <- S2. apply (dropped_empty own m1 m2 t2 [i4; i3] i2 t1); [done|done|exact E2]. }
  cbn [mbind res_bind].
  assert (S3' : sole m2 t3 i3 = sole m t3 i3).
  { rewrite <- S3. apply sole_ext. intros j Hj _. by rewrite (E2 t3 _ j O3 N31 Hj), decide_False by naive_solver. }
  rewrite S3'. set (b3 := b2 && sole m t3 i3) in *. set (own3 := if b2 then delete t2 own2 else own2) in *.
  destruct (drop_ok own3 m3 root root [] i4 t3 b3 W3 (wf_root _ _ _ W3)) as (m4 & -> & W4 & R4 & E4 & T4); [cbn; lia|cbn; lia| | |].
  { unfold child. rewrite (E3 root _ i4 (X2 _ _ O4 N41) N42), decide_False by (lia || naive_solver).
    rewrite (E2 root _ i4 O4 N41), decide_False by (lia || naive_solver). exact D4. }
  { unfold b3. rewrite <- S3'. apply (dropped_empty own2 m2 m3 t3 [i4] i3 t2); [by apply X2|done|exact E3]. }
  split; [|split].
  - unfold own3, own2, b3, b2 in W4. destruct b1, (sole m t2 i2), (sole m t3 i3); cbn [andb foldl] in *; done.
  - unfold b3, b2 in R3, R4. destruct b1; cbn [andb] in *;
      [|cbn [releases] in *; congruence].
    rewrite (releases_cons _ _ _ _ R2). destruct (sole m t2 i2); cbn [andb] in *;
      [|cbn [releases] in *; congruence].
    rewrite (releases_cons _ _ _ _ R3). by destruct (sole m t3 i3).
  - intros w Hv'. by rewrite T4, T3, T2.
Qed.

(** The lookup on a mapped page, and what is left of [unmapPage]. *)
Lemma unmapPage_mapped own m root v i4 i3 i2 i1 t3 t2 t1 : wf own m root → 0 <= v < 2 ^ 35 →
  indices v = (i4, i3, i2, i1) → child m root i4 = Some t3 → child m t3 i3 = Some t2 → child m t2 i2 = Some t1 →
  own !! t1 = Some [i4; i3; i2] → present (ent m t1 i1) = true →
  unmapPage m root v =
    '(m1, empty) ← (ma ← put m t1 i1 (set_present 0 (ent m t1 i1)); mb ← freePPN ma (page_ppn (ent m t1 i1));
                    mc ← put mb t1 i1 0; checkAndRemove mc t1 i1);
    '(m', _) ← ('(m, empty) ← drop_table m1 empty t2 i2 t1; '(m, empty) ← drop_table m empty t3 i3 t2;
                drop_table m empty root i4 t3);
    Val (m', true).
Proof.
  intros Hw Hv Ei C4 C3 C2 O1 P1. pose proof (indices_range v Hv) as Hi. rewrite Ei in Hi. destruct Hi as (_ & _ & _ & H1 & _).
  pose proof (resolve_ok own m root v Hw Hv) as Hr. rewrite Ei in Hr. cbv zeta in Hr. unfold unmapPage. rewrite Hr.
  cbn [mbind res_bind m_pt m_pti m_page_ppn m_page_size m_pt_ppn m_pd_ppn m_pdi m_pdpt_ppn m_pdpti m_pml4_ppn m_pml4i].
  rewrite C4. cbn [mbind option_bind default]. unfold id. rewrite C3. cbn [mbind option_bind default]. rewrite C2.
  cbn [mbind option_bind default res_bind]. destruct (wf_len _ _ _ Hw _ _ O1) as [L1 _].
  rewrite (get_ent m t1 i1 L1 H1).
  assert (child m t1 i1 = Some (page_ppn (ent m t1 i1))) as -> by (unfold child; by rewrite P1). cbn [default mbind res_bind].
  destruct (wf_leaf _ _ _ Hw t1 _ i1 O1 eq_refl H1 P1) as (_ & B1 & _).
  unfold id. rewrite (proj2 (Z.eqb_neq _ _)) by lia. rewrite Z.eqb_refl. cbn [negb andb kassert mbind res_bind].
  rewrite P1. cbn [kassert mbind res_bind]. destruct (put m t1 i1 _) as [ma|]; cbn [mbind res_bind]; [|done].
  destruct (freePPN ma _) as [mb|]; cbn [mbind res_bind]; [|done].
  destruct (put mb t1 i1 0) as [mc|]; cbn [mbind res_bind]; [|done].
  destruct (checkAndRemove mc t1 i1) as [[m1 b1]|]; cbn [mbind res_bind]; [|done].
  destruct (drop_table m1 b1 t2 i2 t1) as [[m2 b2]|]; cbn [mbind res_bind]; [|done].
  by destruct (drop_table m2 b2 t3 i3 t2) as [[m3 b3]|].
Qed.

Lemma unmapPage_unmapped own m root v : wf own m root → 0 <= v < 2 ^ 35 → translate m root v = None →
  unmapPage m root v = Err EAssert.
Proof.
  intros Hw Hv Ht. pose proof (indices_range v Hv) as Hi. pose proof (resolve_ok own m root v Hw Hv) as Hr.
  unfold unmapPage. unfold translate in Ht. destruct (indices v) as [[[i4 i3] i2] i1] eqn:Ei. cbv zeta in Hr.
  destruct Hi as (H4 & H3 & H2 & H1 & _). rewrite Hr. pose proof (wf_root _ _ _ Hw) as O4.
  cbn [mbind res_bind m_pt m_pti m_page_ppn m_page_size].
  destruct (child m root i4) as [t3|] eqn:C4; cbn [mbind option_bind] in *; [|done].
  destruct (child_facts own m root root [] i4 t3 Hw O4) as (_ & _ & _ & O3 & _); [cbn; lia|done|done|].
  destruct (child m t3 i3) as [t2|] eqn:C3; cbn [mbind option_bind] in *; [|done].
  destruct (child_facts own m root t3 [i4] i3 t2 Hw O3) as (_ & _ & _ & O2 & _); [cbn; lia|done|done|].
  destruct (child m t2 i2) as [t1|] eqn:C2; cbn [mbind option_bind] in *; [|done].
  destruct (child_facts own m root t2 [i4; i3] i2 t1 Hw O2) as (_ & _ & _ & O1 & _ & L1); [cbn; lia|done|done|].
  cbn [mbind res_bind]. rewrite (get_ent m t1 i1 L1 H1). cbn [mbind res_bind]. unfold child.
  by destruct (present (ent m t1 i1)).
Qed.

(** If only [v] is mapped to its frame, only one entry has the frame. *)
Lemma only_page own m root v e i4 i3 i2 i1 t1 : wf own m root → 0 <= v < 2 ^ 35 → translate m root v = Some e →
  indices v = (i4, i3, i2, i1) → own !! t1 = Some [i4; i3; i2] →
  (∀ v' e1 e', 0 <= v' < 2 ^ 35 → Some e = Some e1 → translate m root v' = Some e' → page_ppn e' = page_ppn e1 → v' = v) →
  ∀ h q j, own !! h = Some q → length q = 3%nat → 0 <= j < 512 →
    present (ent m h j) = true → page_ppn (ent m h j) = page_ppn e → h = t1 ∧ j = i1.
Proof.
  intros Hw Hv Ht Ei O1 Huniq h q j Hq Hlq Hj Hpj Hx. destruct q as [|j4 [|j3 [|j2 [|]]]]; try done.
  destruct (own_range own m root h j4 j3 j2 Hw Hq) as (J4 & J3 & J2).
  set (v' := ((j4 * 512 + j3) * 512 + j2) * 512 + j).
  destruct (indices_of j4 j3 j2 j J4 J3 J2 Hj) as [Rv' Iv']. fold v' in Rv', Iv'.
  assert (translate m root v' = Some (ent m h j)) as Ht'.
  { pose proof (translate_own own m root v' (ent m h j) Hw Rv') as T. rewrite Iv' in T. apply T. by exists h. }
  rewrite (Huniq v' _ _ Rv' eq_refl Ht' Hx), Ei in Iv'. injection Iv' as <- <- <- <-.
  split; [|done]. by apply (own_inj own m root Hw h t1 _ Hq O1).
Qed.

(** C3: [unmapPage] is the deletion.  On a page whose frame no other page maps it
    unmaps exactly this page.  It gives back the page's frame and, in this order,
    the page table if the page was its only entry, the page directory if that was
    its only table, and the page directory pointer table if that was its only
    directory, and nothing else; these are no longer tables of the address space,
    and all others are.  On an unmapped page it fails its assertion. *)
Theorem unmapPage_unmaps own m root v : wf own m root → 0 <= v < 2 ^ 35 →
  (∀ v' e e', 0 <= v' < 2 ^ 35 → translate m root v = Some e → translate m root v' = Some e' →
     page_ppn e' = page_ppn e → v' = v) →
  match unmapPage m root v with
  | Err e => translate m root v = None ∧ e = EAssert
  | Val (m', b) => b = true ∧ ∃ e, translate m root v = Some e ∧
      let gone := emptied m (way m root v) in
      releases (source m) (page_ppn e :: gone) = Val (source m') ∧
      wf (foldl (λ o x, delete x o) own gone) m' root ∧
      ∀ v', 0 <= v' < 2 ^ 35 →
        translate m' root v' = if decide (v' = v) then None else translate m root v'
  end.
Proof.
  intros Hw Hv Huniq. destruct (translate m root v) as [e|] eqn:Ht; [|by rewrite (unmapPage_unmapped own)].
  destruct (mapped_way own m root v e Hw Hv Ht) as (i4 & i3 & i2 & i1 & t3 & t2 & t1 & Ei & Eway & C4 & C3 & C2 & O3 & O2 & O1 & P1 & ->).
  pose proof (indices_range v Hv) as Hi. rewrite Ei in Hi. destruct Hi as (H4 & H3 & H2 & H1 & _).
  rewrite (unmapPage_mapped own m root v i4 i3 i2 i1 t3 t2 t1) by done.
  pose proof (unmap_leaf_ok own m root t1 i4 i3 i2 i1 Hw O1 H1 P1 (only_page own m root v _ i4 i3 i2 i1 t1 Hw Hv Ht Ei O1 Huniq)) as Hs.
  destruct (_ ← put m t1 i1 _; _) as [[m1 b1]|]; [|done]. destruct Hs as (W1 & -> & R1 & E1). cbn [mbind res_bind].
  pose proof (drops_ok own m m1 root v _ Hw Hv Ht i4 i3 i2 i1 t3 t2 t1 Ei Eway W1 E1) as Hd. cbv zeta in Hd.
  destruct ('(_, _) ← drop_table m1 _ _ _ _; _) as [[m' b']|]; [|done]. destruct Hd as (W & R & T). cbn [mbind res_bind].
  split; [done|]. eexists. split; [done|]. cbv zeta. split; [by rewrite (releases_cons _ _ _ _ R1)|]. split; [done|].
  intros v' Hv'. rewrite T by done. rewrite (translate_leaf own m m1 root t1 i4 i3 i2 i1 0 Hw W1 O1 H1 E1) by done.
  rewrite present_0, <- Ei. destruct (decide (v' = v)) as [->|Hne]; [by rewrite decide_True|].
  rewrite decide_False; [done|]. intros E. apply Hne. by apply indices_inj.
Qed.

End wf.

(** ** The page manager as the source *)

Section pm.
Context {B : Type} `{BitStoreLaws B}.

#[global] Instance pm_source : PageSource (PageManager.PageManager B) := {|
  ps_alloc st := PageManager.allocPPN st PAGE_SIZE;
  ps_free st p := st' ← PageManager.freePPN false st p PAGE_SIZE; Val (st', true);
  ps_total := PageManager.number_of_pages_;
  ps_used st p := 0 <= p < PageManager.number_of_pages_ st ∧ bs_test (PageManager.page_usage_table_ st) p = true;
  ps_ok st := PageManager.pm_ok st ∧ PageManager.frames_clean st ∧ PageManager.number_of_pages_ st <= 2 ^ 28;
|}.

Lemma one_page : PageManager.pages PAGE_SIZE 1.
Proof. split; [done|lia]. Qed.

#[global] Instance pm_source_laws : PageSourceLaws (PageManager.PageManager B).
Proof.
  split.
  - intros st st' p (Hk & Hc & Hn) E. cbn in *.
    destruct (PageManager.allocPPN_ok st PAGE_SIZE 1 Hk Hc one_page)
      as [(q & st1 & E1 & (Q1 & Q2 & _) & (_ & _ & R) & _ & _ & N & K & F)|[_ E1]]; [|congruence].
    rewrite E in E1. injection E1 as -> ->. destruct Q2 as [_ [Q4 Q5]].
    rewrite N. split; [done|]. split; [done|]. split; [lia|].
    split; [intros [_ Hu]; rewrite (Q5 q) in Hu; [done|lia]|].
    intros j. split.
    + intros [Hj Hu]. rewrite R in Hu by lia. case_bool_decide; [right; lia|by left].
    + intros [[Hj Hu]| ->]; (split; [lia|]).
      * rewrite R by lia. by case_bool_decide.
      * rewrite R by lia. by rewrite bool_decide_eq_true_2 by lia.
  - intros st st' p b (Hk & Hc & Hn) [Hp Hu] Hp0 E. cbn [ps_ok ps_free ps_total ps_used pm_source] in *.
    destruct (PageManager.freePPN false st p PAGE_SIZE) as [st1|] eqn:E1; [|done].
    cbn [mbind res_bind] in E. injection E as <- <-.
    destruct (PageManager.freePPN_ok st p PAGE_SIZE 1 Hk one_page) as [(_ & st2 & E2 & (_ & _ & R) & _ & _ & N & K & F)|[_ E2]];
      [done|lia| |congruence].
    rewrite E1 in E2. injection E2 as ->. rewrite N. split; [split_and!; auto|]. split; [done|]. split.
    + intros q [Hq Hqu]. split; [done|]. rewrite R in Hqu by lia. by case_bool_decide.
    + intros q Hne [Hq Hqu]. split; [done|]. rewrite R by lia. case_bool_decide; [lia|done].
  - intros st e q (Hk & Hc & Hn) E Hq. cbn in *. split; [lia|].
    destruct (PageManager.allocPPN_ok st PAGE_SIZE 1 Hk Hc one_page) as [(p & st1 & E1 & _)|[Hno _]]; [congruence|].
    apply not_false_is_true. intros Hf. apply (Hno q); [lia|]. split; [by rewrite Z.mod_1_r|].
    split; [lia|]. intros j Hj. by replace j with q by lia.
  - intros st p (Hk & Hc & Hn) [Hp Hu] Hp0. unfold is_Some_res. cbn [ps_total ps_free pm_source] in *.
    destruct (PageManager.freePPN_ok st p PAGE_SIZE 1 Hk one_page)
      as [(_ & st2 & -> & _)|[(j & Hj & Hf) _]]; [lia|lia|by eexists|].
    replace j with p in Hf by lia. congruence.
  - by intros st (_ & _ & ?).
Qed.
End pm.

(** ** An example: 32 frames, one page mapped *)

Section example.
#[local] Existing Instances Bitmap.bitmap_store Bitmap.bitmap_store_laws.

Definition ex_pm : PageManager.PageManager Bitmap.Bitmap :=
  PageManager.mkPM (Bitmap.mkBitmap 32 1 [1; 0; 0; 0]) 32 1 ∅.

Definition ex_space : res (Mem (PageManager.PageManager Bitmap.Bitmap) * Z * Z) :=
  '(m, page) ← allocPPN (mkMem ∅ ex_pm);
  '(m, root) ← new m 0;
  Val (m, root, page).

Lemma ex_pm_ok : ps_ok ex_pm.
Proof.
  split; [|split; [|cbn; lia]].
  - split; try done.
    + split; try done. cbn. repeat constructor; unfold is_byte; lia.
    + intros p Hp. cbn in Hp. by replace p with 0 by lia.
  - intros p Hp _. done.
Qed.

Lemma ex_space_ok m root page : ex_space = Val (m, root, page) →
  wf {[root := []]} m root ∧ (∀ v, 0 <= v < 2 ^ 35 → translate m root v = None) ∧
  ps_used (source m) page ∧ 0 < page < total m ∧ page ≠ root.
Proof.
  unfold ex_space, allocPPN. cbn [source words].
  destruct (ps_alloc ex_pm) as [[s p]|] eqn:Ea; [|done]. cbn [mbind res_bind].
  destruct (ps_alloc_ok _ _ _ ex_pm_ok Ea) as (O1 & O2 & O3 & O4 & O5).
  set (m0 := zero_frame (mkMem ∅ s) p). intros E.
  apply bind_Val in E as ([m1 r] & En & E). injection E as <- <- <-.
  destruct (new_space_ok m0 0 m1 r) as (W & T & U & Ht); [done| | |exact En|].
  - unfold words_of, m0, zero_frame. cbn [words]. rewrite lookup_insert_ne by lia. done.
  - intros s' q Eq. destruct (ps_alloc_ok _ _ _ O1 Eq) as (_ & _ & ? & _). lia.
  - destruct (U p) as [U1 U2]; [apply O5; by right|]. split_and!; try done; [lia|].
    rewrite Ht. unfold total, m0. cbn [source zero_frame]. lia.
Qed.

(** Frames 3, 4 and 5 are free: enough for the three tables. *)
Lemma ex_space_unused : match ex_space with
  | Val (m, _, _) => forallb (λ q, negb (bs_test (PageManager.page_usage_table_ (source m)) q)) [3; 4; 5] &&
      (total m =? 32)
  | Err _ => false
  end = true.
Proof. vm_compute. reflexivity. Qed.

Lemma ex_space_free m root page : ex_space = Val (m, root, page) → ¬ nearly_full 2 m.
Proof.
  intros E (l & Hl & Hu). pose proof ex_space_unused as F. rewrite E in F.
  apply andb_true_iff in F as [F Ft%Z.eqb_eq]. rewrite forallb_forall in F.
  assert (∀ q, In q [3; 4; 5] → q ∈ l) as Hin.
  { intros q Hq. destruct (Hu q) as [[_ Hq']|]; [rewrite Ft; cbn in Hq; lia| |done].
    specialize (F q Hq). rewrite Hq' in F. discriminate. }
  pose proof (Hin 3 ltac:(cbn; lia)). pose proof (Hin 4 ltac:(cbn; lia)). pose proof (Hin 5 ltac:(cbn; lia)).
  destruct l as [|a [|b [|]]]; cbn in Hl;
    rewrite ?elem_of_cons, ?elem_of_nil in *; lia.
Qed.

Lemma ex_mapped m root page : ex_space = Val (m, root, page) →
  ∃ m' own', mapPage m root 5 page 1 = Val (m', true) ∧ wf own' m' root ∧
    ∀ v', 0 <= v' < 2 ^ 35 → translate m' root v' = if decide (v' = 5) then Some (entry page 0 1 1) else None.
Proof.
  intros E. destruct (ex_space_ok m root page E) as (W & T & U & B & N).
  pose proof (mapPage_ok {[root := []]} m root 5 page 1 W ltac:(lia) U B) as Hs.
  rewrite lookup_singleton_ne in Hs by done. specialize (Hs eq_refl ltac:(lia)).
  destruct (mapPage m root 5 page 1) as [[m' b]|e]; [|by apply ex_space_free in E].
  destruct Hs as (-> & _ & own' & W' & Ht). exists m', own'. rewrite (T 5) in Ht |- * by lia.
  split; [done|]. split; [done|]. intros v' Hv'. rewrite Ht, T by done.
  destruct (decide (v' = 5)); [rewrite decide_True by done|rewrite decide_False by tauto]; done.
Qed.

Lemma mapPage_maps_witness : ∃ m root page, ex_space = Val (m, root, page) ∧
  ∃ m', mapPage m root 5 page 1 = Val (m', true) ∧ translate m' root 5 = Some (entry page 0 1 1) ∧
    translate m' root 6 = None.
Proof.
  destruct ex_space as [[[m root] page]|] eqn:E; [|exfalso; clear -E; vm_compute in E; discriminate].
  exists m, root, page. split; [reflexivity|].
  destruct (ex_space_ok m root page E) as (W & T & U & B & N).
  pose proof (mapPage_maps {[root := []]} m root 5 page 1 W ltac:(lia) U B
    (lookup_singleton_ne root page [] (not_eq_sym N)) ltac:(lia)) as Hs.
  destruct (mapPage m root 5 page 1) as [[m' b]|e]; [|destruct (ex_space_free m root page E Hs)].
  destruct Hs as (-> & _ & own' & _ & Ht). rewrite (T 5) in Ht by lia.
  rewrite (T 5) by lia. exists m'. split; [reflexivity|].
  rewrite !Ht, (T 6) by lia. split; reflexivity.
Defined.

Lemma unmapPage_unmaps_witness : ∃ m root page, ex_space = Val (m, root, page) ∧
  ∃ m1 m2, mapPage m root 5 page 1 = Val (m1, true) ∧ unmapPage m1 root 5 = Val (m2, true) ∧
    translate m2 root 5 = None.
Proof.
  destruct ex_space as [[[m root] page]|] eqn:E; [|exfalso; clear -E; vm_compute in E; discriminate].
  exists m, root, page. split; [reflexivity|].
  destruct (ex_mapped m root page E) as (m1 & own1 & Em & W1 & Ht).
  exists m1. pose proof (unmapPage_unmaps own1 m1 root 5 W1 ltac:(lia)) as Hs.
  destruct (unmapPage m1 root 5) as [[m2 b]|e].
  - destruct Hs as (-> & e & _ & _ & _ & Ht2); [|exists m2; rewrite Ht2 by lia; repeat split; done].
    intros v' e e' Hv' _ He' _. rewrite Ht in He' by done. destruct (decide (v' = 5)); [done|discriminate].
  - exfalso. destruct Hs as [Hn _]; [|rewrite Ht in Hn by lia; discriminate].
    intros v' e1 e' Hv' _ He' _. rewrite Ht in He' by done. destruct (decide (v' = 5)); [done|discriminate].
Defined.
End example.

End ArchMemory.
