(* ===== verification/BootPaging.v ===== *)
(** * The kernel's page tables at boot time

    Models [initialisePaging] of [arch/x86/64/source/init_boottime_pagetables.cpp]:
    the tables of the last GiB, through which the kernel sees its image, its heap
    and the frame buffer.  The addresses the linker chooses are arguments.  The
    second half is what [get_PPN_Of_VPN_In_KernelMapping] and [mapKernelPage] of
    [ArchMemory.cpp] do in such an address space. *)
From S2P Require Import Prelude ArchMemory.

Module Paging.
Import ArchMemory.

(** While booting, the page manager only knows the number of pages. *)
#[export] Instance boot_source : PageSource Z := {|
  ps_alloc _ := Err EUndef;
  ps_free _ _ := Err EUndef;
  ps_total n := n;
  ps_used _ _ := True;
  ps_ok _ := True;
|}.

Definition RESERVED_START : Z := 0xFFFFFFFF80000.
Definition RESERVED_END : Z := 0xFFFFFFFFC0000.

(** ** init_boottime_pagetables.cpp *)

(** The frames of the tables, which lie in the kernel's image one after the
    other: two page directory pointer tables, two page directories, eight page
    tables. *)
Record image : Set := mkImage {
  kernel_page_map_level_4 : Z;
  kernel_page_directory_pointer_table : Z;
  kernel_page_directory : Z;
  kernel_page_table : Z;
  kernel_last_page : Z;
  last_ro_data_page : Z;
  vesa_lfb : option Z;
}.

Section tables.
Context (im : image).
Implicit Types m : Mem Z.

Let pml4 := kernel_page_map_level_4 im.
Let pdpt1 := kernel_page_directory_pointer_table im.
Let pdpt2 := kernel_page_directory_pointer_table im + 1.
Let pd1 := kernel_page_directory im.
Let pd2 := kernel_page_directory im + 1.
Let pt := kernel_page_table im.

(** [t[i].field = v; ...] *)
Definition update m (t i : Z) (g : Z → Z) : res (Mem Z) := e ← get m t i; put m t i (g e).

Definition set_page_ppn_2m (v e : Z) : Z := set_field 21 19 v e.
Definition set_write_through (v e : Z) : Z := set_field 3 1 v e.
Definition set_cache_disabled (v e : Z) : Z := set_field 4 1 v e.

(** An entry for the table in frame [p]; the fields are written one by one. *)
Definition table_entry (p e : Z) : Z := set_present 1 (set_writeable 1 (set_page_ppn p e)).

(** The loop that maps the first GiB and clears the kernel's directory. *)
Fixpoint identity_loop (n : nat) m (i : Z) : res (Mem Z) :=
  match n with
  | O => Val m
  | S n =>
      m ← update m pd2 i (set_present 0);
      m ← update m pd1 i (λ e, set_present 1 (set_writeable 1 (set_size 1 (set_page_ppn_2m i e))));
      identity_loop n m (i + 1)
  end.

Fixpoint directory_loop (n : nat) m (i : Z) : res (Mem Z) :=
  match n with
  | O => Val m
  | S n => m ← update m pd2 i (λ e, set_page_ppn (pt + i) (set_present 1 (set_writeable 1 e))); directory_loop n m (i + 1)
  end.

(** [pt] is one array over the eight tables; [n] entries from [i] on. *)
Fixpoint image_loop (n : nat) m (i writeable : Z) : res (Mem Z) :=
  match n with
  | O => Val m
  | S n =>
      _ ← defined (i <? 8 * PAGE_TABLE_ENTRIES);
      m ← update m (pt + i / PAGE_TABLE_ENTRIES) (i mod PAGE_TABLE_ENTRIES)
            (λ e, set_page_ppn i (set_writeable writeable (set_present 1 e)));
      image_loop n m (i + 1) writeable
  end.

Fixpoint vesa_loop (n : nat) m (lfb i : Z) : res (Mem Z) :=
  match n with
  | O => Val m
  | S n =>
      m ← update m pd2 (504 + i) (λ e, set_page_ppn_2m (lfb / (PAGE_SIZE * PAGE_TABLE_ENTRIES) + i)
            (set_write_through 1 (set_cache_disabled 1 (set_size 1 (set_writeable 1 (set_present 1 e))))));
      vesa_loop n m lfb (i + 1)
  end.

(** [i] is 32 bits wide: the bounds of the loops over the image are. *)
Definition initialisePaging m : res (Mem Z) :=
  m ← update m pml4 0 (table_entry pdpt1);
  m ← update m pml4 480 (table_entry pdpt1);
  m ← update m pml4 511 (table_entry pdpt2);
  m ← update m pdpt1 0 (table_entry pd1);
  m ← update m pdpt2 510 (table_entry pd2);
  m ← identity_loop (Z.to_nat PAGE_DIR_ENTRIES) m 0;
  m ← directory_loop 8 m 0;
  let ro := Z.max 184 (u64 (last_ro_data_page im - 256)) in
  m ← image_loop (Z.to_nat (ro - 184)) m 184 0;
  m ← image_loop (Z.to_nat (kernel_last_page im - ro)) m ro 1;
  match vesa_lfb im with
  | Some lfb => vesa_loop 8 m lfb 0
  | None => Val m
  end.

Definition removeBootTimeIdentMapping m : res (Mem Z) := m ← put m pml4 0 0; put m pml4 1 0.
End tables.

(** ** The kernel's address space *)

Section space.
Context (im : image).
Implicit Types m : Mem Z.

Let pml4 := kernel_page_map_level_4 im.
Let pdpt := kernel_page_directory_pointer_table im + 1.
Let pd := kernel_page_directory im + 1.
Let pt := kernel_page_table im.

(** Different tables are in different frames, which an entry can hold. *)
Record image_ok : Prop := {
  im_range f : f = pml4 ∨ pdpt - 1 <= f <= pdpt ∨ pd - 1 <= f <= pd ∨ pt <= f < pt + 8 → 0 < f < 2 ^ 28;
  im_root : (pml4 < pdpt - 1 ∨ pdpt < pml4) ∧ (pml4 < pd - 1 ∨ pd < pml4) ∧ (pml4 < pt ∨ pt + 8 <= pml4);
  im_apart : (pdpt < pd - 1 ∨ pd < pdpt - 1) ∧ (pdpt < pt ∨ pt + 8 <= pdpt - 1) ∧ (pd < pt ∨ pt + 8 <= pd - 1);
}.

Definition is_table (f : Z) : Prop := f = pml4 ∨ f = pdpt ∨ f = pd ∨ pt <= f < pt + 8.

(** The tables of the last GiB: one directory, whose first eight entries lead to
    page tables and whose other entries are large pages or not present. *)
Record space_ok m : Prop := {
  sp_len f : is_table f → length (words_of m f) = 512%nat;
  sp_total : pml4 < source m ∧ pd < source m ∧ pt + 8 <= source m;
  sp_4 : present (ent m pml4 511) = true ∧ page_ppn (ent m pml4 511) = pdpt;
  sp_3 : present (ent m pdpt 510) = true ∧ size_bit (ent m pdpt 510) = 0 ∧ page_ppn (ent m pdpt 510) = pd;
  sp_2 i : 0 <= i < 8 → present (ent m pd i) = true ∧ size_bit (ent m pd i) = 0 ∧ page_ppn (ent m pd i) = pt + i;
  sp_large i : 8 <= i < 512 → present (ent m pd i) = true → size_bit (ent m pd i) ≠ 0;
  sp_leaf i j : 0 <= i < 8 → 0 <= j < 512 → present (ent m (pt + i) j) = true → page_ppn (ent m (pt + i) j) < source m;
}.

(** What the page [w] of the last GiB is mapped to: the size of the mapping,
    its frame, the frame of the page table. *)
Definition view m (w : Z) : Z * Z * Z :=
  let i := w / 512 in
  if i <? 8 then
    let e := ent m (pt + i) (w mod 512) in
    if present e then (PAGE_SIZE, page_ppn e, pt + i) else (0, 0, pt + i)
  else
    let e := ent m pd i in
    if present e then (PAGE_SIZE * PAGE_TABLE_ENTRIES, page_ppn_2m e, 0) else (0, 0, 0).

Lemma window_indices w : 0 <= w < 0x40000 → indices (RESERVED_START + w) = (511, 510, w / 512, w mod 512).
Proof.
  intros Hw. unfold indices, RESERVED_START, PAGE_TABLE_ENTRIES, PAGE_DIR_ENTRIES, PAGE_DIR_POINTER_TABLE_ENTRIES, PAGE_MAP_LEVEL_4_ENTRIES.
  assert (E : (0xFFFFFFFF80000 + w) / 512 = 0x7FFFFFFFC00 + w / 512) by (Z.to_euclidean_division_equations; lia).
  assert (F : (0xFFFFFFFF80000 + w) mod 512 = w mod 512) by (Z.to_euclidean_division_equations; lia).
  assert (0 <= w / 512 < 512) by (Z.to_euclidean_division_equations; lia). rewrite E, F. clear E F.
  generalize dependent (w / 512). intros i Hi.
  assert (E : (0x7FFFFFFFC00 + i) / 512 = 0x3FFFFFFFE) by (Z.to_euclidean_division_equations; lia). rewrite E.
  f_equal. f_equal. Z.to_euclidean_division_equations; lia.
Qed.

Lemma window_resolves m w : space_ok m → 0 <= w < 0x40000 →
  ∃ mp, resolveMapping m pml4 (RESERVED_START + w) = Val mp ∧ (m_page_size mp, m_page_ppn mp, m_pt_ppn mp) = view m w ∧
    m_pml4i mp = 511 ∧ m_pdpti mp = 510 ∧ m_pdi mp = w / 512 ∧ m_pti mp = w mod 512.
Proof.
  intros Hs Hw. pose proof Hs as [Hlen (Ht1 & Ht2 & Ht3) (P4 & Q4) (P3 & S3 & Q3) H2 HL Hleaf].
  assert (Hi : 0 <= w / 512 < 512 ∧ 0 <= w mod 512 < 512) by (Z.to_euclidean_division_equations; lia). destruct Hi as [Hi Hj].
  unfold resolveMapping. rewrite window_indices by done. unfold total, boot_source, ps_total.
  rewrite (proj2 (Z.ltb_lt _ _) Ht1). cbn [kassert mbind res_bind].
  rewrite get_ent by (first [lia|apply Hlen; unfold is_table; tauto]). cbn [mbind res_bind]. rewrite P4, Q4. cbn [negb].
  rewrite get_ent by (first [lia|apply Hlen; unfold is_table; tauto]). cbn [mbind res_bind]. rewrite P3, S3, Q3. cbn [Z.eqb andb].
  rewrite (proj2 (Z.ltb_lt _ _) Ht2). cbn [kassert mbind res_bind].
  rewrite get_ent by (first [lia|apply Hlen; unfold is_table; tauto]). cbn [mbind res_bind]. unfold view. cbv zeta.
  destruct (Z.ltb_spec (w / 512) 8) as [H8|H8].
  - destruct (H2 _ (conj (proj1 Hi) H8)) as (P2 & S2 & Q2). rewrite P2, S2, Q2. cbn [Z.eqb andb].
    rewrite (proj2 (Z.ltb_lt _ _)) by lia. cbn [kassert mbind res_bind].
    rewrite get_ent by (first [lia|apply Hlen; right; right; right; lia]). cbn [mbind res_bind].
    destruct (present (ent m (pt + w / 512) (w mod 512))) eqn:P1; [|eexists; by split_and!].
    rewrite (proj2 (Z.ltb_lt _ _)) by (apply Hleaf; [lia|lia|done]). cbn [kassert mbind res_bind]. eexists; by split_and!.
  - destruct (present (ent m pd (w / 512))) eqn:P2; cbn [andb]; [|eexists; by split_and!].
    rewrite (proj2 (Z.eqb_neq _ _)) by (apply HL; [lia|done]). eexists; by split_and!.
Qed.

Lemma window_lookup m w : space_ok m → 0 <= w < 0x40000 →
  get_PPN_Of_VPN_In_KernelMapping m pml4 (RESERVED_START + w) = Val (view m w).
Proof.
  intros Hs Hw. destruct (window_resolves m w Hs Hw) as (mp & E & <- & _). unfold get_PPN_Of_VPN_In_KernelMapping. by rewrite E.
Qed.

(** An entry of a page table with the fields the loops and [mapKernelPage] set. *)
Lemma leaf_fields p wr e : 0 <= p < 2 ^ 28 → 0 <= wr < 2 →
  present (set_present 1 (set_page_ppn p (set_writeable wr e))) = true ∧
  page_ppn (set_present 1 (set_page_ppn p (set_writeable wr e))) = p.
Proof.
  intros. unfold present, page_ppn, set_present, set_page_ppn, set_writeable.
  split; repeat first [rewrite field_set_same by lia|rewrite field_set_other by lia]; done.
Qed.

Lemma put_leaf m i j e p : image_ok → space_ok m → 0 <= i < 8 → 0 <= j < 512 →
  present e = true → page_ppn e = p → p < source m →
  ∃ m', put m (pt + i) j e = Val m' ∧ space_ok m' ∧ source m' = source m ∧ view m' (i * 512 + j) = (PAGE_SIZE, p, pt + i) ∧
    ∀ w, 0 <= w < 0x40000 → w ≠ i * 512 + j → view m' w = view m w.
Proof.
  intros [_ Ha Hb] [Hlen Ht H4 H3 H2 HL Hleaf] Hi Hj Hpe Hp Hps.
  destruct (put_ent m (pt + i) j e) as (m' & E & Es & El & Ee); [apply Hlen; do 3 right; lia|done|].
  assert (Eo : ∀ f k, 0 <= k → f = pml4 ∨ f = pdpt ∨ f = pd → ent m' f k = ent m f k).
  { intros f k Hk Hf. rewrite Ee by done. apply decide_False. intros [-> _]. lia. }
  exists m'. split_and!; [done| |done| |].
  - split; rewrite ?Es; [|done|..].
    + intros f Hf. rewrite El. by apply Hlen.
    + by rewrite Eo by (lia || tauto).
    + by rewrite Eo by (lia || tauto).
    + intros k Hk. rewrite Eo by (lia || tauto). by apply H2.
    + intros k Hk. rewrite Eo by (lia || tauto). by apply HL.
    + intros k l Hk Hl. rewrite Ee by lia. case_decide as Hc; [by rewrite Hp|]. by apply Hleaf.
  - unfold view. replace ((i * 512 + j) / 512) with i by (Z.to_euclidean_division_equations; lia).
    replace ((i * 512 + j) mod 512) with j by (Z.to_euclidean_division_equations; lia).
    rewrite (proj2 (Z.ltb_lt i 8)) by lia. rewrite Ee, decide_True by (done || lia). cbv zeta. by rewrite Hpe, Hp.
  - intros w Hw Hne. unfold view. destruct (Z.ltb_spec (w / 512) 8) as [H8|H8].
    + rewrite Ee by (Z.to_euclidean_division_equations; lia). rewrite decide_False; [done|].
      intros [E1 E2]. apply Hne. Z.to_euclidean_division_equations; lia.
    + rewrite Eo; [done|Z.to_euclidean_division_equations; lia|tauto].
Qed.

Lemma window_maps m w p : image_ok → space_ok m → source m <= 2 ^ 28 → 0 <= w < 4096 → (view m w).1.1 = 0 → 0 <= p < source m →
  ∃ m', mapKernelPage m pml4 (RESERVED_START + w) p = Val m' ∧ space_ok m' ∧ source m' = source m ∧
    view m' w = (PAGE_SIZE, p, pt + w / 512) ∧ ∀ w', 0 <= w' < 0x40000 → w' ≠ w → view m' w' = view m w'.
Proof.
  intros Him Hs Hn Hw Hv Hp. pose proof Hs as [Hlen _ (P4 & Q4) (P3 & S3 & Q3) H2 _ _].
  assert (Hi : 0 <= w / 512 < 8 ∧ 0 <= w mod 512 < 512 ∧ w = w / 512 * 512 + w mod 512) by (Z.to_euclidean_division_equations; lia).
  destruct Hi as (Hi & Hj & Ew). destruct (H2 _ Hi) as (P2 & S2 & Q2).
  assert (P1 : present (ent m (pt + w / 512) (w mod 512)) = false).
  { unfold view in Hv. rewrite (proj2 (Z.ltb_lt _ _)) in Hv by lia. by destruct (present _). }
  unfold mapKernelPage, kernel_entry.
  destruct (window_resolves m w Hs ltac:(lia)) as (mp & E & _ & M1 & M2 & M3 & M4).
  rewrite E. cbn [mbind res_bind]. rewrite M1, M2, M3, M4. clear E.
  rewrite get_ent by (first [lia|apply Hlen; unfold is_table; tauto]). cbn [mbind res_bind]. rewrite P4, Q4. cbn [kassert mbind res_bind].
  rewrite get_ent by (first [lia|apply Hlen; unfold is_table; tauto]). cbn [mbind res_bind]. rewrite P3, Q3. cbn [kassert mbind res_bind].
  rewrite get_ent by (first [lia|apply Hlen; unfold is_table; tauto]). cbn [mbind res_bind]. rewrite P2, Q2. cbn [kassert mbind res_bind].
  rewrite get_ent by (first [lia|apply Hlen; do 3 right; lia]). cbn [mbind res_bind]. rewrite P1. cbn [negb kassert mbind res_bind].
  destruct (leaf_fields p 1 (ent m (pt + w / 512) (w mod 512))) as [L1 L2]; [lia|lia|].
  destruct (put_leaf m (w / 512) (w mod 512) _ p Him Hs Hi Hj L1 L2) as (m' & E & Hs' & Es & Ev & Eo); [lia|].
  rewrite <- Ew in Ev, Eo. exists m'. by split_and!.
Qed.

(** The removal of the identity mapping of the lower half leaves the last GiB
    alone. *)
Lemma remove_ident_ok m : image_ok → space_ok m → ∃ m', removeBootTimeIdentMapping im m = Val m' ∧ space_ok m' ∧
  ent m' pml4 0 = 0 ∧ ∀ w, 0 <= w < 0x40000 → view m' w = view m w.
Proof.
  intros [_ Hr Ha] Hs. pose proof Hs as [Hlen Ht H4 H3 H2 HL Hleaf]. unfold removeBootTimeIdentMapping.
  destruct (put_ent m pml4 0 0) as (m1 & E1 & S1 & L1 & D1); [apply Hlen; by left|done|].
  destruct (put_ent m1 pml4 1 0) as (m2 & E2 & S2 & L2 & D2); [rewrite L1; apply Hlen; by left|done|].
  fold pml4. rewrite E1. cbn [mbind res_bind]. exists m2. split; [done|].
  assert (Eo : ∀ f k, 0 <= k → f ≠ pml4 ∨ 2 <= k → ent m2 f k = ent m f k).
  { intros f k Hk Hf. rewrite D2, D1 by lia. rewrite !decide_False by lia. done. }
  split; [|split].
  - split; rewrite ?S2, ?S1; [|done|..].
    + intros f Hf. rewrite L2, L1. by apply Hlen.
    + by rewrite Eo by lia.
    + by rewrite Eo by lia.
    + intros i Hi. rewrite Eo by lia. by apply H2.
    + intros i Hi. rewrite Eo by lia. by apply HL.
    + intros i j Hi Hj. rewrite Eo by lia. by apply Hleaf.
  - rewrite D2, D1 by lia. rewrite decide_False by lia. by rewrite decide_True.
  - intros w Hw. unfold view. assert (0 <= w / 512 < 512 ∧ 0 <= w mod 512 < 512) by (Z.to_euclidean_division_equations; lia).
    cbv zeta. destruct (Z.ltb_spec (w / 512) 8); by rewrite Eo by lia.
Qed.

(** ** The boot-time page tables *)

(** [m'] is [m] with the entries of [A] changed by [g]. *)
Definition edits m m' (A : Z → Z → bool) (g : Z → Z → Z → Z) : Prop :=
  source m' = source m ∧ (∀ f, length (words_of m' f) = length (words_of m f)) ∧
  ∀ f j, 0 <= j → ent m' f j = if A f j then g f j (ent m f j) else ent m f j.

Lemma update_edits m t i g : length (words_of m t) = 512%nat → 0 <= i < 512 →
  ∃ m', update m t i g = Val m' ∧ edits m m' (λ f j, (f =? t) && (j =? i)) (λ _ _, g).
Proof.
  intros Hl Hi. unfold update. rewrite get_ent by done. cbn [mbind res_bind].
  destruct (put_ent m t i (g (ent m t i)) Hl Hi) as (m' & -> & Es & El & Ee). exists m'. split; [done|]. split_and!; [done..|].
  intros f j Hj. rewrite Ee by done. case_decide as Hc.
  - destruct Hc as [-> ->]. by rewrite !Z.eqb_refl.
  - destruct (Z.eqb_spec f t), (Z.eqb_spec j i); try done. by destruct Hc.
Qed.

Lemma edits_none m A g : (∀ f j, A f j = false) → edits m m A g.
Proof. intros HA. split_and!; [done..|]. intros. by rewrite HA. Qed.

Lemma edits_len m m' A g f : edits m m' A g → length (words_of m f) = 512%nat → length (words_of m' f) = 512%nat.
Proof. intros (_ & L & _). by rewrite L. Qed.

Ltac bools := repeat match goal with
  | |- context [?a =? ?b] => destruct (Z.eqb_spec a b)
  | |- context [?a <? ?b] => destruct (Z.ltb_spec a b)
  | |- context [?a <=? ?b] => destruct (Z.leb_spec a b)
  | H : context [?a =? ?b] |- _ => destruct (Z.eqb_spec a b)
  | H : context [?a <? ?b] |- _ => destruct (Z.ltb_spec a b)
  | H : context [?a <=? ?b] |- _ => destruct (Z.leb_spec a b)
  end; cbn [andb orb] in *; try done; try lia.

Definition between (lo hi j : Z) : bool := (lo <=? j) && (j <? hi).

(** The entries after several edits, case by case. *)
Ltac edit_cases :=
  repeat match goal with H : edits _ _ _ _ |- _ => destruct H as (? & ? & ?) end;
  split_and!; [congruence|congruence|]; intros f j Hj;
  repeat match goal with H : (∀ f j, 0 <= j → ent _ f j = _) |- _ => rewrite H by done; clear H end;
  unfold between in *; rewrite ?Nat2Z.inj_succ; bools; subst; repeat f_equal; lia.

Lemma identity_edits n : ∀ m i, length (words_of m pd) = 512%nat → length (words_of m (pd - 1)) = 512%nat → 0 <= i → i + Z.of_nat n <= 512 →
  ∃ m', identity_loop im n m i = Val m' ∧
    edits m m' (λ f j, ((f =? pd) || (f =? pd - 1)) && between i (i + Z.of_nat n) j)
      (λ f j e, if f =? pd then set_present 0 e else set_present 1 (set_writeable 1 (set_size 1 (set_page_ppn_2m j e)))).
Proof.
  induction n as [|n IH]; intros m i H1 H2 Hi Hn.
  { exists m. split; [done|]. apply edits_none. intros. unfold between. bools. }
  cbn [identity_loop]. replace (kernel_page_directory im) with (pd - 1) by (unfold pd; lia). fold pd.
  destruct (update_edits m pd i (set_present 0) H1 ltac:(lia)) as (m1 & E1 & D1).
  replace (pd - 1 + 1) with pd by lia. rewrite E1. cbn [mbind res_bind].
  destruct (update_edits m1 (pd - 1) i (λ e, set_present 1 (set_writeable 1 (set_size 1 (set_page_ppn_2m i e)))))
    as (m2 & E2 & D2); [by eapply edits_len|lia|]. rewrite E2. cbn [mbind res_bind].
  destruct (IH m2 (i + 1)) as (m3 & E3 & D3); [do 2 (eapply edits_len; [done|]); done..|lia|lia|].
  exists m3. split; [done|]. edit_cases.
Qed.

Lemma directory_edits n : ∀ m i, length (words_of m pd) = 512%nat → 0 <= i → i + Z.of_nat n <= 512 →
  ∃ m', directory_loop im n m i = Val m' ∧
    edits m m' (λ f j, (f =? pd) && between i (i + Z.of_nat n) j)
      (λ _ j e, set_page_ppn (pt + j) (set_present 1 (set_writeable 1 e))).
Proof.
  induction n as [|n IH]; intros m i H1 Hi Hn.
  { exists m. split; [done|]. apply edits_none. intros. unfold between. bools. }
  cbn [directory_loop]. fold pd pt.
  destruct (update_edits m pd i (λ e, set_page_ppn (pt + i) (set_present 1 (set_writeable 1 e))) H1 ltac:(lia)) as (m1 & E1 & D1).
  rewrite E1. cbn [mbind res_bind].
  destruct (IH m1 (i + 1)) as (m2 & E2 & D2); [by eapply edits_len|lia|lia|].
  exists m2. split; [done|]. edit_cases.
Qed.

Lemma vesa_edits n lfb : ∀ m i, length (words_of m pd) = 512%nat → 0 <= i → i + Z.of_nat n <= 8 →
  ∃ m', vesa_loop im n m lfb i = Val m' ∧
    edits m m' (λ f j, (f =? pd) && between (504 + i) (504 + i + Z.of_nat n) j)
      (λ _ j e, set_page_ppn_2m (lfb / (PAGE_SIZE * PAGE_TABLE_ENTRIES) + (j - 504))
            (set_write_through 1 (set_cache_disabled 1 (set_size 1 (set_writeable 1 (set_present 1 e)))))).
Proof.
  induction n as [|n IH]; intros m i H1 Hi Hn.
  { exists m. split; [done|]. apply edits_none. intros. unfold between. bools. }
  cbn [vesa_loop]. fold pd.
  destruct (update_edits m pd (504 + i) (λ e, set_page_ppn_2m (lfb / (PAGE_SIZE * PAGE_TABLE_ENTRIES) + i)
    (set_write_through 1 (set_cache_disabled 1 (set_size 1 (set_writeable 1 (set_present 1 e)))))) H1 ltac:(lia)) as (m1 & E1 & D1).
  rewrite E1. cbn [mbind res_bind].
  destruct (IH m1 (i + 1)) as (m2 & E2 & D2); [by eapply edits_len|lia|lia|].
  exists m2. split; [done|]. edit_cases.
Qed.

Lemma image_edits n wr : ∀ m i, (∀ f, pt <= f < pt + 8 → length (words_of m f) = 512%nat) → 0 <= i → i + Z.of_nat n <= 4096 →
  ∃ m', image_loop im n m i wr = Val m' ∧
    edits m m' (λ f j, (pt <=? f) && (f <? pt + 8) && (j <? 512) && between i (i + Z.of_nat n) ((f - pt) * 512 + j))
      (λ f j e, set_page_ppn ((f - pt) * 512 + j) (set_writeable wr (set_present 1 e))).
Proof.
  induction n as [|n IH]; intros m i H1 Hi Hn.
  { exists m. split; [done|]. apply edits_none. intros. unfold between. bools. }
  cbn [image_loop]. fold pt. unfold PAGE_TABLE_ENTRIES. change (8 * 512) with 4096.
  rewrite (proj2 (Z.ltb_lt i 4096)) by lia. cbn [defined kassert mbind res_bind].
  assert (Hq : 0 <= i / 512 < 8 ∧ 0 <= i mod 512 < 512 ∧ i = i / 512 * 512 + i mod 512) by (Z.to_euclidean_division_equations; lia).
  destruct Hq as (Hq & Hr & Ei).
  destruct (update_edits m (pt + i / 512) (i mod 512) (λ e, set_page_ppn i (set_writeable wr (set_present 1 e)))) as (m1 & E1 & D1);
    [apply H1; lia|lia|].
  rewrite E1. cbn [mbind res_bind].
  destruct (IH m1 (i + 1)) as (m2 & E2 & D2); [intros f Hf; eapply edits_len; [done|]; by apply H1|lia|lia|].
  exists m2. split; [done|]. edit_cases.
Qed.


(** The tables as the linker and [boot.32.C] leave them: the kernel's own part is
    zero. *)
Record fresh_tables m : Prop := {
  fr_len f : f = pml4 ∨ pdpt - 1 <= f <= pdpt ∨ pd - 1 <= f <= pd ∨ pt <= f < pt + 8 → length (words_of m f) = 512%nat;
  fr_4 : ent m pml4 511 = 0;
  fr_zero f j : f = pdpt ∨ f = pd ∨ pt <= f < pt + 8 → 0 <= j < 512 → ent m f j = 0;
}.

(** The image and its read-only part lie behind the first 184 pages and within
    the eight tables. *)
Definition image_fits : Prop := 184 <= kernel_last_page im <= 4096 ∧ 256 <= last_ro_data_page im <= kernel_last_page im + 256.

Definition ro : Z := Z.max 184 (last_ro_data_page im - 256).

Lemma vesa_stage m : length (words_of m pd) = 512%nat →
  ∃ m', match vesa_lfb im with Some lfb => vesa_loop im 8 m lfb 0 | None => Val m end = Val m' ∧
    edits m m' (λ f j, (f =? pd) && match vesa_lfb im with Some _ => between 504 512 j | None => false end)
      (λ _ j e, match vesa_lfb im with
        | Some lfb => set_page_ppn_2m (lfb / (PAGE_SIZE * PAGE_TABLE_ENTRIES) + (j - 504))
            (set_write_through 1 (set_cache_disabled 1 (set_size 1 (set_writeable 1 (set_present 1 e)))))
        | None => e
        end).
Proof.
  intros Hl. destruct (vesa_lfb im) as [lfb|].
  - by apply vesa_edits.
  - exists m. split; [done|]. apply edits_none. intros. by rewrite andb_false_r.
Qed.

(** The condition of an edit, decided by arithmetic. *)
Ltac decided v := match goal with |- context [if ?c then _ else _] =>
  replace c with v by (unfold between in *; first [bools|destruct (vesa_lfb im); bools]) end; cbv iota.
Ltac skip := decided false.
Ltac take := decided true.

(** The entries of the kernel's part when [initialisePaging] is done. *)
Lemma initialisePaging_entries m : image_ok → fresh_tables m → image_fits → ∃ m', initialisePaging im m = Val m' ∧
  source m' = source m ∧ (∀ f, length (words_of m' f) = length (words_of m f)) ∧
  ent m' pml4 511 = table_entry pdpt 0 ∧ ent m' pdpt 510 = table_entry pd 0 ∧
  (∀ i, 0 <= i < 512 → ent m' pd i =
    let e := if i <? 8 then set_page_ppn (pt + i) (set_present 1 (set_writeable 1 (set_present 0 0))) else set_present 0 0 in
    match vesa_lfb im with
    | Some lfb => if 504 <=? i then set_page_ppn_2m (lfb / (PAGE_SIZE * PAGE_TABLE_ENTRIES) + (i - 504))
            (set_write_through 1 (set_cache_disabled 1 (set_size 1 (set_writeable 1 (set_present 1 e))))) else e
    | None => e
    end) ∧
  (∀ i j, 0 <= i < 8 → 0 <= j < 512 → ent m' (pt + i) j =
    let w := i * 512 + j in
    if between 184 (kernel_last_page im) w then set_page_ppn w (set_writeable (if w <? ro then 0 else 1) (set_present 1 0)) else 0).
Proof.
  intros [_ Hr Ha] [Hlen H4 Hz] [Hk Hro]. unfold initialisePaging. fold pml4.
  replace (kernel_page_directory_pointer_table im) with (pdpt - 1) by (unfold pdpt; lia).
  replace (kernel_page_directory im) with (pd - 1) by (unfold pd; lia).
  replace (pdpt - 1 + 1) with pdpt by lia. replace (pd - 1 + 1) with pd by lia.
  rewrite (wrap_small 64) by lia. change (Z.max 184 (last_ro_data_page im - 256)) with ro.
  assert (Hro' : 184 <= ro <= kernel_last_page im) by (unfold ro; lia).
  destruct (update_edits m pml4 0 (table_entry (pdpt - 1))) as (m1 & R1 & S1 & L1 & E1); [apply Hlen; lia|lia|].
  rewrite R1. cbn [mbind res_bind]. clear R1.
  destruct (update_edits m1 pml4 480 (table_entry (pdpt - 1))) as (m2 & R2 & S2 & L2 & E2); [rewrite L1; apply Hlen; lia|lia|].
  rewrite R2. cbn [mbind res_bind]. clear R2.
  destruct (update_edits m2 pml4 511 (table_entry pdpt)) as (m3 & R3 & S3 & L3 & E3); [rewrite L2, L1; apply Hlen; lia|lia|].
  rewrite R3. cbn [mbind res_bind]. clear R3.
  destruct (update_edits m3 (pdpt - 1) 0 (table_entry (pd - 1))) as (m4 & R4 & S4 & L4 & E4); [rewrite L3, L2, L1; apply Hlen; lia|lia|].
  rewrite R4. cbn [mbind res_bind]. clear R4.
  destruct (update_edits m4 pdpt 510 (table_entry pd)) as (m5 & R5 & S5 & L5 & E5); [rewrite L4, L3, L2, L1; apply Hlen; lia|lia|].
  rewrite R5. cbn [mbind res_bind]. clear R5.
  assert (L : ∀ f, length (words_of m5 f) = length (words_of m f)) by (intros f; by rewrite L5, L4, L3, L2, L1).
  destruct (identity_edits (Z.to_nat PAGE_DIR_ENTRIES) m5 0) as (m6 & R6 & S6 & L6 & E6);
    [rewrite L; apply Hlen; lia|rewrite L; apply Hlen; lia|done|done|].
  rewrite R6. cbn [mbind res_bind]. clear R6.
  destruct (directory_edits 8 m6 0) as (m7 & R7 & S7 & L7 & E7); [rewrite L6, L; apply Hlen; lia|done|done|].
  rewrite R7. cbn [mbind res_bind]. clear R7. clear L1 L2 L3 L4 L5.
  destruct (image_edits (Z.to_nat (ro - 184)) 0 m7 184) as (m8 & R8 & S8 & L8 & E8); [intros f Hf; rewrite L7, L6, L; apply Hlen; lia|lia|lia|].
  rewrite R8. cbn [mbind res_bind]. clear R8.
  destruct (image_edits (Z.to_nat (kernel_last_page im - ro)) 1 m8 ro) as (m9 & R9 & S9 & L9 & E9);
    [intros f Hf; rewrite L8, L7, L6, L; apply Hlen; lia|lia|lia|].
  rewrite R9. cbn [mbind res_bind]. clear R9.
  destruct (vesa_stage m9) as (m' & R & S & L' & E'); [rewrite L9, L8, L7, L6, L; apply Hlen; lia|].
  rewrite R. exists m'. split; [done|]. split; [congruence|]. split; [congruence|].
  rewrite Z2Nat.id in E8, E9 by lia. clear L L6 L7 L8 L9 L' R S S1 S2 S3 S4 S5 S6 S7 S8 S9.
  replace (184 + (ro - 184)) with ro in E8 by lia. replace (ro + (kernel_last_page im - ro)) with (kernel_last_page im) in E9 by lia.
  change (0 + Z.of_nat (Z.to_nat PAGE_DIR_ENTRIES)) with 512 in E6. change (0 + Z.of_nat 8) with 8 in E7.
  split_and!.
  - rewrite E' by lia. skip. rewrite E9 by lia. skip. rewrite E8 by lia. skip. rewrite E7 by lia. skip. rewrite E6 by lia. skip.
    rewrite E5 by lia. skip. rewrite E4 by lia. skip. rewrite E3 by lia. take. rewrite E2 by lia. skip. rewrite E1 by lia. skip. by rewrite H4.
  - rewrite E' by lia. skip. rewrite E9 by lia. skip. rewrite E8 by lia. skip. rewrite E7 by lia. skip. rewrite E6 by lia. skip.
    rewrite E5 by lia. take. rewrite E4 by lia. skip. rewrite E3 by lia. skip. rewrite E2 by lia. skip. rewrite E1 by lia. skip. rewrite Hz by lia. done.
  - intros i Hi.
    assert (E : ent m9 pd i = if i <? 8 then set_page_ppn (pt + i) (set_present 1 (set_writeable 1 (set_present 0 0))) else set_present 0 0).
    { rewrite E9 by lia. skip. rewrite E8 by lia. skip. rewrite E7 by lia. rewrite E6 by lia. take.
      rewrite E5 by lia. skip. rewrite E4 by lia. skip. rewrite E3 by lia. skip. rewrite E2 by lia. skip. rewrite E1 by lia. skip.
      rewrite Hz by lia. rewrite Z.eqb_refl. unfold between. bools. }
    cbv zeta. rewrite E' by lia. rewrite <- E. destruct (vesa_lfb im); unfold between; bools.
  - intros i j Hi Hj. cbv zeta. rewrite E' by lia. skip. rewrite E9 by lia. rewrite E8 by lia. rewrite E7 by lia. skip. rewrite E6 by lia. skip.
    rewrite E5 by lia. skip. rewrite E4 by lia. skip. rewrite E3 by lia. skip. rewrite E2 by lia. skip. rewrite E1 by lia. skip.
    rewrite Hz by lia. replace (pt + i - pt) with i by lia. unfold between. bools.
Qed.


Lemma table_fields p : 0 <= p < 2 ^ 28 →
  present (table_entry p 0) = true ∧ size_bit (table_entry p 0) = 0 ∧ page_ppn (table_entry p 0) = p.
Proof.
  intros. unfold table_entry, present, page_ppn, size_bit, set_present, set_page_ppn, set_writeable.
  split_and!; repeat first [rewrite field_set_same by lia|rewrite field_set_other by lia]; done.
Qed.

Lemma directory_fields p : 0 <= p < 2 ^ 28 → let e := set_page_ppn p (set_present 1 (set_writeable 1 (set_present 0 0))) in
  present e = true ∧ size_bit e = 0 ∧ page_ppn e = p.
Proof.
  intros. unfold e, present, page_ppn, size_bit, set_present, set_page_ppn, set_writeable.
  split_and!; repeat first [rewrite field_set_same by lia|rewrite field_set_other by lia]; done.
Qed.

Lemma image_fields p wr : 0 <= p < 2 ^ 28 → 0 <= wr < 2 → let e := set_page_ppn p (set_writeable wr (set_present 1 0)) in
  present e = true ∧ page_ppn e = p ∧ writeable e = wr.
Proof.
  intros. unfold e, present, page_ppn, writeable, set_present, set_page_ppn, set_writeable.
  split_and!; repeat first [rewrite field_set_same by lia|rewrite field_set_other by lia]; done.
Qed.

Lemma field_wrap lo w v e : 0 <= lo → 0 <= w → field lo w (set_field lo w v e) = v mod 2 ^ w.
Proof.
  intros Hl Hw. apply Z.bits_inj'. intros i Hi. rewrite field_bits, set_field_bits by lia.
  rewrite (proj2 (Z.leb_le _ _)) by lia.
  replace (i + lo <? lo + w) with (i <? w) by (destruct (Z.ltb_spec i w), (Z.ltb_spec (i + lo) (lo + w)); lia).
  destruct (Z.ltb_spec i w); cbn [andb]; [rewrite Z.add_simpl_r, Z.mod_pow2_bits_low by lia; done|].
  by rewrite Z.mod_pow2_bits_high by lia.
Qed.

Lemma large_fields p e : let e' := set_page_ppn_2m p (set_write_through 1 (set_cache_disabled 1 (set_size 1 (set_writeable 1 (set_present 1 e))))) in
  present e' = true ∧ size_bit e' = 1 ∧ page_ppn_2m e' = p mod 2 ^ 19.
Proof.
  intros. unfold e', present, page_ppn_2m, size_bit, set_present, set_page_ppn_2m, set_writeable, set_write_through, set_cache_disabled, set_size.
  split_and!; repeat first [rewrite field_set_same by lia|rewrite field_wrap by lia|rewrite field_set_other by lia]; done.
Qed.

(** What the last GiB shows after the boot. *)
Definition boot_view (w : Z) : Z * Z * Z :=
  if between 184 (kernel_last_page im) w then (PAGE_SIZE, w, pt + w / 512)
  else if w <? 4096 then (0, 0, pt + w / 512)
  else match vesa_lfb im with
       | Some lfb => if 504 * 512 <=? w
                     then (PAGE_SIZE * PAGE_TABLE_ENTRIES, (lfb / (PAGE_SIZE * PAGE_TABLE_ENTRIES) + (w / 512 - 504)) mod 2 ^ 19, 0)
                     else (0, 0, 0)
       | None => (0, 0, 0)
       end.

(** C34: The boot-time tables map every page from 184 up to the end of the kernel's
    image, also those from 184 to 255 that lie before the image, to the frame of the
    same number, those below [last_ro_data_page - 256] without and the rest, with
    the last 256 read-only pages of the image, with write access, the frame buffer,
    if there is one, with large pages to its place in physical memory, and nothing
    else of the last GiB. *)
Theorem initialisePaging_maps m : image_ok → fresh_tables m → image_fits →
  pml4 < source m → pd < source m → pt + 8 <= source m → kernel_last_page im <= source m →
  ∃ m', initialisePaging im m = Val m' ∧ space_ok m' ∧ source m' = source m ∧
    (∀ w, 0 <= w < 0x40000 → get_PPN_Of_VPN_In_KernelMapping m' pml4 (RESERVED_START + w) = Val (boot_view w)) ∧
    ∀ w, 184 <= w < kernel_last_page im →
      writeable (ent m' (pt + w / 512) (w mod 512)) = if w <? last_ro_data_page im - 256 then 0 else 1.
Proof.
  intros Him Hf Hfit Ht1 Ht2 Ht3 Ht4. pose proof Him as [Hr _ _]. destruct Hfit as [Hk Hro].
  destruct (initialisePaging_entries m Him Hf (conj Hk Hro)) as (m' & E & Es & El & E4 & E3 & E2 & E1).
  assert (Hs : space_ok m').
  { split; rewrite ?Es, ?E4, ?E3; [|done|..].
    - intros f Hfr. rewrite El. apply Hf. unfold is_table in Hfr. lia.
    - split; apply table_fields; pose proof (Hr pdpt); lia.
    - apply table_fields. pose proof (Hr pd). lia.
    - intros i Hi. rewrite E2 by lia. cbv zeta. rewrite (proj2 (Z.ltb_lt i 8)) by lia.
      destruct (vesa_lfb im); [rewrite (proj2 (Z.leb_gt 504 i)) by lia|]; apply directory_fields; pose proof (Hr (pt + i)); lia.
    - intros i Hi. rewrite E2 by lia. cbv zeta. rewrite (proj2 (Z.ltb_ge i 8)) by lia.
      destruct (vesa_lfb im); [destruct (504 <=? i)|]; [|done|done].
      intros _. rewrite (proj1 (proj2 (large_fields _ _))). done.
    - intros i j Hi Hj. rewrite E1 by lia. cbv zeta. destruct (between _ _ _) eqn:Hb; [|done].
      unfold between in Hb. apply andb_true_iff in Hb as [Hb1%Z.leb_le Hb2%Z.ltb_lt]. intros _.
      destruct (image_fields (i * 512 + j) (if i * 512 + j <? ro then 0 else 1)) as (_ & -> & _); [lia|destruct (_ <? _); lia|lia]. }
  exists m'. split_and!; [done..| |].
  - intros w Hw. rewrite window_lookup by done. f_equal. unfold view, boot_view.
    assert (Hq : 0 <= w / 512 < 512 ∧ 0 <= w mod 512 < 512 ∧ w / 512 * 512 + w mod 512 = w) by (Z.to_euclidean_division_equations; lia).
    destruct Hq as (Hq & Hj & Ew). destruct (Z.ltb_spec (w / 512) 8) as [H8|H8].
    + rewrite E1 by lia. cbv zeta. rewrite Ew. rewrite (proj2 (Z.ltb_lt w 4096)) by lia.
      destruct (between _ _ _) eqn:Hb; [|done]. unfold between in Hb. apply andb_true_iff in Hb as [Hb1%Z.leb_le Hb2%Z.ltb_lt].
      destruct (image_fields w (if w <? ro then 0 else 1)) as (P & Q & _); [lia|destruct (_ <? _); lia|]. by rewrite P, Q.
    + rewrite E2 by lia. cbv zeta. rewrite (proj2 (Z.ltb_ge w 4096)), (proj2 (Z.ltb_ge (w / 512) 8)) by lia.
      replace (between 184 (kernel_last_page im) w) with false by (unfold between; bools).
      destruct (vesa_lfb im) as [lfb|]; [|done].
      replace (504 <=? w / 512) with (504 * 512 <=? w) by bools. destruct (504 * 512 <=? w); [|done].
      destruct (large_fields (lfb / (PAGE_SIZE * PAGE_TABLE_ENTRIES) + (w / 512 - 504)) (set_present 0 0)) as (P & _ & Q). by rewrite P, Q.
  - intros w Hw. assert (Hq : 0 <= w / 512 < 8 ∧ 0 <= w mod 512 < 512 ∧ w / 512 * 512 + w mod 512 = w) by (Z.to_euclidean_division_equations; lia).
    destruct Hq as (Hq & Hj & Ew). rewrite E1 by lia. cbv zeta. rewrite Ew.
    replace (between 184 (kernel_last_page im) w) with true by (unfold between; bools).
    destruct (image_fields w (if w <? ro then 0 else 1)) as (_ & _ & ->); [lia|destruct (_ <? _); lia|].
    unfold ro. bools.
Qed.

End space.

(** ** A small machine *)

Definition ex_image : image := mkImage 1 2 4 6 512 640 (Some 0xFD000000).
Definition ex_words : gmap Z (list Z) := gset_to_gmap (replicate 512 0) (list_to_set (seqZ 1 20)).

Lemma ex_words_of f : 1 <= f < 21 → words_of (mkMem ex_words 2048) f = replicate 512 0.
Proof.
  intros Hf. unfold words_of. cbn [words]. unfold ex_words.
  rewrite (proj2 (lookup_gset_to_gmap_Some _ _ _ (replicate 512 0))); [done|]. split; [|done].
  apply elem_of_list_to_set, elem_of_seqZ. lia.
Qed.

Lemma ex_ent f j : 1 <= f < 21 → 0 <= j < 512 → ent (mkMem ex_words 2048) f j = 0.
Proof. intros Hf Hj. unfold ent. rewrite ex_words_of by done. by rewrite lookup_replicate_2 by lia. Qed.

Lemma initialisePaging_maps_witness : ∃ m', initialisePaging ex_image (mkMem ex_words 2048) = Val m' ∧
  get_PPN_Of_VPN_In_KernelMapping m' 1 (RESERVED_START + 300) = Val (4096, 300, 6) ∧
  get_PPN_Of_VPN_In_KernelMapping m' 1 (RESERVED_START + 600) = Val (0, 0, 7) ∧
  get_PPN_Of_VPN_In_KernelMapping m' 1 (RESERVED_START + 505 * 512) = Val (2097152, 2025, 0).
Proof.
  destruct (initialisePaging_maps ex_image (mkMem ex_words 2048)) as (m' & E & _ & _ & Hv & _).
  - split; cbn; lia.
  - split; cbn [ex_image kernel_page_map_level_4 kernel_page_directory_pointer_table kernel_page_directory kernel_page_table].
    + intros f Hf. rewrite ex_words_of by lia. reflexivity.
    + apply ex_ent; lia.
    + intros f j Hf Hj. apply ex_ent; lia.
  - split; cbn; lia.
  - reflexivity.
  - reflexivity.
  - discriminate.
  - discriminate.
  - exists m'. split; [exact E|]. split_and!; (refine (eq_trans (Hv _ _) _); [lia|reflexivity]).
Defined.

End Paging.
