(* ===== verification/Boot.v ===== *)
(** * The construction of the page manager at boot time

    Models the memory map of [arch/x86/64/source/ArchCommon.cpp] and the
    constructor of [common/source/mm/PageManager.cpp], with the mappings of the
    kernel's heap and the [KernelMemoryManager] it creates.  The multiboot data
    and the end of the kernel's image are arguments. *)
From S2P Require Import Prelude Bitmap PageManager Kmm ArchMemory BootPaging.

Module Boot.
Import Bitmap ArchMemory Paging.

Definition PHYSICAL_TO_VIRTUAL_OFFSET : Z := 0xFFFFFFFF80000000.

(** ** ArchCommon.cpp *)

Record region : Set := mkRegion { start_address : Z; end_address : Z; type : Z }.
Record module_map : Set := mkModule { mod_start : Z; mod_end : Z }.

Definition getModuleStartAddress (x : module_map) : Z := Z.lor (mod_start x) PHYSICAL_TO_VIRTUAL_OFFSET.
Definition getModuleEndAddress (x : module_map) : Z := Z.lor (mod_end x) PHYSICAL_TO_VIRTUAL_OFFSET.

Definition getFreeKernelMemoryStart (kernel_end_address : Z) (modules : list module_map) : Z :=
  let free := foldl (λ a x, Z.max (getModuleEndAddress x) a) kernel_end_address modules in
  u64 (Z.lor (u64 (free - 1)) 0xFFF + 1).

(** ** PageManager::PageManager *)

Definition highest_address (regions : list region) : Z :=
  foldl (λ h r, if type r =? 1 then Z.max h (Z.land (end_address r) 0x7FFFFFFF) else h) 0 regions.

(** The usage table on the stack with the number of used pages. *)
Definition usage : Type := list Z * Z.

Definition setBit (t : usage) (p : Z) : res (usage * bool) :=
  '(b, n, r) ← setBit_raw t.1 t.2 p; Val ((b, n), r).
Definition unsetBit (t : usage) (p : Z) : res usage :=
  '(b, n, _) ← unsetBit_raw t.1 t.2 p; Val (b, n).

(** The pages [k], ..., [k + n - 1] of a region are free. *)
Fixpoint free_pages (n : nat) (t : usage) (k : Z) : res usage :=
  match n with
  | O => Val t
  | S n => t ← unsetBit t k; free_pages n t (k + 1)
  end.
Fixpoint free_regions (pages : Z) (t : usage) (l : list region) : res usage :=
  match l with
  | [] => Val t
  | r :: l =>
      t ← (if negb (type r =? 1) then Val t
           else
             let first := start_address r / PAGE_SIZE in
             free_pages (Z.to_nat (Z.min (end_address r / PAGE_SIZE) pages - first)) t first);
      free_regions pages t l
  end.

(** The 4 KiB pages of a kernel page. *)
Fixpoint reserve_frames (n : nat) (pages : Z) (t : usage) (p : Z) : res usage :=
  match n with
  | O => Val t
  | S n => t ← (if p <? pages then '(t, _) ← setBit t p; Val t else Val t); reserve_frames n pages t (p + 1)
  end.
Fixpoint reserve_kernel (fuel : nat) (m : Mem Z) (kernel pages : Z) (t : usage) (i : Z) : res usage :=
  if i <? RESERVED_END then
    match fuel with
    | O => Err EFuel
    | S fuel =>
        '(size, physical_page, pte_page) ← get_PPN_Of_VPN_In_KernelMapping m kernel i;
        _ ← kassert ((size =? 0) || (size =? PAGE_SIZE) || (size =? PAGE_SIZE * PAGE_TABLE_ENTRIES));
        if 0 <? size then
          let num := size / PAGE_SIZE in
          t ← reserve_frames (Z.to_nat num) pages t (physical_page * num);
          let i := i + (num - 1) in
          t ← (if (num =? 1) && (i mod 1024 =? 0) && (pte_page <? pages) then '(t, _) ← setBit t pte_page; Val t else Val t);
          reserve_kernel fuel m kernel pages t (i + 1)
        else reserve_kernel fuel m kernel pages t (i + 1)
    end
  else Val t.

(** The pages [k], ..., [k + n - 1] of a module. *)
Fixpoint reserve_pages (n : nat) (m : Mem Z) (kernel : Z) (t : usage) (k : Z) : res (Mem Z * usage) :=
  match n with
  | O => Val (m, t)
  | S n =>
      '(t, _) ← setBit t k;
      let virtual_page := PHYSICAL_TO_VIRTUAL_OFFSET / PAGE_SIZE + k in
      '(size, _, _) ← get_PPN_Of_VPN_In_KernelMapping m kernel virtual_page;
      m ← (if size =? 0 then mapKernelPage m kernel virtual_page k else Val m);
      reserve_pages n m kernel t (k + 1)
  end.
Fixpoint reserve_modules (m : Mem Z) (kernel pages : Z) (t : usage) (l : list module_map) : res (Mem Z * usage) :=
  match l with
  | [] => Val (m, t)
  | x :: l =>
      let start_page := Z.land (getModuleStartAddress x) 0x7FFFFFFF / PAGE_SIZE in
      let end_page := Z.land (getModuleEndAddress x) 0x7FFFFFFF / PAGE_SIZE in
      let k := Z.min start_page pages in
      '(m, t) ← reserve_pages (Z.to_nat (Z.min end_page (u32 (pages - 1)) + 1 - k)) m kernel t k;
      reserve_modules m kernel pages t l
  end.

(** [while (!Bitmap::setBit(...)) free_page++;] *)
Fixpoint take_page (fuel : nat) (t : usage) (free_page : Z) : res (usage * Z) :=
  match fuel with
  | O => Err EFuel
  | S fuel => '(t, fresh) ← setBit t free_page; if fresh : bool then Val (t, free_page) else take_page fuel t (free_page + 1)
  end.

Definition DYNAMIC_KMM : bool := false.

(** Every turn takes a page, so there are no more turns than bits. *)
Fixpoint reserve_heap (fuel : nat) (m : Mem Z) (kernel pages bitmap_pages heap_pages : Z) (t : usage)
    (free_page start_vpn temp_page_size num : Z) : res (Mem Z * usage * Z) :=
  if (num <? bitmap_pages) || negb (temp_page_size =? 0) || (num <? (if DYNAMIC_KMM || (pages <? 512) then 0 else heap_pages)) then
    match fuel with
    | O => Err EFuel
    | S fuel =>
        '(t, free_page) ← take_page (S (8 * length t.1)) t free_page;
        '(size, _, _) ← get_PPN_Of_VPN_In_KernelMapping m kernel start_vpn;
        '(m, free_page) ← (if size =? 0 then m ← mapKernelPage m kernel start_vpn free_page; Val (m, free_page + 1)
                           else Val (m, free_page));
        reserve_heap fuel m kernel pages bitmap_pages heap_pages t free_page (start_vpn + 1) size (num + 1)
    end
  else Val (m, t, num).

(** The copy into the bitmap of all pages. *)
Fixpoint copy_bits (n : nat) (t : usage) (bm : Bitmap) (i : Z) : res Bitmap :=
  match n with
  | O => Val bm
  | S n =>
      used ← getBit_raw t.1 i;
      bm ← (if used : bool then '(bm, _) ← Bitmap.setBit bm i; Val bm else Val bm);
      copy_bits n t bm (i + 1)
  end.

(** The lowest free page of [n] pages from [p] on; 0 when there is none. *)
Fixpoint find_lowest (n : nat) (bm : Bitmap) (p : Z) : res Z :=
  match n with
  | O => Val 0
  | S n => used ← Bitmap.getBit bm p; if negb used then Val p else find_lowest n bm (p + 1)
  end.

Fixpoint clear_free (n : nat) (bm : Bitmap) (fr : gmap Z (list Z)) (p : Z) : res (gmap Z (list Z)) :=
  match n with
  | O => Val fr
  | S n =>
      used ← Bitmap.getBit bm p;
      clear_free n bm (if negb used then <[p := PageManager.filled 255]> fr else fr) (p + 1)
  end.

(** The usage table after the regions, the kernel's mappings and the modules. *)
Definition usage_table (kernel pages : Z) (regions : list region) (modules : list module_map) (m : Mem Z) : res (Mem Z * usage) :=
  let size := Z.min (4096 * 8 * 2) pages in
  t ← free_regions pages (replicate (Z.to_nat (BITMAP_BYTE_COUNT size)) 255, size) regions;
  t ← reserve_kernel (Z.to_nat (RESERVED_END - RESERVED_START)) m kernel pages t RESERVED_START;
  reserve_modules m kernel pages t modules.

(** The page manager, the kernel's memory and its heap; [words] and [fr] are
    what the frames hold before. *)
Definition construct (kernel kernel_end_address : Z) (regions : list region) (modules : list module_map)
    (words : gmap Z (list Z)) (fr : gmap Z (list Z)) : res (PageManager.PageManager Bitmap * Mem Z * Kmm.KMM) :=
  let pages := u32 (highest_address regions / PAGE_SIZE) in
  '(m, t) ← usage_table kernel pages regions modules (mkMem words pages);
  let bitmap_pages := pages / 8 / PAGE_SIZE + 1 in
  _ ← kassert (t.2 <? pages / 2);
  let heap_pages := u64 (pages / 2 - t.2) in
  let heap_pages := if 1024 <? heap_pages then 1024 + (heap_pages - Z.min heap_pages 1024) / 8 else heap_pages in
  let start := getFreeKernelMemoryStart kernel_end_address modules in
  '(m, t, reserved) ← reserve_heap (S (8 * length t.1)) m kernel pages bitmap_pages heap_pages t 0 (start / PAGE_SIZE) 0 0;
  k ← Kmm.new start reserved heap_pages;
  bm ← copy_bits (Z.to_nat (Z.min (4096 * 8 * 2) pages)) t (Bitmap.new pages) 0;
  low ← find_lowest (Z.to_nat pages) bm 0;
  _ ← kassert (low <? pages);
  fr ← clear_free (Z.to_nat (pages - low)) bm fr low;
  Val (PageManager.mkPM bm pages low fr, m, k).

(** ** The usage table *)

Definition table_bits (b : list Z) : Z := 8 * Z.of_nat (length b).

Lemma table_ok b : Forall is_byte b → table_bits b <= 2 ^ 40 → bitmap_ok (mkBitmap (table_bits b) (popcount b) b).
Proof.
  intros Hb Hl. split; simpl; [unfold table_bits in *; lia| |done|done].
  unfold BITMAP_BYTE_COUNT, bits_per_bitmap_atom_, table_bits.
  rewrite (Z.mul_comm 8), Z.mod_mul, Z.div_mul by done. simpl. lia.
Qed.

Lemma raw_set b k i : Forall is_byte b → table_bits b <= 2 ^ 40 → 0 <= i < table_bits b → 0 <= k < 2 ^ 63 →
  ∃ b', setBit_raw b k i = Val (b', if test_raw b i then k else k + 1, negb (test_raw b i)) ∧ Forall is_byte b' ∧
    length b' = length b ∧ ∀ j, 0 <= j → test_raw b' j = bool_decide (i = j) || test_raw b j.
Proof.
  intros Hb Hl Hi Hk. pose proof (table_ok b Hb Hl) as Hok. set (bm := mkBitmap (table_bits b) (popcount b) b) in *.
  destruct (setBit_in bm i Hok Hi) as (bm' & E & Hok' & Hs & _ & Ht).
  unfold Bitmap.setBit in E. rewrite (proj2 (Z.ltb_lt i (size_ bm)) (proj2 Hi)) in E. cbn [kassert mbind res_bind] in E.
  change (test bm) with (test_raw b) in E, Ht. change (bitmap_ bm) with b in E.
  assert (Hlen : length (bitmap_ bm') = length b).
  { pose proof (ok_length _ Hok') as E1. pose proof (ok_length _ Hok) as E2. rewrite Hs in E1. simpl in E2, E1. lia. }
  assert (Hbytes : Forall is_byte (bitmap_ bm')) by apply Hok'. change (test bm') with (test_raw (bitmap_ bm')) in Ht.
  unfold setBit_raw in E |- *. destruct (zget b _) as [x|e]; [|done]. cbn [mbind res_bind] in E |- *.
  destruct (Z.land x (MASK i) =? 0).
  - destruct (zset b _ _) as [b'|e]; [|done]. cbn [mbind res_bind] in E |- *. injection E as <- Et. simpl in *.
    exists b'. destruct (test_raw b i); [done|]. rewrite wrap_small by lia. by split_and!.
  - cbn [mbind res_bind] in E |- *. injection E as <- Et. simpl in *. exists b. destruct (test_raw b i); [|done]. by split_and!.
Qed.

Lemma raw_unset b k i : Forall is_byte b → table_bits b <= 2 ^ 40 → 0 <= i < table_bits b → (test_raw b i = true → 0 < k < 2 ^ 63) →
  ∃ b', unsetBit_raw b k i = Val (b', if test_raw b i then k - 1 else k, test_raw b i) ∧ Forall is_byte b' ∧
    length b' = length b ∧ ∀ j, 0 <= j → test_raw b' j = negb (bool_decide (i = j)) && test_raw b j.
Proof.
  intros Hb Hl Hi Hk. pose proof (table_ok b Hb Hl) as Hok. set (bm := mkBitmap (table_bits b) (popcount b) b) in *.
  destruct (unsetBit_in bm i Hok Hi) as (bm' & E & Hok' & Hs & _ & Ht).
  unfold Bitmap.unsetBit in E. rewrite (proj2 (Z.ltb_lt i (size_ bm)) (proj2 Hi)) in E. cbn [kassert mbind res_bind] in E.
  change (test bm) with (test_raw b) in E, Ht. change (bitmap_ bm) with b in E.
  assert (Hlen : length (bitmap_ bm') = length b).
  { pose proof (ok_length _ Hok') as E1. pose proof (ok_length _ Hok) as E2. rewrite Hs in E1. simpl in E2, E1. lia. }
  assert (Hbytes : Forall is_byte (bitmap_ bm')) by apply Hok'. change (test bm') with (test_raw (bitmap_ bm')) in Ht.
  unfold unsetBit_raw in E |- *. destruct (zget b _) as [x|e]; [|done]. cbn [mbind res_bind] in E |- *.
  destruct (negb (Z.land x (MASK i) =? 0)).
  - destruct (zset b _ _) as [b'|e]; [|done]. cbn [mbind res_bind] in E |- *. injection E as <- Et. simpl in *.
    exists b'. destruct (test_raw b i); [|done]. rewrite wrap_small by (specialize (Hk eq_refl); lia). by split_and!.
  - cbn [mbind res_bind] in E |- *. injection E as <- Et. simpl in *. exists b. destruct (test_raw b i); [done|]. by split_and!.
Qed.

(** The pages that are used, and how many they are. *)
Definition used_list (n : Z) (b : list Z) : list Z := filter (λ p, test_raw b p = true) (seqZ 0 n).

Record holds (n : Z) (t : usage) (U : Z → Prop) : Prop := {
  ho_pages : 0 <= n <= 65536;
  ho_bytes : Forall is_byte t.1;
  ho_length : n <= table_bits t.1 <= 65536;
  ho_used p : 0 <= p < n → test_raw t.1 p = true ↔ U p;
  ho_count : t.2 = Z.of_nat (length (used_list n t.1));
}.

Lemma used_list_elem n b p : p ∈ used_list n b ↔ (0 <= p < n) ∧ test_raw b p = true.
Proof. unfold used_list. rewrite list_elem_of_filter, elem_of_seqZ. naive_solver lia. Qed.

Lemma used_list_nodup n b : NoDup (used_list n b).
Proof. apply NoDup_filter, NoDup_seqZ. Qed.

Lemma same_length (l k : list Z) : NoDup l → NoDup k → (∀ x, x ∈ l ↔ x ∈ k) → length l = length k.
Proof. intros Hl Hk He. apply Permutation_length, NoDup_Permutation; done. Qed.

Lemma holds_count n t U (l : list Z) : holds n t U → NoDup l → (∀ p, p ∈ l ↔ 0 <= p < n ∧ U p) → t.2 = Z.of_nat (length l).
Proof.
  intros Ht Hl He. rewrite (ho_count _ _ _ Ht). f_equal. apply same_length; [apply used_list_nodup|done|].
  intros p. rewrite used_list_elem, He. split; intros [Hp Hu]; (split; [done|]); by apply (ho_used _ _ _ Ht).
Qed.

Lemma holds_iff n t U V : holds n t U → (∀ p, 0 <= p < n → U p ↔ V p) → holds n t V.
Proof. intros [] He. split; try done. intros p Hp. rewrite <- He by done. auto. Qed.

Lemma holds_bound n t U : holds n t U → 0 <= t.2 <= n.
Proof.
  intros Ht. rewrite (ho_count _ _ _ Ht). pose proof (length_filter (λ p, test_raw t.1 p = true) (seqZ 0 n)) as Hf.
  rewrite length_seqZ in Hf. pose proof (ho_pages _ _ _ Ht). unfold used_list. lia.
Qed.

Lemma set_used n t U i : holds n t U → 0 <= i < n →
  ∃ t' fresh, setBit t i = Val (t', fresh) ∧ (fresh = true ↔ ¬ U i) ∧ (fresh = true → t'.2 = t.2 + 1) ∧ holds n t' (λ p, U p ∨ p = i).
Proof.
  intros Ht Hi. pose proof (holds_bound _ _ _ Ht) as Hc. pose proof Ht as [Hn Hb Hl Hu Hcount].
  destruct (raw_set t.1 t.2 i) as (b' & E & Hb' & Hl' & Htest); [done|lia|lia|lia|].
  unfold setBit. rewrite E. cbn [mbind res_bind]. do 2 eexists. split; [done|].
  split; [rewrite <- (Hu i Hi); by destruct (test_raw t.1 i)|].
  split; [simpl; by destruct (test_raw t.1 i)|]. unfold table_bits in *. split; simpl; unfold table_bits.
  - done.
  - done.
  - lia.
  - intros p Hp. rewrite Htest, <- Hu by lia. case_bool_decide; simpl; naive_solver.
  - destruct (test_raw t.1 i) eqn:Ei.
    + rewrite Hcount. f_equal. apply same_length; [apply used_list_nodup..|]. intros p. rewrite !used_list_elem.
      split; intros [Hp Hx]; (split; [done|]); rewrite Htest in * by lia; case_bool_decide; simpl in *; subst; done.
    + rewrite Hcount. replace (_ + 1) with (Z.of_nat (length (i :: used_list n t.1))) by (simpl; lia). f_equal.
      apply same_length; [|apply used_list_nodup|].
      * constructor; [|apply used_list_nodup]. rewrite used_list_elem, Ei. by intros [_ ?].
      * intros p. rewrite elem_of_cons, !used_list_elem. split.
        -- intros [->|[Hp Hx]]; (split; [done|]); rewrite Htest by lia; case_bool_decide; simpl; done.
        -- intros [Hp Hx]. rewrite Htest in Hx by lia. case_bool_decide; [by left|]. simpl in Hx. by right.
Qed.

Lemma unset_used n t U i : holds n t U → 0 <= i < n →
  ∃ t', unsetBit t i = Val t' ∧ holds n t' (λ p, U p ∧ p ≠ i).
Proof.
  intros Ht Hi. pose proof (holds_bound _ _ _ Ht) as Hc. pose proof Ht as [Hn Hb Hl Hu Hcount].
  assert (Hin : test_raw t.1 i = true → 0 < t.2).
  { intros Ei. rewrite Hcount. assert (i ∈ used_list n t.1) as Hx by (by apply used_list_elem). destruct (used_list n t.1); [by apply not_elem_of_nil in Hx|simpl; lia]. }
  destruct (raw_unset t.1 t.2 i) as (b' & E & Hb' & Hl' & Htest); [done|lia|lia|intros Ei; specialize (Hin Ei); lia|].
  unfold unsetBit. rewrite E. cbn [mbind res_bind]. eexists. split; [done|]. unfold table_bits in *. split; simpl; unfold table_bits.
  - done.
  - done.
  - lia.
  - intros p Hp. rewrite Htest, <- Hu by lia. case_bool_decide; simpl; naive_solver.
  - destruct (test_raw t.1 i) eqn:Ei.
    + enough (t.2 = Z.of_nat (length (i :: used_list n b'))) as -> by (simpl; lia). rewrite Hcount. f_equal.
      apply same_length; [apply used_list_nodup| |].
      * constructor; [|apply used_list_nodup]. rewrite used_list_elem, Htest by lia. rewrite bool_decide_true by done. by intros [_ ?].
      * intros p. rewrite elem_of_cons, !used_list_elem. split.
        -- intros [Hp Hx]. destruct (decide (p = i)) as [->|Hne]; [by left|right]. split; [done|]. rewrite Htest, bool_decide_false by (done || lia). done.
        -- intros [->|[Hp Hx]]; [done|]. split; [done|]. rewrite Htest in Hx by lia. by apply andb_true_iff in Hx as [_ ?].
    + rewrite Hcount. f_equal. apply same_length; [apply used_list_nodup..|]. intros p. rewrite !used_list_elem.
      split; intros [Hp Hx]; (split; [done|]); rewrite Htest in * by lia; case_bool_decide; simpl in *; subst; done || congruence.
Qed.

(** ** The loops over the memory map *)

(** The whole pages of the usable regions. *)
Definition usable (l : list region) (p : Z) : Prop :=
  ∃ r, r ∈ l ∧ type r = 1 ∧ start_address r / PAGE_SIZE <= p < end_address r / PAGE_SIZE.

Lemma free_pages_frees n N : ∀ t k U, holds N t U → 0 <= k → k + Z.of_nat n <= N →
  ∃ t', free_pages n t k = Val t' ∧ holds N t' (λ p, U p ∧ ¬ (k <= p < k + Z.of_nat n)).
Proof.
  induction n as [|n IH]; intros t k U Ht Hk Hn.
  { exists t. split; [done|]. eapply holds_iff; [done|]. intros. split; [intros; split; [done|lia]|by intros [? _]]. }
  cbn [free_pages]. destruct (unset_used N t U k Ht) as (t1 & -> & Ht1); [lia|]. cbn [mbind res_bind].
  destruct (IH t1 (k + 1) _ Ht1) as (t2 & -> & Ht2); [lia|lia|]. exists t2. split; [done|].
  eapply holds_iff; [done|]. intros p Hp. simpl. split.
  - intros [[Hu Hne] Hr]. split; [done|lia].
  - intros [Hu Hr]. split_and!; [done|lia|lia].
Qed.

Lemma free_regions_frees N l : ∀ t U, holds N t U → Forall (λ r, 0 <= start_address r) l →
  ∃ t', free_regions N t l = Val t' ∧ holds N t' (λ p, U p ∧ ¬ usable l p).
Proof.
  induction l as [|r l IH]; intros t U Ht Hl.
  { exists t. split; [done|]. eapply holds_iff; [done|]. intros. split; [|by intros [? _]].
    intros Hu. split; [done|]. intros (r & Hr & _). by apply not_elem_of_nil in Hr. }
  inversion_clear Hl as [|? ? Hr Hl']. cbn [free_regions].
  assert (Hstep : ∃ t1, (if negb (type r =? 1) then Val t
      else free_pages (Z.to_nat (Z.min (end_address r / PAGE_SIZE) N - start_address r / PAGE_SIZE)) t (start_address r / PAGE_SIZE)) = Val t1 ∧
      holds N t1 (λ p, U p ∧ ¬ (type r = 1 ∧ start_address r / PAGE_SIZE <= p < end_address r / PAGE_SIZE))).
  { pose proof (ho_pages _ _ _ Ht) as HN. destruct (Z.eqb_spec (type r) 1) as [Er|Er]; cbn [negb].
    - assert (0 <= start_address r / PAGE_SIZE) by (apply Z.div_pos; [done|reflexivity]).
      destruct (decide (start_address r / PAGE_SIZE <= Z.min (end_address r / PAGE_SIZE) N)) as [Hle|Hgt].
      + destruct (free_pages_frees (Z.to_nat (Z.min (end_address r / PAGE_SIZE) N - start_address r / PAGE_SIZE)) N t (start_address r / PAGE_SIZE) U Ht)
          as (t1 & E & Ht1); [done|lia|]. exists t1. split; [done|]. eapply holds_iff; [done|]. intros p Hp. simpl.
        split; (intros [Hu Hx]; split; [done|]); [intros [_ ?]|intros ?]; apply Hx; [lia|split; [done|lia]].
      + replace (Z.to_nat _) with 0%nat by lia. exists t. split; [done|]. eapply holds_iff; [done|]. intros p Hp. simpl.
        split; [intros Hu; split; [done|]; intros [_ ?]; lia|by intros [? _]].
    - exists t. split; [done|]. eapply holds_iff; [done|]. intros p Hp. simpl. split; [intros Hu; by split; [|intros [? _]]|by intros [? _]]. }
  destruct Hstep as (t1 & -> & Ht1). cbn [mbind res_bind].
  destruct (IH t1 _ Ht1 Hl') as (t2 & -> & Ht2). exists t2. split; [done|]. eapply holds_iff; [done|]. intros p Hp. simpl. split.
  - intros [[Hu Hx] Hy]. split; [done|]. intros (r' & [->|Hr']%elem_of_cons & Hz); [by apply Hx|apply Hy; by exists r'].
  - intros [Hu Hx]. split_and!; [done|..]; [intros Hz|intros (r' & Hr' & Hz)]; apply Hx; [exists r|exists r']; (split; [|done]); [by left|by right].
Qed.

Lemma reserve_frames_reserves n N : ∀ t q U, holds N t U → 0 <= q →
  ∃ t', reserve_frames n N t q = Val t' ∧ holds N t' (λ p, U p ∨ q <= p < q + Z.of_nat n).
Proof.
  induction n as [|n IH]; intros t q U Ht Hq.
  { exists t. split; [done|]. eapply holds_iff; [done|]. intros. split; [by left|intros [?|?]; [done|lia]]. }
  cbn [reserve_frames]. destruct (Z.ltb_spec q N) as [Hlt|Hge].
  - destruct (set_used N t U q Ht) as (t1 & fresh & -> & _ & _ & Ht1); [lia|]. cbn [mbind res_bind].
    destruct (IH t1 (q + 1) _ Ht1) as (t2 & -> & Ht2); [lia|]. exists t2. split; [done|]. eapply holds_iff; [done|]. intros p Hp. simpl.
    split; [intros [[?| ->]|?]; [by left|right; lia|right; lia]|]. intros [?|Hr]; [by left; left|]. destruct (decide (p = q)) as [->|]; [left; by right|right; lia].
  - cbn [mbind res_bind]. destruct (IH t (q + 1) _ Ht) as (t2 & -> & Ht2); [lia|]. exists t2. split; [done|]. eapply holds_iff; [done|].
    intros p Hp. simpl. split; (intros [?|?]; [by left|lia]).
Qed.

Section space.
Context (im : image).
Implicit Types m : Mem Z.

Let pml4 := kernel_page_map_level_4 im.

(** The physical page [p] is used because of the page [w] of the last GiB: it is
    mapped there, or it holds the page table, for every second table. *)
Definition marks m (w p : Z) : Prop :=
  let '(size, q, table) := view im m w in
  (size = PAGE_SIZE ∧ (p = q ∨ w mod 1024 = 0 ∧ p = table)) ∨
  (size = PAGE_SIZE * PAGE_TABLE_ENTRIES ∧ q * 512 <= p < q * 512 + 512).

Lemma field_nonneg lo w e : 0 <= w → 0 <= field lo w e.
Proof. intros Hw. apply Z.land_nonneg. right. rewrite Z.ones_equiv. pose proof (Z.pow_pos_nonneg 2 w). lia. Qed.

Lemma view_cases m w : space_ok im m → image_ok im → 0 <= w →
  (view im m w).1.1 = 0 ∨ (∃ q table, view im m w = (PAGE_SIZE, q, table) ∧ 0 <= q ∧ 0 <= table) ∨
  ∃ q, 0 <= q ∧ ∀ w', w' / 512 = w / 512 → view im m w' = (PAGE_SIZE * PAGE_TABLE_ENTRIES, q, 0).
Proof.
  intros Hs Him Hw. unfold view. destruct (Z.ltb_spec (w / 512) 8).
  - cbv zeta. destruct (present _); [|by left]. right; left. do 2 eexists. split; [done|]. split; [by apply field_nonneg|].
    pose proof (im_range _ Him (kernel_page_table im + w / 512)) as Hr. assert (0 <= w / 512) by (apply Z.div_pos; lia). lia.
  - cbv zeta. destruct (present (ent m (kernel_page_directory im + 1) (w / 512))) eqn:E; [|by left].
    right; right. exists (page_ppn_2m (ent m (kernel_page_directory im + 1) (w / 512))). split; [by apply field_nonneg|].
    intros w' ->. rewrite (proj2 (Z.ltb_ge _ _)) by done. by rewrite E.
Qed.

Lemma reserve_kernel_reserves N m : space_ok im m → image_ok im → ∀ fuel t U w, holds N t U → 0 <= w <= 0x40000 →
  0x40000 - w <= Z.of_nat fuel → ((view im m w).1.1 = PAGE_SIZE * PAGE_TABLE_ENTRIES → w mod 512 = 0) →
  ∃ t', reserve_kernel fuel m pml4 N t (RESERVED_START + w) = Val t' ∧
    holds N t' (λ p, U p ∨ ∃ w', w <= w' < 0x40000 ∧ marks m w' p).
Proof.
  intros Hs Him. induction fuel as [|fuel IH]; intros t U w Ht Hw Hf Hal; cbn [reserve_kernel].
  - rewrite (proj2 (Z.ltb_ge _ _)) by (unfold RESERVED_START, RESERVED_END; lia). exists t. split; [done|].
    eapply holds_iff; [done|]. intros. split; [by left|intros [?|(w' & ? & _)]; [done|lia]].
  - destruct (decide (w = 0x40000)) as [->|Hne].
    { rewrite (proj2 (Z.ltb_ge _ _)) by (unfold RESERVED_START, RESERVED_END; lia). exists t. split; [done|].
      eapply holds_iff; [done|]. intros. split; [by left|intros [?|(w' & ? & _)]; [done|lia]]. }
    rewrite (proj2 (Z.ltb_lt _ _)) by (unfold RESERVED_START, RESERVED_END; lia).
    pose proof (window_lookup im m w Hs ltac:(lia)) as El. fold pml4 in El. rewrite El. cbn [mbind res_bind]. clear El.
    assert (Haligned : ∀ q, (∀ w', w' / 512 = w / 512 → view im m w' = (PAGE_SIZE * PAGE_TABLE_ENTRIES, q, 0)) → w mod 512 = 0).
    { intros q Hq. apply Hal. by rewrite (Hq w eq_refl). }
    assert (Hnext : ∀ w1, w < w1 → w1 <= 0x40000 → (w1 mod 512 = 0 ∨ w1 = w + 1 ∧ (view im m w).1.1 ≠ PAGE_SIZE * PAGE_TABLE_ENTRIES) →
      (view im m w1).1.1 = PAGE_SIZE * PAGE_TABLE_ENTRIES → w1 mod 512 = 0).
    { intros w1 H1 H2 [?|[-> Hn]] Hv; [done|]. destruct (view_cases m (w + 1) Hs Him) as [E|[(q & tb & E & _)|(q & _ & E)]]; [lia|by rewrite E in Hv|by rewrite E in Hv|].
      destruct (decide ((w + 1) mod 512 = 0)) as [|Hm]; [done|]. exfalso. apply Hn.
      rewrite (E w); [done|]. Z.to_euclidean_division_equations; lia. }
    destruct (view_cases m w Hs Him) as [E|[(q & tb & E & Hq & Htb)|(q & Hq & E)]]; [lia|..].
    + destruct (view im m w) as [[sz q] tb] eqn:Ev. simpl in E. subst sz. cbn [Z.eqb orb kassert mbind res_bind Z.ltb Z.compare].
      destruct (IH t U (w + 1) Ht) as (t' & E' & Ht'); [lia|lia|apply Hnext; [lia|lia|by right]|].
      exists t'. split; [rewrite <- E'; f_equal; lia|]. eapply holds_iff; [done|]. intros p Hp. simpl. split.
      * intros [?|(w' & ? & ?)]; [by left|right]. exists w'. split; [lia|done].
      * intros [?|(w' & Hw' & Hmk)]; [by left|right]. exists w'. split; [|done]. destruct (decide (w' = w)) as [->|]; [|lia].
        unfold marks in Hmk. rewrite Ev in Hmk. by destruct Hmk as [[? _]|[? _]].
    + rewrite E. change ((PAGE_SIZE =? 0) || (PAGE_SIZE =? PAGE_SIZE) || (PAGE_SIZE =? PAGE_SIZE * PAGE_TABLE_ENTRIES)) with true.
      change (0 <? PAGE_SIZE) with true. change (PAGE_SIZE / PAGE_SIZE) with 1. change (Z.to_nat 1) with 1%nat. cbn [kassert mbind res_bind]. cbv iota.
      rewrite Z.mul_1_r. destruct (reserve_frames_reserves 1 N t q U Ht Hq) as (t1 & -> & Ht1). cbn [mbind res_bind].
      change (1 =? 1) with true. replace (RESERVED_START + w + (1 - 1)) with (RESERVED_START + w) by lia.
      replace ((RESERVED_START + w) mod 1024) with (w mod 1024) by (unfold RESERVED_START; Z.to_euclidean_division_equations; lia). cbn [andb].
      assert (Hstep : ∃ t2, (if (w mod 1024 =? 0) && (tb <? N) then '(t, _) ← setBit t1 tb; Val t else Val t1) = Val t2 ∧
        holds N t2 (λ p, U p ∨ marks m w p)).
      { destruct ((w mod 1024 =? 0) && (tb <? N)) eqn:Ec.
        - apply andb_true_iff in Ec as [Hm%Z.eqb_eq Hlt%Z.ltb_lt].
          destruct (set_used N t1 _ tb Ht1) as (t2 & fresh & -> & _ & _ & Ht2); [lia|]. exists t2. split; [done|].
          eapply holds_iff; [done|]. intros p Hp. unfold marks. rewrite E. simpl. split.
          + intros [[?|?]| ->]; [by left|right; left; split; [done|left; lia]|right; left; split; [done|by right]].
          + intros [?|[[_ [->|[_ ->]]]|[? _]]]; [left; by left|left; right; lia|by right|done].
        - exists t1. split; [done|]. eapply holds_iff; [done|]. intros p Hp. unfold marks. rewrite E. simpl. split.
          + intros [?|?]; [by left|right; left; split; [done|left; lia]].
          + intros [?|[[_ [->|[Hm ->]]]|[? _]]]; [by left|right; lia| |done].
            apply andb_false_iff in Ec as [Hc%Z.eqb_neq|Hc%Z.ltb_ge]; [done|lia]. }
      destruct Hstep as (t2 & -> & Ht2). cbn [mbind res_bind].
      destruct (IH t2 _ (w + 1) Ht2) as (t' & E' & Ht'); [lia|lia|apply Hnext; [lia|lia|right; by rewrite E]|].
      exists t'. split; [rewrite <- E'; f_equal; lia|]. eapply holds_iff; [done|]. intros p Hp. simpl. split.
      * intros [[?|?]|(w' & ? & ?)]; [by left|right; exists w; split; [lia|done]|right; exists w'; split; [lia|done]].
      * intros [?|(w' & Hw' & Hmk)]; [left; by left|]. destruct (decide (w' = w)) as [->|]; [left; by right|right; exists w'; split; [lia|done]].
    + rewrite (E w eq_refl). change ((PAGE_SIZE * PAGE_TABLE_ENTRIES =? 0) || (PAGE_SIZE * PAGE_TABLE_ENTRIES =? PAGE_SIZE) ||
        (PAGE_SIZE * PAGE_TABLE_ENTRIES =? PAGE_SIZE * PAGE_TABLE_ENTRIES)) with true.
      change (0 <? PAGE_SIZE * PAGE_TABLE_ENTRIES) with true. change (PAGE_SIZE * PAGE_TABLE_ENTRIES / PAGE_SIZE) with 512. cbn [kassert mbind res_bind]. cbv iota.
      destruct (reserve_frames_reserves (Z.to_nat 512) N t (q * 512) U Ht) as (t1 & -> & Ht1); [lia|]. cbn [mbind res_bind].
      change (512 =? 1) with false. cbn [andb mbind res_bind].
      pose proof (Haligned q E) as Hm. assert (Hw5 : w + 512 <= 0x40000) by (Z.to_euclidean_division_equations; lia).
      destruct (IH t1 _ (w + 512) Ht1) as (t' & E' & Ht'); [lia|lia|apply Hnext; [lia|lia|left; Z.to_euclidean_division_equations; lia]|].
      exists t'. split; [rewrite <- E'; f_equal; lia|]. eapply holds_iff; [done|]. intros p Hp. simpl. change (Z.of_nat (Z.to_nat 512)) with 512.
      assert (Hmk : ∀ w', w <= w' < w + 512 → marks m w' p ↔ q * 512 <= p < q * 512 + 512).
      { intros w' Hw'. unfold marks. rewrite E by (Z.to_euclidean_division_equations; lia). split; [intros [[? _]|[_ ?]]; done|by right]. }
      split.
      * intros [[?|?]|(w' & ? & ?)]; [by left|right; exists w; split; [lia|apply (Hmk w); [lia|done]]|right; exists w'; split; [lia|done]].
      * intros [?|(w' & Hw' & Hx)]; [left; by left|]. destruct (decide (w' < w + 512)) as [Hc|].
        -- left. right. apply Hmk in Hx; [done|lia].
        -- right. exists w'. split; [lia|done].
Qed.

(** ** The modules and the heap *)

Definition mapped m (w : Z) : Prop := (view im m w).1.1 ≠ 0.

(** The steps that map pages change nothing that was mapped. *)
Record retains (N : Z) m m' : Prop := {
  ke_space : space_ok im m';
  ke_source : source m' = N;
  ke_view w : 0 <= w < 0x40000 → mapped m w → view im m' w = view im m w;
}.

Lemma retains_trans N m1 m2 m3 : retains N m1 m2 → retains N m2 m3 → retains N m1 m3.
Proof.
  intros [S1 E1 V1] [S2 E2 V2]. split; [done..|]. intros w Hw Hm. rewrite <- V1 by done. apply V2; [done|].
  unfold mapped. by rewrite V1.
Qed.

Lemma retains_mapped N m m' w : retains N m m' → 0 <= w < 0x40000 → mapped m w → mapped m' w.
Proof. intros [_ _ V] Hw Hm. unfold mapped. by rewrite V. Qed.

Lemma map_retains N m w q : image_ok im → space_ok im m → source m = N → N <= 65536 → 0 <= w < 4096 → ¬ mapped m w → 0 <= q < N →
  ∃ m', mapKernelPage m pml4 (RESERVED_START + w) q = Val m' ∧ retains N m m' ∧ view im m' w = (PAGE_SIZE, q, kernel_page_table im + w / 512) ∧
    ∀ w', 0 <= w' < 0x40000 → mapped m' w' ↔ mapped m w' ∨ w' = w.
Proof.
  intros Him Hs <- Hn Hw Hm Hq. assert (Hv : (view im m w).1.1 = 0) by (unfold mapped in Hm; lia).
  destruct (window_maps im m w q Him Hs ltac:(lia) Hw Hv Hq) as (m' & E & Hs' & Es & Ev & Eo). exists m'. split; [done|].
  split; [split; [done..|]; intros w' Hw' Hm'; apply Eo; [done|by intros ->]|]. split; [done|].
  intros w' Hw'. unfold mapped. destruct (decide (w' = w)) as [->|Hne]; [rewrite Ev; split; [by right|done]|].
  rewrite Eo by done. split; [by left|]. by intros [?|?].
Qed.

Lemma reserve_pages_reserves n N : image_ok im → ∀ m t k U, holds N t U → space_ok im m → source m = N →
  0 <= k → k + Z.of_nat n <= N → k + Z.of_nat n <= 4096 →
  ∃ m' t', reserve_pages n m pml4 t k = Val (m', t') ∧ holds N t' (λ p, U p ∨ k <= p < k + Z.of_nat n) ∧ retains N m m' ∧
    ∀ w, 0 <= w < 0x40000 → mapped m' w ↔ mapped m w ∨ k <= w < k + Z.of_nat n.
Proof.
  intros Him. induction n as [|n IH]; intros m t k U Ht Hs Hn Hk H1 H2.
  { exists m, t. split; [done|]. split; [eapply holds_iff; [done|]; intros; split; [by left|intros [?|?]; [done|lia]]|].
    split; [by split|]. intros. split; [by left|intros [?|?]; [done|lia]]. }
  cbn [reserve_pages]. destruct (set_used N t U k Ht) as (t1 & fresh & -> & _ & _ & Ht1); [lia|]. cbn [mbind res_bind].
  change (PHYSICAL_TO_VIRTUAL_OFFSET / PAGE_SIZE) with RESERVED_START.
  pose proof (window_lookup im m k Hs ltac:(lia)) as El. fold pml4 in El. rewrite El. clear El. cbn [mbind res_bind].
  assert (Hstep : ∃ m1, (if (view im m k).1.1 =? 0 then mapKernelPage m pml4 (RESERVED_START + k) k else Val m) = Val m1 ∧ retains N m m1 ∧
    ∀ w, 0 <= w < 0x40000 → mapped m1 w ↔ mapped m w ∨ w = k).
  { destruct (Z.eqb_spec (view im m k).1.1 0) as [E|E].
    - destruct (map_retains N m k k Him Hs Hn) as (m1 & E1 & K1 & _ & M1); [apply Ht|lia|unfold mapped; lia|lia|]. exists m1. by split_and!.
    - exists m. split; [done|]. split; [by split|]. intros w Hw. split; [by left|]. intros [?| ->]; done. }
  destruct Hstep as (m1 & E1 & K1 & M1). destruct (view im m k) as [[sz q] tb]. cbn [fst] in E1. rewrite E1. cbn [mbind res_bind].
  destruct (IH m1 t1 (k + 1) _ Ht1) as (m2 & t2 & -> & Ht2 & K2 & M2); [apply K1|apply K1|lia|lia|lia|].
  exists m2, t2. split; [done|]. split; [|split; [by eapply retains_trans|]].
  - eapply holds_iff; [done|]. intros p Hp. simpl. split; [intros [[?| ->]|?]; [by left|right; lia|right; lia]|].
    intros [?|Hr]; [by left; left|]. destruct (decide (p = k)) as [->|]; [left; by right|right; lia].
  - intros w Hw. rewrite M2, M1 by done. split; [intros [[?| ->]|?]; [by left|right; lia|right; lia]|].
    intros [?|Hr]; [by left; left|]. destruct (decide (w = k)) as [->|]; [left; by right|right; lia].
Qed.

(** The pages of a module. *)
Definition first_page (x : module_map) : Z := Z.land (getModuleStartAddress x) 0x7FFFFFFF / PAGE_SIZE.
Definition last_page (x : module_map) : Z := Z.land (getModuleEndAddress x) 0x7FFFFFFF / PAGE_SIZE.
Definition in_module (N : Z) (l : list module_map) (p : Z) : Prop := ∃ x, x ∈ l ∧ first_page x <= p <= last_page x ∧ p < N.

Lemma reserve_modules_reserves N l : image_ok im → 0 < N → Forall (λ x, last_page x < 4096) l → ∀ m t U,
  holds N t U → space_ok im m → source m = N →
  ∃ m' t', reserve_modules m pml4 N t l = Val (m', t') ∧ holds N t' (λ p, U p ∨ in_module N l p) ∧ retains N m m' ∧
    ∀ w, 0 <= w < 0x40000 → mapped m' w ↔ mapped m w ∨ in_module N l w.
Proof.
  intros Him HN. induction l as [|x l IH]; intros Hl m t U Ht Hs Hn.
  { assert (Hno : ∀ p, ¬ in_module N [] p) by (intros p (x & Hx & _); by apply not_elem_of_nil in Hx).
    exists m, t. split; [done|]. split; [eapply holds_iff; [done|]; intros p Hp; specialize (Hno p); tauto|].
    split; [by split|]. intros w Hw. specialize (Hno w). tauto. }
  inversion_clear Hl as [|? ? Hx Hl']. cbn [reserve_modules]. fold (first_page x) (last_page x).
  pose proof (ho_pages _ _ _ Ht) as HN'. rewrite (wrap_small 32 (N - 1)) by lia.
  assert (H0 : 0 <= first_page x) by (unfold first_page; apply Z.div_pos; [apply Z.land_nonneg; by right|reflexivity]).
  assert (Hcons : ∀ p, 0 <= p → in_module N (x :: l) p ↔ (first_page x <= p <= last_page x ∧ p < N) ∨ in_module N l p).
  { intros p Hp. unfold in_module. split.
    - intros (y & [->|Hy]%elem_of_cons & Hr); [by left|right; by exists y].
    - intros [Hr|(y & Hy & Hr)]; [exists x; split; [by left|done]|exists y; split; [by right|done]]. }
  set (k := Z.min (first_page x) N). set (c := Z.min (last_page x) (N - 1) + 1 - k).
  assert (Hrange : ∀ p, 0 <= p → k <= p < k + Z.of_nat (Z.to_nat c) ↔ first_page x <= p <= last_page x ∧ p < N) by (intros p Hp; unfold c, k; lia).
  destruct (decide (0 <= c)) as [Hc|Hc].
  - destruct (reserve_pages_reserves (Z.to_nat c) N Him m t k U Ht Hs Hn) as (m1 & t1 & -> & Ht1 & K1 & M1); [lia|lia|lia|].
    cbn [mbind res_bind]. destruct (IH Hl' m1 t1 _ Ht1) as (m2 & t2 & -> & Ht2 & K2 & M2); [apply K1|apply K1|].
    exists m2, t2. split; [done|]. split; [|split; [by eapply retains_trans|]].
    + eapply holds_iff; [done|]. intros p Hp. simpl. rewrite Hcons, Hrange by lia. tauto.
    + intros w Hw. rewrite M2, M1, Hcons, Hrange by lia. tauto.
  - replace (Z.to_nat c) with 0%nat in * by lia. cbn [reserve_pages mbind res_bind].
    destruct (IH Hl' m t _ Ht Hs Hn) as (m2 & t2 & -> & Ht2 & K2 & M2).
    exists m2, t2. split; [done|]. split; [|split; [done|]].
    + eapply holds_iff; [done|]. intros p Hp. simpl. rewrite Hcons by lia. specialize (Hrange p). split; [tauto|].
      intros [?|[Hr|?]]; [by left| |by right]. lia.
    + intros w Hw. rewrite M2, Hcons by lia. specialize (Hrange w). split; [tauto|]. intros [?|[Hr|?]]; [by left| |by right]. lia.
Qed.

Lemma exists_free N t U : holds N t U → t.2 < N → ∃ q, 0 <= q < N ∧ ¬ U q.
Proof.
  intros Ht Hc. destruct (decide (Exists (λ p, test_raw t.1 p = false) (seqZ 0 N))) as [He|Hn].
  - apply Exists_exists in He as (q & Hq%elem_of_seqZ & Ef). exists q. split; [lia|]. rewrite <- (ho_used _ _ _ Ht q) by lia. by rewrite Ef.
  - exfalso. apply not_Exists_Forall in Hn; [|intros; apply _]. rewrite (ho_count _ _ _ Ht) in Hc.
    rewrite (same_length (used_list N t.1) (seqZ 0 N)) in Hc; [rewrite length_seqZ in Hc; lia|apply used_list_nodup|apply NoDup_seqZ|].
    intros x. rewrite used_list_elem, elem_of_seqZ. split; [lia|]. intros Hx. split; [lia|].
    rewrite Forall_forall in Hn. specialize (Hn x). rewrite elem_of_seqZ in Hn. specialize (Hn Hx). simpl in Hn. by destruct (test_raw t.1 x).
Qed.

(** The lowest free page from [p] on is taken. *)
Lemma take_page_takes N q0 : ∀ fuel t U p, holds N t U → 0 <= p <= q0 → q0 < N → ¬ U q0 → q0 - p < Z.of_nat fuel →
  ∃ t' q, take_page fuel t p = Val (t', q) ∧ p <= q < N ∧ ¬ U q ∧ (∀ p', p <= p' < q → U p') ∧ t'.2 = t.2 + 1 ∧
    holds N t' (λ p', U p' ∨ p' = q).
Proof.
  induction fuel as [|fuel IH]; intros t U p Ht Hp Hq Hu Hf; [lia|]. cbn [take_page].
  destruct (set_used N t U p Ht) as (t1 & fresh & -> & Hfr & Hc & Ht1); [lia|]. cbn [mbind res_bind]. destruct fresh.
  - exists t1, p. split; [done|]. split; [lia|]. split; [by apply Hfr|]. split; [lia|]. split; [by apply Hc|done].
  - assert (Hup : U p). { rewrite <- (ho_used _ _ _ Ht p) by lia. destruct (test_raw t.1 p) eqn:E; [done|]. exfalso.
      assert (¬ U p) as Hn by (rewrite <- (ho_used _ _ _ Ht p) by lia; by rewrite E). by apply Hfr in Hn. }
    assert (Hne : p ≠ q0) by (by intros ->).
    assert (Ht1' : holds N t1 U) by (eapply holds_iff; [exact Ht1|]; intros p' Hp'; simpl; split; [intros [?| ->]; done|by left]).
    destruct (IH t1 U (p + 1) Ht1') as (t2 & q & E & Hr & Hnu & Hbelow & Hcount & Ht2); [lia|done|done|lia|].
    exists t2, q. split; [done|]. split; [lia|]. split; [done|]. split; [|split; [|done]].
    + intros p' Hp'. destruct (decide (p' = p)) as [->|]; [done|]. apply Hbelow. lia.
    + rewrite Hcount, (ho_count _ _ _ Ht1'), (ho_count _ _ _ Ht). f_equal. f_equal. apply same_length; [apply used_list_nodup..|].
      intros x. rewrite !used_list_elem. split; intros [Hx Hy]; (split; [done|]);
        [apply (ho_used _ _ _ Ht x Hx), (ho_used _ _ _ Ht1' x Hx)|apply (ho_used _ _ _ Ht1' x Hx), (ho_used _ _ _ Ht x Hx)]; done.
Qed.

(** The lowest pages that [U] leaves free. *)
Record lowest_free (N : Z) (U : Z → Prop) (T : list Z) : Prop := {
  lf_distinct : NoDup T;
  lf_free p : p ∈ T → 0 <= p < N ∧ ¬ U p;
  lf_lowest p q : p ∈ T → 0 <= q < N → ¬ U q → q ∉ T → p < q;
}.

(** The loop for the heap: [need] turns, and as many as it takes to leave the
    [a] pages behind that were mapped at the heap's start. *)
Lemma reserve_heap_reserves N bitmap_pages heap_pages W a : image_ok im → 0 <= W → 0 <= a →
  let need := Z.max bitmap_pages (if N <? 512 then 0 else heap_pages) in
  let c := Z.max need (a + 1) in 0 < need → W + c <= 4096 →
  ∀ r fuel m t U free temp num, holds N t U → (∀ p, 0 <= p < free → U p) → 0 <= free → space_ok im m → source m = N →
  (∀ w, W + num <= w < 4096 → mapped m w ↔ w < W + a) →
  (temp ≠ 0 ↔ 0 < num ∧ num - 1 < a) → 0 <= num → num + Z.of_nat r = c → Z.of_nat r <= N - t.2 → (r < fuel)%nat →
  ∃ m' t' T, reserve_heap fuel m pml4 N bitmap_pages heap_pages t free (RESERVED_START + (W + num)) temp num = Val (m', t', c) ∧
    length T = r ∧ lowest_free N U T ∧ holds N t' (λ p, U p ∨ p ∈ T) ∧ retains N m m' ∧ ∀ w, W + num <= w < W + c → mapped m' w.
Proof.
  intros Him HW Ha need c Hneed Hwin. induction r as [|r IH]; intros fuel m t U free temp num Ht Hfree Hf0 Hs Hn Hmap Htemp Hnum Hr Hroom Hfuel.
  - destruct fuel as [|fuel]; [lia|]. cbn [reserve_heap].
    assert (Hstop : (num <? bitmap_pages) || negb (temp =? 0) || (num <? (if DYNAMIC_KMM || (N <? 512) then 0 else heap_pages)) = false).
    { apply orb_false_iff. split; [apply orb_false_iff; split|]; cbn [DYNAMIC_KMM orb].
      - apply Z.ltb_ge. lia.
      - apply negb_false_iff, Z.eqb_eq. destruct (decide (temp = 0)) as [|Hne]; [done|]. apply Htemp in Hne. lia.
      - apply Z.ltb_ge. lia. }
    rewrite Hstop. replace num with c by lia. exists m, t, []. split; [done|]. split; [done|]. split.
    { split; [by apply NoDup_nil|..]; intros p; [|intros q]; intros Hp; by apply not_elem_of_nil in Hp. }
    split; [eapply holds_iff; [done|]; intros p Hp; split; [by left|intros [?|Hx]; [done|by apply not_elem_of_nil in Hx]]|].
    split; [by split|]. lia.
  - destruct fuel as [|fuel]; [lia|]. cbn [reserve_heap].
    assert (Hgo : (num <? bitmap_pages) || negb (temp =? 0) || (num <? (if DYNAMIC_KMM || (N <? 512) then 0 else heap_pages)) = true).
    { cbn [DYNAMIC_KMM orb]. destruct (Z.ltb_spec num bitmap_pages); [done|].
      destruct (Z.ltb_spec num (if N <? 512 then 0 else heap_pages)); [by rewrite orb_true_r|].
      rewrite (proj2 (Z.eqb_neq temp 0)); [done|]. apply Htemp. lia. }
    rewrite Hgo. clear Hgo. destruct (exists_free N t U Ht) as (q0 & Hq0 & Hu0); [lia|].
    assert (free <= q0) by (destruct (decide (q0 < free)) as [Hlt|]; [destruct Hu0; apply Hfree; lia|lia]).
    pose proof (ho_length _ _ _ Ht) as Hlen. unfold table_bits in Hlen.
    destruct (take_page_takes N q0 (S (8 * length t.1)) t U free Ht) as (t1 & q & -> & Hq & Huq & Hbelow & Hcount & Ht1); [lia|lia|done|lia|].
    cbn [mbind res_bind]. pose proof (window_lookup im m (W + num) Hs ltac:(lia)) as El. fold pml4 in El. rewrite El. clear El. cbn [mbind res_bind].
    assert (Hstep : ∃ m1 free1, (if (view im m (W + num)).1.1 =? 0 then m ← mapKernelPage m pml4 (RESERVED_START + (W + num)) q; Val (m, q + 1) else Val (m, q)) =
        Val (m1, free1) ∧ q <= free1 <= q + 1 ∧ retains N m m1 ∧ mapped m1 (W + num) ∧
        ∀ w, 0 <= w < 0x40000 → mapped m1 w ↔ mapped m w ∨ w = W + num).
    { destruct (Z.eqb_spec (view im m (W + num)).1.1 0) as [E|E].
      - destruct (map_retains N m (W + num) q Him Hs Hn) as (m1 & E1 & K1 & _ & M1); [apply Ht|lia|unfold mapped; lia|lia|].
        exists m1, (q + 1). rewrite E1. split; [done|]. split; [lia|]. split; [done|]. split; [apply M1; [lia|by right]|done].
      - exists m, q. split; [done|]. split; [lia|]. split; [by split|]. split; [done|]. intros w Hw. split; [by left|]. by intros [?| ->]. }
    destruct Hstep as (m1 & free1 & E1 & Hf1 & K1 & Mw & M1).
    assert (Htemp' : (view im m (W + num)).1.1 ≠ 0 ↔ 0 < num + 1 ∧ num + 1 - 1 < a).
    { change (mapped m (W + num) ↔ 0 < num + 1 ∧ num + 1 - 1 < a). rewrite Hmap by lia. lia. }
    destruct (view im m (W + num)) as [[sz fr] tb]. cbn [fst] in E1, Htemp'. rewrite E1. cbn [mbind res_bind].
    destruct (IH fuel m1 t1 _ free1 sz (num + 1) Ht1) as (m2 & t2 & T & E2 & HT & Hlow & Ht2 & K2 & M2);
      [|lia|apply K1|apply K1| |done|lia|lia|lia|lia|].
    { intros p Hp. destruct (decide (p = q)) as [->|]; [by right|left]. destruct (decide (p < free)); [apply Hfree; lia|apply Hbelow; lia]. }
    { intros w Hw. rewrite M1 by lia. rewrite Hmap by lia. split; [intros [?|?]; lia|by left]. }
    replace (RESERVED_START + (W + num) + 1) with (RESERVED_START + (W + (num + 1))) by lia. rewrite E2.
    exists m2, t2, (q :: T). split; [done|]. split; [simpl; by rewrite HT|]. destruct Hlow as [Hd Hfr Hl]. split; [split|split; [|split]].
    + constructor; [|done]. intros Hx. apply Hfr in Hx as [_ Hx]. apply Hx. by right.
    + intros p [->|Hx]%elem_of_cons; [by split; [lia|]|]. apply Hfr in Hx as [? Hx]. split; [done|]. intros ?. apply Hx. by left.
    + intros p x [->|Hx]%elem_of_cons Hxr Hxu Hxt.
      * destruct (decide (x < free)); [destruct Hxu; apply Hfree; lia|].
        destruct (decide (x < q)); [destruct Hxu; apply Hbelow; lia|]. assert (x ≠ q) by (intros ->; apply Hxt; by left). lia.
      * apply Hl; [done|done| |by intros ?; apply Hxt; right]. intros [?| ->]; [done|]. apply Hxt. by left.
    + eapply holds_iff; [done|]. intros p Hp. rewrite elem_of_cons. tauto.
    + by eapply retains_trans.
    + intros w Hw. destruct (decide (w = W + num)) as [->|]; [|apply M2; lia]. eapply retains_mapped; [done|lia|done].
Qed.

(** ** The bitmap of all pages *)

Lemma raw_get b i : Forall is_byte b → table_bits b <= 2 ^ 40 → 0 <= i < table_bits b → getBit_raw b i = Val (test_raw b i).
Proof.
  intros Hb Hl Hi. pose proof (getBit_in (mkBitmap (table_bits b) (popcount b) b) i (table_ok b Hb Hl) Hi) as E.
  unfold getBit in E. simpl in E. rewrite (proj2 (Z.ltb_lt _ _) (proj2 Hi)) in E. exact E.
Qed.

Lemma copy_bits_copies N t U n : holds N t U → ∀ bm i, bitmap_ok bm → size_ bm = N → 0 <= i → i + Z.of_nat n <= N →
  ∃ bm', copy_bits n t bm i = Val bm' ∧ bitmap_ok bm' ∧ size_ bm' = N ∧
    ∀ p, 0 <= p → test bm' p = test bm p || (between i (i + Z.of_nat n) p && test_raw t.1 p).
Proof.
  intros Ht. pose proof Ht as [HN Hb Hl _ _]. induction n as [|n IH]; intros bm i Hok Hs Hi Hn.
  { exists bm. split_and!; [done..|]. intros p Hp. unfold between.
    destruct (Z.leb_spec i p), (Z.ltb_spec p (i + Z.of_nat 0)); simpl; [lia|by rewrite orb_false_r..]. }
  cbn [copy_bits]. rewrite raw_get by (done || lia). cbn [mbind res_bind].
  assert (Hstep : ∃ bm1, (if test_raw t.1 i then '(bm, _) ← Bitmap.setBit bm i; Val bm else Val bm) = Val bm1 ∧ bitmap_ok bm1 ∧ size_ bm1 = N ∧
    ∀ p, 0 <= p → test bm1 p = test bm p || (bool_decide (i = p) && test_raw t.1 p)).
  { destruct (test_raw t.1 i) eqn:Ei.
    - destruct (setBit_in bm i Hok) as (bm1 & -> & Hok1 & Hs1 & _ & Ht1); [lia|]. exists bm1. split; [done|]. split; [done|]. split; [congruence|].
      intros p Hp. rewrite Ht1 by done. case_bool_decide; [subst; rewrite Ei; by rewrite orb_true_r|]. by rewrite orb_false_r.
    - exists bm. split_and!; [done..|]. intros p Hp. case_bool_decide; [subst; rewrite Ei|]; by rewrite orb_false_r. }
  destruct Hstep as (bm1 & -> & Hok1 & Hs1 & Ht1). cbn [mbind res_bind].
  destruct (IH bm1 (i + 1) Hok1 Hs1) as (bm2 & -> & Hok2 & Hs2 & Ht2); [lia|lia|]. exists bm2. split_and!; [done..|].
  intros p Hp. rewrite Ht2, Ht1, <- orb_assoc by done. f_equal. unfold between.
  case_bool_decide; destruct (Z.leb_spec i p), (Z.leb_spec (i + 1) p), (Z.ltb_spec p (i + 1 + Z.of_nat n)), (Z.ltb_spec p (i + Z.of_nat (S n)));
    simpl; try lia; destruct (test_raw t.1 p); done.
Qed.

Lemma find_lowest_finds N bm n : bitmap_ok bm → size_ bm = N → ∀ p, 0 <= p → p + Z.of_nat n = N →
  ∃ low, find_lowest n bm p = Val low ∧
    ((p <= low < N ∧ test bm low = false ∧ ∀ q, p <= q < low → test bm q = true) ∨ low = 0 ∧ ∀ q, p <= q < N → test bm q = true).
Proof.
  intros Hok Hs. induction n as [|n IH]; intros p Hp Hn.
  { exists 0. split; [done|]. right. split; [done|]. lia. }
  cbn [find_lowest]. rewrite getBit_in by (done || lia). cbn [mbind res_bind]. destruct (test bm p) eqn:E; cbn [negb].
  - destruct (IH (p + 1)) as (low & -> & Hlow); [lia|lia|]. exists low. split; [done|].
    assert (Hq : ∀ q, p <= q → (p + 1 <= q → test bm q = true) → test bm q = true).
    { intros q Hpq Hx. destruct (decide (q = p)) as [->|]; [done|apply Hx; lia]. }
    destruct Hlow as [(H1 & H2 & H3)|(H1 & H2)]; [left|right].
    + split; [lia|]. split; [done|]. intros q Hq'. apply Hq; [lia|]. intros. apply H3. lia.
    + split; [done|]. intros q Hq'. apply Hq; [lia|]. intros. apply H2. lia.
  - exists p. split; [done|]. left. split; [lia|]. split; [done|]. lia.
Qed.

Lemma clear_free_clears N bm n : bitmap_ok bm → size_ bm = N → ∀ fr p, 0 <= p → p + Z.of_nat n = N →
  ∃ fr', clear_free n bm fr p = Val fr' ∧
    ∀ q, fr' !! q = if bool_decide (p <= q < N) && negb (test bm q) then Some (PageManager.filled 255) else fr !! q.
Proof.
  intros Hok Hs. induction n as [|n IH]; intros fr p Hp Hn.
  { exists fr. split; [done|]. intros q. rewrite bool_decide_false by lia. done. }
  cbn [clear_free]. rewrite getBit_in by (done || lia). cbn [mbind res_bind].
  destruct (IH (if negb (test bm p) then <[p:=PageManager.filled 255]> fr else fr) (p + 1)) as (fr' & -> & Hfr'); [lia|lia|].
  exists fr'. split; [done|]. intros q. rewrite Hfr'. destruct (decide (q = p)) as [->|Hne].
  - rewrite (bool_decide_false (p + 1 <= p < N)), (bool_decide_true (p <= p < N)) by lia. cbn [andb].
    destruct (test bm p); cbn [negb]; [done|]. apply lookup_insert_eq.
  - rewrite (bool_decide_ext (p + 1 <= q < N) (p <= q < N)) by lia. destruct (bool_decide _ && _); [done|].
    destruct (negb _); [by rewrite lookup_insert_ne|done].
Qed.

Lemma start_aligned kernel_end l : getFreeKernelMemoryStart kernel_end l mod PAGE_SIZE = 0.
Proof.
  unfold getFreeKernelMemoryStart. generalize (u64 (foldl (λ a x, Z.max (getModuleEndAddress x) a) kernel_end l - 1)). intros x.
  unfold u64, PAGE_SIZE. assert (E : Z.lor x 0xFFF mod 2 ^ 12 = 0xFFF).
  { apply Z.bits_inj'. intros i Hi. change 0xFFF with (Z.ones 12). destruct (Z.ltb_spec i 12).
    - rewrite Z.mod_pow2_bits_low, Z.lor_spec, Z.ones_spec_low by lia. apply orb_true_r.
    - by rewrite Z.mod_pow2_bits_high, Z.ones_spec_high by lia. }
  unfold wrap. Z.to_euclidean_division_equations; lia.
Qed.

Lemma highest_range l : 0 <= highest_address l <= 0x7FFFFFFF.
Proof.
  unfold highest_address. enough (∀ a, 0 <= a <= 0x7FFFFFFF →
    0 <= foldl (λ h r, if type r =? 1 then Z.max h (Z.land (end_address r) 0x7FFFFFFF) else h) a l <= 0x7FFFFFFF) as He by (apply He; lia).
  induction l as [|r l IH]; intros a Ha; [done|]. simpl. apply IH. destruct (type r =? 1); [|done].
  pose proof (Z.land_ones (end_address r) 31 ltac:(lia)) as E. change (Z.ones 31) with 0x7FFFFFFF in E. rewrite E.
  pose proof (Z.mod_pos_bound (end_address r) (2 ^ 31) ltac:(lia)). lia.
Qed.

(** ** The constructor *)

Definition number_of_pages (l : list region) : Z := highest_address l / PAGE_SIZE.

(** The pages that are not free before the heap gets its pages. *)
Definition reserved (words : gmap Z (list Z)) (regions : list region) (modules : list module_map) (p : Z) : Prop :=
  ¬ usable regions p ∨ (∃ w, 0 <= w < 0x40000 ∧ marks (mkMem words (number_of_pages regions)) w p) ∨
  in_module (number_of_pages regions) modules p.

(** The pages of the heap, if [used] pages are not free. *)
Definition heap_size (N used : Z) : Z :=
  let h := N / 2 - used in if 1024 <? h then 1024 + (h - Z.min h 1024) / 8 else h.
Definition heap_turns (N used a : Z) : Z :=
  Z.max (Z.max (N / 8 / PAGE_SIZE + 1) (if N <? 512 then 0 else heap_size N used)) (a + 1).

(** A machine with up to 256 MiB of which less than half is used, whose modules
    lie in the first 16 MiB and whose heap fits into the tables behind them.  The
    first [a] pages of the heap's place are mapped already. *)
Record bootable (kernel_end : Z) (regions : list region) (modules : list module_map) (words : gmap Z (list Z))
    (used : list Z) (W a : Z) : Prop := {
  bo_image : image_ok im;
  bo_space : space_ok im (mkMem words (number_of_pages regions));
  bo_regions : Forall (λ r, 0 <= start_address r) regions;
  bo_pages : number_of_pages regions <= 65536;
  bo_modules : Forall (λ x, last_page x < 4096) modules;
  bo_used : NoDup used ∧ ∀ p, p ∈ used ↔ 0 <= p < number_of_pages regions ∧ reserved words regions modules p;
  bo_half : Z.of_nat (length used) < number_of_pages regions / 2;
  bo_start : getFreeKernelMemoryStart kernel_end modules / PAGE_SIZE = RESERVED_START + W ∧ 0 <= W;
  bo_mapped w : W <= w < 4096 →
    mapped (mkMem words (number_of_pages regions)) w ∨ in_module (number_of_pages regions) modules w ↔ w < W + a;
  bo_heap : 0 <= a ∧ W + heap_turns (number_of_pages regions) (Z.of_nat (length used)) a <= 4096;
  bo_room : heap_turns (number_of_pages regions) (Z.of_nat (length used)) a <= number_of_pages regions - Z.of_nat (length used);
}.

Lemma all_used N : 0 <= N <= 65536 → holds N (replicate (Z.to_nat (BITMAP_BYTE_COUNT N)) 255, N) (λ _, True).
Proof.
  intros HN. assert (Hb : N <= 8 * BITMAP_BYTE_COUNT N <= 65536 ∧ 0 <= BITMAP_BYTE_COUNT N).
  { unfold BITMAP_BYTE_COUNT, bits_per_bitmap_atom_. destruct (Z.ltb_spec 0 (N mod 8)); Z.to_euclidean_division_equations; lia. }
  assert (Ht : ∀ p, 0 <= p < N → test_raw (replicate (Z.to_nat (BITMAP_BYTE_COUNT N)) 255) p = true).
  { intros p Hp. unfold test_raw. rewrite lookup_replicate_2 by (Z.to_euclidean_division_equations; lia). simpl.
    change 255 with (Z.ones 8). apply Z.ones_spec_low. Z.to_euclidean_division_equations; lia. }
  split; unfold table_bits; simpl; rewrite ?length_replicate; [done| |lia|naive_solver|].
  - by apply Forall_replicate.
  - rewrite (same_length _ (seqZ 0 N)); [rewrite length_seqZ; lia|apply used_list_nodup|apply NoDup_seqZ|].
    intros x. rewrite used_list_elem, elem_of_seqZ. split; [lia|]. intros Hx. split; [lia|]. apply Ht. lia.
Qed.

Lemma usage_table_marks regions modules words : image_ok im →
  let N := number_of_pages regions in let m := mkMem words N in
  space_ok im m → Forall (λ r, 0 <= start_address r) regions → N <= 65536 → 0 < N → Forall (λ x, last_page x < 4096) modules →
  ∃ m' t, usage_table pml4 N regions modules m = Val (m', t) ∧ holds N t (reserved words regions modules) ∧ retains N m m' ∧
    ∀ w, 0 <= w < 0x40000 → mapped m' w ↔ mapped m w ∨ in_module N modules w.
Proof.
  intros Him N m Hs Hreg HN HN0 Hmod. unfold usage_table. rewrite (Z.min_r _ N) by lia.
  assert (Hfuel : 0x40000 - 0 <= Z.of_nat (Z.to_nat (RESERVED_END - RESERVED_START))) by (unfold RESERVED_END, RESERVED_START; lia).
  revert Hfuel. generalize (Z.to_nat (RESERVED_END - RESERVED_START)). intros fuel Hfuel.
  destruct (free_regions_frees N regions _ _ (all_used N ltac:(lia)) Hreg) as (t1 & -> & Ht1). cbn [mbind res_bind].
  destruct (reserve_kernel_reserves N m Hs Him fuel t1 _ 0 Ht1 ltac:(lia) Hfuel ltac:(done)) as (t2 & E2 & Ht2).
  rewrite Z.add_0_r in E2. rewrite E2. cbn [mbind res_bind]. clear E2.
  destruct (reserve_modules_reserves N modules Him HN0 Hmod m t2 _ Ht2 Hs eq_refl) as (m3 & t3 & -> & Ht3 & K3 & M3).
  exists m3, t3. split; [done|]. split; [|done]. eapply holds_iff; [exact Ht3|]. intros p Hp. unfold reserved. simpl. tauto.
Qed.

(** C33: On a machine with at most 256 MiB of which less than half is in use at boot
    time, with the modules and the heap in the first 16 MiB, room for the heap, and
    boot-time tables that map nothing behind the modules but a first part of the
    heap's place, the constructor returns.  After it the page manager's invariant
    holds: its table marks exactly the pages outside the usable memory, the pages
    mapped for the kernel or loaded as modules, and the lowest free pages, one for
    every turn of the loop for the heap; the free frames are filled with 0xFF; and
    every page of the heap's first part is mapped.  (With more memory it can leave
    its stack: [construct_overruns].) *)
Theorem construct_sets_up kernel_end regions modules words fr used W a : bootable kernel_end regions modules words used W a →
  let N := number_of_pages regions in let u := Z.of_nat (length used) in
  ∃ st m k T, construct pml4 kernel_end regions modules words fr = Val (st, m, k) ∧
    PageManager.pm_ok st ∧ PageManager.frames_clean st ∧ PageManager.number_of_pages_ st = N ∧
    lowest_free N (reserved words regions modules) T ∧ Z.of_nat (length T) = heap_turns N u a ∧
    (∀ p, 0 <= p < N → test (PageManager.page_usage_table_ st) p = true ↔ reserved words regions modules p ∨ p ∈ T) ∧
    Kmm.new (getFreeKernelMemoryStart kernel_end modules) (heap_turns N u a) (heap_size N u) = Val k ∧
    space_ok im m ∧ ∀ w, W <= w < W + heap_turns N u a → mapped m w.
Proof.
  intros [Him Hs Hreg HN Hmod [Hnd Hin] Hhalf [Hst HW] Hmap [Ha Hfit] Hroom] N u. fold N u in Hs, HN, Hin, Hhalf, Hmap, Hfit, Hroom.
  pose proof (highest_range regions) as Hhigh.
  assert (HN0 : 0 < N) by (assert (0 <= u) by lia; Z.to_euclidean_division_equations; lia).
  unfold construct. change (highest_address regions / PAGE_SIZE) with N. rewrite (wrap_small 32 N) by lia. cbv zeta.
  rewrite (Z.min_r _ N) by lia.
  destruct (usage_table_marks regions modules words Him Hs Hreg HN HN0 Hmod) as (m3 & t3 & E3 & Ht3' & K3 & M3).
  fold N in E3, Ht3', K3, M3. rewrite E3. cbn [mbind res_bind]. clear E3.
  pose proof (holds_count N t3 _ used Ht3' Hnd Hin) as Hc3. fold u in Hc3. rewrite Hc3.
  rewrite (proj2 (Z.ltb_lt u (N / 2)) Hhalf). cbn [kassert mbind res_bind].
  assert (Hh : 0 < N / 2 - u < 2 ^ 32) by (unfold u in *; Z.to_euclidean_division_equations; lia).
  rewrite (wrap_small 64 (N / 2 - u)) by lia. change (if 1024 <? N / 2 - u then _ else _) with (heap_size N u).
  rewrite Hst. assert (Hbp : 0 < N / 8 / PAGE_SIZE + 1) by (unfold PAGE_SIZE; Z.to_euclidean_division_equations; lia).
  assert (Ht0 : 0 < heap_turns N u a) by (unfold heap_turns; lia).
  pose proof (ho_length _ _ _ Ht3') as Hlen. unfold table_bits in Hlen.
  destruct (reserve_heap_reserves N (N / 8 / PAGE_SIZE + 1) (heap_size N u) W a Him HW Ha ltac:(lia) Hfit (Z.to_nat (heap_turns N u a))
    (S (8 * length t3.1)) m3 t3 _ 0 0 0 Ht3') as (m4 & t4 & T & E4 & HT & Hlow & Ht4 & K4 & M4);
    [lia|lia|apply K3|apply K3| |by split; [|lia]|lia|rewrite Z2Nat.id by lia; done|rewrite Hc3; lia|unfold u in *; lia|].
  { intros w Hw. rewrite M3 by lia. apply Hmap. lia. }
  rewrite Z.add_0_r in E4, M4. rewrite E4. cbn [mbind res_bind]. clear E4.
  assert (Hk : ∃ k, Kmm.new (getFreeKernelMemoryStart kernel_end modules) (heap_turns N u a) (heap_size N u) = Val k).
  { unfold Kmm.new. change Kmm.PAGE_SIZE with PAGE_SIZE. rewrite start_aligned. cbn [Z.eqb kassert mbind res_bind]. by eexists. }
  destruct Hk as [k Hk]. change (Z.max (Z.max (N / 8 / PAGE_SIZE + 1) _) (a + 1)) with (heap_turns N u a). rewrite Hk. cbn [mbind res_bind].
  destruct (new_ok N ltac:(lia)) as [Hnew Hnew0].
  destruct (copy_bits_copies N t4 _ (Z.to_nat N) Ht4 (Bitmap.new N) 0 Hnew eq_refl) as (bm & -> & Hok & Hsize & Htest); [lia|lia|].
  cbn [mbind res_bind].
  assert (Hbits : ∀ p, 0 <= p < N → test bm p = true ↔ reserved words regions modules p ∨ p ∈ T).
  { intros p Hp. rewrite Htest, Hnew0, <- (ho_used _ _ _ Ht4 p Hp) by lia. unfold between.
    rewrite (proj2 (Z.leb_le 0 p)), (proj2 (Z.ltb_lt p _)) by lia. done. }
  destruct (find_lowest_finds N bm (Z.to_nat N) Hok Hsize 0) as (low & -> & Hl); [lia|lia|]. cbn [mbind res_bind].
  assert (Hlow' : 0 <= low < N ∧ ∀ q, 0 <= q < low → test bm q = true) by (destruct Hl as [(? & _ & Hq)|(-> & _)]; [done|split; [lia|lia]]).
  destruct Hlow' as [Hlr Hbelow]. rewrite (proj2 (Z.ltb_lt low N)) by lia. cbn [kassert mbind res_bind].
  destruct (clear_free_clears N bm (Z.to_nat (N - low)) Hok Hsize fr low) as (fr' & -> & Hfr); [lia|lia|]. cbn [mbind res_bind].
  exists (PageManager.mkPM bm N low fr'), m4, k, T. split; [done|].
  assert (Hzero : test bm 0 = true).
  { apply Hbits; [lia|]. destruct (test_raw t3.1 0) eqn:E0; [left; by apply (ho_used _ _ _ Ht3' 0)|]. right.
    assert (Hf0 : ¬ reserved words regions modules 0) by (rewrite <- (ho_used _ _ _ Ht3' 0) by lia; by rewrite E0).
    destruct (decide (0 ∈ T)) as [|Hn]; [done|]. exfalso. destruct T as [|p T']; [simpl in HT; lia|].
    assert (Hp : p ∈ p :: T') by (by left). pose proof (lf_lowest _ _ _ Hlow p 0 Hp ltac:(lia) Hf0 Hn). apply (lf_free _ _ _ Hlow) in Hp. lia. }
  split_and!; [|..|done|lia|done|done|apply K4|exact M4].
  - split; simpl; [exact Hok|exact Hsize|lia|lia|exact Hbelow|exact Hzero].
  - intros p Hp Hf. unfold PageManager.frame. simpl in *. rewrite Hfr. rewrite bool_decide_true.
    + change (bs_test bm p) with (test bm p) in Hf. by rewrite Hf.
    + split; [|lia]. destruct (decide (p < low)) as [Hlt|]; [|lia]. rewrite (Hbelow p) in Hf by lia. done.
  - done.
Qed.

(** With more than 256 MiB the pages behind them are freed past the end of the
    table on the stack. *)
Lemma free_pages_overruns n : ∀ t k U, holds 65536 t U → 0 <= k <= 65536 → 65536 < k + Z.of_nat n → free_pages n t k = Err EUndef.
Proof.
  induction n as [|n IH]; intros t k U Ht Hk Hn; [lia|]. cbn [free_pages]. destruct (decide (k = 65536)) as [->|Hne].
  - pose proof (ho_length _ _ _ Ht) as Hl. unfold table_bits in Hl. unfold unsetBit, unsetBit_raw.
    rewrite zget_oob; [done|]. unfold bits_per_bitmap_atom_. change (65536 / 8) with 8192. lia.
  - destruct (unset_used 65536 t U k Ht) as (t1 & -> & Ht1); [lia|]. cbn [mbind res_bind]. by eapply IH; [done|lia|lia].
Qed.

Lemma construct_overruns kernel_end start_ end_ modules words fr : 0 <= start_ → start_ / PAGE_SIZE <= 65536 →
  65536 < end_ / PAGE_SIZE <= 0x7FFFF →
  construct pml4 kernel_end [mkRegion start_ end_ 1] modules words fr = Err EUndef.
Proof.
  intros Hs Hs' He. assert (He' : 65536 * PAGE_SIZE < end_ <= 0x7FFFFFFF) by (unfold PAGE_SIZE in *; Z.to_euclidean_division_equations; lia).
  change PAGE_SIZE with 4096 in He'.
  assert (Hh : highest_address [mkRegion start_ end_ 1] = end_).
  { unfold highest_address. cbn [foldl type end_address]. change (1 =? 1) with true. cbv iota. pose proof (Z.land_ones end_ 31 ltac:(lia)) as E. change (Z.ones 31) with 0x7FFFFFFF in E.
    rewrite E, Z.mod_small by (unfold PAGE_SIZE in *; lia). lia. }
  unfold construct. rewrite Hh, (wrap_small 32) by lia. unfold usage_table. rewrite Z.min_l by lia. cbn [free_regions negb type start_address end_address].
  change (1 =? 1) with true. cbn [negb]. cbv iota. rewrite Z.min_id.
  rewrite (free_pages_overruns _ _ _ _ (all_used 65536 ltac:(lia))); [done| |].
  - split; [|done]. by apply Z.div_pos.
  - assert (0 <= start_ / PAGE_SIZE) by (by apply Z.div_pos). lia.
Qed.

End space.

(** ** A small machine *)

(** 8 MiB with the usual hole below 1 MiB; the page tables are empty. *)
Definition ex_image : image := mkImage 1 2 4 6 184 440 None.
Definition ex_regions : list region := [mkRegion 0 0x9F000 1; mkRegion 0x100000 0x800000 1].
Definition ex_zero : list Z := replicate 512 0.
Definition ex_directory : list Z := (λ i, table_entry (6 + i) 0) <$> [0; 1; 2; 3; 4; 5; 6; 7].
Definition ex_words : gmap Z (list Z) :=
  <[1 := <[511%nat := table_entry 3 0]> ex_zero]> (<[3 := <[510%nat := table_entry 5 0]> ex_zero]> (
  <[5 := ex_directory ++ replicate 504 0]> (gset_to_gmap ex_zero (list_to_set (seqZ 6 8))))).
Definition ex_mem : Mem Z := mkMem ex_words 2048.

Lemma ex_tables f : 6 <= f < 14 → words_of ex_mem f = ex_zero.
Proof.
  intros Hf. unfold words_of. cbn [words ex_mem]. unfold ex_words. rewrite !lookup_insert_ne by lia.
  rewrite (proj2 (lookup_gset_to_gmap_Some _ _ _ ex_zero)); [done|]. split; [|done]. apply elem_of_list_to_set, elem_of_seqZ. lia.
Qed.

Lemma ex_zeros i j : 0 <= i < 8 → 0 <= j < 512 → ent ex_mem (6 + i) j = 0.
Proof. intros Hi Hj. unfold ent. rewrite ex_tables by lia. unfold ex_zero. by rewrite lookup_replicate_2 by lia. Qed.

Lemma ex_rest i : 8 <= i < 512 → ent ex_mem 5 i = 0.
Proof.
  intros Hi. unfold ent. change (words_of ex_mem 5) with (ex_directory ++ replicate 504 0).
  rewrite lookup_app_r by (simpl; lia). by rewrite lookup_replicate_2 by (simpl; lia).
Qed.

Lemma ex_image_ok : image_ok ex_image.
Proof. split; cbn; lia. Qed.

Lemma ex_space : space_ok ex_image ex_mem.
Proof.
  split; cbn [ex_image kernel_page_map_level_4 kernel_page_directory_pointer_table kernel_page_directory kernel_page_table].
  - intros f Hf. unfold is_table in Hf. cbn in Hf. destruct Hf as [->|[->|[->|Hf]]]; [reflexivity..|]. by rewrite ex_tables by lia.
  - split_and!; reflexivity || discriminate.
  - split; reflexivity.
  - split_and!; reflexivity.
  - intros i Hi. assert (i = 0 ∨ i = 1 ∨ i = 2 ∨ i = 3 ∨ i = 4 ∨ i = 5 ∨ i = 6 ∨ i = 7) as Hc by lia.
    destruct Hc as [->|[->|[->|[->|[->|[->|[->| ->]]]]]]]; split_and!; reflexivity.
  - intros i Hi. change (4 + 1) with 5. by rewrite ex_rest.
  - intros i j Hi Hj. by rewrite ex_zeros.
Qed.

Lemma ex_view w : 0 <= w < 0x40000 → (view ex_image ex_mem w).1.1 = 0.
Proof.
  intros Hw. unfold view. cbn [ex_image kernel_page_directory kernel_page_table]. destruct (Z.ltb_spec (w / 512) 8).
  - rewrite ex_zeros; [done|..]; Z.to_euclidean_division_equations; lia.
  - change (4 + 1) with 5. rewrite ex_rest; [done|]. Z.to_euclidean_division_equations; lia.
Qed.

Lemma ex_unmarked w p : 0 <= w < 0x40000 → ¬ marks ex_image ex_mem w p.
Proof. intros Hw. unfold marks. pose proof (ex_view w Hw) as E. destruct (view _ _ w) as [[sz q] tb]. simpl in E. subst. by intros [[? _]|[? _]]. Qed.

Lemma ex_usable p : usable ex_regions p ↔ 0 <= p < 159 ∨ 256 <= p < 2048.
Proof.
  unfold usable, ex_regions. split.
  - intros (r & [->|[->|Hr]%elem_of_cons]%elem_of_cons & _ & Hp); [left; exact Hp|right; exact Hp|by apply not_elem_of_nil in Hr].
  - intros [Hp|Hp]; [exists (mkRegion 0 0x9F000 1)|exists (mkRegion 0x100000 0x800000 1)]; (split; [|split; [done|exact Hp]]); [by left|right; by left].
Qed.

Lemma ex_pages : number_of_pages ex_regions = 2048.
Proof. reflexivity. Qed.

Lemma ex_reserved p : reserved ex_image ex_words ex_regions [] p ↔ ¬ (0 <= p < 159 ∨ 256 <= p < 2048).
Proof.
  unfold reserved. rewrite ex_pages, ex_usable. split; [|by left].
  intros [Hu|[(w & Hw & Hm)|(x & Hx & _)]]; [done| |by apply not_elem_of_nil in Hx]. destruct (ex_unmarked w p Hw Hm).
Qed.

Lemma ex_bootable : bootable ex_image (PHYSICAL_TO_VIRTUAL_OFFSET + 0xB8000) ex_regions [] ex_words (seqZ 159 97) 184 0.
Proof.
  assert (Hno : ∀ p, ¬ in_module 2048 [] p) by (intros p (x & Hx & _); by apply not_elem_of_nil in Hx).
  split; rewrite ?ex_pages.
  - exact ex_image_ok.
  - exact ex_space.
  - repeat constructor; discriminate.
  - discriminate.
  - constructor.
  - split; [apply NoDup_seqZ|]. intros p. rewrite elem_of_seqZ, ex_reserved. lia.
  - reflexivity.
  - split; [reflexivity|discriminate].
  - intros w Hw. split; [|lia]. intros [Hm|Hm]; [|by apply Hno in Hm]. destruct Hm. apply ex_view. lia.
  - split; discriminate.
  - discriminate.
Qed.

Lemma construct_sets_up_witness : ∃ st m k T,
  construct 1 (PHYSICAL_TO_VIRTUAL_OFFSET + 0xB8000) ex_regions [] ex_words ∅ = Val (st, m, k) ∧ PageManager.pm_ok st ∧
  length T = 927%nat ∧ test (PageManager.page_usage_table_ st) 200 = true ∧ (test (PageManager.page_usage_table_ st) 2000 = true ↔ 2000 ∈ T).
Proof.
  destruct (construct_sets_up ex_image _ _ _ _ ∅ _ _ _ ex_bootable) as (st & m & k & T & E & Hok & _ & _ & _ & HT & Ht & _).
  exists st, m, k, T. split; [exact E|]. split; [exact Hok|]. split.
  - change (heap_turns _ _ _) with 927 in HT. lia.
  - rewrite ex_pages in Ht. split; [apply (Ht 200)|rewrite (Ht 2000)]; rewrite ?ex_reserved; lia || (split; [intros [?|?]; [lia|done]|by right]).
Defined.

End Boot.
