(* ===== verification/Cow.v ===== *)
(** * Copy on write and page faults

    Models [common/source/kernel/COWManager.cpp], the process list of
    [common/source/kernel/ProcessRegistry.cpp] and
    [common/source/mm/PageFaultHandler.cpp] on the page tables of [ArchMemory].
    A [UserProcess*] is a number, a process's [loader_->arch_memory_] the frame
    of its top table.  The map of shared frames is part of the page source,
    since [PageManager::freePPN] asks it before it frees.  The manager's lock
    makes each operation a single step. *)

From stdpp Require Import sorting.
From S2P Require Import Prelude Bitmap PageManager ArchMemory.

Module Cow.
Import ArchMemory.

(** ** ProcessRegistry: the list of processes *)

Abbreviation ProcessList := (gmap Z Z).

Definition pidInProcessList (l : ProcessList) (pid : Z) : bool := bool_decide (is_Some (l !! pid)).
Definition getUserProcessFromPid (l : ProcessList) (pid : Z) : option Z :=
  if pidInProcessList l pid then l !! pid else None.
Definition insertIntoProcessList (l : ProcessList) (pid proc : Z) : ProcessList := <[pid := proc]> l.
Definition eraseFromProcessList (l : ProcessList) (pid : Z) : ProcessList :=
  if pidInProcessList l pid then delete pid l else l.

(** ** COWManager *)

Abbreviation CowMap := (gmap Z (gset Z)).

(** [cow_map_[ppn]]; the keys are 32 bits wide. *)
Definition sharers (c : CowMap) (ppn : Z) : gset Z := default ∅ (c !! u32 ppn).
Definition set_sharers (c : CowMap) (ppn : Z) (s : gset Z) : CowMap := <[u32 ppn := s]> c.

Definition addToCOWMap (l : ProcessList) (c : CowMap) (ppn pid1 pid2 : Z) : res CowMap :=
  match getUserProcessFromPid l pid1, getUserProcessFromPid l pid2 with
  | Some proc1, Some proc2 =>
      let c := set_sharers c ppn (sharers c ppn ∪ {[proc1]}) in
      Val (set_sharers c ppn (sharers c ppn ∪ {[proc2]}))
  | _, _ => Err EAssert
  end.

Definition ppnShared (c : CowMap) (ppn : Z) : bool :=
  match c !! u32 ppn with
  | None => false
  | Some s => negb (bool_decide (s = ∅))
  end.

Definition eraseProcessFromCOWMap (c : CowMap) (proc : Z) : CowMap :=
  (λ s : gset Z, if decide (proc ∈ s) then s ∖ {[proc]} else s) <$> c.

Definition eraseProcessFromPage (c : CowMap) (proc ppn : Z) : CowMap :=
  if ppnShared c ppn then set_sharers c ppn (sharers c ppn ∖ {[proc]}) else c.

(** [at(0)] of the set, which is sorted by address. *)
Definition at0 (s : gset Z) : res Z :=
  match merge_sort Z.le (elements s) with x :: _ => Val x | [] => Err EUndef end.

Section cow.
Context {S : Type} `{PageSource S}.

(** [PageManager::freePPN] keeps a frame that is shared. *)
#[global] Instance cow_source : PageSource (S * CowMap) := {|
  ps_alloc '(s, c) := '(s, p) ← ps_alloc s; Val ((s, c), p);
  ps_free '(s, c) p :=
    if ppnShared c p then Val ((s, c), false)
    else '(s, b) ← ps_free s p; Val ((s, c), b);
  ps_total '(s, _) := ps_total s;
  ps_used '(s, _) p := ps_used s p;
  ps_ok '(s, _) := ps_ok s;
|}.

Abbreviation CowMem := (Mem (S * CowMap)).

Definition cow_map_ (m : CowMem) : CowMap := snd (source m).
Definition with_cow_map (m : CowMem) (c : CowMap) : CowMem := mkMem (words m) (fst (source m), c).
Definition erase (m : CowMem) (ppn proc : Z) : CowMem :=
  with_cow_map m (set_sharers (cow_map_ m) ppn (sharers (cow_map_ m) ppn ∖ {[proc]})).

Definition ppnShared_addr (m : CowMem) (root virt_address : Z) : res bool :=
  mapping ← resolveMapping m root (virt_address / PAGE_SIZE);
  Val (ppnShared (cow_map_ m) (u32 (m_page_ppn mapping))).

(** [mapping.pt[mapping.pti]]: reading and writing the entry. *)
Definition get_pte (m : CowMem) (mapping : ArchMemoryMapping) : res Z :=
  match m_pt mapping with Some pt => get m pt (m_pti mapping) | None => Err EUndef end.
Definition put_pte (m : CowMem) (mapping : ArchMemoryMapping) (e : Z) : res CowMem :=
  match m_pt mapping with Some pt => put m pt (m_pti mapping) e | None => Err EUndef end.

(** [arch_memory_ proc] is the top table of the process. *)
Definition handleCOWPageFault (arch_memory_ : gmap Z Z) (m : CowMem) (proc virt_address : Z) : res CowMem :=
  root ← (match arch_memory_ !! proc with Some r => Val r | None => Err EUndef end);
  mapping ← resolveMapping m root (virt_address / PAGE_SIZE);
  let page_ppn_ := m_page_ppn mapping in
  _ ← kassert (bool_decide (proc ∈ sharers (cow_map_ m) page_ppn_));
  let size_of_set := Z.of_nat (size (sharers (cow_map_ m) page_ppn_)) in
  if size_of_set =? 0 then Err EAssert
  else if size_of_set =? 1 then
    e ← get_pte m mapping;
    m ← put_pte m mapping (set_writeable 1 e);
    Val (erase m page_ppn_ proc)
  else if size_of_set =? 2 then
    '(m, new_ppn) ← allocPPN m;
    e ← get_pte m mapping;
    m ← put_pte m mapping (set_writeable 1 (set_page_ppn new_ppn e));
    let m := copy_frame m new_ppn page_ppn_ in
    let m := erase m page_ppn_ proc in
    other_proc ← at0 (sharers (cow_map_ m) page_ppn_);
    other_root ← (match arch_memory_ !! other_proc with Some r => Val r | None => Err EUndef end);
    other_mapping ← resolveMapping m other_root (virt_address / PAGE_SIZE);
    e ← get_pte m other_mapping;
    m ← put_pte m other_mapping (set_writeable 1 e);
    Val (erase m page_ppn_ other_proc)
  else
    '(m, ppn) ← allocPPN m;
    let m := copy_frame m ppn page_ppn_ in
    e ← get_pte m mapping;
    m ← put_pte m mapping (set_writeable 1 (set_page_ppn ppn e));
    Val (erase m page_ppn_ proc).

End cow.
Arguments cow_map_ {S} m.

(** ** PageFaultHandler *)

Definition null_reference_check_border_ : Z := PAGE_SIZE.
Definition USER_BREAK : Z := 0x0000800000000000.
Definition STACK_MAX_SIZE : Z := 0xA000.
Definition STACK_MAX_PAGES : Z := 10.

(** What the handler reads of the current thread. *)
Record FaultingThread := mkFaulting {
  switch_to_userspace_ : Z;
  is_user_thread : bool;
  should_cancel : bool;
  has_loader : bool;
  has_user_registers : bool;
}.

(** The start of [enterPageFault], up to the handling: the thread's saved flag,
    and whether the thread is cancelled here. *)
Definition enterPageFault (t : FaultingThread) : FaultingThread * Z * bool :=
  let saved_switch_to_userspace := switch_to_userspace_ t in
  let t := mkFaulting 0 (is_user_thread t) (should_cancel t) (has_loader t) (has_user_registers t) in
  (t, saved_switch_to_userspace,
   is_user_thread t && (should_cancel t && (switch_to_userspace_ t =? 1))).

Definition checkPageFaultIsValid (t : FaultingThread) (address : Z) (user present switch_to_us : bool)
    (shared : res bool) : res bool :=
  _ ← kassert (eqb user switch_to_us);
  _ ← kassert (negb ((address <? USER_BREAK) && negb (has_loader t)));
  _ ← kassert (negb (user && negb (has_user_registers t)));
  if address <? null_reference_check_border_ then Val false
  else if negb user && (USER_BREAK <=? address) then Val false
  else if user && (USER_BREAK <=? address) then Val false
  else if present then shared
  else Val true.

Definition addrIsWithinThisStackSpace (stack_start_addr address : Z) : bool :=
  (address <=? stack_start_addr) && (u64 (stack_start_addr - STACK_MAX_SIZE) <? address).

Section faults.
Context {S : Type} `{PageSource S}.
Abbreviation CowMem := (Mem (S * CowMap)).

(** The memory and the new number of stack pages; [None]: the process exits. *)
Definition increaseUserStackSize (m : CowMem) (root stack_start_addr pages : Z) : res (CowMem * option Z) :=
  let pages := u16 (pages + 1) in
  if STACK_MAX_PAGES <? pages then Val (m, None)
  else
    let vpn := u64 (stack_start_addr - 4096 * pages) / PAGE_SIZE in
    '(m, ppn) ← allocPPN m;
    '(m, mapped) ← mapPage m root vpn ppn 1;
    if mapped : bool then Val (m, Some pages)
    else m ← freePPN m ppn; Val (m, None).

(** What a page fault ends in; [LoadPage] calls the loader, [ProcessExit] is
    [Syscall::exit], [ThreadKill] is [Thread::kill]. *)
Inductive fault_outcome :=
| CowHandled (m : CowMem)
| StackGrown (m : CowMem) (thread pages : Z)
| StackFull (m : CowMem)
| LoadPage (address : Z)
| ProcessExit (code : Z)
| ThreadKill.

(** [stack_of address] is the thread whose stack holds the address, with the
    start of its stack and its page count ([addrIsWithinAnyUserStack]). *)
Definition handlePageFault (arch_memory_ : gmap Z Z) (stack_of : Z → option (Z * Z * Z)) (m : CowMem)
    (t : FaultingThread) (proc root address : Z) (user present switch_to_us : bool) : res fault_outcome :=
  valid ← checkPageFaultIsValid t address user present switch_to_us (ppnShared_addr m root address);
  if valid : bool then
    shared ← ppnShared_addr m root address;
    if shared : bool then
      m ← handleCOWPageFault arch_memory_ m proc address; Val (CowHandled m)
    else match stack_of address with
    | Some (thread, start, pages) =>
        '(m, r) ← increaseUserStackSize m root start pages;
        match r with
        | Some pages => Val (StackGrown m thread pages)
        | None => Val (StackFull m)
        end
    | None => Val (LoadPage address)
    end
  else Val (if has_loader t then ProcessExit 9999 else ThreadKill).

End faults.


(** ** The page source with sharing *)

Section laws.
Context {S : Type} `{PageSourceLaws S}.

#[global] Instance cow_source_laws : PageSourceLaws (S * CowMap).
Proof.
  split.
  - intros [s c] [s' c'] p Hk E. cbn in *. destruct (ps_alloc s) as [[s1 q]|] eqn:Ea; [|done].
    cbn in E. injection E as -> -> ->. by apply ps_alloc_ok.
  - intros [s c] [s' c'] p b Hk Hu Hp E. cbn in *. destruct (ppnShared c p).
    + injection E as <- <- <-. done.
    + destruct (ps_free s p) as [[s1 b1]|] eqn:Ef; [|done]. cbn in E. injection E as -> -> ->.
      by apply (ps_free_ok s s' p b).
  - intros [s c] e q Hk E. cbn in *. destruct (ps_alloc s) as [[s1 p]|e1] eqn:Ea; [done|].
    by apply (ps_alloc_full s e1).
  - intros [s c] p Hk Hu Hp. unfold is_Some_res. cbn in *. destruct (ppnShared c p); [by eexists|].
    destruct (ps_free_some s p Hk Hu Hp) as [[s1 b] ->]. cbn. by eexists.
  - intros [s c]. cbn. apply ps_total_ok.
Qed.
End laws.

(** ** Several address spaces in one memory *)

Section spaces.
Context {S : Type} `{PageSourceLaws S}.
Implicit Types m : Mem S.

(** Words outside the tables may change, and frames become used. *)
Lemma wf_frame own m m' root : wf own m root → ps_ok (source m') → total m' = total m →
  (∀ h, ps_used (source m) h → ps_used (source m') h) →
  (∀ h, is_Some (own !! h) → words_of m' h = words_of m h) → wf own m' root.
Proof.
  intros Hw Hk Ht Hu Hwords.
  assert (∀ h q j, own !! h = Some q → ent m' h j = ent m h j) as HE.
  { intros h q j Hq. apply ent_words, Hwords. by eexists. }
  split.
  - apply Hw.
  - apply Hw.
  - intros h q Hq. rewrite Hwords by by eexists. by apply (wf_len _ _ _ Hw).
  - intros h q Hq. rewrite Ht. destruct (wf_used _ _ _ Hw _ _ Hq). split; [by apply Hu|done].
  - intros h q i Hq. destruct (wf_parent _ _ _ Hw _ _ _ Hq) as (g & Hg & ?). exists g.
    by rewrite (HE g q i Hg).
  - intros h q i Hq. rewrite (HE h q i Hq). by apply (wf_child _ _ _ Hw).
  - intros h q i Hq. rewrite (HE h q i Hq), Ht. intros Hl Hi Hp.
    destruct (wf_leaf _ _ _ Hw _ _ _ Hq Hl Hi Hp) as (? & ? & ?). split; [by apply Hu|done].
  - intros h q i Hq. rewrite (HE h q i Hq). by apply (wf_zero _ _ _ Hw h q).
  - done.
Qed.

Lemma translate_frame own m m' root v : wf own m root → wf own m' root → 0 <= v < 2 ^ 35 →
  (∀ h, is_Some (own !! h) → words_of m' h = words_of m h) → translate m' root v = translate m root v.
Proof.
  intros Hw Hw' Hv Hwords.
  apply (translate_ext own own m m' root v); try done.
  - intros t q i _ _ [Ho _]. split; [done|]. apply ent_words, Hwords. by eexists.
  - intros t q i _ _ [Ho _]. split; [done|]. apply ent_words, Hwords. by eexists.
Qed.

(** The processes with their top tables, and the tables each of them owns:
    no table belongs to two processes, and no page is a table. *)
Record spaces (procs : gmap Z Z) (owns : Z → gmap Z (list Z)) m : Prop := {
  sp_wf p root : procs !! p = Some root → wf (owns p) m root;
  sp_disj p q h : p ≠ q → is_Some (procs !! p) → is_Some (procs !! q) →
    is_Some (owns p !! h) → owns q !! h = None;
  sp_leaf p q root v e : procs !! p = Some root → is_Some (procs !! q) → 0 <= v < 2 ^ 35 →
    translate m root v = Some e → owns q !! page_ppn e = None;
}.

(** A mapped page has its entry in a table of its process. *)
Lemma translate_entry own m root v e : wf own m root → 0 <= v < 2 ^ 35 → translate m root v = Some e →
  let '(i4, i3, i2, i1) := indices v in
  ∃ t, own !! t = Some [i4; i3; i2] ∧ 0 <= i1 < 512 ∧ ent m t i1 = e ∧ present e = true ∧
    ps_used (source m) (page_ppn e) ∧ 0 < page_ppn e < total m ∧ own !! page_ppn e = None.
Proof.
  intros Hw Hv Ht. pose proof (translate_own own m root v e Hw Hv) as T.
  pose proof (indices_range v Hv) as Hi. destruct (indices v) as [[[i4 i3] i2] i1].
  destruct Hi as (_ & _ & _ & Hi1 & _). destruct (proj1 T Ht) as (t & Ho & Hp & He).
  exists t. destruct (wf_leaf _ _ _ Hw t _ i1 Ho eq_refl Hi1 Hp) as (? & ? & ?). by rewrite <- He in *.
Qed.

Lemma resolve_page own m root v e : wf own m root → 0 <= v < 2 ^ 35 → translate m root v = Some e →
  let '(i4, i3, i2, i1) := indices v in
  ∃ mp t, resolveMapping m root v = Val mp ∧ m_pt mp = Some t ∧ m_pti mp = i1 ∧ m_page_ppn mp = page_ppn e ∧
    own !! t = Some [i4; i3; i2] ∧ 0 <= i1 < 512 ∧ ent m t i1 = e ∧ present e = true.
Proof.
  intros Hw Hv Ht. pose proof (resolve_ok own m root v Hw Hv) as Hr.
  pose proof (translate_entry own m root v e Hw Hv Ht) as Hte.
  pose proof (indices_range v Hv) as Hi. unfold translate in Ht. destruct (indices v) as [[[i4 i3] i2] i1].
  destruct Hte as (t & Ho & R1 & He & Hp & _). destruct Hi as (R4 & R3 & R2 & _).
  destruct (child m root i4) as [t3|] eqn:C3; [|done]. cbn [mbind option_bind] in Ht, Hr.
  destruct (child m t3 i3) as [t2|] eqn:C2; [|done]. cbn [mbind option_bind] in Ht, Hr.
  destruct (child m t2 i2) as [t1|] eqn:C1; [|done]. cbn [mbind option_bind] in Ht, Hr.
  destruct (present (ent m t1 i1)) eqn:P; [|done]. injection Ht as Ht.
  pose proof (wf_root _ _ _ Hw) as O4.
  destruct (child_facts own m root root [] i4 t3 Hw O4) as (_ & _ & _ & O3 & _); [cbn; lia|done|done|].
  destruct (child_facts own m root t3 [i4] i3 t2 Hw O3) as (_ & _ & _ & O2 & _); [cbn; lia|done|done|].
  destruct (child_facts own m root t2 [i4; i3] i2 t1 Hw O2) as (_ & _ & _ & O1 & _); [cbn; lia|done|done|].
  cbn [app] in O1. assert (child m t1 i1 = Some (page_ppn e)) as C0 by (unfold child; by rewrite P, Ht).
  rewrite C0 in Hr. cbn [mbind option_bind default] in Hr.
  eexists _, t1. split; [exact Hr|]. rewrite <- Ht in Hp |- *. split_and!; done || lia.
Qed.

(** A process's mappings are changed by writing an entry of one of its page
    tables. *)
Lemma spaces_put procs owns m p root v e e' i4 i3 i2 i1 t : spaces procs owns m → procs !! p = Some root →
  0 <= v < 2 ^ 35 → indices v = (i4, i3, i2, i1) → owns p !! t = Some [i4; i3; i2] →
  translate m root v = Some e → present e' = true →
  ps_used (source m) (page_ppn e') → 0 < page_ppn e' < total m →
  (∀ q, is_Some (procs !! q) → owns q !! page_ppn e' = None) →
  ∃ m', put m t i1 e' = Val m' ∧ source m' = source m ∧ spaces procs owns m' ∧
    (∀ h, h ≠ t → words_of m' h = words_of m h) ∧
    ∀ q rq w, procs !! q = Some rq → 0 <= w < 2 ^ 35 →
      translate m' rq w = if decide (q = p ∧ w = v) then Some e' else translate m rq w.
Proof.
  intros Hs Hp Hv Hi Ht He Pe' Ue' Be' Le'. pose proof (sp_wf _ _ _ Hs p root Hp) as Hw.
  destruct (wf_len _ _ _ Hw _ _ Ht) as [Hl _].
  pose proof (indices_range v Hv) as Hr. rewrite Hi in Hr. destruct Hr as (_ & _ & _ & H1 & _).
  destruct (put_ent m t i1 e' Hl H1) as (m' & Ep & _).
  destruct (leaf_ok (owns p) m root t [i4; i3; i2] i1 e' (source m') m' Hw Ht eq_refl H1 Ep eq_refl)
    as (Hw' & Es & HE).
  { intros _. destruct (put_ent m t i1 e' Hl H1) as (m1 & Ep1 & Es1 & _). rewrite Ep in Ep1. injection Ep1 as <-.
    rewrite Es1. split; [done|]. split; [done|]. by apply Le'. }
  { congruence. }
  assert (∀ h, h ≠ t → words_of m' h = words_of m h) as Hwords.
  { intros h Hh. unfold put in Ep. apply bind_Val in Ep as (l & _ & [= <-]). unfold words_of. cbn [words].
    by rewrite lookup_insert_ne. }
  assert (∀ q rq, procs !! q = Some rq → q ≠ p → ∀ h, is_Some (owns q !! h) → words_of m' h = words_of m h) as Hq.
  { intros q rq Hq Hne h Hh. apply Hwords. intros ->.
    pose proof (sp_disj _ _ _ Hs p q t ltac:(done) ltac:(by eexists) ltac:(by eexists) ltac:(by eexists)) as Hn.
    rewrite Hn in Hh. by destruct Hh. }
  assert (∀ q rq, procs !! q = Some rq → wf (owns q) m' rq) as Hwf.
  { intros q rq Hq'. destruct (decide (q = p)) as [->|Hne]; [congruence|].
    apply (wf_frame _ m); [by apply (sp_wf _ _ _ Hs)|rewrite Es; apply (wf_src _ _ _ Hw)|unfold total; by rewrite Es|
      by rewrite Es|by apply (Hq q rq)]. }
  assert (∀ q rq w, procs !! q = Some rq → 0 <= w < 2 ^ 35 →
      translate m' rq w = if decide (q = p ∧ w = v) then Some e' else translate m rq w) as Htr.
  { intros q rq w Hq' Hw0. destruct (decide (q = p)) as [->|Hne].
    - assert (rq = root) as -> by congruence.
      rewrite (translate_leaf (owns p) m m' root t i4 i3 i2 i1 e' Hw Hw' Ht H1 (λ h _ j _, HE h j) w Hw0), Pe'.
      rewrite <- Hi. destruct (decide (w = v)) as [->|Hne].
      + by rewrite !decide_True.
      + rewrite (decide_False (P:=p = p ∧ _)) by tauto. rewrite decide_False; [done|].
        intros E. by apply Hne, indices_inj.
    - rewrite decide_False by tauto. apply (translate_frame (owns q)); [by apply (sp_wf _ _ _ Hs)|by apply Hwf|done|].
      by apply (Hq q rq). }
  exists m'. split; [done|]. split; [done|]. split; [|done].
  split; [done|apply (sp_disj _ _ _ Hs)|].
  intros q q' rq w x Hq' Hq'' Hw0. rewrite (Htr q rq w Hq' Hw0). case_decide as E.
  - intros [= <-]. by apply Le'.
  - by apply (sp_leaf _ _ _ Hs q q' rq w).
Qed.
(** Changes outside all tables. *)
Lemma spaces_frame procs owns m m' : spaces procs owns m → ps_ok (source m') → total m' = total m →
  (∀ h, ps_used (source m) h → ps_used (source m') h) →
  (∀ q h, is_Some (procs !! q) → is_Some (owns q !! h) → words_of m' h = words_of m h) →
  spaces procs owns m' ∧
  ∀ q rq w, procs !! q = Some rq → 0 <= w < 2 ^ 35 → translate m' rq w = translate m rq w.
Proof.
  intros Hs Hk Ht Hu Hwords.
  assert (∀ q rq, procs !! q = Some rq → wf (owns q) m' rq) as Hwf.
  { intros q rq Hq. apply (wf_frame _ m); [by apply (sp_wf _ _ _ Hs)|done..|].
    intros h Hh. apply (Hwords q); [by eexists|done]. }
  assert (∀ q rq w, procs !! q = Some rq → 0 <= w < 2 ^ 35 → translate m' rq w = translate m rq w) as Htr.
  { intros q rq w Hq Hw. apply (translate_frame (owns q)); [by apply (sp_wf _ _ _ Hs)|by apply Hwf|done|].
    intros h Hh. apply (Hwords q); [by eexists|done]. }
  split; [|done]. split; [done|apply (sp_disj _ _ _ Hs)|].
  intros q q' rq w e Hq Hq' Hw. rewrite (Htr q rq w Hq Hw). by apply (sp_leaf _ _ _ Hs q q' rq w).
Qed.
End spaces.

(** ** The sharing invariant *)

Section invariant.
Context {S : Type} `{PageSourceLaws S}.
Abbreviation CowMem := (Mem (S * CowMap)).
Implicit Types m : CowMem.

(** A page mapped twice is shared by both processes, at the same address; a
    sharer maps the page, without write access. *)
Record cow_ok (procs : gmap Z Z) owns m : Prop := {
  ck_spaces : spaces procs owns m;
  ck_twice p q rp rq v w e f : procs !! p = Some rp → procs !! q = Some rq →
    0 <= v < 2 ^ 35 → 0 <= w < 2 ^ 35 → translate m rp v = Some e → translate m rq w = Some f →
    page_ppn e = page_ppn f → (p, v) ≠ (q, w) →
    v = w ∧ p ∈ sharers (cow_map_ m) (page_ppn e) ∧ q ∈ sharers (cow_map_ m) (page_ppn e);
  ck_mapped p x : p ∈ sharers (cow_map_ m) x → 0 <= x < 2 ^ 28 →
    ∃ rp v e, procs !! p = Some rp ∧ 0 <= v < 2 ^ 35 ∧ translate m rp v = Some e ∧ page_ppn e = x;
  ck_readonly p rp v e : procs !! p = Some rp → 0 <= v < 2 ^ 35 → translate m rp v = Some e →
    p ∈ sharers (cow_map_ m) (page_ppn e) → writeable e = 0;
}.

Lemma page_ppn_range e : 0 <= page_ppn e < 2 ^ 28.
Proof.
  unfold page_ppn, field. change (2 ^ 28) with (2 ^ 28). rewrite Z.land_ones by lia.
  apply Z.mod_pos_bound. lia.
Qed.

Lemma sharers_set c f s x : 0 <= f < 2 ^ 28 → 0 <= x < 2 ^ 28 →
  sharers (set_sharers c f s) x = if decide (x = f) then s else sharers c x.
Proof.
  intros Hf Hx. unfold sharers, set_sharers. rewrite (wrap_small 32 f), (wrap_small 32 x) by lia.
  destruct (decide (x = f)) as [->|]; [by rewrite lookup_insert_eq|by rewrite lookup_insert_ne].
Qed.

Lemma page_ppn_set_writeable w e : page_ppn (set_writeable w e) = page_ppn e.
Proof. unfold page_ppn, set_writeable. apply field_set_other; lia. Qed.

(** A writeable page is mapped nowhere else. *)
Lemma cow_isolated procs owns m p q rp rq v w e f : cow_ok procs owns m →
  procs !! p = Some rp → procs !! q = Some rq → 0 <= v < 2 ^ 35 → 0 <= w < 2 ^ 35 →
  translate m rp v = Some e → translate m rq w = Some f → page_ppn e = page_ppn f →
  writeable e = 1 → (p, v) = (q, w).
Proof.
  intros Hc Hp Hq Hv Hw He Hf Hx Hwr. destruct (decide ((p, v) = (q, w))) as [|Hne]; [done|].
  destruct (ck_twice _ _ _ Hc p q rp rq v w e f) as (_ & Hin & _); try done.
  pose proof (ck_readonly _ _ _ Hc p rp v e Hp Hv He Hin). lia.
Qed.

(** The effect of a page fault of [p] at [v] on frame [x]: the mapping gets
    entry [e'], the processes in [up] get write access, [s'] share [x] after. *)
Lemma cow_step procs owns m m' p rp v e e' up s' :
  cow_ok procs owns m → procs !! p = Some rp → 0 <= v < 2 ^ 35 → translate m rp v = Some e →
  p ∈ sharers (cow_map_ m) (page_ppn e) →
  spaces procs owns m' →
  cow_map_ m' = set_sharers (cow_map_ m) (page_ppn e) s' →
  (∀ q rq w, procs !! q = Some rq → 0 <= w < 2 ^ 35 →
    translate m' rq w = if decide (q = p ∧ w = v) then Some e'
                        else if decide (q ∈ up ∧ w = v) then set_writeable 1 <$> translate m rq w
                        else translate m rq w) →
  (page_ppn e' = page_ppn e ∧ sharers (cow_map_ m) (page_ppn e) = {[p]} ∨
   (∀ q rq w f, procs !! q = Some rq → 0 <= w < 2 ^ 35 → translate m rq w = Some f → page_ppn f ≠ page_ppn e')) →
  s' ∪ up = sharers (cow_map_ m) (page_ppn e) ∖ {[p]} →
  (up = ∅ ∨ s' = ∅ ∧ ∃ q0, up = {[q0]}) →
  cow_ok procs owns m'.
Proof.
  intros Hc Hp Hv He Hin Hs' Hcm Htr Hx Hsu Hup.
  assert (∀ q, q ∈ s' ∨ q ∈ up ↔ q ∈ sharers (cow_map_ m) (page_ppn e) ∧ q ≠ p) as Hmem
    by (clear -Hsu; set_solver).
  assert (∀ q, q ∈ up → s' = ∅ ∧ ∀ q', q' ∈ up → q' = q) as Hup1.
  { clear -Hup. intros q Hq. destruct Hup as [->|(-> & q0 & ->)]; set_solver. }
  assert (∀ q : Z, q ∉ (∅ : gset Z)) as Hnil by (clear; set_solver).
  clear Hsu Hup.
  set (c := cow_map_ m) in *. set (x := page_ppn e) in *.
  pose proof (page_ppn_range e) as Rx. fold x in Rx.
  assert (∀ h, 0 <= h < 2 ^ 28 → sharers (cow_map_ m') h = if decide (h = x) then s' else sharers c h) as Hsh
    by (intros h Hh; rewrite Hcm; by apply sharers_set).
  (* where a mapping comes from *)
  assert (∀ q rq w f, procs !! q = Some rq → 0 <= w < 2 ^ 35 → translate m' rq w = Some f →
    q = p ∧ w = v ∧ f = e' ∨
    ¬ (q = p ∧ w = v) ∧ ∃ f0, translate m rq w = Some f0 ∧ page_ppn f = page_ppn f0 ∧
      (q ∈ up ∧ w = v ∨ f = f0)) as Hcases.
  { intros q rq w f Hq Hw. rewrite (Htr q rq w Hq Hw). case_decide as E1; [intros [= <-]; left; tauto|].
    case_decide as E2; intros Hf; right; (split; [done|]).
    - apply fmap_Some in Hf as (f0 & Hf0 & ->). exists f0. rewrite page_ppn_set_writeable. tauto.
    - exists f. tauto. }
  (* other mappings of the frame belong to other processes *)
  assert (∀ q rq w f, procs !! q = Some rq → 0 <= w < 2 ^ 35 → translate m rq w = Some f → page_ppn f = x →
    ¬ (q = p ∧ w = v) → q ∈ sharers c x ∧ q ≠ p ∧ w = v) as Hother.
  { intros q rq w f Hq Hw Hf Hfx Hne.
    destruct (ck_twice _ _ _ Hc p q rp rq v w e f) as (<- & _ & Hqs); try done;
      [intros [= -> ->]; by apply Hne|].
    split; [done|]. split; [|done]. intros ->. apply Hne. split; done. }
  assert (∀ q rq w f, procs !! q = Some rq → 0 <= w < 2 ^ 35 → translate m rq w = Some f →
    ¬ (q = p ∧ w = v) → page_ppn f ≠ page_ppn e') as Hnew.
  { intros q rq w f Hq Hw Hf Hne E. destruct Hx as [[Hx1 Hx2]|Hx]; [|by apply (Hx q rq w f)].
    destruct (Hother q rq w f) as (Hd & Hqp & _); try done; [congruence|].
    rewrite Hx2, elem_of_singleton in Hd. done. }
  split; [done| | |].
  - intros q q' rq rq' w w' f f' Hq Hq' Hw Hw' Hf Hf' Hff Hne.
    destruct (Hcases _ _ _ _ Hq Hw Hf) as [(-> & -> & ->)|(Hn & f0 & Hf0 & Hp0 & _)],
      (Hcases _ _ _ _ Hq' Hw' Hf') as [(-> & -> & ->)|(Hn' & f0' & Hf0' & Hp0' & _)]; [done|..].
    + exfalso. apply (Hnew q' rq' w' f0'); congruence.
    + exfalso. apply (Hnew q rq w f0); congruence.
    + destruct (ck_twice _ _ _ Hc q q' rq rq' w w' f0 f0') as (<- & S1 & S2); try done; [congruence|].
      split; [done|]. rewrite Hp0, Hsh by apply page_ppn_range. destruct (decide (page_ppn f0 = x)) as [E|]; [|done].
      destruct (Hother q rq w f0) as (D1 & D1' & _); try done.
      destruct (Hother q' rq' w f0') as (D2 & D2' & _); try done; [congruence|].
      destruct (proj2 (Hmem q) (conj D1 D1')) as [Hq1|Hq1], (proj2 (Hmem q') (conj D2 D2')) as [Hq2|Hq2]; [done|..].
      * destruct (Hup1 q' Hq2) as [-> _]. by apply Hnil in Hq1.
      * destruct (Hup1 q Hq1) as [-> _]. by apply Hnil in Hq2.
      * destruct (Hup1 q Hq1) as [_ Hu]. rewrite (Hu q' Hq2) in Hne. done.
  - intros q y Hq Ry. rewrite Hsh in Hq by done.
    assert (q ∈ sharers c y ∧ (y = x → q ≠ p)) as [Hqc Hqp].
    { destruct (decide (y = x)) as [->|]; [|done]. pose proof (proj1 (Hmem q) (or_introl Hq)). tauto. }
    destruct (ck_mapped _ _ _ Hc q y Hqc Ry) as (rq & w & f & Hq1 & Hw & Hf & Hfy).
    assert (¬ (q = p ∧ w = v)) as Hne.
    { intros [-> ->]. assert (f = e) as -> by congruence. by apply Hqp. }
    exists rq, w.
    destruct (decide (q ∈ up ∧ w = v)) as [E|E].
    + exists (set_writeable 1 f). rewrite (Htr q rq w Hq1 Hw), decide_False, decide_True, Hf, page_ppn_set_writeable by done. done.
    + exists f. rewrite (Htr q rq w Hq1 Hw), !decide_False by done. done.
  - intros q rq w f Hq Hw Hf Hqs. rewrite Hsh in Hqs by apply page_ppn_range.
    destruct (Hcases _ _ _ _ Hq Hw Hf) as [(-> & -> & ->)|(Hn & f0 & Hf0 & Hp0 & [[Hqu ->]| ->])].
    + exfalso. destruct (decide (page_ppn e' = x)) as [E|E].
      { destruct (proj1 (Hmem p) (or_introl Hqs)). done. }
      destruct Hx as [[? _]|Hx]; [done|].
      destruct (ck_mapped _ _ _ Hc p _ Hqs (page_ppn_range _)) as (r & w2 & f2 & ? & ? & ? & ?).
      by apply (Hx p r w2 f2).
    + exfalso. destruct (Hup1 q Hqu) as [-> _]. destruct (proj1 (Hmem q) (or_intror Hqu)) as [Hqx Hqp].
      destruct (ck_mapped _ _ _ Hc q x Hqx Rx) as (rq' & w2 & f2 & ? & ? & ? & ?).
      assert (rq' = rq) as -> by congruence.
      destruct (Hother q rq w2 f2) as (_ & _ & ->); try done; [tauto|].
      rewrite decide_True in Hqs by congruence. by apply Hnil in Hqs.
    + apply (ck_readonly _ _ _ Hc q rq w f0 Hq Hw Hf0). fold c.
      destruct (decide (page_ppn f0 = x)) as [E|]; [|done].
      rewrite E. apply (Hmem q). by left.
Qed.
(** ** The page fault handler of shared pages *)

Lemma spaces_cow procs owns m c : spaces procs owns m → spaces procs owns (with_cow_map m c).
Proof.
  intros Hs. destruct (decide (procs = ∅)) as [->|Hne].
  { split; [intros ? ? Hq; by rewrite lookup_empty in Hq|apply Hs|intros ? ? ? ? ? Hq; by rewrite lookup_empty in Hq]. }
  apply map_choose in Hne as (q & rq & Hq). pose proof (wf_src _ _ _ (sp_wf _ _ _ Hs q rq Hq)) as Hk.
  apply (spaces_frame procs owns m (with_cow_map m c)); try done;
    unfold with_cow_map, total; cbn [source]; destruct (source m) as [s0 c0]; done.
Qed.

Lemma put_copy m g x t i e m3 : t ≠ g → x ≠ t → put (copy_frame m g x) t i e = Val m3 →
  ∃ m', put m t i e = Val m' ∧ copy_frame m' g x = m3.
Proof.
  intros Htg Hxt. unfold put, copy_frame. cbn [words source].
  assert (∀ W, words_of (mkMem (<[g:=W]> (words m)) (source m)) t = words_of m t) as ->
    by (intros W; unfold words_of; cbn [words]; by rewrite lookup_insert_ne).
  destruct (zset (words_of m t) i e) as [l|]; cbn [mbind res_bind]; [|done]. intros [= <-].
  eexists. split; [done|]. cbn [words source]. f_equal.
  rewrite insert_insert_ne by done. f_equal. f_equal. unfold words_of. cbn [words]. by rewrite lookup_insert_ne.
Qed.

(** The facts about the mapping of a shared page. *)
Lemma shared_page procs owns m p rp v e off : spaces procs owns m → procs !! p = Some rp → 0 <= v < 2 ^ 35 →
  translate m rp v = Some e → 0 <= off < PAGE_SIZE →
  let '(i4, i3, i2, i1) := indices v in
  ∃ mp t, resolveMapping m rp ((v * PAGE_SIZE + off) / PAGE_SIZE) = Val mp ∧ m_page_ppn mp = page_ppn e ∧
    (∀ m', words_of m' t = words_of m t → get_pte m' mp = Val e) ∧
    (∀ m' e', put_pte m' mp e' = put m' t i1 e') ∧
    owns p !! t = Some [i4; i3; i2] ∧ present e = true ∧ page_ppn e ≠ t ∧
    ps_used (source m) (page_ppn e) ∧ 0 < page_ppn e < total m ∧ ps_used (source m) t.
Proof.
  intros Hc Hp Hv He Ho. pose proof (sp_wf _ _ _ Hc p rp Hp) as Hw.
  pose proof (resolve_page (owns p) m rp v e Hw Hv He) as Hr.
  pose proof (translate_entry (owns p) m rp v e Hw Hv He) as Ht.
  assert ((v * PAGE_SIZE + off) / PAGE_SIZE = v) as -> by (unfold PAGE_SIZE in *; Z.to_euclidean_division_equations; lia).
  destruct (indices v) as [[[i4 i3] i2] i1].
  destruct Hr as (mp & t & Hmp & Hpt & Hpti & Hx & Hot & Hi & Hent & Pe).
  destruct Ht as (_ & _ & _ & _ & _ & Hu & Hb & Hn).
  destruct (wf_len _ _ _ Hw _ _ Hot) as [Hl _]. destruct (wf_used _ _ _ Hw _ _ Hot) as [Hut _].
  exists mp, t. split; [done|]. split; [done|]. split.
  { intros m' Hm'. unfold get_pte. rewrite Hpt, Hpti, (get_ent m' t i1) by (by rewrite ?Hm' || done).
    by rewrite (ent_words m m'), Hent. }
  split; [intros m' e'; unfold put_pte; by rewrite Hpt, Hpti|].
  split; [done|]. split; [done|]. split; [congruence|]. by split_and!; try lia.
Qed.
(** A newly allocated frame is mapped nowhere and not a table. *)
Lemma fresh_frame procs owns m s g : spaces procs owns m → ps_alloc (source m) = Val (s, g) →
  (∀ q, is_Some (procs !! q) → owns q !! g = None) ∧
  (∀ q rq w f, procs !! q = Some rq → 0 <= w < 2 ^ 35 → translate m rq w = Some f → page_ppn f ≠ g).
Proof.
  intros Hs Ea.
  assert (∀ q rq, procs !! q = Some rq → ¬ ps_used (source m) g) as Hu.
  { intros q rq Hq. by destruct (ps_alloc_ok _ _ _ (wf_src _ _ _ (sp_wf _ _ _ Hs q rq Hq)) Ea) as (_ & _ & _ & ? & _). }
  split.
  - intros q [rq Hq]. apply eq_None_not_Some. intros [l Hl].
    by apply (Hu q rq Hq), (wf_used _ _ _ (sp_wf _ _ _ Hs q rq Hq) _ _ Hl).
  - intros q rq w f Hq Hw Hf <-. apply (Hu q rq Hq).
    pose proof (translate_entry (owns q) m rq w f (sp_wf _ _ _ Hs q rq Hq) Hw Hf) as T.
    destruct (indices w) as [[[? ?] ?] ?]. by destruct T as (_ & _ & _ & _ & _ & ? & _).
Qed.

Lemma entry_remap g e : 0 <= g < 2 ^ 28 → present e = true →
  let e' := set_writeable 1 (set_page_ppn g e) in
  present e' = true ∧ page_ppn e' = g ∧ writeable e' = 1.
Proof.
  intros Hg Pe. unfold present, page_ppn, writeable, set_writeable, set_page_ppn in *. split_and!;
    repeat first [rewrite field_set_same by lia|rewrite field_set_other by lia]; done.
Qed.

Lemma entry_writeable e : present e = true →
  present (set_writeable 1 e) = true ∧ writeable (set_writeable 1 e) = 1.
Proof.
  intros Pe. unfold present, writeable, set_writeable in *. split_and!;
    repeat first [rewrite field_set_same by lia|rewrite field_set_other by lia]; done.
Qed.

(** The mapping moved to a copy of the frame, in a frame newly allocated. *)
Lemma remap_ok procs owns m p rp v e i4 i3 i2 i1 t s1 g : spaces procs owns m → procs !! p = Some rp →
  0 <= v < 2 ^ 35 → indices v = (i4, i3, i2, i1) → owns p !! t = Some [i4; i3; i2] →
  translate m rp v = Some e → present e = true → ps_used (source m) (page_ppn e) →
  ps_alloc (source m) = Val (s1, g) →
  let x := page_ppn e in
  let e' := set_writeable 1 (set_page_ppn g e) in
  ∃ m3, put (copy_frame (zero_frame (mkMem (words m) s1) g) g x) t i1 e' = Val m3 ∧
    source m3 = s1 ∧ spaces procs owns m3 ∧ 0 < g < 2 ^ 28 ∧ t ≠ g ∧
    (∀ h, h ≠ g → h ≠ t → words_of m3 h = words_of m h) ∧ words_of m3 g = words_of m x ∧
    ∀ q rq w, procs !! q = Some rq → 0 <= w < 2 ^ 35 →
      translate m3 rq w = if decide (q = p ∧ w = v) then Some e' else translate m rq w.
Proof.
  intros Hs Hp Hv Hi Ht He Pe Ux Ea x e'.
  pose proof (sp_wf _ _ _ Hs p rp Hp) as Hw.
  destruct (ps_alloc_ok _ _ _ (wf_src _ _ _ Hw) Ea) as (K1 & T1 & B1 & N1 & U1).
  pose proof (ps_total_ok _ K1) as Htot. rewrite T1 in Htot.
  destruct (fresh_frame procs owns m s1 g Hs Ea) as [Fo _].
  assert (x ≠ g) as Hxg by (by intros <-).
  assert (t ≠ g) as Htg by (intros ->; pose proof (Fo p ltac:(by eexists)); congruence).
  set (m2 := copy_frame (zero_frame (mkMem (words m) s1) g) g x).
  assert (∀ h, words_of m2 h = if decide (h = g) then words_of m x else words_of m h) as W2.
  { intros h. unfold m2, copy_frame, zero_frame, words_of. cbn [words].
    destruct (decide (h = g)) as [->|].
    - by rewrite lookup_insert_eq, lookup_insert_ne.
    - by rewrite !lookup_insert_ne. }
  destruct (spaces_frame procs owns m m2 Hs) as [Hs2 Htr2]; [done|done|intros h Hh; apply U1; by left| |].
  { intros q h Hq Hh. rewrite W2, decide_False; [done|]. intros ->. rewrite (Fo q Hq) in Hh. by destruct Hh. }
  destruct (entry_remap g e ltac:(lia) Pe) as (P' & X' & _). fold e' in P', X'.
  destruct (spaces_put procs owns m2 p rp v e e' i4 i3 i2 i1 t Hs2 Hp Hv Hi Ht) as (m3 & E3 & S3 & Hs3 & W3 & T3).
  { by rewrite (Htr2 p). }
  { done. }
  { rewrite X'. apply U1. by right. }
  { rewrite X'. unfold total, m2. cbn [source copy_frame zero_frame]. by rewrite T1. }
  { rewrite X'. done. }
  exists m3. split; [exact E3|]. split; [done|]. split; [done|]. split; [lia|]. split; [done|].
  split; [intros h Hg Hh; by rewrite W3, W2, decide_False|].
  split; [by rewrite W3, W2, decide_True|].
  intros q rq w Hq Hw'. rewrite (T3 q rq w Hq Hw'). case_decide; [done|]. by apply (Htr2 q).
Qed.
(** The entries differ at most in that the second gives write access. *)
Definition keeps (f f' : Z) : Prop :=
  ∀ i, 0 <= i → i ≠ 1 ∨ Z.testbit f i = true → Z.testbit f' i = Z.testbit f i.

Lemma keeps_refl f : keeps f f.
Proof. done. Qed.

Lemma keeps_trans f g h : keeps f g → keeps g h → keeps f h.
Proof. intros H1 H2 i Hi Hb. rewrite (H2 i Hi), (H1 i Hi Hb); [done|]. rewrite (H1 i Hi Hb). tauto. Qed.

Lemma keeps_set_writeable f : keeps f (set_writeable 1 f).
Proof.
  intros i Hi Hb. unfold set_writeable. rewrite set_field_bits by lia.
  destruct (Z.leb_spec 1 i), (Z.ltb_spec i (1 + 1)); cbn [andb]; try done.
  assert (i = 1) as -> by lia. destruct Hb as [| ->]; [lia|done].
Qed.

Lemma keeps_page_ppn f f' : keeps f f' → page_ppn f' = page_ppn f.
Proof.
  intros Hk. apply Z.bits_inj'. intros i Hi. unfold page_ppn. rewrite !field_bits by lia.
  rewrite Hk by lia. done.
Qed.

Lemma keeps_writeable f f' : keeps f f' → writeable f = 1 → writeable f' = 1.
Proof.
  intros Hk Hw. apply (f_equal (λ x, Z.testbit x 0)) in Hw. unfold writeable in *.
  rewrite field_bits in Hw by lia. cbn in Hw.
  apply Z.bits_inj'. intros i Hi. rewrite field_bits by lia. destruct (Z.ltb_spec i 1) as [Hlt|Hge].
  - assert (i = 0) as -> by lia. cbn [andb Z.add]. rewrite Hk by (lia || by right). done.
  - cbn [andb]. symmetry. apply Z.bits_above_log2; [lia|cbn; lia].
Qed.

(** What a handled fault of [p] at page [v] leaves: write access to a page
    with the old contents, all other mappings with their frames and contents. *)
Definition private_copy (procs : gmap Z Z) m m' (p rp v e : Z) : Prop :=
  ∃ e', translate m' rp v = Some e' ∧ writeable e' = 1 ∧
    words_of m' (page_ppn e') = words_of m (page_ppn e) ∧
    ∀ q rq w, procs !! q = Some rq → 0 <= w < 2 ^ 35 → (q, w) ≠ (p, v) →
      match translate m rq w with
      | None => translate m' rq w = None
      | Some f => (∃ f', translate m' rq w = Some f' ∧ keeps f f') ∧
          words_of m' (page_ppn f) = words_of m (page_ppn f)
      end.

Lemma private_copy_intro procs m m' p rp v e e' up : procs !! p = Some rp → 0 <= v < 2 ^ 35 →
  writeable e' = 1 → words_of m' (page_ppn e') = words_of m (page_ppn e) →
  (∀ q rq w, procs !! q = Some rq → 0 <= w < 2 ^ 35 →
    translate m' rq w = if decide (q = p ∧ w = v) then Some e'
                        else if decide (q ∈ (up : gset Z) ∧ w = v) then set_writeable 1 <$> translate m rq w
                        else translate m rq w) →
  (∀ q rq w f, procs !! q = Some rq → 0 <= w < 2 ^ 35 → translate m rq w = Some f →
    words_of m' (page_ppn f) = words_of m (page_ppn f)) →
  private_copy procs m m' p rp v e.
Proof.
  intros Hp Hv Hwr Hwords Htr Hw. exists e'. split; [by rewrite (Htr p), decide_True|].
  split; [done|]. split; [done|]. intros q rq w Hq Hw0 Hne. rewrite (Htr q rq w Hq Hw0).
  rewrite decide_False by (intros [-> ->]; by apply Hne).
  destruct (translate m rq w) as [f|] eqn:Hf; [|by case_decide].
  split; [|by apply (Hw q rq w f)].
  case_decide; eexists; (split; [done|]); [apply keeps_set_writeable|apply keeps_refl].
Qed.

(** Case 1 of the handler: the last sharer gets write access. *)
Lemma fault_single procs owns m p rp v e i4 i3 i2 i1 t : cow_ok procs owns m → procs !! p = Some rp →
  0 <= v < 2 ^ 35 → indices v = (i4, i3, i2, i1) → owns p !! t = Some [i4; i3; i2] →
  translate m rp v = Some e → present e = true → ps_used (source m) (page_ppn e) →
  0 < page_ppn e < total m → sharers (cow_map_ m) (page_ppn e) = {[p]} →
  ∃ m1, put m t i1 (set_writeable 1 e) = Val m1 ∧ cow_ok procs owns (erase m1 (page_ppn e) p) ∧
    translate (erase m1 (page_ppn e) p) rp v = Some (set_writeable 1 e) ∧
    private_copy procs m (erase m1 (page_ppn e) p) p rp v e.
Proof.
  intros Hc Hp Hv Hi Ht He Pe Ux Bx Hsh. pose proof (ck_spaces _ _ _ Hc) as Hs.
  destruct (entry_writeable e Pe) as [P' R']. pose proof (page_ppn_set_writeable 1 e) as X'.
  destruct (spaces_put procs owns m p rp v e (set_writeable 1 e) i4 i3 i2 i1 t Hs Hp Hv Hi Ht He P')
    as (m1 & E1 & S1 & Hs1 & W1 & T1); [by rewrite X'..| |].
  { rewrite X'. intros q Hq. by apply (sp_leaf _ _ _ Hs p q rp v). }
  exists m1. split; [done|].
  assert (∀ q rq w, procs !! q = Some rq → 0 <= w < 2 ^ 35 →
    translate (erase m1 (page_ppn e) p) rq w = if decide (q = p ∧ w = v) then Some (set_writeable 1 e)
      else if decide (q ∈ (∅ : gset Z) ∧ w = v) then set_writeable 1 <$> translate m rq w
      else translate m rq w) as Htr.
  { intros q rq w Hq Hw. rewrite (decide_False (P:=_ ∈ _ ∧ _)) by set_solver. by apply (T1 q rq w). }
  assert (cow_map_ m1 = cow_map_ m) as Hcm by (unfold cow_map_; by rewrite S1).
  split; [|split; [by rewrite (Htr p), decide_True|]].
  - apply (cow_step procs owns m _ p rp v e (set_writeable 1 e) ∅ ∅); try done.
    + rewrite Hsh. set_solver.
    + by apply spaces_cow.
    + unfold erase. cbn [cow_map_ source with_cow_map snd]. rewrite Hcm, Hsh. f_equal. set_solver.
    + by left.
    + rewrite Hsh. set_solver.
    + by left.
  - apply (private_copy_intro procs m _ p rp v e (set_writeable 1 e) ∅); try done.
    + rewrite X'. apply W1. intros E. rewrite <- E in Ht.
      by rewrite (sp_leaf _ _ _ Hs p p rp v e Hp ltac:(by eexists) Hv He) in Ht.
    + intros q rq w f Hq Hw Hf. apply W1. intros E. rewrite <- E in Ht.
      by rewrite (sp_leaf _ _ _ Hs q p rq w f Hq ltac:(by eexists) Hw Hf) in Ht.
Qed.
Lemma alloc_cow m s1 g : ps_alloc (source m) = Val (s1, g) → snd s1 = cow_map_ m.
Proof.
  unfold cow_map_. destruct (source m) as [s0 c]. cbn. destruct (ps_alloc s0) as [[s2 q]|]; [|done].
  cbn. by intros [= <- <-].
Qed.

Lemma erase_cow m x p q : 0 <= x < 2 ^ 28 → q ∈ sharers (cow_map_ (erase m x p)) x ↔ q ∈ sharers (cow_map_ m) x ∧ q ≠ p.
Proof.
  intros Hx. unfold erase. cbn [cow_map_ source with_cow_map snd].
  rewrite sharers_set, decide_True by done. set_solver.
Qed.

(** Pages are not tables. *)
Lemma page_not_table procs owns m p q rq w f t l : spaces procs owns m → is_Some (procs !! p) →
  owns p !! t = Some l → procs !! q = Some rq → 0 <= w < 2 ^ 35 → translate m rq w = Some f → page_ppn f ≠ t.
Proof.
  intros Hs Hp Ht Hq Hw Hf E. pose proof (sp_leaf _ _ _ Hs q p rq w f Hq Hp Hw Hf). congruence.
Qed.

(** Case 3: the page is copied, the others go on sharing the frame. *)
Lemma fault_many procs owns m p rp v e i4 i3 i2 i1 t s1 g : cow_ok procs owns m → procs !! p = Some rp →
  0 <= v < 2 ^ 35 → indices v = (i4, i3, i2, i1) → owns p !! t = Some [i4; i3; i2] →
  translate m rp v = Some e → present e = true → ps_used (source m) (page_ppn e) →
  p ∈ sharers (cow_map_ m) (page_ppn e) → ps_alloc (source m) = Val (s1, g) →
  ∃ m3, put (copy_frame (zero_frame (mkMem (words m) s1) g) g (page_ppn e)) t i1
          (set_writeable 1 (set_page_ppn g e)) = Val m3 ∧ t ≠ g ∧ cow_map_ m3 = cow_map_ m ∧
    cow_ok procs owns (erase m3 (page_ppn e) p) ∧ private_copy procs m (erase m3 (page_ppn e) p) p rp v e.
Proof.
  intros Hc Hp Hv Hi Ht He Pe Ux Hin Ea. pose proof (ck_spaces _ _ _ Hc) as Hs.
  destruct (remap_ok procs owns m p rp v e i4 i3 i2 i1 t s1 g Hs Hp Hv Hi Ht He Pe Ux Ea)
    as (m3 & E3 & S3 & Hs3 & Bg & Htg & W3 & Wg & T3).
  destruct (fresh_frame procs owns m s1 g Hs Ea) as [_ Fm].
  destruct (entry_remap g e ltac:(lia) Pe) as (P' & X' & R').
  exists m3. split; [done|]. split; [done|]. split; [unfold cow_map_ at 1; by rewrite S3, (alloc_cow m s1 g Ea)|].
  assert (∀ q rq w, procs !! q = Some rq → 0 <= w < 2 ^ 35 →
    translate (erase m3 (page_ppn e) p) rq w = if decide (q = p ∧ w = v) then Some (set_writeable 1 (set_page_ppn g e))
      else if decide (q ∈ (∅ : gset Z) ∧ w = v) then set_writeable 1 <$> translate m rq w
      else translate m rq w) as Htr.
  { intros q rq w Hq Hw. rewrite (decide_False (P:=_ ∈ _ ∧ _)) by set_solver. by apply (T3 q rq w). }
  split.
  - apply (cow_step procs owns m _ p rp v e (set_writeable 1 (set_page_ppn g e)) ∅ (sharers (cow_map_ m) (page_ppn e) ∖ {[p]}) Hc Hp Hv He Hin);
      [by apply spaces_cow| |exact Htr| |set_solver|by left].
    + unfold erase. cbn [cow_map_ source with_cow_map snd]. unfold cow_map_ at 1 2.
      by rewrite S3, (alloc_cow m s1 g Ea).
    + right. rewrite X'. exact Fm.
  - apply (private_copy_intro procs m _ p rp v e (set_writeable 1 (set_page_ppn g e)) ∅ Hp Hv R'); [by rewrite X'|exact Htr|].
    intros q rq w f Hq Hw Hf. apply W3; [by apply (Fm q rq w)|].
    by apply (page_not_table procs owns m p q rq w f t [i4; i3; i2] Hs ltac:(by eexists) Ht).
Qed.

(** Case 2 is case 3 followed by case 1 for the other sharer. *)
Lemma private_copy_twice procs m m' m'' p q rp rq v e f : procs !! p = Some rp → procs !! q = Some rq → p ≠ q →
  0 <= v < 2 ^ 35 → private_copy procs m m' p rp v e → translate m' rq v = Some f →
  translate m'' rq v = Some (set_writeable 1 f) → private_copy procs m' m'' q rq v f →
  private_copy procs m m'' p rp v e.
Proof.
  intros Hp Hq Hpq Hv (e' & T' & R' & W' & K') Tf Tf' (f' & T2 & R2 & W2 & K2).
  rewrite Tf' in T2. injection T2 as <-.
  pose proof (K2 p rp v Hp Hv ltac:(congruence)) as Kp. rewrite T' in Kp. destruct Kp as [(e2 & Te2 & Ke2) We2].
  exists e2. split; [done|]. split; [by eapply keeps_writeable|].
  rewrite (keeps_page_ppn _ _ Ke2). split; [congruence|].
  intros q1 r1 w Hq1 Hw Hne. specialize (K' q1 r1 w Hq1 Hw Hne).
  destruct (translate m r1 w) as [f1|] eqn:T1.
  - destruct K' as [(f1' & T1' & K1') W1'].
    destruct (decide ((q1, w) = (q, v))) as [E|Hne2].
    + injection E as -> ->. assert (r1 = rq) as -> by congruence. assert (f1' = f) as -> by congruence.
      split; [exists (set_writeable 1 f); split; [done|]; eapply keeps_trans; [done|apply keeps_set_writeable]|].
      rewrite page_ppn_set_writeable, (keeps_page_ppn _ _ K1') in W2. congruence.
    + specialize (K2 q1 r1 w Hq1 Hw Hne2). rewrite T1' in K2. destruct K2 as [(f2 & T2 & K2) W3].
      split; [exists f2; split; [done|]; by eapply keeps_trans|].
      rewrite (keeps_page_ppn _ _ K1') in W3. congruence.
  - destruct (decide ((q1, w) = (q, v))) as [E|Hne2].
    + injection E as -> ->. congruence.
    + specialize (K2 q1 r1 w Hq1 Hw Hne2). by rewrite K' in K2.
Qed.
Lemma at0_singleton q : at0 {[q]} = Val q.
Proof. unfold at0. by rewrite elements_singleton. Qed.

Lemma words_elsewhere m (s1 : S * CowMap) g x t : t ≠ g →
  words_of (copy_frame (zero_frame (mkMem (words m) s1) g) g x) t = words_of m t ∧
  words_of (zero_frame (mkMem (words m) s1) g) t = words_of m t.
Proof. intros Ht. unfold copy_frame, zero_frame, words_of. cbn [words]. by rewrite !lookup_insert_ne. Qed.

(** No other mapping reaches the page. *)
Definition exclusive (procs : gmap Z Z) m (p rp v : Z) : Prop :=
  ∀ e q rq w f, translate m rp v = Some e → procs !! q = Some rq → 0 <= w < 2 ^ 35 →
    translate m rq w = Some f → page_ppn f = page_ppn e → (q, w) = (p, v).

Lemma handleCOWPageFault_ok procs owns m p rp v e off : cow_ok procs owns m → procs !! p = Some rp →
  0 <= v < 2 ^ 35 → translate m rp v = Some e → p ∈ sharers (cow_map_ m) (page_ppn e) → 0 <= off < PAGE_SIZE →
  match handleCOWPageFault procs m p (v * PAGE_SIZE + off) with
  | Err _ => nearly_full 0 m ∧ sharers (cow_map_ m) (page_ppn e) ≠ {[p]}
  | Val m' => cow_ok procs owns m' ∧ private_copy procs m m' p rp v e
  end.
Proof.
  intros Hc Hp Hv He Hin Ho. pose proof (ck_spaces _ _ _ Hc) as Hs. pose proof (page_ppn_range e) as Rx.
  pose proof (shared_page procs owns m p rp v e off Hs Hp Hv He Ho) as Hsp.
  destruct (indices v) as [[[i4 i3] i2] i1] eqn:Hi.
  destruct Hsp as (mp & t & Hmp & Hx & Hget & Hput & Ht & Pe & Hxt & Ux & Bx & _).
  unfold handleCOWPageFault. rewrite Hp. cbn [mbind res_bind]. rewrite Hmp. cbn [mbind res_bind].
  rewrite !Hx, bool_decide_eq_true_2 by done. cbn [kassert mbind res_bind].
  set (s := sharers (cow_map_ m) (page_ppn e)) in *.
  assert (size s ≠ 0%nat) as Hs0 by (intros E%size_empty_inv; set_solver).
  destruct (Z.eqb_spec (Z.of_nat (size s)) 0) as [|_]; [lia|].
  assert (size (s ∖ {[p]}) = (size s - 1)%nat) as Hd.
  { rewrite size_difference by set_solver. by rewrite size_singleton. }
  assert (s = {[p]} ∪ s ∖ {[p]}) as Hsplit by (apply union_difference_singleton_L; done).
  destruct (Z.eqb_spec (Z.of_nat (size s)) 1) as [E1|N1].
  { rewrite (Hget m eq_refl). cbn [mbind res_bind]. rewrite Hput.
    assert (s = {[p]}) as Hsp1.
    { assert (s ∖ {[p]} = ∅) as Hemp by (apply leibniz_equiv, size_empty_inv; lia). set_solver. }
    destruct (fault_single procs owns m p rp v e i4 i3 i2 i1 t Hc Hp Hv Hi Ht He Pe Ux Bx Hsp1)
      as (m1 & -> & Hc1 & _ & Hpc). cbn [mbind res_bind]. done. }
  assert (s ≠ {[p]}) as Hns by (intros E; rewrite E, size_singleton in N1; lia).
  unfold allocPPN. destruct (ps_alloc (source m)) as [[s1 g]|err] eqn:Ea; cbn [mbind res_bind].
  2: { assert (nearly_full 0 m) as Hf by exact (full_0 m err (wf_src _ _ _ (sp_wf _ _ _ Hs p rp Hp)) Ea).
       by destruct (Z.of_nat (size s) =? 2). }
  destruct (fault_many procs owns m p rp v e i4 i3 i2 i1 t s1 g Hc Hp Hv Hi Ht He Pe Ux Hin Ea)
    as (m3 & E3 & Htg & Hcm3 & Hc3 & Hpc3).
  destruct (words_elsewhere m s1 g (page_ppn e) t Htg) as [W1 W2].
  destruct (Z.eqb_spec (Z.of_nat (size s)) 2) as [E2|N2].
  2: { rewrite (Hget _ W1). cbn [mbind res_bind]. rewrite Hput, E3. done. }
  (* two sharers *)
  rewrite (Hget _ W2). cbn [mbind res_bind]. rewrite Hput.
  destruct (put_copy _ _ _ _ _ _ _ Htg Hxt E3) as (m3' & -> & Ecp).
  cbn [mbind res_bind]. rewrite Ecp.
  assert (∃ q0, s ∖ {[p]} = {[q0]}) as [q0 Hq0].
  { destruct (size_1_elem_of (s ∖ {[p]})) as [q0 Hq0]; [lia|]. exists q0. by apply leibniz_equiv. }
  assert (sharers (cow_map_ (erase m3 (page_ppn e) p)) (page_ppn e) = {[q0]}) as Hs4.
  { rewrite <- Hq0. apply set_eq. intros q. rewrite erase_cow, Hcm3 by done. fold s. set_solver. }
  rewrite Hs4, at0_singleton. cbn [mbind res_bind].
  assert (q0 ∈ s ∧ q0 ≠ p) as [Hqs Hqp] by (clear -Hq0; set_solver).
  destruct (ck_mapped _ _ _ Hc q0 (page_ppn e) Hqs Rx) as (r0 & w & f1 & Hr0 & Hw & Hf1 & Hxf1).
  destruct (ck_twice _ _ _ Hc p q0 rp r0 v w e f1) as (<- & _); try done; [congruence|].
  pose proof Hpc3 as (e' & _ & _ & _ & K). specialize (K q0 r0 v Hr0 Hv ltac:(congruence)). rewrite Hf1 in K.
  destruct K as [(f0 & Hf0 & Kf0) _]. pose proof (keeps_page_ppn _ _ Kf0) as Hxf. rewrite Hxf1 in Hxf.
  rewrite Hr0. cbn [mbind res_bind].
  pose proof (ck_spaces _ _ _ Hc3) as Hs3. set (m4 := erase m3 (page_ppn e) p) in *.
  pose proof (shared_page procs owns m4 q0 r0 v f0 off Hs3 Hr0 Hv Hf0 Ho) as Hsp0. rewrite Hi in Hsp0.
  destruct Hsp0 as (mp0 & t0 & -> & Hx0 & Hget0 & Hput0 & Ht0 & Pe0 & _ & Ux0 & Bx0 & _). cbn [mbind res_bind].
  rewrite (Hget0 m4 eq_refl). cbn [mbind res_bind]. rewrite Hput0.
  destruct (fault_single procs owns m4 q0 r0 v f0 i4 i3 i2 i1 t0 Hc3 Hr0 Hv Hi Ht0 Hf0 Pe0 Ux0 Bx0)
    as (m5 & -> & Hc5 & Tf5 & Hpc5); [by rewrite Hxf|]. cbn [mbind res_bind]. rewrite Hxf in *.
  split; [done|]. apply (private_copy_twice procs m m4 _ p q0 rp r0 v e f0); done.
Qed.
End invariant.

(** ** Checking a concrete memory *)

Section check.
Context {S : Type} `{PageSourceLaws S}.
Implicit Types m : Mem S.

Definition entry_ok_b (used : Z → bool) (own : gmap Z (list Z)) m (f : Z) (p : list Z) (i : Z) : bool :=
  let e := ent m f i in
  if present e then
    if bool_decide (length p = 3%nat) then
      used (page_ppn e) && (0 <? page_ppn e) && (page_ppn e <? total m) &&
      bool_decide (own !! page_ppn e = None)
    else (size_bit e =? 0) && bool_decide (own !! page_ppn e = Some (p ++ [i]))
  else e =? 0.

Definition parent_ok_b (own : gmap Z (list Z)) m (f : Z) (p : list Z) : bool :=
  match last p with
  | None => true
  | Some i => existsb (λ gq, bool_decide (p = gq.2 ++ [i]) && (0 <=? i) && (i <? lim gq.2) &&
                present (ent m gq.1 i) && (page_ppn (ent m gq.1 i) =? f)) (map_to_list own)
  end.

Definition table_ok_b (used : Z → bool) (own : gmap Z (list Z)) m (root f : Z) (p : list Z) : bool :=
  (negb (bool_decide (p = [])) || (f =? root)) && bool_decide (length (words_of m f) = 512%nat) &&
  bool_decide (length p <= 3)%nat && used f && (0 <? f) && (f <? total m) && parent_ok_b own m f p &&
  forallb (entry_ok_b used own m f p) (seqZ 0 (lim p)).

Definition wf_b (used : Z → bool) (own : gmap Z (list Z)) m (root : Z) : bool :=
  bool_decide (own !! root = Some []) &&
  forallb (λ fp, table_ok_b used own m root fp.1 fp.2) (map_to_list own).

Lemma wf_b_ok used own m root : ps_ok (source m) → (∀ h, used h = true → ps_used (source m) h) →
  wf_b used own m root = true → wf own m root.
Proof.
  intros Hk Hu [Hr%bool_decide_eq_true Hall]%andb_true_iff. rewrite forallb_forall in Hall.
  assert (∀ f p, own !! f = Some p → table_ok_b used own m root f p = true) as Htab.
  { intros f p Hf. apply (Hall (f, p)), list_elem_of_In, elem_of_map_to_list. done. }
  assert (∀ f p i, own !! f = Some p → 0 <= i < lim p → entry_ok_b used own m f p i = true) as Hent.
  { intros f p i Hf Hi. specialize (Htab f p Hf). apply andb_true_iff in Htab as [_ Htab].
    rewrite forallb_forall in Htab. apply Htab, list_elem_of_In, elem_of_seqZ. lia. }
  split; try done.
  - intros f Hf. specialize (Htab f [] Hf). unfold table_ok_b in Htab. bool_to_prop.
    rewrite bool_decide_eq_true_2 in * by done. cbn [negb orb] in *. by bool_to_prop.
  - intros f p Hf. specialize (Htab f p Hf). unfold table_ok_b in Htab. by bool_to_prop.
  - intros f p Hf. specialize (Htab f p Hf). unfold table_ok_b in Htab. bool_to_prop. by split; [apply Hu|].
  - intros f p i Hf. specialize (Htab f _ Hf). unfold table_ok_b, parent_ok_b in Htab. rewrite last_snoc in Htab.
    bool_to_prop.
    match goal with Hx : existsb _ _ = true |- _ => apply existsb_exists in Hx as ([g q] & Hin & Hx) end.
    cbn [fst snd] in *. bool_to_prop. apply list_elem_of_In, elem_of_map_to_list in Hin.
    match goal with Hx : _ ++ _ = _ ++ _ |- _ => apply snoc_inj in Hx as [-> _] end.
    exists g. done.
  - intros f p i Hf Hl Hi Hp. specialize (Hent f p i Hf Hi). unfold entry_ok_b in Hent.
    rewrite Hp, bool_decide_eq_false_2 in Hent by lia. by bool_to_prop.
  - intros f p i Hf Hl Hi Hp. destruct p as [|x p]; [done|]. specialize (Hent f _ i Hf Hi). unfold entry_ok_b in Hent.
    rewrite Hp, bool_decide_eq_true_2 in Hent by done. bool_to_prop. split; [by apply Hu|done].
  - intros f p i Hf Hi Hp. specialize (Hent f p i Hf Hi). unfold entry_ok_b in Hent. rewrite Hp in Hent. by bool_to_prop.
Qed.

(** The mapped pages with their entries. *)
Definition leaves (own : gmap Z (list Z)) m : list (Z * Z) :=
  tp ← map_to_list own;
  match tp.2 with
  | [i4; i3; i2] => i1 ← seqZ 0 512;
      (if present (ent m tp.1 i1) then [(((i4 * 512 + i3) * 512 + i2) * 512 + i1, ent m tp.1 i1)] else [])
  | _ => []
  end.

Lemma leaves_spec own m root v e : wf own m root → 0 <= v < 2 ^ 35 → translate m root v = Some e →
  (v, e) ∈ leaves own m.
Proof.
  intros Hw Hv He. pose proof (translate_entry own m root v e Hw Hv He) as T.
  pose proof (indices_range v Hv) as Hr. destruct (indices v) as [[[i4 i3] i2] i1].
  destruct T as (t & Ht & Hi & Ee & Pe & _). destruct Hr as (_ & _ & _ & _ & Hv').
  unfold leaves. apply list_elem_of_bind. exists (t, [i4; i3; i2]). split; [|by apply elem_of_map_to_list].
  cbn [fst snd]. apply list_elem_of_bind. exists i1. split; [|apply elem_of_seqZ; lia].
  rewrite Ee, Pe. apply list_elem_of_singleton. f_equal. exact Hv'.
Qed.
End check.

(** ** Properties *)

Section properties.
Context {S : Type} `{PageSourceLaws S}.

(** C4: a page fault of a process on a page it shares gives this process a
    page of its own, with write access and the old contents, that nothing else
    maps; all other mappings of all processes keep their frames and contents,
    and the invariant of sharing is kept.  Only the lack of a frame makes the
    handler fail, and the last sharer needs none. *)
Theorem handleCOWPageFault_isolates procs owns (m : Mem (S * CowMap)) p rp v e off :
  cow_ok procs owns m → procs !! p = Some rp → 0 <= v < 2 ^ 35 → translate m rp v = Some e →
  p ∈ sharers (cow_map_ m) (page_ppn e) → 0 <= off < PAGE_SIZE →
  match handleCOWPageFault procs m p (v * PAGE_SIZE + off) with
  | Err _ => nearly_full 0 m ∧ sharers (cow_map_ m) (page_ppn e) ≠ {[p]}
  | Val m' => cow_ok procs owns m' ∧ private_copy procs m m' p rp v e ∧ exclusive procs m' p rp v
  end.
Proof.
  intros Hc Hp Hv He Hin Ho. pose proof (handleCOWPageFault_ok procs owns m p rp v e off Hc Hp Hv He Hin Ho) as Hs.
  destruct (handleCOWPageFault procs m p (v * PAGE_SIZE + off)) as [m'|]; [|done].
  destruct Hs as [Hc' Hpc]. split; [done|]. split; [done|].
  destruct Hpc as (e' & T' & R' & _). intros e2 q rq w f T2 Hq Hw Tf Hx.
  assert (e2 = e') as -> by congruence. symmetry. by apply (cow_isolated procs owns m' p q rp rq v w e' f).
Qed.
End properties.

(** ** An example: a process with one page forks, and the child writes *)

Section example.
#[local] Existing Instances Bitmap.bitmap_store Bitmap.bitmap_store_laws Bitmap.Bitmap_eq_dec.

Definition ex_pids : ProcessList := insertIntoProcessList (insertIntoProcessList ∅ 1 11) 2 12.

(** The memory, both top tables and the shared page. *)
Definition ex_fork : res (Mem (PageManager.PageManager Bitmap.Bitmap * CowMap) * Z * Z * Z) :=
  '(m, page) ← allocPPN (mkMem ∅ (ex_pm, ∅));
  '(m, root1) ← new m 0;
  '(m, _) ← mapPage m root1 5 page 1;
  m ← put m page 3 77;
  '(m, root2) ← new m 0;
  '(m, c) ← copyPagesToNewArchMemCOW (λ c ppn, addToCOWMap ex_pids c ppn 1 2) m (cow_map_ m) root1 root2;
  Val (with_cow_map m c, root1, root2, page).

Definition ex_own (root t3 t2 t1 : Z) : gmap Z (list Z) :=
  <[root := []]> (<[t3 := [0]]> (<[t2 := [0; 0]]> {[t1 := [0; 0; 0]]})).
Definition ex_owns (p : Z) : gmap Z (list Z) := if p =? 11 then ex_own 2 3 4 5 else ex_own 6 7 8 9.
Definition ex_procs : gmap Z Z := <[11 := 2]> {[12 := 6]}.

Definition ex_used (m : Mem (PageManager.PageManager Bitmap.Bitmap * CowMap)) (h : Z) : bool :=
  (0 <=? h) && (h <? PageManager.number_of_pages_ (fst (source m))) &&
  bs_test (PageManager.page_usage_table_ (fst (source m))) h.

(** What the fork leaves, by computation. *)
Lemma ex_fork_ok : match ex_fork with
  | Err _ => false
  | Val (m, root1, root2, page) =>
      (root1 =? 2) && (root2 =? 6) && (page =? 1) &&
      wf_b (ex_used m) (ex_owns 11) m 2 && wf_b (ex_used m) (ex_owns 12) m 6 &&
      bool_decide (leaves (ex_owns 11) m = [(5, entry 1 0 1 0)]) &&
      bool_decide (leaves (ex_owns 12) m = [(5, entry 1 0 1 0)]) &&
      bool_decide (translate m 2 5 = Some (entry 1 0 1 0)) && bool_decide (translate m 6 5 = Some (entry 1 0 1 0)) &&
      bool_decide (cow_map_ m = {[1 := {[11; 12]}]}) &&
      bool_decide (zget (words_of m 1) 3 = Val 77)
  end = true.
Proof. vm_compute. reflexivity. Qed.

Lemma ex_fork_pm : match ex_fork with
  | Err _ => false
  | Val (m, _, _, _) => let pm := fst (source m) in
      bool_decide (PageManager.page_usage_table_ pm = Bitmap.mkBitmap 32 10 [255; 3; 0; 0]) &&
      (PageManager.number_of_pages_ pm =? 32) && (PageManager.lowest_unreserved_page_ pm =? 10) &&
      forallb (λ p, (p <? 10) || bool_decide (PageManager.frames pm !! p = None)) (seqZ 0 32)
  end = true.
Proof. vm_compute. reflexivity. Qed.

Lemma ex_low_used p : 0 <= p < 10 → bs_test (Bitmap.mkBitmap 32 10 [255; 3; 0; 0]) p = true.
Proof.
  intros Hp. assert (forallb (λ p, bs_test (Bitmap.mkBitmap 32 10 [255; 3; 0; 0]) p) (seqZ 0 10) = true) as Hf
    by (vm_compute; reflexivity).
  rewrite forallb_forall in Hf. apply Hf, list_elem_of_In, elem_of_seqZ. lia.
Qed.

Lemma ex_fork_source m r1 r2 page : ex_fork = Val (m, r1, r2, page) → ps_ok (source m).
Proof.
  intros E. pose proof ex_fork_pm as F. rewrite E in F. clear E.
  destruct (source m) as [[t n low fr] c]. cbn [fst] in F. cbn zeta in F.
  cbn [PageManager.page_usage_table_ PageManager.number_of_pages_ PageManager.lowest_unreserved_page_ PageManager.frames] in F.
  apply andb_true_iff in F as [F Hfr]. apply andb_true_iff in F as [F ->%Z.eqb_eq].
  apply andb_true_iff in F as [->%bool_decide_eq_true ->%Z.eqb_eq].
  rewrite forallb_forall in Hfr. split; [|split; [|cbn; lia]].
  - split; try done.
    + split; try done. cbn. repeat constructor; unfold is_byte; lia.
    + cbn. intros p Hp. by apply ex_low_used.
  - intros p Hp Hu. cbn [PageManager.number_of_pages_ PageManager.page_usage_table_] in Hp, Hu.
    unfold PageManager.frame. cbn [PageManager.frames].
    specialize (Hfr p). apply orb_true_iff in Hfr as [Hlt%Z.ltb_lt| ->%bool_decide_eq_true]; [|done|].
    + rewrite ex_low_used in Hu by lia. done.
    + apply list_elem_of_In, elem_of_seqZ. lia.
Qed.

(** Frame 20 is free. *)
Lemma ex_fork_free m r1 r2 page : ex_fork = Val (m, r1, r2, page) → ¬ nearly_full 0 m.
Proof.
  intros E (l & Hl & Hu). pose proof ex_fork_pm as F. rewrite E in F. clear E.
  assert (l = []) as -> by (destruct l; [done|cbn in Hl; lia]). unfold total in Hu.
  destruct (source m) as [[t n low fr] c]. cbn [fst] in F. cbn zeta in F.
  cbn [PageManager.page_usage_table_ PageManager.number_of_pages_ PageManager.lowest_unreserved_page_ PageManager.frames] in F.
  apply andb_true_iff in F as [F _]. apply andb_true_iff in F as [F _].
  apply andb_true_iff in F as [->%bool_decide_eq_true ->%Z.eqb_eq].
  destruct (Hu 20) as [[_ H]|H]; [cbn; lia| |by apply elem_of_nil in H]. vm_compute in H. discriminate.
Qed.

Lemma ex_own_keys a b c d h : is_Some (ex_own a b c d !! h) → h = a ∨ h = b ∨ h = c ∨ h = d.
Proof.
  intros [l Hl]. unfold ex_own in Hl. rewrite !lookup_insert_Some, lookup_singleton_Some in Hl. naive_solver.
Qed.

Lemma ex_proc_cases p rp : ex_procs !! p = Some rp → p = 11 ∧ rp = 2 ∨ p = 12 ∧ rp = 6.
Proof. unfold ex_procs. rewrite lookup_insert_Some, lookup_singleton_Some. naive_solver. Qed.

Lemma ex_own_other p q h : is_Some (ex_procs !! p) → is_Some (ex_procs !! q) → p ≠ q →
  is_Some (ex_owns p !! h) → ex_owns q !! h = None.
Proof.
  intros [rp Hp] [rq Hq] Hne Hh. apply eq_None_not_Some. intros Hh'.
  apply ex_proc_cases in Hp, Hq.
  destruct Hp as [[-> _]|[-> _]], Hq as [[-> _]|[-> _]]; [done| | |done];
    change (ex_owns 11) with (ex_own 2 3 4 5) in *; change (ex_owns 12) with (ex_own 6 7 8 9) in *;
    apply ex_own_keys in Hh, Hh'; lia.
Qed.

Lemma ex_used_ok m h : ex_used m h = true → ps_used (source m) h.
Proof.
  unfold ex_used. destruct (source m) as [s c]. cbn [fst]. intros Hh.
  apply andb_true_iff in Hh as [[H1%Z.leb_le H2%Z.ltb_lt]%andb_true_iff H3]. cbn. by split.
Qed.

Lemma ex_cow_ok : ∃ m, ex_fork = Val (m, 2, 6, 1) ∧ cow_ok ex_procs ex_owns m ∧
  translate m 2 5 = Some (entry 1 0 1 0) ∧ translate m 6 5 = Some (entry 1 0 1 0) ∧
  sharers (cow_map_ m) 1 = {[11; 12]} ∧ zget (words_of m 1) 3 = Val 77.
Proof.
  pose proof ex_fork_ok as F. destruct ex_fork as [[[[m r1] r2] pg]|] eqn:E; [|done].
  pose proof (ex_fork_source m r1 r2 pg E) as Hk. exists m. clear E.
  repeat (apply andb_true_iff in F as [F ?]). bool_to_prop. subst r1 r2 pg.
  pose proof (ex_used_ok m) as Hu.
  match goal with H : cow_map_ m = _ |- _ => rename H into Hcm end.
  assert (∀ q rq, ex_procs !! q = Some rq → wf (ex_owns q) m rq) as Hwf.
  { intros q rq [[-> ->]|[-> ->]]%ex_proc_cases; by apply (wf_b_ok (ex_used m)). }
  assert (∀ q rq v e, ex_procs !! q = Some rq → 0 <= v < 2 ^ 35 → translate m rq v = Some e →
    v = 5 ∧ e = entry 1 0 1 0) as Htr.
  { intros q rq v e Hq Hv He. pose proof (leaves_spec _ _ _ _ _ (Hwf q rq Hq) Hv He) as Hl.
    apply ex_proc_cases in Hq as [[-> ->]|[-> ->]];
      match goal with H : leaves _ m = _ |- _ => rewrite H in Hl; clear H end || idtac;
      try match goal with H : leaves _ m = _ |- _ => rewrite H in Hl end;
      apply list_elem_of_singleton in Hl; by injection Hl as -> ->. }
  assert (sharers (cow_map_ m) 1 = {[11; 12]}) as Hsh by by rewrite Hcm.
  split; [done|]. split; [|done].
  split; [split| | |].
  - done.
  - intros p q h Hne Hp Hq Hh. by apply (ex_own_other p q).
  - intros p q root v e Hp [rq Hq] Hv He. destruct (Htr p root v e Hp Hv He) as [-> ->].
    apply ex_proc_cases in Hq as [[-> ->]|[-> ->]]; vm_compute; reflexivity.
  - intros p q rp rq v w e f Hp Hq Hv Hw He Hf Hx Hne.
    destruct (Htr p rp v e Hp Hv He) as [-> ->], (Htr q rq w f Hq Hw Hf) as [-> ->].
    change (page_ppn (entry 1 0 1 0)) with 1. rewrite Hsh.
    apply ex_proc_cases in Hp as [[-> ->]|[-> ->]], Hq as [[-> ->]|[-> ->]]; try done; set_solver.
  - intros p x Hp Hx. assert (x = 1) as ->.
    { destruct (decide (x = 1)) as [|Hn]; [done|]. rewrite Hcm in Hp. unfold sharers in Hp.
      rewrite wrap_small, lookup_singleton_ne in Hp by lia. set_solver. }
    rewrite Hsh in Hp. assert (p = 11 ∨ p = 12) as [-> | ->] by set_solver.
    + exists 2, 5, (entry 1 0 1 0). split; [done|]. split; [lia|]. split; [done|]. reflexivity.
    + exists 6, 5, (entry 1 0 1 0). split; [done|]. split; [lia|]. split; [done|]. reflexivity.
  - intros p rp v e Hp Hv He _. destruct (Htr p rp v e Hp Hv He) as [_ ->]. reflexivity.
Qed.

(** The child writes at byte 24 of page 5. *)
Lemma handleCOWPageFault_isolates_witness : ∃ m m', ex_fork = Val (m, 2, 6, 1) ∧
  handleCOWPageFault ex_procs m 12 (5 * PAGE_SIZE + 24) = Val m' ∧
  private_copy ex_procs m m' 12 6 5 (entry 1 0 1 0) ∧ exclusive ex_procs m' 12 6 5.
Proof.
  destruct ex_cow_ok as (m & E & Hc & T1 & T2 & Hsh & Hw). exists m.
  pose proof (handleCOWPageFault_isolates ex_procs ex_owns m 12 6 5 (entry 1 0 1 0) 24 Hc) as Hs.
  specialize (Hs eq_refl ltac:(lia) T2). change (page_ppn (entry 1 0 1 0)) with 1 in Hs. rewrite Hsh in Hs.
  specialize (Hs ltac:(clear; set_solver) ltac:(unfold PAGE_SIZE; lia)).
  destruct (handleCOWPageFault ex_procs m 12 (5 * PAGE_SIZE + 24)) as [m'|err] eqn:Eh.
  - exists m'. destruct Hs as (_ & Hpc & Hx). split; [exact E|]. split; [reflexivity|]. split; [exact Hpc|exact Hx].
  - destruct Hs as [Hf _]. destruct (ex_fork_free m 2 6 1 E Hf).
Defined.
End example.

End Cow.
