(* ===== verification/Scheduler.v ===== *)
(** * Scheduler: the queue of threads

    Models [common/source/kernel/Scheduler.cpp] with the parts of [Thread.cpp],
    [UserThread.cpp] and [Syscall.cpp] it works with: [schedule], adding, putting
    to sleep, waking, killing and destroying threads, the sleep until a point in
    time, the calibration of the time-stamp counter against the timer interrupt,
    and the system calls [sleep] and [clock].  A thread object is an entry of the
    store [thr], named by its address.  Successive reads of the time-stamp
    counter are [rdtsc 0], [rdtsc 1], ...  What the scheduler needs of a process
    is the class [ProcessOps]; [Threads.UserProcess] implements it.  Locks that
    only order these operations (the memory manager's lock in [addNewThread])
    and debug output are left out. *)

From stdpp Require Import relations.
From S2P Require Import Prelude Threads.

Module Sched.

Abbreviation ThreadState := Threads.ThreadState.
Abbreviation Running := Threads.Running.
Abbreviation Sleeping := Threads.Sleeping.
Abbreviation ToBeDestroyed := Threads.ToBeDestroyed.

#[local] Existing Instance Threads.ThreadState_eq_dec.

(** ** Data *)

Definition CALIBRATION_INTERRUPTS : Z := 51.
Definition CALIBRATION_FREQUENCY : Z := 300.

Inductive TYPE := KERNEL_THREAD | USER_THREAD.

#[export] Instance TYPE_eq_dec : EqDecision TYPE.
Proof. solve_decision. Defined.

(** The fields of [Thread] and [UserThread] used here; [rip_] is the saved
    instruction pointer of the kernel registers. *)
Record Thread := mkThread {
  tid_ : Z;
  type_ : TYPE;
  state_ : ThreadState;
  switch_to_userspace_ : Z;
  rip_ : Z;
  holding_lock_list_ : list Z;
  parent_proc_ : Z;
  cancel_req_ : bool;
  cancelable_ : bool;
  time_to_wakeup_ : Z;
}.

Definition set_state (t : Thread) (s : ThreadState) : Thread :=
  mkThread (tid_ t) (type_ t) s (switch_to_userspace_ t) (rip_ t) (holding_lock_list_ t)
    (parent_proc_ t) (cancel_req_ t) (cancelable_ t) (time_to_wakeup_ t).
Definition set_wakeup (t : Thread) (n : Z) : Thread :=
  mkThread (tid_ t) (type_ t) (state_ t) (switch_to_userspace_ t) (rip_ t) (holding_lock_list_ t)
    (parent_proc_ t) (cancel_req_ t) (cancelable_ t) n.
Definition receiveCancelRequest (t : Thread) : Thread :=
  mkThread (tid_ t) (type_ t) (state_ t) (switch_to_userspace_ t) (rip_ t) (holding_lock_list_ t)
    (parent_proc_ t) true (cancelable_ t) (time_to_wakeup_ t).
Definition setCancelled (t : Thread) : Thread :=
  mkThread (tid_ t) (type_ t) (state_ t) (switch_to_userspace_ t) (rip_ t) (holding_lock_list_ t)
    (parent_proc_ t) (cancel_req_ t) false (time_to_wakeup_ t).

(** [resetWakeUp], [shouldCancel], [schedulable] *)
Definition resetWakeUp (t : Thread) : Thread := set_wakeup t 0.
Definition shouldCancel (t : Thread) : bool := cancelable_ t && cancel_req_ t.
Definition schedulable (t : Thread) : bool := bool_decide (state_ t = Running).
Definition is_user (t : Thread) : bool := bool_decide (type_ t = USER_THREAD).

Record Scheduler := mkSched {
  threads_ : list Z;
  block_scheduling_ : Z;
  ticks_ : Z;
  clocks_per_interrupt_ : Z;
  old_clocks_per_interrupt_ : Z;
  prev_time_ : Z;
  uthread_start_ : Z;
  uthread_end_ : Z;
  idle_thread_ : Z;
  cleanup_thread_ : Z;
  calibr_ticks_ : Z;
  calibrated_ : bool;
}.

Definition set_list (s : Scheduler) (l : list Z) : Scheduler :=
  mkSched l (block_scheduling_ s) (ticks_ s) (clocks_per_interrupt_ s) (old_clocks_per_interrupt_ s)
    (prev_time_ s) (uthread_start_ s) (uthread_end_ s) (idle_thread_ s) (cleanup_thread_ s)
    (calibr_ticks_ s) (calibrated_ s).
Definition set_block (s : Scheduler) (b : Z) : Scheduler :=
  mkSched (threads_ s) b (ticks_ s) (clocks_per_interrupt_ s) (old_clocks_per_interrupt_ s)
    (prev_time_ s) (uthread_start_ s) (uthread_end_ s) (idle_thread_ s) (cleanup_thread_ s)
    (calibr_ticks_ s) (calibrated_ s).
Definition set_uthread (s : Scheduler) (st en : Z) : Scheduler :=
  mkSched (threads_ s) (block_scheduling_ s) (ticks_ s) (clocks_per_interrupt_ s)
    (old_clocks_per_interrupt_ s) (prev_time_ s) st en (idle_thread_ s) (cleanup_thread_ s)
    (calibr_ticks_ s) (calibrated_ s).
Definition set_clocks (s : Scheduler) (clocks old prev calibr : Z) (done : bool) : Scheduler :=
  mkSched (threads_ s) (block_scheduling_ s) (ticks_ s) clocks old prev
    (uthread_start_ s) (uthread_end_ s) (idle_thread_ s) (cleanup_thread_ s) calibr done.
Definition set_ticks (s : Scheduler) (n : Z) : Scheduler :=
  mkSched (threads_ s) (block_scheduling_ s) n (clocks_per_interrupt_ s)
    (old_clocks_per_interrupt_ s) (prev_time_ s) (uthread_start_ s) (uthread_end_ s)
    (idle_thread_ s) (cleanup_thread_ s) (calibr_ticks_ s) (calibrated_ s).

(** ** What the scheduler uses of a process *)

(** [destroyed p tid] is [onThreadDestroyed], its result [true] when it deletes
    the process object; [incAccTime] adds to the process's running time and
    [getAccTime] reads it. *)
Class ProcessOps (P : Type) := {
  destroyed : P → Z → res (P * bool);
  incAccTime : P → Z → P;
  getAccTime : P → Z;
  thread_ids : P → gset Z;
}.

(** A thread of the process can be destroyed, which leaves the others, and the
    process goes with its last thread. *)
Class ProcessLaws (P : Type) {ops : ProcessOps P} := {
  destroyed_ok (p : P) tid : tid ∈ thread_ids p →
    ∃ p' b, destroyed p tid = Val (p', b) ∧ thread_ids p' = thread_ids p ∖ {[tid]} ∧
            (b = true → thread_ids p' = ∅);
  incAccTime_ids (p : P) n : thread_ids (incAccTime p n) = thread_ids p;
}.

(** The implementation: the thread part of [UserProcess] and its
    [accumulated_incs_]. *)
#[export] Instance UserProcess_ops : ProcessOps (Threads.UserProcess * Z) := {
  destroyed p tid := '(q, b) ← Threads.onThreadDestroyed p.1 tid; Val ((q, p.2), b);
  incAccTime p n := (p.1, u64 (p.2 + n));
  getAccTime p := p.2;
  thread_ids p := dom (Threads.thread_list_ p.1);
}.

Section scheduler.
Context {P : Type} `{ProcessOps P}.
Context (rdtsc : nat → Z) (internalThreadCancel : Z).

(** ** State *)

(** [currentThreadRegisters] is the thread whose registers are loaded, with
    [true] for its user registers; [reads] counts the reads of the time-stamp
    counter. *)
Record world := mkWorld {
  sch : Scheduler;
  thr : gmap Z Thread;
  procs : gmap Z P;
  currentThread : option Z;
  currentThreadRegisters : option (Z * bool);
  reads : nat;
}.

Definition set_sch (w : world) (s : Scheduler) : world :=
  mkWorld s (thr w) (procs w) (currentThread w) (currentThreadRegisters w) (reads w).
Definition set_thr (w : world) (m : gmap Z Thread) : world :=
  mkWorld (sch w) m (procs w) (currentThread w) (currentThreadRegisters w) (reads w).
Definition set_procs (w : world) (m : gmap Z P) : world :=
  mkWorld (sch w) (thr w) m (currentThread w) (currentThreadRegisters w) (reads w).
Definition set_current (w : world) (t : Z) : world :=
  mkWorld (sch w) (thr w) (procs w) (Some t) (currentThreadRegisters w) (reads w).
Definition set_registers (w : world) (t : Z) (user : bool) : world :=
  mkWorld (sch w) (thr w) (procs w) (currentThread w) (Some (t, user)) (reads w).

Definition getCurrentTime (w : world) : world * Z :=
  (mkWorld (sch w) (thr w) (procs w) (currentThread w) (currentThreadRegisters w) (Datatypes.S (reads w)),
   rdtsc (reads w)).

(** Access through a pointer to a thread. *)
Definition deref (w : world) (t : Z) : res Thread :=
  match thr w !! t with Some th => Val th | None => Err EUndef end.
Definition update (w : world) (t : Z) (th : Thread) : world := set_thr w (<[t := th]> (thr w)).

(** ** [uint32 schedule()] *)

(** The wake-up time of a user thread: [true] when it is still to come. *)
Definition check_wakeup (w : world) (t : Z) (th : Thread) : world * bool :=
  if time_to_wakeup_ th =? 0 then (w, false)
  else
    let '(w, now) := getCurrentTime w in
    if now <? time_to_wakeup_ th then (w, true)
    else
      let '(w, now) := getCurrentTime w in
      if time_to_wakeup_ th <=? now then (update w t (resetWakeUp th), false) else (w, false).

(** The running time of the process of the thread that ran until now. *)
Definition account (w : world) : res world :=
  match currentThread w with
  | None => Val w
  | Some c =>
      th ← deref w c;
      if is_user th then
        let s := sch w in
        let '(w, uend) := if uthread_start_ s =? 0 then (w, 0) else getCurrentTime w in
        let w := set_sch w (set_uthread (sch w) (uthread_start_ s) uend) in
        match procs w !! parent_proc_ th with
        | None => Err EUndef
        | Some p =>
            Val (set_procs w (<[parent_proc_ th := incAccTime p (u64 (uend - uthread_start_ s))]> (procs w)))
        end
      else Val w
  end.

(** [prepareCancellation] *)
Definition prepareCancellation (t : Thread) : Thread :=
  mkThread (tid_ t) (type_ t) (state_ t) 0 internalThreadCancel (holding_lock_list_ t)
    (parent_proc_ t) (cancel_req_ t) (cancelable_ t) (time_to_wakeup_ t).

(** [t] becomes the current thread. *)
Definition dispatch (w : world) (t : Z) : res world :=
  w ← account w;
  let w := set_current w t in
  th ← deref w t;
  if is_user th then
    let '(w, now) := getCurrentTime w in
    let w := set_sch w (set_uthread (sch w) now (uthread_end_ (sch w))) in
    if shouldCancel th && (switch_to_userspace_ th =? 1)
    then Val (update w t (prepareCancellation (setCancelled th)))
    else Val w
  else Val w.

(** The search of the queue [l], the rest of it from position [i] on; the
    position of the chosen thread. *)
Fixpoint schedule_loop (w : world) (l : list Z) (i : nat) : res (world * nat) :=
  match l with
  | [] => Err EAssert
  | t :: l =>
      th ← deref w t;
      let '(w, skip) := if is_user th then check_wakeup w t th else (w, false) in
      if skip then schedule_loop w l (Datatypes.S i)
      else if schedulable th then w ← dispatch w t; Val (w, i)
      else schedule_loop w l (Datatypes.S i)
  end.

(** [ustl::rotate] of a whole list *)
Definition rotate (l : list Z) (middle : nat) : list Z := drop middle l ++ take middle l.

(** [interrupts] is the interrupt flag of the processor. *)
Definition schedule (interrupts : bool) (w : world) : res (world * Z) :=
  _ ← kassert (negb interrupts);
  if negb (block_scheduling_ (sch w) =? 0) then Val (w, 0)
  else
    '(w, it) ← schedule_loop w (threads_ (sch w)) 0;
    let w := set_sch w (set_list (sch w) (rotate (threads_ (sch w)) (it + 1))) in
    match currentThread w with
    | None => Err EUndef
    | Some c =>
        th ← deref w c;
        if negb (switch_to_userspace_ th =? 0) then Val (set_registers w c true, 1)
        else Val (set_registers w c false, 0)
    end.

(** ** Thread states *)

(** The result of a call that yields: where the call stops, and that the caller
    then gives up the processor. *)
Definition yields := bool.

Definition setState (w : world) (this : Z) (new_state : ThreadState) : res world :=
  th ← deref w this;
  _ ← kassert (negb (bool_decide (state_ th = ToBeDestroyed) &&
                     negb (bool_decide (new_state = ToBeDestroyed))));
  _ ← kassert (negb (bool_decide (new_state = Sleeping) &&
                     negb (bool_decide (currentThread w = Some this))));
  Val (update w this (set_state th new_state)).

Definition sleep (w : world) : res (world * yields) :=
  match currentThread w with
  | None => Err EUndef
  | Some c =>
      w ← setState w c Sleeping;
      _ ← kassert (block_scheduling_ (sch w) =? 0);
      Val (w, true)
  end.

(** [EBlock] while the thread is not asleep: the caller yields and tests again. *)
Definition wake (w : world) (thread_to_wake : Z) : res world :=
  th ← deref w thread_to_wake;
  if bool_decide (state_ th ≠ Sleeping) then Err EBlock
  else setState w thread_to_wake Running.

(** [Thread::kill]; the cleanup thread overrides it. *)
Definition kill (w : world) (this : Z) : res (world * yields) :=
  _ ← kassert (bool_decide (this ≠ cleanup_thread_ (sch w)));
  w ← setState w this ToBeDestroyed;
  Val (w, bool_decide (currentThread w = Some this)).

(** [sleepUntil] of the user thread [this] *)
Definition sleepUntil (w : world) (this wakeup : Z) : res (world * yields) :=
  let '(w, now) := getCurrentTime w in
  if wakeup <? now then Val (w, false)
  else
    th ← deref w this;
    Val (update w this (set_wakeup th wakeup), true).

(** ** Adding and destroying threads *)

Definition lockScheduling (w : world) : res world :=
  _ ← kassert (block_scheduling_ (sch w) =? 0);
  Val (set_sch w (set_block (sch w) 1)).
Definition unlockScheduling (w : world) : world := set_sch w (set_block (sch w) 0).

Definition addNewThread (w : world) (thread : Z) : res world :=
  w ← lockScheduling w;
  let w := set_sch w (set_list (sch w) (threads_ (sch w) ++ [thread])) in
  Val (unlockScheduling w).

(** [Scheduler::Scheduler()], with its two thread members at [idle] and [cleanup]. *)
Definition new (w : world) (idle cleanup : Z) : res world :=
  let w := set_sch w (mkSched [] 0 0 0 0 0 0 0 idle cleanup 0 false) in
  w ← addNewThread w cleanup;
  addNewThread w idle.

(** The first loop of [cleanupDeadThreads]: the queue without the threads moved
    to [destroy_list]. *)
Fixpoint cleanup_loop (fuel : nat) (w : world) (i : Z) (threads destroy_list : list Z)
    (thread_count_max : Z) : res (list Z * list Z) :=
  match fuel with
  | O => Err EFuel
  | Datatypes.S fuel =>
      if i <? Z.of_nat (length threads) then
        match threads !! Z.to_nat i with
        | None => Err EUndef
        | Some tmp =>
            th ← deref w tmp;
            let '(threads, destroy_list, i) :=
              if bool_decide (state_ th = ToBeDestroyed)
              then (delete (Z.to_nat i) threads, destroy_list ++ [tmp], u32 (i - 1))
              else (threads, destroy_list, i) in
            if thread_count_max <=? Z.of_nat (length destroy_list) then Val (threads, destroy_list)
            else cleanup_loop fuel w (u32 (i + 1)) threads destroy_list thread_count_max
        end
      else Val (threads, destroy_list)
  end.

Definition collectDeadThreads (w : world) : res (world * list Z) :=
  w ← lockScheduling w;
  let threads := threads_ (sch w) in
  let thread_count_max := u32 (Z.of_nat (length threads)) in
  let thread_count_max := if 1024 <? thread_count_max then 1024 else thread_count_max in
  '(threads, destroy_list) ← cleanup_loop (Datatypes.S (length threads)) w 0 threads [] thread_count_max;
  Val (unlockScheduling (set_sch w (set_list (sch w) threads)), destroy_list).

Definition isSchedulingEnabled (w : world) : bool := block_scheduling_ (sch w) =? 0.
Definition isCurrentlyCleaningUp (w : world) : bool :=
  bool_decide (currentThread w = Some (cleanup_thread_ (sch w))).

(** [delete destroy_list[i]]: [~UserThread], with [~UserProcess] when it was
    the last thread, [~CleanupThread] and [~Thread]. *)
Definition destroy (w : world) (t : Z) : res world :=
  th ← deref w t;
  _ ← kassert (bool_decide (t ≠ cleanup_thread_ (sch w)));
  w ← (if is_user th then
         match procs w !! parent_proc_ th with
         | None => Err EUndef
         | Some p =>
             '(p, b) ← destroyed p (tid_ th);
             if b : bool then
               _ ← kassert (isCurrentlyCleaningUp w);
               Val (set_procs w (delete (parent_proc_ th) (procs w)))
             else Val (set_procs w (<[parent_proc_ th := p]> (procs w)))
         end
       else Val w);
  _ ← kassert (bool_decide (holding_lock_list_ th = []));
  Val (set_thr w (delete t (thr w))).

Fixpoint destroy_all (w : world) (l : list Z) : res world :=
  match l with
  | [] => Val w
  | t :: l => w ← destroy w t; destroy_all w l
  end.

Definition cleanupDeadThreads (w : world) : res world :=
  '(w, destroy_list) ← collectDeadThreads w;
  destroy_all w destroy_list.

(** ** The timer *)

Definition incTicks (w : world) : world :=
  let s := sch w in
  let s := if ticks_ s mod CALIBRATION_FREQUENCY =? 0
           then set_clocks s 0 (clocks_per_interrupt_ s) 0 0 false else s in
  let w := set_sch w s in
  let w :=
    if (calibr_ticks_ s <? CALIBRATION_INTERRUPTS) && negb (calibrated_ s) then
      let '(w, time) := getCurrentTime w in
      let clocks := u64 (clocks_per_interrupt_ s + (if prev_time_ s =? 0 then 0 else u64 (time - prev_time_ s))) in
      set_sch w (set_clocks s clocks (old_clocks_per_interrupt_ s) time (u64 (calibr_ticks_ s + 1)) (calibrated_ s))
    else w in
  let s := sch w in
  let s := if (calibr_ticks_ s =? CALIBRATION_INTERRUPTS) && negb (calibrated_ s)
           then set_clocks s (clocks_per_interrupt_ s / (CALIBRATION_INTERRUPTS - 1))
                  (old_clocks_per_interrupt_ s) (prev_time_ s) (calibr_ticks_ s) true
           else s in
  set_sch w (set_ticks s (u64 (ticks_ s + 1))).

(** Divides by [ticks_] until the first calibration. *)
Definition getCurrentAVGClocksPerInterrupt (s : Scheduler) : res Z :=
  if calibrated_ s then Val (clocks_per_interrupt_ s)
  else if old_clocks_per_interrupt_ s =? 0 then
    _ ← defined (negb (ticks_ s =? 0));
    Val (clocks_per_interrupt_ s / ticks_ s)
  else Val (old_clocks_per_interrupt_ s).

(** The current thread, which must be a user thread. *)
Definition current_user (w : world) : res (Z * Thread) :=
  match currentThread w with
  | None => Err EUndef
  | Some this =>
      th ← deref w this;
      _ ← kassert (is_user th);
      Val (this, th)
  end.

Definition sys_sleep (w : world) (seconds : Z) : res (world * yields) :=
  '(this, _) ← current_user w;
  avg ← getCurrentAVGClocksPerInterrupt (sch w);
  let '(w, now) := getCurrentTime w in
  sleepUntil w this (u64 (u64 (u64 (182065 * seconds) * avg) / 10000 + now)).

Definition sys_clock (w : world) : res (world * Z) :=
  '(_, th) ← current_user w;
  match procs w !! parent_proc_ th with
  | None => Err EUndef
  | Some p =>
      let '(w, now) := getCurrentTime w in
      avg ← getCurrentAVGClocksPerInterrupt (sch w);
      _ ← defined (negb (u64 (avg * 10) =? 0));
      Val (w, u64 (u64 (getAccTime p + u64 (now - uthread_start_ (sch w))) * 549254) / u64 (avg * 10))
  end.

(** ** What an operation of the scheduler leaves alone *)

Context `{!ProcessLaws P}.
Context (rdtsc_mono : ∀ i j, (i ≤ j)%nat → rdtsc i <= rdtsc j).

(** Nothing keeps the thread from running: it is [Running] and not asleep until
    a later time. *)
Definition awake (w : world) (th : Thread) : Prop :=
  is_user th = false ∨ time_to_wakeup_ th = 0 ∨ time_to_wakeup_ th <= rdtsc (reads w).
Definition ready (w : world) (t : Z) : Prop :=
  ∃ th, thr w !! t = Some th ∧ state_ th = Running ∧ awake w th.

(** Equal up to the registers, the cancellation flags and an elapsed wake-up time. *)
Record same_thread (a b : Thread) : Prop := {
  same_tid : tid_ b = tid_ a;
  same_type : type_ b = type_ a;
  same_state : state_ b = state_ a;
  same_locks : holding_lock_list_ b = holding_lock_list_ a;
  same_parent : parent_proc_ b = parent_proc_ a;
  same_wakeup : time_to_wakeup_ b = time_to_wakeup_ a ∨ time_to_wakeup_ b = 0;
}.

Record frame (w w' : world) : Prop := {
  frame_thr t : option_relation same_thread (const False) (const False) (thr w !! t) (thr w' !! t);
  frame_procs q : thread_ids <$> procs w' !! q = thread_ids <$> procs w !! q;
  frame_threads : threads_ (sch w') = threads_ (sch w);
  frame_block : block_scheduling_ (sch w') = block_scheduling_ (sch w);
  frame_idle : idle_thread_ (sch w') = idle_thread_ (sch w);
  frame_cleanup : cleanup_thread_ (sch w') = cleanup_thread_ (sch w);
  frame_reads : (reads w ≤ reads w')%nat;
}.

#[local] Instance same_thread_preorder : PreOrder same_thread.
Proof.
  split.
  - intros a. split; auto.
  - intros a b c [] []. split; try congruence.
    destruct same_wakeup0, same_wakeup1; (right; congruence) || (left; congruence).
Qed.

#[local] Instance frame_preorder : PreOrder frame.
Proof.
  split.
  - intros w. split; auto. intros t. destruct (thr w !! t); simpl; [reflexivity|done].
  - intros w1 w2 w3 [] []. split; try congruence; try lia.
    intros t. specialize (frame_thr0 t). specialize (frame_thr1 t).
    destruct (thr w1 !! t), (thr w2 !! t), (thr w3 !! t); simpl in *; try done.
    by etrans.
Qed.

Lemma frame_lookup w w' t th : frame w w' → thr w !! t = Some th →
  ∃ th', thr w' !! t = Some th' ∧ same_thread th th'.
Proof.
  intros Hf Ht. pose proof (frame_thr _ _ Hf t) as Hr. rewrite Ht in Hr.
  destruct (thr w' !! t); simpl in Hr; [eauto|done].
Qed.

Lemma frame_lookup_back w w' t th' : frame w w' → thr w' !! t = Some th' →
  ∃ th, thr w !! t = Some th ∧ same_thread th th'.
Proof.
  intros Hf Ht. pose proof (frame_thr _ _ Hf t) as Hr. rewrite Ht in Hr.
  destruct (thr w !! t); simpl in Hr; [eauto|done].
Qed.

Lemma same_user a b : same_thread a b → is_user b = is_user a.
Proof. intros [? E ?]. unfold is_user. by rewrite E. Qed.

Lemma awake_mono w w' a b : (reads w ≤ reads w')%nat → same_thread a b → awake w a → awake w' b.
Proof.
  intros Hr Hs. unfold awake. rewrite (same_user _ _ Hs).
  pose proof (rdtsc_mono _ _ Hr). destruct (same_wakeup _ _ Hs) as [->| ->]; [|tauto].
  intros [?|[?|?]]; [tauto|tauto|right; right; lia].
Qed.

Lemma ready_mono w w' t : frame w w' → ready w t → ready w' t.
Proof.
  intros Hf (th & Ht & Hs & Ha). destruct (frame_lookup _ _ _ _ Hf Ht) as (th' & Ht' & Hsame).
  exists th'. split; [done|]. split; [by rewrite (same_state _ _ Hsame)|].
  by apply (awake_mono w w' th th'); [apply frame_reads| |].
Qed.

(** The object of [t] exists, and its process. *)
Definition valid (w : world) (t : Z) : Prop :=
  ∃ th, thr w !! t = Some th ∧ (is_user th = true → is_Some (procs w !! parent_proc_ th)).

Lemma valid_mono w w' t : frame w w' → valid w t → valid w' t.
Proof.
  intros Hf (th & Ht & Hp). destruct (frame_lookup _ _ _ _ Hf Ht) as (th' & Ht' & Hs).
  exists th'. split; [done|]. rewrite (same_user _ _ Hs), (same_parent _ _ Hs). intros Hu.
  apply Hp in Hu as [p Hq]. pose proof (frame_procs _ _ Hf (parent_proc_ th)) as Hf'.
  rewrite Hq in Hf'. destruct (procs w' !! parent_proc_ th); [eauto|done].
Qed.

Lemma frame_update w t th th' : thr w !! t = Some th → same_thread th th' → frame w (update w t th').
Proof.
  intros Ht Hs. split; simpl; try done. intros u. destruct (decide (t = u)) as [<-|Hne].
  - by rewrite lookup_insert_eq, Ht.
  - rewrite lookup_insert_ne by done. destruct (thr w !! u); simpl; [reflexivity|done].
Qed.

Lemma frame_intro w w' : thr w' = thr w → procs w' = procs w →
  threads_ (sch w') = threads_ (sch w) → block_scheduling_ (sch w') = block_scheduling_ (sch w) →
  idle_thread_ (sch w') = idle_thread_ (sch w) → cleanup_thread_ (sch w') = cleanup_thread_ (sch w) →
  (reads w ≤ reads w')%nat → frame w w'.
Proof.
  intros E1 E2 E3 E4 E5 E6 E7. split; auto; [|by rewrite E2].
  intros u. rewrite E1. destruct (thr w !! u); simpl; [reflexivity|done].
Qed.

Lemma frame_insert w w' t th th' : thr w !! t = Some th → same_thread th th' →
  thr w' = <[t := th']> (thr w) → procs w' = procs w →
  threads_ (sch w') = threads_ (sch w) → block_scheduling_ (sch w') = block_scheduling_ (sch w) →
  idle_thread_ (sch w') = idle_thread_ (sch w) → cleanup_thread_ (sch w') = cleanup_thread_ (sch w) →
  (reads w ≤ reads w')%nat → frame w w'.
Proof.
  intros Ht Hs E1 E2 E3 E4 E5 E6 E7. etrans; [by apply (frame_update w t th th')|].
  by apply frame_intro.
Qed.

Lemma frame_time w : frame w (getCurrentTime w).1.
Proof. apply frame_intro; simpl; auto. Qed.

Lemma frame_uthread w a b : frame w (set_sch w (set_uthread (sch w) a b)).
Proof. by apply frame_intro. Qed.

Lemma frame_registers w t u : frame w (set_registers w t u).
Proof. by apply frame_intro. Qed.

Lemma frame_incAccTime w q p n : procs w !! q = Some p →
  frame w (set_procs w (<[q := incAccTime p n]> (procs w))).
Proof.
  intros Hq. split; simpl; auto.
  - intros u. destruct (thr w !! u); simpl; [reflexivity|done].
  - intros r. destruct (decide (q = r)) as [<-|Hne].
    + rewrite lookup_insert_eq, Hq. simpl. by rewrite incAccTime_ids.
    + by rewrite lookup_insert_ne.
Qed.

(** ** The choice of [schedule] *)

Lemma check_wakeup_ok w t th w' skip : thr w !! t = Some th → is_user th = true →
  check_wakeup w t th = (w', skip) →
  frame w w' ∧ currentThread w' = currentThread w ∧ (∀ u, u ≠ t → thr w' !! u = thr w !! u) ∧
  (if skip then ¬ awake w th
   else ∃ a, thr w' !! t = Some a ∧ (a = th ∨ a = resetWakeUp th) ∧ awake w' a).
Proof.
  intros Ht Hu. unfold check_wakeup, awake. rewrite Hu.
  destruct (time_to_wakeup_ th =? 0) eqn:E0.
  { intros [= <- <-]. bool_to_prop. split_and!; [reflexivity|done|done|]. exists th. rewrite Hu. auto. }
  simpl. destruct (rdtsc (reads w) <? time_to_wakeup_ th) eqn:E1.
  { intros [= <- <-]. bool_to_prop. split_and!; [apply (frame_time w)|done|done|].
    intros [?|[?|?]]; [done|lia|lia]. }
  pose proof (rdtsc_mono (reads w) (Datatypes.S (reads w)) ltac:(lia)) as Hm.
  destruct (time_to_wakeup_ th <=? rdtsc (Datatypes.S (reads w))) eqn:E2; [|bool_to_prop; lia].
  intros [= <- <-]. split_and!; simpl; auto.
  - eapply (frame_insert w _ t th); [done| |simpl; reflexivity|..]; simpl; auto. split; auto.
  - intros u Hne. by rewrite lookup_insert_ne.
  - exists (resetWakeUp th). rewrite lookup_insert_eq. auto.
Qed.

Lemma account_ok w : (∀ c, currentThread w = Some c → valid w c) →
  ∃ w', account w = Val w' ∧ frame w w' ∧ thr w' = thr w ∧ currentThread w' = currentThread w ∧
        currentThreadRegisters w' = currentThreadRegisters w.
Proof.
  intros Hc. unfold account. destruct (currentThread w) as [c|] eqn:Ec; [|exists w; split_and!; auto; reflexivity].
  destruct (Hc c eq_refl) as (th & Ht & Hp). unfold deref. rewrite Ht. simpl.
  destruct (is_user th); [|exists w; split_and!; auto; reflexivity].
  destruct (Hp eq_refl) as [q Hq].
  destruct (uthread_start_ (sch w) =? 0); simpl; rewrite Hq; eexists; (split_and!; [done| |done|done|done]).
  - etrans; [apply frame_uthread|]. by apply (frame_incAccTime (set_sch w _) _ q).
  - etrans; [apply (frame_time w)|]. etrans; [apply frame_uthread|].
    by apply (frame_incAccTime (set_sch (getCurrentTime w).1 _) _ q).
Qed.

(** What becomes of the chosen thread: a cancelled one is sent to
    [internalThreadCancel] in the kernel. *)
Definition dispatched (th : Thread) : Thread :=
  if is_user th && shouldCancel th && (switch_to_userspace_ th =? 1)
  then prepareCancellation (setCancelled th) else th.

Lemma dispatched_same th : same_thread th (dispatched th).
Proof. unfold dispatched. destruct (_ && _); split; auto. Qed.

Lemma dispatch_ok w t th : (∀ c, currentThread w = Some c → valid w c) → thr w !! t = Some th →
  ∃ w', dispatch w t = Val w' ∧ frame w w' ∧ currentThread w' = Some t ∧
        thr w' = <[t := dispatched th]> (thr w).
Proof.
  intros Hc Ht. destruct (account_ok w Hc) as (w1 & Ea & Hf & Hthr & _ & _).
  unfold dispatch. rewrite Ea. simpl. unfold deref, dispatched. simpl. rewrite Hthr, Ht. simpl.
  assert (Ht1 : thr w1 !! t = Some th) by (by rewrite Hthr).
  destruct (is_user th); simpl;
    [destruct (shouldCancel th && (switch_to_userspace_ th =? 1))|]; simpl; eexists; (split_and!; [done| |done|]).
  - etrans; [exact Hf|]. eapply (frame_insert w1 _ t th); [done| |simpl; by rewrite Hthr|..]; simpl; auto.
    split; auto.
  - done.
  - etrans; [exact Hf|]. apply frame_intro; simpl; auto.
  - by rewrite insert_id.
  - etrans; [exact Hf|]. apply frame_intro; simpl; auto.
  - simpl. by rewrite Hthr, insert_id.
Qed.

(** The search ends at the first thread that is ready when it gets to it. *)
Record chosen (w w' : world) (l : list Z) (j : nat) (t : Z) : Prop := {
  chosen_at : l !! j = Some t;
  chosen_frame : frame w w';
  chosen_current : currentThread w' = Some t;
  chosen_ready : ready w' t;
  chosen_first k u : (k < j)%nat → l !! k = Some u → ¬ ready w u;
  chosen_regs th : thr w !! t = Some th → ∃ a, same_thread th a ∧
    shouldCancel a = shouldCancel th ∧ switch_to_userspace_ a = switch_to_userspace_ th ∧
    rip_ a = rip_ th ∧ thr w' !! t = Some (dispatched a);
}.

Lemma chosen_skip w w1 w' u l j t : frame w w1 → ¬ ready w u →
  thr w1 !! t = thr w !! t →
  chosen w1 w' l j t → chosen w w' (u :: l) (Datatypes.S j) t.
Proof.
  intros Hf Hu Ht []. split; auto.
  - by etrans.
  - intros [|k] v Hk Hv; [simpl in Hv; congruence|]. intros Hr.
    apply (chosen_first0 k v); [lia|done|]. by apply (ready_mono w).
  - intros th Hth. apply chosen_regs0. by rewrite Ht.
Qed.

Lemma chosen_here w w1 w' t th a l :
  frame w w1 → thr w !! t = Some th → thr w1 !! t = Some a → a = th ∨ a = resetWakeUp th →
  state_ th = Running → awake w1 a →
  frame w1 w' → currentThread w' = Some t → thr w' = <[t := dispatched a]> (thr w1) →
  chosen w w' (t :: l) 0 t.
Proof.
  intros Hf Ht Ha Hor Hrun Haw Hf' Hc Hthr.
  assert (Hs : same_thread th a) by (destruct Hor as [->| ->]; split; auto).
  assert (Hw' : thr w' !! t = Some (dispatched a)) by (by rewrite Hthr, lookup_insert_eq).
  split; auto; [by etrans| |intros k u Hk; lia|].
  - apply (ready_mono w1 w'); [done|]. exists a. split_and!; auto. by rewrite (same_state _ _ Hs).
  - intros th' Hth'. replace th' with th by congruence. exists a. split_and!; auto; by destruct Hor as [->| ->].
Qed.

Lemma schedule_loop_ok l : NoDup l → ∀ w i,
  (∀ t, t ∈ l → valid w t) → (∀ c, currentThread w = Some c → valid w c) →
  (∃ t, t ∈ l ∧ ready w t) →
  ∃ w' j t, schedule_loop w l i = Val (w', (i + j)%nat) ∧ chosen w w' l j t.
Proof.
  induction 1 as [|t l Hnin Hnd IH]; intros w i Hv Hc (r & Hr & Hready); [by apply elem_of_nil in Hr|].
  destruct (Hv t ltac:(left)) as (th & Ht & Hp). cbn [schedule_loop]. unfold deref. rewrite Ht.
  cbn [mbind res_bind].
  assert (Hnext : ∀ w1, frame w w1 → currentThread w1 = currentThread w → ¬ ready w t →
    (∀ u, u ∈ l → thr w1 !! u = thr w !! u) →
    ∃ w' j u, schedule_loop w1 l (Datatypes.S i) = Val (w', (i + j)%nat) ∧ chosen w w' (t :: l) j u).
  { intros w1 Hf Hcur Hnr Hsame. destruct (IH w1 (Datatypes.S i)) as (w' & j & u & Ew & Hch).
    - intros u Hu. apply (valid_mono w); [done|]. apply Hv. by right.
    - intros c Hcc. apply (valid_mono w); [done|]. apply Hc. by rewrite <-Hcur.
    - exists r. apply elem_of_cons in Hr as [->|Hr]; [done|]. split; [done|]. by apply (ready_mono w).
    - exists w', (Datatypes.S j), u. split; [by rewrite Ew, Nat.add_succ_r|].
      apply (chosen_skip w w1); auto. apply Hsame. by eapply list_elem_of_lookup_2, chosen_at. }
  assert (Hhere : ∀ w1 a, frame w w1 → currentThread w1 = currentThread w →
    thr w1 !! t = Some a → a = th ∨ a = resetWakeUp th → awake w1 a →
    state_ th = Running →
    ∃ w' j u, (w ← dispatch w1 t; Val (w, i)) = Val (w', (i + j)%nat) ∧ chosen w w' (t :: l) j u).
  { intros w1 a Hf Hcur Ha Hor Haw Hrun.
    destruct (dispatch_ok w1 t a) as (w' & Ed & Hf' & Hcur' & Hthr); [|done|].
    { intros c Hcc. apply (valid_mono w); [done|]. apply Hc. by rewrite <-Hcur. }
    exists w', 0%nat, t. split; [rewrite Ed; simpl; by rewrite Nat.add_0_r|].
    by apply (chosen_here w w1 w' t th a). }
  destruct (is_user th) eqn:Eu.
  - destruct (check_wakeup w t th) as [w1 skip] eqn:Ec.
    destruct (check_wakeup_ok _ _ _ _ _ Ht Eu Ec) as (Hf & Hcur & Hoth & Hcase).
    destruct skip.
    + apply Hnext; auto; [|set_solver].
      intros (th' & Ht' & _ & Haw). by replace th' with th in Haw by congruence.
    + destruct Hcase as (a & Ha & Hor & Haw). unfold schedulable. case_bool_decide as Erun.
      * by apply (Hhere w1 a).
      * apply Hnext; auto; [|set_solver]. intros (th' & Ht' & Hs & _). congruence.
  - unfold schedulable. case_bool_decide as Erun.
    + apply (Hhere w th); auto; [reflexivity|]. by left.
    + apply Hnext; auto; [reflexivity|]. intros (th' & Ht' & Hs & _). congruence.
Qed.

(** A call of [schedule] that is not blocked. *)
Record scheduled (w w' : world) (r : Z) (j : nat) (t : Z) : Prop := {
  scheduled_chosen : ∃ w1, chosen w w1 (threads_ (sch w)) j t ∧ thr w' = thr w1 ∧ procs w' = procs w1 ∧ reads w' = reads w1;
  scheduled_threads : threads_ (sch w') = rotate (threads_ (sch w)) (j + 1);
  scheduled_block : block_scheduling_ (sch w') = 0;
  scheduled_idle : idle_thread_ (sch w') = idle_thread_ (sch w);
  scheduled_cleanup : cleanup_thread_ (sch w') = cleanup_thread_ (sch w);
  scheduled_current : currentThread w' = Some t;
  scheduled_registers : ∃ th, thr w' !! t = Some th ∧
    currentThreadRegisters w' = Some (t, negb (switch_to_userspace_ th =? 0)) ∧
    r = if switch_to_userspace_ th =? 0 then 0 else 1;
}.

Lemma schedule_ok w : NoDup (threads_ (sch w)) → block_scheduling_ (sch w) = 0 →
  (∀ t, t ∈ threads_ (sch w) → valid w t) → (∀ c, currentThread w = Some c → c ∈ threads_ (sch w)) →
  (∃ t, t ∈ threads_ (sch w) ∧ ready w t) →
  ∃ w' r j t, schedule false w = Val (w', r) ∧ scheduled w w' r j t.
Proof.
  intros Hnd Hb Hv Hc He.
  destruct (schedule_loop_ok _ Hnd w 0 Hv ltac:(auto) He) as (w1 & j & t & E & Hch).
  unfold schedule. rewrite Hb. cbn [negb kassert mbind res_bind Z.eqb]. rewrite E. cbn [mbind res_bind].
  destruct (chosen_ready _ _ _ _ _ Hch) as (th & Ht & _).
  pose proof (chosen_frame _ _ _ _ _ Hch) as Hf. pose proof (chosen_current _ _ _ _ _ Hch) as Hcur.
  simpl. rewrite Hcur. unfold deref. simpl. rewrite Ht. simpl.
  destruct (switch_to_userspace_ th =? 0) eqn:Es; simpl; do 4 eexists; (split; [done|]);
    (split; simpl; [by exists w1|by rewrite (frame_threads _ _ Hf)|by rewrite (frame_block _ _ Hf)|
       apply Hf|apply Hf|done|exists th; by rewrite Es]).
Qed.

(** ** The invariant of the scheduler *)

Definition knows (w : world) (th : Thread) : Prop :=
  is_user th = true → ∃ p, procs w !! parent_proc_ th = Some p ∧ tid_ th ∈ thread_ids p.

(** [pending] are the threads that [cleanupDeadThreads] still has to delete. *)
Record wf (w : world) (pending : list Z) : Prop := {
  wf_nodup : NoDup (threads_ (sch w) ++ pending);
  wf_small : Z.of_nat (length (threads_ (sch w))) < 2 ^ 32;
  wf_object t : t ∈ threads_ (sch w) ++ pending → ∃ th, thr w !! t = Some th ∧ knows w th;
  wf_tids t u a b : t ∈ threads_ (sch w) ++ pending → u ∈ threads_ (sch w) ++ pending →
    thr w !! t = Some a → thr w !! u = Some b → is_user a = true → is_user b = true →
    parent_proc_ a = parent_proc_ b → tid_ a = tid_ b → t = u;
  wf_dead t th : t ∈ threads_ (sch w) ++ pending → thr w !! t = Some th →
    (t ∈ pending → state_ th = ToBeDestroyed) ∧
    (state_ th = ToBeDestroyed → holding_lock_list_ th = [] ∧ t ≠ cleanup_thread_ (sch w));
  wf_current c : currentThread w = Some c → c ∈ threads_ (sch w);
  wf_idle : idle_thread_ (sch w) ∈ threads_ (sch w) ∧ ∃ th,
    thr w !! idle_thread_ (sch w) = Some th ∧ is_user th = false ∧ state_ th = Running;
  wf_cleanup : cleanup_thread_ (sch w) ∈ threads_ (sch w) ∧ cleanup_thread_ (sch w) ≠ idle_thread_ (sch w);
  wf_unlocked : block_scheduling_ (sch w) = 0;
}.

(** What the rest of the kernel asks of the scheduler, as steps; a collection
    and each deletion of [cleanupDeadThreads] are steps of their own, so that
    other threads may run in between.  [OpBlocked] is an interrupt while scheduling
    is locked, as it is inside [addNewThread] and the collection. *)
Inductive op :=
| OpSchedule
| OpBlocked
| OpAdd (t : Z) (th : Thread)
| OpCollect
| OpDestroy
| OpSleep
| OpWake (t : Z)
| OpKill (t : Z)
| OpSleepUntil (t wakeup : Z)
| OpCancel (t : Z)
| OpTick.

Definition exec (o : op) (s : world * list Z) : res (world * list Z) :=
  let '(w, pending) := s in
  match o with
  | OpSchedule => '(w, _) ← schedule false w; Val (w, pending)
  | OpBlocked =>
      w ← lockScheduling w;
      '(w, _) ← schedule false w;
      Val (unlockScheduling w, pending)
  | OpAdd t th => w ← addNewThread (update w t th) t; Val (w, pending)
  | OpCollect => '(w, dead) ← collectDeadThreads w; Val (w, dead)
  | OpDestroy =>
      match pending with
      | [] => Val (w, [])
      | t :: pending => w ← destroy w t; Val (w, pending)
      end
  | OpSleep => '(w, _) ← sleep w; Val (w, pending)
  | OpWake t => w ← wake w t; Val (w, pending)
  | OpKill t => '(w, _) ← kill w t; Val (w, pending)
  | OpSleepUntil t wakeup => '(w, _) ← sleepUntil w t wakeup; Val (w, pending)
  | OpCancel t => th ← deref w t; Val (update w t (receiveCancelRequest th), pending)
  | OpTick => Val (incTicks w, pending)
  end.

(** When the kernel takes the step: a new object has a new address and, for a
    user thread, an id its process has just given out; only the cleanup thread
    cleans up; the idle thread is never put to sleep or killed; a thread is only
    killed without locks, and woken when it sleeps. *)
Definition allowed (o : op) (s : world * list Z) : Prop :=
  let w := s.1 in
  let pending := s.2 in
  match o with
  | OpSchedule | OpBlocked | OpTick => True
  | OpAdd t th =>
      thr w !! t = None ∧ knows w th ∧ state_ th = Running ∧
      Z.of_nat (length (threads_ (sch w))) + 1 < 2 ^ 32 ∧
      (∀ u b, u ∈ threads_ (sch w) ++ pending → thr w !! u = Some b → is_user b = true →
        is_user th = true → parent_proc_ b = parent_proc_ th → tid_ b ≠ tid_ th)
  | OpCollect => currentThread w = Some (cleanup_thread_ (sch w)) ∧ pending = []
  | OpDestroy => currentThread w = Some (cleanup_thread_ (sch w))
  | OpSleep => ∃ c th, currentThread w = Some c ∧ c ≠ idle_thread_ (sch w) ∧
      thr w !! c = Some th ∧ state_ th ≠ ToBeDestroyed
  | OpWake t => t ∈ threads_ (sch w) ∧ ∃ th, thr w !! t = Some th ∧ state_ th = Sleeping
  | OpKill t => t ∈ threads_ (sch w) ∧ t ≠ idle_thread_ (sch w) ∧ t ≠ cleanup_thread_ (sch w) ∧
      ∃ th, thr w !! t = Some th ∧ holding_lock_list_ th = []
  | OpSleepUntil t _ | OpCancel t =>
      t ∈ threads_ (sch w) ∧ t ≠ idle_thread_ (sch w)
  end.

(** *** Steps that keep the set of threads *)

Definition kept (w : world) (pending : list Z) (t : Z) (a b : Thread) : Prop :=
  (tid_ b = tid_ a ∧ type_ b = type_ a ∧ parent_proc_ b = parent_proc_ a) ∧
  ((state_ b = state_ a ∧ holding_lock_list_ b = holding_lock_list_ a) ∨
   (t ∉ pending ∧ t ≠ idle_thread_ (sch w) ∧
    (state_ b = ToBeDestroyed → holding_lock_list_ b = [] ∧ t ≠ cleanup_thread_ (sch w)))).

Lemma kept_refl w pending t a : kept w pending t a a.
Proof. split; auto. Qed.

Lemma wf_keep w w' pending : wf w pending →
  threads_ (sch w') ≡ₚ threads_ (sch w) →
  idle_thread_ (sch w') = idle_thread_ (sch w) → cleanup_thread_ (sch w') = cleanup_thread_ (sch w) →
  block_scheduling_ (sch w') = 0 →
  (∀ q, thread_ids <$> procs w' !! q = thread_ids <$> procs w !! q) →
  (∀ t a, t ∈ threads_ (sch w) ++ pending → thr w !! t = Some a →
    ∃ b, thr w' !! t = Some b ∧ kept w pending t a b) →
  (∀ c, currentThread w' = Some c → c ∈ threads_ (sch w)) →
  wf w' pending.
Proof.
  intros [] Hl Hi Hcl Hb Hq Ht Hc.
  assert (Hin : ∀ t, t ∈ threads_ (sch w') ++ pending ↔ t ∈ threads_ (sch w) ++ pending) by (intros t; by rewrite Hl).
  assert (Hback : ∀ t b, t ∈ threads_ (sch w') ++ pending → thr w' !! t = Some b →
    ∃ a, thr w !! t = Some a ∧ kept w pending t a b).
  { intros t b Hm Hb'. apply Hin in Hm. destruct (wf_object0 t Hm) as (a & Ha & _).
    destruct (Ht t a Hm Ha) as (b' & Hb'' & Hk). exists a. by replace b with b' by congruence. }
  assert (Huser : ∀ t a b, kept w pending t a b → is_user b = is_user a).
  { intros t a b [(_ & E & _) _]. unfold is_user. by rewrite E. }
  split.
  - by rewrite Hl.
  - by rewrite Hl.
  - intros t Hm. apply Hin in Hm. destruct (wf_object0 t Hm) as (a & Ha & Hk).
    destruct (Ht t a Hm Ha) as (b & Hb' & Hkept). exists b. split; [done|].
    intros Hu. rewrite (Huser _ _ _ Hkept) in Hu. destruct (Hk Hu) as (p & Hp & Hid).
    destruct Hkept as [(E1 & _ & E3) _]. rewrite E1, E3.
    specialize (Hq (parent_proc_ a)). rewrite Hp in Hq. simpl in Hq.
    destruct (procs w' !! parent_proc_ a) as [p'|]; [|done]. simpl in Hq.
    exists p'. split; [done|]. by replace (thread_ids p') with (thread_ids p) by congruence.
  - intros t u b1 b2 Ht1 Hu1 Hb1 Hb2 Ub1 Ub2 Ep Et.
    destruct (Hback _ _ Ht1 Hb1) as (a1 & Ha1 & Hk1). destruct (Hback _ _ Hu1 Hb2) as (a2 & Ha2 & Hk2).
    rewrite (Huser _ _ _ Hk1) in Ub1. rewrite (Huser _ _ _ Hk2) in Ub2.
    destruct Hk1 as [(E1 & _ & E3) _], Hk2 as [(F1 & _ & F3) _].
    apply (wf_tids0 t u a1 a2); auto; [by apply Hin|by apply Hin|congruence|congruence].
  - intros t b Hm Hb'. destruct (Hback _ _ Hm Hb') as (a & Ha & _ & Hk). apply Hin in Hm.
    destruct (wf_dead0 t a Hm Ha) as [Hd1 Hd2]. rewrite Hcl.
    destruct Hk as [[E1 E2]|(Hn & _ & Hd)]; [rewrite E1, E2; auto|]. split; [done|auto].
  - intros c Hcur. rewrite Hl. auto.
  - rewrite Hi, Hl. destruct wf_idle0 as [Hm (a & Ha & Hu & Hr)]. split; [done|].
    destruct (Ht _ a ltac:(apply elem_of_app; by left) Ha) as (b & Hb' & Hk). exists b. split; [done|].
    rewrite (Huser _ _ _ Hk). destruct Hk as [_ [[E _]|(_ & Hne & _)]]; [by rewrite E|done].
  - by rewrite Hi, Hcl, Hl.
  - done.
Qed.

Lemma rotate_perm l n : rotate l n ≡ₚ l.
Proof. unfold rotate. rewrite (comm (++)). by rewrite take_drop. Qed.

Lemma wf_valid w pending t : wf w pending → t ∈ threads_ (sch w) → valid w t.
Proof.
  intros Hw Ht. destruct (wf_object _ _ Hw t ltac:(apply elem_of_app; by left)) as (th & Hth & Hk).
  exists th. split; [done|]. intros Hu. destruct (Hk Hu) as (p & Hp & _). eauto.
Qed.

Lemma wf_ready w pending : wf w pending → ∃ t, t ∈ threads_ (sch w) ∧ ready w t.
Proof.
  intros Hw. destruct (wf_idle _ _ Hw) as [Hm (th & Hth & Hu & Hr)].
  exists (idle_thread_ (sch w)). split; [done|]. exists th. split_and!; auto. by left.
Qed.

Lemma wf_schedule w pending : wf w pending →
  ∃ w' r j t, schedule false w = Val (w', r) ∧ scheduled w w' r j t ∧ wf w' pending.
Proof.
  intros Hw. pose proof (wf_nodup _ _ Hw) as Hnd. apply NoDup_app in Hnd as [Hnd _].
  destruct (schedule_ok w Hnd (wf_unlocked _ _ Hw)) as (w' & r & j & t & E & Hs).
  - intros t. apply (wf_valid w pending t Hw).
  - apply Hw.
  - by apply (wf_ready w pending).
  - exists w', r, j, t. split; [done|]. split; [done|].
    destruct (scheduled_chosen _ _ _ _ _ Hs) as (w1 & Hch & Ethr & Eproc & _).
    pose proof (chosen_frame _ _ _ _ _ Hch) as Hf.
    apply (wf_keep w); auto; try apply Hs.
    + rewrite (scheduled_threads _ _ _ _ _ Hs). apply rotate_perm.
    + intros q. rewrite Eproc. apply Hf.
    + intros u a _ Ha. rewrite Ethr. destruct (frame_lookup _ _ _ _ Hf Ha) as (b & Hb & []).
      exists b. split; [done|]. split; auto.
    + intros c. rewrite (scheduled_current _ _ _ _ _ Hs). intros [= <-].
      eapply list_elem_of_lookup_2, chosen_at, Hch.
Qed.

(** One thread of the queue changes. *)
Lemma wf_update w pending t a b : wf w pending → t ∈ threads_ (sch w) → thr w !! t = Some a →
  (t ∉ pending → kept w pending t a b) → wf (update w t b) pending.
Proof.
  intros Hw Hm Ha Hk.
  assert (Hnp : t ∉ pending).
  { pose proof (wf_nodup _ _ Hw) as Hnd. apply NoDup_app in Hnd as (_ & Hd & _). auto. }
  apply (wf_keep w); auto; try apply Hw.
  intros u c _ Hc. unfold update. simpl. destruct (decide (t = u)) as [<-|Hne].
  - exists b. rewrite lookup_insert_eq. replace c with a by congruence. auto.
  - exists c. rewrite lookup_insert_ne by done. split; [done|apply kept_refl].
Qed.

Lemma wf_setState w pending t th s : wf w pending → t ∈ threads_ (sch w) → thr w !! t = Some th →
  t ≠ idle_thread_ (sch w) → (state_ th = ToBeDestroyed → s = ToBeDestroyed) →
  (s = Sleeping → currentThread w = Some t) →
  (s = ToBeDestroyed → holding_lock_list_ th = [] ∧ t ≠ cleanup_thread_ (sch w)) →
  setState w t s = Val (update w t (set_state th s)) ∧ wf (update w t (set_state th s)) pending.
Proof.
  intros Hw Hm Ht Hni Hd Hsl Hdead. split.
  - unfold setState, deref. rewrite Ht. simpl.
    assert (E1 : bool_decide (state_ th = ToBeDestroyed) && negb (bool_decide (s = ToBeDestroyed)) = false).
    { case_bool_decide as E; [|done]. by rewrite (bool_decide_true _ (Hd E)). }
    assert (E2 : bool_decide (s = Sleeping) && negb (bool_decide (currentThread w = Some t)) = false).
    { destruct (decide (s = Sleeping)) as [E|E]; [|by rewrite (bool_decide_false _ E)].
      rewrite (bool_decide_true _ (Hsl E)). apply andb_false_r. }
    by rewrite E1, E2.
  - apply (wf_update w pending t th); auto. intros Hnp. split; [done|]. right. auto.
Qed.

(** *** Collecting the dead threads *)

Definition is_dead (w : world) (t : Z) : bool :=
  match thr w !! t with Some th => bool_decide (state_ th = ToBeDestroyed) | None => false end.

(** What stays and what goes when at most [n] threads of [l] are taken out. *)
Fixpoint sweep (dead : Z → bool) (n : nat) (l : list Z) : list Z * list Z :=
  match l with
  | [] => ([], [])
  | t :: l' =>
      match n with
      | O => (l, [])
      | Datatypes.S n' =>
          if dead t then (λ r, (r.1, t :: r.2)) (sweep dead n' l')
          else (λ r, (t :: r.1, r.2)) (sweep dead n l')
      end
  end.

Lemma sweep_zero dead l : sweep dead 0 l = (l, []).
Proof. by destruct l. Qed.

Lemma sweep_perm dead l : ∀ n, (sweep dead n l).1 ++ (sweep dead n l).2 ≡ₚ l.
Proof.
  induction l as [|t l IH]; intros [|n]; simpl; [done..|by rewrite app_nil_r|].
  destruct (dead t); simpl.
  - by rewrite <-Permutation_middle, IH.
  - by rewrite IH.
Qed.

Lemma sweep_dead dead l : ∀ n, (sweep dead n l).2 = take n (filter (λ t, dead t = true) l).
Proof.
  induction l as [|t l IH]; intros [|n]; simpl; [done..|].
  destruct (dead t) eqn:E; simpl.
  - rewrite filter_cons_True by done. simpl. by rewrite IH.
  - rewrite filter_cons_False by congruence. by rewrite IH.
Qed.

Lemma sweep_alive dead l : ∀ n, (length (filter (λ t, dead t = true) l) ≤ n)%nat →
  (sweep dead n l).1 = filter (λ t, dead t = false) l.
Proof.
  induction l as [|t l IH]; intros [|n]; simpl; [done..| |]; destruct (dead t) eqn:E; simpl.
  - rewrite filter_cons_True by done. simpl. lia.
  - rewrite filter_cons_False by congruence. intros Hl. rewrite filter_cons_True by done. f_equal.
    rewrite <-(IH 0%nat Hl). by rewrite sweep_zero.
  - rewrite filter_cons_True by done. simpl. intros Hl. rewrite filter_cons_False by congruence.
    apply IH. lia.
  - rewrite filter_cons_False by congruence. intros Hl. rewrite filter_cons_True by done.
    by rewrite IH.
Qed.

Lemma cleanup_loop_ok w rest : ∀ fuel kept dl n,
  (∀ t, t ∈ rest → is_Some (thr w !! t)) → (length rest < fuel)%nat → (rest = [] ∨ 0 < n)%nat →
  Z.of_nat (length (kept ++ rest)) < 2 ^ 32 →
  cleanup_loop fuel w (Z.of_nat (length kept)) (kept ++ rest) dl (Z.of_nat (length dl + n)) =
  Val (kept ++ (sweep (is_dead w) n rest).1, dl ++ (sweep (is_dead w) n rest).2).
Proof.
  induction rest as [|t rest IH]; intros [|fuel] kept dl n Hst Hf Hn Hlen; [simpl in Hf; lia| |simpl in Hf; lia|];
    cbn [cleanup_loop].
  - rewrite app_nil_r, (proj2 (Z.ltb_ge _ _)) by lia. simpl. by rewrite !app_nil_r.
  - destruct Hn as [?|Hn]; [done|]. destruct n as [|n]; [lia|].
    rewrite (proj2 (Z.ltb_lt _ _)) by (rewrite length_app; simpl; lia).
    rewrite Nat2Z.id, list_lookup_middle by done.
    destruct (Hst t ltac:(left)) as [th Hth]. unfold deref. rewrite Hth. cbn [mbind res_bind sweep].
    assert (Ed : is_dead w t = bool_decide (state_ th = ToBeDestroyed)) by (unfold is_dead; by rewrite Hth).
    rewrite Ed. rewrite length_app in Hlen. simpl in Hlen, Hf.
    assert (Hst' : ∀ u, u ∈ rest → is_Some (thr w !! u)) by (intros u Hu; apply Hst; by right).
    case_bool_decide as E.
    + rewrite delete_middle.
      destruct (Z.of_nat (length dl + Datatypes.S n) <=? Z.of_nat (length (dl ++ [t]))) eqn:Emax; bool_to_prop;
        rewrite length_app in Emax; simpl in Emax.
      * replace n with 0%nat by lia. rewrite sweep_zero. simpl. done.
      * replace (u32 (u32 (Z.of_nat (length kept) - 1) + 1)) with (Z.of_nat (length kept)).
        2:{ unfold wrap. rewrite Zplus_mod_idemp_l, Z.sub_add, Z.mod_small; [done|lia]. }
        replace (length dl + Datatypes.S n)%nat with (length (dl ++ [t]) + n)%nat by (rewrite length_app; simpl; lia).
        rewrite IH; [|done|lia|right; lia|rewrite length_app; lia].
        simpl. by rewrite <-app_assoc.
    + rewrite (proj2 (Z.leb_gt _ _)) by lia.
      replace (u32 (Z.of_nat (length kept) + 1)) with (Z.of_nat (length (kept ++ [t]))).
      2:{ unfold wrap. rewrite length_app, Z.mod_small; simpl; lia. }
      replace (kept ++ t :: rest) with ((kept ++ [t]) ++ rest) by (by rewrite <-app_assoc).
      rewrite IH; [|done|lia|right; lia|rewrite !length_app; simpl; lia].
      simpl. by rewrite <-app_assoc.
Qed.

Lemma collect_ok w : (∀ t, t ∈ threads_ (sch w) → is_Some (thr w !! t)) →
  block_scheduling_ (sch w) = 0 → Z.of_nat (length (threads_ (sch w))) < 2 ^ 32 →
  ∃ n, let l := (sweep (is_dead w) n (threads_ (sch w))).1 in
       collectDeadThreads w = Val (set_sch w (set_list (sch w) l), take 1024 (filter (λ t, is_dead w t = true) (threads_ (sch w)))) ∧
       l ++ take 1024 (filter (λ t, is_dead w t = true) (threads_ (sch w))) ≡ₚ threads_ (sch w) ∧
       ((length (filter (λ t, is_dead w t = true) (threads_ (sch w))) ≤ 1024)%nat →
        l = filter (λ t, is_dead w t = false) (threads_ (sch w))).
Proof.
  intros Hst Hb Hlen. set (ts := threads_ (sch w)) in *.
  set (n := Nat.min 1024 (length ts)).
  assert (Htake : take n (filter (λ t, is_dead w t = true) ts) = take 1024 (filter (λ t, is_dead w t = true) ts)).
  { unfold n. destruct (Nat.min_spec 1024 (length ts)) as [[? ->]|[? ->]]; [done|].
    pose proof (length_filter (λ t, is_dead w t = true) ts). rewrite !take_ge by lia. done. }
  exists n. split_and!.
  - assert (Hloop : cleanup_loop (Datatypes.S (length ts)) (set_sch w (set_block (sch w) 1)) 0 ts [] (Z.of_nat n) =
      Val ((sweep (is_dead w) n ts).1, (sweep (is_dead w) n ts).2)).
    { apply (cleanup_loop_ok (set_sch w (set_block (sch w) 1)) ts _ [] [] n); auto.
      unfold n. destruct ts; [by left|right; simpl; lia]. }
    assert (Hmax : (if 1024 <? u32 (Z.of_nat (length ts)) then 1024 else u32 (Z.of_nat (length ts))) = Z.of_nat n).
    { unfold wrap. rewrite Z.mod_small by lia. unfold n.
      destruct (1024 <? Z.of_nat (length ts)) eqn:E; bool_to_prop; lia. }
    unfold collectDeadThreads, lockScheduling. rewrite Hb. cbn [kassert Z.eqb mbind res_bind].
    change (threads_ (sch (set_sch w (set_block (sch w) 1)))) with ts.
    rewrite Hmax, Hloop. cbn [mbind res_bind]. rewrite <-Htake, sweep_dead. do 2 f_equal.
    destruct w as [[]]. unfold ts, set_sch, set_list, unlockScheduling, set_block in *. simpl in *. by subst.
  - rewrite <-Htake, <-sweep_dead. apply sweep_perm.
  - intros Hd. apply sweep_alive. rewrite <-(take_ge (filter _ ts) 1024), <-Htake, length_take by done. lia.
Qed.

Lemma is_dead_spec w t : is_dead w t = true ↔ ∃ th, thr w !! t = Some th ∧ state_ th = ToBeDestroyed.
Proof. unfold is_dead. destruct (thr w !! t); [rewrite bool_decide_eq_true|]; naive_solver. Qed.

Lemma wf_in_store w pending t : wf w pending → t ∈ threads_ (sch w) → is_Some (thr w !! t).
Proof. intros Hw Ht. destruct (wf_valid w pending t Hw Ht) as (th & ? & _). eauto. Qed.

Lemma wf_collect w : wf w [] → currentThread w = Some (cleanup_thread_ (sch w)) →
  ∃ w' dead, collectDeadThreads w = Val (w', dead) ∧ wf w' dead ∧
    threads_ (sch w') ++ dead ≡ₚ threads_ (sch w) ∧
    dead = take 1024 (filter (λ t, is_dead w t = true) (threads_ (sch w))) ∧
    (∃ n, w' = set_sch w (set_list (sch w) (sweep (is_dead w) n (threads_ (sch w))).1)) ∧
    ((length (filter (λ t, is_dead w t = true) (threads_ (sch w))) ≤ 1024)%nat →
     threads_ (sch w') = filter (λ t, is_dead w t = false) (threads_ (sch w))).
Proof.
  intros Hw Hc. destruct (collect_ok w) as (n & E & Hp & Hl);
    [intros t; by apply (wf_in_store w [])|apply Hw|apply Hw|].
  assert (Hex : ∃ m, (sweep (is_dead w) n (threads_ (sch w))).1 = (sweep (is_dead w) m (threads_ (sch w))).1) by eauto.
  revert E Hp Hl Hex. generalize (sweep (is_dead w) n (threads_ (sch w))).1. intros l E Hp Hl [m Hm].
  set (dead := take 1024 (filter (λ t, is_dead w t = true) (threads_ (sch w)))) in *.
  exists (set_sch w (set_list (sch w) l)), dead. split_and!; eauto; [|exists m; by rewrite Hm].
  assert (Hdead : ∀ t, t ∈ dead → is_dead w t = true).
  { intros t Ht. apply elem_of_take in Ht as (k & Hk & _). apply list_elem_of_lookup_2 in Hk.
    by apply list_elem_of_filter in Hk as [? _]. }
  assert (Hin : ∀ t, t ∈ l ++ dead ↔ t ∈ threads_ (sch w) ++ []) by (intros t; by rewrite Hp, app_nil_r).
  assert (Hstay : ∀ t th, t ∈ threads_ (sch w) → thr w !! t = Some th →
    (state_ th = ToBeDestroyed → t = cleanup_thread_ (sch w) ∨ t = idle_thread_ (sch w)) → t ∈ l).
  { intros t th Ht Hth Hor. rewrite <-Hp in Ht. apply elem_of_app in Ht as [?|Ht]; [done|].
    apply Hdead, is_dead_spec in Ht as (th' & Hth' & Hs). replace th' with th in Hs by congruence.
    destruct (wf_idle _ _ Hw) as [Hi (ith & Hith & _ & Hrun)].
    assert (Hin' : t ∈ threads_ (sch w) ++ []).
    { rewrite app_nil_r. destruct (Hor Hs) as [E0|E0]; rewrite E0; [apply (wf_cleanup _ _ Hw)|done]. }
    destruct (wf_dead _ _ Hw t th Hin' Hth) as [_ Hd]. destruct (Hd Hs) as [_ Hne].
    destruct (Hor Hs) as [E0|E0]; [done|]. rewrite E0 in Hth. congruence. }
  destruct Hw as [Hnd Hsm Hob Htid Hde Hcur [Hi1 (ith & Hith & Hiu & Hir)] [Hcl Hci] Hb].
  assert (Hclth : ∃ cth, thr w !! cleanup_thread_ (sch w) = Some cth) by (destruct (Hob _ ltac:(rewrite app_nil_r; exact Hcl)) as (? & ? & _); eauto).
  destruct Hclth as [cth Hcth].
  split; simpl; auto.
  - rewrite Hp. by rewrite app_nil_r in Hnd.
  - rewrite <-Hp, length_app in Hsm. lia.
  - intros t Ht. by apply Hob, Hin.
  - intros t u a b Ht Hu. apply Htid; by apply Hin.
  - intros t th Ht Hth. split.
    + intros Hd. apply Hdead, is_dead_spec in Hd as (th' & Hth' & Hs). congruence.
    + apply (Hde t th); [by apply Hin|done].
  - intros c Hcc. assert (c = cleanup_thread_ (sch w)) as -> by congruence.
    apply (Hstay _ cth); auto.
  - split; [|eauto]. apply (Hstay _ ith); auto.
  - split; [|done]. apply (Hstay _ cth); auto.
Qed.

(** *** Deleting a thread *)

(** The ids of the threads of the process at [q]. *)
Definition ids_of (w : world) (q : Z) : gset Z := default ∅ (thread_ids <$> procs w !! q).

(** The deletion of [t] takes its id, and nothing else, from its process. *)
Lemma wf_destroy w t pending : wf w (t :: pending) → currentThread w = Some (cleanup_thread_ (sch w)) →
  ∃ w' th, destroy w t = Val w' ∧ wf w' pending ∧ thr w !! t = Some th ∧
    thr w' = delete t (thr w) ∧ sch w' = sch w ∧ currentThread w' = currentThread w ∧
    (∀ q, ids_of w' q = if is_user th && (q =? parent_proc_ th)
                        then ids_of w q ∖ {[tid_ th]} else ids_of w q).
Proof.
  intros Hw Hc. destruct Hw as [Hnd Hsm Hob Htid Hde Hcur [Hi1 (ith & Hith & Hiu & Hir)] [Hcl Hci] Hb].
  assert (Ht : t ∈ threads_ (sch w) ++ t :: pending) by (apply elem_of_app; right; left).
  destruct (Hob t Ht) as (th & Hth & Hk). destruct (Hde t th Ht Hth) as [Hd1 Hd2].
  specialize (Hd1 ltac:(left)). destruct (Hd2 Hd1) as [Hlocks Hne].
  rewrite <-Permutation_middle in Hnd. apply NoDup_cons in Hnd as [Hnt Hnd].
  assert (Hsub : ∀ u, u ∈ threads_ (sch w) ++ pending → u ∈ threads_ (sch w) ++ t :: pending ∧ u ≠ t).
  { intros u Hu. split; [|by intros ->]. rewrite <-Permutation_middle. by right. }
  assert (Hwf : ∀ w', thr w' = delete t (thr w) → sch w' = sch w → currentThread w' = currentThread w →
    (∀ u b, u ∈ threads_ (sch w) ++ pending → thr w !! u = Some b → knows w' b) → wf w' pending).
  { intros w' E1 E2 E3 Hkn.
    assert (Hlook : ∀ u b, u ∈ threads_ (sch w) ++ pending → thr w' !! u = Some b → thr w !! u = Some b).
    { intros u b Hu. rewrite E1, lookup_delete_ne; [done|]. by apply not_eq_sym, Hsub. }
    split; rewrite ?E2; auto.
    - intros u Hu. destruct (Hob u (proj1 (Hsub u Hu))) as (b & Hb' & _). exists b.
      rewrite E1, lookup_delete_ne by (by apply not_eq_sym, Hsub). split; [done|]. by apply (Hkn u).
    - intros u v a b Hu Hv Ha Hb'. apply (Htid u v a b); [by apply Hsub|by apply Hsub|by apply Hlook|by apply Hlook].
    - intros u b Hu Hb'. apply Hlook in Hb'; [|done].
      destruct (Hde u b (proj1 (Hsub u Hu)) Hb') as [H1 H2]. split; [|done]. intros Hp. apply H1. by right.
    - intros c Hcc. apply Hcur. congruence.
    - split; [done|]. exists ith. rewrite E1, lookup_delete_ne; [done|]. intros Et. rewrite <-Et in Hith. congruence. }
  unfold destroy, deref. rewrite Hth. cbn [mbind res_bind].
  rewrite (bool_decide_true (t ≠ cleanup_thread_ (sch w))), (bool_decide_true (holding_lock_list_ th = [])) by done.
  cbn [kassert mbind res_bind]. destruct (is_user th) eqn:Eu; cbn [mbind res_bind].
  - destruct (Hk Eu) as (p & Hp & Hid). rewrite Hp.
    destruct (destroyed_ok p (tid_ th) Hid) as (p' & b & -> & Hids & Hb'). cbn [mbind res_bind].
    assert (Hleft : ∀ u a, u ∈ threads_ (sch w) ++ pending → thr w !! u = Some a → is_user a = true →
      parent_proc_ a = parent_proc_ th → tid_ a ∈ thread_ids p').
    { intros u a Hu Ha Hua Epar. destruct (Hob u (proj1 (Hsub u Hu))) as (a' & Ha' & Hka).
      replace a' with a in Hka by congruence. destruct (Hka Hua) as (p2 & Hp2 & Hid2).
      rewrite Epar in Hp2. replace p2 with p in Hid2 by congruence. rewrite Hids.
      apply elem_of_difference. split; [done|]. rewrite elem_of_singleton. intros Etid.
      destruct (Hsub u Hu) as [Hu' Hune]. apply Hune. by apply (Htid u t a th). }
    assert (Hknow : ∀ w', (∀ q, q ≠ parent_proc_ th → procs w' !! q = procs w !! q) →
      (b = false → procs w' !! parent_proc_ th = Some p') →
      ∀ u a, u ∈ threads_ (sch w) ++ pending → thr w !! u = Some a → knows w' a).
    { intros w' Ho Hsame u a Hu Ha Hua. destruct (decide (parent_proc_ a = parent_proc_ th)) as [Epar|Hpar].
      - pose proof (Hleft u a Hu Ha Hua Epar) as Hin. rewrite Epar. exists p'. split; [|done].
        apply Hsame. destruct b; [|done]. rewrite (Hb' eq_refl) in Hin. set_solver.
      - rewrite Ho by done. destruct (Hob u (proj1 (Hsub u Hu))) as (a' & Ha' & Hka).
        replace a' with a in Hka by congruence. by apply Hka. }
    destruct b.
    + unfold isCurrentlyCleaningUp. rewrite bool_decide_true by done. cbn [kassert mbind res_bind].
      eexists _, th. split; [done|]. split_and!; simpl; auto.
      * apply Hwf; auto. apply Hknow; simpl; [|done]. intros q Hq. by rewrite lookup_delete_ne.
      * intros q. unfold ids_of. rewrite Eu. simpl. destruct (q =? parent_proc_ th) eqn:Eq; bool_to_prop.
        -- subst q. rewrite lookup_delete_eq, Hp. simpl. by rewrite <-Hids, (Hb' eq_refl).
        -- by rewrite lookup_delete_ne.
    + eexists _, th. split; [done|]. split_and!; simpl; auto.
      * apply Hwf; auto. apply Hknow; simpl; [|intros _; by rewrite lookup_insert_eq].
        intros q Hq. by rewrite lookup_insert_ne.
      * intros q. unfold ids_of. rewrite Eu. simpl. destruct (q =? parent_proc_ th) eqn:Eq; bool_to_prop.
        -- subst q. by rewrite lookup_insert_eq, Hp.
        -- by rewrite lookup_insert_ne.
  - eexists _, th. split; [done|]. split_and!; simpl; auto; [|intros q; by rewrite Eu].
    apply Hwf; auto. intros u a Hu Ha. destruct (Hob u (proj1 (Hsub u Hu))) as (a' & Ha' & Hka).
    by replace a with a' by congruence.
Qed.

(** *** Adding a thread *)

Lemma wf_add w pending t th : wf w pending → allowed (OpAdd t th) (w, pending) →
  ∃ w', addNewThread (update w t th) t = Val w' ∧ wf w' pending ∧
        threads_ (sch w') = threads_ (sch w) ++ [t].
Proof.
  intros Hw (Hnew & Hk & Hrun & Hlen & Htid). cbn [fst snd] in *.
  exists (set_sch (update w t th) (set_list (sch w) (threads_ (sch w) ++ [t]))).
  assert (Hb := wf_unlocked _ _ Hw). split_and!; [| |done].
  { unfold addNewThread, lockScheduling. simpl. rewrite Hb. simpl. f_equal.
    unfold unlockScheduling. destruct w as [[]]; simpl in *; by subst. }
  assert (Hfresh : ∀ u b, thr w !! u = Some b → u ≠ t) by (intros u b Hu ->; congruence).
  assert (Hin : ∀ u, u ∈ (threads_ (sch w) ++ [t]) ++ pending → u = t ∨ u ∈ threads_ (sch w) ++ pending).
  { intros u. rewrite !elem_of_app, list_elem_of_singleton. tauto. }
  assert (Hold : ∀ u, u ∈ threads_ (sch w) ++ pending → ∃ b, thr w !! u = Some b ∧ knows w b ∧ u ≠ t).
  { intros u Hu. destruct (wf_object _ _ Hw u Hu) as (b & Hb' & ?). eauto. }
  destruct Hw as [Hnd Hsm Hob Htids Hde Hcur [Hi1 (ith & Hith & Hiu & Hir)] [Hcl Hci] _].
  split; simpl; auto.
  - rewrite <-app_assoc. simpl. rewrite <-Permutation_middle. apply NoDup_cons. split; [|done].
    intros Hm. by destruct (Hold t Hm) as (? & _ & _ & ?).
  - rewrite length_app. simpl. lia.
  - intros u [->|Hu]%Hin; [exists th; by rewrite lookup_insert_eq|].
    destruct (Hold u Hu) as (b & Hb' & Hkb & Hne). exists b. by rewrite lookup_insert_ne.
  - intros u v a b [->|Hu]%Hin [->|Hv]%Hin; [done| | |].
    + rewrite lookup_insert_eq. destruct (Hold v Hv) as (b' & Hb' & _ & Hne). rewrite lookup_insert_ne by done.
      intros [= <-] Hb2 Ua Ub Ep Et. by destruct (Htid v b Hv Hb2 Ub Ua).
    + rewrite lookup_insert_eq. destruct (Hold u Hu) as (a' & Ha' & _ & Hne). rewrite lookup_insert_ne by done.
      intros Ha2 [= <-] Ua Ub Ep Et. by destruct (Htid u a Hu Ha2 Ua Ub).
    + destruct (Hold u Hu) as (a' & _ & _ & Hne1), (Hold v Hv) as (b' & _ & _ & Hne2).
      rewrite !lookup_insert_ne by done. by apply Htids.
  - intros u b [->|Hu]%Hin Hb'.
    + rewrite lookup_insert_eq in Hb'. injection Hb' as <-. split; [|congruence].
      intros Hp. by destruct (Hold t ltac:(apply elem_of_app; by right)) as (? & _ & _ & ?).
    + destruct (Hold u Hu) as (b' & _ & _ & Hne). rewrite lookup_insert_ne in Hb' by done. by apply Hde.
  - intros c Hcc. apply elem_of_app. left. by apply Hcur.
  - split; [apply elem_of_app; by left|]. exists ith. rewrite lookup_insert_ne; [done|]. by apply not_eq_sym, (Hfresh _ ith).
  - split; [apply elem_of_app; by left|done].
Qed.

(** *** The timer *)

Lemma incTicks_frame w : frame w (incTicks w) ∧ currentThread (incTicks w) = currentThread w.
Proof.
  unfold incTicks.
  repeat match goal with |- context [if ?b then _ else _] => destruct b; simpl end;
    (split; [apply frame_intro; simpl; auto|done]).
Qed.

Lemma wf_tick w pending : wf w pending → wf (incTicks w) pending.
Proof.
  intros Hw. destruct (incTicks_frame w) as [Hf Hc].
  apply (wf_keep w); auto; try apply Hf.
  - by rewrite (frame_threads _ _ Hf).
  - rewrite (frame_block _ _ Hf). apply Hw.
  - intros t a _ Ha. destruct (frame_lookup _ _ _ _ Hf Ha) as (b & Hb & []).
    exists b. split; [done|]. split; auto.
  - intros c. rewrite Hc. apply Hw.
Qed.

(** *** Every step *)

(** While scheduling is locked [schedule] changes nothing. *)
Lemma schedule_blocked w : block_scheduling_ (sch w) = 0 →
  ∃ w1, lockScheduling w = Val w1 ∧ schedule false w1 = Val (w1, 0) ∧ unlockScheduling w1 = w.
Proof.
  intros Hb. unfold lockScheduling. rewrite Hb. eexists. split_and!; [done|done|].
  destruct w as [s0]. destruct s0. simpl in Hb. by subst.
Qed.

(** How a step moves the queue. *)
Definition queue_step (o : op) (w w' : world) : Prop :=
  match o with
  | OpSchedule => ∃ r j t, scheduled w w' r j t
  | OpAdd t _ => threads_ (sch w') = threads_ (sch w) ++ [t]
  | OpCollect => ∃ n, threads_ (sch w') = (sweep (is_dead w) n (threads_ (sch w))).1
  | _ => threads_ (sch w') = threads_ (sch w)
  end.

Lemma step_ok o w pending : wf w pending → allowed o (w, pending) →
  ∃ w' pending', exec o (w, pending) = Val (w', pending') ∧ wf w' pending' ∧ queue_step o w w'.
Proof.
  intros Hw Ha. destruct o as [| |t th| | | |t|t|t n|t|]; cbn [exec allowed queue_step fst snd] in *.
  - destruct (wf_schedule w pending Hw) as (w' & r & j & t & -> & Hs & Hw').
    exists w', pending. split; [done|]. eauto.
  - destruct (schedule_blocked w (wf_unlocked _ _ Hw)) as (w1 & -> & E & Eu). cbn [mbind res_bind]. rewrite E. cbn [mbind res_bind].
    rewrite Eu. by exists w, pending.
  - destruct (wf_add w pending t th Hw Ha) as (w' & -> & Hw' & El). exists w', pending. done.
  - destruct Ha as [Hc ->]. destruct (wf_collect w Hw Hc) as (w' & dead & -> & Hw' & _ & _ & [n ->] & _).
    eexists _, dead. split; [done|]. split; [done|]. by exists n.
  - destruct pending as [|t pending]; [by exists w, []|].
    destruct (wf_destroy w t pending Hw Ha) as (w' & th & -> & Hw' & _ & _ & Es & _).
    exists w', pending. split; [done|]. split; [done|]. by rewrite Es.
  - destruct Ha as (c & th & Hc & Hni & Hth & Hs).
    destruct (wf_setState w pending c th Sleeping Hw (wf_current _ _ Hw c Hc) Hth) as [E Hw']; try done.
    exists (update w c (set_state th Sleeping)), pending. split; [|by split].
    unfold sleep. rewrite Hc, E. cbn [mbind res_bind]. unfold update, set_thr. cbn [sch].
    by rewrite (wf_unlocked _ _ Hw).
  - destruct Ha as (Hm & th & Hth & Hs).
    destruct (wf_setState w pending t th Running Hw Hm Hth) as [E Hw']; try done; try congruence.
    { intros ->. destruct (wf_idle _ _ Hw) as (_ & ? & ? & _ & ?). congruence. }
    eexists _, pending. split; [|split; [exact Hw'|done]].
    unfold wake, deref. rewrite Hth. simpl. rewrite bool_decide_false by (intros ?; congruence).
    by rewrite E.
  - destruct Ha as (Hm & Hni & Hnc & th & Hth & Hl).
    destruct (wf_setState w pending t th ToBeDestroyed Hw Hm Hth) as [E Hw']; try done.
    eexists _, pending. split; [|split; [exact Hw'|done]].
    unfold kill. rewrite (bool_decide_true (t ≠ cleanup_thread_ (sch w))) by done. simpl. by rewrite E.
  - destruct Ha as (Hm & Hni). destruct (wf_in_store w pending t Hw Hm) as [th Hth].
    assert (Hw1 : wf (getCurrentTime w).1 pending).
    { apply (wf_keep w); auto; try apply Hw. intros u a _ Hu. exists a. split; [done|apply kept_refl]. }
    unfold sleepUntil. simpl. destruct (n <? rdtsc (reads w)); cbn [mbind res_bind].
    + by eexists _, pending.
    + unfold deref. simpl. rewrite Hth. cbn [mbind res_bind].
      eexists _, pending. split; [done|]. split; [|done].
      apply (wf_update (getCurrentTime w).1 pending t th (set_wakeup th n)); auto. intros _. split; auto.
  - destruct Ha as (Hm & Hni). destruct (wf_in_store w pending t Hw Hm) as [th Hth].
    unfold deref. rewrite Hth. cbn [mbind res_bind]. eexists _, pending. split; [done|]. split; [|done].
    apply (wf_update w pending t th); auto. intros _. split; auto.
  - exists (incTicks w), pending. split; [done|]. split; [by apply wf_tick|].
    apply (incTicks_frame w).
Qed.

(** ** Properties *)

(** C15: Whatever the kernel does in an allowed way - scheduling, also while it is
    locked, adding, putting to sleep, waking, killing, cancelling, collecting and
    deleting threads, in any order - no assertion of the scheduler fails, no deleted
    thread is touched, and its state stays well-formed: every queued thread is
    a live object whose process knows it, none is queued twice, and there is
    always one to run. *)
Theorem scheduler_steps_ok o w pending : wf w pending → allowed o (w, pending) →
  ∃ w' pending', exec o (w, pending) = Val (w', pending') ∧ wf w' pending'.
Proof.
  intros Hw Ha. destruct (step_ok o w pending Hw Ha) as (w' & pending' & ? & ? & _). eauto.
Qed.

(** [schedule] runs the first thread of the queue that is [Running] and
    whose wake-up time, if it has one, has come, and moves it with those it
    passed over to the end of the queue; a thread asked to cancel is not resumed
    in user space but sent to [internalThreadCancel] in the kernel. *)
Theorem schedule_round_robin w pending : wf w pending →
  ∃ w' r j t th, schedule false w = Val (w', r) ∧
    threads_ (sch w) !! j = Some t ∧ (∀ k u, (k < j)%nat → threads_ (sch w) !! k = Some u → ¬ ready w u) ∧
    threads_ (sch w') = drop (j + 1) (threads_ (sch w)) ++ take (j + 1) (threads_ (sch w)) ∧
    currentThread w' = Some t ∧ thr w' !! t = Some th ∧ state_ th = Running ∧ awake w' th ∧
    currentThreadRegisters w' = Some (t, negb (switch_to_userspace_ th =? 0)) ∧
    r = (if switch_to_userspace_ th =? 0 then 0 else 1) ∧
    (∀ a, thr w !! t = Some a → is_user a = true → shouldCancel a = true → switch_to_userspace_ a = 1 →
      switch_to_userspace_ th = 0 ∧ rip_ th = internalThreadCancel ∧ cancelable_ th = false).
Proof.
  intros Hw. destruct (wf_schedule w pending Hw) as (w' & r & j & t & E & Hs & _).
  destruct (scheduled_chosen _ _ _ _ _ Hs) as (w1 & Hch & Ethr & _ & Er).
  destruct (scheduled_registers _ _ _ _ _ Hs) as (th & Hth & Hregs & Hr).
  exists w', r, j, t, th. destruct (chosen_ready _ _ _ _ _ Hch) as (th' & Hth' & Hrun & Haw).
  rewrite <-Ethr, Hth in Hth'. injection Hth' as <-.
  split_and!; auto; try apply Hs; try apply Hch.
  - unfold awake in *. by rewrite Er.
  - intros a Ha Hu Hcan Hsw. destruct (chosen_regs _ _ _ _ _ Hch a Ha) as (b & Hsame & Ec & Es & _ & Hb).
    rewrite <-Ethr, Hth in Hb. injection Hb as ->. unfold dispatched.
    rewrite (same_user _ _ Hsame), Hu, Ec, Hcan, Es, Hsw. done.
Qed.

Lemma rotate_lookup l i j t : l !! i = Some t → (j < i)%nat → rotate l (j + 1) !! (i - (j + 1))%nat = Some t.
Proof.
  intros Hi Hj. unfold rotate. apply lookup_app_l_Some. rewrite lookup_drop.
  by replace (j + 1 + (i - (j + 1)))%nat with i by lia.
Qed.

Lemma sweep_lookup dead t l : dead t = false → ∀ n i, l !! i = Some t →
  ∃ i', (i' ≤ i)%nat ∧ (sweep dead n l).1 !! i' = Some t.
Proof.
  intros Ht. induction l as [|u l IH]; intros n i Hi; [done|].
  destruct n as [|n]; [rewrite sweep_zero; eauto|]. simpl. destruct (dead u) eqn:Eu; simpl.
  - destruct i as [|i]; [simpl in Hi; congruence|]. destruct (IH n i Hi) as (i' & ? & ?). exists i'. split; [lia|done].
  - destruct i as [|i]; [exists 0%nat; by split; [lia|]|].
    destruct (IH (Datatypes.S n) i Hi) as (i' & ? & ?). exists (Datatypes.S i'). split; [lia|done].
Qed.

(** A history: the threads [schedule] has chosen in it. *)
Fixpoint history (s : world * list Z) (os : list op) : res (world * list Z * list Z) :=
  match os with
  | [] => Val (s, [])
  | o :: os =>
      s ← exec o s;
      '(s', chosen) ← history s os;
      Val (s', match o, currentThread s.1 with OpSchedule, Some c => c :: chosen | _, _ => chosen end)
  end.

(** [Q] holds of every state of the history and the step taken there. *)
Fixpoint throughout (Q : op → world * list Z → Prop) (s : world * list Z) (os : list op) : Prop :=
  match os with
  | [] => True
  | o :: os => Q o s ∧ match exec o s with Val s' => throughout Q s' os | Err _ => True end
  end.

Fixpoint schedules (os : list op) : nat :=
  match os with
  | [] => 0
  | OpSchedule :: os => Datatypes.S (schedules os)
  | _ :: os => schedules os
  end.

Lemma throughout_impl (Q R : op → world * list Z → Prop) os : (∀ o s, Q o s → R o s) →
  ∀ s, throughout Q s os → throughout R s os.
Proof.
  intros HQR. induction os as [|o os IH]; intros s; [done|]. intros [? Hn]. split; [auto|].
  destruct (exec o s); auto.
Qed.

Lemma history_ok os : ∀ w pending, wf w pending → throughout allowed (w, pending) os →
  ∃ s' chosen, history (w, pending) os = Val (s', chosen) ∧ wf s'.1 s'.2.
Proof.
  induction os as [|o os IH]; intros w pending Hw Hthr; [by exists (w, pending), []|].
  cbn [throughout history] in *. destruct Hthr as [Ha Hthr].
  destruct (step_ok o w pending Hw Ha) as (w' & pending' & E & Hw' & _). rewrite E in *. cbn [mbind res_bind].
  destruct (IH w' pending' Hw' Hthr) as (s' & chosen & -> & Hs). cbn [mbind res_bind]. eauto.
Qed.

(** One step brings a ready thread nearer to the front, or runs it. *)
Lemma step_nearer o w w' pending t i : queue_step o w w' → ready w t → threads_ (sch w) !! i = Some t →
  wf w pending →
  (o = OpSchedule ∧ currentThread w' = Some t) ∨
  ∃ i', threads_ (sch w') !! i' = Some t ∧ (i' ≤ i)%nat ∧ (o = OpSchedule → (i' < i)%nat).
Proof.
  intros Hq Hr Hi Hw. destruct o; cbn [queue_step] in Hq;
    try (right; exists i; rewrite Hq; split_and!; [done|lia|done]).
  - destruct Hq as (r & j & u & Hs).
    destruct (scheduled_chosen _ _ _ _ _ Hs) as (w1 & Hch & _).
    destruct (lt_eq_lt_dec i j) as [[Hlt| ->]|Hlt].
    + exfalso. eapply chosen_first; eauto.
    + left. split; [done|]. rewrite (scheduled_current _ _ _ _ _ Hs), <-Hi. symmetry. apply Hch.
    + right. exists (i - (j + 1))%nat. rewrite (scheduled_threads _ _ _ _ _ Hs).
      split_and!; [by apply rotate_lookup|lia|lia].
  - right. exists i. rewrite Hq. split_and!; [by apply lookup_app_l_Some|lia|done].
  - right. destruct Hq as [n ->].
    assert (Hd : is_dead w t = false).
    { destruct (is_dead w t) eqn:E; [|done]. apply is_dead_spec in E as (th & ? & ?).
      destruct Hr as (th' & ? & ? & _). congruence. }
    destruct (sweep_lookup (is_dead w) t _ Hd n i Hi) as (i' & ? & ?). exists i'. split_and!; auto; done.
Qed.

(** C7: A thread that stays ready waits for at most as many calls of
    [schedule] as there are threads before it in the queue, whatever else the
    kernel does in between; calls refused because scheduling is locked do not
    count. *)
Theorem bounded_waiting os t : ∀ w pending i, wf w pending →
  throughout (λ o s, allowed o s ∧ ready s.1 t) (w, pending) os →
  threads_ (sch w) !! i = Some t → (i < schedules os)%nat →
  ∃ s' chosen, history (w, pending) os = Val (s', chosen) ∧ t ∈ take (i + 1) chosen.
Proof.
  induction os as [|o os IH]; intros w pending i Hw Hthr Hi Hlt; [simpl in Hlt; lia|].
  cbn [throughout history] in *. destruct Hthr as [[Ha Hr] Hthr]. simpl in Hr.
  destruct (step_ok o w pending Hw Ha) as (w' & pending' & E & Hw' & Hq). rewrite E in *. cbn [mbind res_bind].
  assert (Hall : throughout allowed (w', pending') os) by (eapply throughout_impl; [|exact Hthr]; naive_solver).
  destruct (history_ok os w' pending' Hw' Hall) as (s' & chosen & Eh & _).
  exists s'. rewrite Eh. cbn [mbind res_bind fst].
  destruct (step_nearer o w w' pending t i Hq Hr Hi Hw) as [[-> Hc]|(i' & Hi' & Hle & Hs)].
  - rewrite Hc. eexists. split; [done|]. rewrite Nat.add_1_r. left.
  - assert (Hrest : (i' < schedules os)%nat → t ∈ take (i' + 1) chosen).
    { intros Hl. destruct (IH w' pending' i' Hw' Hthr Hi' Hl) as (s2 & ch2 & E2 & Hin). congruence. }
    assert (Hother : o ≠ OpSchedule → t ∈ take (i + 1) chosen).
    { intros Hne. assert (Hl : (i' < schedules os)%nat) by (destruct o; simpl in Hlt; done || lia).
      apply Hrest in Hl. apply elem_of_take in Hl as (k & Hk & ?). apply elem_of_take. exists k. split; [done|lia]. }
    destruct o; try (eexists; split; [done|]; by apply Hother).
    specialize (Hs eq_refl). simpl in Hlt. specialize (Hrest ltac:(lia)).
    eexists. split; [done|]. apply elem_of_take in Hrest as (k & Hk & ?).
    destruct (currentThread w'); apply elem_of_take; [exists (Datatypes.S k)|exists k]; (split; [done|lia]).
Qed.

(** [t] is a user thread of the process at [q] with the id [x]. *)
Definition thread_of (w : world) (q x t : Z) : Prop :=
  ∃ th, thr w !! t = Some th ∧ is_user th = true ∧ parent_proc_ th = q ∧ tid_ th = x.

Lemma destroy_all_ok pending : ∀ w, wf w pending → currentThread w = Some (cleanup_thread_ (sch w)) →
  ∃ w', destroy_all w pending = Val w' ∧ wf w' [] ∧ sch w' = sch w ∧
    (∀ t, thr w' !! t = if bool_decide (t ∈ pending) then None else thr w !! t) ∧
    (∀ q x, x ∈ ids_of w' q ↔ x ∈ ids_of w q ∧ ∀ t, t ∈ pending → ¬ thread_of w q x t).
Proof.
  induction pending as [|t pending IH]; intros w Hw Hc.
  - exists w. split_and!; auto. intros q x. set_solver.
  - destruct (wf_destroy w t pending Hw Hc) as (w1 & th & E & Hw1 & Hth & E1 & E2 & E3 & Hp).
    destruct (IH w1 Hw1 ltac:(congruence)) as (w' & E' & Hw' & Es & Et & Hq).
    exists w'. cbn [destroy_all]. rewrite E. cbn [mbind res_bind]. split_and!; [done|done|congruence| |].
    + intros u. rewrite Et, E1. destruct (decide (u = t)) as [->|Hne].
      * rewrite lookup_delete_eq, (bool_decide_true (t ∈ t :: pending)) by left. by case_bool_decide.
      * rewrite lookup_delete_ne by done.
        rewrite (bool_decide_ext (u ∈ t :: pending) (u ∈ pending)); [done|]. rewrite elem_of_cons. tauto.
    + assert (Hnt : t ∉ pending).
      { pose proof (wf_nodup _ _ Hw) as Hnd. apply NoDup_app in Hnd as (_ & _ & Hnd). by inversion Hnd. }
      assert (Hoth : ∀ q x u, u ∈ pending → thread_of w1 q x u ↔ thread_of w q x u).
      { intros q x u Hu. unfold thread_of. rewrite E1, lookup_delete_ne; [done|]. by intros ->. }
      assert (Hhead : ∀ q x, thread_of w q x t ↔ is_user th = true ∧ q = parent_proc_ th ∧ x = tid_ th).
      { intros q x. unfold thread_of. rewrite Hth. naive_solver. }
      assert (H1 : ∀ q x, x ∈ ids_of w1 q ↔ x ∈ ids_of w q ∧ ¬ thread_of w q x t).
      { intros q x. rewrite Hp, Hhead. destruct (is_user th); [|naive_solver].
        simpl. destruct (q =? parent_proc_ th) eqn:Eb; bool_to_prop; set_solver. }
      intros q x. rewrite Hq, H1. clear -Hoth. split.
      * intros [[Hx Ht] Hu]. split; [done|]. intros u [->|Hin]%elem_of_cons; [done|].
        rewrite <-Hoth by done. auto.
      * intros [Hx Hu]. split; [split; [done|]|]; [apply Hu; left|].
        intros u Hin. rewrite Hoth by done. apply Hu. by right.
Qed.

(** [cleanupDeadThreads] deletes the threads that are [ToBeDestroyed] and
    no other, also when they stand next to each other in the queue, keeps the
    order of the rest, and takes exactly their ids from their processes.  (Up
    to 1024 of them; the rest is left to the next call.) *)
Theorem cleanup_deletes_dead w : wf w [] → currentThread w = Some (cleanup_thread_ (sch w)) →
  (length (filter (λ t, is_dead w t = true) (threads_ (sch w))) ≤ 1024)%nat →
  ∃ w', cleanupDeadThreads w = Val w' ∧ wf w' [] ∧
    threads_ (sch w') = filter (λ t, is_dead w t = false) (threads_ (sch w)) ∧
    (∀ t, thr w' !! t = if bool_decide (t ∈ threads_ (sch w)) && is_dead w t then None else thr w !! t) ∧
    (∀ q x, x ∈ ids_of w' q ↔ x ∈ ids_of w q ∧
       ∀ t, t ∈ threads_ (sch w) → is_dead w t = true → ¬ thread_of w q x t).
Proof.
  intros Hw Hc Hn. destruct (wf_collect w Hw Hc) as (w1 & dead & E & Hw1 & Hperm & Hd & [n Hs] & Hl).
  assert (Hdead : ∀ t, t ∈ dead ↔ t ∈ threads_ (sch w) ∧ is_dead w t = true).
  { intros t. rewrite Hd, take_ge by done. rewrite list_elem_of_filter. tauto. }
  assert (Hsame : thr w1 = thr w ∧ procs w1 = procs w ∧ currentThread w1 = currentThread w ∧
    cleanup_thread_ (sch w1) = cleanup_thread_ (sch w)) by (by subst w1).
  destruct Hsame as (E1 & E2 & E3 & E4).
  destruct (destroy_all_ok dead w1 Hw1 ltac:(congruence)) as (w' & E' & Hw' & Es & Et & Hq).
  exists w'. split_and!; [|done| | |].
  - unfold cleanupDeadThreads. rewrite E. exact E'.
  - rewrite Es. by apply Hl.
  - intros t. rewrite Et, E1.
    assert (Eb : bool_decide (t ∈ dead) = bool_decide (t ∈ threads_ (sch w)) && is_dead w t).
    { apply eq_true_iff_eq. rewrite andb_true_iff, !bool_decide_eq_true. apply Hdead. }
    by rewrite Eb.
  - intros q x. rewrite Hq. unfold ids_of, thread_of. rewrite E1, E2. setoid_rewrite Hdead.
    clear. naive_solver.
Qed.

(** *** Calibration *)

(** The [n]-th tick of a calibration, with the counter read as [rdtsc]. *)
Lemma incTicks_calibrating w n : (n < 51)%nat → calibr_ticks_ (sch w) = Z.of_nat n → calibrated_ (sch w) = false →
  ticks_ (sch w) mod 300 ≠ 0 → 0 <= ticks_ (sch w) < 2 ^ 64 - 1 →
  let s' := sch (incTicks w) in
  let now := rdtsc (reads w) in
  let clocks := u64 (clocks_per_interrupt_ (sch w) +
                     (if prev_time_ (sch w) =? 0 then 0 else u64 (now - prev_time_ (sch w)))) in
  reads (incTicks w) = Datatypes.S (reads w) ∧ ticks_ s' = ticks_ (sch w) + 1 ∧ prev_time_ s' = now ∧
  old_clocks_per_interrupt_ s' = old_clocks_per_interrupt_ (sch w) ∧
  calibr_ticks_ s' = Z.of_nat n + 1 ∧ calibrated_ s' = bool_decide (n = 50)%nat ∧
  clocks_per_interrupt_ s' = if bool_decide (n = 50)%nat then clocks / 50 else clocks.
Proof.
  intros Hn Hc Hd Ht Hr. unfold incTicks, CALIBRATION_FREQUENCY, CALIBRATION_INTERRUPTS.
  rewrite (proj2 (Z.eqb_neq _ _) Ht). simpl.
  rewrite Hd, Hc, (proj2 (Z.ltb_lt _ _)) by lia. simpl. rewrite ?Hd. simpl.
  rewrite (wrap_small 64 (Z.of_nat n + 1)) by lia. rewrite andb_true_r.
  replace (Z.of_nat n + 1 =? 51) with (bool_decide (n = 50)%nat)
    by (apply eq_true_iff_eq; rewrite bool_decide_eq_true, Z.eqb_eq; lia).
  destruct (bool_decide (n = 50)%nat); simpl; (split_and!; [done|apply wrap_small; lia|done..]).
Qed.

Lemma incTicks_first w : ticks_ (sch w) mod 300 = 0 → 0 <= ticks_ (sch w) < 2 ^ 64 - 1 →
  let s' := sch (incTicks w) in
  reads (incTicks w) = Datatypes.S (reads w) ∧ ticks_ s' = ticks_ (sch w) + 1 ∧
  prev_time_ s' = rdtsc (reads w) ∧ old_clocks_per_interrupt_ s' = clocks_per_interrupt_ (sch w) ∧
  calibr_ticks_ s' = 1 ∧ calibrated_ s' = false ∧ clocks_per_interrupt_ s' = 0.
Proof.
  intros Ht Hr. unfold incTicks, CALIBRATION_FREQUENCY, CALIBRATION_INTERRUPTS.
  rewrite (proj2 (Z.eqb_eq _ _) Ht). simpl. split_and!; try done. apply wrap_small. lia.
Qed.

(** [v] is the state [n + 1] ticks after [w], where a calibration started. *)
Record calibrating (w : world) (n : nat) (v : world) : Prop := {
  cal_reads : reads v = (reads w + n + 1)%nat;
  cal_ticks : ticks_ (sch v) = ticks_ (sch w) + Z.of_nat n + 1;
  cal_prev : prev_time_ (sch v) = rdtsc (reads w + n);
  cal_old : old_clocks_per_interrupt_ (sch v) = clocks_per_interrupt_ (sch w);
  cal_count : calibr_ticks_ (sch v) = Z.of_nat n + 1;
  cal_done : calibrated_ (sch v) = bool_decide (n = 50)%nat;
  cal_clocks : clocks_per_interrupt_ (sch v) =
    let span := rdtsc (reads w + n) - rdtsc (reads w) in if bool_decide (n = 50)%nat then span / 50 else span;
}.

Lemma calibrating_start w : ticks_ (sch w) mod 300 = 0 → 0 <= ticks_ (sch w) < 2 ^ 64 - 51 →
  calibrating w 0 (incTicks w).
Proof.
  intros Ht Hr. destruct (incTicks_first w Ht ltac:(lia)) as (E1 & E2 & E3 & E4 & E5 & E6 & E7).
  split; rewrite ?Nat.add_0_r; try done; [lia|lia|]. rewrite E7. simpl. lia.
Qed.

Lemma calibrating_step w n v : (n < 50)%nat → ticks_ (sch w) mod 300 = 0 →
  0 <= ticks_ (sch w) < 2 ^ 64 - 51 → (∀ i, 0 < rdtsc i < 2 ^ 64) →
  calibrating w n v → calibrating w (Datatypes.S n) (incTicks v).
Proof.
  intros Hn Ht Hr Hpos [E1 E2 E3 E4 E5 E6 E7]. cbv zeta in E7.
  rewrite (bool_decide_false (n = 50)%nat) in E6, E7 by lia.
  assert (Hm : ticks_ (sch v) mod 300 ≠ 0).
  { rewrite E2, <-Z.add_assoc, Z.add_mod, Ht, Z.add_0_l, Z.mod_mod by lia. rewrite Z.mod_small by lia. lia. }
  destruct (incTicks_calibrating v (Datatypes.S n) ltac:(lia) ltac:(lia) E6 Hm ltac:(lia))
    as (F1 & F2 & F3 & F4 & F5 & F6 & F7).
  assert (Er : (reads w + Datatypes.S n)%nat = reads v) by lia.
  pose proof (rdtsc_mono (reads w) (reads w + n) ltac:(lia)).
  pose proof (rdtsc_mono (reads w + n) (reads v) ltac:(lia)).
  pose proof (Hpos (reads v)). pose proof (Hpos (reads w)). pose proof (Hpos (reads w + n)%nat).
  rewrite E3, E7, (proj2 (Z.eqb_neq _ 0)) in F7 by lia.
  rewrite (wrap_small 64 (rdtsc (reads v) - _)) in F7 by lia. rewrite wrap_small in F7 by lia.
  replace (rdtsc (reads w + n) - rdtsc (reads w) + (rdtsc (reads v) - rdtsc (reads w + n)))
    with (rdtsc (reads v) - rdtsc (reads w)) in F7 by lia.
  split; rewrite ?Er; first [exact F6|exact F7|exact F3|congruence|lia].
Qed.

Lemma calibrating_iter w n : (n < 51)%nat → ticks_ (sch w) mod 300 = 0 →
  0 <= ticks_ (sch w) < 2 ^ 64 - 51 → (∀ i, 0 < rdtsc i < 2 ^ 64) →
  calibrating w n (Nat.iter (Datatypes.S n) incTicks w).
Proof.
  intros Hn Ht Hr Hpos. induction n as [|n IH]; rewrite Nat.iter_succ.
  - by apply calibrating_start.
  - apply calibrating_step; [lia|done..|]. apply IH. lia.
Qed.

(** 51 timer interrupts from a multiple of 300 on measure the average number of
    clocks of the 50 intervals between them; while a later calibration runs, the
    previous average is used. *)
Lemma calibration_average w v : calibrating w 50 v →
  getCurrentAVGClocksPerInterrupt (sch v) = Val ((rdtsc (reads w + 50) - rdtsc (reads w)) / 50).
Proof.
  intros Hc. unfold getCurrentAVGClocksPerInterrupt. by rewrite (cal_done _ _ _ Hc), (cal_clocks _ _ _ Hc).
Qed.

Lemma calibration_keeps_average w n v : (n < 50)%nat → calibrating w n v → clocks_per_interrupt_ (sch w) ≠ 0 →
  getCurrentAVGClocksPerInterrupt (sch v) = Val (clocks_per_interrupt_ (sch w)).
Proof.
  intros Hn Hc Hne. unfold getCurrentAVGClocksPerInterrupt.
  rewrite (cal_done _ _ _ Hc), (cal_old _ _ _ Hc), bool_decide_false by lia.
  by rewrite (proj2 (Z.eqb_neq _ _) Hne).
Qed.

(** Within the first two interrupts after start-up the average is 0 or not
    defined, so that [clock] divides by zero. *)
Lemma clock_before_calibration w this th p : current_user w = Val (this, th) →
  procs w !! parent_proc_ th = Some p →
  calibrated_ (sch w) = false → old_clocks_per_interrupt_ (sch w) = 0 →
  clocks_per_interrupt_ (sch w) = 0 → sys_clock w = Err EUndef.
Proof.
  intros Hc Hp E1 E2 E3. unfold sys_clock. rewrite Hc. simpl. rewrite Hp.
  unfold getCurrentAVGClocksPerInterrupt. simpl. rewrite E1, E2, E3. simpl.
  by destruct (ticks_ (sch w)).
Qed.

(** [sleep] lets the thread wait for its seconds, unless the product overflows. *)
Lemma sys_sleep_sets w this th seconds avg : current_user w = Val (this, th) →
  thr w !! this = Some th →
  getCurrentAVGClocksPerInterrupt (sch w) = Val avg → 0 <= seconds → 0 <= avg →
  182065 * seconds * avg / 10000 + rdtsc (reads w) < 2 ^ 64 → 182065 * seconds * avg < 2 ^ 64 →
  182065 * seconds < 2 ^ 64 → 0 <= rdtsc (reads w) →
  rdtsc (Datatypes.S (reads w)) <= 182065 * seconds * avg / 10000 + rdtsc (reads w) →
  ∃ w', sys_sleep w seconds = Val (w', true) ∧
    thr w' !! this = Some (set_wakeup th (182065 * seconds * avg / 10000 + rdtsc (reads w))).
Proof.
  intros Hc Hth Havg Hs Ha H1 H2 H3 H4 H5. unfold sys_sleep, sleepUntil. rewrite Hc. simpl. rewrite Havg. simpl.
  rewrite (wrap_small 64 (182065 * seconds)) by lia.
  rewrite (wrap_small 64 (182065 * seconds * avg)) by (split; [apply Z.mul_nonneg_nonneg; lia|lia]).
  rewrite wrap_small.
  2:{ split; [|done]. pose proof (Z.div_pos (182065 * seconds * avg) 10000). nia. }
  rewrite (proj2 (Z.ltb_ge _ _) H5). unfold deref. simpl. rewrite Hth. simpl.
  eexists. split; [done|]. simpl. by rewrite lookup_insert_eq.
Qed.

(** *** The start *)

Definition kernel_thread : Thread := mkThread 0 KERNEL_THREAD Running 0 0 [] 0 false true 0.

Lemma wf_new w s0 idle cleanup m : idle ≠ cleanup → m !! idle = Some kernel_thread →
  m !! cleanup = Some kernel_thread →
  ∃ w', new (mkWorld s0 m (procs w) None None 0) idle cleanup = Val w' ∧ wf w' [] ∧
        thr w' = m ∧ procs w' = procs w ∧ threads_ (sch w') = [cleanup; idle] ∧ currentThread w' = None.
Proof.
  intros Hne Hi Hc. eexists. split; [reflexivity|]. split; [|done].
  assert (Hin : ∀ t, t ∈ [cleanup; idle] ++ [] → m !! t = Some kernel_thread).
  { intros t. rewrite app_nil_r, !elem_of_cons, elem_of_nil. intros [->|[->|[]]]; done. }
  split; simpl; try done.
  - repeat constructor; set_solver.
  - intros t Ht. exists kernel_thread. split; [by apply Hin|done].
  - intros t u a b Ht _ Ha _ Ua. rewrite (Hin t Ht) in Ha. injection Ha as <-. done.
  - intros t th Ht Hth. rewrite (Hin t Ht) in Hth. injection Hth as <-. split; [set_solver|done].
  - split; [set_solver|eauto].
  - split; [set_solver|done].
Qed.

(** A test for [throughout] on histories of calls and ticks. *)
Definition readyb (w : world) (t : Z) : bool :=
  match thr w !! t with
  | Some th => bool_decide (state_ th = Running) && (negb (is_user th) || (time_to_wakeup_ th =? 0))
  | None => false
  end.

Fixpoint ready_check (t : Z) (s : world * list Z) (os : list op) : bool :=
  match os with
  | [] => true
  | o :: os =>
      match o with OpSchedule | OpTick => true | _ => false end && readyb s.1 t &&
      match exec o s with Val s' => ready_check t s' os | Err _ => true end
  end.

Lemma ready_check_ok t os : ∀ s, ready_check t s os = true →
  throughout (λ o s, allowed o s ∧ ready s.1 t) s os.
Proof.
  induction os as [|o os IH]; intros [w pending]; [done|]. cbn [ready_check throughout].
  intros Hc. apply andb_true_iff in Hc as [Hc Hn]. apply andb_true_iff in Hc as [Ho Hr]. split.
  - split; [by destruct o|]. unfold readyb in Hr. simpl in *. destruct (thr w !! t) as [th|] eqn:E; [|done].
    bool_to_prop. exists th. split_and!; auto. unfold awake.
    match goal with H : (_ || _)%bool = true |- _ => apply orb_true_iff in H as [Hx|Hx] end; bool_to_prop; auto.
  - destruct (exec o (w, pending)); auto.
Qed.

(** A test for adding a thread of a process that knows it. *)
Definition addable (w : world) (pending : list Z) (t : Z) (th : Thread) : bool :=
  bool_decide (t ∉ dom (thr w)) && bool_decide (state_ th = Running) &&
  match procs w !! parent_proc_ th with Some p => bool_decide (tid_ th ∈ thread_ids p) | None => false end &&
  (Z.of_nat (length (threads_ (sch w))) + 1 <? 2 ^ 32) &&
  forallb (λ u, match thr w !! u with
                | Some b => negb ((parent_proc_ b =? parent_proc_ th) && (tid_ b =? tid_ th)) || negb (is_user b)
                | None => true
                end) (threads_ (sch w) ++ pending).

Lemma addable_ok w pending t th : addable w pending t th = true → allowed (OpAdd t th) (w, pending).
Proof.
  unfold addable. intros Hc. apply andb_true_iff in Hc as [Hc Hall].
  destruct (procs w !! parent_proc_ th) as [p|] eqn:Ep; [|by rewrite andb_false_r in Hc]. bool_to_prop.
  cbn [allowed fst snd]. split_and!; [by apply not_elem_of_dom|by intros _; exists p|done|done|].
  intros u b Hu Hb Hub _ E1 E2. rewrite forallb_forall in Hall.
  specialize (Hall u (proj1 (list_elem_of_In _ _) Hu)). rewrite Hb, Hub, E1, E2, !Z.eqb_refl in Hall. done.
Qed.
End scheduler.

(** ** The process behind the interface *)

#[export] Instance UserProcess_laws : ProcessLaws (Threads.UserProcess * Z).
Proof.
  split; [|done]. intros [p acc] tid Hin. simpl in *. apply elem_of_dom in Hin as [t Ht].
  unfold Threads.onThreadDestroyed, Threads.isThreadTidInThreadList.
  rewrite bool_decide_false by (intros E; rewrite E, lookup_empty in Ht; done).
  rewrite (bool_decide_true (is_Some _)) by (by exists t). simpl. eexists _, _. split; [done|]. simpl.
  rewrite dom_delete_L. split; [done|]. intros Hb. apply bool_decide_eq_true in Hb.
  by rewrite <-dom_delete_L, Hb, dom_empty_L.
Qed.

(** ** An example: two processes, one thread each *)

Definition ex_clock (i : nat) : Z := 1000 * Z.of_nat i + 1.
Definition ex_process : Threads.UserProcess * Z :=
  (Threads.mkProc 1 {[0 := Threads.mkThread Threads.Running false false true 0 0]} ∅ ∅ ∅ false, 0).
Definition ex_user (parent : Z) : Thread := mkThread 0 USER_THREAD Running 1 0 [] parent false true 0.
Definition ex_start : world (P := Threads.UserProcess * Z) :=
  match new (mkWorld (mkSched [] 0 0 0 0 0 0 0 0 0 0 false) {[1 := kernel_thread; 2 := kernel_thread]}
               {[100 := ex_process; 200 := ex_process]} None None 0) 1 2 with
  | Val w => w
  | Err _ => mkWorld (mkSched [] 0 0 0 0 0 0 0 0 0 0 false) ∅ ∅ None None 0
  end.
Definition ex_next (s : world (P := Threads.UserProcess * Z) * list Z) (o : op) :=
  match exec ex_clock 7 o s with Val s => s | Err _ => s end.
Definition ex_two := ex_next (ex_next (ex_start, []) (OpAdd 10 (ex_user 100))) (OpAdd 20 (ex_user 200)).

Lemma ex_mono i j : (i ≤ j)%nat → ex_clock i <= ex_clock j.
Proof. unfold ex_clock. lia. Qed.

Lemma ex_start_wf : wf ex_start [].
Proof.
  destruct (wf_new ex_clock ex_mono ex_start (mkSched [] 0 0 0 0 0 0 0 0 0 0 false) 1 2
    {[1 := kernel_thread; 2 := kernel_thread]}) as (w' & E & Hw & _); [done..|].
  change (Val ex_start = Val w') in E. by injection E as ->.
Qed.

Lemma ex_next_wf s o : wf s.1 s.2 → allowed o (s.1, s.2) → wf (ex_next s o).1 (ex_next s o).2.
Proof.
  destruct s as [w pending]. intros Hw Ha. unfold ex_next.
  destruct (step_ok ex_clock 7 ex_mono o w pending Hw Ha) as (w1 & p1 & E1 & Hw1 & _). by rewrite E1.
Qed.

Lemma ex_two_wf : wf ex_two.1 ex_two.2.
Proof.
  unfold ex_two. apply ex_next_wf; [apply ex_next_wf; [apply ex_start_wf|]|];
    apply addable_ok; vm_compute; reflexivity.
Qed.

(** Both user threads dead, the cleanup thread running. *)
Definition ex_dead1 := ex_next ex_two (OpKill 10).
Definition ex_dead2 := ex_next ex_dead1 (OpKill 20).
Definition ex_dead := ex_next ex_dead2 OpSchedule.

Lemma ex_kill_10 : allowed (OpKill 10) (ex_two.1, ex_two.2).
Proof. vm_compute. split; [|split; [done|split; [done|eexists; split; reflexivity]]]. right. right. left. Qed.

Lemma ex_kill_20 : allowed (OpKill 20) (ex_dead1.1, ex_dead1.2).
Proof. vm_compute. split; [|split; [done|split; [done|eexists; split; reflexivity]]]. right. right. right. left. Qed.

Lemma ex_dead_none : ex_dead.2 = [].
Proof. vm_compute. reflexivity. Qed.

Lemma ex_dead_wf : wf ex_dead.1 [].
Proof.
  rewrite <-ex_dead_none. apply (ex_next_wf ex_dead2 OpSchedule); [|exact I].
  apply (ex_next_wf ex_dead1 (OpKill 20)); [|exact ex_kill_20].
  apply (ex_next_wf ex_two (OpKill 10)); [exact ex_two_wf|exact ex_kill_10].
Qed.

(** The witnesses' histories. *)
Definition ex_ops : list op := [OpSchedule; OpTick; OpSchedule; OpSchedule; OpTick].

Lemma scheduler_steps_ok_witness :
  ∃ w' pending', exec ex_clock 7 (OpKill 10) (ex_two.1, ex_two.2) = Val (w', pending') ∧ wf w' pending'.
Proof.
  apply (scheduler_steps_ok ex_clock 7 ex_mono (OpKill 10) ex_two.1 ex_two.2 ex_two_wf), ex_kill_10.
Defined.

Lemma schedule_round_robin_witness : ∃ w' r j t, schedule ex_clock 7 false ex_two.1 = Val (w', r) ∧
  threads_ (sch ex_two.1) !! j = Some t.
Proof.
  destruct (schedule_round_robin ex_clock 7 ex_mono ex_two.1 ex_two.2 ex_two_wf)
    as (w' & r & j & t & th & H1 & H2 & _).
  exists w', r, j, t. split; assumption.
Defined.

Lemma bounded_waiting_witness : ∃ s' chosen, history ex_clock 7 (ex_two.1, ex_two.2) ex_ops = Val (s', chosen) ∧ 10 ∈ take 3 chosen.
Proof.
  apply (bounded_waiting ex_clock 7 ex_mono ex_ops 10 ex_two.1 ex_two.2 2 ex_two_wf).
  - apply ready_check_ok. vm_compute. reflexivity.
  - vm_compute. reflexivity.
  - vm_compute. lia.
Defined.

Lemma cleanup_deletes_dead_witness : ∃ w', cleanupDeadThreads ex_dead.1 = Val w' ∧
  threads_ (sch w') = [1; 2] ∧ thr w' !! 10 = None ∧ thr w' !! 20 = None.
Proof.
  destruct (cleanup_deletes_dead ex_clock ex_mono ex_dead.1 ex_dead_wf) as (w' & E & _ & Hl & Ht & _).
  - vm_compute. reflexivity.
  - vm_compute. lia.
  - exists w'. split; [exact E|]. split; [rewrite Hl; vm_compute; reflexivity|].
    split; rewrite Ht; vm_compute; reflexivity.
Defined.
End Sched.
