(* ===== verification/Locks.v ===== *)
(** * Locks: mutexes, their waiters and the deadlock check

    Models [common/source/kernel/Lock.cpp] and [Mutex.cpp].  The objects
    [Thread] and [Lock] are linked to each other by intrusive lists, so the
    store keeps one map per field, from the object's address ([0] is the null
    pointer).  [acquire], [acquireNonBlocking] and [release] are modelled for
    threads that are interrupted between any two accesses that compete with those
    of other threads: the step of a thread is the function [step], its position in
    the code a [pc].  The walk of the deadlock check reads the lists of other
    threads while these run, so it is given the fields it reads as a store of its
    own, [seen], which in a step is any store at all: what holds for every step
    holds however the walk was disturbed.  One step may contain several accesses
    where no other thread reads or writes in between but in such a walk: the entry
    of [release] takes the mutex off the thread's own list and clears [held_by_],
    which others only compare with themselves until [mutex_] is cleared; the end
    of [acquire] sets both again; and the lists of waiters change under their
    lock.  The code addresses, names and messages kept for debugging are left
    out, and so is the time before [system_state] is [RUNNING], when locks do
    nothing. *)

From stdpp Require Import relations functions.
From S2P Require Import Prelude Threads.

Module Locks.

Abbreviation ThreadState := Threads.ThreadState.
Abbreviation Running := Threads.Running.
Abbreviation Sleeping := Threads.Sleeping.
#[local] Existing Instance Threads.ThreadState_eq_dec.

(** ** The store *)

Record store := mkStore {
  (* Thread *)
  next_thread_in_lock_waiters_list_ : gmap Z Z;
  lock_waiting_on_ : gmap Z Z;
  holding_lock_list_ : gmap Z Z;
  state_ : gmap Z ThreadState;
  (* Lock *)
  held_by_ : gmap Z Z;
  next_lock_on_holding_list_ : gmap Z Z;
  waiters_list_ : gmap Z Z;
  waiters_list_lock_ : gmap Z Z;
  (* Mutex *)
  mutex_ : gmap Z Z;
}.

Definition rd {A} (m : gmap Z A) (x : Z) : res A :=
  match m !! x with Some a => Val a | None => Err EUndef end.

Definition set_next_thread (s : store) (x v : Z) : store :=
  mkStore (<[x := v]> (next_thread_in_lock_waiters_list_ s)) (lock_waiting_on_ s) (holding_lock_list_ s)
    (state_ s) (held_by_ s) (next_lock_on_holding_list_ s) (waiters_list_ s) (waiters_list_lock_ s) (mutex_ s).
Definition set_waiting_on (s : store) (x v : Z) : store :=
  mkStore (next_thread_in_lock_waiters_list_ s) (<[x := v]> (lock_waiting_on_ s)) (holding_lock_list_ s)
    (state_ s) (held_by_ s) (next_lock_on_holding_list_ s) (waiters_list_ s) (waiters_list_lock_ s) (mutex_ s).
Definition set_holding (s : store) (x v : Z) : store :=
  mkStore (next_thread_in_lock_waiters_list_ s) (lock_waiting_on_ s) (<[x := v]> (holding_lock_list_ s))
    (state_ s) (held_by_ s) (next_lock_on_holding_list_ s) (waiters_list_ s) (waiters_list_lock_ s) (mutex_ s).
Definition set_state (s : store) (x : Z) (v : ThreadState) : store :=
  mkStore (next_thread_in_lock_waiters_list_ s) (lock_waiting_on_ s) (holding_lock_list_ s)
    (<[x := v]> (state_ s)) (held_by_ s) (next_lock_on_holding_list_ s) (waiters_list_ s) (waiters_list_lock_ s) (mutex_ s).
Definition set_held_by (s : store) (x v : Z) : store :=
  mkStore (next_thread_in_lock_waiters_list_ s) (lock_waiting_on_ s) (holding_lock_list_ s)
    (state_ s) (<[x := v]> (held_by_ s)) (next_lock_on_holding_list_ s) (waiters_list_ s) (waiters_list_lock_ s) (mutex_ s).
Definition set_next_lock (s : store) (x v : Z) : store :=
  mkStore (next_thread_in_lock_waiters_list_ s) (lock_waiting_on_ s) (holding_lock_list_ s)
    (state_ s) (held_by_ s) (<[x := v]> (next_lock_on_holding_list_ s)) (waiters_list_ s) (waiters_list_lock_ s) (mutex_ s).
Definition set_waiters (s : store) (x v : Z) : store :=
  mkStore (next_thread_in_lock_waiters_list_ s) (lock_waiting_on_ s) (holding_lock_list_ s)
    (state_ s) (held_by_ s) (next_lock_on_holding_list_ s) (<[x := v]> (waiters_list_ s)) (waiters_list_lock_ s) (mutex_ s).
Definition set_list_lock (s : store) (x v : Z) : store :=
  mkStore (next_thread_in_lock_waiters_list_ s) (lock_waiting_on_ s) (holding_lock_list_ s)
    (state_ s) (held_by_ s) (next_lock_on_holding_list_ s) (waiters_list_ s) (<[x := v]> (waiters_list_lock_ s)) (mutex_ s).
Definition set_mutex (s : store) (x v : Z) : store :=
  mkStore (next_thread_in_lock_waiters_list_ s) (lock_waiting_on_ s) (holding_lock_list_ s)
    (state_ s) (held_by_ s) (next_lock_on_holding_list_ s) (waiters_list_ s) (waiters_list_lock_ s) (<[x := v]> (mutex_ s)).

(** ** The list of the locks a thread holds *)

Definition pushFrontToCurrentThreadHoldingList (s : store) (currentThread this : Z) : res store :=
  if currentThread =? 0 then Val s
  else
    head ← rd (holding_lock_list_ s) currentThread;
    Val (set_holding (set_next_lock s this head) currentThread this).

(** The search for the lock in front of [this]. *)
Fixpoint unlink_loop (fuel : nat) (s : store) (current this : Z) : res store :=
  match fuel with
  | O => Err EFuel
  | Datatypes.S fuel =>
      if current =? 0 then Val s
      else
        next ← rd (next_lock_on_holding_list_ s) current;
        if next =? this then
          after ← rd (next_lock_on_holding_list_ s) this;
          Val (set_next_lock s current after)
        else unlink_loop fuel s next this
  end.

Definition removeFromCurrentThreadHoldingList (s : store) (currentThread this : Z) : res store :=
  if currentThread =? 0 then Val s
  else
    head ← rd (holding_lock_list_ s) currentThread;
    s ← (if head =? this then
           after ← rd (next_lock_on_holding_list_ s) this;
           Val (set_holding s currentThread after)
         else unlink_loop (Datatypes.S (size (next_lock_on_holding_list_ s))) s head this);
    Val (set_next_lock s this 0).

(** ** The list of the threads that wait for a lock *)

Definition waitersListIsLocked (s : store) (this : Z) : res bool :=
  l ← rd (waiters_list_lock_ s) this; Val (negb (l =? 0)).

Definition pushFrontCurrentThreadToWaitersList (s : store) (currentThread this : Z) : res store :=
  _ ← kassert (negb (currentThread =? 0));
  locked ← waitersListIsLocked s this;
  _ ← kassert locked;
  head ← rd (waiters_list_ s) this;
  Val (set_waiters (set_next_thread s currentThread head) this currentThread).

(** The thread before the last one, from [previos] on. *)
Fixpoint pop_loop (fuel : nat) (s : store) (previos : Z) : res (store * Z) :=
  match fuel with
  | O => Err EFuel
  | Datatypes.S fuel =>
      next ← rd (next_thread_in_lock_waiters_list_ s) previos;
      after ← rd (next_thread_in_lock_waiters_list_ s) next;
      if after =? 0 then Val (set_next_thread s previos 0, next)
      else pop_loop fuel s next
  end.

Definition popBackThreadFromWaitersList (s : store) (this : Z) : res (store * Z) :=
  locked ← waitersListIsLocked s this;
  _ ← kassert locked;
  head ← rd (waiters_list_ s) this;
  if head =? 0 then Val (s, 0)
  else
    next ← rd (next_thread_in_lock_waiters_list_ s) head;
    if next =? 0 then Val (set_waiters s this 0, head)
    else pop_loop (size (next_thread_in_lock_waiters_list_ s)) s head.

Fixpoint remove_loop (fuel : nat) (s : store) (thread currentThread : Z) : res store :=
  match fuel with
  | O => Err EFuel
  | Datatypes.S fuel =>
      next ← rd (next_thread_in_lock_waiters_list_ s) thread;
      if next =? 0 then Val s
      else if next =? currentThread then
        after ← rd (next_thread_in_lock_waiters_list_ s) currentThread;
        Val (set_next_thread s thread after)
      else remove_loop fuel s next currentThread
  end.

Definition removeCurrentThreadFromWaitersList (s : store) (currentThread this : Z) : res store :=
  if currentThread =? 0 then Val s
  else
    locked ← waitersListIsLocked s this;
    _ ← kassert locked;
    head ← rd (waiters_list_ s) this;
    _ ← kassert (negb (head =? 0));
    s ← (if currentThread =? head then
           after ← rd (next_thread_in_lock_waiters_list_ s) currentThread;
           Val (set_waiters s this after)
         else remove_loop (size (next_thread_in_lock_waiters_list_ s)) s head currentThread);
    Val (set_next_thread s currentThread 0).

(** ** Checks *)

(** The loops of [checkForCircularDeadLock] over the locks of a thread, from
    [lock] on, and over the waiters of a lock, from [thread_waiting] on. *)
Fixpoint check_locks (fuel : nat) (s : store) (lock start : Z) : res unit :=
  match fuel with
  | O => Err EFuel
  | Datatypes.S fuel =>
      if lock =? 0 then Val tt
      else
        _ ← kassert (negb (lock =? start));
        waiter ← rd (waiters_list_ s) lock;
        _ ← check_waiters fuel s waiter start;
        next ← rd (next_lock_on_holding_list_ s) lock;
        check_locks fuel s next start
  end
with check_waiters (fuel : nat) (s : store) (thread_waiting start : Z) : res unit :=
  match fuel with
  | O => Err EFuel
  | Datatypes.S fuel =>
      if thread_waiting =? 0 then Val tt
      else
        lock ← rd (holding_lock_list_ s) thread_waiting;
        _ ← check_locks fuel s lock start;
        next ← rd (next_thread_in_lock_waiters_list_ s) thread_waiting;
        check_waiters fuel s next start
  end.

(** Every nesting takes at most a turn per lock and per thread. *)
Definition check_fuel (s : store) : nat :=
  (Datatypes.S (size (state_ s)) * (size (mutex_ s) + size (state_ s) + 2))%nat.

Definition checkForCircularDeadLock (s : store) (thread_waiting start : Z) : res unit :=
  lock ← rd (holding_lock_list_ s) thread_waiting;
  check_locks (check_fuel s) s lock start.

(** [seen]: the lists as the walk reads them. *)
Definition checkForDeadLock (s seen : store) (currentThread this : Z) : res unit :=
  if currentThread =? 0 then Val tt
  else
    holder ← rd (held_by_ s) this;
    _ ← kassert (negb (holder =? currentThread));
    checkForCircularDeadLock seen currentThread this.

Definition checkCurrentThreadStillWaitingOnAnotherLock (s : store) (currentThread : Z) : res unit :=
  if currentThread =? 0 then Val tt
  else
    l ← rd (lock_waiting_on_ s) currentThread;
    kassert (l =? 0).

Definition checkInterrupts (interrupts : bool) : res unit := kassert interrupts.

Definition doChecksBeforeWaiting (interrupts : bool) (s seen : store) (currentThread this : Z) : res unit :=
  _ ← checkInterrupts interrupts;
  _ ← checkCurrentThreadStillWaitingOnAnotherLock s currentThread;
  checkForDeadLock s seen currentThread this.

Definition checkInvalidRelease (s : store) (currentThread this : Z) : res unit :=
  holder ← rd (held_by_ s) this;
  kassert (holder =? currentThread).

(** [heldBy], [isHeldBy], [hasNextOnHoldingList], [threadsAreOnWaitersList] and [isFree] *)
Definition heldBy (s : store) (this : Z) : res Z := rd (held_by_ s) this.
Definition isHeldBy (s : store) (this thread : Z) : res bool := h ← heldBy s this; Val (h =? thread).
Definition hasNextOnHoldingList (s : store) (this : Z) : res bool :=
  n ← rd (next_lock_on_holding_list_ s) this; Val (negb (n =? 0)).
Definition isFree (interrupts scheduling : bool) (s : store) (this : Z) : res bool :=
  _ ← kassert (negb (interrupts && scheduling));
  m ← rd (mutex_ s) this;
  Val (m =? 0).

(** [Mutex::Mutex] at the address [this]. *)
Definition new (s : store) (this : Z) : store :=
  mkStore (next_thread_in_lock_waiters_list_ s) (lock_waiting_on_ s) (holding_lock_list_ s) (state_ s)
    (<[this := 0]> (held_by_ s)) (<[this := 0]> (next_lock_on_holding_list_ s))
    (<[this := 0]> (waiters_list_ s)) (<[this := 0]> (waiters_list_lock_ s)) (<[this := 0]> (mutex_ s)).

(** [Lock::~Lock]: nobody may wait any more. *)
Definition destruct_lock (s : store) (this : Z) : res unit :=
  waiter ← rd (waiters_list_ s) this;
  kassert (waiter =? 0).

(** [ArchThreads::testSetLock(lock, 1)]: the value found. *)
Definition testSetMutex (s : store) (this : Z) : res (store * Z) :=
  old ← rd (mutex_ s) this;
  Val (set_mutex s this 1, old).
Definition testSetListLock (s : store) (this : Z) : res (store * Z) :=
  old ← rd (waiters_list_lock_ s) this;
  Val (set_list_lock s this 1, old).

(** ** The mutex, one shared access at a time *)

(** Where a thread is in [acquire] ([A_]), [acquireNonBlocking] ([N_]) or
    [release] ([R_]) of the mutex; [thread] is the one to be woken up. *)
Inductive pc :=
| Idle
| A_try (l : Z)                 (* while(testSetLock(mutex_, 1)) *)
| A_lock (l : Z)                (* lockWaitersList() *)
| A_retry (l : Z)               (* if(!testSetLock(mutex_, 1)) *)
| A_unlock (l : Z)              (* unlockWaitersList(); break *)
| A_check (l : Z)               (* doChecksBeforeWaiting() *)
| A_push (l : Z)                (* lock_waiting_on_ = this; pushFront... *)
| A_release (l : Z)             (* unlockWaitersList() of sleepAndRelease *)
| A_sleep (l : Z)               (* Scheduler::sleep() *)
| A_woken (l : Z)               (* lock_waiting_on_ = 0 *)
| A_take (l : Z)                (* assert(held_by_ == 0); ... *)
| N_try (l : Z)                 (* if(testSetLock(mutex_, 1)) *)
| R_clear (l : Z)               (* mutex_ = 0 *)
| R_lock (l : Z)                (* lockWaitersList() *)
| R_pop (l : Z)                 (* popBackThreadFromWaitersList() *)
| R_unlock (l : Z) (thread : Z) (* unlockWaitersList() *)
| R_wake (l : Z) (thread : Z).  (* Scheduler::wake() *)

#[export] Instance pc_eq_dec : EqDecision pc.
Proof. solve_decision. Defined.

(** What an idle thread calls next. *)
Inductive call := Acquire (l : Z) | AcquireNonBlocking (l : Z) | Release (l : Z).

Record config := mkConfig {
  st : store;
  pcs : gmap Z pc;
}.

Definition goto (c : config) (t : Z) (s : store) (p : pc) : config := mkConfig s (<[t := p]> (pcs c)).

(** The start of a call, up to the first access that others compete for. *)
Definition enter (c : config) (t : Z) (o : call) (seen : store) : res config :=
  match o with
  | Acquire l => _ ← doChecksBeforeWaiting true (st c) seen t l; Val (goto c t (st c) (A_try l))
  | AcquireNonBlocking l => _ ← doChecksBeforeWaiting true (st c) seen t l; Val (goto c t (st c) (N_try l))
  | Release l =>
      _ ← checkInvalidRelease (st c) t l;
      s ← removeFromCurrentThreadHoldingList (st c) t l;
      Val (goto c t (set_held_by s l 0) (R_clear l))
  end.

(** One step of thread [t], which must be running; a thread that spins stays
    where it is. *)
Definition step (c : config) (t : Z) (o : call) (seen : store) : res config :=
  let s := st c in
  run ← rd (state_ s) t;
  p ← rd (pcs c) t;
  if bool_decide (run ≠ Running) then Err EBlock
  else
    match p with
    | Idle => enter c t o seen
    | A_try l =>
        '(s, old) ← testSetMutex s l;
        if old =? 0 then Val (goto c t s (A_take l))
        else
          _ ← checkCurrentThreadStillWaitingOnAnotherLock s t;
          Val (goto c t s (A_lock l))
    | A_lock l =>
        '(s, old) ← testSetListLock s l;
        Val (goto c t s (if old =? 0 then A_retry l else A_lock l))
    | A_retry l =>
        '(s, old) ← testSetMutex s l;
        Val (goto c t s (if old =? 0 then A_unlock l else A_check l))
    | A_unlock l => Val (goto c t (set_list_lock s l 0) (A_take l))
    | A_check l =>
        _ ← doChecksBeforeWaiting true s seen t l;
        Val (goto c t s (A_push l))
    | A_push l =>
        s ← pushFrontCurrentThreadToWaitersList (set_waiting_on s t l) t l;
        Val (goto c t s (A_release l))
    | A_release l => Val (goto c t (set_list_lock s l 0) (A_sleep l))
    | A_sleep l => Val (goto c t (set_state s t Sleeping) (A_woken l))
    | A_woken l => Val (goto c t (set_waiting_on s t 0) (A_try l))
    | A_take l =>
        holder ← rd (held_by_ s) l;
        _ ← kassert (holder =? 0);
        s ← pushFrontToCurrentThreadHoldingList s t l;
        Val (goto c t (set_held_by s l t) Idle)
    | N_try l =>
        '(s, old) ← testSetMutex s l;
        Val (goto c t s (if old =? 0 then A_take l else Idle))
    | R_clear l => Val (goto c t (set_mutex s l 0) (R_lock l))
    | R_lock l =>
        '(s, old) ← testSetListLock s l;
        Val (goto c t s (if old =? 0 then R_pop l else R_lock l))
    | R_pop l =>
        '(s, thread) ← popBackThreadFromWaitersList s l;
        Val (goto c t s (R_unlock l thread))
    | R_unlock l thread =>
        Val (goto c t (set_list_lock s l 0) (if thread =? 0 then Idle else R_wake l thread))
    | R_wake l thread =>
        sleeping ← rd (state_ s) thread;
        if bool_decide (sleeping = Sleeping)
        then Val (goto c t (set_state s thread Running) Idle)
        else Val (goto c t s (R_wake l thread))
    end.

Lemma rd_Some {A} (m : gmap Z A) x a : m !! x = Some a → rd m x = Val a.
Proof. unfold rd. by intros ->. Qed.

(** ** Chains of pointers *)

(** From [h] the links lead through [l] to the null pointer. *)
Fixpoint chain (nxt : gmap Z Z) (h : Z) (l : list Z) : Prop :=
  match l with
  | [] => h = 0
  | x :: l => h = x ∧ x ≠ 0 ∧ ∃ n, nxt !! x = Some n ∧ chain nxt n l
  end.

Lemma chain_insert nxt h l y v : y ∉ l → chain nxt h l → chain (<[y := v]> nxt) h l.
Proof.
  revert h. induction l as [|x l IH]; intros h Hy; [done|]. intros (-> & Hx & n & Hn & Hc).
  apply not_elem_of_cons in Hy as [Hne Hy]. split_and!; [done..|]. exists n.
  rewrite lookup_insert_ne by done. auto.
Qed.

Lemma chain_null nxt l : chain nxt 0 l → l = [].
Proof. destruct l as [|x l]; [done|]. intros (E & Hx & _). by subst. Qed.

Lemma chain_cons nxt x l : x ≠ 0 → chain nxt x l → ∃ n l', l = x :: l' ∧ nxt !! x = Some n ∧ chain nxt n l'.
Proof. destruct l as [|y l]; intros Hx; [done|]. intros (<- & _ & n & ? & ?). eauto. Qed.

Lemma chain_in nxt h l x : chain nxt h l → x ∈ l → x ≠ 0 ∧ x ∈ dom nxt.
Proof.
  revert h. induction l as [|y l IH]; intros h; [by intros _ ?%elem_of_nil|].
  intros (-> & Hy & n & Hn & Hc) [->|Hx]%elem_of_cons; [|eauto]. split; [done|]. apply elem_of_dom. eauto.
Qed.

Lemma wchain_length nxt h l : chain nxt h l → NoDup l → (length l ≤ size nxt)%nat.
Proof.
  intros Hc Hnd. rewrite <-(size_dom nxt), <-(size_list_to_set (C := gset Z) l) by done.
  apply subseteq_size. intros x Hx. apply elem_of_list_to_set in Hx. by apply (chain_in nxt h l).
Qed.

(** The lists are those the links describe: [W] the waiters of each lock, [H]
    the locks of each thread. *)
Record lists (s : store) (W H : Z → list Z) : Prop := {
  lists_W l h : waiters_list_ s !! l = Some h → chain (next_thread_in_lock_waiters_list_ s) h (W l);
  lists_W_nodup l : NoDup (W l);
  lists_W_disj l1 l2 t : t ∈ W l1 → t ∈ W l2 → l1 = l2;
  lists_W_dom l : W l ≠ [] → is_Some (waiters_list_ s !! l);
  lists_H t h : holding_lock_list_ s !! t = Some h → chain (next_lock_on_holding_list_ s) h (H t);
  lists_H_nodup t : NoDup (H t);
  lists_H_disj t1 t2 l : l ∈ H t1 → l ∈ H t2 → t1 = t2;
  lists_H_dom t : H t ≠ [] → is_Some (holding_lock_list_ s !! t);
}.

Lemma pop_loop_waiters fuel : ∀ s x s' y, pop_loop fuel s x = Val (s', y) → waiters_list_ s' = waiters_list_ s.
Proof.
  induction fuel as [|fuel IH]; intros s x s' y; cbn [pop_loop]; [done|]. intros H. res_inv H.
  destruct (r0 =? 0); res_inv H; [done|eauto].
Qed.

(** *** The operations on the lists *)

Lemma push_waiters_ok s W H t l lk n : lists s W H → t ≠ 0 → (∀ k, t ∉ W k) →
  waiters_list_lock_ s !! l = Some lk → lk ≠ 0 → waiters_list_ s !! l = Some n →
  pushFrontCurrentThreadToWaitersList s t l = Val (set_waiters (set_next_thread s t n) l t) ∧
  lists (set_waiters (set_next_thread s t n) l t) (<[l := t :: W l]> W) H.
Proof.
  intros [] Ht Hnot Hlk Hlk0 Hn. split.
  - unfold pushFrontCurrentThreadToWaitersList, waitersListIsLocked, rd.
    rewrite Hlk, Hn, (proj2 (Z.eqb_neq _ _) Ht). simpl. by rewrite (proj2 (Z.eqb_neq _ _) Hlk0).
  - split; simpl; auto.
    + intros k h. destruct (decide (k = l)) as [->|Hne].
      * rewrite lookup_insert_eq, fn_lookup_insert. intros [= <-]. split_and!; [done..|]. exists n.
        rewrite lookup_insert_eq. split; [done|]. by apply chain_insert; [apply Hnot|apply lists_W0].
      * rewrite lookup_insert_ne, fn_lookup_insert_ne by done. intros Hh. apply chain_insert; [apply Hnot|auto].
    + intros k. destruct (decide (k = l)) as [->|Hne]; [rewrite fn_lookup_insert; by constructor|by rewrite fn_lookup_insert_ne].
    + intros k1 k2 x. destruct (decide (k1 = l)) as [->|H1], (decide (k2 = l)) as [->|H2];
        rewrite ?fn_lookup_insert, ?fn_lookup_insert_ne by done; try done; rewrite ?elem_of_cons; [| |by apply lists_W_disj0].
      * intros [->|?] ?; [by destruct (Hnot k2)|]. eauto.
      * intros ? [->|?]; [by destruct (Hnot k1)|]. eauto.
    + intros k Hk. destruct (decide (k = l)) as [->|Hne]; [rewrite lookup_insert_eq; eauto|].
      rewrite lookup_insert_ne by done. rewrite fn_lookup_insert_ne in Hk by done. auto.
Qed.

Lemma chain_snoc_cut nxt a b ws : ∀ h, NoDup (ws ++ [a; b]) → chain nxt h (ws ++ [a; b]) →
  chain (<[a := 0]> nxt) h (ws ++ [a]).
Proof.
  induction ws as [|w ws IH]; intros h Hnd; simpl.
  - intros (-> & Ha & _). split_and!; [done..|]. exists 0. by rewrite lookup_insert_eq.
  - intros (-> & Hw & n & Hn & Hc). simpl in Hnd. apply NoDup_cons in Hnd as [Hnin Hnd].
    split_and!; [done..|]. exists n. rewrite lookup_insert_ne by (intros ->; set_solver). auto.
Qed.

Lemma pop_loop_ok s a b ws : ∀ fuel h, (length ws < fuel)%nat →
  chain (next_thread_in_lock_waiters_list_ s) h (ws ++ [a; b]) →
  pop_loop fuel s h = Val (set_next_thread s a 0, b).
Proof.
  induction ws as [|w ws IH]; intros [|fuel] h Hf; simpl in Hf; try lia.
  - intros (-> & Ha & n & Hn & -> & Hb & n' & Hn' & ->). simpl. unfold rd. rewrite Hn. simpl. by rewrite Hn'.
  - intros (-> & Hw & n & Hn & Hc). cbn [pop_loop]. rewrite (rd_Some _ _ _ Hn). cbn [mbind res_bind].
    destruct ws as [|w' ws].
    + destruct Hc as (-> & Ha & n' & Hn' & -> & Hb & Hc'). rewrite (rd_Some _ _ _ Hn'). cbn [mbind res_bind].
      rewrite (proj2 (Z.eqb_neq _ _) Hb).
      apply IH; [simpl; lia|]. split_and!; [done..|]. exists b. split; [done|]. split_and!; eauto.
    + destruct Hc as (-> & Ha & n' & Hn' & Hc'). rewrite (rd_Some _ _ _ Hn'). cbn [mbind res_bind].
      assert (n' ≠ 0) by (destruct ws; destruct Hc' as (-> & ? & _); done).
      rewrite (proj2 (Z.eqb_neq n' 0)) by done.
      apply IH; [simpl in *; lia|]. split_and!; [done..|]. exists n'. auto.
Qed.

(** Popping takes the thread that waits longest. *)
Lemma pop_ok s W H l lk n : lists s W H → waiters_list_lock_ s !! l = Some lk → lk ≠ 0 →
  waiters_list_ s !! l = Some n →
  (W l = [] ∧ popBackThreadFromWaitersList s l = Val (s, 0)) ∨
  ∃ ws x s', W l = ws ++ [x] ∧ x ≠ 0 ∧ popBackThreadFromWaitersList s l = Val (s', x) ∧
    lists s' (<[l := ws]> W) H ∧
    s' = mkStore (next_thread_in_lock_waiters_list_ s') (lock_waiting_on_ s) (holding_lock_list_ s)
           (state_ s) (held_by_ s) (next_lock_on_holding_list_ s) (waiters_list_ s')
           (waiters_list_lock_ s) (mutex_ s) ∧
    dom (next_thread_in_lock_waiters_list_ s') = dom (next_thread_in_lock_waiters_list_ s) ∧
    dom (waiters_list_ s') = dom (waiters_list_ s).
Proof.
  intros [] Hlk Hlk0 Hn. unfold popBackThreadFromWaitersList, waitersListIsLocked, rd.
  rewrite Hlk. cbn [mbind res_bind]. rewrite (proj2 (Z.eqb_neq _ _) Hlk0). cbn [negb kassert mbind res_bind].
  rewrite Hn. cbn [mbind res_bind]. pose proof (lists_W0 l n Hn) as Hc.
  destruct (n =? 0) eqn:En; bool_to_prop; [left; subst n; split; [by eapply chain_null|done]|right].
  destruct (chain_cons _ _ _ En Hc) as (m & tl & Ew & Hm & Hc'). rewrite Hm. cbn [mbind res_bind].
  assert (Hfix : ∀ ws x nxt h, W l = ws ++ [x] → chain nxt h ws →
    (∀ k y, k ≠ l → chain (next_thread_in_lock_waiters_list_ s) y (W k) → chain nxt y (W k)) →
    lists (mkStore nxt (lock_waiting_on_ s) (holding_lock_list_ s) (state_ s) (held_by_ s)
             (next_lock_on_holding_list_ s) (<[l := h]> (waiters_list_ s)) (waiters_list_lock_ s) (mutex_ s))
          (<[l := ws]> W) H).
  { intros ws x nxt h Ewx Hch Hoth.
    assert (Hsub : ∀ k t, t ∈ (<[l := ws]> W) k → t ∈ W k).
    { intros k t. destruct (decide (l = k)) as [<-|Hne]; [|by rewrite fn_lookup_insert_ne].
      rewrite fn_lookup_insert, Ewx. set_solver. }
    split; simpl; auto.
    - intros k y. destruct (decide (l = k)) as [<-|Hne].
      + rewrite lookup_insert_eq, fn_lookup_insert. by intros [= <-].
      + rewrite lookup_insert_ne, fn_lookup_insert_ne by done. auto.
    - intros k. destruct (decide (l = k)) as [<-|Hne]; [|by rewrite fn_lookup_insert_ne].
      rewrite fn_lookup_insert. pose proof (lists_W_nodup0 l) as Hnd. rewrite Ewx in Hnd.
      by apply NoDup_app in Hnd as [? _].
    - intros k1 k2 t H1 H2. apply Hsub in H1, H2. eauto.
    - intros k Hk. destruct (decide (l = k)) as [<-|Hne]; [rewrite lookup_insert_eq; eauto|].
      rewrite lookup_insert_ne by done. rewrite fn_lookup_insert_ne in Hk by done. auto. }
  destruct (m =? 0) eqn:Em; bool_to_prop.
  - subst m. apply chain_null in Hc'. subst tl. exists [], n, (set_waiters s l 0).
    split_and!; [done|done|done|..]; try done.
    + apply (Hfix [] n); [done|done|auto].
    + simpl. rewrite dom_insert_lookup_L; [done|eauto].
  - destruct (chain_cons _ _ _ Em Hc') as (m' & tl' & -> & Hm' & Hc'').
    assert (Hsnoc : ∃ ws a b, W l = ws ++ [a; b]).
    { rewrite Ew. destruct (exists_last (l := m :: tl')) as (l1 & b & E1); [done|].
      destruct (exists_last (l := n :: l1)) as (l2 & a & E2); [done|].
      exists l2, a, b. rewrite E1, app_comm_cons, E2, <-app_assoc. done. }
    destruct Hsnoc as (ws & a & b & Eab). pose proof (lists_W_nodup0 l) as Hnd.
    assert (Hb : b ≠ 0 ∧ a ∈ dom (next_thread_in_lock_waiters_list_ s)).
    { split; [apply (chain_in _ _ _ b Hc); rewrite Eab; set_solver|apply (chain_in _ _ _ a Hc); rewrite Eab; set_solver]. }
    exists (ws ++ [a]), b, (set_next_thread s a 0).
    split_and!; [by rewrite Eab, <-app_assoc|apply Hb| |..]; try done.
    + apply (pop_loop_ok s a b ws); [|by rewrite <-Eab].
      pose proof (wchain_length _ _ _ Hc Hnd) as Hlen. rewrite Eab, length_app in Hlen. simpl in Hlen. lia.
    + assert (Eself : waiters_list_ s = <[l := n]> (waiters_list_ s)) by (by rewrite insert_id).
      unfold set_next_thread. rewrite Eself at 1. apply (Hfix (ws ++ [a]) b); [by rewrite Eab, <-app_assoc| |].
      * apply (chain_snoc_cut _ a b); rewrite <-Eab; done.
      * intros k y Hne. apply chain_insert. intros Hin. apply Hne. apply (lists_W_disj0 k l a Hin).
        rewrite Eab. set_solver.
    + simpl. rewrite dom_insert_lookup_L; [done|]. apply elem_of_dom, Hb.
Qed.

(** Removal of a thread that spins, wherever it stands. *)
Lemma remove_loop_ok s t l1 l2 : ∀ fuel h a, (length l1 < fuel)%nat → t ∉ l1 → t ≠ a →
  chain (next_thread_in_lock_waiters_list_ s) h (a :: l1 ++ t :: l2) → NoDup (a :: l1 ++ t :: l2) →
  ∃ s' , remove_loop fuel s h t = Val s' ∧
    s' = mkStore (next_thread_in_lock_waiters_list_ s') (lock_waiting_on_ s) (holding_lock_list_ s)
           (state_ s) (held_by_ s) (next_lock_on_holding_list_ s) (waiters_list_ s)
           (waiters_list_lock_ s) (mutex_ s) ∧
    chain (next_thread_in_lock_waiters_list_ s') h (a :: l1 ++ l2) ∧
    (∀ x, x ∉ a :: l1 → next_thread_in_lock_waiters_list_ s' !! x = next_thread_in_lock_waiters_list_ s !! x).
Proof.
  induction l1 as [|b l1 IH]; intros [|fuel] h a Hf Hni Hta Hc Hnd; simpl in Hf; try lia.
  - simpl in Hc. destruct Hc as (-> & Ha & n & Hn & -> & Ht & n' & Hn' & Hc).
    cbn [remove_loop]. unfold rd. rewrite Hn. cbn [mbind res_bind].
    rewrite (proj2 (Z.eqb_neq _ _) Ht), Z.eqb_refl, Hn'. cbn [mbind res_bind].
    eexists. split; [done|]. split; [done|]. split.
    + simpl. split_and!; [done..|]. exists n'. rewrite lookup_insert_eq. split; [done|].
      apply chain_insert; [|done]. apply NoDup_cons in Hnd as [Hnd _]. set_solver.
    + simpl. intros x Hx. rewrite lookup_insert_ne; [done|]. set_solver.
  - destruct Hc as (-> & Ha & n & Hn & Hc). pose proof Hc as (En & Hb & _). subst n.
    cbn [remove_loop]. unfold rd. rewrite Hn. cbn [mbind res_bind].
    rewrite (proj2 (Z.eqb_neq _ _) Hb), (proj2 (Z.eqb_neq b t)) by set_solver.
    apply NoDup_cons in Hnd as [Hna Hnd].
    destruct (IH fuel b b) as (s' & E & Es & Hc' & Hfr); [lia|set_solver|set_solver|exact Hc|exact Hnd|].
    exists s'. split; [done|]. split; [done|]. split.
    + simpl. split_and!; [done..|]. exists b. rewrite Hfr by (simpl in Hna; set_solver). split; [done|]. exact Hc'.
    + intros x Hx. apply Hfr. set_solver.
Qed.

Lemma push_holding_ok s W H t l h : lists s W H → t ≠ 0 → l ≠ 0 → (∀ u, l ∉ H u) →
  holding_lock_list_ s !! t = Some h →
  pushFrontToCurrentThreadHoldingList s t l = Val (set_holding (set_next_lock s l h) t l) ∧
  lists (set_holding (set_next_lock s l h) t l) W (<[t := l :: H t]> H).
Proof.
  intros [] Ht Hl Hnot Hh. split.
  - unfold pushFrontToCurrentThreadHoldingList. rewrite (proj2 (Z.eqb_neq _ _) Ht), (rd_Some _ _ _ Hh). done.
  - split; simpl; auto.
    + intros u k. destruct (decide (t = u)) as [<-|Hne].
      * rewrite lookup_insert_eq, fn_lookup_insert. intros [= <-]. split_and!; [done..|]. exists h.
        rewrite lookup_insert_eq. split; [done|]. by apply chain_insert; [apply Hnot|apply lists_H0].
      * rewrite lookup_insert_ne, fn_lookup_insert_ne by done. intros Hk. apply chain_insert; [apply Hnot|auto].
    + intros u. destruct (decide (t = u)) as [<-|Hne]; [rewrite fn_lookup_insert; by constructor|by rewrite fn_lookup_insert_ne].
    + intros u1 u2 x. destruct (decide (t = u1)) as [<-|H1], (decide (t = u2)) as [<-|H2];
        rewrite ?fn_lookup_insert, ?fn_lookup_insert_ne by done; try done; rewrite ?elem_of_cons; [| |by apply lists_H_disj0].
      * intros [->|?] ?; [by destruct (Hnot u2)|]. eauto.
      * intros ? [->|?]; [by destruct (Hnot u1)|]. eauto.
    + intros u Hu. destruct (decide (t = u)) as [<-|Hne]; [rewrite lookup_insert_eq; eauto|].
      rewrite lookup_insert_ne by done. rewrite fn_lookup_insert_ne in Hu by done. auto.
Qed.

Lemma unlink_loop_ok s l l2 l1 : ∀ fuel h a, (length l1 < fuel)%nat → l ∉ a :: l1 →
  chain (next_lock_on_holding_list_ s) h (a :: l1 ++ l :: l2) → NoDup (a :: l1 ++ l :: l2) →
  ∃ nxt, unlink_loop fuel s h l =
      Val (mkStore (next_thread_in_lock_waiters_list_ s) (lock_waiting_on_ s) (holding_lock_list_ s)
             (state_ s) (held_by_ s) nxt (waiters_list_ s) (waiters_list_lock_ s) (mutex_ s)) ∧
    chain nxt h (a :: l1 ++ l2) ∧ dom nxt = dom (next_lock_on_holding_list_ s) ∧
    (∀ x, x ∉ a :: l1 → nxt !! x = next_lock_on_holding_list_ s !! x).
Proof.
  induction l1 as [|b l1 IH]; intros [|fuel] h a Hf Hni Hc Hnd; simpl in Hf; try lia;
    destruct Hc as (-> & Ha & n & Hn & Hc); cbn [unlink_loop];
    rewrite (proj2 (Z.eqb_neq _ _) Ha), (rd_Some _ _ _ Hn); cbn [mbind res_bind].
  - destruct Hc as (-> & Hl & n' & Hn' & Hc). rewrite Z.eqb_refl, (rd_Some _ _ _ Hn'). cbn [mbind res_bind].
    eexists. split; [done|]. split_and!; simpl.
    + split_and!; [done..|]. exists n'. rewrite lookup_insert_eq. split; [done|].
      apply chain_insert; [|done]. apply NoDup_cons in Hnd as [Hnd _]. set_solver.
    + rewrite dom_insert_lookup_L; [done|eauto].
    + intros x Hx. rewrite lookup_insert_ne; [done|]. set_solver.
  - pose proof Hc as (-> & Hb & _). rewrite (proj2 (Z.eqb_neq b l)) by set_solver.
    apply NoDup_cons in Hnd as [Hna Hnd].
    destruct (IH fuel b b) as (nxt & E & Hc' & Hd & Hfr); [lia|set_solver|exact Hc|exact Hnd|].
    exists nxt. split; [done|]. split; [|split; [done|]].
    + split; [done|]. split; [done|]. exists b. rewrite Hfr by (simpl in Hna; set_solver). split; [done|]. exact Hc'.
    + intros x Hx. apply Hfr. set_solver.
Qed.

(** Removing a lock takes it out of the list, wherever it stands there. *)
Lemma remove_holding_ok s W H t l1 l l2 h : lists s W H → t ≠ 0 → H t = l1 ++ l :: l2 →
  holding_lock_list_ s !! t = Some h →
  ∃ hold nxt, removeFromCurrentThreadHoldingList s t l =
      Val (mkStore (next_thread_in_lock_waiters_list_ s) (lock_waiting_on_ s) hold
             (state_ s) (held_by_ s) nxt (waiters_list_ s) (waiters_list_lock_ s) (mutex_ s)) ∧
    dom nxt = dom (next_lock_on_holding_list_ s) ∧ dom hold = dom (holding_lock_list_ s) ∧
    lists (mkStore (next_thread_in_lock_waiters_list_ s) (lock_waiting_on_ s) hold
             (state_ s) (held_by_ s) nxt (waiters_list_ s) (waiters_list_lock_ s) (mutex_ s))
          W (<[t := l1 ++ l2]> H).
Proof.
  intros [] Ht Hl Hh. pose proof (lists_H0 t h Hh) as Hc. pose proof (lists_H_nodup0 t) as Hnd.
  rewrite Hl in Hc, Hnd.
  assert (Hdl : l ∈ dom (next_lock_on_holding_list_ s)) by (apply (chain_in _ _ _ l Hc); set_solver).
  assert (Hlists : ∀ hd nxt, chain nxt hd (l1 ++ l2) →
    (∀ u k, u ≠ t → chain (next_lock_on_holding_list_ s) k (H u) → chain nxt k (H u)) →
    lists (mkStore (next_thread_in_lock_waiters_list_ s) (lock_waiting_on_ s) (<[t := hd]> (holding_lock_list_ s))
             (state_ s) (held_by_ s) nxt (waiters_list_ s) (waiters_list_lock_ s) (mutex_ s))
          W (<[t := l1 ++ l2]> H)).
  { intros hd nxt Hc' Hoth.
    assert (Hsub : ∀ u x, x ∈ (<[t := l1 ++ l2]> H) u → x ∈ H u).
    { intros u x. destruct (decide (t = u)) as [<-|Hne]; [|by rewrite fn_lookup_insert_ne].
      rewrite fn_lookup_insert, Hl. set_solver. }
    split; simpl; auto.
    - intros u k. destruct (decide (t = u)) as [<-|Hne].
      + rewrite lookup_insert_eq, fn_lookup_insert. by intros [= <-].
      + rewrite lookup_insert_ne, fn_lookup_insert_ne by done. auto.
    - intros u. destruct (decide (t = u)) as [<-|Hne]; [|by rewrite fn_lookup_insert_ne].
      rewrite fn_lookup_insert. rewrite <-Permutation_middle in Hnd. by apply NoDup_cons in Hnd as [_ ?].
    - intros u1 u2 x H1 H2. apply Hsub in H1, H2. eauto.
    - intros u Hu. destruct (decide (t = u)) as [<-|Hne]; [rewrite lookup_insert_eq; eauto|].
      rewrite lookup_insert_ne by done. rewrite fn_lookup_insert_ne in Hu by done. auto. }
  assert (Hoth : ∀ u x, u ≠ t → x ∈ H t → x ∉ H u) by (intros u x Hne H1 H2; eauto).
  assert (Hin : l ∈ H t) by (rewrite Hl; set_solver).
  assert (Hdt : is_Some (holding_lock_list_ s !! t)) by eauto.
  unfold removeFromCurrentThreadHoldingList. rewrite (proj2 (Z.eqb_neq _ _) Ht), (rd_Some _ _ _ Hh).
  cbn [mbind res_bind]. destruct l1 as [|a l1].
  - destruct Hc as (-> & Hl0 & n & Hn & Hc). rewrite Z.eqb_refl, (rd_Some _ _ _ Hn). cbn [mbind res_bind].
    exists (<[t := n]> (holding_lock_list_ s)), (<[l := 0]> (next_lock_on_holding_list_ s)).
    split_and!; [done|rewrite dom_insert_lookup_L; eauto|by rewrite dom_insert_lookup_L|].
    apply (Hlists n).
    + apply chain_insert; [|done]. by apply NoDup_cons in Hnd as [? _].
    + intros u k Hne. apply chain_insert. auto.
  - pose proof Hc as (-> & Ha & _).
    assert (Hal : l ∉ a :: l1).
    { intros Hi. rewrite <-app_comm_cons in Hnd. apply (NoDup_app (a :: l1)) in Hnd as (_ & Hd & _).
      apply (Hd l Hi). left. }
    rewrite (proj2 (Z.eqb_neq a l)) by set_solver.
    pose proof (wchain_length _ _ _ Hc Hnd) as Hlen.
    destruct (unlink_loop_ok s l l2 l1 (Datatypes.S (size (next_lock_on_holding_list_ s))) a a) as (nxt & E & Hc' & Hd & Hfr);
      [simpl in Hlen; rewrite length_app in Hlen; lia|done|exact Hc|exact Hnd|].
    rewrite E. cbn [mbind res_bind]. eexists (<[t := a]> (holding_lock_list_ s)), (<[l := 0]> nxt).
    rewrite (insert_id (holding_lock_list_ s)) by done.
    split_and!; [done| |done|].
    + rewrite dom_insert_lookup_L; [done|]. apply elem_of_dom. by rewrite Hd.
    + rewrite <-(insert_id (holding_lock_list_ s) t a) by done. apply Hlists.
      * apply chain_insert; [|exact Hc']. rewrite <-Permutation_middle in Hnd. by apply NoDup_cons in Hnd as [? _].
      * intros u k Hne Hcu. apply chain_insert; [auto|].
        revert k Hcu. assert (Hdis : ∀ x, x ∈ H u → nxt !! x = next_lock_on_holding_list_ s !! x).
        { intros x Hx. apply Hfr. intros Hx'. apply (Hoth u x); [done| |done]. rewrite Hl. set_solver. }
        revert Hdis. generalize (H u) as ks. induction ks as [|x ks IH]; intros Hdis k; [done|].
        intros (-> & Hx & n & Hn & Hcu). split_and!; [done..|]. exists n.
        rewrite Hdis by left. split; [done|]. apply IH; [|done]. intros y Hy. apply Hdis. by right.
Qed.

(** ** The steps as a relation *)

(** The mutex a thread has taken without its name being in [held_by_], the
    waiters list it has locked, the mutex it is on the way to sleep for, and the
    thread it is going to wake. *)
Definition owner_pc (p : pc) : option Z :=
  match p with A_unlock l | A_take l | R_clear l => Some l | _ => None end.
Definition list_pc (p : pc) : option Z :=
  match p with
  | A_retry l | A_unlock l | A_check l | A_push l | A_release l | R_pop l | R_unlock l _ => Some l
  | _ => None
  end.
Definition wait_pc (p : pc) : option Z :=
  match p with A_release l | A_sleep l | A_woken l => Some l | _ => None end.
Definition target (p : pc) : option Z :=
  match p with R_unlock _ x | R_wake _ x => if x =? 0 then None else Some x | _ => None end.

(** The mutex a step is about. *)
Definition pc_lock (p : pc) : option Z :=
  match p with
  | Idle => None
  | A_try l | A_lock l | A_retry l | A_unlock l | A_check l | A_push l | A_release l | A_sleep l | A_woken l | A_take l
  | N_try l | R_clear l | R_lock l | R_pop l | R_unlock l _ | R_wake l _ => Some l
  end.

Inductive trans (c : config) (t : Z) : config → Prop :=
| tr_enter l p : pcs c !! t = Some Idle → p = A_try l ∨ p = N_try l →
    l ∈ dom (held_by_ (st c)) → trans c t (goto c t (st c) p)
| tr_release l s : pcs c !! t = Some Idle → held_by_ (st c) !! l = Some t →
    removeFromCurrentThreadHoldingList (st c) t l = Val s →
    trans c t (goto c t (set_held_by s l 0) (R_clear l))
| tr_test_ok l p q : pcs c !! t = Some p → mutex_ (st c) !! l = Some 0 →
    (p, q) ∈ [(A_try l, A_take l); (A_retry l, A_unlock l); (N_try l, A_take l)] →
    trans c t (goto c t (set_mutex (st c) l 1) q)
| tr_test_fail l p q m : pcs c !! t = Some p → mutex_ (st c) !! l = Some m → m ≠ 0 →
    (p, q) ∈ [(A_try l, A_lock l); (A_retry l, A_check l); (N_try l, Idle)] →
    trans c t (goto c t (set_mutex (st c) l 1) q)
| tr_list_ok l p q : pcs c !! t = Some p → waiters_list_lock_ (st c) !! l = Some 0 →
    (p, q) ∈ [(A_lock l, A_retry l); (R_lock l, R_pop l)] →
    trans c t (goto c t (set_list_lock (st c) l 1) q)
| tr_list_fail l p m : pcs c !! t = Some p → waiters_list_lock_ (st c) !! l = Some m → m ≠ 0 →
    p ∈ [A_lock l; R_lock l] → trans c t (goto c t (set_list_lock (st c) l 1) p)
| tr_unlock l p q : pcs c !! t = Some p →
    (p, q) ∈ [(A_unlock l, A_take l); (A_release l, A_sleep l); (R_unlock l 0, Idle)] →
    trans c t (goto c t (set_list_lock (st c) l 0) q)
| tr_unlock_wake l x : pcs c !! t = Some (R_unlock l x) → x ≠ 0 →
    trans c t (goto c t (set_list_lock (st c) l 0) (R_wake l x))
| tr_push l s : pcs c !! t = Some (A_push l) →
    pushFrontCurrentThreadToWaitersList (set_waiting_on (st c) t l) t l = Val s →
    trans c t (goto c t s (A_release l))
| tr_sleep l : pcs c !! t = Some (A_sleep l) → state_ (st c) !! t = Some Running →
    trans c t (goto c t (set_state (st c) t Sleeping) (A_woken l))
| tr_woken l : pcs c !! t = Some (A_woken l) → state_ (st c) !! t = Some Running →
    trans c t (goto c t (set_waiting_on (st c) t 0) (A_try l))
| tr_take l s : pcs c !! t = Some (A_take l) → held_by_ (st c) !! l = Some 0 →
    pushFrontToCurrentThreadHoldingList (st c) t l = Val s →
    trans c t (goto c t (set_held_by s l t) Idle)
| tr_clear l : pcs c !! t = Some (R_clear l) →
    trans c t (goto c t (set_mutex (st c) l 0) (R_lock l))
| tr_pop l s x : pcs c !! t = Some (R_pop l) → popBackThreadFromWaitersList (st c) l = Val (s, x) →
    trans c t (goto c t s (R_unlock l x))
| tr_wake l x : pcs c !! t = Some (R_wake l x) → state_ (st c) !! x = Some Sleeping →
    trans c t (goto c t (set_state (st c) x Running) Idle)
| tr_wake_spin l x : pcs c !! t = Some (R_wake l x) →
    trans c t (goto c t (st c) (R_wake l x))
| tr_check l : pcs c !! t = Some (A_check l) → trans c t (goto c t (st c) (A_push l)).

Lemma rd_Val {A} (m : gmap Z A) x a : rd m x = Val a ↔ m !! x = Some a.
Proof. unfold rd. destruct (m !! x); naive_solver. Qed.

Lemma testSetMutex_Val s l r : testSetMutex s l = Val r ↔ mutex_ s !! l = Some r.2 ∧ r.1 = set_mutex s l 1.
Proof. unfold testSetMutex, rd. destruct r, (mutex_ s !! l); simpl; naive_solver. Qed.

Lemma testSetListLock_Val s l r :
  testSetListLock s l = Val r ↔ waiters_list_lock_ s !! l = Some r.2 ∧ r.1 = set_list_lock s l 1.
Proof. unfold testSetListLock, rd. destruct r, (waiters_list_lock_ s !! l); simpl; naive_solver. Qed.

Lemma checkForDeadLock_dom s seen t l u : t ≠ 0 → checkForDeadLock s seen t l = Val u → l ∈ dom (held_by_ s).
Proof.
  intros Ht. unfold checkForDeadLock. rewrite (proj2 (Z.eqb_neq _ _) Ht). intros H. res_inv H.
  apply elem_of_dom. apply rd_Val in Hr. eauto.
Qed.

Lemma step_trans c t o seen c' : t ≠ 0 → step c t o seen = Val c' → trans c t c'.
Proof.
  intros Ht. unfold step. intros H. res_inv H. apply rd_Val in Hr, Hr0.
  case_bool_decide as Erun; [done|]. subst r.
  destruct r0.
  - destruct o; simpl in H; res_inv H.
    + unfold doChecksBeforeWaiting in Hr1. res_inv Hr1.
      eapply tr_enter; [done|by left|by eapply checkForDeadLock_dom].
    + unfold doChecksBeforeWaiting in Hr1. res_inv Hr1.
      eapply tr_enter; [done|by right|by eapply checkForDeadLock_dom].
    + unfold checkInvalidRelease in Hr1. res_inv Hr1. bool_to_prop. subst. apply rd_Val in Hr3.
      by eapply tr_release.
  - res_inv H. apply testSetMutex_Val in Hr1 as [Hm Hs]. destruct r as [s' old]; simpl in *; subst s'.
    case_match; bool_to_prop; res_inv H; [subst; eapply tr_test_ok|eapply tr_test_fail]; eauto; set_solver.
  - res_inv H. apply testSetListLock_Val in Hr1 as [Hm Hs]. destruct r as [s' old]; simpl in *; subst s'.
    res_inv H. case_match; bool_to_prop; [subst; eapply tr_list_ok|eapply tr_list_fail]; eauto; set_solver.
  - res_inv H. apply testSetMutex_Val in Hr1 as [Hm Hs]. destruct r as [s' old]; simpl in *; subst s'.
    res_inv H. case_match; bool_to_prop; [subst; eapply tr_test_ok|eapply tr_test_fail]; eauto; set_solver.
  - res_inv H. eapply tr_unlock; eauto; set_solver.
  - res_inv H. by eapply tr_check.
  - res_inv H. by eapply tr_push.
  - res_inv H. eapply tr_unlock; eauto; set_solver.
  - res_inv H. by eapply tr_sleep.
  - res_inv H. by eapply tr_woken.
  - res_inv H. bool_to_prop. subst. apply rd_Val in Hr1. by eapply tr_take.
  - res_inv H. apply testSetMutex_Val in Hr1 as [Hm Hs]. destruct r as [s' old]; simpl in *; subst s'.
    res_inv H. case_match; bool_to_prop; [subst; eapply tr_test_ok|eapply tr_test_fail]; eauto; set_solver.
  - res_inv H. by eapply tr_clear.
  - res_inv H. apply testSetListLock_Val in Hr1 as [Hm Hs]. destruct r as [s' old]; simpl in *; subst s'.
    res_inv H. case_match; bool_to_prop; [subst; eapply tr_list_ok|eapply tr_list_fail]; eauto; set_solver.
  - res_inv H. destruct r as [s' x]. res_inv H. eapply tr_pop; eauto.
  - res_inv H. case_match; bool_to_prop; subst; [eapply tr_unlock|eapply tr_unlock_wake]; eauto; set_solver.
  - res_inv H. apply rd_Val in Hr1. case_bool_decide; res_inv H; [eapply tr_wake|eapply tr_wake_spin]; eauto.
Qed.

(** ** Mutual exclusion *)

(** What the operations on the lists leave alone. *)
Record same_words (s s' : store) : Prop := {
  same_mutex : mutex_ s' = mutex_ s;
  same_list_lock : waiters_list_lock_ s' = waiters_list_lock_ s;
  same_held_by : held_by_ s' = held_by_ s;
  same_state : state_ s' = state_ s;
  same_waiting_on : lock_waiting_on_ s' = lock_waiting_on_ s;
}.

#[local] Instance same_words_preorder : PreOrder same_words.
Proof.
  split; [done|]. intros s1 s2 s3 [] []. split; congruence.
Qed.

Lemma unlink_loop_same fuel : ∀ s x l s', unlink_loop fuel s x l = Val s' → same_words s s'.
Proof.
  induction fuel as [|fuel IH]; intros s x l s'; cbn [unlink_loop]; [done|].
  destruct (x =? 0); [by intros [= <-]|]. intros H. res_inv H.
  destruct (r =? l); res_inv H; [done|eauto].
Qed.

Lemma remove_holding_same s t l s' : removeFromCurrentThreadHoldingList s t l = Val s' → same_words s s'.
Proof.
  unfold removeFromCurrentThreadHoldingList. destruct (t =? 0); [by intros [= <-]|].
  intros H. res_inv H. destruct (r =? l); res_inv Hr0; [done|].
  apply unlink_loop_same in Hr0 as []. by split.
Qed.

Lemma push_holding_same s t l s' : pushFrontToCurrentThreadHoldingList s t l = Val s' → same_words s s'.
Proof.
  unfold pushFrontToCurrentThreadHoldingList. destruct (t =? 0); [by intros [= <-]|].
  intros H. by res_inv H.
Qed.

Lemma push_waiters_same s t l s' : pushFrontCurrentThreadToWaitersList s t l = Val s' → same_words s s'.
Proof. unfold pushFrontCurrentThreadToWaitersList. intros H. by res_inv H. Qed.

Lemma pop_loop_same fuel : ∀ s x r, pop_loop fuel s x = Val r → same_words s r.1.
Proof.
  induction fuel as [|fuel IH]; intros s x r; cbn [pop_loop]; [done|]. intros H. res_inv H.
  destruct (r1 =? 0); res_inv H; [done|eauto].
Qed.

Lemma pop_same s l s' x : popBackThreadFromWaitersList s l = Val (s', x) → same_words s s'.
Proof.
  unfold popBackThreadFromWaitersList. intros H. res_inv H.
  destruct (r1 =? 0); [by res_inv H|]. res_inv H. destruct (r2 =? 0); [by res_inv H|].
  by apply pop_loop_same in H.
Qed.

(** [own] names the thread that has each mutex that is taken. *)
Record owned (c : config) (own : gmap Z Z) : Prop := {
  own_word l m : mutex_ (st c) !! l = Some m → m = 0 ↔ own !! l = None;
  own_pc t p l : pcs c !! t = Some p → owner_pc p = Some l → own !! l = Some t ∧ held_by_ (st c) !! l = Some 0;
  own_held l h : held_by_ (st c) !! l = Some h → h ≠ 0 → own !! l = Some h;
  own_back l t : own !! l = Some t → t ≠ 0 ∧
    ((∃ p, pcs c !! t = Some p ∧ owner_pc p = Some l) ∨ held_by_ (st c) !! l = Some t);
}.

(** A step that neither takes nor gives up a mutex. *)
Lemma owned_keep c own t s p q : owned c own → pcs c !! t = Some p → owner_pc q = owner_pc p →
  mutex_ s = mutex_ (st c) → held_by_ s = held_by_ (st c) → owned (goto c t s q) own.
Proof.
  intros [] Hp Hq Em Eh. split; unfold goto; simpl; rewrite ?Em, ?Eh; auto.
  - intros u p' l Hu Ho. apply lookup_insert_Some in Hu as [[-> ->]|[Hne Hu]]; [|eauto].
    rewrite Hq in Ho. eauto.
  - intros l u Hu. destruct (own_back0 l u Hu) as [Hu0 [(p' & Hp' & Ho)|Hh]]; split; auto.
    left. destruct (decide (t = u)) as [<-|Hne].
    + exists q. rewrite lookup_insert_eq. split; [done|]. congruence.
    + exists p'. by rewrite lookup_insert_ne.
Qed.

(** A step that takes the free mutex [l]. *)
Lemma owned_take c own t p q l : owned c own → t ≠ 0 → pcs c !! t = Some p → owner_pc p = None →
  owner_pc q = Some l → mutex_ (st c) !! l = Some 0 → l ∈ dom (held_by_ (st c)) →
  owned (goto c t (set_mutex (st c) l 1) q) (<[l := t]> own).
Proof.
  intros Ho Ht Hp Hpo Hqo Hm Hd. assert (Hfree : own !! l = None) by (by apply (own_word _ _ Ho l 0 Hm)).
  destruct Ho. split; unfold goto; simpl.
  - intros k m Hk. apply lookup_insert_Some in Hk as [[<- <-]|[Hne Hk]].
    + rewrite lookup_insert_eq. done.
    + rewrite lookup_insert_ne by done. auto.
  - intros u p' k Hu Ho. apply lookup_insert_Some in Hu as [[<- <-]|[Hne Hu]].
    + replace k with l by congruence. rewrite lookup_insert_eq. split; [done|].
      apply elem_of_dom in Hd as [h Hh]. destruct (decide (h = 0)) as [->|Hh0]; [done|].
      apply own_held0 in Hh; congruence.
    + destruct (own_pc0 u p' k Hu Ho) as [Hk Hh]. split; [|done]. rewrite lookup_insert_ne; [done|]. intros <-. congruence.
  - intros k h Hk Hh. pose proof (own_held0 k h Hk Hh). rewrite lookup_insert_ne; [done|]. intros <-. congruence.
  - intros k u Hu. apply lookup_insert_Some in Hu as [[<- <-]|[Hne Hu]].
    + split; [done|]. left. exists q. by rewrite lookup_insert_eq.
    + destruct (own_back0 k u Hu) as [Hu0 [(p' & Hp' & Ho)|Hh]]; split; auto. left.
      exists p'. rewrite lookup_insert_ne; [done|]. intros <-. congruence.
Qed.

(** Giving the mutex up, in its two steps, and completing its taking. *)
Lemma owned_unname c own t s l : owned c own → t ≠ 0 → pcs c !! t = Some Idle →
  held_by_ (st c) !! l = Some t → same_words (st c) s →
  owned (goto c t (set_held_by s l 0) (R_clear l)) own.
Proof.
  intros Ho Ht Hp Hh [Em _ Eh _ _]. pose proof (own_held _ _ Ho l t Hh Ht) as Hl.
  destruct Ho. split; unfold goto; simpl; rewrite ?Em, ?Eh; auto.
  - intros u p k Hu Hpk. apply lookup_insert_Some in Hu as [[<- <-]|[Hne Hu]].
    + injection Hpk as <-. by rewrite lookup_insert_eq.
    + destruct (own_pc0 u p k Hu Hpk) as [Hk Hh']. split; [done|]. rewrite lookup_insert_ne; [done|].
      intros <-. congruence.
  - intros k h Hk Hh0. apply lookup_insert_Some in Hk as [[<- <-]|[Hne Hk]]; [done|]. eauto.
  - intros k u Hu. destruct (own_back0 k u Hu) as [Hu0 Hor]. split; [done|].
    destruct (decide (l = k)) as [<-|Hlk].
    + left. exists (R_clear l). replace u with t by congruence. by rewrite lookup_insert_eq.
    + rewrite (lookup_insert_ne _ l k) by done. destruct Hor as [(p' & Hp' & Hpo)|Hh']; [left|by right].
      exists p'. rewrite lookup_insert_ne; [done|]. intros <-. by simplify_eq/=.
Qed.

Lemma owned_name c own t s l : owned c own → t ≠ 0 → pcs c !! t = Some (A_take l) → same_words (st c) s →
  owned (goto c t (set_held_by s l t) Idle) own.
Proof.
  intros Ho Ht Hp [Em _ Eh _ _]. destruct (own_pc _ _ Ho t _ l Hp eq_refl) as [Hl Hh].
  destruct Ho. split; unfold goto; simpl; rewrite ?Em, ?Eh; auto.
  - intros u p k Hu Hpk. apply lookup_insert_Some in Hu as [[<- <-]|[Hne Hu]]; [done|].
    destruct (own_pc0 u p k Hu Hpk) as [Hk Hh']. split; [done|]. rewrite lookup_insert_ne; [done|].
    intros <-. congruence.
  - intros k h Hk Hh0. apply lookup_insert_Some in Hk as [[<- <-]|[Hne Hk]]; [done|]. eauto.
  - intros k u Hu. destruct (own_back0 k u Hu) as [Hu0 Hor]. split; [done|].
    destruct (decide (l = k)) as [<-|Hlk].
    + right. replace u with t by congruence. by rewrite lookup_insert_eq.
    + rewrite (lookup_insert_ne _ l k) by done. destruct Hor as [(p' & Hp' & Hpo)|Hh']; [left|by right].
      exists p'. rewrite lookup_insert_ne; [done|]. intros <-. by simplify_eq/=.
Qed.

Lemma owned_clear c own t l : owned c own → pcs c !! t = Some (R_clear l) →
  owned (goto c t (set_mutex (st c) l 0) (R_lock l)) (delete l own).
Proof.
  intros Ho Hp. destruct (own_pc _ _ Ho t _ l Hp eq_refl) as [Hl Hh].
  destruct Ho. split; unfold goto; simpl.
  - intros k m Hk. apply lookup_insert_Some in Hk as [[<- <-]|[Hne Hk]]; [by rewrite lookup_delete_eq|].
    rewrite lookup_delete_ne by done. auto.
  - intros u p k Hu Hpk. apply lookup_insert_Some in Hu as [[<- <-]|[Hne Hu]]; [done|].
    destruct (own_pc0 u p k Hu Hpk) as [Hk Hh']. split; [|done]. rewrite lookup_delete_ne; [done|].
    intros <-. congruence.
  - intros k h Hk Hh0. pose proof (own_held0 k h Hk Hh0). rewrite lookup_delete_ne; [done|]. intros <-. congruence.
  - intros k u Hu. apply lookup_delete_Some in Hu as [Hlk Hu]. destruct (own_back0 k u Hu) as [Hu0 Hor].
    split; [done|]. destruct Hor as [(p' & Hp' & Hpo)|Hh']; [left|by right].
    exists p'. rewrite lookup_insert_ne; [done|]. intros <-. by simplify_eq/=.
Qed.

Lemma owned_retest c own t p q l m : owned c own → pcs c !! t = Some p → owner_pc p = None → owner_pc q = None →
  mutex_ (st c) !! l = Some m → m ≠ 0 → owned (goto c t (set_mutex (st c) l 1) q) own.
Proof.
  intros Ho Hp Hpo Hqo Hm Hm0. pose proof (own_word _ _ Ho l m Hm) as Hw.
  destruct (owned_keep c own t (st c) p q) as [W1 W2 W3 W4]; auto; [congruence|].
  split; auto. unfold goto in *; simpl in *. intros k n Hk.
  apply lookup_insert_Some in Hk as [[<- <-]|[Hne Hk]]; [|auto]. split; [done|]. tauto.
Qed.

Lemma owned_trans c own t c' : owned c own → t ≠ 0 → dom (held_by_ (st c)) = dom (mutex_ (st c)) →
  trans c t c' → ∃ own', owned c' own'.
Proof.
  intros Ho Ht Hdom Htr. destruct Htr as [l p Hp Hor _|l s Hp Hh Hrm|l p q Hp Hm Hin|l p q m Hp Hm Hm0 Hin|
    l p q Hp Hl Hin|l p m Hp Hl Hl0 Hin|l p q Hp Hin|l x Hp Hx|l s Hp Hpush|l Hp Hs|l Hp Hs|l s Hp Hh Hpush|
    l Hp|l s x Hp Hpop|l x Hp Hs|l x Hp|l Hp].
  - exists own. apply (owned_keep c own t _ Idle); auto. by destruct Hor as [->| ->].
  - apply remove_holding_same in Hrm as Hs. exists own. by apply owned_unname.
  - exists (<[l := t]> own). apply (owned_take c own t p); auto; [set_solver|set_solver|].
    rewrite Hdom. apply elem_of_dom. eauto.
  - exists own. apply (owned_retest c own t p q l m); auto; set_solver.
  - exists own. apply (owned_keep c own t _ p); auto. set_solver.
  - exists own. apply (owned_keep c own t _ p); auto.
  - exists own. apply (owned_keep c own t _ p); auto. set_solver.
  - exists own. apply (owned_keep c own t _ (R_unlock l x)); auto.
  - apply push_waiters_same in Hpush as []. exists own. by apply (owned_keep c own t _ (A_push l)).
  - exists own. by apply (owned_keep c own t _ (A_sleep l)).
  - exists own. by apply (owned_keep c own t _ (A_woken l)).
  - apply push_holding_same in Hpush. exists own. by apply owned_name.
  - exists (delete l own). by apply owned_clear.
  - apply pop_same in Hpop as []. exists own. by apply (owned_keep c own t _ (R_pop l)).
  - exists own. by apply (owned_keep c own t _ (R_wake l x)).
  - exists own. by apply (owned_keep c own t _ (R_wake l x)).
  - exists own. by apply (owned_keep c own t _ (A_check l)).
Qed.

(** [lown] names the thread that has each waiters list that is locked. *)
Record list_owned (c : config) (lown : gmap Z Z) : Prop := {
  list_word l m : waiters_list_lock_ (st c) !! l = Some m → m = 0 ↔ lown !! l = None;
  list_owner t p l : pcs c !! t = Some p → list_pc p = Some l → lown !! l = Some t;
  list_back l t : lown !! l = Some t → ∃ p, pcs c !! t = Some p ∧ list_pc p = Some l;
}.

Lemma list_owned_keep c lown t s p q : list_owned c lown → pcs c !! t = Some p → list_pc q = list_pc p →
  (∀ l m, waiters_list_lock_ s !! l = Some m → ∃ n, waiters_list_lock_ (st c) !! l = Some n ∧ (n = 0 ↔ m = 0)) →
  list_owned (goto c t s q) lown.
Proof.
  intros [] Hp Hq Hw. split; unfold goto; simpl.
  - intros l m Hm. destruct (Hw l m Hm) as (n & Hn & <-). eauto.
  - intros u p' l Hu Hl. apply lookup_insert_Some in Hu as [[<- <-]|[Hne Hu]]; [|eauto].
    rewrite Hq in Hl. eauto.
  - intros l u Hu. destruct (list_back0 l u Hu) as (p' & Hp' & Hl). destruct (decide (t = u)) as [<-|Hne].
    + exists q. rewrite lookup_insert_eq. split; [done|]. congruence.
    + exists p'. by rewrite lookup_insert_ne.
Qed.

Lemma list_owned_take c lown t p q l : list_owned c lown → pcs c !! t = Some p → list_pc p = None →
  list_pc q = Some l → waiters_list_lock_ (st c) !! l = Some 0 →
  list_owned (goto c t (set_list_lock (st c) l 1) q) (<[l := t]> lown).
Proof.
  intros Ho Hp Hpo Hqo Hm. assert (Hfree : lown !! l = None) by (by apply (list_word _ _ Ho l 0 Hm)).
  destruct Ho. split; unfold goto; simpl.
  - intros k m Hk. apply lookup_insert_Some in Hk as [[<- <-]|[Hne Hk]]; [by rewrite lookup_insert_eq|].
    rewrite lookup_insert_ne by done. auto.
  - intros u p' k Hu Hl. apply lookup_insert_Some in Hu as [[<- <-]|[Hne Hu]].
    + replace k with l by congruence. by rewrite lookup_insert_eq.
    + pose proof (list_owner0 u p' k Hu Hl). rewrite lookup_insert_ne; [done|]. intros <-. congruence.
  - intros k u Hu. apply lookup_insert_Some in Hu as [[<- <-]|[Hne Hu]].
    + exists q. by rewrite lookup_insert_eq.
    + destruct (list_back0 k u Hu) as (p' & Hp' & Hl). exists p'. rewrite lookup_insert_ne; [done|].
      intros <-. congruence.
Qed.

Lemma list_owned_drop c lown t p q l : list_owned c lown → pcs c !! t = Some p → list_pc p = Some l →
  list_pc q = None → list_owned (goto c t (set_list_lock (st c) l 0) q) (delete l lown).
Proof.
  intros Ho Hp Hpo Hqo. pose proof (list_owner _ _ Ho t p l Hp Hpo) as Hl.
  destruct Ho. split; unfold goto; simpl.
  - intros k m Hk. apply lookup_insert_Some in Hk as [[<- <-]|[Hne Hk]]; [by rewrite lookup_delete_eq|].
    rewrite lookup_delete_ne by done. auto.
  - intros u p' k Hu Hk. apply lookup_insert_Some in Hu as [[<- <-]|[Hne Hu]]; [congruence|].
    pose proof (list_owner0 u p' k Hu Hk). rewrite lookup_delete_ne; [done|]. intros <-. congruence.
  - intros k u Hu. apply lookup_delete_Some in Hu as [Hlk Hu]. destruct (list_back0 k u Hu) as (p' & Hp' & Hk).
    exists p'. rewrite lookup_insert_ne; [done|]. intros <-. congruence.
Qed.

(** The words of a step as they were. *)
Lemma same_list_words s s' : waiters_list_lock_ s' = waiters_list_lock_ s →
  ∀ l m, waiters_list_lock_ s' !! l = Some m → ∃ n, waiters_list_lock_ s !! l = Some n ∧ (n = 0 ↔ m = 0).
Proof. intros -> l m Hm. eauto. Qed.

Lemma list_owned_trans c lown t c' : list_owned c lown → trans c t c' → ∃ lown', list_owned c' lown'.
Proof.
  intros Ho Htr. destruct Htr as [l p Hp Hor _|l s Hp Hh Hrm|l p q Hp Hm Hin|l p q m Hp Hm Hm0 Hin|
    l p q Hp Hl Hin|l p m Hp Hl Hl0 Hin|l p q Hp Hin|l x Hp Hx|l s Hp Hpush|l Hp Hs|l Hp Hs|l s Hp Hh Hpush|
    l Hp|l s x Hp Hpop|l x Hp Hs|l x Hp|l Hp].
  - exists lown. apply (list_owned_keep c lown t _ Idle); [..|apply same_list_words]; auto. by destruct Hor as [->| ->].
  - apply remove_holding_same in Hrm as []. exists lown.
    by apply (list_owned_keep c lown t _ Idle); [..|apply same_list_words]; auto.
  - exists lown. apply (list_owned_keep c lown t _ p); [..|apply same_list_words]; auto. set_solver.
  - exists lown. apply (list_owned_keep c lown t _ p); [..|apply same_list_words]; auto. set_solver.
  - exists (<[l := t]> lown). apply (list_owned_take c lown t p); auto; set_solver.
  - exists lown. apply (list_owned_keep c lown t _ p); auto. simpl. intros k n Hk.
    apply lookup_insert_Some in Hk as [[<- <-]|[Hne Hk]]; [exists m; split; [done|lia]|eauto].
  - exists (delete l lown). apply (list_owned_drop c lown t p); auto; set_solver.
  - exists (delete l lown). by apply (list_owned_drop c lown t (R_unlock l x)).
  - apply push_waiters_same in Hpush as []. exists lown.
    by apply (list_owned_keep c lown t _ (A_push l)); [..|apply same_list_words]; auto.
  - exists lown. by apply (list_owned_keep c lown t _ (A_sleep l)); [..|apply same_list_words]; auto.
  - exists lown. by apply (list_owned_keep c lown t _ (A_woken l)); [..|apply same_list_words]; auto.
  - apply push_holding_same in Hpush as []. exists lown.
    by apply (list_owned_keep c lown t _ (A_take l)); [..|apply same_list_words]; auto.
  - exists lown. by apply (list_owned_keep c lown t _ (R_clear l)); [..|apply same_list_words]; auto.
  - apply pop_same in Hpop as []. exists lown.
    by apply (list_owned_keep c lown t _ (R_pop l)); [..|apply same_list_words]; auto.
  - exists lown. by apply (list_owned_keep c lown t _ (R_wake l x)); [..|apply same_list_words]; auto.
  - exists lown. by apply (list_owned_keep c lown t _ (R_wake l x)); [..|apply same_list_words]; auto.
  - exists lown. by apply (list_owned_keep c lown t _ (A_check l)); [..|apply same_list_words]; auto.
Qed.

(** ** Who waits, and who wakes *)

Record waiting (c : config) (W H : Z → list Z) : Prop := {
  wt_lists : lists (st c) W H;
  wt_in t l : t ∈ W l → ∃ p, pcs c !! t = Some p ∧ wait_pc p = Some l;
  wt_asleep t p l : pcs c !! t = Some p → wait_pc p = Some l →
    t ∈ W l ∨ (∃ u q, pcs c !! u = Some q ∧ target q = Some t) ∨
    (p = A_woken l ∧ state_ (st c) !! t = Some Running);
  wt_target u q t : pcs c !! u = Some q → target q = Some t → (∀ k, t ∉ W k) ∧
    ∃ l, pc_lock q = Some l ∧
      (pcs c !! t = Some (A_sleep l) ∨ pcs c !! t = Some (A_woken l) ∧ state_ (st c) !! t = Some Sleeping);
  wt_once u1 u2 q1 q2 t : pcs c !! u1 = Some q1 → pcs c !! u2 = Some q2 →
    target q1 = Some t → target q2 = Some t → u1 = u2;
  wt_state t p : pcs c !! t = Some p → state_ (st c) !! t = Some Running ∨
    state_ (st c) !! t = Some Sleeping ∧ ∃ l, p = A_woken l;
  wt_woken t l k : t ∈ W l → pcs c !! t = Some (A_woken k) → state_ (st c) !! t = Some Sleeping;
  wt_wake u l x : pcs c !! u = Some (R_wake l x) → x ≠ 0;
  wt_on t p : pcs c !! t = Some p → lock_waiting_on_ (st c) !! t = Some (default 0 (wait_pc p));
}.

Definition sleepy (p : pc) : Prop := match p with A_sleep _ | A_woken _ => True | _ => False end.

(** A step that has nothing to do with sleeping. *)
Lemma waiting_keep c W H H' t s p q : waiting c W H → pcs c !! t = Some p →
  wait_pc q = wait_pc p → target q = target p → (target q = None ∨ pc_lock q = pc_lock p) → ¬ sleepy p → (sleepy q → ∃ l, q = A_sleep l) →
  (∀ l x, q = R_wake l x → x ≠ 0) → lists s W H' → state_ s = state_ (st c) →
  lock_waiting_on_ s = lock_waiting_on_ (st c) → waiting (goto c t s q) W H'.
Proof.
  intros [] Hp Hwq Htq Hlq Hsp Hsq Hwk Hl Es Eo. split; unfold goto; simpl; rewrite ?Es, ?Eo; auto.
  - intros u l Hu. destruct (wt_in0 u l Hu) as (p' & Hp' & Hw). destruct (decide (t = u)) as [<-|Hne].
    + exists q. rewrite lookup_insert_eq. split; [done|]. congruence.
    + exists p'. by rewrite lookup_insert_ne.
  - intros u p' l Hu Hw. apply lookup_insert_Some in Hu as [[<- <-]|[Hne Hu]].
    + rewrite Hwq in Hw. destruct (wt_asleep0 t p l Hp Hw) as [?|[(v & q' & Hv & Ht)|[-> _]]]; [by left| |done].
      right. left. destruct (decide (t = v)) as [<-|Hne]; [|exists v, q'; by rewrite lookup_insert_ne].
      exists t, q. rewrite lookup_insert_eq. split; [done|]. congruence.
    + destruct (wt_asleep0 u p' l Hu Hw) as [?|[(v & q' & Hv & Ht)|?]]; [by left| |by right; right].
      right. left. destruct (decide (t = v)) as [<-|Hne']; [|exists v, q'; by rewrite lookup_insert_ne].
      exists t, q. rewrite lookup_insert_eq. split; [done|]. congruence.
  - intros u q' x Hu Hx.
    assert (Hold : ∃ u0 q0, pcs c !! u0 = Some q0 ∧ target q0 = Some x ∧ pc_lock q0 = pc_lock q').
    { apply lookup_insert_Some in Hu as [[<- <-]|[Hne Hu]]; [|eauto]. exists t, p. split_and!; [done|congruence|].
      destruct Hlq; congruence. }
    destruct Hold as (u0 & q0 & Hu0 & Hx0 & El). destruct (wt_target0 u0 q0 x Hu0 Hx0) as [Hn (l & Hlk & Hor)].
    split; [done|]. exists l. split; [congruence|]. rewrite lookup_insert_ne; [done|]. intros <-.
    apply Hsp. destruct Hor as [E|[E _]]; rewrite Hp in E; injection E as ->; exact I.
  - intros u1 u2 q1 q2 x H1 H2 Hx1 Hx2.
    apply lookup_insert_Some in H1 as [[<- <-]|[Hne1 H1]], H2 as [[<- <-]|[Hne2 H2]]; [done| | |eauto].
    + apply (wt_once0 t u2 p q2 x); auto; congruence.
    + apply (wt_once0 u1 t q1 p x); auto; congruence.
  - intros u p' Hu. apply lookup_insert_Some in Hu as [[<- <-]|[Hne Hu]]; [|eauto].
    destruct (wt_state0 t p Hp) as [?|(_ & l & ->)]; [by left|]. by destruct Hsp.
  - intros u l k Hu Hk. apply lookup_insert_Some in Hk as [[<- ->]|[Hne Hk]]; [|eauto].
    destruct (Hsq I). done.
  - intros u l x Hu. apply lookup_insert_Some in Hu as [[<- ->]|[Hne Hu]]; eauto.
  - intros u p' Hu. apply lookup_insert_Some in Hu as [[<- <-]|[Hne Hu]]; [|eauto]. rewrite Hwq. auto.
Qed.

Lemma waiting_push c W H t l : waiting c W H → t ≠ 0 → pcs c !! t = Some (A_push l) →
  (∃ lk, waiters_list_lock_ (st c) !! l = Some lk ∧ lk ≠ 0) → is_Some (waiters_list_ (st c) !! l) →
  ∃ s, pushFrontCurrentThreadToWaitersList (set_waiting_on (st c) t l) t l = Val s ∧
       waiting (goto c t s (A_release l)) (<[l := t :: W l]> W) H.
Proof.
  intros [] Ht Hp (lk & Hlk & Hlk0) [n Hn].
  assert (Hnot : ∀ k, t ∉ W k). { intros k Hk. destruct (wt_in0 t k Hk) as (p & Hp' & Hw). by simplify_eq. }
  assert (Hl : lists (set_waiting_on (st c) t l) W H) by (by destruct wt_lists0).
  destruct (push_waiters_ok _ _ _ t l lk n Hl Ht Hnot Hlk Hlk0 Hn) as [E Hl'].
  eexists. split; [exact E|].
  assert (HW : ∀ u k, u ∈ (<[l := t :: W l]> W) k ↔ (u = t ∧ k = l) ∨ u ∈ W k).
  { intros u k. destruct (decide (l = k)) as [<-|Hne].
    - rewrite fn_lookup_insert, elem_of_cons. naive_solver.
    - rewrite fn_lookup_insert_ne by done. naive_solver. }
  split; unfold goto; simpl; auto.
  - intros u k [[-> ->]|Hu]%HW; [exists (A_release l); by rewrite lookup_insert_eq|].
    destruct (wt_in0 u k Hu) as (p & Hp' & Hw). exists p. rewrite lookup_insert_ne; [done|]. intros <-. by destruct (Hnot k).
  - intros u p k Hu Hw. apply lookup_insert_Some in Hu as [[<- <-]|[Hne Hu]].
    + left. apply HW. left. simpl in Hw. split; congruence.
    + destruct (wt_asleep0 u p k Hu Hw) as [?|[(v & q' & Hv & Hx)|?]]; [left; apply HW; by right| |by right; right].
      right. left. exists v, q'. rewrite lookup_insert_ne; [done|]. intros <-. by simplify_eq.
  - intros u q x Hu Hx. apply lookup_insert_Some in Hu as [[<- <-]|[Hne Hu]]; [done|].
    destruct (wt_target0 u q x Hu Hx) as [Hn' (k & Hlq & Hor)].
    assert (x ≠ t) by (intros ->; destruct Hor as [?|[? _]]; congruence).
    split; [intros k' [[-> _]|Hx']%HW; [done|by apply (Hn' k')]|]. exists k. split; [done|]. by rewrite lookup_insert_ne.
  - intros u1 u2 q1 q2 x H1 H2 Hx1 Hx2.
    apply lookup_insert_Some in H1 as [[<- <-]|[Hne1 H1]], H2 as [[<- <-]|[Hne2 H2]]; [done..|eauto].
  - intros u p Hu. apply lookup_insert_Some in Hu as [[<- <-]|[Hne Hu]]; [|eauto].
    destruct (wt_state0 t _ Hp) as [?|(_ & k & ?)]; [by left|done].
  - intros u k k' [[-> ->]|Hu]%HW Hk; apply lookup_insert_Some in Hk as [[_ ?]|[Hne Hk]]; try done; eauto.
  - intros u k x Hu. apply lookup_insert_Some in Hu as [[<- ?]|[Hne Hu]]; [done|eauto].
  - intros u p Hu. apply lookup_insert_Some in Hu as [[<- <-]|[Hne Hu]]; [by rewrite lookup_insert_eq|].
    rewrite lookup_insert_ne by done. eauto.
Qed.

Lemma waiting_sleep c W H t l : waiting c W H → pcs c !! t = Some (A_sleep l) →
  waiting (goto c t (set_state (st c) t Sleeping) (A_woken l)) W H.
Proof.
  intros [] Hp. split; unfold goto; simpl; auto.
  - by destruct wt_lists0.
  - intros u k Hu. destruct (wt_in0 u k Hu) as (p & Hp' & Hw). destruct (decide (t = u)) as [<-|Hne].
    + exists (A_woken l). rewrite lookup_insert_eq. split; [done|]. by simplify_eq.
    + exists p. by rewrite lookup_insert_ne.
  - intros u p k Hu Hw.
    assert (Hold : u ∈ W k ∨ (∃ v q, pcs c !! v = Some q ∧ target q = Some u) ∨
      u ≠ t ∧ p = A_woken k ∧ state_ (st c) !! u = Some Running).
    { apply lookup_insert_Some in Hu as [[<- <-]|[Hne Hu]].
      - simpl in Hw. injection Hw as ->. destruct (wt_asleep0 t _ k Hp eq_refl) as [?|[?|[? _]]]; [by left|by right; left|done].
      - destruct (wt_asleep0 u p k Hu Hw) as [?|[?|?]]; [by left|by right; left|]. right. right. naive_solver. }
    destruct Hold as [?|[(v & q & Hv & Hx)|(Hne & -> & Hs)]]; [by left| |].
    + right. left. exists v, q. rewrite lookup_insert_ne; [done|]. intros <-. by simplify_eq.
    + right. right. by rewrite lookup_insert_ne.
  - intros u q x Hu Hx. apply lookup_insert_Some in Hu as [[<- <-]|[Hne Hu]]; [done|].
    destruct (wt_target0 u q x Hu Hx) as [Hn (k & Hlq & Hor)]. split; [done|].
    exists k. split; [done|]. destruct (decide (t = x)) as [<-|Hne'].
    + right. rewrite !lookup_insert_eq. destruct Hor as [?|[? _]]; by simplify_eq.
    + by rewrite !lookup_insert_ne.
  - intros u1 u2 q1 q2 x H1 H2 Hx1 Hx2.
    apply lookup_insert_Some in H1 as [[<- <-]|[Hne1 H1]], H2 as [[<- <-]|[Hne2 H2]]; [done..|eauto].
  - intros u p Hu. apply lookup_insert_Some in Hu as [[<- <-]|[Hne Hu]].
    + right. rewrite lookup_insert_eq. eauto.
    + rewrite lookup_insert_ne by done. eauto.
  - intros u k k' Hu Hk. destruct (decide (t = u)) as [<-|Hne]; [by rewrite lookup_insert_eq|].
    rewrite lookup_insert_ne in Hk by done. rewrite lookup_insert_ne by done. eauto.
  - intros u k x Hu. apply lookup_insert_Some in Hu as [[<- ?]|[Hne Hu]]; [done|eauto].
  - intros u p Hu. apply lookup_insert_Some in Hu as [[<- <-]|[Hne Hu]]; [|eauto].
    by rewrite (wt_on0 t _ Hp).
Qed.

Lemma waiting_resume c W H t l : waiting c W H → pcs c !! t = Some (A_woken l) →
  state_ (st c) !! t = Some Running →
  waiting (goto c t (set_waiting_on (st c) t 0) (A_try l)) W H.
Proof.
  intros [] Hp Hs.
  assert (Hnt : ∀ u q, pcs c !! u = Some q → target q ≠ Some t).
  { intros u q Hu Hx. destruct (wt_target0 u q t Hu Hx) as [_ (k & _ & [?|[_ ?]])]; congruence. }
  split; unfold goto; simpl; auto.
  - by destruct wt_lists0.
  - intros u k Hu. destruct (wt_in0 u k Hu) as (p & Hp' & Hw). exists p. rewrite lookup_insert_ne; [done|].
    intros <-. pose proof (wt_woken0 t k l Hu Hp). congruence.
  - intros u p k Hu Hw. apply lookup_insert_Some in Hu as [[<- <-]|[Hne Hu]]; [done|].
    destruct (wt_asleep0 u p k Hu Hw) as [?|[(v & q' & Hv & Hx)|?]]; [by left| |by right; right].
    right. left. exists v, q'. rewrite lookup_insert_ne; [done|]. intros <-. by simplify_eq.
  - intros u q x Hu Hx. apply lookup_insert_Some in Hu as [[<- <-]|[Hne Hu]]; [done|].
    destruct (wt_target0 u q x Hu Hx) as [Hn (k & Hlq & Hor)]. split; [done|]. exists k. split; [done|].
    rewrite lookup_insert_ne; [done|]. intros <-. by destruct (Hnt u q).
  - intros u1 u2 q1 q2 x H1 H2 Hx1 Hx2.
    apply lookup_insert_Some in H1 as [[<- <-]|[Hne1 H1]], H2 as [[<- <-]|[Hne2 H2]]; [done..|eauto].
  - intros u p Hu. apply lookup_insert_Some in Hu as [[<- <-]|[Hne Hu]]; [by left|eauto].
  - intros u k k' Hu Hk. apply lookup_insert_Some in Hk as [[<- ?]|[Hne Hk]]; [done|eauto].
  - intros u k x Hu. apply lookup_insert_Some in Hu as [[<- ?]|[Hne Hu]]; [done|eauto].
  - intros u p Hu. apply lookup_insert_Some in Hu as [[<- <-]|[Hne Hu]]; [by rewrite lookup_insert_eq|].
    rewrite lookup_insert_ne by done. eauto.
Qed.

Lemma waiting_pop c W H lown t l : waiting c W H → list_owned c lown → pcs c !! t = Some (R_pop l) →
  (∃ lk, waiters_list_lock_ (st c) !! l = Some lk ∧ lk ≠ 0) → is_Some (waiters_list_ (st c) !! l) →
  ∃ s x W', popBackThreadFromWaitersList (st c) l = Val (s, x) ∧
    waiting (goto c t s (R_unlock l x)) W' H ∧ (x = 0 → W l = []) ∧ (∀ k, k ≠ l → W' k = W k) ∧
    dom (next_thread_in_lock_waiters_list_ s) = dom (next_thread_in_lock_waiters_list_ (st c)) ∧
    dom (waiters_list_ s) = dom (waiters_list_ (st c)) ∧
    holding_lock_list_ s = holding_lock_list_ (st c) ∧
    next_lock_on_holding_list_ s = next_lock_on_holding_list_ (st c).
Proof.
  intros Hw Hlo Hp (lk & Hlk & Hlk0) [n Hn].
  destruct (pop_ok _ _ _ l lk n (wt_lists _ _ _ Hw) Hlk Hlk0 Hn)
    as [[HW E]|(ws & x & s & HW & Hx & E & Hl & Es & Hd1 & Hd2)].
  { exists (st c), 0, W. split_and!; try done. apply (waiting_keep c W H H t (st c) (R_pop l)); auto; try done.
    by destruct Hw. }
  exists s, x, (<[l := ws]> W). split_and!; try done; [| |by rewrite Es|by rewrite Es].
  2:{ intros k Hk. by rewrite fn_lookup_insert_ne. }
  pose proof (pop_same _ _ _ _ E) as [Em El Eh Est Eo].
  pose proof Hw as [].
  assert (Hxl : x ∈ W l) by (rewrite HW; set_solver).
  assert (Hxnd : x ∉ ws).
  { pose proof (lists_W_nodup _ _ _ wt_lists0 l) as Hnd. rewrite HW in Hnd. apply NoDup_app in Hnd as (_ & Hd & _).
    intros Hi. apply (Hd x Hi). set_solver. }
  assert (Hsub : ∀ u k, u ∈ (<[l := ws]> W) k → u ∈ W k ∧ u ≠ x).
  { intros u k. destruct (decide (l = k)) as [<-|Hne].
    - rewrite fn_lookup_insert, HW. set_solver.
    - rewrite fn_lookup_insert_ne by done. intros Hu. split; [done|]. intros ->. apply Hne.
      by apply (lists_W_disj _ _ _ wt_lists0 _ _ x). }
  assert (Hsup : ∀ u k, u ∈ W k → u ≠ x → u ∈ (<[l := ws]> W) k).
  { intros u k Hu Hux. destruct (decide (l = k)) as [<-|Hne].
    - rewrite fn_lookup_insert. rewrite HW in Hu. set_solver.
    - by rewrite fn_lookup_insert_ne. }
  assert (Hxp : pcs c !! x = Some (A_sleep l) ∨ pcs c !! x = Some (A_woken l) ∧ state_ (st c) !! x = Some Sleeping).
  { destruct (wt_in0 x l Hxl) as (p & Hpx & Hwp). destruct p; try done; simpl in Hwp; simplify_eq.
    - pose proof (list_owner _ _ Hlo x _ l Hpx eq_refl) as H1.
      pose proof (list_owner _ _ Hlo t _ l Hp eq_refl) as H2. congruence.
    - by left.
    - right. eauto. }
  assert (Hnt : ∀ u q, pcs c !! u = Some q → target q ≠ Some x).
  { intros u q Hu Hxq. destruct (wt_target0 u q x Hu Hxq) as [Hn' _]. by apply (Hn' l). }
  assert (Htx : t ≠ x) by (intros ->; destruct Hxp as [?|[? _]]; congruence).
  split; unfold goto; simpl; rewrite ?Est, ?Eo; auto.
  - intros u k Hu. apply Hsub in Hu as [Hu Hux]. destruct (wt_in0 u k Hu) as (p & Hp' & Hwp). exists p.
    rewrite lookup_insert_ne; [done|]. intros <-. by simplify_eq.
  - intros u p k Hu Hwp. apply lookup_insert_Some in Hu as [[<- <-]|[Hne Hu]]; [done|].
    destruct (decide (u = x)) as [->|Hux].
    { right. left. exists t, (R_unlock l x). rewrite lookup_insert_eq. simpl. by rewrite (proj2 (Z.eqb_neq _ _) Hx). }
    destruct (wt_asleep0 u p k Hu Hwp) as [?|[(v & q' & Hv & Hxq)|?]]; [left; auto| |by right; right].
    right. left. exists v, q'. rewrite lookup_insert_ne; [done|]. intros <-. by simplify_eq.
  - intros u q y Hu Hy. apply lookup_insert_Some in Hu as [[<- <-]|[Hne Hu]].
    + simpl in Hy. rewrite (proj2 (Z.eqb_neq _ _) Hx) in Hy. injection Hy as <-.
      split; [intros k Hk; by apply Hsub in Hk as [_ ?]|]. exists l. split; [done|]. by rewrite lookup_insert_ne.
    + destruct (wt_target0 u q y Hu Hy) as [Hn' (k & Hlq & Hor)]. split.
      * intros k' Hk'. apply Hsub in Hk' as [Hk' _]. by apply (Hn' k').
      * exists k. split; [done|]. rewrite lookup_insert_ne; [done|]. intros <-. destruct Hor as [?|[? _]]; congruence.
  - intros u1 u2 q1 q2 y H1 H2 Hy1 Hy2.
    apply lookup_insert_Some in H1 as [[<- <-]|[Hne1 H1]], H2 as [[<- <-]|[Hne2 H2]]; [done| | |eauto];
      simpl in *; rewrite (proj2 (Z.eqb_neq _ _) Hx) in *; simplify_eq.
    + by destruct (Hnt u2 q2).
    + by destruct (Hnt u1 q1).
  - intros u p Hu. apply lookup_insert_Some in Hu as [[<- <-]|[Hne Hu]]; [|eauto].
    destruct (wt_state0 t _ Hp) as [?|(_ & k & ?)]; [by left|done].
  - intros u k k' Hu Hk. apply Hsub in Hu as [Hu _]. apply lookup_insert_Some in Hk as [[<- ?]|[Hne Hk]]; [done|eauto].
  - intros u k y Hu. apply lookup_insert_Some in Hu as [[<- ?]|[Hne Hu]]; [done|eauto].
  - intros u p Hu. apply lookup_insert_Some in Hu as [[<- <-]|[Hne Hu]]; [|eauto]. by rewrite (wt_on0 t _ Hp).
Qed.

Lemma waiting_wake c W H t l x : waiting c W H → pcs c !! t = Some (R_wake l x) →
  state_ (st c) !! x = Some Sleeping →
  waiting (goto c t (set_state (st c) x Running) Idle) W H.
Proof.
  intros [] Hp Hs. pose proof (wt_wake0 t l x Hp) as Hx.
  assert (Htg : target (R_wake l x) = Some x) by (simpl; by rewrite (proj2 (Z.eqb_neq _ _) Hx)).
  destruct (wt_target0 t _ x Hp Htg) as [Hn (m & Hlm & Hor)].
  assert (Hxp : pcs c !! x = Some (A_woken m)).
  { destruct Hor as [Hx'|[? _]]; [|done]. destruct (wt_state0 x _ Hx') as [?|(_ & k & ?)]; congruence. }
  assert (Htx : t ≠ x) by congruence.
  split; unfold goto; simpl; auto.
  - by destruct wt_lists0.
  - intros u k Hu. destruct (wt_in0 u k Hu) as (p & Hp' & Hwp). exists p. rewrite lookup_insert_ne; [done|].
    intros <-. by simplify_eq.
  - intros u p k Hu Hwp. apply lookup_insert_Some in Hu as [[<- <-]|[Hne Hu]]; [done|].
    destruct (decide (x = u)) as [<-|Hux].
    { right. right. rewrite lookup_insert_eq. simplify_eq. simpl in Hwp. by simplify_eq. }
    rewrite lookup_insert_ne by done.
    destruct (wt_asleep0 u p k Hu Hwp) as [?|[(v & q' & Hv & Hxq)|?]]; [by left| |by right; right].
    right. left. exists v, q'. rewrite lookup_insert_ne; [done|]. intros <-. simplify_eq.
  - intros u q y Hu Hy. apply lookup_insert_Some in Hu as [[<- <-]|[Hne Hu]]; [done|].
    assert (Hyx : y ≠ x). { intros ->. apply Hne. by apply (wt_once0 t u (R_wake l x) q x). }
    destruct (wt_target0 u q y Hu Hy) as [Hn' (k & Hlq & Hor')]. split; [done|]. exists k. split; [done|].
    rewrite !lookup_insert_ne; [done|done|]. intros <-. destruct Hor' as [?|[? _]]; congruence.
  - intros u1 u2 q1 q2 y H1 H2 Hy1 Hy2.
    apply lookup_insert_Some in H1 as [[<- <-]|[Hne1 H1]], H2 as [[<- <-]|[Hne2 H2]]; [done..|eauto].
  - intros u p Hu. destruct (decide (x = u)) as [<-|Hux]; [left; by rewrite lookup_insert_eq|].
    rewrite lookup_insert_ne by done. apply lookup_insert_Some in Hu as [[<- <-]|[Hne Hu]]; [|eauto].
    destruct (wt_state0 t _ Hp) as [?|(_ & k & ?)]; [by left|done].
  - intros u k k' Hu Hk. apply lookup_insert_Some in Hk as [[<- ?]|[Hne Hk]]; [done|].
    rewrite lookup_insert_ne; [eauto|]. intros <-. by apply (Hn k).
  - intros u k y Hu. apply lookup_insert_Some in Hu as [[<- ?]|[Hne Hu]]; [done|eauto].
  - intros u p Hu. apply lookup_insert_Some in Hu as [[<- <-]|[Hne Hu]]; [|eauto]. by rewrite (wt_on0 t _ Hp).
Qed.

(** ** Every reachable state *)

(** The objects exist; a mutex is on the list of the thread it names. *)
Record objects (c : config) (H : Z → list Z) : Prop := {
  ob_held : dom (held_by_ (st c)) = dom (mutex_ (st c));
  ob_list_lock : dom (waiters_list_lock_ (st c)) = dom (mutex_ (st c));
  ob_waiters : dom (waiters_list_ (st c)) = dom (mutex_ (st c));
  ob_next_lock : dom (next_lock_on_holding_list_ (st c)) = dom (mutex_ (st c));
  ob_state : dom (state_ (st c)) = dom (pcs c);
  ob_next_thread : dom (next_thread_in_lock_waiters_list_ (st c)) = dom (pcs c);
  ob_waiting_on : dom (lock_waiting_on_ (st c)) = dom (pcs c);
  ob_holding : dom (holding_lock_list_ (st c)) = dom (pcs c);
  ob_null : 0 ∉ dom (mutex_ (st c)) ∧ 0 ∉ dom (pcs c);
  ob_pc t p l : pcs c !! t = Some p → pc_lock p = Some l → l ∈ dom (mutex_ (st c));
  ob_H t l : l ∈ H t ↔ held_by_ (st c) !! l = Some t ∧ t ≠ 0;
}.

Record good (c : config) (own lown : gmap Z Z) (W H : Z → list Z) : Prop := {
  good_owned : owned c own;
  good_list_owned : list_owned c lown;
  good_waiting : waiting c W H;
  good_objects : objects c H;
}.

(** A step that keeps the objects and who holds what. *)
Lemma objects_keep c H t s p q : objects c H → pcs c !! t = Some p →
  (∀ l, pc_lock q = Some l → l ∈ dom (mutex_ (st c))) →
  dom (mutex_ s) = dom (mutex_ (st c)) → held_by_ s = held_by_ (st c) →
  dom (waiters_list_lock_ s) = dom (mutex_ (st c)) → dom (waiters_list_ s) = dom (mutex_ (st c)) →
  dom (next_lock_on_holding_list_ s) = dom (mutex_ (st c)) → dom (state_ s) = dom (pcs c) →
  dom (next_thread_in_lock_waiters_list_ s) = dom (pcs c) → dom (lock_waiting_on_ s) = dom (pcs c) →
  dom (holding_lock_list_ s) = dom (pcs c) → objects (goto c t s q) H.
Proof.
  intros [] Hp Hq E1 E2 E3 E4 E5 E6 E7 E8 E9.
  assert (Ed : dom (<[t := q]> (pcs c)) = dom (pcs c)) by (rewrite dom_insert_lookup_L; [done|eauto]).
  split; unfold goto; simpl; rewrite ?Ed, ?E1, ?E2; auto.
  intros u p' l Hu Hl. apply lookup_insert_Some in Hu as [[<- <-]|[Hne Hu]]; eauto.
Qed.

Lemma dom_insert_same {A} (m : gmap Z A) x v : x ∈ dom m → dom (<[x := v]> m) = dom m.
Proof. intros Hx. rewrite dom_insert_lookup_L; [done|]. by apply elem_of_dom. Qed.

Lemma good_pc_lock c own lown W H t p l : good c own lown W H → pcs c !! t = Some p → pc_lock p = Some l →
  l ∈ dom (mutex_ (st c)).
Proof. intros [_ _ _ Ho]. apply Ho. Qed.

Lemma good_list_word c own lown W H t p l : good c own lown W H → pcs c !! t = Some p → list_pc p = Some l →
  l ∈ dom (mutex_ (st c)) → ∃ lk, waiters_list_lock_ (st c) !! l = Some lk ∧ lk ≠ 0.
Proof.
  intros [_ Hlo _ Ho] Hp Hl Hd. rewrite <-(ob_list_lock _ _ Ho) in Hd. apply elem_of_dom in Hd as [lk Hlk].
  exists lk. split; [done|]. intros ->. pose proof (list_owner _ _ Hlo t p l Hp Hl).
  pose proof (proj1 (list_word _ _ Hlo l 0 Hlk) eq_refl). congruence.
Qed.

(** The possible positions of a step, and the conditions of [waiting_keep]. *)
Ltac pc_cases Hin :=
  repeat (apply elem_of_cons in Hin as [Hin|Hin]; [injection Hin as -> ->|]);
  [..|by apply elem_of_nil in Hin].
Ltac keep_side :=
  solve [done|by left|by right|by intros []|intros _; eexists; reflexivity|by intros ? [= <-]|by intros ? ? [= <- <-]].

(** The parts of the invariant that say who waits and what exists. *)
Lemma waiting_trans c own lown W H t c' : good c own lown W H → t ∈ dom (pcs c) → trans c t c' →
  ∃ W' H', waiting c' W' H' ∧ objects c' H'.
Proof.
  intros Hg Hdt Htr. pose proof Hg as [Ho Hlo Hw Hob].
  assert (Ht : t ≠ 0) by (intros ->; by apply (ob_null _ _ Hob)).
  pose proof (wt_lists _ _ _ Hw) as Hl. pose proof Hob as [O1 O2 O3 O4 O5 O6 O7 O8 [O9 _] O10 O11].
  destruct Htr as [l p Hp Hor Hd|l s Hp Hh Hrm|l p q Hp Hm Hin|l p q m Hp Hm Hm0 Hin|
    l p q Hp Hll Hin|l p m Hp Hll Hl0 Hin|l p q Hp Hin|l x Hp Hx|l s Hp Hpush|l Hp Hs|l Hp Hs|l s Hp Hh Hpush|
    l Hp|l s x Hp Hpop|l x Hp Hs|l x Hp|l Hp].
  - exists W, H. split.
    + apply (waiting_keep c W H H t (st c) Idle); auto; destruct Hor as [->| ->]; try done; by left.
    + apply (objects_keep c H t (st c) Idle); auto. intros k Hk. rewrite <-O1.
      by destruct Hor as [->| ->]; injection Hk as <-.
  - assert (Hin : l ∈ H t) by (by apply O11).
    apply list_elem_of_split in Hin as (l1 & l2 & El).
    assert (Hh' : is_Some (holding_lock_list_ (st c) !! t)) by (apply elem_of_dom; by rewrite O8).
    destruct Hh' as [h Hh']. destruct (remove_holding_ok _ _ _ t l1 l l2 h Hl Ht El Hh') as (hold & nxt & E & Hd1 & Hd2 & Hl').
    rewrite E in Hrm. injection Hrm as <-. exists W, (<[t := l1 ++ l2]> H).
    assert (Hld : l ∈ dom (held_by_ (st c))) by (apply elem_of_dom; eauto).
    split.
    + eapply (waiting_keep c W H _ t _ _ _ Hw Hp); try keep_side; by destruct Hl'.
    + assert (Hob' : objects (goto c t (st c) (R_clear l)) H).
      { apply (objects_keep c H t (st c) Idle); auto. intros k [= <-]. by rewrite <-O1. }
      destruct Hob'. split; unfold goto in *; simpl in *; rewrite ?dom_insert_same, ?Hd1, ?Hd2 by done; auto.
      { exact (ob_null _ _ Hob). } intros u k. pose proof (lists_H_nodup _ _ _ Hl t) as Hnd. rewrite El in Hnd.
      rewrite <-Permutation_middle in Hnd. apply NoDup_cons in Hnd as [Hnl _].
      destruct (decide (l = k)) as [<-|Hlk].
      * rewrite lookup_insert_eq. split; [|intros [[= ?] ?]; congruence].
        destruct (decide (t = u)) as [<-|Htu]; [by rewrite fn_lookup_insert|].
        rewrite fn_lookup_insert_ne by done. rewrite O11. intros [? _]. congruence.
      * rewrite lookup_insert_ne by done. rewrite <-O11.
        destruct (decide (t = u)) as [<-|Htu]; [|by rewrite fn_lookup_insert_ne].
        rewrite fn_lookup_insert, El, !elem_of_app, elem_of_cons. naive_solver.
  - exists W, H. assert (Hd : l ∈ dom (mutex_ (st c))) by (apply elem_of_dom; eauto). split.
    + pc_cases Hin; eapply (waiting_keep c W H H t _ _ _ Hw Hp); try keep_side; by destruct Hl.
    + apply (objects_keep c H t _ p); auto; simpl; [|by apply dom_insert_same]. pc_cases Hin; keep_side.
  - exists W, H. assert (Hd : l ∈ dom (mutex_ (st c))) by (apply elem_of_dom; eauto). split.
    + pc_cases Hin; eapply (waiting_keep c W H H t _ _ _ Hw Hp); try keep_side; by destruct Hl.
    + apply (objects_keep c H t _ p); auto; simpl; [|by apply dom_insert_same]. pc_cases Hin; keep_side.
  - exists W, H. assert (Hd : l ∈ dom (mutex_ (st c))) by (rewrite <-O2; apply elem_of_dom; eauto). split.
    + pc_cases Hin; eapply (waiting_keep c W H H t _ _ _ Hw Hp); try keep_side; by destruct Hl.
    + apply (objects_keep c H t _ p); auto; simpl; [pc_cases Hin; keep_side|].
      rewrite <-O2 in Hd |- *. by apply dom_insert_same.
  - exists W, H. assert (Hd : l ∈ dom (mutex_ (st c))) by (rewrite <-O2; apply elem_of_dom; eauto). split.
    + assert (Hp' : p = A_lock l ∨ p = R_lock l) by set_solver.
      destruct Hp' as [->| ->]; eapply (waiting_keep c W H H t _ _ _ Hw Hp); try keep_side; by destruct Hl.
    + apply (objects_keep c H t _ p); auto; simpl; [eauto|].
      rewrite <-O2 in Hd |- *. by apply dom_insert_same.
  - exists W, H.
    assert (Hd : l ∈ dom (mutex_ (st c))) by (pc_cases Hin; by apply (O10 t _ l Hp)). split.
    + pc_cases Hin; eapply (waiting_keep c W H H t _ _ _ Hw Hp); try keep_side; by destruct Hl.
    + apply (objects_keep c H t _ p); auto; simpl; [pc_cases Hin; keep_side|].
      rewrite <-O2 in Hd |- *. by apply dom_insert_same.
  - exists W, H. assert (Hd : l ∈ dom (mutex_ (st c))) by (by apply (O10 t _ l Hp)). split.
    + eapply (waiting_keep c W H H t _ _ _ Hw Hp); try keep_side; by destruct Hl.
    + apply (objects_keep c H t _ (R_unlock l x)); auto; simpl; [keep_side|].
      rewrite <-O2 in Hd |- *. by apply dom_insert_same.
  - assert (Hd : l ∈ dom (mutex_ (st c))) by (by apply (O10 t _ l Hp)).
    destruct (waiting_push c W H t l Hw Ht Hp) as (s' & E & Hw').
    { by apply (good_list_word c own lown W H t (A_push l)). }
    { apply elem_of_dom. by rewrite O3. }
    rewrite E in Hpush. injection Hpush as ->. exists (<[l := t :: W l]> W), H. split; [done|].
    unfold pushFrontCurrentThreadToWaitersList in E. res_inv E.
    apply (objects_keep c H t _ (A_push l)); auto; simpl; try (rewrite dom_insert_same; [done|]); try congruence.
  - exists W, H. split; [by apply waiting_sleep|].
    apply (objects_keep c H t _ (A_sleep l)); auto; simpl; [intros k [= <-]; by apply (O10 t _ l Hp)|].
    rewrite dom_insert_same; congruence.
  - exists W, H. split; [by apply waiting_resume|].
    apply (objects_keep c H t _ (A_woken l)); auto; simpl; [intros k [= <-]; by apply (O10 t _ l Hp)|].
    rewrite dom_insert_same; congruence.
  - assert (Hd : l ∈ dom (mutex_ (st c))) by (by apply (O10 t _ l Hp)).
    assert (Hl0 : l ≠ 0) by (by intros ->).
    assert (Hnot : ∀ u, l ∉ H u) by (intros u [Hu Hu0]%O11; congruence).
    assert (Hh' : is_Some (holding_lock_list_ (st c) !! t)) by (apply elem_of_dom; by rewrite O8).
    destruct Hh' as [h Hh'].
    destruct (push_holding_ok _ _ _ t l h Hl Ht Hl0 Hnot Hh') as [E Hl']. rewrite E in Hpush. injection Hpush as <-.
    exists W, (<[t := l :: H t]> H). split.
    + eapply (waiting_keep c W H _ t _ _ _ Hw Hp); try keep_side. by destruct Hl'.
    + assert (Hob' : objects (goto c t (st c) Idle) H) by (by apply (objects_keep c H t (st c) (A_take l))).
      destruct Hob'. split; unfold goto in *; simpl in *; rewrite ?dom_insert_same by congruence; auto.
      { exact (ob_null _ _ Hob). } intros u k. destruct (decide (l = k)) as [<-|Hlk].
      * rewrite lookup_insert_eq. destruct (decide (t = u)) as [<-|Htu].
        -- rewrite fn_lookup_insert. split; [done|]. intros _. left.
        -- rewrite fn_lookup_insert_ne by done. split; [by intros ?%Hnot|]. intros [[= ?] _]. done.
      * rewrite lookup_insert_ne by done. rewrite <-O11.
        destruct (decide (t = u)) as [<-|Htu]; [|by rewrite fn_lookup_insert_ne].
        rewrite fn_lookup_insert, elem_of_cons. naive_solver.
  - exists W, H. assert (Hd : l ∈ dom (mutex_ (st c))) by (by apply (O10 t _ l Hp)). split.
    + eapply (waiting_keep c W H H t _ _ _ Hw Hp); try keep_side; by destruct Hl.
    + apply (objects_keep c H t _ (R_clear l)); auto; simpl; [keep_side|]. by apply dom_insert_same.
  - assert (Hd : l ∈ dom (mutex_ (st c))) by (by apply (O10 t _ l Hp)).
    destruct (waiting_pop c W H lown t l Hw Hlo Hp) as (s' & x' & W' & E & Hw' & _ & _ & Hd1 & Hd2 & E1 & E2).
    { by apply (good_list_word c own lown W H t (R_pop l)). }
    { apply elem_of_dom. by rewrite O3. }
    rewrite E in Hpop. injection Hpop as -> ->. exists W', H. split; [done|].
    apply pop_same in E as []. apply (objects_keep c H t _ (R_pop l)); auto; try congruence. keep_side.
  - exists W, H. split; [by apply (waiting_wake c W H t l x)|].
    apply (objects_keep c H t _ (R_wake l x)); auto; simpl; [done|].
    rewrite dom_insert_same; [done|]. apply elem_of_dom. eauto.
  - exists W, H. split.
    + eapply (waiting_keep c W H H t _ _ _ Hw Hp); try keep_side. intros k y [= -> ->]. by eapply wt_wake.
    + apply (objects_keep c H t _ (R_wake l x)); auto. intros k Hk. by apply (O10 t _ k Hp).
  - exists W, H. split.
    + eapply (waiting_keep c W H H t _ _ _ Hw Hp); keep_side.
    + apply (objects_keep c H t _ (A_check l)); auto. intros k Hk. by apply (O10 t _ k Hp).
Qed.

(** ** No lost wake-up *)

(** A running thread at [q] will try the mutex [l] or wake one of its waiters. *)
Definition attending (q : pc) (l : Z) : Prop :=
  match q with
  | R_lock k | R_pop k | R_wake k _ | A_try k | A_woken k => k = l
  | R_unlock k x => k = l ∧ x ≠ 0
  | _ => False
  end.

(** A thread that is about to wait for [l]. *)
Definition to_wait (p : pc) (l : Z) : Prop := p = A_check l ∨ p = A_push l.

Definition taken (s : store) (l : Z) : Prop := ∃ m, mutex_ s !! l = Some m ∧ m ≠ 0.

Definition attended (c : config) (l : Z) : Prop :=
  taken (st c) l ∨
  ∃ u q, pcs c !! u = Some q ∧ attending q l ∧ state_ (st c) !! u = Some Running.

(** Whoever waits, or is about to, is not forgotten. *)
Record hopeful (c : config) : Prop := {
  hope_waiters l h : waiters_list_ (st c) !! l = Some h → h ≠ 0 → attended c l;
  hope_push u p l : pcs c !! u = Some p → to_wait p l →
    taken (st c) l ∨ ∃ v, pcs c !! v = Some (R_lock l) ∧ state_ (st c) !! v = Some Running;
}.

Lemma attended_keep c t s p q l : pcs c !! t = Some p → attended c l →
  (taken (st c) l → attended (goto c t s q) l) →
  (∀ u, u ≠ t → state_ (st c) !! u = Some Running → state_ s !! u = Some Running) →
  (attending p l → state_ (st c) !! t = Some Running → attended (goto c t s q) l) →
  attended (goto c t s q) l.
Proof.
  intros Hp [Hm|(u & r & Hu & Hr & Hs)] Hmm Hss Hat; [auto|].
  destruct (decide (t = u)) as [<-|Hne]; [apply Hat; [congruence|done]|].
  right. exists u, r. unfold goto. simpl. rewrite lookup_insert_ne by done. auto.
Qed.

(** A step with no effect on sleeping, waiters and free mutexes. *)
Lemma hopeful_keep c t s p q : hopeful c → pcs c !! t = Some p →
  waiters_list_ s = waiters_list_ (st c) →
  (∀ l, taken (st c) l → taken s l) →
  (∀ u, state_ (st c) !! u = Some Running →
    state_ s !! u = Some Running ∨ u = t ∧ ∀ l, ¬ attending p l) →
  (∀ l, attending p l → attending q l ∨ taken s l) →
  (∀ l, p = R_lock l → q = R_lock l ∨ ∀ u r, pcs c !! u = Some r → ¬ to_wait r l) →
  (∀ l, to_wait q l → taken s l ∨ to_wait p l) → hopeful (goto c t s q).
Proof.
  intros [Hw Hpu] Hp Ew Hm Hst Hat Hrl Hq. split; unfold goto; simpl; rewrite ?Ew.
  - intros l h Hl Hh. apply (attended_keep c t s p q l Hp); eauto; [by left; apply Hm| |].
    { intros u Hne Hu. destruct (Hst u Hu) as [?|[? _]]; done. }
    intros Ha Hs. destruct (Hat l Ha) as [Ha'|?]; [|by left]. right. exists t, q. unfold goto. simpl.
    rewrite lookup_insert_eq. split_and!; [done..|]. destruct (Hst t Hs) as [?|[_ Hn]]; [done|by destruct (Hn l)].
  - intros u r l Hu Hr.
    assert (Hor : taken s l ∨ ∃ u' r', pcs c !! u' = Some r' ∧ to_wait r' l).
    { apply lookup_insert_Some in Hu as [[<- <-]|[Hne Hu]]; [|eauto]. destruct (Hq l Hr); eauto. }
    destruct Hor as [?|(u' & r' & Hu' & Hr')]; [by left|].
    destruct (Hpu u' r' l Hu' Hr') as [?|(v & Hv & Hs)]; [left; auto|]. destruct (decide (t = v)) as [<-|Htv].
    + right. exists t. rewrite lookup_insert_eq. simplify_eq.
      destruct (Hrl l eq_refl) as [->|Hno]; [|by destruct (Hno u' r')]. split; [done|].
      destruct (Hst t Hs) as [?|[_ Hn]]; [done|by destruct (Hn l)].
    + right. exists v. rewrite lookup_insert_ne by done. split; [done|].
      destruct (Hst v Hs) as [?|[? _]]; [done|congruence].
Qed.

Lemma taken_set s l k v : v ≠ 0 → l ∈ dom (mutex_ s) → taken (set_mutex s l v) l ∧ (taken s k → taken (set_mutex s l v) k).
Proof.
  intros Hv Hl. unfold taken. simpl. split; [exists v; by rewrite lookup_insert_eq|].
  intros (m & Hm & Hm0). destruct (decide (l = k)) as [<-|Hne].
  - exists v. by rewrite lookup_insert_eq.
  - exists m. by rewrite lookup_insert_ne.
Qed.

Lemma good_running c own lown W H t p : good c own lown W H → pcs c !! t = Some p →
  (∀ l, p ≠ A_woken l) → state_ (st c) !! t = Some Running.
Proof.
  intros Hg Hp Hn. destruct (wt_state _ _ _ (good_waiting _ _ _ _ _ Hg) t p Hp) as [?|(_ & l & ->)]; [done|].
  by destruct (Hn l).
Qed.

Lemma unlink_loop_waiters fuel : ∀ s x l s', unlink_loop fuel s x l = Val s' → waiters_list_ s' = waiters_list_ s.
Proof.
  induction fuel as [|fuel IH]; intros s x l s'; cbn [unlink_loop]; [done|].
  destruct (x =? 0); [by intros [= <-]|]. intros H. res_inv H.
  destruct (r =? l); res_inv H; [done|eauto].
Qed.

Lemma remove_holding_waiters s t l s' : removeFromCurrentThreadHoldingList s t l = Val s' →
  waiters_list_ s' = waiters_list_ s.
Proof.
  unfold removeFromCurrentThreadHoldingList. destruct (t =? 0); [by intros [= <-]|].
  intros H. res_inv H. destruct (r =? l); res_inv Hr0; [done|].
  by apply unlink_loop_waiters in Hr0.
Qed.

Lemma push_holding_waiters s t l s' : pushFrontToCurrentThreadHoldingList s t l = Val s' →
  waiters_list_ s' = waiters_list_ s.
Proof.
  unfold pushFrontToCurrentThreadHoldingList. destruct (t =? 0); [by intros [= <-]|]. intros H. by res_inv H.
Qed.

(** The steps that hand a wait on: going to sleep, giving the mutex free, taking
    a waiter off the list and waking it. *)
Lemma hopeful_push c t l s : hopeful c → pcs c !! t = Some (A_push l) →
  pushFrontCurrentThreadToWaitersList (set_waiting_on (st c) t l) t l = Val s → hopeful (goto c t s (A_release l)).
Proof.
  intros [Hw Hpu] Hp E. unfold pushFrontCurrentThreadToWaitersList in E. res_inv E. simpl in *.
  assert (Hkeep : ∀ k, attended c k → attended (goto c t (set_waiters (set_next_thread (set_waiting_on (st c) t l) t r2) l t) (A_release l)) k).
  { intros k Ha. apply (attended_keep c t _ (A_push l) _ k Hp Ha); auto; [by left|by intros []]. }
  split; unfold goto; simpl.
  - intros k h Hk Hh. apply Hkeep. apply lookup_insert_Some in Hk as [[<- _]|[Hne Hk]]; [|eauto].
    destruct (Hpu t _ l Hp ltac:(by right)) as [?|(v & Hv & Hs)]; [by left|right]. exists v, (R_lock l). done.
  - intros u p k Hu Hk. apply lookup_insert_Some in Hu as [[<- <-]|[Hne Hu]]; [by destruct Hk|].
    destruct (Hpu u p k Hu Hk) as [?|(v & Hv & Hs)]; [by left|]. right. exists v.
    rewrite lookup_insert_ne; [done|]. intros <-. by simplify_eq.
Qed.

Lemma hopeful_clear c own lown W H t l : good c own lown W H → hopeful c → pcs c !! t = Some (R_clear l) →
  hopeful (goto c t (set_mutex (st c) l 0) (R_lock l)).
Proof.
  intros Hg [Hw Hpu] Hp. assert (Hrun : state_ (st c) !! t = Some Running) by (by eapply good_running).
  assert (Hother : ∀ k, k ≠ l → taken (st c) k → taken (set_mutex (st c) l 0) k).
  { intros k Hk (m & Hm & Hm0). exists m. simpl. by rewrite lookup_insert_ne. }
  split; unfold goto; simpl.
  - intros k h Hk Hh. destruct (decide (k = l)) as [->|Hne].
    + right. exists t, (R_lock l). simpl. by rewrite lookup_insert_eq.
    + apply (attended_keep c t _ (R_clear l) _ k Hp); eauto; [by left; apply Hother|by intros []].
  - intros u p k Hu Hk. apply lookup_insert_Some in Hu as [[<- <-]|[Hne Hu]]; [by destruct Hk|].
    destruct (decide (k = l)) as [->|Hkl].
    + right. exists t. by rewrite lookup_insert_eq.
    + destruct (Hpu u p k Hu Hk) as [?|(v & Hv & Hs)]; [left; by apply Hother|]. right. exists v.
      rewrite lookup_insert_ne; [done|]. intros <-. by simplify_eq.
Qed.

Lemma hopeful_pop c own lown W H t l s x : good c own lown W H → hopeful c → pcs c !! t = Some (R_pop l) →
  popBackThreadFromWaitersList (st c) l = Val (s, x) → hopeful (goto c t s (R_unlock l x)).
Proof.
  intros Hg Hh Hp Hpop. assert (Hrun : state_ (st c) !! t = Some Running) by (by eapply good_running).
  pose proof (good_waiting _ _ _ _ _ Hg) as Hw. pose proof (good_objects _ _ _ _ _ Hg) as Hob.
  assert (Hd : l ∈ dom (mutex_ (st c))) by (by eapply (ob_pc _ _ Hob)).
  destruct (good_list_word c own lown W H t _ l Hg Hp eq_refl Hd) as (lk & Hlk & Hlk0).
  assert (Hn : is_Some (waiters_list_ (st c) !! l)) by (apply elem_of_dom; by rewrite (ob_waiters _ _ Hob)).
  destruct Hn as [n Hn]. pose proof (lists_W _ _ _ (wt_lists _ _ _ Hw) l n Hn) as Hch.
  assert (Hoth : (x ≠ 0 ∨ n = 0) ∧ state_ s = state_ (st c) ∧ mutex_ s = mutex_ (st c) ∧
    ∀ k h, k ≠ l ∨ x = 0 → waiters_list_ s !! k = Some h → waiters_list_ (st c) !! k = Some h).
  { pose proof (pop_same _ _ _ _ Hpop) as [? _ _ ? _].
    destruct (pop_ok _ _ _ l lk n (wt_lists _ _ _ Hw) Hlk Hlk0 Hn) as [[HW E]|(ws & y & s' & HW & Hy & E & _)];
      rewrite Hpop in E; injection E as -> ->.
    - rewrite HW in Hch. simpl in Hch. split_and!; auto.
    - split_and!; [by left|done|done|]. intros k h [Hk|?] Hkh; [|done].
      assert (Hfr : waiters_list_ s' !! k = waiters_list_ (st c) !! k).
      { revert Hpop. unfold popBackThreadFromWaitersList. intros Hpop. res_inv Hpop.
        destruct (r1 =? 0); [by res_inv Hpop|]. res_inv Hpop. destruct (r2 =? 0).
        - res_inv Hpop. simpl. by rewrite lookup_insert_ne.
        - by rewrite (pop_loop_waiters _ _ _ _ _ Hpop). }
      congruence. }
  destruct Hoth as (Hx & Es & Em & Hwl). destruct Hh as [Hwt Hpu]. split; unfold goto; simpl.
  - intros k h Hk Hh. destruct (decide (k = l)) as [->|Hne].
    + destruct Hx as [Hx| ->]; [|].
      * right. exists t, (R_unlock l x). simpl. rewrite lookup_insert_eq, Es. auto.
      * destruct (decide (x = 0)) as [->|Hx].
        -- apply Hwl in Hk; [|by right]. congruence.
        -- right. exists t, (R_unlock l x). simpl. rewrite lookup_insert_eq, Es. auto.
    + apply (attended_keep c t s (R_pop l) _ k Hp).
      * apply Hwl in Hk; [eauto|by left].
      * unfold attended, taken, goto. simpl. rewrite Em. by left.
      * intros u _. by rewrite Es.
      * simpl. intros ->. done.
  - intros u p k Hu Hk. apply lookup_insert_Some in Hu as [[<- <-]|[Hne Hu]]; [by destruct Hk|].
    destruct (Hpu u p k Hu Hk) as [?|(v & Hv & Hs)]; [left; unfold taken; by rewrite Em|]. right. exists v.
    rewrite lookup_insert_ne, Es; [done|]. intros <-. by simplify_eq.
Qed.

Lemma hopeful_wake c own lown W H t l x : good c own lown W H → hopeful c → pcs c !! t = Some (R_wake l x) →
  state_ (st c) !! x = Some Sleeping → hopeful (goto c t (set_state (st c) x Running) Idle).
Proof.
  intros Hg [Hwt Hpu] Hp Hs. pose proof (good_waiting _ _ _ _ _ Hg) as Hw.
  pose proof (wt_wake _ _ _ Hw t l x Hp) as Hx0.
  assert (Htg : target (R_wake l x) = Some x) by (simpl; by rewrite (proj2 (Z.eqb_neq _ _) Hx0)).
  destruct (wt_target _ _ _ Hw t _ x Hp Htg) as [_ (m & [= <-] & Hor)].
  assert (Hxp : pcs c !! x = Some (A_woken l)).
  { destruct Hor as [Hx|[? _]]; [|done]. destruct (wt_state _ _ _ Hw x _ Hx) as [?|(_ & k & ?)]; congruence. }
  assert (Hst : ∀ u, state_ (st c) !! u = Some Running → <[x := Running]> (state_ (st c)) !! u = Some Running).
  { intros u Hu. destruct (decide (x = u)) as [<-|Hne]; [by rewrite lookup_insert_eq|by rewrite lookup_insert_ne]. }
  split; unfold goto; simpl.
  - intros k h Hk Hh. apply (attended_keep c t _ (R_wake l x) _ k Hp); eauto; [by left|].
    simpl. intros <- _. right. exists x, (A_woken l). simpl.
    rewrite lookup_insert_ne by (intros <-; congruence). by rewrite lookup_insert_eq.
  - intros u p k Hu Hk. apply lookup_insert_Some in Hu as [[<- <-]|[Hne Hu]]; [by destruct Hk|].
    destruct (Hpu u p k Hu Hk) as [?|(v & Hv & Hsv)]; [by left|]. right. exists v.
    rewrite lookup_insert_ne; [split; [done|auto]|]. intros <-. by simplify_eq.
Qed.

(** The side conditions of [hopeful_keep]. *)
Ltac hope_side :=
  simpl; solve [done|by intros ? []|by intros ? [?|?]|by intros ? [= <-]|unfold to_wait; naive_solver].

Lemma hopeful_trans c own lown W H t c' : good c own lown W H → hopeful c → trans c t c' → hopeful c'.
Proof.
  intros Hg Hh Htr. pose proof Hg as [Ho Hlo Hw Hob].
  assert (Hdm : ∀ l, l ∈ dom (mutex_ (st c)) → taken (set_mutex (st c) l 1) l ∧ ∀ k, taken (st c) k → taken (set_mutex (st c) l 1) k).
  { intros l Hl. split; [by refine (proj1 (taken_set (st c) l l 1 _ Hl))|intros k; by refine (proj2 (taken_set (st c) l k 1 _ Hl))]. }
  destruct Htr as [l p Hp Hor Hd|l s Hp Hhe Hrm|l p q Hp Hm Hin|l p q m Hp Hm Hm0 Hin|
    l p q Hp Hll Hin|l p m Hp Hll Hl0 Hin|l p q Hp Hin|l x Hp Hx|l s Hp Hpush|l Hp Hs|l Hp Hs|l s Hp Hhe Hpush|
    l Hp|l s x Hp Hpop|l x Hp Hs|l x Hp|l Hp].
  - destruct Hor as [->| ->]; apply (hopeful_keep c t _ Idle); auto; hope_side.
  - pose proof (remove_holding_waiters _ _ _ _ Hrm) as Ew. apply remove_holding_same in Hrm as [].
    apply (hopeful_keep c t _ Idle); auto; unfold taken; simpl; rewrite ?same_mutex0, ?same_state0; auto; hope_side.
  - destruct (Hdm l) as [H1 H2]; [apply elem_of_dom; eauto|]. clear Hdm Hg Hw Ho Hob Hlo.
    apply (hopeful_keep c t _ p); auto; pc_cases Hin; hope_side.
  - destruct (Hdm l) as [H1 H2]; [apply elem_of_dom; eauto|]. clear Hdm Hg Hw Ho Hob Hlo.
    apply (hopeful_keep c t _ p); auto; pc_cases Hin; hope_side.
  - assert (Hno : ∀ u r, pcs c !! u = Some r → ¬ to_wait r l).
    { intros u r Hu Hr. assert (Hrl : list_pc r = Some l) by (by destruct Hr as [->| ->]).
      pose proof (list_owner _ _ Hlo u r l Hu Hrl). pose proof (proj1 (list_word _ _ Hlo l 0 Hll) eq_refl). congruence. }
    clear Hdm Hg Hw Ho Hob Hlo. apply (hopeful_keep c t _ p); auto; pc_cases Hin; hope_side.
  - apply (hopeful_keep c t _ p); auto.
  - clear Hdm Hg Hw Ho Hob Hlo. apply (hopeful_keep c t _ p); auto; pc_cases Hin; hope_side.
  - clear Hdm Hg Hw Ho Hob Hlo. apply (hopeful_keep c t _ (R_unlock l x)); auto; hope_side.
  - by apply hopeful_push.
  - apply (hopeful_keep c t _ (A_sleep l)); auto; try hope_side. simpl. intros u Hu.
    destruct (decide (t = u)) as [<-|Hne]; [right; split; [done|by intros ? []]|left; by rewrite lookup_insert_ne].
  - clear Hdm Hg Hw Ho Hob Hlo. apply (hopeful_keep c t _ (A_woken l)); auto; hope_side.
  - pose proof (push_holding_waiters _ _ _ _ Hpush) as Ew. apply push_holding_same in Hpush as [].
    apply (hopeful_keep c t _ (A_take l)); auto; unfold taken; simpl; rewrite ?same_mutex0, ?same_state0; auto; hope_side.
  - by apply (hopeful_clear c own lown W H).
  - by apply (hopeful_pop c own lown W H t l s x).
  - by apply (hopeful_wake c own lown W H t l x).
  - apply (hopeful_keep c t _ (R_wake l x)); auto.
  - apply (hopeful_keep c t _ (A_check l)); auto; try hope_side.
Qed.

(** ** Reachable states *)

(** Threads [ts] and free mutexes [ls]. *)
Definition fresh (ts ls : gset Z) : config :=
  mkConfig (mkStore (gset_to_gmap 0 ts) (gset_to_gmap 0 ts) (gset_to_gmap 0 ts) (gset_to_gmap Running ts)
              (gset_to_gmap 0 ls) (gset_to_gmap 0 ls) (gset_to_gmap 0 ls) (gset_to_gmap 0 ls) (gset_to_gmap 0 ls))
           (gset_to_gmap Idle ts).

Definition moves (c c' : config) : Prop := ∃ t o seen, step c t o seen = Val c'.
Definition reachable (ts ls : gset Z) (c : config) : Prop :=
  0 ∉ ts ∧ 0 ∉ ls ∧ rtc moves (fresh ts ls) c.

Lemma fresh_good ts ls : 0 ∉ ts → 0 ∉ ls → good (fresh ts ls) ∅ ∅ (const []) (const []) ∧ hopeful (fresh ts ls).
Proof.
  intros Ht Hl.
  assert (Hg : ∀ {A} (X : gset Z) (x : Z) (v w : A), gset_to_gmap v X !! x = Some w → w = v).
  { intros A X x v w. rewrite lookup_gset_to_gmap_Some. naive_solver. }
  split; [split|].
  - split; simpl.
    + intros l m Hm. apply Hg in Hm as ->. by rewrite lookup_empty.
    + intros t p l Hp. by apply Hg in Hp as ->.
    + intros l h Hh. by apply Hg in Hh as ->.
    + intros l t. by rewrite lookup_empty.
  - split; simpl.
    + intros l m Hm. apply Hg in Hm as ->. by rewrite lookup_empty.
    + intros t p l Hp. by apply Hg in Hp as ->.
    + intros l t. by rewrite lookup_empty.
  - split; simpl.
    + split; simpl; try done.
      * intros l h Hh. by apply Hg in Hh as ->.
      * intros l. constructor.
      * intros l1 l2 t Hin. by apply elem_of_nil in Hin.
      * intros t h Hh. by apply Hg in Hh as ->.
      * intros t. constructor.
      * intros t1 t2 l Hin. by apply elem_of_nil in Hin.
    + intros t l Hin. by apply elem_of_nil in Hin.
    + intros t p l Hp. by apply Hg in Hp as ->.
    + intros u q t Hq. by apply Hg in Hq as ->.
    + intros u1 u2 q1 q2 t Hq. by apply Hg in Hq as ->.
    + intros t p Hp. left. rewrite lookup_gset_to_gmap_Some in Hp. destruct Hp as [Hp _].
      by rewrite lookup_gset_to_gmap_Some.
    + intros t l k Hin. by apply elem_of_nil in Hin.
    + intros u l x Hp. by apply Hg in Hp.
    + intros t p Hp. rewrite lookup_gset_to_gmap_Some in Hp. destruct Hp as [Hp <-].
      by rewrite lookup_gset_to_gmap_Some.
  - split; simpl; rewrite ?dom_gset_to_gmap; try done.
    + intros t p l Hp. by apply Hg in Hp as ->.
    + intros t l. rewrite elem_of_nil. split; [done|]. intros [Hh H0]. by apply Hg in Hh.
  - split; simpl.
    + intros l h Hh. by apply Hg in Hh as ->.
    + intros u p l Hp. apply Hg in Hp as ->. by intros [?|?].
Qed.

Lemma step_in_dom c t o seen c' : step c t o seen = Val c' → t ∈ dom (pcs c).
Proof. unfold step. intros H. res_inv H. apply rd_Val in Hr0. apply elem_of_dom. eauto. Qed.

Lemma good_moves c c' own lown W H : good c own lown W H → hopeful c → moves c c' →
  ∃ own' lown' W' H', good c' own' lown' W' H' ∧ hopeful c'.
Proof.
  intros Hg Hh (t & o & seen & E). pose proof (step_in_dom _ _ _ _ _ E) as Hd.
  assert (Ht : t ≠ 0) by (intros ->; by apply (ob_null _ _ (good_objects _ _ _ _ _ Hg))).
  pose proof (step_trans _ _ _ _ _ Ht E) as Htr.
  destruct (owned_trans c own t c' (good_owned _ _ _ _ _ Hg) Ht (ob_held _ _ (good_objects _ _ _ _ _ Hg)) Htr) as [own' ?].
  destruct (list_owned_trans c lown t c' (good_list_owned _ _ _ _ _ Hg) Htr) as [lown' ?].
  destruct (waiting_trans c own lown W H t c' Hg Hd Htr) as (W' & H' & ? & ?).
  exists own', lown', W', H'. split; [by split|]. by apply (hopeful_trans c own lown W H t).
Qed.

Lemma reachable_good ts ls c : reachable ts ls c → ∃ own lown W H, good c own lown W H ∧ hopeful c.
Proof.
  intros (Ht & Hl & Hrtc). destruct (fresh_good ts ls Ht Hl) as [Hg Hh].
  assert (Hex : ∃ own lown W H, good (fresh ts ls) own lown W H ∧ hopeful (fresh ts ls)) by eauto 10.
  revert Hex. clear Hg Hh. induction Hrtc as [|c1 c2 c3 Hm _ IH]; [done|].
  intros (own & lown & W & H & Hg & Hh). apply IH. by apply (good_moves c1 c2 own lown W H).
Qed.

(** *** Steps succeed *)

(** Apart from the checks at the start of a call and before going to sleep, a
    running thread's step fails no assertion. *)
Lemma good_step c own lown W H t p o seen : good c own lown W H → pcs c !! t = Some p →
  state_ (st c) !! t = Some Running → p ≠ Idle → (∀ l, p ≠ A_check l) → is_val (step c t o seen) = true.
Proof.
  intros Hg Hp Hs Hni Hnc. pose proof Hg as [Ho Hlo Hw [O1 O2 O3 O4 O5 O6 O7 O8 [O9 O9'] O10 O11]].
  assert (Hd : t ∈ dom (pcs c)) by (apply elem_of_dom; eauto).
  assert (Ht : t ≠ 0) by (by intros ->).
  unfold step. rewrite (rd_Some _ _ _ Hs). cbn [mbind res_bind]. rewrite (rd_Some _ _ _ Hp). cbn [mbind res_bind].
  rewrite bool_decide_false by auto.
  assert (Hrd : ∀ A (m : gmap Z A) l, pc_lock p = Some l → dom m = dom (mutex_ (st c)) → ∃ v, m !! l = Some v).
  { intros A m l Hl Em. apply elem_of_dom. rewrite Em. by apply (O10 t p). }
  destruct p as [|l|l|l|l|l|l|l|l|l|l|l|l|l|l|l x|l x]; try done.
  - destruct (Hrd _ (mutex_ (st c)) l eq_refl eq_refl) as [m Hm]. unfold testSetMutex. rewrite (rd_Some _ _ _ Hm). simpl.
    destruct (m =? 0); [done|]. unfold checkCurrentThreadStillWaitingOnAnotherLock.
    rewrite (proj2 (Z.eqb_neq _ _) Ht). simpl. by rewrite (rd_Some _ _ _ (wt_on _ _ _ Hw t _ Hp)).
  - destruct (Hrd _ (waiters_list_lock_ (st c)) l eq_refl O2) as [m Hm]. unfold testSetListLock. by rewrite (rd_Some _ _ _ Hm).
  - destruct (Hrd _ (mutex_ (st c)) l eq_refl eq_refl) as [m Hm]. unfold testSetMutex. by rewrite (rd_Some _ _ _ Hm).
  - by destruct (Hnc l).
  - destruct (waiting_push c W H t l Hw Ht Hp) as (s' & E & _).
    + apply (good_list_word c own lown W H t (A_push l)); auto. by apply (O10 t _ l Hp).
    + destruct (Hrd _ (waiters_list_ (st c)) l eq_refl O3) as [m Hm]. eauto.
    + by rewrite E.
  - destruct (own_pc _ _ Ho t _ l Hp eq_refl) as [_ Hh]. rewrite (rd_Some _ _ _ Hh). simpl.
    assert (Hx : is_Some (holding_lock_list_ (st c) !! t)) by (apply elem_of_dom; by rewrite O8). destruct Hx as [h Hx].
    unfold pushFrontToCurrentThreadHoldingList. by rewrite (proj2 (Z.eqb_neq _ _) Ht), (rd_Some _ _ _ Hx).
  - destruct (Hrd _ (mutex_ (st c)) l eq_refl eq_refl) as [m Hm]. unfold testSetMutex. by rewrite (rd_Some _ _ _ Hm).
  - destruct (Hrd _ (waiters_list_lock_ (st c)) l eq_refl O2) as [m Hm]. unfold testSetListLock. by rewrite (rd_Some _ _ _ Hm).
  - destruct (waiting_pop c W H lown t l Hw Hlo Hp) as (s' & x & W' & E & _).
    + apply (good_list_word c own lown W H t (R_pop l)); auto. by apply (O10 t _ l Hp).
    + destruct (Hrd _ (waiters_list_ (st c)) l eq_refl O3) as [m Hm]. eauto.
    + by rewrite E.
  - pose proof (wt_wake _ _ _ Hw t l x Hp) as Hx.
    assert (Htg : target (R_wake l x) = Some x) by (simpl; by rewrite (proj2 (Z.eqb_neq _ _) Hx)).
    destruct (wt_target _ _ _ Hw t _ x Hp Htg) as [_ (m & _ & Hor)].
    assert (Hsx : is_Some (state_ (st c) !! x)).
    { apply elem_of_dom. rewrite O5. apply elem_of_dom. destruct Hor as [?|[? _]]; eauto. }
    destruct Hsx as [sx Hsx]. rewrite (rd_Some _ _ _ Hsx). simpl. by case_bool_decide.
Qed.

(** The check before going to sleep fails only in the search for a deadlock, and
    so does the start of an acquisition; a release fails only for a thread that
    does not hold the mutex. *)
Lemma good_checks c own lown W H t p o seen : good c own lown W H → pcs c !! t = Some p →
  state_ (st c) !! t = Some Running →
  (∀ l, p = A_check l ∨ p = Idle ∧ (o = Acquire l ∨ o = AcquireNonBlocking l) →
     is_val (step c t o seen) = is_val (checkForDeadLock (st c) seen t l)) ∧
  (∀ l, p = Idle → o = Release l → is_val (step c t o seen) = bool_decide (held_by_ (st c) !! l = Some t)).
Proof.
  intros Hg Hp Hs. pose proof Hg as [Ho Hlo Hw [O1 O2 O3 O4 O5 O6 O7 O8 [O9 O9'] O10 O11]].
  assert (Hd : t ∈ dom (pcs c)) by (apply elem_of_dom; eauto). assert (Ht : t ≠ 0) by (by intros ->).
  unfold step. rewrite (rd_Some _ _ _ Hs). cbn [mbind res_bind]. rewrite (rd_Some _ _ _ Hp). cbn [mbind res_bind].
  rewrite bool_decide_false by auto.
  assert (Hck : ∀ l, wait_pc p = None →
    doChecksBeforeWaiting true (st c) seen t l = checkForDeadLock (st c) seen t l).
  { intros l Hn. unfold doChecksBeforeWaiting, checkCurrentThreadStillWaitingOnAnotherLock. cbn [checkInterrupts kassert mbind res_bind].
    by rewrite (proj2 (Z.eqb_neq _ _) Ht), (rd_Some _ _ _ (wt_on _ _ _ Hw t _ Hp)), Hn. }
  split.
  - intros l [->|[-> [->| ->]]]; cbn [enter]; rewrite Hck by done; by destruct (checkForDeadLock (st c) seen t l).
  - intros l -> ->. cbn [enter]. unfold checkInvalidRelease.
    destruct (held_by_ (st c) !! l) as [x|] eqn:Ex; [rewrite (rd_Some _ _ _ Ex)|by unfold rd; rewrite Ex].
    cbn [mbind res_bind]. destruct (Z.eqb_spec x t) as [->|Hne]; [|by rewrite bool_decide_false by congruence].
    rewrite bool_decide_true by done. cbn [kassert mbind res_bind].
    assert (Hl : l ∈ H t) by by apply O11. apply list_elem_of_split in Hl as (l1 & l2 & Hl).
    assert (Hx : is_Some (holding_lock_list_ (st c) !! t)) by (apply elem_of_dom; by rewrite O8). destruct Hx as [h Hx].
    by destruct (remove_holding_ok (st c) W H t l1 l l2 h (wt_lists _ _ _ Hw) Ht Hl Hx) as (hold & nxt & -> & _).
Qed.

(** ** The deadlock check *)

Section deadlock.
Context (s : store) (W H : Z → list Z) (start : Z).
Context (Hlists : lists s W H).
Context (Hwaiter : ∀ l w, w ∈ W l → w ∈ dom (state_ s) ∧ is_Some (holding_lock_list_ s !! w)).
Context (Hlock : ∀ t l, l ∈ H t → is_Some (waiters_list_ s !! l)).
Context (Hthreads : dom (next_thread_in_lock_waiters_list_ s) = dom (state_ s)).
Context (Hlocks : dom (next_lock_on_holding_list_ s) = dom (mutex_ s)).

(** [b] waits for a lock that [a] holds. *)
Definition blocks_list (a b : Z) : Prop := ∃ l, l ∈ H a ∧ b ∈ W l.

(** The search starts at a thread that waits for nothing.  Who waits waits for one
    mutex, which one thread holds, so no cycle of waiting threads is met. *)
Context (root : Z) (Hroot : ∀ l, root ∉ W l).

Lemma blocks_once a a' b : blocks_list a b → blocks_list a' b → a = a'.
Proof.
  intros (l & Hl & Hb) (l' & Hl' & Hb'). rewrite (lists_W_disj _ _ _ Hlists _ _ _ Hb' Hb) in Hl'.
  by apply (lists_H_disj _ _ _ Hlists _ _ l).
Qed.

Lemma tc_last a b : tc blocks_list a b → ∃ y, rtc blocks_list a y ∧ blocks_list y b.
Proof.
  induction 1 as [a b Hab|a y b Hay _ (z & Hr & Hz)]; [by exists a|]. exists z. split; [by eapply rtc_l|done].
Qed.

Lemma root_last a : ¬ tc blocks_list a root.
Proof. intros Ht. apply tc_last in Ht as (y & _ & (l & _ & Hw)). by apply (Hroot l). Qed.

Lemma met_acyclic a : rtc blocks_list root a → ¬ tc blocks_list a a.
Proof.
  intros Hr. refine (rtc_ind_r (λ a, ¬ tc blocks_list a a) root _ _ a Hr); [apply root_last|].
  intros y z _ Hyz IH Ht. apply IH. apply tc_last in Ht as (x & Hzx & Hxz).
  pose proof (blocks_once _ _ _ Hyz Hxz) as <-. eapply tc_rtc_r; [by apply tc_once|done].
Qed.

(** What the search finds: [Err EAssert] when a thread that waits for [t], over
    any number of others, holds [start]. *)
Definition finds (t : Z) : Prop := ∃ u, rtc blocks_list t u ∧ start ∈ H u.
Definition found (r : res unit) (P : Prop) : Prop := r = Val tt ∧ ¬ P ∨ r = Err EAssert ∧ P.

Lemma found_iff r P Q : (P ↔ Q) → found r P → found r Q.
Proof. unfold found. tauto. Qed.

Lemma finds_unfold t : finds t ↔ ∃ l, l ∈ H t ∧ (l = start ∨ ∃ w, w ∈ W l ∧ finds w).
Proof.
  split.
  - intros (u & Hr & Hu). apply rtc_inv in Hr as [<-|(w & (l & Hl & Hw) & Hr)]; [exists start; auto|].
    exists l. split; [done|]. right. exists w. split; [done|]. by exists u.
  - intros (l & Hl & [->|(w & Hw & u & Hr & Hu)]); [by exists t|].
    exists u. split; [|done]. eapply rtc_l; [|exact Hr]. by exists l.
Qed.

Abbreviation turns := (size (mutex_ s) + size (state_ s) + 2)%nat.

Lemma check_waiters_ok d (ws : list Z) :
  (∀ w, w ∈ ws → ∀ fuel h, (length (H w) + 1 + d * turns ≤ fuel)%nat → holding_lock_list_ s !! w = Some h →
     found (check_locks fuel s h start) (finds w)) →
  (∀ w, w ∈ ws → is_Some (holding_lock_list_ s !! w)) →
  ∀ fuel h, (length ws + 1 + size (mutex_ s) + 1 + d * turns ≤ fuel)%nat →
  chain (next_thread_in_lock_waiters_list_ s) h ws →
  found (check_waiters fuel s h start) (∃ w, w ∈ ws ∧ finds w).
Proof.
  induction ws as [|w ws IH]; intros Hrec Hhold fuel h Hf Hc; (destruct fuel as [|fuel]; [simpl in Hf; lia|]); cbn [check_waiters].
  - simpl in Hc. subst h. left. split; [done|]. intros (w & Hw & _). by apply elem_of_nil in Hw.
  - destruct Hc as (-> & Hw0 & n & Hn & Hc). rewrite (proj2 (Z.eqb_neq _ _) Hw0).
    destruct (Hhold w ltac:(left)) as [h Hh]. rewrite (rd_Some _ _ _ Hh). cbn [mbind res_bind].
    assert (Hlen : (length (H w) ≤ size (mutex_ s))%nat).
    { rewrite <-size_dom, <-Hlocks, size_dom. eapply wchain_length; [by apply (lists_H _ _ _ Hlists)|apply Hlists]. }
    simpl in Hf. assert (Hcase := Hrec w ltac:(left) fuel h ltac:(lia) Hh).
    destruct Hcase as [[-> Hno]|[-> Hyes]]; cbn [mbind res_bind].
    + rewrite (rd_Some _ _ _ Hn). cbn [mbind res_bind].
      eapply found_iff; [|apply (IH (λ v Hv, Hrec v (list_elem_of_further _ _ _ Hv)) (λ v Hv, Hhold v (list_elem_of_further _ _ _ Hv)) fuel n); [lia|done]].
      setoid_rewrite elem_of_cons. naive_solver.
    + right. split; [done|]. exists w. split; [left|done].
Qed.

Lemma check_locks_ok d : ∀ t (V : gset Z), rtc blocks_list root t → t ∈ dom (state_ s) → V ⊆ dom (state_ s) →
  (∀ v, v ∈ V → tc blocks_list v t) → (size (state_ s) ≤ size V + d)%nat →
  ∀ ls fuel h, (∀ l, l ∈ ls → l ∈ H t) → (length ls + 1 + d * turns ≤ fuel)%nat →
  chain (next_lock_on_holding_list_ s) h ls →
  found (check_locks fuel s h start) (∃ l, l ∈ ls ∧ (l = start ∨ ∃ w, w ∈ W l ∧ finds w)).
Proof.
  induction d as [|d IHd]; intros t V Hrt Ht HV Hreach Hsz.
  { exfalso. assert (HtV : t ∉ V) by (intros HtV; by apply (met_acyclic t Hrt), Hreach).
    assert (Hss : ({[t]} ∪ V) ⊆ dom (state_ s)) by set_solver.
    apply subseteq_size in Hss. rewrite size_union, size_singleton, size_dom in Hss by set_solver. lia. }
  induction ls as [|l ls IHl]; intros fuel h Hls Hf Hc; (destruct fuel as [|fuel]; [simpl in Hf; lia|]); cbn [check_locks].
  - simpl in Hc. subst h. left. split; [done|]. intros (l & Hl & _). by apply elem_of_nil in Hl.
  - destruct Hc as (-> & Hl0 & n & Hn & Hc). rewrite (proj2 (Z.eqb_neq _ _) Hl0).
    destruct (l =? start) eqn:El; bool_to_prop; cbn [negb kassert mbind res_bind].
    { right. split; [done|]. exists l. split; [left|by left]. }
    assert (HlH : l ∈ H t) by (apply Hls; left).
    destruct (Hlock t l HlH) as [wh Hwh]. rewrite (rd_Some _ _ _ Hwh). cbn [mbind res_bind].
    pose proof (lists_W _ _ _ Hlists l wh Hwh) as Hcw.
    assert (HtV : t ∉ V) by (intros HtV; by apply (met_acyclic t Hrt), Hreach).
    assert (Hlen : (length (W l) ≤ size (state_ s))%nat).
    { rewrite <-size_dom, <-Hthreads, size_dom. eapply wchain_length; [done|apply Hlists]. }
    assert (Hw : found (check_waiters fuel s wh start) (∃ w, w ∈ W l ∧ finds w)).
    { apply (check_waiters_ok d (W l)); [| |simpl in Hf; lia|done].
      - intros w Hw fuel' h' Hf' Hh'. destruct (Hwaiter l w Hw) as [Hwd _].
        eapply found_iff; [symmetry; apply finds_unfold|].
        apply (IHd w ({[t]} ∪ V)); auto; [eapply rtc_r; [exact Hrt|by exists l]|set_solver| | |by apply (lists_H _ _ _ Hlists)].
        + intros v [->%elem_of_singleton|Hv]%elem_of_union; [by apply tc_once; exists l|].
          eapply tc_r; [by apply Hreach|by exists l].
        + rewrite size_union, size_singleton by set_solver. lia.
      - intros w Hw. by apply (Hwaiter l). }
    destruct Hw as [[-> Hno]|[-> Hyes]]; cbn [mbind res_bind].
    + rewrite (rd_Some _ _ _ Hn). cbn [mbind res_bind].
      eapply found_iff; [|apply (IHl fuel n); [intros k Hk; apply Hls; by right|simpl in Hf |- *; lia|done]].
      setoid_rewrite elem_of_cons. naive_solver.
    + right. split; [done|]. exists l. split; [left|by right].
Qed.

Lemma circular_ok h : root ∈ dom (state_ s) → holding_lock_list_ s !! root = Some h →
  found (checkForCircularDeadLock s root start) (finds root).
Proof.
  intros Ht Hh. unfold checkForCircularDeadLock. rewrite (rd_Some _ _ _ Hh). cbn [mbind res_bind].
  eapply found_iff; [symmetry; apply finds_unfold|].
  assert (Hlen : (length (H root) ≤ size (mutex_ s))%nat).
  { rewrite <-size_dom, <-Hlocks, size_dom. eapply wchain_length; [by apply (lists_H _ _ _ Hlists)|apply Hlists]. }
  apply (check_locks_ok (size (state_ s)) root ∅ (rtc_refl _ _) Ht (empty_subseteq _)).
  - intros v Hv. by apply elem_of_empty in Hv.
  - rewrite size_empty. lia.
  - done.
  - unfold check_fuel. simpl. lia.
  - by apply (lists_H _ _ _ Hlists).
Qed.
End deadlock.

(** ** Properties *)

(** Thread [t] has the mutex [l]. *)
Definition has (c : config) (t l : Z) : Prop :=
  (∃ p, pcs c !! t = Some p ∧ owner_pc p = Some l) ∨ held_by_ (st c) !! l = Some t ∧ t ≠ 0.


(** C6: No wake-up is lost: while a thread sleeps for a mutex, some thread has
    the mutex or is on the way to try it or to wake a sleeper, and that thread is
    not asleep itself.  So a thread never sleeps on for a mutex that stays free. *)
Theorem no_lost_wakeup ts ls c t l : reachable ts ls c → pcs c !! t = Some (A_woken l) →
  state_ (st c) !! t = Some Sleeping →
  (∃ u, has c u l) ∨ ∃ u q, pcs c !! u = Some q ∧ attending q l ∧ state_ (st c) !! u = Some Running.
Proof.
  intros (own & lown & W & H & Hg & Hh)%reachable_good Hp Hs.
  pose proof (good_waiting _ _ _ _ _ Hg) as Hw. pose proof (good_owned _ _ _ _ _ Hg) as Ho.
  assert (Htaken : taken (st c) l → ∃ u, has c u l).
  { intros (m & Hm & Hm0). destruct (own !! l) as [u|] eqn:E; [|by apply (own_word _ _ Ho l m Hm) in E].
    exists u. destruct (own_back _ _ Ho l u E) as [Hu [?|?]]; [by left|by right]. }
  destruct (wt_asleep _ _ _ Hw t _ l Hp eq_refl) as [Hin|[(u & q & Hu & Hx)|[_ ?]]]; [| |congruence].
  - assert (Hd : is_Some (waiters_list_ (st c) !! l)).
    { apply (lists_W_dom _ _ _ (wt_lists _ _ _ Hw)). intros E. rewrite E in Hin. by apply elem_of_nil in Hin. }
    destruct Hd as [h Hd]. pose proof (lists_W _ _ _ (wt_lists _ _ _ Hw) l h Hd) as Hch.
    assert (Hh0 : h ≠ 0) by (intros ->; apply chain_null in Hch; rewrite Hch in Hin; by apply elem_of_nil in Hin).
    destruct (hope_waiters _ Hh l h Hd Hh0) as [?|?]; [left; auto|by right].
  - right. exists u, q. split; [done|]. destruct (wt_target _ _ _ Hw u q t Hu Hx) as [_ (k & Hk & Hor)].
    assert (k = l) as -> by (destruct Hor as [?|[? _]]; congruence).
    split; [|by eapply good_running; [|exact Hu|intros m ->]].
    destruct q; try done; simpl in *; injection Hk as ->; [|done].
    split; [done|]. intros ->. done.
Qed.

(** [b] waits for a mutex that [a] holds. *)
Definition waits_in (s : store) (l b : Z) : Prop :=
  ∃ h ws, waiters_list_ s !! l = Some h ∧ chain (next_thread_in_lock_waiters_list_ s) h ws ∧ b ∈ ws.
Definition blocks (s : store) (a b : Z) : Prop := ∃ l, held_by_ s !! l = Some a ∧ waits_in s l b.

Lemma chain_unique nxt l1 : ∀ l2 h, chain nxt h l1 → chain nxt h l2 → l1 = l2.
Proof.
  induction l1 as [|x l1 IH]; intros [|y l2] h; simpl; [done| | |].
  - intros -> (<- & ? & _). done.
  - intros (-> & ? & _). done.
  - intros (-> & Hx & n & Hn & Hc1) (<- & _ & n' & Hn' & Hc2). simplify_eq. f_equal. eauto.
Qed.

(** C27: In every reachable state, deadlocks among other threads included, the
    search of [checkForDeadLock] by a thread that is not itself on the way to
    sleep ends, if no other thread runs while it reads the lists.  It stops the
    kernel exactly when the mutex is held by the thread or by one that waits for
    it, directly or through others: when waiting for the mutex would close a
    cycle. *)
Theorem checkForDeadLock_exact ts ls c t p l : reachable ts ls c → pcs c !! t = Some p → wait_pc p = None →
  l ∈ dom (mutex_ (st c)) →
  (checkForDeadLock (st c) (st c) t l = Err EAssert ∧ ∃ u, rtc (blocks (st c)) t u ∧ held_by_ (st c) !! l = Some u) ∨
  (checkForDeadLock (st c) (st c) t l = Val tt ∧ ∀ u, rtc (blocks (st c)) t u → held_by_ (st c) !! l ≠ Some u).
Proof.
  intros (own & lown & W & H & [_ _ Hw Hob] & _)%reachable_good Hp Hnw Hl.
  assert (Ht : t ∈ dom (pcs c)) by (apply elem_of_dom; eauto).
  pose proof (wt_lists _ _ _ Hw) as Hls. destruct Hob as [O1 O2 O3 O4 O5 O6 O7 O8 [O9 O9'] O10 O11].
  assert (Hwait : ∀ k b, waits_in (st c) k b ↔ b ∈ W k).
  { intros k b. split.
    - intros (h & ws & Hh & Hc & Hb). by rewrite (chain_unique _ _ _ _ (lists_W _ _ _ Hls k h Hh) Hc).
    - intros Hb. destruct (lists_W_dom _ _ _ Hls k) as [h Hh]; [intros E; rewrite E in Hb; by apply elem_of_nil in Hb|].
      exists h, (W k). split_and!; [done| |done]. by apply (lists_W _ _ _ Hls). }
  assert (H0 : ∀ a b, waits_in (st c) a b → b ≠ 0).
  { intros a b (q & Hq & _)%Hwait%(wt_in _ _ _ Hw). intros ->. apply O9'. apply elem_of_dom. eauto. }
  assert (Ht0 : t ≠ 0) by (by intros ->).
  assert (Hbl : ∀ a b, blocks_list W H a b ↔ blocks (st c) a b ∧ a ≠ 0).
  { intros a b. unfold blocks_list, blocks. setoid_rewrite O11. setoid_rewrite Hwait. naive_solver. }
  assert (Hrtc : ∀ a u, a ≠ 0 → rtc (blocks_list W H) a u ↔ rtc (blocks (st c)) a u).
  { intros a u Ha. split; intros Hr.
    - clear Ha. induction Hr as [|x y z Hxy _ IH]; [done|]. eapply rtc_l; [|exact IH]. by apply Hbl.
    - revert Ha. induction Hr as [|x y z Hxy _ IH]; intros Ha; [done|]. eapply rtc_l; [by apply Hbl|].
      apply IH. destruct Hxy as (k & _ & Hk). by apply (H0 k). }
  assert (Hroot : ∀ k, t ∉ W k).
  { intros k (q & Hq & Hwq)%(wt_in _ _ _ Hw). rewrite Hp in Hq. injection Hq as <-. by rewrite Hnw in Hwq. }
  assert (Hh : is_Some (holding_lock_list_ (st c) !! t)) by (apply elem_of_dom; by rewrite O8).
  destruct Hh as [h Hh].
  assert (Hfound : found (checkForCircularDeadLock (st c) t l) (finds W H l t)).
  { apply (circular_ok (st c) W H l Hls) with (h := h); auto; try congruence.
    - intros k w Hkw. destruct (wt_in _ _ _ Hw w k Hkw) as (q & Hq & _).
      assert (w ∈ dom (pcs c)) by (apply elem_of_dom; eauto).
      split; [congruence|]. apply elem_of_dom. congruence.
    - intros u k [Hk _]%O11. apply elem_of_dom. rewrite O3, <-O1. apply elem_of_dom. eauto. }
  assert (Hfinds : finds W H l t ↔ ∃ u, rtc (blocks (st c)) t u ∧ held_by_ (st c) !! l = Some u ∧ u ≠ 0).
  { unfold finds. setoid_rewrite O11. split; intros (u & Hr & Hu); exists u; (split; [|done]); by apply Hrtc. }
  assert (Hreach0 : ∀ u, rtc (blocks (st c)) t u → u ≠ 0).
  { intros u Hr. apply rtc_inv_r in Hr as [<-|(y & _ & (k & _ & Hk))]; [done|by apply (H0 k)]. }
  unfold checkForDeadLock. rewrite (proj2 (Z.eqb_neq _ _) Ht0).
  assert (Hx : is_Some (held_by_ (st c) !! l)) by (apply elem_of_dom; by rewrite O1). destruct Hx as [x Hx].
  rewrite (rd_Some _ _ _ Hx). cbn [mbind res_bind].
  destruct (x =? t) eqn:Ext; bool_to_prop; cbn [negb kassert mbind res_bind].
  { left. split; [done|]. exists t. split; [done|congruence]. }
  destruct Hfound as [[-> Hno]|[-> Hyes]]; [right|left]; (split; [done|]).
  - intros u Hr Hu. apply Hno, Hfinds. exists u. split_and!; auto.
  - apply Hfinds in Hyes as (u & Hr & Hu & _). eauto.
Qed.

(** ** Examples *)

(** A schedule: which thread steps, and what it calls when it is idle; the walks
    of the deadlock check are not disturbed. *)
Fixpoint play (c : config) (l : list (Z * call)) : res config :=
  match l with
  | [] => Val c
  | (t, o) :: l => c ← step c t o (st c); play c l
  end.

Lemma play_reachable ts ls l : ∀ c c', reachable ts ls c → play c l = Val c' → reachable ts ls c'.
Proof.
  induction l as [|[t o] l IH]; intros c c' Hr; simpl; [by intros [= <-]|].
  intros Hp. apply bind_Val in Hp as (c1 & Hs & Hp). apply (IH c1 c'); [|done].
  destruct Hr as (H1 & H2 & Hr). split_and!; [done..|]. eapply rtc_r; [exact Hr|]. by exists t, o, (st c).
Qed.

Definition result (r : res config) : config := match r with Val c => c | Err _ => mkConfig (mkStore ∅ ∅ ∅ ∅ ∅ ∅ ∅ ∅ ∅) ∅ end.

Definition ex_fresh : config := fresh {[1; 2]} {[10; 20]}.
Definition ex_hold : list (Z * call) := replicate 3 (1, Acquire 10) ++ replicate 3 (2, Acquire 20).
(** Thread 2, which holds 20, sleeps for 10, which thread 1 holds. *)
Definition ex_asleep : list (Z * call) := ex_hold ++ replicate 8 (2, Acquire 10).
(** Both threads pass the check before either has queued up. *)
Definition ex_race : list (Z * call) :=
  ex_hold ++ replicate 5 (1, Acquire 20) ++ replicate 5 (2, Acquire 10) ++
  replicate 3 (1, Acquire 20) ++ replicate 3 (2, Acquire 10).

Lemma ex_lock_reachable l : is_val (play ex_fresh l) = true → reachable {[1; 2]} {[10; 20]} (result (play ex_fresh l)).
Proof.
  destruct (play ex_fresh l) as [c|e] eqn:E; [|done]. intros _. apply (play_reachable _ _ l ex_fresh); [|done].
  split_and!; [set_solver|set_solver|done].
Qed.

(** One after the other, the second of two crossing calls is stopped; when the
    two checks come before the two entries in the waiters lists, both threads
    fall asleep for ever. *)
Lemma crossing_detected : play ex_fresh (ex_asleep ++ [(1, Acquire 20)]) = Err EAssert.
Proof. vm_compute. reflexivity. Qed.

Lemma crossing_missed : let c := result (play ex_fresh ex_race) in
  is_val (play ex_fresh ex_race) = true ∧
  state_ (st c) !! 1 = Some Sleeping ∧ pcs c !! 1 = Some (A_woken 20) ∧ held_by_ (st c) !! 20 = Some 2 ∧
  state_ (st c) !! 2 = Some Sleeping ∧ pcs c !! 2 = Some (A_woken 10) ∧ held_by_ (st c) !! 10 = Some 1.
Proof. vm_compute. split_and!; reflexivity. Qed.

Definition ex_c : config := result (play ex_fresh ex_asleep).

Lemma ex_c_reachable : reachable {[1; 2]} {[10; 20]} ex_c.
Proof. apply ex_lock_reachable. vm_compute. reflexivity. Qed.


Lemma no_lost_wakeup_witness : pcs ex_c !! 2 = Some (A_woken 10) ∧
  ((∃ u, has ex_c u 10) ∨ ∃ u q, pcs ex_c !! u = Some q ∧ attending q 10 ∧ state_ (st ex_c) !! u = Some Running).
Proof.
  split; [vm_compute; reflexivity|].
  apply (no_lost_wakeup {[1; 2]} {[10; 20]} ex_c 2 10 ex_c_reachable); vm_compute; reflexivity.
Defined.

Lemma checkForDeadLock_exact_witness : checkForDeadLock (st ex_c) (st ex_c) 1 20 = Err EAssert ∧
  ∃ u, rtc (blocks (st ex_c)) 1 u ∧ held_by_ (st ex_c) !! 20 = Some u.
Proof.
  destruct (checkForDeadLock_exact {[1; 2]} {[10; 20]} ex_c 1 Idle 20 ex_c_reachable) as [H|[H _]].
  - vm_compute. reflexivity.
  - reflexivity.
  - apply elem_of_dom. vm_compute. eexists. reflexivity.
  - exact H.
  - vm_compute in H. discriminate H.
Defined.
End Locks.
