(* ===== verification/Buffers.v ===== *)
(** * Buffers: byte arrays that are read and written in pieces

    The file system and the drivers move bytes between separate arrays (a block
    of the disc, a local buffer, the caller's buffer).  An array is a list of
    bytes; [sub] and [patch] are the piece at an offset and its replacement,
    [slice] and [splice] the same for code that would leave the array.  Numbers
    are stored in little-endian order. *)
From S2P Require Import Prelude LibcString Kstring.

Section pieces.
Context {A : Type}.
Implicit Types b l : list A.

(** The [n] elements at offset [o], and [b] with [l] stored at offset [o]. *)
Definition sub b (o n : Z) : list A := take (Z.to_nat n) (drop (Z.to_nat o) b).
Definition patch b (o : Z) l : list A :=
  take (Z.to_nat o) b ++ l ++ drop (Z.to_nat o + length l) b.

(** [memcpy] out of, and into, an array of [length b] elements. *)
Definition slice b (o n : Z) : res (list A) :=
  _ ← defined ((0 <=? o) && (0 <=? n) && (o + n <=? Z.of_nat (length b)));
  Val (sub b o n).
Definition splice b (o : Z) l : res (list A) :=
  _ ← defined ((0 <=? o) && (o + Z.of_nat (length l) <=? Z.of_nat (length b)));
  Val (patch b o l).

(** An offset that lies within [b] together with the [n] elements behind it. *)
Definition fits b (o n : Z) : Prop := 0 <= o ∧ 0 <= n ∧ o + n <= Z.of_nat (length b).

Lemma slice_fits b o n : fits b o n → slice b o n = Val (sub b o n).
Proof.
  intros (Ho & Hn & Hl). unfold slice.
  apply Z.leb_le in Ho as ->. apply Z.leb_le in Hn as ->. by apply Z.leb_le in Hl as ->.
Qed.

Lemma splice_fits b o l : fits b o (Z.of_nat (length l)) → splice b o l = Val (patch b o l).
Proof.
  intros (Ho & Hn & Hl). unfold splice. apply Z.leb_le in Ho as ->. by apply Z.leb_le in Hl as ->.
Qed.

Lemma sub_length b o n : fits b o n → Z.of_nat (length (sub b o n)) = n.
Proof. intros (? & ? & ?). unfold sub. rewrite length_take, length_drop. lia. Qed.

Lemma patch_length b o l : fits b o (Z.of_nat (length l)) → length (patch b o l) = length b.
Proof. intros (? & ? & ?). unfold patch. rewrite !length_app, length_take, length_drop. lia. Qed.

Lemma sub_length_le b o n : Z.of_nat (length (sub b o n)) <= Z.max 0 n.
Proof. unfold sub. rewrite length_take. lia. Qed.

Lemma lookup_sub b o n i :
  sub b o n !! i = if decide (i < Z.to_nat n)%nat then b !! (Z.to_nat o + i)%nat else None.
Proof. unfold sub. case_decide; [by rewrite lookup_take_lt, lookup_drop|]. apply lookup_take_ge. lia. Qed.

(** Also when [l] goes beyond the end of [b], which then grows. *)
Lemma lookup_patch_ext b o l i : (Z.to_nat o <= length b)%nat →
  patch b o l !! i = if decide (Z.to_nat o <= i < Z.to_nat o + length l)%nat then l !! (i - Z.to_nat o)%nat else b !! i.
Proof.
  intros Ho. unfold patch.
  assert (E : length (take (Z.to_nat o) b) = Z.to_nat o) by (rewrite length_take; lia).
  destruct (decide (i < Z.to_nat o)%nat) as [Hi|Hi].
  { rewrite lookup_app_l, lookup_take_lt by lia. by rewrite decide_False by lia. }
  rewrite lookup_app_r, E by lia. case_decide.
  - by rewrite lookup_app_l by lia.
  - rewrite lookup_app_r, lookup_drop by lia. f_equal. lia.
Qed.

Lemma lookup_patch b o l i : fits b o (Z.of_nat (length l)) →
  patch b o l !! i = if decide (Z.to_nat o <= i < Z.to_nat o + length l)%nat then l !! (i - Z.to_nat o)%nat else b !! i.
Proof. intros (? & ? & ?). apply lookup_patch_ext. lia. Qed.

Ltac by_lookup :=
  apply list_eq; intros ?i; repeat (rewrite lookup_sub || rewrite lookup_patch by done);
  repeat case_decide; try lia; try done; f_equal; lia.

Lemma sub_patch_same b o l : fits b o (Z.of_nat (length l)) → sub (patch b o l) o (Z.of_nat (length l)) = l.
Proof.
  intros Hf. apply list_eq. intros i. rewrite lookup_sub, lookup_patch by done. rewrite Nat2Z.id.
  repeat case_decide; try lia; [f_equal; lia|]. symmetry. apply lookup_ge_None_2. lia.
Qed.

Lemma sub_patch_other b o l p n : fits b o (Z.of_nat (length l)) → 0 <= p → 0 <= n →
  p + n <= o ∨ o + Z.of_nat (length l) <= p → sub (patch b o l) p n = sub b p n.
Proof. intros Hf Hp Hn Hd. pose proof Hf as (? & ? & ?). by_lookup. Qed.

(** A piece of what was stored. *)
Lemma sub_patch_in b o l p n : fits b o (Z.of_nat (length l)) → 0 <= p → 0 <= n → p + n <= Z.of_nat (length l) →
  sub (patch b o l) (o + p) n = sub l p n.
Proof.
  intros Hf Hp Hn Hl. pose proof Hf as (? & ? & ?). apply list_eq. intros i. rewrite !lookup_sub. case_decide; [|done].
  rewrite lookup_patch by done. rewrite decide_True by lia. f_equal. lia.
Qed.

Lemma sub_sub b o n p k : 0 <= o → 0 <= p → 0 <= k → p + k <= n → sub (sub b o n) p k = sub b (o + p) k.
Proof. intros. by_lookup. Qed.

Lemma sub_patch_sub b o n p l : fits b o n → 0 <= p → p + Z.of_nat (length l) <= n →
  sub (patch b (o + p) l) o n = patch (sub b o n) p l.
Proof.
  intros Hf Hp Hl. pose proof Hf as (? & ? & ?).
  assert (fits b (o + p) (Z.of_nat (length l))) by (repeat split; lia).
  assert (fits (sub b o n) p (Z.of_nat (length l))) by (repeat split; rewrite ?sub_length by done; lia).
  by_lookup.
Qed.

Lemma sub_all b n : n = Z.of_nat (length b) → sub b 0 n = b.
Proof. intros ->. unfold sub. rewrite Nat2Z.id, drop_0. by apply take_ge. Qed.

Lemma sub_app b o n k : 0 <= o → 0 <= n → 0 <= k → sub b o (n + k) = sub b o n ++ sub b (o + n) k.
Proof.
  intros. unfold sub. rewrite Z2Nat.inj_add by lia.
  rewrite <- (take_drop (Z.to_nat n) (take _ _)). f_equal; [rewrite take_take; f_equal; lia|].
  rewrite skipn_firstn_comm, drop_drop. f_equal; [lia|]. f_equal. lia.
Qed.

Lemma sub_0 b o : sub b o 0 = [].
Proof. done. Qed.

Lemma patch_self b o n : fits b o n → patch b o (sub b o n) = b.
Proof.
  intros Hf. pose proof (sub_length b o n Hf) as Hl. destruct Hf as (? & ? & ?).
  unfold patch. replace (length (sub b o n)) with (Z.to_nat n) by lia. unfold sub.
  by rewrite <- drop_drop, take_drop, take_drop.
Qed.

Lemma patch_nil b o : patch b o [] = b.
Proof. unfold patch. simpl. rewrite Nat.add_0_r. apply take_drop. Qed.

(** Two adjacent pieces stored one after the other are one piece. *)
Lemma patch_app b o l k : fits b o (Z.of_nat (length l) + Z.of_nat (length k)) →
  patch (patch b o l) (o + Z.of_nat (length l)) k = patch b o (l ++ k).
Proof.
  intros (? & ? & ?). assert (Hf1 : fits b o (Z.of_nat (length l))) by (repeat split; lia).
  assert (fits (patch b o l) (o + Z.of_nat (length l)) (Z.of_nat (length k)))
    by (repeat split; rewrite ?patch_length by done; lia).
  assert (fits b o (Z.of_nat (length (l ++ k)))) by (rewrite length_app; repeat split; lia).
  apply list_eq. intros i. rewrite !lookup_patch by done. rewrite length_app.
  repeat case_decide; try lia; try done.
  - rewrite lookup_app_r by lia. f_equal. lia.
  - by rewrite lookup_app_l by lia.
Qed.
End pieces.

#[export] Hint Rewrite @patch_length using done : lens.

Lemma sub_bytes b o n : Forall is_byte b → Forall is_byte (sub b o n).
Proof. intros. by apply Forall_take, Forall_drop. Qed.

Lemma patch_bytes b o l : Forall is_byte b → Forall is_byte l → Forall is_byte (patch b o l).
Proof. intros. apply Forall_app_2; [by apply Forall_take|]. apply Forall_app_2; [done|by apply Forall_drop]. Qed.

(** ** Numbers in byte arrays *)

(** The [n] bytes of a number, lowest first, and the number of a row of bytes. *)
Fixpoint le (n : nat) (v : Z) : list Z :=
  match n with O => [] | S n => u8 v :: le n (v / 256) end.
Fixpoint unle (l : list Z) : Z :=
  match l with [] => 0 | b :: l => b + 256 * unle l end.

Lemma le_length n v : length (le n v) = n.
Proof. revert v. induction n; intros v; simpl; [done|]. by rewrite IHn. Qed.

Lemma le_bytes n v : Forall is_byte (le n v).
Proof.
  revert v. induction n as [|n IH]; intros v; simpl; [done|]. constructor; [|done]. apply (wrap_bounds 8). lia.
Qed.

Lemma unle_le n v : 0 <= v < 256 ^ Z.of_nat n → unle (le n v) = v.
Proof.
  revert v. induction n as [|n IH]; intros v Hv; simpl; [simpl in Hv; lia|].
  rewrite Nat2Z.inj_succ, Z.pow_succ_r in Hv by lia.
  rewrite IH by (Z.to_euclidean_division_equations; nia). unfold wrap. change (2 ^ 8) with 256.
  Z.to_euclidean_division_equations; lia.
Qed.

Lemma unle_range l : Forall is_byte l → 0 <= unle l < 256 ^ Z.of_nat (length l).
Proof.
  induction 1 as [|b l Hb _ IH]; [simpl; lia|]. simpl length. rewrite Nat2Z.inj_succ, Z.pow_succ_r by lia.
  unfold is_byte in Hb. simpl. lia.
Qed.

Lemma load_le_sub n : ∀ m p, fits m p (Z.of_nat n) → Kstring.load_le n m p = Val (unle (sub m p (Z.of_nat n))).
Proof.
  induction n as [|n IH]; intros m p (? & ? & Hl); [done|]. cbn [Kstring.load_le]. unfold LibcString.Libc.load.
  destruct (zget_lt m p ltac:(lia)) as [b Hb]. rewrite Hb. cbn [mbind res_bind].
  rewrite IH by (repeat split; lia). cbn [mbind res_bind].
  replace (Z.of_nat (S n)) with (1 + Z.of_nat n) by lia. rewrite sub_app by lia.
  apply zget_Val in Hb as [_ Hb].
  assert (sub m p 1 = [b]) as -> by (unfold sub; rewrite (drop_S _ _ _ Hb); simpl; by rewrite take_0). done.
Qed.

Lemma store_le_patch n : ∀ m p v, fits m p (Z.of_nat n) → Kstring.store_le n m p v = Val (patch m p (le n v)).
Proof.
  induction n as [|n IH]; intros m p v (? & ? & Hl); [simpl; by rewrite patch_nil|]. cbn [Kstring.store_le le].
  unfold LibcString.Libc.store, zset. rewrite decide_True by lia. cbn [mbind res_bind].
  assert (E : <[Z.to_nat p:=u8 v]> m = patch m p [u8 v]).
  { unfold patch. rewrite insert_take_drop by lia. simpl. do 3 f_equal. lia. }
  assert (Hf : fits m p (Z.of_nat (length [u8 v]))) by (repeat split; simpl; lia).
  rewrite E, IH by (repeat split; rewrite ?patch_length by done; lia).
  change (p + 1) with (p + Z.of_nat (length [u8 v])). rewrite patch_app; [done|].
  repeat split; simpl; rewrite ?le_length; lia.
Qed.
