(* ===== verification/BlockDevice.v ===== *)
(** * Block devices

    Models [common/source/fs/BDVirtualDevice.cpp], [BDManager.cpp] and
    [arch/common/include/BDRequest.h]: the splitting of byte ranges into
    requests, from blocks to sectors of the driver.  What a driver promises is
    the class [BDDriver] with its laws: a request comes back from [addRequest]
    (and the waiting for its interrupt) in the state it has at the end.  The
    drivers themselves talk to the hardware and are not modelled; [MemDisc] is
    the instance the examples use. *)
From S2P Require Import Prelude Buffers.

(** ** Requests *)

Inductive BD_CMD : Set :=
| BD_READ | BD_WRITE | BD_GET_NUM_DEVICES | BD_GET_BLK_SIZE | BD_GET_NUM_BLOCKS
| BD_REINIT | BD_DEINIT | BD_SEND_RAW_CMD.

Inductive BD_RESULT : Set := BD_QUEUED | BD_DONE | BD_ERROR.

#[export] Instance BD_RESULT_eq_dec : EqDecision BD_RESULT.
Proof. solve_decision. Defined.

(** The requesting thread and the link to the next request belong to the
    drivers and are left out; the buffer is the array it points to. *)
Record BDRequest : Set := mkRequest {
  dev_id_ : Z;
  cmd_ : BD_CMD;
  start_block_ : Z;
  num_block_ : Z;
  buffer_ : list Z;
  result_ : Z;
  status_ : BD_RESULT;
}.

(** The constructor. *)
Definition new_request (dev_id : Z) (cmd : BD_CMD) (start_block num_block : Z) (buffer : list Z) : BDRequest :=
  mkRequest dev_id cmd start_block num_block buffer 0 BD_QUEUED.

Definition setResult (r : Z) (br : BDRequest) : BDRequest :=
  mkRequest (dev_id_ br) (cmd_ br) (start_block_ br) (num_block_ br) (buffer_ br) r (status_ br).
Definition setStatus (s : BD_RESULT) (br : BDRequest) : BDRequest :=
  mkRequest (dev_id_ br) (cmd_ br) (start_block_ br) (num_block_ br) (buffer_ br) (result_ br) s.
Definition setStartBlock (start_blk : Z) (br : BDRequest) : BDRequest :=
  mkRequest (dev_id_ br) (cmd_ br) start_blk (num_block_ br) (buffer_ br) (result_ br) (status_ br).
Definition setNumBlocks (num_block : Z) (br : BDRequest) : BDRequest :=
  mkRequest (dev_id_ br) (cmd_ br) (start_block_ br) num_block (buffer_ br) (result_ br) (status_ br).
Definition setBuffer (buffer : list Z) (br : BDRequest) : BDRequest :=
  mkRequest (dev_id_ br) (cmd_ br) (start_block_ br) (num_block_ br) buffer (result_ br) (status_ br).

(** ** Drivers *)

Class BDDriver (D : Type) := {
  drv_addRequest : D → BDRequest → D * BDRequest * Z;
  getSectorSize : D → Z;
  drv_bytes : D → list Z;
}.

Class BDSectors (D : Type) `{BDDriver D} := drv_sector_pos (d : D) : 0 < getSectorSize d.

(** A driver that never fails is a row of bytes, read and written in whole
    sectors.  What a device makes of a failing driver is in [faulty_transfer]. *)
Class BDDriverLaws (D : Type) `{BDDriver D} := {
  drv_sectors :: BDSectors D;
  drv_read d br : cmd_ br = BD_READ → 0 < num_block_ br →
    fits (drv_bytes d) (start_block_ br * getSectorSize d) (num_block_ br * getSectorSize d) →
    Z.of_nat (length (buffer_ br)) = num_block_ br * getSectorSize d →
    ∃ r, drv_addRequest d br = (d, setStatus BD_DONE (setBuffer
      (sub (drv_bytes d) (start_block_ br * getSectorSize d) (num_block_ br * getSectorSize d)) br), r);
  drv_write d br : cmd_ br = BD_WRITE → 0 < num_block_ br →
    fits (drv_bytes d) (start_block_ br * getSectorSize d) (num_block_ br * getSectorSize d) →
    Z.of_nat (length (buffer_ br)) = num_block_ br * getSectorSize d →
    ∃ d' r, drv_addRequest d br = (d', setStatus BD_DONE br, r) ∧ getSectorSize d' = getSectorSize d ∧
      drv_bytes d' = patch (drv_bytes d) (start_block_ br * getSectorSize d) (buffer_ br);
}.

Module BD.

(** ** Virtual devices *)

(** [driver_] is the address of the driver, which devices may share; the
    operations of a device are given the driver itself. *)
Record BDVirtualDevice : Set := mkDevice {
  dev_number_ : Z;
  offset_ : Z;
  num_sectors_ : Z;
  sector_size_ : Z;
  block_size_ : Z;
  writable_ : bool;
  driver_ : Z;
  partition_type_ : Z;
  name_ : list Z;
}.

Definition new_device (driver offset num_sectors sector_size : Z) (name : list Z) (writable : bool) : BDVirtualDevice :=
  mkDevice 0 offset num_sectors sector_size sector_size writable driver 0 name.

Definition setPartitionType (part_type : Z) (v : BDVirtualDevice) : BDVirtualDevice :=
  mkDevice (dev_number_ v) (offset_ v) (num_sectors_ v) (sector_size_ v) (block_size_ v) (writable_ v) (driver_ v) part_type (name_ v).
Definition setDeviceNumber (number : Z) (v : BDVirtualDevice) : BDVirtualDevice :=
  mkDevice number (offset_ v) (num_sectors_ v) (sector_size_ v) (block_size_ v) (writable_ v) (driver_ v) (partition_type_ v) (name_ v).
Definition setBlockSize (block_size : Z) (v : BDVirtualDevice) : res BDVirtualDevice :=
  _ ← defined (negb (sector_size_ v =? 0));
  _ ← kassert (block_size mod sector_size_ v =? 0);
  Val (mkDevice (dev_number_ v) (offset_ v) (num_sectors_ v) (sector_size_ v) block_size (writable_ v) (driver_ v) (partition_type_ v) (name_ v)).

(** Division by zero is undefined. *)
Definition udiv (a b : Z) : res Z := _ ← defined (negb (b =? 0)); Val (a / b).
Definition umod (a b : Z) : res Z := _ ← defined (negb (b =? 0)); Val (a mod b).

Definition getNumBlocks (v : BDVirtualDevice) : res Z :=
  k ← udiv (block_size_ v) (sector_size_ v);
  udiv (num_sectors_ v) k.

Section driver.
Context {D : Type} `{BDDriver D}.

Definition addRequest (v : BDVirtualDevice) (d : D) (command : BDRequest) : res (D * BDRequest) :=
  let command := setResult 5 command in
  match cmd_ command with
  | BD_GET_BLK_SIZE => Val (d, setStatus BD_DONE (setResult (block_size_ v) command))
  | BD_GET_NUM_BLOCKS => n ← getNumBlocks v; Val (d, setStatus BD_DONE (setResult n command))
  | BD_READ | BD_WRITE =>
      k ← udiv (block_size_ v) (sector_size_ v);
      let command := setStartBlock (u32 (u32 (start_block_ command * k) + offset_ v)) command in
      let command := setNumBlocks (u32 (num_block_ command * k)) command in
      let '(d, command, r) := drv_addRequest d command in
      Val (d, setResult r command)
  | _ => let '(d, command, r) := drv_addRequest d command in Val (d, setResult r command)
  end.

Definition readData (v : BDVirtualDevice) (d : D) (offset size : Z) (buffer : list Z) : res (D * list Z * Z) :=
  r ← umod offset (block_size_ v);
  _ ← kassert (r =? 0);
  r ← umod size (block_size_ v);
  _ ← kassert (r =? 0);
  n ← getNumBlocks v;
  _ ← kassert (u32 (offset + size) <=? u32 (n * block_size_ v));
  let blocks2read := size / block_size_ v in
  let blockoffset := offset / block_size_ v in
  '(d, bd) ← addRequest v d (new_request (dev_number_ v) BD_READ blockoffset blocks2read buffer);
  if decide (status_ bd = BD_DONE) then Val (d, buffer_ bd, size) else Val (d, buffer_ bd, -1).

Definition writeData (v : BDVirtualDevice) (d : D) (offset size : Z) (buffer : list Z) : res (D * Z) :=
  r ← umod offset (block_size_ v);
  _ ← kassert (r =? 0);
  r ← umod size (block_size_ v);
  _ ← kassert (r =? 0);
  n ← getNumBlocks v;
  _ ← kassert (u32 (offset + size) <=? u32 (n * block_size_ v));
  let blocks2write := size / block_size_ v in
  let blockoffset := offset / block_size_ v in
  '(d, bd) ← addRequest v d (new_request (dev_number_ v) BD_WRITE blockoffset blocks2write buffer);
  if decide (status_ bd = BD_DONE) then Val (d, size) else Val (d, -1).

(** ** The manager *)

(** [device_list_], and the driver objects by their addresses. *)
Record BDManager : Type := mkManager {
  device_list_ : list BDVirtualDevice;
  drivers : gmap Z D;
}.

Definition getNumberOfDevices (m : BDManager) : Z := Z.of_nat (length (device_list_ m)).
Definition getDeviceByNumber (m : BDManager) (dev_num : Z) : res BDVirtualDevice := zget (device_list_ m) dev_num.

Definition addVirtualDevice (m : BDManager) (v : BDVirtualDevice) : BDManager :=
  mkManager (device_list_ m ++ [setDeviceNumber (Z.of_nat (length (device_list_ m))) v]) (drivers m).

Definition get_driver (m : BDManager) (v : BDVirtualDevice) : res D :=
  match drivers m !! driver_ v with Some d => Val d | None => Err EUndef end.

Definition manager_addRequest (m : BDManager) (bdr : BDRequest) : res (BDManager * BDRequest) :=
  if dev_id_ bdr <? getNumberOfDevices m then
    v ← getDeviceByNumber m (dev_id_ bdr);
    d ← get_driver m v;
    '(d, bdr) ← addRequest v d bdr;
    Val (mkManager (device_list_ m) (<[driver_ v := d]> (drivers m)), bdr)
  else Val (m, setStatus BD_ERROR bdr).

Fixpoint find_name (l : list BDVirtualDevice) (dev_name : list Z) : option BDVirtualDevice :=
  match l with
  | [] => None
  | dev :: l => if decide (name_ dev = dev_name) then Some dev else find_name l dev_name
  end.
Definition getDeviceByName (m : BDManager) (dev_name : list Z) : option BDVirtualDevice :=
  find_name (device_list_ m) dev_name.
End driver.

(** ** Correctness *)

Section device.
Context {D : Type} `{BDSectors D}.

(** A device that lies on its driver, with blocks of whole sectors, and with
    byte offsets that fit 32 bits. *)
Record device_ok (v : BDVirtualDevice) (d : D) : Prop := {
  dev_sector : sector_size_ v = getSectorSize d;
  dev_block : ∃ k, 0 < k ∧ block_size_ v = k * sector_size_ v;
  dev_fits : fits (drv_bytes d) (offset_ v * sector_size_ v) (num_sectors_ v * sector_size_ v);
  dev_offset : 0 <= offset_ v;
  dev_range : (offset_ v + num_sectors_ v) * sector_size_ v < 2 ^ 32;
}.

(** The bytes of the device's part of the disc that belong to a whole block. *)
Definition dev_blocks (v : BDVirtualDevice) : Z := num_sectors_ v / (block_size_ v / sector_size_ v).
Definition dev_bytes (v : BDVirtualDevice) (d : D) : list Z :=
  sub (drv_bytes d) (offset_ v * sector_size_ v) (dev_blocks v * block_size_ v).
Lemma udiv_pos a b : 0 < b → udiv a b = Val (a / b).
Proof. intros. unfold udiv. by rewrite (proj2 (Z.eqb_neq b 0)) by lia. Qed.

Lemma umod_pos a b : 0 < b → umod a b = Val (a mod b).
Proof. intros. unfold umod. by rewrite (proj2 (Z.eqb_neq b 0)) by lia. Qed.

(** The sizes of a device in terms of [k], its sectors to a block. *)
Lemma device_sizes v d : device_ok v d → ∃ k, 0 < k ∧ 0 < sector_size_ v ∧ block_size_ v = k * sector_size_ v ∧
  block_size_ v / sector_size_ v = k ∧ dev_blocks v = num_sectors_ v / k ∧ getNumBlocks v = Val (dev_blocks v) ∧
  0 <= dev_blocks v ∧ dev_blocks v * k <= num_sectors_ v.
Proof.
  intros [Hs (k & Hk & Hb) Hf Ho Hr]. exists k. pose proof (drv_sector_pos d). rewrite <- Hs in *.
  assert (E : block_size_ v / sector_size_ v = k) by (rewrite Hb; apply Z.div_mul; lia).
  assert (0 <= num_sectors_ v) by (destruct Hf as (_ & Hn & _); nia).
  unfold getNumBlocks, dev_blocks. rewrite udiv_pos, E by done. simpl. rewrite udiv_pos by done.
  split_and!; try done; [apply Z.div_pos; lia|]. rewrite Z.mul_comm. by apply Z.mul_div_le.
Qed.

(** [n] blocks at block [b] of the device. *)
Definition in_device (v : BDVirtualDevice) (b n : Z) : Prop := 0 <= b ∧ 0 < n ∧ b + n <= dev_blocks v.

(** The checks of a request for whole blocks of the device succeed. *)
Lemma checks_pass {A} v d b n (f : res A) : device_ok v d → in_device v b n →
  (r ← umod (b * block_size_ v) (block_size_ v);
   _ ← kassert (r =? 0);
   r ← umod (n * block_size_ v) (block_size_ v);
   _ ← kassert (r =? 0);
   n' ← getNumBlocks v;
   _ ← kassert (u32 (b * block_size_ v + n * block_size_ v) <=? u32 (n' * block_size_ v));
   f) = f.
Proof.
  intros Hd (Hb & Hn & Hl). destruct (device_sizes _ _ Hd) as (k & ? & ? & Hbs & _ & _ & -> & ? & ?).
  destruct Hd as [_ _ _ ? ?].
  assert (0 < block_size_ v) by nia.
  assert (dev_blocks v * block_size_ v <= num_sectors_ v * sector_size_ v) by (rewrite Hbs, Z.mul_assoc; nia).
  assert (b * block_size_ v + n * block_size_ v <= dev_blocks v * block_size_ v) by nia.
  rewrite !umod_pos, !Z.mod_mul by lia. simpl. rewrite !wrap_small by nia.
  by rewrite (proj2 (Z.leb_le _ _)) by done.
Qed.

(** What a request for blocks becomes, and where it lies on the driver. *)
Lemma request_sectors v d b n : device_ok v d → in_device v b n →
  let s := u32 (u32 (b * (block_size_ v / sector_size_ v)) + offset_ v) in
  let c := u32 (n * (block_size_ v / sector_size_ v)) in
  s * getSectorSize d = offset_ v * sector_size_ v + b * block_size_ v ∧
  c * getSectorSize d = n * block_size_ v ∧ 0 < c ∧
  fits (drv_bytes d) (s * getSectorSize d) (c * getSectorSize d) ∧
  fits (dev_bytes v d) (b * block_size_ v) (n * block_size_ v) ∧
  fits (drv_bytes d) (offset_ v * sector_size_ v) (dev_blocks v * block_size_ v).
Proof.
  intros Hd (Hb & Hn & Hl). destruct (device_sizes _ _ Hd) as (k & ? & ? & Hbs & -> & _ & _ & ? & ?).
  destruct Hd as [Hs _ (? & ? & ?) ? Hr]. cbv zeta.
  assert (b * k <= num_sectors_ v ∧ n * k <= num_sectors_ v ∧ (b + n) * k <= num_sectors_ v) as (? & ? & ?) by nia.
  assert (offset_ v + num_sectors_ v < 2 ^ 32) by nia.
  rewrite !(wrap_small 32 (b * k)), !wrap_small by nia. rewrite <- Hs, Hbs.
  assert (fits (drv_bytes d) (offset_ v * sector_size_ v) (dev_blocks v * (k * sector_size_ v)))
    by (repeat split; nia).
  split_and!; [nia..| | |done].
  - repeat split; nia.
  - unfold dev_bytes. repeat split; [nia..|]. rewrite Hbs, sub_length by done. nia.
Qed.

(** The driver is asked for the sectors of the blocks, and only if it reports
    success the result is the size. *)
Lemma readData_asks v d b n buffer : device_ok v d → in_device v b n → ∃ br,
  cmd_ br = BD_READ ∧ buffer_ br = buffer ∧ 0 < num_block_ br ∧
  start_block_ br * getSectorSize d = offset_ v * sector_size_ v + b * block_size_ v ∧
  num_block_ br * getSectorSize d = n * block_size_ v ∧
  readData v d (b * block_size_ v) (n * block_size_ v) buffer =
    let '(d', br', _) := drv_addRequest d br in
    Val (d', buffer_ br', if decide (status_ br' = BD_DONE) then n * block_size_ v else -1).
Proof.
  intros Hd Hi. unfold readData. rewrite (checks_pass v d) by done.
  pose proof (request_sectors _ _ _ _ Hd Hi) as (E1 & E2 & Hc & _).
  destruct (device_sizes _ _ Hd) as (k & ? & ? & Hbs & Ek & _).
  rewrite !Z.div_mul by nia. unfold addRequest. simpl. rewrite udiv_pos by done. simpl.
  match goal with |- context [drv_addRequest d ?br] => exists br end.
  split_and!; try done. destruct (drv_addRequest d _) as [[d' br'] r]. simpl. by case_decide.
Qed.

Lemma writeData_asks v d b n buffer : device_ok v d → in_device v b n → ∃ br,
  cmd_ br = BD_WRITE ∧ buffer_ br = buffer ∧ 0 < num_block_ br ∧
  start_block_ br * getSectorSize d = offset_ v * sector_size_ v + b * block_size_ v ∧
  num_block_ br * getSectorSize d = n * block_size_ v ∧
  writeData v d (b * block_size_ v) (n * block_size_ v) buffer =
    let '(d', br', _) := drv_addRequest d br in
    Val (d', if decide (status_ br' = BD_DONE) then n * block_size_ v else -1).
Proof.
  intros Hd Hi. unfold writeData. rewrite (checks_pass v d) by done.
  pose proof (request_sectors _ _ _ _ Hd Hi) as (E1 & E2 & Hc & _).
  destruct (device_sizes _ _ Hd) as (k & ? & ? & Hbs & Ek & _).
  rewrite !Z.div_mul by nia. unfold addRequest. simpl. rewrite udiv_pos by done. simpl.
  match goal with |- context [drv_addRequest d ?br] => exists br end.
  split_and!; try done. destruct (drv_addRequest d _) as [[d' br'] r]. simpl. by case_decide.
Qed.

(** A driver that may fail: a request it does not carry out ends in [BD_ERROR];
    a write that fails may have changed the bytes it was for. *)
Definition may_fail : Prop := ∀ d br, 0 < num_block_ br →
  let at_ := start_block_ br * getSectorSize d in let size := num_block_ br * getSectorSize d in
  fits (drv_bytes d) at_ size → Z.of_nat (length (buffer_ br)) = size →
  let '(d', br', _) := drv_addRequest d br in
  (cmd_ br = BD_READ → d' = d ∧ (status_ br' = BD_DONE ∧ buffer_ br' = sub (drv_bytes d) at_ size ∨ status_ br' = BD_ERROR)) ∧
  (cmd_ br = BD_WRITE → ∃ data, Z.of_nat (length data) = size ∧ drv_bytes d' = patch (drv_bytes d) at_ data ∧
     (status_ br' = BD_DONE ∧ data = buffer_ br ∨ status_ br' = BD_ERROR)).

(** Every transfer of blocks is carried out or reported as failed, and even a
    write that fails changes no other bytes. *)
Lemma faulty_transfer v d b n buffer : may_fail → device_ok v d → in_device v b n →
  Z.of_nat (length buffer) = n * block_size_ v →
  (∃ data r, readData v d (b * block_size_ v) (n * block_size_ v) buffer = Val (d, data, r) ∧
     (r = n * block_size_ v ∧ data = sub (dev_bytes v d) (b * block_size_ v) (n * block_size_ v) ∨ r = -1)) ∧
  (∃ d' data r, writeData v d (b * block_size_ v) (n * block_size_ v) buffer = Val (d', r) ∧
     Z.of_nat (length data) = n * block_size_ v ∧
     drv_bytes d' = patch (drv_bytes d) (offset_ v * sector_size_ v + b * block_size_ v) data ∧
     (r = n * block_size_ v ∧ data = buffer ∨ r = -1)).
Proof.
  intros Hf Hd Hi Hl. pose proof (request_sectors _ _ _ _ Hd Hi) as (E1 & E2 & _ & Hfit & _ & Hh). rewrite E1, E2 in Hfit.
  split.
  - destruct (readData_asks v d b n buffer Hd Hi) as (br & Hc & Hbuf & Hn & Es & En & ->).
    pose proof (Hf d br Hn) as F. cbv zeta in F. rewrite Es, En, Hbuf in F. specialize (F Hfit Hl).
    destruct (drv_addRequest d br) as [[d' br'] r]. destruct (proj1 F Hc) as [-> [[Hst ->]|Hst]]; rewrite Hst; do 2 eexists; (split; [done|]); [left|by right].
    split; [done|]. unfold dev_bytes. destruct Hi as (? & ? & ?), (device_sizes _ _ Hd) as (k & ? & ? & Hbs & _), Hh as (? & ? & ?).
    assert (0 < block_size_ v) by nia. by rewrite sub_sub by nia.
  - destruct (writeData_asks v d b n buffer Hd Hi) as (br & Hc & Hbuf & Hn & Es & En & ->).
    pose proof (Hf d br Hn) as F. cbv zeta in F. rewrite Es, En, Hbuf in F. specialize (F Hfit Hl).
    destruct (drv_addRequest d br) as [[d' br'] r]. destruct (proj2 F Hc) as (data & Hdl & Hb & [[Hst ->]|Hst]); rewrite Hst;
      do 3 eexists; (split; [done|]); eauto.
Qed.

(** A request that is not for whole blocks fails its assertion. *)
Lemma misaligned v d offset size buffer : device_ok v d →
  offset mod block_size_ v ≠ 0 ∨ size mod block_size_ v ≠ 0 →
  readData v d offset size buffer = Err EAssert ∧ writeData v d offset size buffer = Err EAssert.
Proof.
  intros Hd Hm. destruct (device_sizes _ _ Hd) as (k & ? & ? & Hbs & _).
  unfold readData, writeData. rewrite !umod_pos by nia. simpl.
  destruct (Z.eqb_spec (offset mod block_size_ v) 0), (Z.eqb_spec (size mod block_size_ v) 0); simpl; tauto.
Qed.

(** So does one that leaves the device. *)
Lemma out_of_device v d offset size buffer : device_ok v d → 0 <= offset → 0 <= size →
  dev_blocks v * block_size_ v < offset + size < 2 ^ 32 →
  readData v d offset size buffer = Err EAssert ∧ writeData v d offset size buffer = Err EAssert.
Proof.
  intros Hd ? ? Hr. destruct (device_sizes _ _ Hd) as (k & ? & ? & Hbs & _ & _ & Hn & ? & ?).
  unfold readData, writeData. rewrite !umod_pos by nia. simpl.
  destruct (Z.eqb_spec (offset mod block_size_ v) 0), (Z.eqb_spec (size mod block_size_ v) 0); simpl; try done.
  rewrite Hn. simpl. rewrite !wrap_small by nia. by rewrite (proj2 (Z.leb_gt _ _)) by lia.
Qed.

End device.

Section laws.
Context {D : Type} `{BDDriverLaws D}.

Theorem device_readData_reads v d b n buffer : device_ok v d → in_device v b n →
  Z.of_nat (length buffer) = n * block_size_ v →
  readData v d (b * block_size_ v) (n * block_size_ v) buffer =
  Val (d, sub (dev_bytes v d) (b * block_size_ v) (n * block_size_ v), n * block_size_ v).
Proof.
  intros Hd Hi Hl. pose proof (request_sectors _ _ _ _ Hd Hi) as (E1 & E2 & _ & Hf & _ & Hh). rewrite E1, E2 in Hf.
  destruct (readData_asks v d b n buffer Hd Hi) as (br & Hc & Hbuf & Hn & Es & En & ->).
  destruct (drv_read d br Hc Hn) as [r ->]; [by rewrite Es, En|by rewrite Hbuf, En|].
  destruct br. simpl in *. unfold dev_bytes. destruct Hi as (? & ? & ?), Hh as (? & ? & ?), (device_sizes _ _ Hd) as (k & ? & ? & Hbs & _).
  assert (0 < block_size_ v) by nia. rewrite sub_sub by nia. by rewrite Es, En.
Qed.

Theorem device_writeData_writes v d b n buffer : device_ok v d → in_device v b n →
  Z.of_nat (length buffer) = n * block_size_ v →
  ∃ d', writeData v d (b * block_size_ v) (n * block_size_ v) buffer = Val (d', n * block_size_ v) ∧
    device_ok v d' ∧ dev_bytes v d' = patch (dev_bytes v d) (b * block_size_ v) buffer.
Proof.
  intros Hd Hi Hl. pose proof (request_sectors _ _ _ _ Hd Hi) as (E1 & E2 & _ & Hf & Hg & Hh). rewrite E1, E2 in Hf.
  destruct (writeData_asks v d b n buffer Hd Hi) as (br & Hc & Hbuf & Hn & Es & En & ->).
  destruct (drv_write d br Hc Hn) as (d' & r & -> & Hss & Hb); [by rewrite Es, En|by rewrite Hbuf, En|].
  rewrite Es, Hbuf in Hb. rewrite <- Hl in Hf. destruct Hg as (? & ? & Hg). destruct br. simpl in *. exists d'. split; [done|].
  split.
  - destruct Hd as [? ? Hfit ? ?]. split; [congruence|done| |done..].
    rewrite Hb. destruct Hfit as (? & ? & ?). repeat split; [done..|]. by rewrite patch_length.
  - unfold dev_bytes in *. rewrite sub_length in Hg by done. rewrite Hb, sub_patch_sub; [done|done|done|lia].
Qed.

End laws.
End BD.

(** ** A disc in memory *)

Module Mem.

Record MemDisc : Set := mkDisc { mem_bytes : list Z }.

(** Sectors of 512 bytes; requests are carried out at once. *)
#[export] Instance MemDisc_driver : BDDriver MemDisc := {
  getSectorSize _ := 512;
  drv_bytes := mem_bytes;
  drv_addRequest d br :=
    let start := start_block_ br * 512 in
    match cmd_ br with
    | BD_READ => (d, setStatus BD_DONE (setBuffer (sub (mem_bytes d) start (num_block_ br * 512)) br), 0)
    | BD_WRITE => (mkDisc (patch (mem_bytes d) start (buffer_ br)), setStatus BD_DONE br, 0)
    | _ => (d, setStatus BD_ERROR br, 0)
    end;
}.

#[export] Instance MemDisc_laws : BDDriverLaws MemDisc.
Proof.
  split.
  - by intros d.
  - intros d br Hc _ _ _. simpl. rewrite Hc. by eexists.
  - intros d br Hc _ _ _. simpl. rewrite Hc. by do 2 eexists.
Qed.

(** A disc of [n] blocks of 1024 zeros, and the device over all of it. *)
Definition blank (n : Z) : MemDisc := mkDisc (replicate (Z.to_nat (n * 1024)) 0).
Definition whole (n : Z) : BD.BDVirtualDevice := BD.mkDevice 0 0 (n * 2) 512 1024 true 1 0 [].

Lemma blank_device n : 0 <= n < 2 ^ 20 → BD.device_ok (whole n) (blank n) ∧ BD.dev_blocks (whole n) = n.
Proof.
  intros Hn. split.
  - split; simpl; [done|by exists 2| |lia|lia].
    repeat split; simpl; rewrite ?length_replicate; lia.
  - unfold BD.dev_blocks. simpl. change (1024 / 512) with 2. apply Z.div_mul. lia.
Qed.


(** A disc with a bad sector, requests for which fail. *)
Record FlakyDisc : Set := mkFlaky { flaky_disc : MemDisc; bad_sector : Z }.

#[local] Instance FlakyDisc_driver : BDDriver FlakyDisc := {
  getSectorSize _ := 512;
  drv_bytes f := mem_bytes (flaky_disc f);
  drv_addRequest f br :=
    if (start_block_ br <=? bad_sector f) && (bad_sector f <? start_block_ br + num_block_ br)
    then (f, setStatus BD_ERROR br, -1)
    else let '(d, br, r) := drv_addRequest (flaky_disc f) br in (mkFlaky d (bad_sector f), br, r);
}.

#[local] Instance FlakyDisc_sectors : BDSectors FlakyDisc.
Proof. by intros d. Qed.

Lemma flaky_may_fail : BD.may_fail (D := FlakyDisc).
Proof.
  intros d br _ at_ size Hf Hl. simpl. destruct (_ && _).
  - split; intros Hc; [split; [done|by right]|].
    exists (sub (drv_bytes d) at_ size). split; [by apply sub_length, Hf|]. split; [|by right].
    symmetry. apply patch_self, Hf.
  - destruct (cmd_ br) eqn:E; simpl; (split; intros; try congruence).
    + split; [by destruct d as [[]]|by left].
    + exists (buffer_ br). split; [done|]. split; [done|by left].
Qed.

Lemma flaky_reports : ∃ d r,
  BD.readData (whole 2) (mkFlaky (blank 2) 3) 1024 1024 [] = Val (d, [], r) ∧ r = -1.
Proof. do 2 eexists. split; reflexivity. Qed.

End Mem.
