(* ===== verification/MinixStorage.v ===== *)
(** * MinixStorageManager: free zones and inodes

    Models [common/source/fs/minixfs/MinixStorageManager.cpp] and
    [StorageManager.cpp]: the two bitmaps that say which zones and inodes are in
    use, their search, and their image on the disc.  The search only uses the
    interface [BitStore]; loading and flushing move whole bytes of [Bitmap].
    [flush] leaves the image to its caller, which writes it to block 2. *)
From S2P Require Import Prelude Bitmap Buffers.

Module Storage.

#[local] Existing Instance Bitmap.bitmap_store.
#[local] Existing Instance Bitmap.bitmap_store_laws.

Definition BLOCK_SIZE : Z := 1024.

(** ** Searching *)

Section search.
Context {B : Type} `{BitStore B}.

(** The loop of [allocZone] and [allocInode], which differ in the test made
    when the position goes back to 0: only [allocZone] ([at_wrap]) stops there
    when it is back at [curr]. *)
Fixpoint alloc_loop (at_wrap : bool) (fuel : nat) (bm : B) (curr pos : Z) : res (B * Z) :=
  match fuel with
  | O => Err EFuel
  | S fuel =>
      if pos =? curr then Err EAssert
      else
        let wraps := bs_size bm <=? pos in
        let pos := if wraps then 0 else pos in
        if at_wrap && wraps && (pos =? curr) then Err EAssert
        else
          used ← bs_get bm pos;
          if negb used : bool then
            '(bm, _) ← bs_set bm pos;
            Val (bm, pos)
          else alloc_loop at_wrap fuel bm curr (u64 (pos + 1))
  end.
End search.

(** ** The manager *)

Record MinixStorageManager : Set := mkStorage {
  inode_bitmap_ : Bitmap.Bitmap;
  zone_bitmap_ : Bitmap.Bitmap;
  curr_zone_pos_ : Z;
  curr_inode_pos_ : Z;
  num_inode_bm_blocks_ : Z;
  num_zone_bm_blocks_ : Z;
}.

(** Enough for one round over a bitmap. *)
Definition round (bm : Bitmap.Bitmap) : nat := S (S (Z.to_nat (Bitmap.getSize bm))).

Definition allocZone (sm : MinixStorageManager) : res (MinixStorageManager * Z) :=
  '(bm, pos) ← alloc_loop true (round (zone_bitmap_ sm)) (zone_bitmap_ sm) (curr_zone_pos_ sm) (u64 (curr_zone_pos_ sm + 1));
  Val (mkStorage (inode_bitmap_ sm) bm pos (curr_inode_pos_ sm) (num_inode_bm_blocks_ sm) (num_zone_bm_blocks_ sm), pos).

(** The search for an inode may not end: it is given its fuel. *)
Definition allocInode (fuel : nat) (sm : MinixStorageManager) : res (MinixStorageManager * Z) :=
  '(bm, pos) ← alloc_loop false fuel (inode_bitmap_ sm) (curr_inode_pos_ sm) (u64 (curr_inode_pos_ sm + 1));
  Val (mkStorage bm (zone_bitmap_ sm) (curr_zone_pos_ sm) pos (num_inode_bm_blocks_ sm) (num_zone_bm_blocks_ sm), pos).

Definition freeZone (sm : MinixStorageManager) (index : Z) : res MinixStorageManager :=
  '(bm, _) ← Bitmap.unsetBit (zone_bitmap_ sm) index;
  Val (mkStorage (inode_bitmap_ sm) bm (curr_zone_pos_ sm) (curr_inode_pos_ sm) (num_inode_bm_blocks_ sm) (num_zone_bm_blocks_ sm)).

Definition freeInode (sm : MinixStorageManager) (index : Z) : res MinixStorageManager :=
  '(bm, _) ← Bitmap.unsetBit (inode_bitmap_ sm) index;
  Val (mkStorage bm (zone_bitmap_ sm) (curr_zone_pos_ sm) (curr_inode_pos_ sm) (num_inode_bm_blocks_ sm) (num_zone_bm_blocks_ sm)).

Definition isInodeSet (sm : MinixStorageManager) (index : Z) : res bool :=
  _ ← kassert (index <? Bitmap.getSize (inode_bitmap_ sm));
  Bitmap.getBit (inode_bitmap_ sm) index.

Definition getNumUsedInodes (sm : MinixStorageManager) : Z := u32 (Bitmap.getNumBitsSet (inode_bitmap_ sm)).

(** ** Loading *)

(** Bytes [i], [i + 1], ... of the bitmap are set to [n] bytes of the buffer
    from [p]. *)
Fixpoint load_bytes (n : nat) (bm : Bitmap.Bitmap) (buffer : list Z) (p i : Z) : res Bitmap.Bitmap :=
  match n with
  | O => Val bm
  | S n =>
      b ← zget buffer p;
      bm ← Bitmap.setByte bm i b;
      load_bytes n bm buffer (p + 1) (i + 1)
  end.

(** The bits [bit], [bit + 1], ... behind the last whole byte [i]; [k] are left. *)
Fixpoint load_bits (k : nat) (bm : Bitmap.Bitmap) (buffer : list Z) (p i bit : Z) : res Bitmap.Bitmap :=
  match k with
  | O => Val bm
  | S k =>
      byte ← zget buffer p;
      bm ← (if negb (Z.land (Z.shiftr byte bit) 1 =? 0)
            then '(bm, _) ← Bitmap.setBit bm (i * 8 + bit); Val bm
            else Val bm);
      load_bits k bm buffer p i (bit + 1)
  end.

Definition load_bitmap (buffer : list Z) (p n : Z) : res Bitmap.Bitmap :=
  bm ← load_bytes (Z.to_nat (n / 8)) (Bitmap.new n) buffer p 0;
  load_bits (Z.to_nat (n mod 8)) bm buffer (p + n / 8) (n / 8) 0.

(** The constructor: every parameter but the buffer is a [uint16]. *)
Definition new (bm_buffer : list Z) (num_inode_bm_blocks num_zone_bm_blocks num_inodes num_zones : Z) : res MinixStorageManager :=
  ibm ← load_bitmap bm_buffer 0 num_inodes;
  zbm ← load_bitmap bm_buffer (num_inode_bm_blocks * BLOCK_SIZE) num_zones;
  Val (mkStorage ibm zbm 0 0 num_inode_bm_blocks num_zone_bm_blocks).

(** ** Flushing *)

Fixpoint store_bytes (n : nat) (buffer : list Z) (bm : Bitmap.Bitmap) (p i : Z) : res (list Z) :=
  match n with
  | O => Val buffer
  | S n =>
      b ← Bitmap.getByte bm i;
      buffer ← zset buffer p b;
      store_bytes n buffer bm (p + 1) (i + 1)
  end.

(** The byte put together from the bits behind the last whole byte [i]; the
    statement is [byte &= 0x01 << bit]. *)
Fixpoint last_byte (k : nat) (bm : Bitmap.Bitmap) (rest i bit byte : Z) : res Z :=
  match k with
  | O => Val byte
  | S k =>
      set ← (if bit <? rest then Bitmap.getBit bm (i * 8 + bit) else Val true);
      last_byte k bm rest i (bit + 1) (if set : bool then Z.land byte (Z.shiftl 1 bit) else byte)
  end.

(** [n] bytes 0xff from [p]. *)
Fixpoint fill_ff (n : nat) (buffer : list Z) (p : Z) : res (list Z) :=
  match n with
  | O => Val buffer
  | S n => buffer ← zset buffer p 0xff; fill_ff n buffer (p + 1)
  end.

(** One bitmap stored from [p], then 0xff up to the position [limit] counted in
    bytes of the bitmap ([i_byte], [z_byte] in the code); the position behind. *)
Definition store_bitmap (buffer : list Z) (bm : Bitmap.Bitmap) (p limit : Z) : res (list Z * Z) :=
  let n := Bitmap.getSize bm in
  buffer ← store_bytes (Z.to_nat (n / 8)) buffer bm p 0;
  byte ← last_byte 8 bm (n mod 8) (n / 8) 0 0;
  buffer ← zset buffer (p + n / 8) byte;
  let k := limit - (n / 8 + 1) in
  buffer ← fill_ff (Z.to_nat k) buffer (p + n / 8 + 1);
  Val (buffer, p + n / 8 + 1 + Z.max 0 k).

(** The image of both bitmaps.  [new char[n]] is an array of unknown contents. *)
Definition flush (fresh : list Z) (sm : MinixStorageManager) : res (list Z) :=
  '(buffer, p) ← store_bitmap fresh (inode_bitmap_ sm) 0 (num_inode_bm_blocks_ sm * BLOCK_SIZE);
  '(buffer, _) ← store_bitmap buffer (zone_bitmap_ sm) p (num_zone_bm_blocks_ sm * BLOCK_SIZE);
  Val buffer.

(** ** The search takes the next free position *)

Section search_laws.
Context {B : Type} `{BitStoreLaws B}.
Context (bm : B) (Hok : bs_ok bm) (Hsize : bs_size bm < 2 ^ 64).

(** The first position of a list that is not in use. *)
Definition first_free (l : list Z) : option Z := List.find (λ p, negb (bs_test bm p)) l.

(** Taking a position, if there is one. *)
Definition take_position (p : option Z) : res (B * Z) :=
  match p with
  | Some p => '(bm, _) ← bs_set bm p; Val (bm, p)
  | None => Err EAssert
  end.

Lemma seqZ_step m n : 0 < n → seqZ m n = m :: seqZ (m + 1) (n - 1).
Proof.
  intros. rewrite (seqZ_cons m n) by done. unfold Z.succ, Z.pred. do 3 f_equal; lia.
Qed.

(** A step of the loop at a position within the bitmap that is not [curr]. *)
Lemma alloc_step at_wrap fuel curr pos : 0 <= pos < bs_size bm → pos ≠ curr →
  alloc_loop at_wrap (S fuel) bm curr pos =
  if negb (bs_test bm pos) then take_position (Some pos) else alloc_loop at_wrap fuel bm curr (pos + 1).
Proof.
  intros Hp Hc. cbn [alloc_loop]. rewrite (proj2 (Z.eqb_neq _ _) Hc).
  rewrite (proj2 (Z.leb_gt _ _)) by lia. rewrite andb_false_r, andb_false_l.
  rewrite bs_get_in by done. cbn [mbind res_bind]. by rewrite wrap_small by lia.
Qed.

(** Below [curr]. *)
Lemma alloc_low at_wrap curr fuel : ∀ pos, 0 <= pos <= curr → curr < bs_size bm →
  curr - pos < Z.of_nat fuel →
  alloc_loop at_wrap fuel bm curr pos = take_position (first_free (seqZ pos (curr - pos))).
Proof.
  induction fuel as [|fuel IH]; intros pos Hp Hc Hf; [lia|].
  destruct (decide (pos = curr)) as [->|Hne].
  { rewrite Z.sub_diag. cbn [alloc_loop]. by rewrite Z.eqb_refl. }
  rewrite alloc_step, seqZ_step by lia. unfold first_free. cbn [List.find].
  destruct (negb (bs_test bm pos)); [done|]. rewrite IH by lia.
  by replace (curr - (pos + 1)) with (curr - pos - 1) by lia.
Qed.

(** At the wrap, when [curr] is not 0 or the loop looks for it. *)
Lemma alloc_wrap at_wrap curr fuel : 0 <= curr < bs_size bm → at_wrap = true ∨ 0 < curr →
  curr < Z.of_nat fuel →
  alloc_loop at_wrap fuel bm curr (bs_size bm) = take_position (first_free (seqZ 0 curr)).
Proof.
  intros Hc Hw Hf. destruct (decide (curr = 0)) as [->|Hne].
  - destruct Hw as [->|?]; [|lia]. destruct fuel; [lia|]. cbn [alloc_loop].
    rewrite (proj2 (Z.eqb_neq _ _)), Z.leb_refl by lia. done.
  - destruct fuel as [|fuel]; [lia|].
    transitivity (alloc_loop at_wrap (S fuel) bm curr 0); [|rewrite alloc_low by lia; by rewrite Z.sub_0_r].
    rewrite (alloc_step at_wrap fuel curr 0) by lia. cbn [alloc_loop]. rewrite (proj2 (Z.eqb_neq _ _)), Z.leb_refl by lia.
    rewrite (proj2 (Z.eqb_neq 0 curr)), andb_false_r by lia. rewrite bs_get_in by (done || lia).
    cbn [mbind res_bind]. by rewrite wrap_small by lia.
Qed.

(** Above [curr]: up to the end first, then what [rest] gives. *)
Lemma alloc_high at_wrap curr k (rest : res (B * Z)) : 0 <= curr → 0 <= k →
  ∀ fuel pos, curr < pos <= bs_size bm → bs_size bm - pos + k <= Z.of_nat fuel →
  (first_free (seqZ pos (bs_size bm - pos)) = None →
   ∀ fuel', k <= Z.of_nat fuel' → alloc_loop at_wrap fuel' bm curr (bs_size bm) = rest) →
  alloc_loop at_wrap fuel bm curr pos =
  match first_free (seqZ pos (bs_size bm - pos)) with Some p => take_position (Some p) | None => rest end.
Proof.
  intros Hc Hk. induction fuel as [|fuel IH]; intros pos Hp Hf Hrest.
  { assert (pos = bs_size bm) as -> by lia. rewrite Z.sub_diag in *. apply Hrest; [done|lia]. }
  destruct (decide (pos = bs_size bm)) as [->|Hne].
  { rewrite Z.sub_diag in *. apply Hrest; [done|lia]. }
  rewrite seqZ_step in Hrest |- * by lia. rewrite alloc_step by lia. unfold first_free in *. cbn [List.find] in *.
  destruct (negb (bs_test bm pos)); [done|]. rewrite Z.sub_add_distr in IH || idtac.
  rewrite IH; rewrite ?Z.sub_add_distr; [done|lia|lia|done].
Qed.

Lemma first_free_app l k : first_free (l ++ k) =
  match first_free l with Some p => Some p | None => first_free k end.
Proof. unfold first_free. induction l as [|p l IH]; simpl; [done|]. by destruct (negb _). Qed.

Lemma first_free_Some l p : first_free l = Some p → p ∈ l ∧ bs_test bm p = false.
Proof. intros [? ?%negb_true_iff]%find_some. split; [by apply list_elem_of_In|done]. Qed.

Lemma first_free_None l : first_free l = None → ∀ p, p ∈ l → bs_test bm p = true.
Proof. intros Hn p Hp%list_elem_of_In. apply negb_false_iff. by apply (find_none _ _ Hn). Qed.

(** The order in which the positions are looked at: behind [curr], then from
    the start; [curr] itself is not looked at. *)
Definition search_order (curr : Z) : list Z := seqZ (curr + 1) (bs_size bm - (curr + 1)) ++ seqZ 0 curr.

Lemma alloc_next at_wrap curr fuel : 0 <= curr < bs_size bm → at_wrap = true ∨ 0 < curr →
  bs_size bm < Z.of_nat fuel →
  alloc_loop at_wrap fuel bm curr (u64 (curr + 1)) = take_position (first_free (search_order curr)).
Proof.
  intros Hc Hw Hf. rewrite wrap_small by lia.
  rewrite (alloc_high at_wrap curr (curr + 1) (take_position (first_free (seqZ 0 curr)))); [|lia..|].
  - unfold search_order. rewrite first_free_app. by destruct (first_free _).
  - intros _ fuel' ?. apply alloc_wrap; [done..|lia].
Qed.

(** Without the test at the wrap and with [curr] = 0, a search that finds
    nothing behind [curr] looks at 0 as well, and then starts again. *)
Lemma alloc_zero_forever fuel : (∀ p, 0 <= p < bs_size bm → bs_test bm p = true) → 0 < bs_size bm →
  ∀ pos, 0 < pos <= bs_size bm → alloc_loop false fuel bm 0 pos = Err EFuel.
Proof.
  intros Hall Hs. induction fuel as [|fuel IH]; intros pos Hp; [done|].
  destruct (decide (pos = bs_size bm)) as [->|Hne].
  - cbn [alloc_loop]. rewrite (proj2 (Z.eqb_neq _ _)), Z.leb_refl by lia. rewrite andb_false_l.
    rewrite bs_get_in by (done || lia). cbn [mbind res_bind]. rewrite Hall by lia. cbn [negb].
    rewrite wrap_small by lia. apply IH. lia.
  - rewrite alloc_step by lia. rewrite Hall by lia. apply IH. lia.
Qed.

Lemma alloc_zero fuel : 1 < bs_size bm → bs_size bm <= Z.of_nat fuel →
  alloc_loop false fuel bm 0 1 =
  match first_free (search_order 0 ++ [0]) with Some p => take_position (Some p) | None => Err EFuel end.
Proof.
  intros Hs Hf. unfold search_order. change (0 + 1) with 1. rewrite (seqZ_nil 0 0), app_nil_r, first_free_app by lia.
  destruct (bs_test bm 0) eqn:E0.
  - destruct (first_free (seqZ 1 (bs_size bm - 1))) as [p|] eqn:E.
    + rewrite (alloc_high false 0 0 (Err EFuel)); [|lia..|].
      * by rewrite E.
      * by rewrite E.
    + rewrite alloc_zero_forever; [|intros p Hp|lia..].
      * unfold first_free. cbn [List.find]. by rewrite E0.
      * destruct (decide (p = 0)) as [->|]; [done|]. apply (first_free_None _ E), elem_of_seqZ. lia.
  - rewrite (alloc_high false 0 1 (take_position (Some 0))); [|lia..|].
    + destruct (first_free (seqZ 1 _)); [done|]. unfold first_free. cbn [List.find]. by rewrite E0.
    + intros _ [|fuel'] Hf'; [lia|]. cbn [alloc_loop]. rewrite (proj2 (Z.eqb_neq _ _)), Z.leb_refl by lia.
      rewrite andb_false_l, bs_get_in by (done || lia). cbn [mbind res_bind]. by rewrite E0.
Qed.
End search_laws.

(** ** The manager's operations *)

(** Bitmaps of the sizes the file system uses, and positions within them. *)
Record storage_ok (sm : MinixStorageManager) : Prop := {
  st_inodes : Bitmap.bitmap_ok (inode_bitmap_ sm);
  st_zones : Bitmap.bitmap_ok (zone_bitmap_ sm);
  st_num_inodes : 0 < Bitmap.size_ (inode_bitmap_ sm) < 2 ^ 16;
  st_num_zones : 0 < Bitmap.size_ (zone_bitmap_ sm) < 2 ^ 16;
  st_curr_zone : 0 <= curr_zone_pos_ sm < Bitmap.size_ (zone_bitmap_ sm);
  st_curr_inode : 0 <= curr_inode_pos_ sm < Bitmap.size_ (inode_bitmap_ sm);
}.

Definition zone_used (sm : MinixStorageManager) (p : Z) : bool := Bitmap.test (zone_bitmap_ sm) p.
Definition inode_used (sm : MinixStorageManager) (p : Z) : bool := Bitmap.test (inode_bitmap_ sm) p.

(** The only difference of [sm'] is that the zones (inodes) are used as [z]
    ([i]) says, and where the next search starts. *)
Record updated (sm : MinixStorageManager) (z i : Z → bool) (sm' : MinixStorageManager) : Prop := {
  up_ok : storage_ok sm';
  up_zones : ∀ p, 0 <= p → zone_used sm' p = z p;
  up_inodes : ∀ p, 0 <= p → inode_used sm' p = i p;
  up_num_zones : Bitmap.size_ (zone_bitmap_ sm') = Bitmap.size_ (zone_bitmap_ sm);
  up_num_inodes : Bitmap.size_ (inode_bitmap_ sm') = Bitmap.size_ (inode_bitmap_ sm);
  up_blocks : num_inode_bm_blocks_ sm' = num_inode_bm_blocks_ sm ∧ num_zone_bm_blocks_ sm' = num_zone_bm_blocks_ sm;
}.

Definition with_used (p : Z) (used : Z → bool) (q : Z) : bool := bool_decide (p = q) || used q.
Definition without (p : Z) (used : Z → bool) (q : Z) : bool := negb (bool_decide (p = q)) && used q.

(** The zones (inodes) in the order in which a search looks at them. *)
Definition next_zone (sm : MinixStorageManager) : option Z :=
  first_free (zone_bitmap_ sm) (search_order (zone_bitmap_ sm) (curr_zone_pos_ sm)).
Definition next_inode (sm : MinixStorageManager) : option Z :=
  first_free (inode_bitmap_ sm) (search_order (inode_bitmap_ sm) (curr_inode_pos_ sm) ++
                                 (if curr_inode_pos_ sm =? 0 then [0] else [])).

Lemma search_order_range (bm : Bitmap.Bitmap) curr p : 0 <= curr < Bitmap.size_ bm → p ∈ search_order bm curr →
  0 <= p < Bitmap.size_ bm ∧ p ≠ curr.
Proof.
  unfold search_order. intros Hc [Hp%elem_of_seqZ|Hp%elem_of_seqZ]%elem_of_app;
    unfold bs_size, Bitmap.bitmap_store, Bitmap.getSize in *; lia.
Qed.

Lemma next_zone_free sm p : storage_ok sm → next_zone sm = Some p →
  0 <= p < Bitmap.size_ (zone_bitmap_ sm) ∧ p ≠ curr_zone_pos_ sm ∧ zone_used sm p = false.
Proof.
  intros Hok [Hp Hf]%first_free_Some. apply search_order_range in Hp; [|by apply Hok]. naive_solver.
Qed.

Lemma next_inode_free sm p : storage_ok sm → next_inode sm = Some p →
  0 <= p < Bitmap.size_ (inode_bitmap_ sm) ∧ inode_used sm p = false.
Proof.
  intros Hok [[Hp|Hp]%elem_of_app Hf]%first_free_Some; (split; [|done]).
  - by apply search_order_range in Hp as [? _]; [|apply Hok].
  - destruct (curr_inode_pos_ sm =? 0); [|by apply not_elem_of_nil in Hp].
    apply list_elem_of_singleton in Hp as ->. pose proof (st_num_inodes _ Hok). lia.
Qed.

(** [allocZone] always ends: it takes the next free zone, or there is none but
    perhaps the one it took last. *)
Lemma allocZone_next sm : storage_ok sm →
  match next_zone sm with
  | Some p => ∃ sm', allocZone sm = Val (sm', p) ∧ curr_zone_pos_ sm' = p ∧
      updated sm (with_used p (zone_used sm)) (inode_used sm) sm'
  | None => allocZone sm = Err EAssert
  end.
Proof.
  intros Hok. pose proof Hok as [Hi Hz Hin Hzn Hcz Hci]. unfold allocZone.
  rewrite alloc_next; [|done|simpl; unfold Bitmap.getSize; lia|done|by left|unfold round; simpl; lia].
  fold (next_zone sm). destruct (next_zone sm) as [p|] eqn:E; [|done].
  destruct (next_zone_free _ _ Hok E) as (Hp & _ & _).
  destruct (Bitmap.setBit_in _ p Hz Hp) as (bm' & Hs & Hok' & Hsz & _ & Ht).
  simpl. rewrite Hs. simpl. eexists. split_and!; [done..|]. split; simpl; try done.
  split; simpl; rewrite ?Hsz; try done; lia.
Qed.

Lemma allocInode_search sm fuel : storage_ok sm → Bitmap.size_ (inode_bitmap_ sm) < Z.of_nat fuel →
  1 < Bitmap.size_ (inode_bitmap_ sm) →
  alloc_loop false fuel (inode_bitmap_ sm) (curr_inode_pos_ sm) (u64 (curr_inode_pos_ sm + 1)) =
  match next_inode sm with
  | Some p => take_position (inode_bitmap_ sm) (Some p)
  | None => Err (if curr_inode_pos_ sm =? 0 then EFuel else EAssert)
  end.
Proof.
  intros Hok Hf H1. pose proof Hok as [Hi Hz Hin Hzn Hcz Hci].
  unfold next_inode. destruct (Z.eqb_spec (curr_inode_pos_ sm) 0) as [E|E].
  - rewrite E. change (u64 (0 + 1)) with 1.
    apply alloc_zero; [done|simpl; unfold Bitmap.getSize; lia|done|simpl; unfold Bitmap.getSize; lia].
  - rewrite app_nil_r, alloc_next; [|done|simpl; unfold Bitmap.getSize; lia|done|right; lia|done].
    by destruct (first_free _ _).
Qed.

(** [allocInode] ends, too, unless every inode is used and none was allocated
    since the file system was mounted. *)
Lemma allocInode_next sm fuel : storage_ok sm → Bitmap.size_ (inode_bitmap_ sm) < Z.of_nat fuel →
  1 < Bitmap.size_ (inode_bitmap_ sm) →
  match next_inode sm with
  | Some p => ∃ sm', allocInode fuel sm = Val (sm', p) ∧ curr_inode_pos_ sm' = p ∧
      updated sm (zone_used sm) (with_used p (inode_used sm)) sm'
  | None => allocInode fuel sm = Err (if curr_inode_pos_ sm =? 0 then EFuel else EAssert)
  end.
Proof.
  intros Hok Hf H1. pose proof Hok as [Hi Hz Hin Hzn Hcz Hci]. unfold allocInode.
  rewrite allocInode_search by done. destruct (next_inode sm) as [p|] eqn:E; [|done].
  destruct (next_inode_free _ _ Hok E) as (Hp & _).
  destruct (Bitmap.setBit_in _ p Hi Hp) as (bm' & Hs & Hok' & Hsz & _ & Ht).
  simpl. rewrite Hs. simpl. eexists. split_and!; [done..|]. split; simpl; try done.
  split; simpl; rewrite ?Hsz; try done; lia.
Qed.

(** It counts the inode, and leaves the zones alone. *)
Lemma allocInode_counts sm fuel sm' p : storage_ok sm → Bitmap.size_ (inode_bitmap_ sm) < Z.of_nat fuel →
  1 < Bitmap.size_ (inode_bitmap_ sm) → allocInode fuel sm = Val (sm', p) →
  Bitmap.num_bits_set_ (inode_bitmap_ sm') = Bitmap.num_bits_set_ (inode_bitmap_ sm) + 1 ∧ zone_bitmap_ sm' = zone_bitmap_ sm.
Proof.
  intros Hok Hf H1. unfold allocInode. rewrite allocInode_search by done.
  destruct (next_inode sm) as [q|] eqn:E; [|done]. destruct (next_inode_free _ _ Hok E) as (Hq & Hu).
  destruct (Bitmap.setBit_in _ q (st_inodes _ Hok) Hq) as (bm' & Hs & _ & _ & Hc & _).
  simpl. rewrite Hs. simpl. intros [= <- <-]. simpl. split; [|done]. unfold inode_used in Hu. by rewrite Hc, Hu.
Qed.

Lemma freeZone_frees sm p : storage_ok sm → 0 <= p < Bitmap.size_ (zone_bitmap_ sm) →
  ∃ sm', freeZone sm p = Val sm' ∧ updated sm (without p (zone_used sm)) (inode_used sm) sm'.
Proof.
  intros Hok Hp. pose proof Hok as [Hi Hz Hin Hzn Hcz Hci].
  destruct (Bitmap.unsetBit_in _ p Hz Hp) as (bm' & Hs & Hok' & Hsz & _ & Ht).
  unfold freeZone. rewrite Hs. simpl. eexists. split; [done|]. split; simpl; try done.
  split; simpl; rewrite ?Hsz; done.
Qed.

Lemma freeInode_frees sm p : storage_ok sm → 0 <= p < Bitmap.size_ (inode_bitmap_ sm) →
  ∃ sm', freeInode sm p = Val sm' ∧ updated sm (zone_used sm) (without p (inode_used sm)) sm'.
Proof.
  intros Hok Hp. pose proof Hok as [Hi Hz Hin Hzn Hcz Hci].
  destruct (Bitmap.unsetBit_in _ p Hi Hp) as (bm' & Hs & Hok' & Hsz & _ & Ht).
  unfold freeInode. rewrite Hs. simpl. eexists. split; [done|]. split; simpl; try done.
  split; simpl; rewrite ?Hsz; done.
Qed.

(** ** Loading reads the bits of the image *)

(** Bit [i] of the bytes from [p]. *)
Definition image_bit (buffer : list Z) (p i : Z) : bool :=
  match buffer !! Z.to_nat (p + i / 8) with Some b => Z.testbit b (i mod 8) | None => false end.

Lemma load_bytes_ok n : ∀ bm buffer p i, Bitmap.bitmap_ok bm → Forall is_byte buffer → 0 <= p → 0 <= i →
  (i + Z.of_nat n) * 8 <= Bitmap.size_ bm → fits buffer p (Z.of_nat n) →
  ∃ bm', load_bytes n bm buffer p i = Val bm' ∧ Bitmap.bitmap_ok bm' ∧ Bitmap.size_ bm' = Bitmap.size_ bm ∧
    ∀ j, 0 <= j → Bitmap.test bm' j =
      if bool_decide (i * 8 <= j < (i + Z.of_nat n) * 8) then image_bit buffer (p - i) j else Bitmap.test bm j.
Proof.
  induction n as [|n IH]; intros bm buffer p i Hok Hb Hp Hi Hs Hf.
  { exists bm. split_and!; try done. intros j Hj. by rewrite bool_decide_false by lia. }
  cbn [load_bytes]. destruct Hf as (? & ? & Hf).
  destruct (zget_lt buffer p ltac:(lia)) as [b Hg]. rewrite Hg. cbn [mbind res_bind].
  apply zget_Val in Hg as [_ Hlk]. pose proof (Forall_lookup_1 _ _ _ _ Hb Hlk) as Hbyte.
  destruct (Bitmap.setByte_in bm i b Hok ltac:(lia) ltac:(lia) Hbyte) as (bm1 & -> & Hok1 & Hs1 & _ & Ht1).
  cbn [mbind res_bind].
  destruct (IH bm1 buffer (p + 1) (i + 1)) as (bm' & -> & Hok' & Hs' & Ht'); [done|done|lia..|repeat split; lia|].
  exists bm'. split_and!; [done|done|congruence|]. intros j Hj. rewrite Ht', Ht1 by done.
  replace (p + 1 - (i + 1)) with (p - i) by lia.
  destruct (decide (j / 8 = i)) as [Ej|Ej].
  - assert (i * 8 <= j < i * 8 + 8) by (Z.to_euclidean_division_equations; lia).
    rewrite (bool_decide_false (_ ∧ _)), !bool_decide_true by lia.
    unfold image_bit. rewrite Ej. replace (p - i + i) with p by lia. by rewrite Hlk.
  - rewrite (bool_decide_false (j / 8 = i)) by done.
    rewrite (bool_decide_ext _ (i * 8 <= j < (i + Z.of_nat (S n)) * 8)); [done|].
    Z.to_euclidean_division_equations; lia.
Qed.

Lemma load_bits_ok k : ∀ bm buffer p i bit b, Bitmap.bitmap_ok bm → 0 <= p → 0 <= i → 0 <= bit →
  bit + Z.of_nat k <= 8 → i * 8 + bit + Z.of_nat k <= Bitmap.size_ bm → buffer !! Z.to_nat p = Some b →
  ∃ bm', load_bits k bm buffer p i bit = Val bm' ∧ Bitmap.bitmap_ok bm' ∧ Bitmap.size_ bm' = Bitmap.size_ bm ∧
    ∀ j, 0 <= j → Bitmap.test bm' j =
      bool_decide (i * 8 + bit <= j < i * 8 + bit + Z.of_nat k) && Z.testbit b (j - i * 8) || Bitmap.test bm j.
Proof.
  induction k as [|k IH]; intros bm buffer p i bit b Hok Hp Hi Hbit H8 Hs Hlk.
  { exists bm. split_and!; try done. intros j Hj. by rewrite bool_decide_false by lia. }
  cbn [load_bits]. rewrite (proj2 (zget_Val buffer p b) (conj Hp Hlk)). cbn [mbind res_bind].
  assert (E : negb (Z.land (Z.shiftr b bit) 1 =? 0) = Z.testbit b bit).
  { change 1 with (Z.ones 1). rewrite Z.land_ones by lia. change (2 ^ 1) with 2.
    rewrite Zmod_odd, <- Z.bit0_odd, Z.shiftr_spec, Z.add_0_l by lia. by destruct (Z.testbit b bit). }
  rewrite E. clear E.
  assert (∃ bm1, (if Z.testbit b bit then '(bm, _) ← Bitmap.setBit bm (i * 8 + bit); Val bm else Val bm) = Val bm1 ∧
    Bitmap.bitmap_ok bm1 ∧ Bitmap.size_ bm1 = Bitmap.size_ bm ∧
    ∀ j, 0 <= j → Bitmap.test bm1 j = bool_decide (i * 8 + bit = j) && Z.testbit b bit || Bitmap.test bm j)
    as (bm1 & -> & Hok1 & Hs1 & Ht1).
  { destruct (Z.testbit b bit).
    - destruct (Bitmap.setBit_in bm (i * 8 + bit) Hok ltac:(lia)) as (bm1 & -> & Hok1 & Hs1 & _ & Ht1).
      exists bm1. split_and!; try done. intros j Hj. by rewrite andb_true_r, Ht1.
    - exists bm. split_and!; try done. intros j Hj. by rewrite andb_false_r. }
  cbn [mbind res_bind].
  destruct (IH bm1 buffer p i (bit + 1) b) as (bm' & -> & Hok' & Hs' & Ht'); [done|lia..|done|].
  exists bm'. split_and!; [done|done|congruence|]. intros j Hj. rewrite Ht', Ht1 by done.
  destruct (decide (i * 8 + bit = j)) as [<-|Hne].
  - rewrite (bool_decide_false (_ ∧ _)), !bool_decide_true by lia. simpl. by replace (i * 8 + bit - i * 8) with bit by lia.
  - rewrite (bool_decide_false (_ = j)) by done. simpl. f_equal. f_equal. apply bool_decide_ext. lia.
Qed.

Lemma load_bitmap_ok buffer p n : Forall is_byte buffer → 0 <= p → 0 <= n < 2 ^ 16 →
  fits buffer p (n / 8) → (n mod 8 ≠ 0 → p + n / 8 < Z.of_nat (length buffer)) →
  ∃ bm, load_bitmap buffer p n = Val bm ∧ Bitmap.bitmap_ok bm ∧ Bitmap.size_ bm = n ∧
    ∀ j, 0 <= j < n → Bitmap.test bm j = image_bit buffer p j.
Proof.
  intros Hb Hp Hn Hf Hl. unfold load_bitmap.
  destruct (Bitmap.new_ok n ltac:(lia)) as [Hok0 Ht0].
  assert (0 <= n / 8 ∧ n / 8 * 8 <= n ∧ 0 <= n mod 8 < 8 ∧ n = n / 8 * 8 + n mod 8) as (? & ? & ? & En)
    by (Z.to_euclidean_division_equations; lia).
  destruct (load_bytes_ok (Z.to_nat (n / 8)) (Bitmap.new n) buffer p 0) as (bm1 & -> & Hok1 & Hs1 & Ht1);
    [done..|simpl; lia|by rewrite Z2Nat.id|].
  cbn [mbind res_bind]. simpl Bitmap.size_ in Hs1. rewrite Z.sub_0_r, Z2Nat.id, Z.add_0_l in Ht1 by done.
  destruct (decide (n mod 8 = 0)) as [E|E].
  - rewrite E. exists bm1. split_and!; try done. intros j Hj. rewrite Ht1 by lia. by rewrite bool_decide_true by lia.
  - destruct (lookup_lt_is_Some_2 buffer (Z.to_nat (p + n / 8))) as [b Hlk]; [lia|].
    destruct (load_bits_ok (Z.to_nat (n mod 8)) bm1 buffer (p + n / 8) (n / 8) 0 b) as (bm & -> & Hok & Hs & Ht);
      [done|lia..|done|].
    exists bm. split_and!; try done; [congruence|]. intros j Hj. rewrite Ht, Ht1 by lia.
    destruct (decide (j < n / 8 * 8)).
    + rewrite bool_decide_false, bool_decide_true by lia. done.
    + rewrite bool_decide_true, bool_decide_false, Ht0, orb_false_r by lia. simpl.
      unfold image_bit. assert (j / 8 = n / 8 ∧ j mod 8 = j - n / 8 * 8) as [-> ->]
        by (Z.to_euclidean_division_equations; lia).
      by rewrite Hlk.
Qed.

(** ** What a flush stores *)

Lemma store_bytes_ok n : ∀ buffer bm p i, Bitmap.bitmap_ok bm → Forall is_byte buffer → 0 <= i → 0 <= p →
  (i + Z.of_nat n) * 8 <= Bitmap.size_ bm → fits buffer p (Z.of_nat n) →
  ∃ buffer', store_bytes n buffer bm p i = Val buffer' ∧ length buffer' = length buffer ∧ Forall is_byte buffer' ∧
    ∀ q, 0 <= q → buffer' !! Z.to_nat q =
      if bool_decide (p <= q < p + Z.of_nat n) then Bitmap.bitmap_ bm !! Z.to_nat (i + (q - p)) else buffer !! Z.to_nat q.
Proof.
  induction n as [|n IH]; intros buffer bm p i Hok Hb Hi Hp Hs (? & ? & Hf).
  { exists buffer. split_and!; try done. intros q Hq. by rewrite bool_decide_false by lia. }
  destruct (Bitmap.byte_at bm (i * 8) Hok ltac:(lia)) as (b & Hlk & Hbyte & Hg). rewrite Z.div_mul in Hlk, Hg by lia.
  cbn [store_bytes]. unfold Bitmap.getByte, Bitmap.bits_per_bitmap_atom_. pose proof (Bitmap.ok_size _ Hok).
  rewrite wrap_small, (proj2 (Z.ltb_lt _ _)) by lia. cbn [kassert mbind res_bind]. rewrite Hg. cbn [mbind res_bind].
  destruct (zset buffer p b) as [buffer1|] eqn:Hz; [|exfalso; unfold zset in Hz; rewrite decide_True in Hz by lia; done].
  cbn [mbind res_bind]. apply zset_Val in Hz as [_ ->].
  destruct (IH (<[Z.to_nat p:=b]> buffer) bm (p + 1) (i + 1)) as (buffer' & -> & Hl & Hb' & Hlk');
    [done|by apply Forall_insert|lia..|repeat split; rewrite ?length_insert; lia|].
  exists buffer'. rewrite length_insert in Hl. split_and!; [done..|]. intros q Hq. rewrite Hlk' by done.
  destruct (decide (q = p)) as [->|Hne].
  - rewrite bool_decide_false, bool_decide_true by lia. rewrite list_lookup_insert_eq by lia.
    by rewrite Z.sub_diag, Z.add_0_r.
  - rewrite list_lookup_insert_ne by lia.
    rewrite (bool_decide_ext _ (p <= q < p + Z.of_nat (S n))) by lia.
    by replace (i + 1 + (q - (p + 1))) with (i + (q - p)) by lia.
Qed.

(** The bits are masked out of a byte that starts as 0: the byte stays 0. *)
Lemma last_byte_zero k : ∀ bm rest i bit, Bitmap.bitmap_ok bm → 0 <= i → 0 <= bit → i * 8 + rest <= Bitmap.size_ bm →
  last_byte k bm rest i bit 0 = Val 0.
Proof.
  induction k as [|k IH]; intros bm rest i bit Hok Hi Hb Hr; [done|]. cbn [last_byte].
  assert (∃ b, (if bit <? rest then Bitmap.getBit bm (i * 8 + bit) else Val true) = Val b) as [b ->].
  { destruct (Z.ltb_spec bit rest); [|by exists true]. rewrite Bitmap.getBit_in by (done || lia). by eexists. }
  cbn [mbind res_bind]. rewrite Z.land_0_l. destruct b; apply IH; (done || lia).
Qed.

Lemma fill_ff_ok n : ∀ buffer p, Forall is_byte buffer → fits buffer p (Z.of_nat n) →
  ∃ buffer', fill_ff n buffer p = Val buffer' ∧ length buffer' = length buffer ∧ Forall is_byte buffer' ∧
    ∀ q, 0 <= q < p → buffer' !! Z.to_nat q = buffer !! Z.to_nat q.
Proof.
  induction n as [|n IH]; intros buffer p Hb (? & ? & Hf); [by exists buffer|]. cbn [fill_ff].
  destruct (zset buffer p 255) as [buffer1|] eqn:Hz; [|exfalso; unfold zset in Hz; rewrite decide_True in Hz by lia; done].
  cbn [mbind res_bind]. apply zset_Val in Hz as [_ ->].
  destruct (IH (<[Z.to_nat p:=255]> buffer) (p + 1)) as (buffer' & -> & Hl & Hb' & Hlk);
    [by apply Forall_insert|repeat split; rewrite ?length_insert; lia|].
  exists buffer'. rewrite length_insert in Hl. split_and!; [done..|]. intros q Hq.
  rewrite Hlk by lia. by rewrite list_lookup_insert_ne by lia.
Qed.

Lemma store_bitmap_ok buffer bm p limit : Bitmap.bitmap_ok bm → Forall is_byte buffer → 0 <= p →
  0 <= Bitmap.size_ bm → Bitmap.size_ bm / 8 < limit → fits buffer p limit →
  ∃ buffer', store_bitmap buffer bm p limit = Val (buffer', p + limit) ∧ length buffer' = length buffer ∧
    Forall is_byte buffer' ∧ (∀ q, 0 <= q < p → buffer' !! Z.to_nat q = buffer !! Z.to_nat q) ∧
    ∀ j, 0 <= j < Bitmap.size_ bm → image_bit buffer' p j = (j <? Bitmap.size_ bm / 8 * 8) && Bitmap.test bm j.
Proof.
  intros Hok Hb Hp Hs Hlim (? & ? & Hf). unfold store_bitmap, Bitmap.getSize. set (n := Bitmap.size_ bm) in *.
  assert (0 <= n / 8 ∧ n / 8 * 8 <= n ∧ 0 <= n mod 8 < 8 ∧ n = n / 8 * 8 + n mod 8) as (? & ? & ? & En)
    by (Z.to_euclidean_division_equations; lia).
  destruct (store_bytes_ok (Z.to_nat (n / 8)) buffer bm p 0) as (b1 & -> & Hl1 & Hb1 & Hlk1);
    [done|done|lia|lia|lia|repeat split; lia|].
  cbn [mbind res_bind]. rewrite last_byte_zero by (done || lia). cbn [mbind res_bind].
  destruct (zset b1 (p + n / 8) 0) as [b2|] eqn:Hz; [|exfalso; unfold zset in Hz; rewrite decide_True in Hz by lia; done].
  cbn [mbind res_bind]. apply zset_Val in Hz as [_ ->].
  destruct (fill_ff_ok (Z.to_nat (limit - (n / 8 + 1))) (<[Z.to_nat (p + n / 8):=0]> b1) (p + n / 8 + 1))
    as (b3 & -> & Hl3 & Hb3 & Hlk3); [by apply Forall_insert|repeat split; rewrite ?length_insert; lia|].
  rewrite length_insert in Hl3. cbn [mbind res_bind]. exists b3. split_and!; [|congruence|done|..].
  - do 2 f_equal. lia.
  - intros q Hq. rewrite Hlk3, list_lookup_insert_ne, Hlk1 by lia. by rewrite bool_decide_false by lia.
  - intros j Hj. unfold image_bit.
    assert (0 <= j / 8 <= n / 8) by (Z.to_euclidean_division_equations; lia).
    rewrite Hlk3 by lia. destruct (Z.ltb_spec j (n / 8 * 8)).
    + assert (j / 8 < n / 8) by (Z.to_euclidean_division_equations; lia).
      rewrite list_lookup_insert_ne, Hlk1 by lia. rewrite bool_decide_true by lia.
      replace (0 + (p + j / 8 - p)) with (j / 8) by lia.
      destruct (Bitmap.byte_at bm j Hok ltac:(lia)) as (b & Hlk & _ & _).
      unfold Bitmap.test, Bitmap.test_raw. by rewrite Hlk.
    + assert (j / 8 = n / 8) as -> by (Z.to_euclidean_division_equations; lia).
      rewrite list_lookup_insert_eq by lia. apply Z.bits_0.
Qed.

(** C36: Flushing the bitmaps and loading the image again gives the bits of every
    whole byte back, and loses the others: zones and inodes whose numbers lie
    behind the last multiple of 8 are free after the next mount, used or not. *)
Theorem flush_reload fresh sm : storage_ok sm → Forall is_byte fresh →
  Bitmap.size_ (inode_bitmap_ sm) / 8 < num_inode_bm_blocks_ sm * BLOCK_SIZE →
  Bitmap.size_ (zone_bitmap_ sm) / 8 < num_zone_bm_blocks_ sm * BLOCK_SIZE →
  Z.of_nat (length fresh) = (num_inode_bm_blocks_ sm + num_zone_bm_blocks_ sm) * BLOCK_SIZE →
  ∃ image sm', flush fresh sm = Val image ∧
    new image (num_inode_bm_blocks_ sm) (num_zone_bm_blocks_ sm)
        (Bitmap.size_ (inode_bitmap_ sm)) (Bitmap.size_ (zone_bitmap_ sm)) = Val sm' ∧ storage_ok sm' ∧
    (∀ p, 0 <= p < Bitmap.size_ (inode_bitmap_ sm) →
      inode_used sm' p = (p <? Bitmap.size_ (inode_bitmap_ sm) / 8 * 8) && inode_used sm p) ∧
    (∀ p, 0 <= p < Bitmap.size_ (zone_bitmap_ sm) →
      zone_used sm' p = (p <? Bitmap.size_ (zone_bitmap_ sm) / 8 * 8) && zone_used sm p).
Proof.
  intros [Hi Hz Hin Hzn _ _] Hb Hli Hlz Hl. unfold flush, new.
  assert (0 <= Bitmap.size_ (inode_bitmap_ sm) / 8 ∧ 0 <= Bitmap.size_ (zone_bitmap_ sm) / 8) as [? ?]
    by (split; apply Z.div_pos; lia).
  destruct (store_bitmap_ok fresh (inode_bitmap_ sm) 0 (num_inode_bm_blocks_ sm * BLOCK_SIZE))
    as (b1 & -> & Hl1 & Hb1 & _ & Hbit1); [done|done|lia|lia|done|repeat split; lia|].
  cbn [mbind res_bind].
  destruct (store_bitmap_ok b1 (zone_bitmap_ sm) (0 + num_inode_bm_blocks_ sm * BLOCK_SIZE) (num_zone_bm_blocks_ sm * BLOCK_SIZE))
    as (b2 & -> & Hl2 & Hb2 & Hlk2 & Hbit2); [done|done|lia|lia|done|repeat split; lia|].
  cbn [mbind res_bind]. exists b2.
  destruct (load_bitmap_ok b2 0 (Bitmap.size_ (inode_bitmap_ sm))) as (ibm & -> & Hoki & Hsi & Hti);
    [done|lia|lia|repeat split; lia|lia|].
  cbn [mbind res_bind].
  destruct (load_bitmap_ok b2 (num_inode_bm_blocks_ sm * BLOCK_SIZE) (Bitmap.size_ (zone_bitmap_ sm)))
    as (zbm & -> & Hokz & Hsz & Htz); [done|lia|lia|repeat split; lia|lia|].
  cbn [mbind res_bind]. eexists. split_and!; [done..| | |].
  - split; simpl; rewrite ?Hsi, ?Hsz; (done || lia).
  - intros p Hp. unfold inode_used. simpl. rewrite Hti, <- Hbit1 by done. unfold image_bit.
    assert (0 <= p / 8 <= Bitmap.size_ (inode_bitmap_ sm) / 8) by (Z.to_euclidean_division_equations; lia).
    by rewrite Hlk2 by lia.
  - intros p Hp. unfold zone_used. simpl. by rewrite Htz, <- Hbit2 by done.
Qed.

(** Twelve inodes and zones, of which 1 and 9 are in use. *)
Definition ex_storage : MinixStorageManager :=
  let bm := Bitmap.mkBitmap 12 2 [2; 2] in mkStorage bm bm 9 9 1 1.

Lemma ex_storage_ok : storage_ok ex_storage.
Proof.
  assert (Bitmap.bitmap_ok (Bitmap.mkBitmap 12 2 [2; 2])).
  { split; simpl; [lia|reflexivity|apply Forall_is_byte; reflexivity|reflexivity]. }
  split; simpl; (done || lia).
Qed.

Lemma flush_reload_witness : zone_used ex_storage 9 = true ∧ ∃ image sm',
  flush (replicate 2048 0) ex_storage = Val image ∧ new image 1 1 12 12 = Val sm' ∧
  inode_used sm' 1 = true ∧ zone_used sm' 9 = false.
Proof.
  split; [reflexivity|].
  destruct (flush_reload (replicate 2048 0) ex_storage ex_storage_ok) as (image & sm' & Hf & Hn & _ & Hi & Hz).
  - apply Forall_replicate. unfold is_byte. lia.
  - reflexivity.
  - reflexivity.
  - reflexivity.
  - exists image, sm'. split_and!; [exact Hf|exact Hn|exact (Hi 1 ltac:(split; reflexivity || discriminate))|].
    rewrite (Hz 9 ltac:(split; reflexivity || discriminate)). reflexivity.
Defined.

(** C37: An allocation of a zone or an inode ends with the next free one in the
    order of the numbers, going round once, takes nothing else, and fails its
    assertion when there is none; but the search for an inode runs for ever when
    all are used and none was allocated since mounting, and no search looks at
    the position of the last allocation. *)
Theorem storage_searches sm fuel : storage_ok sm → 1 < Bitmap.size_ (inode_bitmap_ sm) < Z.of_nat fuel →
  match next_zone sm with
  | Some p => zone_used sm p = false ∧
      ∃ sm', allocZone sm = Val (sm', p) ∧ curr_zone_pos_ sm' = p ∧ updated sm (with_used p (zone_used sm)) (inode_used sm) sm'
  | None => allocZone sm = Err EAssert ∧ ∀ p, 0 <= p < Bitmap.size_ (zone_bitmap_ sm) → p ≠ curr_zone_pos_ sm → zone_used sm p = true
  end ∧
  match next_inode sm with
  | Some p => inode_used sm p = false ∧
      ∃ sm', allocInode fuel sm = Val (sm', p) ∧ curr_inode_pos_ sm' = p ∧ updated sm (zone_used sm) (with_used p (inode_used sm)) sm'
  | None => allocInode fuel sm = Err (if curr_inode_pos_ sm =? 0 then EFuel else EAssert) ∧
      ∀ p, 0 <= p < Bitmap.size_ (inode_bitmap_ sm) → p ≠ curr_inode_pos_ sm ∨ p = 0 → inode_used sm p = true
  end.
Proof.
  intros Hok [H1 Hf]. pose proof (allocZone_next sm Hok) as Hz. pose proof (allocInode_next sm fuel Hok Hf H1) as Hi.
  destruct Hok as [? ? ? ? Hcz Hci] eqn:Eok. split.
  - destruct (next_zone sm) as [p|] eqn:E; [by destruct (next_zone_free sm p Hok E) as (_ & _ & ?)|].
    split; [done|]. intros p Hp Hne. apply (first_free_None (zone_bitmap_ sm) _ E), elem_of_app.
    rewrite !elem_of_seqZ. simpl. unfold Bitmap.getSize. lia.
  - destruct (next_inode sm) as [p|] eqn:E; [by destruct (next_inode_free sm p Hok E) as (_ & ?)|].
    split; [done|]. intros p Hp Hne. apply (first_free_None (inode_bitmap_ sm) _ E), elem_of_app.
    destruct (decide (p = curr_inode_pos_ sm)) as [->|].
    + destruct Hne as [|E0]; [done|]. rewrite E0. right. by left.
    + left. apply elem_of_app. rewrite !elem_of_seqZ. simpl. unfold Bitmap.getSize. lia.
Qed.

Lemma storage_searches_witness : next_zone ex_storage = Some 10 ∧
  ∃ sm', allocZone ex_storage = Val (sm', 10) ∧ zone_used sm' 10 = true ∧ zone_used sm' 11 = false.
Proof.
  split; [reflexivity|].
  destruct (storage_searches ex_storage 20 ex_storage_ok ltac:(split; reflexivity)) as [(_ & sm' & Ha & _ & Hu) _].
  exists sm'. split_and!; [exact Ha| |]; rewrite (up_zones _ _ _ _ Hu) by discriminate; reflexivity.
Defined.

(** A full file system just mounted: the search for an inode does not end. *)
Lemma allocInode_forever : let sm := mkStorage (Bitmap.mkBitmap 8 8 [255]) (Bitmap.mkBitmap 8 8 [255]) 0 0 1 1 in
  ∀ fuel, allocInode fuel sm = Err EFuel.
Proof.
  intros sm fuel. unfold allocInode. rewrite (alloc_zero_forever (inode_bitmap_ sm)); [done|..].
  - split; simpl; [lia|reflexivity|apply Forall_is_byte; reflexivity|reflexivity].
  - reflexivity.
  - intros p Hp. simpl in Hp. unfold Bitmap.getSize in Hp. simpl in Hp.
    assert (p ∈ seqZ 0 8) as Hin by (apply elem_of_seqZ; lia). revert p Hp Hin. cbn [seqZ]. simpl.
    intros p _ Hin. repeat (apply elem_of_cons in Hin as [->|Hin]; [reflexivity|]). by apply not_elem_of_nil in Hin.
  - reflexivity.
  - split; [reflexivity|discriminate].
Qed.

End Storage.
