(* ===== verification/MinixDisc.v ===== *)
(** * MINIX file system: the superblock and its disc

    Models the superblock's access to the disc of
    [common/source/fs/minixfs/MinixFSSuperblock.cpp] (header, mounting, blocks,
    zones, allocation) and the constants of [minix_fs_consts.h].  The disc is a
    virtual device over any driver ([BlockDevice]); the effect of a sequence of
    writes is a map from block numbers to contents ([wrote]). *)
From S2P Require Import Prelude Bitmap Kstring Buffers BlockDevice MinixStorage.

Import Storage.

Module Disc.

(** ** The superblock *)

Definition MINIX_V3 : Z := 0x4d5a.
Definition ZONE_SIZE : Z := 1024.

(** The fields of the object that are read from the disc, and the device
    [s_dev_] names; [s_disk_version_], which nothing looks at, is left out. *)
Record MinixFSSuperblock : Set := mkSuperblock {
  s_magic_ : Z;
  s_num_inodes_ : Z;
  s_zones_ : Z;
  s_num_inode_bm_blocks_ : Z;
  s_num_zone_bm_blocks_ : Z;
  s_1st_datazone_ : Z;
  s_log_zone_size_ : Z;
  s_max_file_size_ : Z;
  s_block_size_ : Z;
  s_dev_ : BD.BDVirtualDevice;
}.

(** The macros that depend on the version. *)
Definition is_v3 (h : MinixFSSuperblock) : bool := s_magic_ h =? MINIX_V3.
Definition V3_OFFSET (h : MinixFSSuperblock) : Z := if is_v3 h then 1 else 0.
Definition NUM_ZONE_ADDRESSES (h : MinixFSSuperblock) : Z := if is_v3 h then 256 else 512.
Definition INODE_BYTES (h : MinixFSSuperblock) : Z := if is_v3 h then 4 else 2.
Definition INODE_SIZE (h : MinixFSSuperblock) : Z := if is_v3 h then 64 else 32.
Definition INODES_PER_BLOCK (h : MinixFSSuperblock) : Z := if is_v3 h then 16 else 32.
Definition MAX_NAME_LENGTH (h : MinixFSSuperblock) : Z := if is_v3 h then 60 else 30.
Definition NUM_ZONES (h : MinixFSSuperblock) : Z := if is_v3 h then 10 else 9.

(** [V3_ARRAY(PTR, IDX)] and [SET_V3_ARRAY(PTR, IDX, VAL)] for [PTR] at [p]. *)
Definition entry_bytes (h : MinixFSSuperblock) : nat := if is_v3 h then 4%nat else 2%nat.
Definition V3_ARRAY (h : MinixFSSuperblock) (buf : list Z) (p idx : Z) : res Z :=
  Kstring.load_le (entry_bytes h) buf (p + idx * Z.of_nat (entry_bytes h)).
Definition SET_V3_ARRAY (h : MinixFSSuperblock) (buf : list Z) (p idx val : Z) : res (list Z) :=
  Kstring.store_le (entry_bytes h) buf (p + idx * Z.of_nat (entry_bytes h)) val.

(** Entry [i] of the buffer seen as an array of [uint16], of [uint32]. *)
Definition uint16_at (buf : list Z) (i : Z) : res Z := Kstring.load_le 2 buf (i * 2).
Definition uint32_at (buf : list Z) (i : Z) : res Z := Kstring.load_le 4 buf (i * 4).

Section fs.
Context {D : Type} `{BDDriver D}.

(** The mounted file system: header, bitmaps and disc. *)
Record fs : Type := mkFs {
  header : MinixFSSuperblock;
  storage_manager_ : MinixStorageManager;
  disc : D;
}.

Definition set_storage (sm : MinixStorageManager) (f : fs) : fs := mkFs (header f) sm (disc f).
Definition set_disc (d : D) (f : fs) : fs := mkFs (header f) (storage_manager_ f) d.

(** ** Blocks and zones *)

(** The result of the device, -1 after a failed request, is not looked at. *)
Definition readBlocks_raw (v : BD.BDVirtualDevice) (d : D) (block num_blocks : Z) (buffer : list Z) : res (D * list Z) :=
  '(d, buffer, _) ← BD.readData v d (u32 (u16 block * BD.block_size_ v)) (u32 (num_blocks * BD.block_size_ v)) buffer;
  Val (d, buffer).

Definition readBlocks (f : fs) (block num_blocks : Z) (buffer : list Z) : res (fs * list Z) :=
  '(d, buffer) ← readBlocks_raw (s_dev_ (header f)) (disc f) block num_blocks buffer;
  Val (set_disc d f, buffer).

Definition writeBlocks (f : fs) (block num_blocks : Z) (buffer : list Z) : res fs :=
  let v := s_dev_ (header f) in
  '(d, _) ← BD.writeData v (disc f) (u32 (u16 block * BD.block_size_ v)) (u32 (num_blocks * BD.block_size_ v)) buffer;
  Val (set_disc d f).

Definition readZone (f : fs) (zone : Z) (buffer : list Z) : res (fs * list Z) :=
  readBlocks f (u16 zone) (ZONE_SIZE / BLOCK_SIZE) buffer.
Definition writeZone (f : fs) (zone : Z) (buffer : list Z) : res fs :=
  writeBlocks f (u16 zone) (ZONE_SIZE / BLOCK_SIZE) buffer.

(** Local arrays of unknown contents, [char buffer[n]], are given as zeros where
    they are overwritten before they are read. *)
Definition local_array (n : Z) : list Z := replicate (Z.to_nat n) 0.

(** [readBytes] copies the caller's buffer over the block it has read, not the
    other way round: the caller's buffer keeps its contents. *)
Definition readBytes (f : fs) (block offset size : Z) (buffer : list Z) : res (fs * list Z * Z) :=
  _ ← kassert (u32 (offset + size) <=? BLOCK_SIZE);
  '(f, rbuffer) ← readBlocks f block 1 (local_array BLOCK_SIZE);
  bytes ← slice buffer 0 size;
  _ ← splice rbuffer offset bytes;
  Val (f, buffer, size).

Definition writeBytes (f : fs) (block offset size : Z) (buffer : list Z) : res (fs * Z) :=
  _ ← kassert (u32 (offset + size) <=? BLOCK_SIZE);
  '(f, wbuffer) ← readBlocks f block 1 (local_array BLOCK_SIZE);
  bytes ← slice buffer 0 size;
  wbuffer ← splice wbuffer offset bytes;
  f ← writeBlocks f block 1 wbuffer;
  Val (f, size).

Definition allocateZone (f : fs) : res (fs * Z) :=
  '(sm, zone) ← allocZone (storage_manager_ f);
  Val (set_storage sm f, u16 (zone + s_1st_datazone_ (header f) - 1)).

Definition superblock_freeZone (f : fs) (index : Z) : res fs :=
  sm ← freeZone (storage_manager_ f) (u64 (u16 index - s_1st_datazone_ (header f) + 1));
  Val (set_storage sm f).

(** [readHeader] *)
Definition readHeader (v : BD.BDVirtualDevice) (d : D) : res (D * MinixFSSuperblock) :=
  '(d, buffer) ← readBlocks_raw v d 1 1 (local_array BLOCK_SIZE);
  magic ← uint16_at buffer 12;
  let v3 := magic =? MINIX_V3 in
  num_inodes ← (if v3 then uint32_at buffer 0 else uint16_at buffer 0);
  '(magic, zones, block_size) ← (if v3 then
      block_size ← uint16_at buffer 14; zones ← uint32_at buffer 5; Val (magic, zones, block_size)
    else
      magic ← uint16_at buffer 8; zones ← uint16_at buffer 1; Val (magic, zones, 1024));
  let o := if magic =? MINIX_V3 then 1 else 0 in
  inode_bm ← uint16_at buffer (2 + o);
  zone_bm ← uint16_at buffer (3 + o);
  first ← uint16_at buffer (4 + o);
  log_size ← uint16_at buffer (5 + o);
  max_size ← uint32_at buffer (3 + o);
  Val (d, mkSuperblock magic num_inodes zones inode_bm zone_bm first log_size max_size block_size v).

(** The constructor up to the root inode: the bitmaps follow block 1. *)
Definition mount (v : BD.BDVirtualDevice) (d : D) : res fs :=
  '(d, h) ← readHeader v d;
  _ ← kassert (s_log_zone_size_ h =? 0);
  _ ← kassert (s_block_size_ h =? 1024);
  let bm_size := s_num_inode_bm_blocks_ h + s_num_zone_bm_blocks_ h in
  '(d, bm_buffer) ← readBlocks_raw v d 2 bm_size (local_array (BLOCK_SIZE * bm_size));
  sm ← new bm_buffer (s_num_inode_bm_blocks_ h) (s_num_zone_bm_blocks_ h) (u16 (s_num_inodes_ h)) (u16 (s_zones_ h));
  Val (mkFs h sm d).

(** [MinixStorageManager::flush], with the write of the image. *)
Definition flush_storage (fresh : list Z) (f : fs) : res fs :=
  let sm := storage_manager_ f in
  image ← flush fresh sm;
  writeBlocks f 2 (num_inode_bm_blocks_ sm + num_zone_bm_blocks_ sm) image.

End fs.
Arguments fs : clear implicits.

(** ** What reading and writing blocks does *)

Section fs_laws.
Context {D : Type} `{BDDriverLaws D}.
Implicit Types f : fs D.

Definition num_blocks (f : fs D) : Z := BD.dev_blocks (s_dev_ (header f)).

(** The disc has blocks of the file system's size. *)
Record disc_ok (f : fs D) : Prop := {
  disc_device : BD.device_ok (s_dev_ (header f)) (disc f);
  disc_block_size : BD.block_size_ (s_dev_ (header f)) = BLOCK_SIZE;
}.

(** The contents of a block. *)
Definition block (f : fs D) (b : Z) : list Z :=
  sub (BD.dev_bytes (s_dev_ (header f)) (disc f)) (b * BLOCK_SIZE) BLOCK_SIZE.

(** A number that names a block of the disc. *)
Definition on_disc (f : fs D) (b : Z) : Prop := 0 <= b < num_blocks f ∧ b < 2 ^ 16.

(** [f'] is [f] with the blocks of [u] overwritten. *)
Record wrote (f : fs D) (u : gmap Z (list Z)) (f' : fs D) : Prop := {
  wrote_ok : disc_ok f';
  wrote_header : header f' = header f;
  wrote_storage : storage_manager_ f' = storage_manager_ f;
  wrote_blocks b : on_disc f b → block f' b = default (block f b) (u !! b);
}.

Lemma wrote_refl f : disc_ok f → wrote f ∅ f.
Proof. intros. by split. Qed.

Lemma wrote_trans f u f' u' f'' : wrote f u f' → wrote f' u' f'' → wrote f (u' ∪ u) f''.
Proof.
  intros [H1 H2 H3 H4] [G1 G2 G3 G4]. split; [done|congruence|congruence|]. intros b Hb.
  rewrite G4 by (unfold on_disc, num_blocks in *; by rewrite H2). rewrite lookup_union.
  rewrite H4 by done. by destruct (u' !! b), (u !! b).
Qed.

Lemma wrote_on_disc f u f' b : wrote f u f' → on_disc f b → on_disc f' b.
Proof. intros Hw. unfold on_disc, num_blocks. by rewrite (wrote_header _ _ _ Hw). Qed.

Lemma block_fits f b : disc_ok f → on_disc f b →
  fits (BD.dev_bytes (s_dev_ (header f)) (disc f)) (b * BLOCK_SIZE) BLOCK_SIZE ∧
  BD.in_device (s_dev_ (header f)) b 1 ∧
  u32 (u16 b * BD.block_size_ (s_dev_ (header f))) = b * BD.block_size_ (s_dev_ (header f)) ∧
  u32 (1 * BD.block_size_ (s_dev_ (header f))) = 1 * BD.block_size_ (s_dev_ (header f)).
Proof.
  intros [Hd Hs] [Hb H16]. unfold num_blocks in Hb.
  assert (Hi : BD.in_device (s_dev_ (header f)) b 1) by (repeat split; lia).
  pose proof (BD.request_sectors _ _ _ _ Hd Hi) as (_ & _ & _ & _ & Hf & _). rewrite Hs, Z.mul_1_l in Hf.
  split_and!; [done|done|..]; rewrite Hs; unfold BLOCK_SIZE; rewrite ?(wrap_small 16) by lia; apply wrap_small; lia.
Qed.

Lemma block_length f b : disc_ok f → on_disc f b → Z.of_nat (length (block f b)) = BLOCK_SIZE.
Proof. intros Hd Hb. apply sub_length. by apply block_fits. Qed.

Lemma readBlocks_one f b buffer : disc_ok f → on_disc f b → Z.of_nat (length buffer) = BLOCK_SIZE →
  readBlocks f b 1 buffer = Val (f, block f b).
Proof.
  intros Hd Hb Hl. pose proof (block_fits _ _ Hd Hb) as (_ & Hi & E1 & E2). pose proof Hd as [Hdev Hs].
  unfold readBlocks, readBlocks_raw. rewrite E1, E2.
  rewrite BD.device_readData_reads by (rewrite ?Hs; done). simpl. unfold block. rewrite Hs. by destruct f.
Qed.

Lemma writeBlocks_one f b buffer : disc_ok f → on_disc f b → Z.of_nat (length buffer) = BLOCK_SIZE →
  ∃ f', writeBlocks f b 1 buffer = Val f' ∧ wrote f {[b := buffer]} f'.
Proof.
  intros Hd Hb Hl. pose proof (block_fits _ _ Hd Hb) as (Hf & Hi & E1 & E2). pose proof Hd as [Hdev Hs].
  unfold writeBlocks. rewrite E1, E2.
  destruct (BD.device_writeData_writes _ _ b 1 buffer Hdev Hi) as (d' & -> & Hdev' & Hbytes); [by rewrite Hs, Z.mul_1_l|].
  simpl. eexists. split; [done|]. split; simpl; try done. intros c Hc. unfold block. simpl. rewrite Hbytes, Hs.
  destruct (decide (b = c)) as [->|Hne].
  - rewrite lookup_singleton_eq. simpl.
    pose proof (sub_patch_same (BD.dev_bytes (s_dev_ (header f)) (disc f)) (c * BLOCK_SIZE) buffer) as E.
    rewrite Hl in E. by apply E.
  - rewrite lookup_singleton_ne by done. simpl. destruct Hc, Hb.
    apply sub_patch_other; rewrite ?Hl; [done|unfold BLOCK_SIZE in *; lia..].
Qed.

Lemma readZone_reads f z buffer : disc_ok f → on_disc f z → Z.of_nat (length buffer) = ZONE_SIZE →
  readZone f z buffer = Val (f, block f z).
Proof.
  intros Hd Hz Hl. unfold readZone. change (ZONE_SIZE / BLOCK_SIZE) with 1.
  rewrite wrap_small by (destruct Hz; lia). by apply readBlocks_one.
Qed.

Lemma writeZone_writes f z buffer : disc_ok f → on_disc f z → Z.of_nat (length buffer) = ZONE_SIZE →
  ∃ f', writeZone f z buffer = Val f' ∧ wrote f {[z := buffer]} f'.
Proof.
  intros Hd Hz Hl. unfold writeZone. change (ZONE_SIZE / BLOCK_SIZE) with 1.
  rewrite wrap_small by (destruct Hz; lia). by apply writeBlocks_one.
Qed.

(** [f'] differs from [f] only in blocks of the list [l]. *)
Record touched (f : fs D) (l : list Z) (f' : fs D) : Prop := {
  touched_disc : disc_ok f';
  touched_header : header f' = header f;
  touched_storage : storage_manager_ f' = storage_manager_ f;
  touched_others b : on_disc f b → b ∉ l → block f' b = block f b;
}.

Lemma touched_refl f l : disc_ok f → touched f l f.
Proof. intros. by split. Qed.

Lemma touched_on_disc f l f' b : touched f l f' → on_disc f' b ↔ on_disc f b.
Proof. intros Hw. unfold on_disc, num_blocks. by rewrite (touched_header _ _ _ Hw). Qed.

Lemma touched_trans f l f' l' f'' : touched f l f' → touched f' l' f'' → touched f (l ++ l') f''.
Proof.
  intros [H1 H2 H3 H4] [G1 G2 G3 G4]. split; [done|congruence|congruence|].
  intros b Hb [Hl Hl']%not_elem_of_app. rewrite G4, H4; try done. unfold on_disc, num_blocks in *. by rewrite H2.
Qed.

Lemma touched_weaken f l l' f' : touched f l f' → (∀ b, b ∈ l → b ∈ l') → touched f l' f'.
Proof. intros [] Hl. split; try done. intros b Hb Hn. apply touched_others0; [done|]. auto. Qed.

Lemma wrote_touched f b buffer f' : wrote f {[b := buffer]} f' →
  touched f [b] f' ∧ (on_disc f b → block f' b = buffer).
Proof.
  intros Hw. split.
  - split; try apply Hw. intros c Hc Hn. rewrite (wrote_blocks _ _ _ Hw) by done.
    rewrite lookup_singleton_ne; [done|]. intros ->. apply Hn. by left.
  - intros Hb. rewrite (wrote_blocks _ _ _ Hw) by done. by rewrite lookup_singleton_eq.
Qed.

Lemma local_array_length n : 0 <= n → Z.of_nat (length (local_array n)) = n.
Proof. intros. unfold local_array. rewrite length_replicate. lia. Qed.

Lemma writeBytes_writes f b o buffer : disc_ok f → on_disc f b → 0 <= o → o + Z.of_nat (length buffer) <= BLOCK_SIZE →
  ∃ f', writeBytes f b o (Z.of_nat (length buffer)) buffer = Val (f', Z.of_nat (length buffer)) ∧
    wrote f {[b := patch (block f b) o buffer]} f'.
Proof.
  intros Hd Hb Ho Hl. unfold writeBytes. rewrite wrap_small by (unfold BLOCK_SIZE in *; lia).
  rewrite (proj2 (Z.leb_le _ _)) by done. cbn [kassert mbind res_bind].
  rewrite readBlocks_one by (done || by apply local_array_length). cbn [mbind res_bind].
  pose proof (block_length _ _ Hd Hb) as Hbl.
  assert (Hf : fits (block f b) o (Z.of_nat (length buffer))) by (repeat split; lia).
  rewrite slice_fits, sub_all by (repeat split; lia). cbn [mbind res_bind].
  rewrite splice_fits by done. cbn [mbind res_bind].
  destruct (writeBlocks_one f b (patch (block f b) o buffer) Hd Hb) as (f' & -> & Hw); [by rewrite patch_length|].
  by exists f'.
Qed.

(** The bytes asked for are read, and then dropped: the buffer is the caller's. *)
Lemma readBytes_keeps f b o size buffer : disc_ok f → on_disc f b → 0 <= o → 0 <= size → o + size <= BLOCK_SIZE →
  size <= Z.of_nat (length buffer) → readBytes f b o size buffer = Val (f, buffer, size).
Proof.
  intros Hd Hb Ho Hs Hl Hlb. unfold readBytes. rewrite wrap_small by (unfold BLOCK_SIZE in *; lia).
  rewrite (proj2 (Z.leb_le _ _)) by done. cbn [kassert mbind res_bind].
  rewrite readBlocks_one by (done || by apply local_array_length). cbn [mbind res_bind].
  pose proof (block_length _ _ Hd Hb) as Hbl. assert (fits buffer 0 size) by (repeat split; lia).
  rewrite slice_fits by done. cbn [mbind res_bind].
  rewrite splice_fits by (rewrite sub_length by done; repeat split; lia). done.
Qed.
End fs_laws.

(** ** Allocating zones *)

Section alloc.
Context {D : Type} `{BDDriverLaws D}.
Implicit Types f : fs D.

(** Zone [z] has bit [z - s_1st_datazone_ + 1]; bit 0 stands for no zone. *)
Definition zone_bit (f : fs D) (z : Z) : Z := z - s_1st_datazone_ (header f) + 1.
Definition num_bits (f : fs D) : Z := Bitmap.size_ (zone_bitmap_ (storage_manager_ f)).
Definition data_zone (f : fs D) (z : Z) : Prop := 1 <= zone_bit f z < num_bits f.
Definition zused (f : fs D) (z : Z) : bool := zone_used (storage_manager_ f) (zone_bit f z).

(** How many zones are free. *)
Definition free (f : fs D) : Z :=
  Z.of_nat (length (filter (λ p, zone_used (storage_manager_ f) p = false) (seqZ 0 (num_bits f)))).

(** A mounted file system: the bitmaps fit the disc, and bit 0 is set. *)
Record fs_ok (f : fs D) : Prop := {
  fo_disc : disc_ok f;
  fo_storage : storage_ok (storage_manager_ f);
  fo_zero : zone_used (storage_manager_ f) 0 = true;
  fo_first : 0 < s_1st_datazone_ (header f);
  fo_blocks : s_1st_datazone_ (header f) - 1 + num_bits f <= num_blocks f;
  fo_numbers : s_1st_datazone_ (header f) - 1 + num_bits f <= 2 ^ 16;
}.

Lemma data_zone_on_disc f z : fs_ok f → data_zone f z → on_disc f z ∧ 0 < z < 2 ^ 16.
Proof. intros [] []. unfold on_disc, zone_bit in *. lia. Qed.

(** [f'] is [f] with the zones [zs] taken, all of which were free. *)
Record took (f : fs D) (zs : list Z) (f' : fs D) : Prop := {
  took_ok : fs_ok f';
  took_header : header f' = header f;
  took_disc : disc f' = disc f;
  took_bits : num_bits f' = num_bits f;
  took_distinct : NoDup zs;
  took_free z : z ∈ zs → data_zone f z ∧ zused f z = false;
  took_used z : data_zone f z → zused f' z = bool_decide (z ∈ zs) || zused f z;
  took_count : free f' = free f - Z.of_nat (length zs);
  took_inodes p : 0 <= p → inode_used (storage_manager_ f') p = inode_used (storage_manager_ f) p;
}.

Lemma took_refl f : fs_ok f → took f [] f.
Proof.
  intros Hok. split; try done; [constructor|by intros z ?%not_elem_of_nil|simpl; lia].
Qed.

Lemma took_bit f zs f' z : took f zs f' → zone_bit f' z = zone_bit f z.
Proof. intros Ht. unfold zone_bit. by rewrite (took_header _ _ _ Ht). Qed.

Lemma took_data_zone f zs f' z : took f zs f' → data_zone f' z ↔ data_zone f z.
Proof. intros Ht. unfold data_zone. by rewrite (took_bit _ _ _ z Ht), (took_bits _ _ _ Ht). Qed.

Lemma took_trans f zs f' zs' f'' : took f zs f' → took f' zs' f'' → took f (zs ++ zs') f''.
Proof.
  intros H1 H2.
  split; [apply H2|by rewrite (took_header _ _ _ H2), (took_header _ _ _ H1)
    |by rewrite (took_disc _ _ _ H2), (took_disc _ _ _ H1)|by rewrite (took_bits _ _ _ H2), (took_bits _ _ _ H1)|..].
  - apply NoDup_app. split_and!; [apply H1| |apply H2]. intros z Hz Hz'.
    destruct (took_free _ _ _ H2 z Hz') as [Hd Hu].
    rewrite (took_used _ _ _ H1) in Hu by (by apply (took_data_zone _ _ _ _ H1)).
    by rewrite bool_decide_true in Hu.
  - intros z [Hz|Hz]%elem_of_app; [by apply H1|]. destruct (took_free _ _ _ H2 z Hz) as [Hd Hu].
    apply (took_data_zone _ _ _ _ H1) in Hd. rewrite (took_used _ _ _ H1) in Hu by done.
    by apply orb_false_iff in Hu as [_ Hu].
  - intros z Hd. rewrite (took_used _ _ _ H2), (took_used _ _ _ H1) by (done || by apply (took_data_zone _ _ _ _ H1)).
    rewrite orb_assoc, <- bool_decide_or. f_equal. apply bool_decide_ext. rewrite elem_of_app. tauto.
  - rewrite (took_count _ _ _ H2), (took_count _ _ _ H1), length_app. lia.
  - intros p Hp. by rewrite (took_inodes _ _ _ H2), (took_inodes _ _ _ H1).
Qed.

(** Taking a position that was free leaves one free position less. *)
Lemma count_taken (used used' : Z → bool) p l : NoDup l → p ∈ l → used p = false →
  (∀ q, q ∈ l → used' q = with_used p used q) →
  (length (filter (λ q, used q = false) l) = S (length (filter (λ q, used' q = false) l)))%nat.
Proof.
  intros Hn Hp Hu Hu'. apply list_elem_of_split in Hp as (l1 & l2 & ->).
  apply NoDup_app in Hn as (_ & H1 & [H2 _]%NoDup_cons).
  rewrite !filter_app, !filter_cons, !length_app.
  rewrite (decide_True _ _ Hu), (decide_False _ _ (P := used' p = false)).
  2: { rewrite Hu' by (apply elem_of_app; right; by left). unfold with_used. by rewrite bool_decide_true. }
  assert (∀ k : list Z, p ∉ k → (∀ q, q ∈ k → q ∈ l1 ++ p :: l2) → filter (λ q, used' q = false) k = filter (λ q, used q = false) k) as E.
  { intros k Hk Hin. apply filter_ext_in. intros q Hq. rewrite Hu' by auto. unfold with_used.
    by rewrite bool_decide_false by (intros ->; done). }
  rewrite !E; [simpl; lia|..]; try (intros q Hq; set_solver).
  - done.
  - intros Hin. apply (H1 _ Hin). by left.
Qed.

Lemma updated_fs f sm used : fs_ok f → updated (storage_manager_ f) used (inode_used (storage_manager_ f)) sm →
  used 0 = true → fs_ok (set_storage sm f).
Proof.
  intros [[Hdev Hbs] _ _ ? ? ?] Hup H1. split; simpl; try done; [apply Hup|by rewrite (up_zones _ _ _ _ Hup)|..];
    unfold num_bits; simpl; by rewrite (up_num_zones _ _ _ _ Hup).
Qed.

(** With two free zones an allocation succeeds. *)
Lemma allocateZone_takes f : fs_ok f → 2 <= free f → ∃ f' z, allocateZone f = Val (f', z) ∧ took f [z] f'.
Proof.
  intros Hok Hfree. pose proof Hok as [Hd Hs H1 Hfst Hb Hn]. pose proof (allocZone_next _ Hs) as Hnext.
  unfold allocateZone. destruct (next_zone (storage_manager_ f)) as [p|] eqn:E.
  2: { exfalso. assert (length (filter (λ p, zone_used (storage_manager_ f) p = false) (seqZ 0 (num_bits f))) <= length [curr_zone_pos_ (storage_manager_ f)])%nat; [|unfold free in Hfree; simpl in *; lia].
       apply submseteq_length, NoDup_submseteq; [apply NoDup_filter, NoDup_seqZ|].
       intros q [Hq Hin%elem_of_seqZ]%list_elem_of_filter. apply list_elem_of_singleton.
       destruct (decide (q = curr_zone_pos_ (storage_manager_ f))); [done|].
       assert (zone_used (storage_manager_ f) q = true); [|congruence].
       apply (first_free_None (zone_bitmap_ _) _ E), elem_of_app. rewrite !elem_of_seqZ. unfold num_bits in *. simpl. unfold Bitmap.getSize. lia. }
  destruct Hnext as (sm & -> & _ & Hup). destruct (next_zone_free _ _ Hs E) as (Hp & _ & Hpf).
  assert (p ≠ 0) by congruence. cbn [mbind res_bind].
  rewrite wrap_small by (unfold num_bits in *; lia). set (z := p + s_1st_datazone_ (header f) - 1).
  assert (Hz : zone_bit f z = p) by (unfold zone_bit, z; lia).
  exists (set_storage sm f), z. split; [done|].
  split; try done.
  - eapply updated_fs; [done..|]. unfold with_used. by rewrite H1, orb_true_r.
  - unfold num_bits. simpl. apply Hup.
  - apply NoDup_singleton.
  - intros z' ->%list_elem_of_singleton. unfold data_zone, zused. rewrite Hz. unfold num_bits. split; [lia|done].
  - intros z' Hz'. unfold zused. simpl. change (zone_bit (set_storage sm f) z') with (zone_bit f z').
    destruct Hz' as [Hz1 _]. rewrite (up_zones _ _ _ _ Hup) by lia. unfold with_used. f_equal.
    apply bool_decide_ext. rewrite list_elem_of_singleton. unfold zone_bit, z in *. lia.
  - unfold free. simpl. replace (num_bits (set_storage sm f)) with (num_bits f) by (symmetry; apply Hup).
    rewrite (count_taken (zone_used (storage_manager_ f)) (zone_used sm) p); [lia|apply NoDup_seqZ|apply elem_of_seqZ; unfold num_bits; lia|done|].
    intros q Hq%elem_of_seqZ. apply Hup. lia.
  - intros q Hq. simpl. by apply Hup.
Qed.
End alloc.

End Disc.
