(* ===== verification/MinixZone.v ===== *)
(** * MINIX file system: the zones of an inode

    Models [common/source/fs/minixfs/MinixFSZone.cpp]: the numbers of the zones
    that hold an inode's data, the first seven in the inode, the next in an
    indirect table and the rest in tables that a doubly indirect table lists. *)
From S2P Require Import Prelude Bitmap Kstring Buffers BlockDevice MinixStorage MinixDisc.

Import Storage Disc.

Module Zone.

Section zone.
Context {D : Type} `{BDDriver D}.
Implicit Types f : fs D.

(** Tables on the heap are lists, null pointers [None]. *)
Record MinixFSZone : Set := mkZone {
  direct_zones_ : list Z;
  indirect_zones_ : option (list Z);
  double_indirect_linking_zone_ : option (list Z);
  double_indirect_zones_ : option (list (option (list Z)));
  num_zones_ : Z;
}.

Definition deref {A} (p : option A) : res A := match p with Some x => Val x | None => Err EUndef end.

(** How many of the numbers are not 0. *)
Definition count (l : list Z) : Z := Z.of_nat (length (filter (λ v, v ≠ 0) l)).

(** [n] entries of the buffer from entry [idx]. *)
Fixpoint read_entries (h : MinixFSSuperblock) (n : nat) (buffer : list Z) (p idx : Z) : res (list Z) :=
  match n with
  | O => Val []
  | S n => v ← V3_ARRAY h buffer p idx; l ← read_entries h n buffer p (idx + 1); Val (v :: l)
  end.

(** The values stored as entries of the buffer from entry [idx]. *)
Fixpoint write_entries (h : MinixFSSuperblock) (vals buffer : list Z) (p idx : Z) : res (list Z) :=
  match vals with
  | [] => Val buffer
  | v :: vals => buffer ← SET_V3_ARRAY h buffer p idx v; write_entries h vals buffer p (idx + 1)
  end.

(** A table read from, and written to, the zone [zone]. *)
Definition read_table (f : fs D) (zone : Z) : res (fs D * list Z) :=
  '(f, buffer) ← readZone f zone (local_array ZONE_SIZE);
  l ← read_entries (header f) (Z.to_nat (NUM_ZONE_ADDRESSES (header f))) buffer 0 0;
  Val (f, l).
Definition write_table (f : fs D) (zone : Z) (vals : list Z) : res (fs D) :=
  buffer ← write_entries (header f) vals (local_array ZONE_SIZE) 0 0;
  writeZone f zone buffer.

(** The tables that the doubly indirect table lists. *)
Fixpoint read_tables (f : fs D) (linking : list Z) : res (fs D * list (option (list Z)) * Z) :=
  match linking with
  | [] => Val (f, [], 0)
  | zone :: linking =>
      '(f, t) ← (if zone =? 0 then Val (f, None) else '(f, l) ← read_table f zone; Val (f, Some l));
      '(f, ts, n) ← read_tables f linking;
      Val (f, t :: ts, match t with Some l => count l | None => 0 end + n)
  end.

(** The constructor. *)
Definition new (f : fs D) (zones : list Z) : res (fs D * MinixFSZone) :=
  let direct := take (Z.to_nat (NUM_ZONES (header f))) zones in
  let n := count (take 7 direct) in
  z7 ← zget zones 7;
  '(f, indirect) ← (if z7 =? 0 then Val (f, None) else '(f, l) ← read_table f z7; Val (f, Some l));
  let n := n + match indirect with Some l => count l | None => 0 end in
  z8 ← zget zones 8;
  if z8 =? 0 then Val (f, mkZone direct indirect None None n)
  else
    '(f, linking) ← read_table f z8;
    '(f, tables, n') ← read_tables f linking;
    Val (f, mkZone direct indirect (Some linking) (Some tables) (n + n')).

Definition getNumZones (z : MinixFSZone) : Z := num_zones_ z.

Definition getZone (h : MinixFSSuperblock) (z : MinixFSZone) (index : Z) : res Z :=
  let n := NUM_ZONE_ADDRESSES h in
  _ ← kassert (index <? num_zones_ z);
  if index <? 7 then zget (direct_zones_ z) index
  else
    let index := index - 7 in
    if index <? n then l ← deref (indirect_zones_ z); zget l index
    else
      let index := index - n in
      tables ← deref (double_indirect_zones_ z);
      t ← zget tables (index / n);
      l ← deref t;
      zget l (index mod n).

Definition set_direct (z : MinixFSZone) (l : list Z) : MinixFSZone :=
  mkZone l (indirect_zones_ z) (double_indirect_linking_zone_ z) (double_indirect_zones_ z) (num_zones_ z).
Definition set_indirect (z : MinixFSZone) (l : list Z) : MinixFSZone :=
  mkZone (direct_zones_ z) (Some l) (double_indirect_linking_zone_ z) (double_indirect_zones_ z) (num_zones_ z).
Definition set_double (z : MinixFSZone) (l : list Z) (t : list (option (list Z))) : MinixFSZone :=
  mkZone (direct_zones_ z) (indirect_zones_ z) (Some l) (Some t) (num_zones_ z).
Definition count_zone (z : MinixFSZone) : MinixFSZone :=
  mkZone (direct_zones_ z) (indirect_zones_ z) (double_indirect_linking_zone_ z) (double_indirect_zones_ z) (u32 (num_zones_ z + 1)).

Definition zeros (n : Z) : list Z := replicate (Z.to_nat n) 0.

(** The tables [setZone] allocates when they are missing. *)
Definition need_indirect (f : fs D) (z : MinixFSZone) : res (fs D * MinixFSZone) :=
  match indirect_zones_ z with
  | Some _ => Val (f, z)
  | None =>
      '(f, zone) ← allocateZone f;
      direct ← zset (direct_zones_ z) 7 zone;
      Val (f, set_indirect (set_direct z direct) (zeros (NUM_ZONE_ADDRESSES (header f))))
  end.
Definition need_double (f : fs D) (z : MinixFSZone) : res (fs D * MinixFSZone) :=
  match double_indirect_zones_ z with
  | Some _ => Val (f, z)
  | None =>
      let n := NUM_ZONE_ADDRESSES (header f) in
      '(f, zone) ← allocateZone f;
      direct ← zset (direct_zones_ z) 8 zone;
      Val (f, set_double (set_direct z direct) (zeros n) (replicate (Z.to_nat n) None))
  end.
Definition need_table (f : fs D) (z : MinixFSZone) (k : Z) : res (fs D * MinixFSZone) :=
  tables ← deref (double_indirect_zones_ z);
  t ← zget tables k;
  match t with
  | Some _ => Val (f, z)
  | None =>
      '(f, zone) ← allocateZone f;
      linking ← deref (double_indirect_linking_zone_ z);
      linking ← zset linking k zone;
      tables ← zset tables k (Some (zeros (NUM_ZONE_ADDRESSES (header f))));
      Val (f, set_double z linking tables)
  end.

Definition setZone (f : fs D) (z : MinixFSZone) (index zone : Z) : res (fs D * MinixFSZone) :=
  let n := NUM_ZONE_ADDRESSES (header f) in
  if index <? 7 then
    direct ← zset (direct_zones_ z) index zone;
    Val (f, count_zone (set_direct z direct))
  else
    let index := index - 7 in
    if index <? n then
      '(f, z) ← need_indirect f z;
      l ← deref (indirect_zones_ z);
      l ← zset l index zone;
      Val (f, count_zone (set_indirect z l))
    else
      let index := index - n in
      '(f, z) ← need_double f z;
      '(f, z) ← need_table f z (index / n);
      tables ← deref (double_indirect_zones_ z);
      t ← zget tables (index / n);
      l ← deref t;
      l ← zset l (index mod n) zone;
      tables ← zset tables (index / n) (Some l);
      linking ← deref (double_indirect_linking_zone_ z);
      Val (f, count_zone (set_double z linking tables)).

Definition addZone (f : fs D) (z : MinixFSZone) (zone : Z) : res (fs D * MinixFSZone) :=
  setZone f z (num_zones_ z) zone.

(** The block of an inode, and its place there. *)
Definition inode_block (h : MinixFSSuperblock) (i_num : Z) : Z :=
  u32 (2 + s_num_inode_bm_blocks_ h + s_num_zone_bm_blocks_ h + u32 (u32 (i_num - 1) * INODE_SIZE h) / BLOCK_SIZE).
Definition inode_offset (h : MinixFSSuperblock) (i_num : Z) : Z := u32 (u32 (i_num - 1) * INODE_SIZE h) mod BLOCK_SIZE.

(** The tables of the doubly indirect table that are in use. *)
Fixpoint write_tables (f : fs D) (linking : list Z) (tables : list (option (list Z))) : res (fs D) :=
  match linking, tables with
  | zone :: linking, t :: tables =>
      f ← (if zone =? 0 then Val f else l ← deref t; write_table f zone l);
      write_tables f linking tables
  | _, _ => Val f
  end.

Definition flush (f : fs D) (z : MinixFSZone) (i_num : Z) : res (fs D) :=
  let h := header f in
  buffer ← write_entries h (take (Z.to_nat (NUM_ZONES h)) (direct_zones_ z)) (local_array (NUM_ZONES h * INODE_BYTES h)) 0 0;
  '(f, _) ← writeBytes f (inode_block h i_num) (u32 (inode_offset h i_num + INODE_BYTES h * (7 - V3_OFFSET h)))
              (NUM_ZONES h * INODE_BYTES h) buffer;
  z7 ← zget (direct_zones_ z) 7;
  f ← (if z7 =? 0 then Val f
       else
         _ ← kassert (match indirect_zones_ z with Some _ => true | None => false end);
         l ← deref (indirect_zones_ z);
         write_table f z7 l);
  z8 ← zget (direct_zones_ z) 8;
  if z8 =? 0 then Val f
  else
    _ ← kassert (match double_indirect_linking_zone_ z with Some _ => true | None => false end);
    _ ← kassert (match double_indirect_zones_ z with Some _ => true | None => false end);
    linking ← deref (double_indirect_linking_zone_ z);
    tables ← deref (double_indirect_zones_ z);
    f ← write_table f z8 linking;
    write_tables f linking tables.

(** [freeZones]: the numbers that are not 0 are given back, in this order. *)
Fixpoint free_all (f : fs D) (l : list Z) : res (fs D) :=
  match l with
  | [] => Val f
  | zone :: l =>
      f ← (if zone =? 0 then Val f else superblock_freeZone f zone);
      free_all f l
  end.
Fixpoint free_tables (f : fs D) (tables : list (option (list Z))) : res (fs D) :=
  match tables with
  | [] => Val f
  | t :: tables =>
      f ← (match t with Some l => free_all f l | None => Val f end);
      free_tables f tables
  end.
Definition freeZones (f : fs D) (z : MinixFSZone) : res (fs D) :=
  f ← free_all f (take (Z.to_nat (NUM_ZONES (header f))) (direct_zones_ z));
  match indirect_zones_ z with
  | None => Val f
  | Some l =>
      f ← free_all f l;
      match double_indirect_linking_zone_ z with
      | None => Val f
      | Some linking =>
          f ← free_all f linking;
          match double_indirect_zones_ z with
          | None => Val f
          | Some tables => free_tables f tables
          end
      end
  end.

End zone.
(** ** The list of data zones that the tables stand for *)

Section data.
Context (h : MinixFSSuperblock).
Implicit Types z : MinixFSZone.
Notation N := (NUM_ZONE_ADDRESSES h).

Lemma addresses_pos : 0 < N.
Proof. unfold NUM_ZONE_ADDRESSES. by destruct (is_v3 h). Qed.

(** A missing table counts as a table of zeros. *)
Definition table_of (t : option (list Z)) : list Z := default (zeros N) t.
Definition double_data (ts : option (list (option (list Z)))) : list Z :=
  match ts with Some ts => mjoin (table_of <$> ts) | None => zeros (N * N) end.
Definition data (z : MinixFSZone) : list Z :=
  take 7 (direct_zones_ z) ++ table_of (indirect_zones_ z) ++ double_data (double_indirect_zones_ z).

(** The zones that hold tables. *)
Definition meta (z : MinixFSZone) : list Z :=
  filter (λ v, v ≠ 0) (drop 7 (direct_zones_ z) ++ default [] (double_indirect_linking_zone_ z)).

(** A table and the number of the zone it is kept in. *)
Definition linked (zone : Z) (t : option (list Z)) : Prop :=
  match t with Some l => zone ≠ 0 ∧ length l = Z.to_nat N | None => zone = 0 end.

Record shape (z : MinixFSZone) : Prop := {
  sh_direct : Z.of_nat (length (direct_zones_ z)) = NUM_ZONES h;
  sh_indirect : ∃ v7, direct_zones_ z !! 7%nat = Some v7 ∧ linked v7 (indirect_zones_ z);
  sh_double : ∃ v8, direct_zones_ z !! 8%nat = Some v8 ∧
    match double_indirect_linking_zone_ z, double_indirect_zones_ z with
    | Some linking, Some tables => v8 ≠ 0 ∧ length linking = Z.to_nat N ∧ Forall2 linked linking tables
    | None, None => v8 = 0
    | _, _ => False
    end;
}.

Definition capacity : Z := 7 + (N + N * N).

(** A number that can be stored and names a block. *)
Definition is_zone (v : Z) : Prop := 0 < v < 2 ^ 16.

(** [z] stands for the zones [zs]. *)
Record rep (z : MinixFSZone) (zs : list Z) : Prop := {
  rep_shape : shape z;
  rep_data : data z = zs ++ zeros (capacity - Z.of_nat (length zs));
  rep_zones : Forall is_zone zs;
  rep_num : num_zones_ z = Z.of_nat (length zs);
  rep_capacity : Z.of_nat (length zs) <= capacity;
}.

Lemma zeros_lookup n i v : zeros n !! i = Some v → v = 0.
Proof. unfold zeros. by intros [? _]%lookup_replicate. Qed.

Lemma table_of_length zone t : linked zone t → length (table_of t) = Z.to_nat N.
Proof. destruct t; simpl; [by intros [_ ?]|]. intros _. apply length_replicate. Qed.

Lemma tables_length linking ts : Forall2 linked linking ts →
  Forall (λ l, length l = Z.to_nat N) (table_of <$> ts).
Proof. induction 1; simpl; constructor; [by eapply table_of_length|done]. Qed.

Lemma direct_long z : shape z → (7 <= length (direct_zones_ z))%nat.
Proof. intros [Hd _ _]. unfold NUM_ZONES in Hd. destruct (is_v3 h); lia. Qed.

(** Where an index is found: among the first seven, in the indirect table, in
    the table number [q]. *)
Lemma data_direct z i : shape z → (i < 7)%nat → data z !! i = direct_zones_ z !! i.
Proof.
  intros Hs Hi. pose proof (direct_long _ Hs). unfold data.
  rewrite lookup_app_l by (rewrite length_take; lia). by rewrite lookup_take_lt.
Qed.

Lemma data_indirect z i : shape z → (i < Z.to_nat N)%nat → data z !! (7 + i)%nat = table_of (indirect_zones_ z) !! i.
Proof.
  intros Hs Hi. pose proof (direct_long _ Hs). destruct (sh_indirect _ Hs) as (v7 & _ & Hl%table_of_length).
  unfold data. rewrite lookup_app_r by (rewrite length_take; lia).
  rewrite lookup_app_l by (rewrite length_take; lia). rewrite length_take. f_equal. lia.
Qed.

Lemma data_double z i : shape z → data z !! (7 + Z.to_nat N + i)%nat = double_data (double_indirect_zones_ z) !! i.
Proof.
  intros Hs. pose proof (direct_long _ Hs). destruct (sh_indirect _ Hs) as (v7 & _ & Hl%table_of_length).
  unfold data. rewrite !lookup_app_r by (rewrite ?length_take; lia). rewrite length_take. f_equal. lia.
Qed.

Lemma data_table ts linking q r v : Forall2 linked linking ts → (r < Z.to_nat N)%nat →
  double_data (Some ts) !! (q * Z.to_nat N + r)%nat = Some v ↔ ∃ t, ts !! q = Some t ∧ table_of t !! r = Some v.
Proof.
  intros Hts%tables_length Hr. simpl. rewrite join_lookup_Some_same_length' by done.
  rewrite list_lookup_fmap. split.
  - intros (l & Hl & Hv). destruct (ts !! q) as [t|] eqn:E; [|done]. injection Hl as <-. by exists t.
  - intros (t & -> & Hv). by exists (table_of t).
Qed.

(** An index in the doubly indirect part as table and entry. *)
Lemma split_index i : 0 <= i → 0 <= i / N ∧ 0 <= i mod N < N ∧
  Z.to_nat i = (Z.to_nat (i / N) * Z.to_nat N + Z.to_nat (i mod N))%nat.
Proof.
  intros Hi. pose proof addresses_pos. pose proof (Z.mod_pos_bound i N ltac:(lia)).
  assert (0 <= i / N) by (apply Z.div_pos; lia). split_and!; try lia.
  rewrite <- Z2Nat.inj_mul, <- Z2Nat.inj_add by nia. f_equal. pose proof (Z.div_mod i N ltac:(lia)). lia.
Qed.

Lemma rep_lookup z zs i v : rep z zs → zs !! i = Some v → data z !! i = Some v ∧ is_zone v.
Proof.
  intros [_ -> Hz _ _] Hi. split; [by apply lookup_app_l_Some|]. by eapply Forall_lookup_1 in Hz.
Qed.

(** [getZone] finds the zone of every index below the number of zones, and
    fails its assertion for the others. *)
Lemma getZone_gets z zs i : rep z zs → 0 <= i →
  getZone h z i = match zs !! Z.to_nat i with Some v => Val v | None => Err EAssert end.
Proof.
  intros Hr Hi. pose proof Hr as [Hs _ _ Hn _]. pose proof addresses_pos. unfold getZone. rewrite Hn.
  destruct (zs !! Z.to_nat i) as [v|] eqn:Hv.
  2: { apply lookup_ge_None in Hv. by rewrite (proj2 (Z.ltb_ge i (Z.of_nat (length zs)))) by lia. }
  pose proof (lookup_lt_Some _ _ _ Hv). rewrite (proj2 (Z.ltb_lt i (Z.of_nat (length zs)))) by lia. simpl.
  destruct (rep_lookup _ _ _ _ Hr Hv) as [Hd Hz]. unfold is_zone in Hz.
  destruct (Z.ltb_spec i 7).
  { rewrite data_direct in Hd by (done || lia). by apply zget_Val. }
  destruct (Z.ltb_spec (i - 7) N).
  - replace (Z.to_nat i) with (7 + Z.to_nat (i - 7))%nat in Hd by lia. rewrite data_indirect in Hd by (done || lia).
    destruct (indirect_zones_ z) as [l|]; simpl in *; [by apply zget_Val; split; [lia|]|].
    apply zeros_lookup in Hd. lia.
  - destruct (split_index (i - 7 - N)) as (Hq & Hr' & E); [lia|].
    replace (Z.to_nat i) with (7 + Z.to_nat N + Z.to_nat (i - 7 - N))%nat in Hd by lia.
    rewrite data_double in Hd by done. destruct (sh_double _ Hs) as (v8 & _ & Hd8).
    destruct (double_indirect_linking_zone_ z) as [linking|], (double_indirect_zones_ z) as [ts|]; try done.
    2: { simpl in Hd. apply zeros_lookup in Hd. lia. }
    destruct Hd8 as (_ & _ & Hts). rewrite E in Hd. eapply data_table in Hd as (t & Ht & Hv'); [|done|lia].
    simpl. rewrite (proj2 (zget_Val ts ((i - 7 - N) / N) t)) by done. simpl.
    destruct t as [l|]; simpl in *; [|apply zeros_lookup in Hv'; lia]. by apply zget_Val; split; [lia|].
Qed.

(** ** Entering a zone *)

Lemma filter_fill (l : list Z) i v : l !! i = Some 0 → v ≠ 0 →
  filter (λ v, v ≠ 0) (<[i:=v]> l) ≡ₚ filter (λ v, v ≠ 0) l ++ [v].
Proof.
  intros Hi Hv. rewrite <- (take_drop_middle _ _ _ Hi) at 2.
  rewrite insert_take_drop by (by eapply lookup_lt_Some).
  rewrite !filter_app, !filter_cons. rewrite (decide_True _ _ Hv), (decide_False _ _ (P := 0 ≠ 0)) by lia.
  by rewrite <- Permutation_middle, Permutation_cons_append.
Qed.

Lemma zeros_filter n : filter (λ v, v ≠ 0) (zeros n) = [].
Proof. unfold zeros. induction (Z.to_nat n); simpl; [done|]. rewrite filter_cons, decide_False by lia. done. Qed.

Lemma mjoin_zeros n : mjoin (table_of <$> replicate n None) = zeros (Z.of_nat n * N).
Proof.
  pose proof addresses_pos. induction n as [|n IH]; [done|].
  transitivity (zeros N ++ mjoin (table_of <$> replicate n None)); [done|]. rewrite IH. unfold zeros.
  rewrite <- replicate_add. f_equal. lia.
Qed.

Lemma zeros_linked n : Forall2 linked (zeros n) (replicate (Z.to_nat n) None).
Proof. unfold zeros. induction (Z.to_nat n); simpl; by constructor. Qed.

Lemma mjoin_insert {A} n (ls : list (list A)) q r l x : Forall (λ l, length l = n) ls → ls !! q = Some l → (r < n)%nat →
  mjoin (<[q:=<[r:=x]> l]> ls) = <[(q * n + r)%nat:=x]> (mjoin ls).
Proof.
  intros Hls. revert q. induction Hls as [|l' ls Hl' Hls IH]; intros q Hq Hr; [done|].
  destruct q as [|q]; simpl in Hq.
  - injection Hq as ->. simpl. by rewrite insert_app_l by lia.
  - change (mjoin (<[S q:=<[r:=x]> l]> (l' :: ls))) with (l' ++ mjoin (<[q:=<[r:=x]> l]> ls)).
    change (mjoin (l' :: ls)) with (l' ++ mjoin ls).
    rewrite IH by done. rewrite insert_app_r_alt by lia. do 2 f_equal. lia.
Qed.

(** Storing a zone number over a 0 among the direct ones from 7 on. *)
Lemma meta_direct z i v : (7 <= i)%nat → direct_zones_ z !! i = Some 0 → v ≠ 0 →
  filter (λ v, v ≠ 0) (drop 7 (<[i:=v]> (direct_zones_ z)) ++ default [] (double_indirect_linking_zone_ z)) ≡ₚ meta z ++ [v].
Proof.
  intros Hi Hl Hv. unfold meta. rewrite drop_insert_ge by done. rewrite !filter_app.
  rewrite filter_fill by (rewrite ?lookup_drop; replace (7 + (i - 7))%nat with i by lia; done).
  rewrite <- !(assoc_L (++)). f_equiv. apply Permutation_app_comm.
Qed.

(** [z'] stands for one zone more than [z], at the next index. *)
Lemma rep_append z zs z' v : rep z zs → shape z' → num_zones_ z' = num_zones_ z →
  data z' = <[length zs := v]> (data z) → is_zone v → Z.of_nat (length zs) < capacity →
  rep (count_zone z') (zs ++ [v]).
Proof.
  intros [_ Hd Hz Hn Hc] Hs Hn' Hd' Hv Hlt.
  assert (capacity < 2 ^ 32) by (unfold capacity, NUM_ZONE_ADDRESSES; by destruct (is_v3 h)).
  split.
  - destruct Hs. by split.
  - change (data (count_zone z')) with (data z'). rewrite Hd', Hd. rewrite insert_app_r_alt, Nat.sub_diag by lia.
    unfold zeros. rewrite length_app. simpl.
    replace (Z.to_nat (capacity - Z.of_nat (length zs))) with
      (S (Z.to_nat (capacity - Z.of_nat (length zs + 1)))) by lia.
    simpl. by rewrite <- (assoc_L (++)).
  - apply Forall_app. by split; [|constructor].
  - simpl. rewrite Hn', Hn, length_app. simpl. rewrite wrap_small by lia. lia.
  - rewrite length_app. simpl. lia.
Qed.
(** The zones of a new inode. *)
Definition no_zones : MinixFSZone := mkZone (zeros (NUM_ZONES h)) None None None 0.

Lemma rep_empty : rep no_zones [].
Proof.
  pose proof addresses_pos. assert (Hn : 9 <= NUM_ZONES h) by (unfold NUM_ZONES; destruct (is_v3 h); lia).
  split; [split| | | |].
  - simpl. unfold zeros. rewrite length_replicate. lia.
  - exists 0. split; [apply lookup_replicate; split; [done|lia]|done].
  - exists 0. split; [apply lookup_replicate; split; [done|lia]|done].
  - unfold data. simpl. unfold zeros. rewrite take_replicate, <- !replicate_add. f_equal. unfold capacity. lia.
  - constructor.
  - done.
  - unfold capacity. simpl. nia.
Qed.
End data.

Section growing.
Context {D : Type} `{BDDriverLaws D}.
Implicit Types (f : fs D) (z : MinixFSZone).
Notation N f := (NUM_ZONE_ADDRESSES (header f)).

(** The zones of tables that a step may allocate are taken from the free ones,
    and are the only change to the tables' zones. *)
Definition grew (f : fs D) (z : MinixFSZone) (k : nat) (f' : fs D) (z' : MinixFSZone) : Prop :=
  ∃ ms, took f ms f' ∧ meta z' ≡ₚ meta z ++ ms ∧ (length ms <= k)%nat.

Lemma grew_trans f z k f' z' k' f'' z'' : grew f z k f' z' → grew f' z' k' f'' z'' → grew f z (k + k') f'' z''.
Proof.
  intros (ms & H1 & H2 & H3) (ms' & H1' & H2' & H3'). exists (ms ++ ms'). split_and!.
  - by eapply took_trans.
  - rewrite H2', H2. by rewrite (assoc_L (++)).
  - rewrite length_app. lia.
Qed.

Lemma grew_refl f z k : fs_ok f → grew f z k f z.
Proof. intros Hok. exists []. split_and!; [by apply took_refl|by rewrite app_nil_r|simpl; lia]. Qed.

Lemma need_indirect_ok f z zs : fs_ok f → rep (header f) z zs → 2 <= free f →
  ∃ f' z', need_indirect f z = Val (f', z') ∧ grew f z 1 f' z' ∧ rep (header f) z' zs ∧
    is_Some (indirect_zones_ z') .
Proof.
  intros Hok Hr Hfree. unfold need_indirect. destruct (indirect_zones_ z) as [l|] eqn:Hl.
  { exists f, z. split_and!; [done|by apply grew_refl|done|by rewrite Hl]. }
  destruct (allocateZone_takes f Hok Hfree) as (f' & v & -> & Ht). cbn [mbind res_bind].
  destruct (took_free _ _ _ Ht v ltac:(by left)) as [Hv _]. destruct (data_zone_on_disc _ _ Hok Hv) as [_ Hvn].
  destruct Hr as [Hs Hd Hz Hn Hc]. pose proof Hs as [Hs1 (v7 & H7 & Hl7) (v8 & H8 & Hd8)].
  rewrite Hl in Hl7. simpl in Hl7. subst v7.
  assert (Hlen : (8 < length (direct_zones_ z))%nat) by (by eapply lookup_lt_Some).
  unfold zset. rewrite decide_True by lia. cbn [mbind res_bind].
  rewrite (took_header _ _ _ Ht). do 2 eexists. split; [done|]. split_and!; [..|by eexists].
  - exists [v]. split_and!; [done| |done]. unfold meta at 1. simpl. apply meta_direct; (done || lia).
  - split; simpl; try done.
    + split; simpl; [by rewrite length_insert| |].
      * exists v. rewrite list_lookup_insert_eq by lia. split; [done|]. split; [lia|apply length_replicate].
      * exists v8. by rewrite list_lookup_insert_ne by lia.
    + rewrite <- Hd. unfold data. simpl. rewrite take_insert_ge by done. by rewrite Hl.
Qed.

Lemma need_double_ok f z zs : fs_ok f → rep (header f) z zs → 2 <= free f →
  ∃ f' z', need_double f z = Val (f', z') ∧ grew f z 1 f' z' ∧ rep (header f) z' zs ∧
    is_Some (double_indirect_zones_ z').
Proof.
  intros Hok Hr Hfree. unfold need_double. destruct (double_indirect_zones_ z) as [ts|] eqn:Hts.
  { exists f, z. split_and!; [done|by apply grew_refl|done|by rewrite Hts]. }
  destruct (allocateZone_takes f Hok Hfree) as (f' & v & -> & Ht). cbn [mbind res_bind].
  destruct (took_free _ _ _ Ht v ltac:(by left)) as [Hv _]. destruct (data_zone_on_disc _ _ Hok Hv) as [_ Hvn].
  destruct Hr as [Hs Hd Hz Hn Hc]. pose proof Hs as [Hs1 (v7 & H7 & Hl7) (v8 & H8 & Hd8)].
  rewrite Hts in Hd8. destruct (double_indirect_linking_zone_ z) eqn:Hlk; [done|]. subst v8.
  assert (Hlen : (8 < length (direct_zones_ z))%nat) by (by eapply lookup_lt_Some).
  unfold zset. rewrite decide_True by lia. cbn [mbind res_bind].
  do 2 eexists. split; [done|]. split_and!; [..|by eexists].
  - exists [v]. split_and!; [done| |done].
    rewrite <- (meta_direct z 8 v) by (done || lia). unfold meta. simpl.
    rewrite !filter_app, zeros_filter. by rewrite Hlk.
  - split; simpl; try done.
    + split; simpl; [by rewrite length_insert| |].
      * exists v7. by rewrite list_lookup_insert_ne by lia.
      * exists v. rewrite list_lookup_insert_eq by lia. split_and!; [done|lia|apply length_replicate|apply zeros_linked].
    + rewrite <- Hd. unfold data. simpl. rewrite take_insert_ge by (simpl; lia). rewrite Hts. simpl.
      by rewrite mjoin_zeros, Z2Nat.id by (pose proof (addresses_pos (header f)); lia).
Qed.

Lemma need_table_ok f z zs k : fs_ok f → rep (header f) z zs → 2 <= free f →
  is_Some (double_indirect_zones_ z) → 0 <= k < N f →
  ∃ f' z' ts l, need_table f z k = Val (f', z') ∧ grew f z 1 f' z' ∧ rep (header f) z' zs ∧
    double_indirect_zones_ z' = Some ts ∧ ts !! Z.to_nat k = Some (Some l).
Proof.
  intros Hok Hr Hfree [ts Hts] Hk. unfold need_table. rewrite Hts. cbn [deref mbind res_bind].
  pose proof Hr as [Hs Hd Hz Hn Hc]. pose proof Hs as [Hs1 Hs7 (v8 & H8 & Hd8)]. rewrite Hts in Hd8.
  destruct (double_indirect_linking_zone_ z) as [linking|] eqn:Hlk; [|done]. destruct Hd8 as (H8z & Hll & Hlinked).
  pose proof (Forall2_length _ _ _ Hlinked) as Htl.
  destruct (lookup_lt_is_Some_2 ts (Z.to_nat k)) as [t Ht]; [lia|].
  rewrite (proj2 (zget_Val ts k t)) by (split; [lia|done]). cbn [mbind res_bind].
  destruct t as [l|].
  { exists f, z, ts, l. split_and!; [done|by apply grew_refl|done..]. }
  destruct (allocateZone_takes f Hok Hfree) as (f' & v & -> & Hto). cbn [mbind res_bind].
  destruct (took_free _ _ _ Hto v ltac:(by left)) as [Hv _]. destruct (data_zone_on_disc _ _ Hok Hv) as [_ Hvn].
  cbn [deref mbind res_bind]. unfold zset. rewrite !decide_True by lia. cbn [mbind res_bind].
  destruct (Forall2_lookup_r _ _ _ _ _ Hlinked Ht) as (v0 & Hv0 & Hlv0). simpl in Hlv0. subst v0.
  rewrite (took_header _ _ _ Hto). do 4 eexists. split; [done|]. split_and!; [..|done|apply list_lookup_insert_eq; lia].
  - exists [v]. split_and!; [done| |done]. unfold meta. simpl. rewrite Hlk. simpl.
    rewrite !filter_app, filter_fill by (done || lia). by rewrite (assoc_L (++)).
  - split; simpl; try done.
    + split; simpl; [done|done|]. exists v8. split_and!; [done|done|by rewrite length_insert|].
      apply Forall2_insert; [done|]. split; [lia|apply length_replicate].
    + rewrite <- Hd. unfold data. simpl. rewrite Hts. simpl. do 3 f_equal.
      rewrite list_fmap_insert. apply list_insert_id. by rewrite list_lookup_fmap, Ht.
Qed.

Lemma grew_facts f z k f' z' : grew f z k f' z' →
  fs_ok f' ∧ header f' = header f ∧ free f - Z.of_nat k <= free f'.
Proof.
  intros (ms & Ht & _ & Hl). split_and!; [apply Ht|by eapply took_header|]. rewrite (took_count _ _ _ Ht). lia.
Qed.

Lemma grew_weaken f z k k' f' z' z'' : grew f z k f' z' → meta z'' = meta z' → (k <= k')%nat → grew f z k' f' z''.
Proof. intros (ms & ? & Hm & ?) E ?. exists ms. rewrite E. split_and!; [done..|lia]. Qed.

Lemma data_full h z zs : rep h z zs → Z.of_nat (length zs) < capacity h → data h z !! length zs = Some 0.
Proof.
  intros [_ -> _ _ _] Hc. rewrite lookup_app_r, Nat.sub_diag by lia. unfold zeros. apply lookup_replicate. lia.
Qed.

(** [setZone] at the number of zones appends the zone, whatever the level. *)
Lemma setZone_appends f z zs v : fs_ok f → rep (header f) z zs → is_zone v →
  Z.of_nat (length zs) < capacity (header f) → 3 <= free f →
  ∃ f' z', setZone f z (num_zones_ z) v = Val (f', z') ∧ rep (header f) z' (zs ++ [v]) ∧ grew f z 2 f' z'.
Proof.
  intros Hok Hr Hv Hc Hfree. unfold setZone. rewrite (rep_num _ _ _ Hr).
  pose proof (addresses_pos (header f)) as HN. set (i := Z.of_nat (length zs)) in *.
  destruct (Z.ltb_spec i 7).
  { pose proof (direct_long _ _ (rep_shape _ _ _ Hr)). unfold zset. rewrite decide_True by lia. cbn [mbind res_bind].
    do 2 eexists. split; [done|]. split.
    - pose proof Hr as [[Hs1 Hs7 Hs8] _ _ _ _].
      eapply rep_append; [done| |done| |done|done].
      + split; simpl; [by rewrite length_insert|by rewrite list_lookup_insert_ne by lia..].
      + unfold data. simpl. rewrite take_insert_lt, insert_app_l by (rewrite ?length_take; lia). do 2 f_equal. lia.
    - exists []. split_and!; [by apply took_refl| |simpl; lia]. rewrite app_nil_r. unfold meta. simpl.
      by rewrite drop_insert_lt by lia. }
  destruct (Z.ltb_spec (i - 7) (N f)).
  { destruct (need_indirect_ok f z zs Hok Hr ltac:(lia)) as (f1 & z1 & -> & Hg & Hr1 & l & Hl). cbn [mbind res_bind].
    rewrite Hl. cbn [deref mbind res_bind]. pose proof Hr1 as [[Hs1 (v7 & H7 & Hl7) Hs8] _ _ _ _].
    rewrite Hl in Hl7. destruct Hl7 as [H70 Hlen]. unfold zset. rewrite decide_True by lia. cbn [mbind res_bind].
    do 2 eexists. split; [done|]. split.
    - eapply rep_append; [exact Hr1| |done| |done|done].
      + split; simpl; [done| |done]. exists v7. split; [done|]. split; [done|by rewrite length_insert].
      + pose proof (direct_long _ _ (rep_shape _ _ _ Hr1)). unfold data. simpl. rewrite Hl. simpl.
        rewrite insert_app_r_alt by (rewrite length_take; lia). rewrite length_take.
        rewrite insert_app_l by lia. do 3 f_equal. lia.
    - apply (grew_weaken _ _ 1 2 _ z1); [done|done|lia]. }
  destruct (need_double_ok f z zs Hok Hr ltac:(lia)) as (f1 & z1 & -> & Hg1 & Hr1 & Hts1). cbn [mbind res_bind].
  destruct (grew_facts _ _ _ _ _ Hg1) as (Hok1 & Hh1 & Hf1). rewrite <- Hh1 in Hr1.
  destruct (split_index (header f) (i - 7 - N f)) as (Hq & Hm & Hidx); [lia|].
  assert ((i - 7 - N f) / N f < N f).
  { apply Z.div_lt_upper_bound; [lia|]. unfold capacity in Hc. lia. }
  destruct (need_table_ok f1 z1 zs ((i - 7 - N f) / N f) Hok1 Hr1) as (f2 & z2 & ts & l & -> & Hg2 & Hr2 & Hts & Hl);
    [lia|done|rewrite Hh1; lia|].
  cbn [mbind res_bind]. rewrite Hts. cbn [deref mbind res_bind]. rewrite Hh1 in Hr2.
  pose proof Hr2 as [[Hs1 Hs7 (v8 & H8 & Hd8)] _ _ _ _]. rewrite Hts in Hd8.
  destruct (double_indirect_linking_zone_ z2) as [linking|] eqn:Hlk; [|done]. destruct Hd8 as (H8z & Hll & Hlinked).
  rewrite (proj2 (zget_Val ts _ _) (conj Hq Hl)). cbn [deref mbind res_bind].
  destruct (Forall2_lookup_r _ _ _ _ _ Hlinked Hl) as (lv & Hlv & Hlv0 & Hlen).
  pose proof (lookup_lt_Some _ _ _ Hl). unfold zset. rewrite !decide_True by lia. cbn [mbind res_bind].
  rewrite decide_True by lia. cbn [deref mbind res_bind]. do 2 eexists. split; [done|]. split.
  - eapply rep_append; [exact Hr2| |done| |done|done].
    + split; simpl; [done|done|]. exists v8. split_and!; [done..|].
      rewrite <- (list_insert_id _ _ _ Hlv). apply Forall2_insert; [done|]. split; [done|by rewrite length_insert].
    + pose proof (direct_long _ _ (rep_shape _ _ _ Hr2)). destruct Hs7 as (v7 & _ & Hl7%table_of_length).
      unfold data. simpl. rewrite Hts. rewrite !insert_app_r_alt by (rewrite ?length_take; lia). do 2 f_equal.
      rewrite length_take, Hl7. cbn [double_data double_indirect_zones_ count_zone set_double].
      replace (length zs - 7 `min` length (direct_zones_ z2) - Z.to_nat (N f))%nat
        with (Z.to_nat (i - 7 - N f)) by lia.
      rewrite Hidx, list_fmap_insert. apply mjoin_insert; [by eapply tables_length| |lia].
      by rewrite list_lookup_fmap, Hl.
  - eapply grew_weaken; [by eapply (grew_trans _ _ 1 _ _ 1)| |lia]. unfold meta. simpl. by rewrite Hlk.
Qed.
End growing.

(** ** Tables on the disc *)

Section disc_tables.
Context {D : Type} `{BDDriverLaws D}.
Implicit Types (f : fs D) (z : MinixFSZone).
Notation w h := (Z.of_nat (entry_bytes h)).

(** The bytes of a row of numbers. *)
Definition encode (h : MinixFSSuperblock) (vals : list Z) : list Z := mjoin (le (entry_bytes h) <$> vals).

Lemma encode_cons h v vals : encode h (v :: vals) = le (entry_bytes h) v ++ encode h vals.
Proof. done. Qed.

Lemma encode_length h vals : Z.of_nat (length (encode h vals)) = Z.of_nat (length vals) * w h.
Proof.
  induction vals as [|v vals IH]; [done|]. rewrite encode_cons, length_app, le_length. simpl length. lia.
Qed.

Lemma table_size h : NUM_ZONE_ADDRESSES h * w h = ZONE_SIZE.
Proof. unfold NUM_ZONE_ADDRESSES, entry_bytes. by destruct (is_v3 h). Qed.

Lemma write_entries_patch h vals : ∀ buffer p idx, fits buffer (p + idx * w h) (Z.of_nat (length vals) * w h) →
  write_entries h vals buffer p idx = Val (patch buffer (p + idx * w h) (encode h vals)).
Proof.
  induction vals as [|v vals IH]; intros buffer p idx Hf; [unfold encode; simpl; by rewrite patch_nil|].
  cbn [write_entries]. unfold SET_V3_ARRAY. simpl length in Hf. destruct Hf as (H1 & H2 & H3).
  assert (Hfv : fits buffer (p + idx * w h) (w h)) by (repeat split; lia).
  rewrite store_le_patch by done. cbn [mbind res_bind].
  assert (Hl : w h = Z.of_nat (length (le (entry_bytes h) v))) by (by rewrite le_length).
  rewrite IH.
  - rewrite encode_cons, <- patch_app.
    + by replace (p + (idx + 1) * w h) with (p + idx * w h + Z.of_nat (length (le (entry_bytes h) v))) by lia.
    + rewrite encode_length, <- Hl. repeat split; lia.
  - repeat split; [lia..|]. rewrite patch_length by (by rewrite <- Hl). lia.
Qed.

(** What can be stored in an entry. *)
Definition storable (v : Z) : Prop := 0 <= v < 2 ^ 16.

Lemma storable_entry h v : storable v → 0 <= v < 256 ^ w h.
Proof. unfold storable, entry_bytes. destruct (is_v3 h); simpl; lia. Qed.

Lemma read_entries_encoded h vals : Forall storable vals → ∀ buffer p idx,
  fits buffer (p + idx * w h) (Z.of_nat (length vals) * w h) →
  sub buffer (p + idx * w h) (Z.of_nat (length vals) * w h) = encode h vals →
  read_entries h (length vals) buffer p idx = Val vals.
Proof.
  induction 1 as [|v vals Hv Hvals IH]; intros buffer p idx Hf Hs; [done|].
  cbn [read_entries length]. unfold V3_ARRAY. simpl length in *. destruct Hf as (H1 & H2 & H3).
  assert (Hfv : fits buffer (p + idx * w h) (w h)) by (repeat split; lia).
  rewrite load_le_sub by done. cbn [mbind res_bind].
  replace (Z.of_nat (S (length vals)) * w h) with (w h + Z.of_nat (length vals) * w h) in Hs by lia.
  rewrite sub_app, encode_cons in Hs by lia.
  apply app_inj_1 in Hs as [E1 E2].
  2: { rewrite le_length. pose proof (sub_length _ _ _ Hfv). lia. }
  rewrite E1, unle_le by (by apply storable_entry).
  rewrite IH; [done|repeat split; lia|]. rewrite <- E2. f_equal. lia.
Qed.

Lemma zone_fits (b : list Z) : Z.of_nat (length b) = ZONE_SIZE → fits b 0 ZONE_SIZE.
Proof. unfold fits, ZONE_SIZE. lia. Qed.

Lemma write_table_ok f zone vals : disc_ok f → on_disc f zone →
  Z.of_nat (length vals) = NUM_ZONE_ADDRESSES (header f) →
  ∃ f', write_table f zone vals = Val f' ∧ touched f [zone] f' ∧ block f' zone = encode (header f) vals.
Proof.
  intros Hd Hz Hl. unfold write_table.
  assert (Hla : Z.of_nat (length (local_array ZONE_SIZE)) = ZONE_SIZE) by done.
  assert (Hle : Z.of_nat (length (encode (header f) vals)) = ZONE_SIZE) by (by rewrite encode_length, Hl, table_size).
  rewrite write_entries_patch by (rewrite Hl, table_size, Z.mul_0_l; by apply zone_fits).
  cbn [mbind res_bind]. rewrite Z.mul_0_l, Z.add_0_l.
  assert (E : patch (local_array ZONE_SIZE) 0 (encode (header f) vals) = encode (header f) vals).
  { unfold patch. simpl. rewrite drop_ge by lia. apply app_nil_r. }
  rewrite E. destruct (writeZone_writes f zone (encode (header f) vals) Hd Hz Hle) as (f' & -> & Hw).
  apply wrote_touched in Hw as [Ht Hb]. exists f'. split_and!; auto.
Qed.

Lemma read_table_ok f zone vals : disc_ok f → on_disc f zone → Forall storable vals →
  Z.of_nat (length vals) = NUM_ZONE_ADDRESSES (header f) → block f zone = encode (header f) vals →
  read_table f zone = Val (f, vals).
Proof.
  intros Hd Hz Hv Hl Hb. unfold read_table. rewrite readZone_reads by done. cbn [mbind res_bind].
  rewrite <- Hl, Nat2Z.id, (read_entries_encoded _ vals); [done|done|..].
  - rewrite Hl, table_size, Z.mul_0_l. by apply zone_fits, block_length.
  - rewrite Hl, table_size, Z.mul_0_l, Hb. apply sub_all. by rewrite encode_length, Hl, table_size.
Qed.

(** The zones of tables among the entries of the doubly indirect table. *)
Definition used_links (linking : list Z) : list Z := filter (λ v, v ≠ 0) linking.

(** Every table of the list is on the disc, in the zone that goes with it. *)
Definition stored (f : fs D) (zone : Z) (t : option (list Z)) : Prop :=
  match t with Some l => block f zone = encode (header f) l | None => True end.

Lemma write_tables_ok linking : ∀ ts f, disc_ok f → Forall2 (linked (header f)) linking ts →
  (∀ v, v ∈ used_links linking → on_disc f v) → NoDup (used_links linking) →
  ∃ f', write_tables f linking ts = Val f' ∧ touched f (used_links linking) f' ∧ Forall2 (stored f') linking ts.
Proof.
  induction linking as [|v linking IH]; intros ts f Hd Hl Hin Hn; inversion Hl as [|? t ? ts' Ht Hts]; subst.
  { exists f. split_and!; [done|by apply touched_refl|constructor]. }
  cbn [write_tables]. unfold used_links in *. rewrite filter_cons in Hin, Hn |- *. destruct t as [l|]; simpl in Ht.
  - destruct Ht as [Hv Hlen]. rewrite decide_True in Hin, Hn |- * by done. apply NoDup_cons in Hn as [Hnv Hn].
    rewrite (proj2 (Z.eqb_neq v 0)) by done. cbn [deref mbind res_bind].
    pose proof (addresses_pos (header f)).
    destruct (write_table_ok f v l Hd) as (f1 & -> & Ht1 & Hb1); [apply Hin; by left|lia|].
    cbn [mbind res_bind]. pose proof (touched_header _ _ _ Ht1) as Hh1.
    destruct (IH ts' f1) as (f2 & -> & Ht2 & Hs2); [apply Ht1|by rewrite Hh1| |done|].
    { intros b Hb. apply (touched_on_disc _ _ _ _ Ht1), Hin. by right. }
    exists f2. split_and!; [done|apply (touched_trans _ _ _ _ _ Ht1 Ht2)|].
    constructor; [|done]. simpl. rewrite (touched_header _ _ _ Ht2), Hh1, <- Hb1.
    apply Ht2; [apply (touched_on_disc _ _ _ _ Ht1), Hin; by left|done].
  - subst v. rewrite decide_False in Hin, Hn |- * by lia. simpl.
    destruct (IH ts' f Hd Hts Hin Hn) as (f2 & -> & Ht2 & Hs2). exists f2. split_and!; [done..|by constructor].
Qed.

Lemma count_app l k : count (l ++ k) = count l + count k.
Proof. unfold count. rewrite filter_app, length_app. lia. Qed.

Lemma count_zeros n : count (zeros n) = 0.
Proof. unfold count. by rewrite zeros_filter. Qed.

Lemma count_zones zs : Forall is_zone zs → count zs = Z.of_nat (length zs).
Proof.
  unfold count. induction 1 as [|v zs Hv _ IH]; [done|]. unfold is_zone in Hv.
  rewrite filter_cons, decide_True by lia. simpl. lia.
Qed.

Lemma read_tables_ok linking : ∀ ts f, disc_ok f → Forall2 (linked (header f)) linking ts →
  Forall2 (stored f) linking ts → (∀ v, v ∈ used_links linking → on_disc f v) →
  Forall storable (mjoin (table_of (header f) <$> ts)) →
  read_tables f linking = Val (f, ts, count (mjoin (table_of (header f) <$> ts))).
Proof.
  induction linking as [|v linking IH]; intros ts f Hd Hl Hs Hin Hst; inversion Hl as [|? t ? ts' Ht Hts]; subst.
  { done. }
  inversion Hs as [|? ? ? ? Hs1 Hs2]; subst.
  change (mjoin (table_of (header f) <$> t :: ts')) with (table_of (header f) t ++ mjoin (table_of (header f) <$> ts')) in *.
  apply Forall_app in Hst as [Hst1 Hst2].
  cbn [read_tables]. unfold used_links in *. rewrite filter_cons in Hin. rewrite count_app. destruct t as [l|]; simpl in *.
  - destruct Ht as [Hv Hlen]. rewrite decide_True in Hin by done. rewrite (proj2 (Z.eqb_neq v 0)) by done.
    pose proof (addresses_pos (header f)).
    rewrite (read_table_ok f v l); [|done|apply Hin; by left|done|lia|done]. cbn [mbind res_bind].
    rewrite (IH ts'); [done|done|done|done| |done]. intros b Hb. apply Hin. by right.
  - subst v. rewrite decide_False in Hin by lia. simpl. rewrite (IH ts') by done. simpl. by rewrite count_zeros.
Qed.

(** ** A flush stores what the constructor reads *)

(** The tables of [z] are on the disc. *)
Definition tables_stored (f : fs D) (z : MinixFSZone) : Prop :=
  (∀ v7, direct_zones_ z !! 7%nat = Some v7 → stored f v7 (indirect_zones_ z)) ∧
  (∀ v8, direct_zones_ z !! 8%nat = Some v8 → stored f v8 (double_indirect_linking_zone_ z)) ∧
  Forall2 (stored f) (default [] (double_indirect_linking_zone_ z)) (default [] (double_indirect_zones_ z)).

(** The first entry of the zone numbers within the inode. *)
Definition zones_offset (h : MinixFSSuperblock) (i_num : Z) : Z :=
  inode_offset h i_num + INODE_BYTES h * (7 - V3_OFFSET h).

Lemma inode_offset_range h i_num : 0 <= inode_offset h i_num ∧ inode_offset h i_num + INODE_SIZE h <= BLOCK_SIZE.
Proof.
  unfold inode_offset. pose proof (wrap_bounds 32 (i_num - 1) ltac:(lia)).
  set (k := u32 (i_num - 1)) in *. clearbody k. unfold wrap, BLOCK_SIZE, INODE_SIZE.
  destruct (is_v3 h); Z.to_euclidean_division_equations; lia.
Qed.

Lemma zones_offset_range h i_num : 0 <= zones_offset h i_num ∧
  zones_offset h i_num + NUM_ZONES h * w h <= BLOCK_SIZE ∧ INODE_BYTES h = w h ∧ zones_offset h i_num < 2 ^ 32.
Proof.
  pose proof (inode_offset_range h i_num) as Hr. unfold zones_offset, INODE_SIZE, NUM_ZONES, INODE_BYTES, V3_OFFSET, entry_bytes in *.
  unfold BLOCK_SIZE in *. destruct (is_v3 h); lia.
Qed.

Lemma meta_parts h z : shape h z → ∃ v7 v8 rest, direct_zones_ z !! 7%nat = Some v7 ∧ direct_zones_ z !! 8%nat = Some v8 ∧
  drop 7 (direct_zones_ z) = v7 :: v8 :: rest ∧
  meta z = filter (λ v, v ≠ 0) [v7] ++ filter (λ v, v ≠ 0) [v8] ++ filter (λ v, v ≠ 0) rest ++ used_links (default [] (double_indirect_linking_zone_ z)).
Proof.
  intros [_ (v7 & H7 & _) (v8 & H8 & _)]. exists v7, v8, (drop 9 (direct_zones_ z)).
  assert (E : drop 7 (direct_zones_ z) = v7 :: v8 :: drop 9 (direct_zones_ z)).
  { by rewrite (drop_S _ _ _ H7), (drop_S _ _ _ H8). }
  split_and!; [done..|]. unfold meta, used_links. rewrite E, filter_app.
  change (v7 :: v8 :: drop 9 (direct_zones_ z)) with ([v7] ++ [v8] ++ drop 9 (direct_zones_ z)).
  by rewrite !filter_app, !(assoc_L (++)).
Qed.

(** A stored table stays stored while other blocks are written. *)
Lemma stored_touched f l f' v t : touched f l f' → linked (header f) v t → (v ≠ 0 → on_disc f v ∧ v ∉ l) →
  stored f v t → stored f' v t.
Proof.
  intros Ht Hlk Hv. destruct t as [tab|]; [|done]. destruct Hlk as [Hv0 _], (Hv Hv0). simpl.
  rewrite (touched_header _ _ _ Ht). by rewrite (touched_others _ _ _ Ht).
Qed.

(** Writing the indirect table, when there is one. *)
Lemma flush_table f v t : disc_ok f → linked (header f) v t → (v ≠ 0 → on_disc f v) →
  ∃ f', (if v =? 0 then Val f
         else _ ← kassert (match t with Some _ => true | None => false end); l ← deref t; write_table f v l) = Val f' ∧
    touched f (filter (λ v, v ≠ 0) [v]) f' ∧ stored f' v t.
Proof.
  intros Hd Ht Hv. destruct t as [l|]; simpl in Ht.
  - destruct Ht as [Hv0 Hl]. rewrite (proj2 (Z.eqb_neq v 0)) by done. simpl.
    pose proof (addresses_pos (header f)).
    destruct (write_table_ok f v l Hd (Hv Hv0) ltac:(lia)) as (f' & -> & Htt & Hb). exists f'.
    rewrite filter_cons, decide_True by done. split_and!; [done..|]. simpl. by rewrite (touched_header _ _ _ Htt).
  - subst v. exists f. split_and!; [done|by apply touched_refl|done].
Qed.

Lemma flush_writes f z zs i_num : disc_ok f → rep (header f) z zs →
  (∀ b, b ∈ inode_block (header f) i_num :: meta z → on_disc f b) → NoDup (inode_block (header f) i_num :: meta z) →
  ∃ f', flush f z i_num = Val f' ∧ touched f (inode_block (header f) i_num :: meta z) f' ∧ tables_stored f' z ∧
    block f' (inode_block (header f) i_num) =
      patch (block f (inode_block (header f) i_num)) (zones_offset (header f) i_num) (encode (header f) (direct_zones_ z)).
Proof.
  intros Hd [Hs _ _ _ _] Hin Hnd. set (b := inode_block (header f) i_num) in *.
  pose proof (zones_offset_range (header f) i_num) as (Ho & Hfit & Hw & Hsmall).
  pose proof (sh_direct _ _ Hs) as Hlen. unfold flush. rewrite take_ge by lia.
  assert (Hz : 0 <= NUM_ZONES (header f)) by lia.
  assert (Hla : Z.of_nat (length (local_array (NUM_ZONES (header f) * INODE_BYTES (header f)))) = NUM_ZONES (header f) * INODE_BYTES (header f))
    by (apply local_array_length; rewrite Hw; nia).
  rewrite write_entries_patch.
  2: { rewrite Z.mul_0_l, Hlen. repeat split; [lia|nia|]. rewrite Hla, Hw. lia. }
  cbn [mbind res_bind]. rewrite Z.mul_0_l, Z.add_0_l.
  assert (Hle : Z.of_nat (length (encode (header f) (direct_zones_ z))) = NUM_ZONES (header f) * w (header f))
    by (by rewrite encode_length, Hlen).
  assert (E : patch (local_array (NUM_ZONES (header f) * INODE_BYTES (header f))) 0 (encode (header f) (direct_zones_ z)) = encode (header f) (direct_zones_ z)).
  { unfold patch. simpl. rewrite drop_ge by (rewrite Hw in Hla |- *; lia). apply app_nil_r. }
  rewrite E. fold b. pose proof (inode_offset_range (header f) i_num).
  rewrite (wrap_small 32 (inode_offset _ _ + _)) by (fold (zones_offset (header f) i_num); lia). fold (zones_offset (header f) i_num).
  rewrite Hw, <- Hle.
  destruct (writeBytes_writes f b (zones_offset (header f) i_num) (encode (header f) (direct_zones_ z)) Hd) as (f1 & -> & Hw1);
    [apply Hin; by left|done|lia|].
  cbn [mbind res_bind]. apply wrote_touched in Hw1 as [Ht1 Hb1].
  destruct (meta_parts _ _ Hs) as (v7 & v8 & rest & H7 & H8 & _ & Hm).
  destruct Hs as [_ (v7' & H7' & Hl7) (v8' & H8' & Hl8)]. rewrite H7 in H7'. injection H7' as <-.
  rewrite H8 in H8'. injection H8' as <-.
  rewrite (proj2 (zget_Val _ 7 v7)) by done. cbn [mbind res_bind]. rewrite Hm in Hin, Hnd.
  apply NoDup_cons in Hnd as [Hb Hnd]. apply NoDup_app in Hnd as (_ & N7 & Hnd). apply NoDup_app in Hnd as (_ & N8 & Hnd).
  apply NoDup_app in Hnd as (_ & _ & Nl). pose proof (touched_header _ _ _ Ht1) as Hh1.
  assert (I7 : v7 ≠ 0 → v7 ∈ filter (λ v, v ≠ 0) [v7]) by (intros; apply list_elem_of_filter; split; [done|by left]).
  assert (I8 : v8 ≠ 0 → v8 ∈ filter (λ v, v ≠ 0) [v8]) by (intros; apply list_elem_of_filter; split; [done|by left]).
  destruct (flush_table f1 v7 (indirect_zones_ z)) as (f2 & -> & Ht2 & Hst7); [apply Ht1|by rewrite Hh1| |].
  { intros Hv. apply (touched_on_disc _ _ _ _ Ht1), Hin. right. apply elem_of_app. left. auto. }
  cbn [mbind res_bind]. rewrite (proj2 (zget_Val _ 8 v8)) by done. cbn [mbind res_bind].
  pose proof (touched_trans _ _ _ _ _ Ht1 Ht2) as Ht12. pose proof (touched_header _ _ _ Ht12) as Hh2.
  assert (Hrest : ∃ f', (if v8 =? 0 then Val f2 else
      _ ← kassert (match double_indirect_linking_zone_ z with Some _ => true | None => false end);
      _ ← kassert (match double_indirect_zones_ z with Some _ => true | None => false end);
      linking ← deref (double_indirect_linking_zone_ z); tables ← deref (double_indirect_zones_ z);
      f ← write_table f2 v8 linking; write_tables f linking tables) = Val f' ∧
    touched f2 (filter (λ v, v ≠ 0) [v8] ++ used_links (default [] (double_indirect_linking_zone_ z))) f' ∧
    stored f' v8 (double_indirect_linking_zone_ z) ∧
    Forall2 (stored f') (default [] (double_indirect_linking_zone_ z)) (default [] (double_indirect_zones_ z))).
  { destruct (double_indirect_linking_zone_ z) as [linking|], (double_indirect_zones_ z) as [ts|]; try done.
    2: { subst v8. exists f2. split_and!; [done|apply touched_refl, Ht12|done|constructor]. }
    destruct Hl8 as (Hv8 & Hll & Hts). simpl in Hin, N8, Nl. pose proof (I8 Hv8) as I8'.
    rewrite (proj2 (Z.eqb_neq v8 0)) by done. simpl. pose proof (addresses_pos (header f)).
    destruct (write_table_ok f2 v8 linking) as (f3 & -> & Ht3 & Hb3);
      [apply Ht12|apply (touched_on_disc _ _ _ _ Ht12), Hin; right; rewrite !elem_of_app; auto|rewrite Hh2; lia|].
    cbn [mbind res_bind]. pose proof (touched_trans _ _ _ _ _ Ht12 Ht3) as Ht13. pose proof (touched_header _ _ _ Ht13) as Hh3.
    destruct (write_tables_ok linking ts f3) as (f4 & -> & Ht4 & Hs4); [apply Ht13|by rewrite Hh3| |done|].
    { intros v Hv. apply (touched_on_disc _ _ _ _ Ht13), Hin. right. rewrite !elem_of_app. auto. }
    exists f4. rewrite filter_cons, decide_True by done. split_and!; [done|by apply (touched_trans _ _ _ _ _ Ht3 Ht4)| |done].
    simpl. rewrite (touched_header _ _ _ Ht4), Hh3, <- Hh2, <- Hb3. apply Ht4.
    - apply (touched_on_disc _ _ _ _ Ht13), Hin. right. rewrite !elem_of_app. auto.
    - intros Hu. apply (N8 v8 I8'), elem_of_app. by right. }
  destruct Hrest as (f' & -> & Ht3 & Hst8 & Hsts). exists f'.
  pose proof (touched_trans _ _ _ _ _ Ht12 Ht3) as Ht. split_and!; [done| |split_and!|].
  - eapply touched_weaken; [exact Ht|]. rewrite Hm. intros c. pose proof (not_elem_of_nil c).
    rewrite elem_of_cons, !elem_of_app, list_elem_of_singleton. tauto.
  - intros v7' E7. rewrite H7 in E7. injection E7 as <-. eapply stored_touched; [exact Ht3|by rewrite Hh2| |done].
    intros Hv. split; [apply (touched_on_disc _ _ _ _ Ht12), Hin; right; rewrite !elem_of_app; auto|].
    intros [Hc|Hc]%elem_of_app; apply (N7 v7 (I7 Hv)); rewrite !elem_of_app; auto.
  - intros v8' E8. rewrite H8 in E8. by injection E8 as <-.
  - done.
  - rewrite <- Hb1 by (apply Hin; by left).
    rewrite (touched_others _ _ _ Ht3), (touched_others _ _ _ Ht2); [done|..].
    + apply (touched_on_disc _ _ _ _ Ht1), Hin. by left.
    + intros Hc. apply Hb. rewrite !elem_of_app. auto.
    + apply (touched_on_disc _ _ _ _ Ht12), Hin. by left.
    + intros [Hc|Hc]%elem_of_app; apply Hb; rewrite !elem_of_app; auto.
Qed.

Lemma zs_storable h z zs : rep h z zs → Forall storable (data h z).
Proof.
  intros [_ -> Hz _ _]. apply Forall_app. split.
  - eapply Forall_impl; [exact Hz|]. intros v. unfold is_zone, storable. lia.
  - apply Forall_replicate. unfold storable. lia.
Qed.

Lemma meta_storable f z v : (∀ b, b ∈ meta z → on_disc f b) →
  v ∈ drop 7 (direct_zones_ z) ++ default [] (double_indirect_linking_zone_ z) → storable v.
Proof.
  intros Hm Hv. unfold storable. destruct (decide (v = 0)) as [->|Hne]; [lia|].
  destruct (Hm v) as [? ?]; [|lia]. unfold meta. by apply list_elem_of_filter.
Qed.

Lemma direct_storable f z zs : rep (header f) z zs → (∀ b, b ∈ meta z → on_disc f b) → Forall storable (direct_zones_ z).
Proof.
  intros Hr Hm. rewrite <- (take_drop 7 (direct_zones_ z)). apply Forall_app. split.
  - pose proof (zs_storable _ _ _ Hr) as Hs. unfold data in Hs. by apply Forall_app in Hs as [? _].
  - apply Forall_forall. intros v Hv. apply (meta_storable f z v Hm), elem_of_app. by left.
Qed.

(** The constructor finds the tables that are stored. *)
Lemma new_reads f z zs : disc_ok f → rep (header f) z zs → (∀ b, b ∈ meta z → on_disc f b) → tables_stored f z →
  new f (direct_zones_ z) = Val (f, z).
Proof.
  intros Hd Hr Hm (Hst7 & Hst8 & Hsts). pose proof Hr as [Hs Hdata Hz Hn _]. pose proof (zs_storable _ _ _ Hr) as Hsto.
  pose proof (sh_direct _ _ Hs) as Hlen. pose proof (addresses_pos (header f)).
  destruct (meta_parts _ _ Hs) as (v7 & v8 & rest & H7 & H8 & _ & Hparts).
  destruct Hs as [_ (v7' & H7' & Hl7) (v8' & H8' & Hl8)]. rewrite H7 in H7'. injection H7' as <-.
  rewrite H8 in H8'. injection H8' as <-. specialize (Hst7 _ H7). specialize (Hst8 _ H8).
  assert (I7 : v7 ≠ 0 → on_disc f v7).
  { intros. apply Hm. rewrite Hparts. apply elem_of_app. left. apply list_elem_of_filter. split; [done|by left]. }
  assert (Hcount : count (data (header f) z) = num_zones_ z).
  { rewrite Hdata, count_app, count_zeros, count_zones, Hn by done. lia. }
  unfold data in Hcount, Hsto. rewrite !count_app in Hcount. apply Forall_app in Hsto as [_ [Hsi Hsd]%Forall_app].
  unfold new. rewrite take_ge by lia. rewrite (proj2 (zget_Val _ 7 v7)) by done. cbn [mbind res_bind].
  assert (E7 : (if v7 =? 0 then Val (f, None) else '(f, l) ← read_table f v7; Val (f, Some l)) = Val (f, indirect_zones_ z)).
  { destruct (indirect_zones_ z) as [l|]; simpl in Hl7; [|by subst v7].
    destruct Hl7 as [Hv Hl]. rewrite (proj2 (Z.eqb_neq v7 0)) by done. by rewrite (read_table_ok f v7 l) by (auto || lia). }
  rewrite E7. cbn [mbind res_bind]. rewrite (proj2 (zget_Val _ 8 v8)) by done. cbn [mbind res_bind].
  assert (Ec : match indirect_zones_ z with Some l => count l | None => 0 end = count (table_of (header f) (indirect_zones_ z))).
  { destruct (indirect_zones_ z); [done|]. simpl. by rewrite count_zeros. }
  rewrite Ec. destruct (double_indirect_linking_zone_ z) as [linking|] eqn:Elk, (double_indirect_zones_ z) as [ts|] eqn:Ets; try done.
  - destruct Hl8 as (Hv8 & Hll & Hts). rewrite (proj2 (Z.eqb_neq v8 0)) by done.
    rewrite (read_table_ok f v8 linking); [|done| | |lia|done].
    2: { apply Hm. rewrite Hparts, !elem_of_app. right. left. apply list_elem_of_filter. split; [done|by left]. }
    2: { apply Forall_forall. intros v Hv. apply (meta_storable f z v Hm). rewrite Elk. apply elem_of_app. by right. }
    cbn [mbind res_bind]. rewrite (read_tables_ok linking ts f); [|done..| |done].
    + cbn [mbind res_bind]. simpl in Hcount. rewrite <- Z.add_assoc, Hcount. destruct z; simpl in *. by subst.
    + intros b Hb. apply Hm. rewrite Hparts, !elem_of_app. auto.
  - subst v8. simpl. simpl in Hcount. rewrite count_zeros in Hcount. rewrite Z.add_0_r in Hcount. rewrite Hcount.
    destruct z; simpl in *. by subst.
Qed.
End disc_tables.

End Zone.
