(* ===== verification/MinixInode.v ===== *)
(** * MINIX file system: inodes

    Models [common/source/fs/minixfs/MinixFSInode.cpp] (reading and writing an
    inode's data, the entries of directories) and the inodes of
    [MinixFSSuperblock.cpp] ([getInode], [readInode], [writeInode]).  The links
    to the [Dentry] and [File] objects of the virtual file system are left out.
    The caller's buffer is the array from its pointer on. *)
From S2P Require Import Prelude Bitmap LibcString Kstring Buffers BlockDevice MinixStorage MinixDisc MinixZone.

Import Storage Disc.

Module Inode.

Definition I_FILE : Z := 0.
Definition I_DIR : Z := 1.

Record MinixFSInode : Set := mkInode {
  i_type_ : Z;
  i_size_ : Z;
  i_nlink_ : Z;
  i_num_ : Z;
  i_zones_ : Zone.MinixFSZone;
}.

Definition set_zones (z : Zone.MinixFSZone) (i : MinixFSInode) : MinixFSInode :=
  mkInode (i_type_ i) (i_size_ i) (i_nlink_ i) (i_num_ i) z.
Definition set_size (s : Z) (i : MinixFSInode) : MinixFSInode :=
  mkInode (i_type_ i) s (i_nlink_ i) (i_num_ i) (i_zones_ i).

Section inode.
Context {D : Type} `{BDDriver D}.
Implicit Types (f : fs D) (ino : MinixFSInode).

(** The constructor from the fields of an inode on the disc. *)
Definition new (f : fs D) (i_mode i_size i_nlinks : Z) (i_zones : list Z) (i_num : Z) : res (fs D * MinixFSInode) :=
  '(f, z) ← Zone.new f i_zones;
  if negb (Z.land i_mode 0x8000 =? 0) then Val (f, mkInode I_FILE i_size i_nlinks i_num z)
  else if negb (Z.land i_mode 0x4000 =? 0) then Val (f, mkInode I_DIR i_size i_nlinks i_num z)
  else Err EAssert.

(** [getInode(uint16 i_num)] *)
Definition getInode (f : fs D) (i_num : Z) : res (fs D * option MinixFSInode) :=
  let h := header f in
  let sm := storage_manager_ f in
  if getNumUsedInodes sm <=? i_num then Val (f, None)
  else
    set ← isInodeSet sm i_num;
    if negb set : bool then
      _ ← (if i_num =? 1 then kassert set else Val tt);
      Val (f, None)
    else
      let inodes_start := s_num_inode_bm_blocks_ h + s_num_zone_bm_blocks_ h + 2 in
      let inode_block_num := u32 (inodes_start + Z.quot (i_num - 1) (INODES_PER_BLOCK h)) in
      '(f, ibuffer) ← readBlocks f inode_block_num 1 (local_array BLOCK_SIZE);
      let offset := Z.rem (i_num - 1) (INODES_PER_BLOCK h) * INODE_SIZE h in
      i_zones ← Zone.read_entries h (Z.to_nat (NUM_ZONES h)) ibuffer offset (7 - V3_OFFSET h);
      mode ← Kstring.load_le 2 ibuffer offset;
      size ← Kstring.load_le 4 ibuffer (offset + 4 * (1 + V3_OFFSET h));
      nlinks ← Kstring.load_le 2 ibuffer (offset + 2 * V3_OFFSET h);
      '(f, ino) ← new f mode size nlinks i_zones i_num;
      Val (f, Some ino).

(** ** Data *)

(** The loop over the zones: [n] are left, from [zone] on. *)
Fixpoint read_loop (n : nat) (f : fs D) (z : Zone.MinixFSZone) (zone zone_offset index size : Z) (buffer : list Z) : res (fs D * list Z) :=
  match n with
  | O => Val (f, buffer)
  | S n =>
      v ← Zone.getZone (header f) z zone;
      '(f, rbuffer) ← readZone f v (local_array ZONE_SIZE);
      let count := u32 (size - index) in
      let zone_diff := ZONE_SIZE - zone_offset in
      let count := if count <? zone_diff then count else zone_diff in
      bytes ← slice rbuffer zone_offset count;
      buffer ← splice buffer index bytes;
      read_loop n f z (zone + 1) 0 (u32 (index + count)) size buffer
  end.

Definition readData (f : fs D) (ino : MinixFSInode) (offset size : Z) (buffer : list Z) : res (fs D * list Z * Z) :=
  let beyond := i_size_ ino <? u32 (size + offset) in
  if beyond && (i_size_ ino <=? offset) then Val (f, buffer, 0)
  else
    let size := if beyond then u32 (i_size_ ino - offset) else size in
    let start_zone := offset / ZONE_SIZE in
    let zone_offset := offset mod ZONE_SIZE in
    let num_zones := u32 (zone_offset + size) / ZONE_SIZE + 1 in
    '(f, buffer) ← read_loop (Z.to_nat num_zones) f (i_zones_ ino) start_zone zone_offset 0 size buffer;
    Val (f, buffer, size).

(** [n] zones are allocated and entered behind the last. *)
Fixpoint new_zones (n : nat) (f : fs D) (z : Zone.MinixFSZone) : res (fs D * Zone.MinixFSZone) :=
  match n with
  | O => Val (f, z)
  | S n =>
      '(f, new_zone) ← allocateZone f;
      '(f, z) ← Zone.setZone f z (Zone.getNumZones z) new_zone;
      new_zones n f z
  end.

(** Zeros are written to the blocks [zone], [zone + 1], ...; [n] are left. *)
Fixpoint clean_loop (n : nat) (f : fs D) (zone : Z) : res (fs D) :=
  match n with
  | O => Val f
  | S n => f ← writeZone f zone (local_array ZONE_SIZE); clean_loop n f (zone + 1)
  end.

(** The part of [writeData] for an offset behind the end of the file.  It takes
    the position of a zone within the file for the number of a zone. *)
Definition fill_gap (f : fs D) (ino : MinixFSInode) (offset : Z) : res (fs D * MinixFSInode) :=
  let last_used_zone := i_size_ ino / ZONE_SIZE in
  let zone_size_offset := i_size_ ino mod ZONE_SIZE in
  f ← (if negb (zone_size_offset =? 0) then
         '(f, fill_buffer, _) ← readData f ino (i_size_ ino - zone_size_offset) zone_size_offset (local_array ZONE_SIZE);
         writeZone f last_used_zone fill_buffer
       else Val f);
  f ← clean_loop (Z.to_nat (offset / ZONE_SIZE - last_used_zone)) f (last_used_zone + 1);
  Val (f, set_size offset ino).

(** The zones [zone], [zone + 1], ... of the file are overwritten with the
    successive pieces of [wbuffer]; [n] are left. *)
Fixpoint write_loop (n : nat) (f : fs D) (z : Zone.MinixFSZone) (zone : Z) (wbuffer : list Z) : res (fs D) :=
  match n with
  | O => Val f
  | S n =>
      v ← Zone.getZone (header f) z zone;
      piece ← slice wbuffer 0 ZONE_SIZE;
      f ← writeZone f v piece;
      write_loop n f z (zone + 1) (drop (Z.to_nat ZONE_SIZE) wbuffer)
  end.

Definition writeData (f : fs D) (ino : MinixFSInode) (offset size : Z) (buffer : list Z) : res (fs D * MinixFSInode * Z) :=
  let zone := offset / ZONE_SIZE in
  let num_zones := u32 (offset mod ZONE_SIZE + size) / ZONE_SIZE + 1 in
  '(f, ino) ← (if i_size_ ino <? u32 (size + offset) then
      let num_new_zones := u32 (u32 (size + offset) - i_size_ ino) / ZONE_SIZE + 1 in
      '(f, z) ← new_zones (Z.to_nat num_new_zones) f (i_zones_ ino);
      Val (f, set_zones z ino)
    else Val (f, ino));
  '(f, ino) ← (if i_size_ ino <? offset then fill_gap f ino offset else Val (f, ino));
  let zone_offset := offset mod ZONE_SIZE in
  let wbuffer := local_array (u32 (num_zones * ZONE_SIZE)) in
  '(f, wbuffer, _) ← readData f ino (offset - zone_offset) (u32 (num_zones * ZONE_SIZE)) wbuffer;
  bytes ← slice buffer 0 size;
  wbuffer ← splice wbuffer zone_offset bytes;
  f ← write_loop (Z.to_nat num_zones) f (i_zones_ ino) zone wbuffer;
  let ino := if i_size_ ino <? u32 (offset + size) then set_size (u32 (offset + size)) ino else ino in
  Val (f, ino, size).

(** ** The inode on the disc *)

(** [writeInode]; [readBytes] leaves the zeros of the buffer as they are. *)
Definition writeInode (f : fs D) (ino : MinixFSInode) : res (fs D) :=
  let h := header f in
  let block := Zone.inode_block h (i_num_ ino) in
  let offset := Zone.inode_offset h (i_num_ ino) in
  '(f, buffer, _) ← readBytes f block offset (INODE_SIZE h) (local_array (INODE_SIZE h));
  mode ← Kstring.load_le 2 buffer 0;
  buffer ← (if i_type_ ino =? I_FILE then Kstring.store_le 2 buffer 0 (Z.lor mode 0x81FF)
            else if i_type_ ino =? I_DIR then Kstring.store_le 2 buffer 0 (Z.lor mode 0x41FF)
            else Val buffer);
  buffer ← Kstring.store_le 4 buffer (4 * (1 + V3_OFFSET h)) (i_size_ ino);
  buffer ← (if is_v3 h then Kstring.store_le 2 buffer 2 (i_nlink_ ino)
            else Kstring.store_le 1 buffer 13 (i_nlink_ ino));
  '(f, _) ← writeBytes f block offset (INODE_SIZE h) buffer;
  Zone.flush f (i_zones_ ino) (i_num_ ino).

(** [readInode]; [fresh] is the uninitialised [char buffer[INODE_SIZE]]. *)
Definition readInode (fresh : list Z) (f : fs D) (ino : MinixFSInode) : res (fs D * MinixFSInode * Z) :=
  let h := header f in
  '(f, buffer, _) ← readBytes f (Zone.inode_block h (i_num_ ino)) (Zone.inode_offset h (i_num_ ino)) (INODE_SIZE h) fresh;
  i_zones ← Zone.read_entries h (Z.to_nat (NUM_ZONES h)) buffer 0 (7 - V3_OFFSET h);
  '(f, z) ← Zone.new f i_zones;
  nlink ← (if is_v3 h then Kstring.load_le 2 buffer 2 else LibcString.Libc.char buffer 13);
  size ← Kstring.load_le 4 buffer (4 * (1 + V3_OFFSET h));
  Val (f, mkInode (i_type_ ino) size (u32 nlink) (i_num_ ino) z, 0).

(** ** Directory entries *)

(** The position of the entry for [i_num] in the buffer, from [curr_dentry] on. *)
Fixpoint find_in_block (n : nat) (h : MinixFSSuperblock) (dbuffer : list Z) (curr_dentry i_num : Z) : res (option Z) :=
  match n with
  | O => Val None
  | S n =>
      inode_index ← Kstring.load_le 2 dbuffer curr_dentry;
      if inode_index =? i_num then Val (Some curr_dentry)
      else find_in_block n h dbuffer (curr_dentry + INODE_SIZE h) i_num
  end.

Fixpoint find_loop (n : nat) (f : fs D) (z : Zone.MinixFSZone) (zone i_num : Z) : res (fs D * Z) :=
  match n with
  | O => Val (f, -1)
  | S n =>
      v ← Zone.getZone (header f) z zone;
      '(f, dbuffer) ← readZone f v (local_array ZONE_SIZE);
      r ← find_in_block (Z.to_nat (BLOCK_SIZE / INODE_SIZE (header f))) (header f) dbuffer 0 i_num;
      match r with
      | Some curr_dentry => Val (f, s32 (zone * ZONE_SIZE + curr_dentry))
      | None => find_loop n f z (zone + 1) i_num
      end
  end.

Definition findDentry (f : fs D) (ino : MinixFSInode) (i_num : Z) : res (fs D * Z) :=
  find_loop (Z.to_nat (Zone.getNumZones (i_zones_ ino))) f (i_zones_ ino) 0 i_num.

(** The end of [writeDentry]: number and name are stored at [dentry_pos].
    [name] is the array that holds the string and its NUL; [strncpy] works on
    the local buffer and this array laid side by side. *)
Definition put_entry (f : fs D) (z : Zone.MinixFSZone) (dentry_pos src_i_num : Z) (name : list Z) : res (fs D) :=
  let h := header f in
  zone ← Zone.getZone h z (u32 dentry_pos / ZONE_SIZE);
  '(f, dbuffer) ← readZone f zone (local_array ZONE_SIZE);
  let pos := u32 dentry_pos mod ZONE_SIZE in
  dbuffer ← Kstring.store_le 2 dbuffer pos src_i_num;
  '(m, _) ← Kstring.strncpy (dbuffer ++ name) (pos + INODE_BYTES h) ZONE_SIZE (MAX_NAME_LENGTH h);
  writeZone f zone (take (Z.to_nat ZONE_SIZE) m).

Definition writeDentry (f : fs D) (ino : MinixFSInode) (dest_i_num src_i_num : Z) (name : list Z) : res (fs D * MinixFSInode) :=
  let h := header f in
  '(f, dentry_pos) ← findDentry f ino dest_i_num;
  '(f, ino, dentry_pos) ← (if (dentry_pos <? 0) && (dest_i_num =? 0) then
      '(f, zone) ← allocateZone f;
      '(f, z) ← Zone.addZone f (i_zones_ ino) zone;
      Val (f, set_zones z ino, s32 ((Zone.getNumZones z - 1) * ZONE_SIZE))
    else Val (f, ino, dentry_pos));
  f ← put_entry f (i_zones_ ino) dentry_pos src_i_num name;
  let ino := if (dest_i_num =? 0) && (i_size_ ino <? u32 (u32 dentry_pos + INODE_SIZE h))
             then set_size (u32 (i_size_ ino + INODE_SIZE h)) ino else ino in
  Val (f, ino).

End inode.
(** ** Rows of blocks *)

Section rows.
Context {A : Type} (m : nat).
Implicit Types (ls : list (list A)) (b : list A).

Lemma mjoin_length ls : Forall (λ l, length l = m) ls → length (mjoin ls) = (length ls * m)%nat.
Proof.
  induction 1 as [|l ls Hl _ IH]; [done|]. change (mjoin (l :: ls)) with (l ++ mjoin ls).
  rewrite length_app, IH. simpl. lia.
Qed.

(** A piece that lies within one block. *)
Lemma sub_mjoin ls : ∀ q b o n, Forall (λ l, length l = m) ls → ls !! q = Some b →
  0 <= o → 0 <= n → o + n <= Z.of_nat m → sub (mjoin ls) (Z.of_nat (q * m) + o) n = sub b o n.
Proof.
  induction ls as [|l ls IH]; intros q b o n Hls Hq Ho Hn Hon; [done|].
  apply Forall_cons in Hls as [Hl Hls]. change (mjoin (l :: ls)) with (l ++ mjoin ls).
  destruct q as [|q]; simpl in Hq.
  - injection Hq as ->. apply list_eq. intros i. rewrite !lookup_sub. case_decide; [|done].
    rewrite lookup_app_l by lia. f_equal; lia.
  - rewrite <- (IH q b) by done. apply list_eq. intros i. rewrite !lookup_sub. case_decide; [|done].
    rewrite lookup_app_r by lia. f_equal; lia.
Qed.

(** Replacing one block. *)
Lemma mjoin_patch ls : ∀ q b, Forall (λ l, length l = m) ls → (q < length ls)%nat → length b = m →
  mjoin (<[q:=b]> ls) = patch (mjoin ls) (Z.of_nat (q * m)) b.
Proof.
  induction ls as [|l ls IH]; intros q b Hls Hq Hb; simpl in Hq; [lia|].
  apply Forall_cons in Hls as [Hl Hls]. pose proof (mjoin_length _ Hls) as Hlen. destruct q as [|q].
  - change (mjoin (<[0%nat:=b]> (l :: ls))) with (b ++ mjoin ls). change (mjoin (l :: ls)) with (l ++ mjoin ls).
    unfold patch. simpl. rewrite drop_app_length' by lia. done.
  - change (mjoin (<[S q:=b]> (l :: ls))) with (l ++ mjoin (<[q:=b]> ls)).
    change (mjoin (l :: ls)) with (l ++ mjoin ls). rewrite IH by (done || lia).
    assert (Hf : fits (mjoin ls) (Z.of_nat (q * m)) (Z.of_nat (length b))) by (rewrite Hb; repeat split; nia).
    assert (Hf' : fits (l ++ mjoin ls) (Z.of_nat (S q * m)) (Z.of_nat (length b)))
      by (rewrite Hb; repeat split; rewrite ?length_app; nia).
    apply list_eq. intros i. rewrite lookup_patch by done. destruct (decide (i < m)%nat).
    + rewrite !lookup_app_l by lia. rewrite decide_False; [done|]. lia.
    + rewrite !lookup_app_r by lia. rewrite lookup_patch by done.
      repeat case_decide; try lia; try done. f_equal. lia.
Qed.
End rows.

(** ** Files as lists of bytes *)

Section files.
Context {D : Type} `{BDDriverLaws D}.
Implicit Types (f : fs D) (ino : MinixFSInode).

(** All bytes of the zones, and those up to the size. *)
Definition zone_bytes (f : fs D) (zs : list Z) : list Z := mjoin (block f <$> zs).
Definition contents (f : fs D) (ino : MinixFSInode) (zs : list Z) : list Z := sub (zone_bytes f zs) 0 (i_size_ ino).

(** An inode whose zones are [zs]: there is a zone behind the last byte. *)
Record inode_ok (f : fs D) (ino : MinixFSInode) (zs : list Z) : Prop := {
  in_rep : Zone.rep (header f) (i_zones_ ino) zs;
  in_disc z : z ∈ zs → on_disc f z;
  in_size : 0 <= i_size_ ino;
  in_room : if decide (zs = []) then i_size_ ino = 0 else i_size_ ino < Z.of_nat (length zs) * ZONE_SIZE;
}.

Lemma zone_blocks f zs : disc_ok f → (∀ z, z ∈ zs → on_disc f z) →
  Forall (λ l, length l = Z.to_nat ZONE_SIZE) (block f <$> zs).
Proof.
  intros Hd Hz. apply Forall_fmap, Forall_forall. intros z Hin. simpl.
  pose proof (block_length f z Hd (Hz z Hin)). unfold BLOCK_SIZE, ZONE_SIZE in *. lia.
Qed.

Lemma zone_bytes_length f zs : disc_ok f → (∀ z, z ∈ zs → on_disc f z) →
  Z.of_nat (length (zone_bytes f zs)) = Z.of_nat (length zs) * ZONE_SIZE.
Proof.
  intros Hd Hz. unfold zone_bytes. rewrite (mjoin_length (Z.to_nat ZONE_SIZE)) by (by apply zone_blocks).
  rewrite length_fmap. unfold ZONE_SIZE. lia.
Qed.

(** The loop copies the bytes from its position on, however they are spread
    over the zones. *)
Lemma read_loop_ok f ino zs : disc_ok f → inode_ok f ino zs →
  ∀ n zone zo index size buffer, 0 <= zone → 0 <= zo < ZONE_SIZE → 0 <= index <= size → size < 2 ^ 32 →
  Z.of_nat n = (zo + (size - index)) / ZONE_SIZE + 1 → zone + Z.of_nat n <= Z.of_nat (length zs) →
  fits buffer 0 size →
  read_loop n f (i_zones_ ino) zone zo index size buffer =
  Val (f, patch buffer index (sub (zone_bytes f zs) (zone * ZONE_SIZE + zo) (size - index))).
Proof.
  intros Hd [Hr Hin _ _]. induction n as [|n IH]; intros zone zo index size buffer Hz Hzo Hi Hs Hn Hzn Hf.
  { unfold ZONE_SIZE in Hn. Z.to_euclidean_division_equations; lia. }
  destruct (lookup_lt_is_Some_2 zs (Z.to_nat zone)) as [v Hv]; [lia|].
  cbn [read_loop]. rewrite (Zone.getZone_gets _ _ _ _ Hr) by done. rewrite Hv. cbn [mbind res_bind].
  assert (Hvd : on_disc f v) by (apply Hin; by eapply list_elem_of_lookup_2).
  rewrite readZone_reads by done. cbn [mbind res_bind]. rewrite (wrap_small 32 (size - index)) by lia.
  set (count := if size - index <? ZONE_SIZE - zo then size - index else ZONE_SIZE - zo).
  assert (Hc : count = Z.min (size - index) (ZONE_SIZE - zo)) by (unfold count; destruct (Z.ltb_spec (size - index) (ZONE_SIZE - zo)); lia).
  clearbody count. destruct Hf as (_ & _ & Hlb).
  pose proof (block_length f v Hd Hvd) as Hbl. change BLOCK_SIZE with ZONE_SIZE in Hbl.
  assert (Hfs : fits (block f v) zo count) by (repeat split; lia).
  rewrite slice_fits by done. cbn [mbind res_bind].
  pose proof (sub_length _ _ _ Hfs) as Hsl.
  assert (Hfp : fits buffer index (Z.of_nat (length (sub (block f v) zo count)))) by (rewrite Hsl; repeat split; lia).
  rewrite splice_fits by done. cbn [mbind res_bind].
  assert (E : sub (zone_bytes f zs) (zone * ZONE_SIZE + zo) count = sub (block f v) zo count).
  { unfold zone_bytes. rewrite <- (sub_mjoin (Z.to_nat ZONE_SIZE) (block f <$> zs) (Z.to_nat zone) (block f v));
      [|by apply zone_blocks|by rewrite list_lookup_fmap, Hv|unfold ZONE_SIZE in *; lia..].
    f_equal. unfold ZONE_SIZE. lia. }
  destruct (Z.ltb_spec (size - index) (ZONE_SIZE - zo)) as [Hlast|Hmore].
  - assert (n = O) as -> by (unfold ZONE_SIZE in *; Z.to_euclidean_division_equations; lia).
    cbn [read_loop]. rewrite <- E. do 3 f_equal. f_equal. lia.
  - rewrite (wrap_small 32 (index + count)) by lia. rewrite IH; [|unfold ZONE_SIZE in *; try lia..].
    + rewrite <- E in *. do 2 f_equal.
      replace (size - index) with (count + (size - (index + count))) by lia.
      rewrite (sub_app _ _ count) by (unfold ZONE_SIZE in *; lia). rewrite <- patch_app.
      * rewrite Hsl. do 2 f_equal. unfold ZONE_SIZE in *. lia.
      * rewrite Hsl. pose proof (sub_length_le (zone_bytes f zs) ((zone + 1) * ZONE_SIZE + 0) (size - (index + count))).
        match goal with |- fits _ _ (_ + Z.of_nat (length ?l)) =>
          pose proof (sub_length_le (zone_bytes f zs) (zone * ZONE_SIZE + zo + count) (size - (index + count))) end.
        repeat split; lia.
    + Z.to_euclidean_division_equations; lia.
    + repeat split; [lia..|]. rewrite patch_length by done. lia.
Qed.

(** How many bytes a read of [size] bytes at [offset] finds. *)
Definition available (ino : MinixFSInode) (offset size : Z) : Z := Z.max 0 (Z.min size (i_size_ ino - offset)).

Lemma readData_reads f ino zs offset size buffer : disc_ok f → inode_ok f ino zs →
  0 <= offset → 0 <= size → offset + size < 2 ^ 32 → zs ≠ [] ∨ 0 < offset + size →
  fits buffer 0 (available ino offset size) →
  readData f ino offset size buffer =
  Val (f, patch buffer 0 (sub (contents f ino zs) offset (available ino offset size)), available ino offset size).
Proof.
  intros Hd Hok Ho Hs Hos Hne Hf. pose proof Hok as [Hr Hin Hsz Hroom]. unfold readData. rewrite wrap_small by lia.
  set (n := available ino offset size) in *. unfold available in n.
  destruct (Z.ltb_spec (i_size_ ino) (size + offset)) as [Hb|Hb], (Z.leb_spec (i_size_ ino) offset) as [Hl|Hl];
    cbn [andb]; cbv iota.
  { assert (n = 0) as -> by lia. by rewrite sub_0, patch_nil. }
  all: assert (Hzs : zs ≠ []) by (intros ->; rewrite decide_True in Hroom by done; destruct Hne; [done|lia]).
  all: rewrite decide_False in Hroom by done.
  all: rewrite ?(wrap_small 32 (i_size_ ino - offset)) by lia.
  all: match goal with |- context [read_loop _ _ _ _ _ _ ?sz _] => replace sz with n by lia end.
  all: rewrite (wrap_small 32 (offset mod ZONE_SIZE + n)) by (unfold ZONE_SIZE; Z.to_euclidean_division_equations; lia).
  all: assert (Hn : 0 <= n ∧ n <= size ∧ offset + n <= i_size_ ino) by lia; clearbody n.
  all: rewrite (read_loop_ok f ino zs); [|done|done|unfold ZONE_SIZE in *; try (Z.to_euclidean_division_equations; lia)..|done].
  all: cbn [mbind res_bind]; unfold contents.
  all: rewrite Z.sub_0_r.
  all: rewrite (sub_sub (zone_bytes f zs) 0 (i_size_ ino) offset n) by lia.
  all: by replace (offset / ZONE_SIZE * ZONE_SIZE + offset mod ZONE_SIZE) with (0 + offset)
    by (unfold ZONE_SIZE; Z.to_euclidean_division_equations; lia).
Qed.

(** ** Writing *)

(** All zones of an inode, those of its tables included. *)
Definition owned (ino : MinixFSInode) (zs : list Z) : list Z := zs ++ Zone.meta (i_zones_ ino).

(** An inode of the file system: its zones are its own and marked as used. *)
Record file_ok (f : fs D) (ino : MinixFSInode) (zs : list Z) : Prop := {
  fl_inode : inode_ok f ino zs;
  fl_used z : z ∈ owned ino zs → data_zone f z ∧ zused f z = true;
  fl_distinct : NoDup (owned ino zs);
}.

Lemma new_zones_ok n : ∀ f z zs, fs_ok f → Zone.rep (header f) z zs →
  Z.of_nat (length zs + n) <= Zone.capacity (header f) → 3 * Z.of_nat n + 1 <= free f →
  ∃ f' z' new all, new_zones n f z = Val (f', z') ∧ Zone.rep (header f) z' (zs ++ new) ∧ length new = n ∧
    took f all f' ∧ zs ++ new ++ Zone.meta z' ≡ₚ (zs ++ Zone.meta z) ++ all.
Proof.
  induction n as [|n IH]; intros f z zs Hok Hr Hc Hfree.
  { exists f, z, [], []. rewrite !app_nil_r. split_and!; [done..|by apply took_refl|done]. }
  cbn [new_zones]. destruct (allocateZone_takes f Hok ltac:(lia)) as (f1 & v & -> & Ht1). cbn [mbind res_bind].
  destruct (took_free _ _ _ Ht1 v ltac:(by left)) as [Hv _]. destruct (data_zone_on_disc _ _ Hok Hv) as [_ Hvn].
  pose proof (took_header _ _ _ Ht1) as Hh1. pose proof (took_count _ _ _ Ht1) as Hc1. cbn [length] in Hc1.
  destruct (Zone.setZone_appends f1 z zs v) as (f2 & z2 & Hset & Hr2 & ms & Ht2 & Hm2 & Hl2);
    [apply Ht1|by rewrite Hh1|done|rewrite Hh1; lia|lia|].
  unfold Zone.getNumZones. rewrite Hset. cbn [mbind res_bind].
  pose proof (took_header _ _ _ Ht2) as Hh2. pose proof (took_count _ _ _ Ht2) as Hc2.
  destruct (IH f2 z2 (zs ++ [v])) as (f3 & z3 & new & all & -> & Hr3 & Hl3 & Ht3 & Hp3);
    [apply Ht2|by rewrite Hh2|rewrite Hh2, Hh1, length_app; simpl; lia|lia|].
  rewrite Hh2, Hh1, <- (assoc_L (++)) in Hr3. exists f3, z3, (v :: new), (([v] ++ ms) ++ all).
  split_and!; [done|done|by rewrite <- Hl3| |].
  - by eapply took_trans; [eapply took_trans|].
  - transitivity ((zs ++ [v]) ++ new ++ Zone.meta z3); [by rewrite <- (assoc_L (++))|].
    rewrite Hp3, Hm2, <- !(assoc_L (++)). f_equiv. apply Permutation_app_swap_app.
Qed.

(** Overwriting one of an inode's zones. *)
Lemma zone_bytes_update f zs q v b f' : disc_ok f → (∀ z, z ∈ zs → on_disc f z) → NoDup zs → zs !! q = Some v →
  touched f [v] f' → block f' v = b → Z.of_nat (length b) = ZONE_SIZE →
  zone_bytes f' zs = patch (zone_bytes f zs) (Z.of_nat q * ZONE_SIZE) b.
Proof.
  intros Hd Hin Hn Hq Ht Hb Hl. unfold zone_bytes.
  replace (Z.of_nat q * ZONE_SIZE) with (Z.of_nat (q * Z.to_nat ZONE_SIZE)) by (unfold ZONE_SIZE; lia).
  rewrite <- mjoin_patch; [|by apply zone_blocks|rewrite length_fmap; by eapply lookup_lt_Some|lia].
  f_equal. apply list_eq. intros i. rewrite list_lookup_insert, !list_lookup_fmap, length_fmap.
  case_decide as Hi.
  - destruct Hi as [-> _]. rewrite Hq. simpl. by rewrite Hb.
  - destruct (zs !! i) as [w|] eqn:Hw; [|done]. simpl. f_equal.
    apply (touched_others _ _ _ Ht); [apply Hin; by eapply list_elem_of_lookup_2|].
    intros ->%list_elem_of_singleton. apply Hi. split; [by eapply NoDup_lookup|by eapply lookup_lt_Some].
Qed.

Lemma write_loop_ok n : ∀ f z zs zone wbuffer, disc_ok f → Zone.rep (header f) z zs →
  (∀ v, v ∈ zs → on_disc f v) → NoDup zs → 0 <= zone → zone + Z.of_nat n <= Z.of_nat (length zs) →
  Z.of_nat (length wbuffer) = Z.of_nat n * ZONE_SIZE →
  ∃ f', write_loop n f z zone wbuffer = Val f' ∧ touched f zs f' ∧
    zone_bytes f' zs = patch (zone_bytes f zs) (zone * ZONE_SIZE) wbuffer.
Proof.
  induction n as [|n IH]; intros f z zs zone wbuffer Hd Hr Hin Hnd Hz Hzn Hl.
  { assert (wbuffer = []) as -> by (destruct wbuffer; simpl in *; [done|lia]).
    exists f. rewrite patch_nil. split_and!; [done|by apply touched_refl|done]. }
  destruct (lookup_lt_is_Some_2 zs (Z.to_nat zone)) as [v Hv]; [lia|].
  assert (Hvd : on_disc f v) by (apply Hin; by eapply list_elem_of_lookup_2).
  cbn [write_loop]. rewrite (Zone.getZone_gets _ _ _ _ Hr) by done. rewrite Hv. cbn [mbind res_bind].
  assert (Hfit : fits wbuffer 0 ZONE_SIZE) by (unfold fits, ZONE_SIZE in *; lia).
  rewrite slice_fits by done. cbn [mbind res_bind]. pose proof (sub_length _ _ _ Hfit) as Hsl.
  destruct (writeZone_writes f v (sub wbuffer 0 ZONE_SIZE) Hd Hvd Hsl) as (f1 & -> & Hw). cbn [mbind res_bind].
  apply wrote_touched in Hw as [Ht1 Hb1]. specialize (Hb1 Hvd). pose proof (touched_header _ _ _ Ht1) as Hh1.
  destruct (IH f1 z zs (zone + 1) (drop (Z.to_nat ZONE_SIZE) wbuffer)) as (f' & -> & Ht' & Hb');
    [apply Ht1|by rewrite Hh1| |done|lia|lia|rewrite length_drop; unfold ZONE_SIZE in *; lia|].
  { intros w Hw. apply (touched_on_disc _ _ _ _ Ht1), Hin, Hw. }
  exists f'. split_and!; [done| |].
  - eapply touched_weaken; [by eapply touched_trans|]. intros b [Hb%list_elem_of_singleton|Hb]%elem_of_app; [|done].
    subst b. by eapply list_elem_of_lookup_2.
  - rewrite Hb', (zone_bytes_update f zs (Z.to_nat zone) v _ f1) by done.
    rewrite Z2Nat.id by done.
    replace ((zone + 1) * ZONE_SIZE) with (zone * ZONE_SIZE + Z.of_nat (length (sub wbuffer 0 ZONE_SIZE))) by lia.
    rewrite patch_app.
    + f_equal. unfold sub. rewrite drop_0. apply take_drop.
    + pose proof (zone_bytes_length f zs Hd Hin). rewrite length_drop. unfold ZONE_SIZE in *. repeat split; lia.
Qed.

(** Arithmetic on offsets as natural numbers. *)
Ltac nats :=
  repeat match goal with
  | H : context [Z.to_nat ?x] |- _ => generalize dependent (Z.to_nat x); intros
  | |- context [Z.to_nat ?x] => generalize (Z.to_nat x); intros
  end; lia.

(** What [writeData] does to the bytes of the zones [b], of which [s] belong to
    the file: a window of [W] bytes at [a] is filled from the file, overwritten
    with [l] at [o] and stored again. *)
Lemma window_write (b l : list Z) a o s W : 0 <= a → 0 <= o → a + o <= s → s <= Z.of_nat (length b) →
  0 <= W → a + W <= Z.of_nat (length b) → o + Z.of_nat (length l) <= W →
  sub (patch b a (patch (patch (local_array W) 0 (sub (sub b 0 s) a (Z.max 0 (Z.min W (s - a))))) o l)) 0
      (Z.max s (a + o + Z.of_nat (length l))) =
  patch (sub b 0 s) (a + o) l.
Proof.
  intros Ha Ho Hs Hsb HW Haw Hl.
  assert (N1 : (Z.to_nat a + Z.to_nat o <= Z.to_nat s)%nat) by lia.
  assert (N2 : (Z.to_nat o + length l <= Z.to_nat W)%nat) by lia.
  assert (N3 : (Z.to_nat s <= length b)%nat) by lia.
  assert (N4 : (Z.to_nat a + Z.to_nat W <= length b)%nat) by lia.
  assert (E3 : Z.to_nat (a + o) = (Z.to_nat a + Z.to_nat o)%nat) by (clear - Ha Ho; lia).
  assert (E1 : Z.to_nat (Z.max s (a + o + Z.of_nat (length l))) = (Z.to_nat s `max` (Z.to_nat a + Z.to_nat o + length l))%nat)
    by (clear - Ha Ho; rewrite Z2Nat.inj_max; lia).
  assert (E2 : Z.to_nat (Z.max 0 (Z.min W (s - a))) = (Z.to_nat W `min` (Z.to_nat s - Z.to_nat a))%nat)
    by (clear - Ha Ho Hs HW; rewrite Z2Nat.inj_max, Z2Nat.inj_min; lia).
  clear Ha Ho Hs Hsb HW Haw Hl. generalize dependent (Z.max 0 (Z.min W (s - a))). intros av E2.
  generalize dependent (Z.max s (a + o + Z.of_nat (length l))). intros s' E1.
  assert (L1 : length (sub (sub b 0 s) a av) = Z.to_nat av).
  { unfold sub. rewrite length_take, length_drop, length_take, length_drop, E2. change (Z.to_nat 0) with 0%nat.
    clear - N1 N3. nats. }
  assert (L2 : length (local_array W) = Z.to_nat W) by apply length_replicate.
  assert (L3 : length (patch (local_array W) 0 (sub (sub b 0 s) a av)) = Z.to_nat W).
  { unfold patch. rewrite !length_app, length_take, length_drop, L1, L2, E2. change (Z.to_nat 0) with 0%nat. clear. nats. }
  assert (L4 : length (patch (patch (local_array W) 0 (sub (sub b 0 s) a av)) o l) = Z.to_nat W).
  { unfold patch at 1. rewrite !length_app, length_take, length_drop, L3. clear - N2. nats. }
  assert (L5 : length (sub b 0 s) = Z.to_nat s).
  { unfold sub. rewrite length_take, length_drop. change (Z.to_nat 0) with 0%nat. clear - N3. nats. }
  apply list_eq. intros i. rewrite lookup_sub, E1.
  rewrite (lookup_patch_ext b) by (clear - N4; nats).
  rewrite (lookup_patch_ext (patch _ _ _)) by (rewrite L3; clear - N2; nats).
  rewrite (lookup_patch_ext (local_array W)) by (change (Z.to_nat 0) with 0%nat; clear; nats).
  rewrite (lookup_patch_ext (sub b 0 s)) by (rewrite L5, E3; done). rewrite L4, L1, !lookup_sub, E2, E3.
  change (Z.to_nat 0) with 0%nat. clear - N1 N2 N3.
  destruct (decide (i < Z.to_nat s `max` (Z.to_nat a + Z.to_nat o + length l))%nat).
  2: { rewrite !decide_False by nats. done. }
  destruct (decide (Z.to_nat a + Z.to_nat o <= i < Z.to_nat a + Z.to_nat o + length l)%nat).
  { rewrite decide_True, decide_True by nats. f_equal. nats. }
  destruct (decide (Z.to_nat a <= 0 + i < Z.to_nat a + Z.to_nat W)%nat); [|by rewrite decide_True by nats].
  rewrite decide_False, decide_True, decide_True, decide_True, decide_True by nats. f_equal. nats.
Qed.

Lemma touched_fs_ok f l f' : fs_ok f → touched f l f' → fs_ok f'.
Proof.
  intros [] [Hd Hh Hs _]. split; [done|by rewrite Hs..| | |]; unfold num_bits, num_blocks in *; by rewrite ?Hs, Hh.
Qed.

Lemma touched_zone f l f' b : touched f l f' → (data_zone f' b ↔ data_zone f b) ∧ zused f' b = zused f b.
Proof. intros [_ Hh Hs _]. unfold data_zone, zused, zone_bit, num_bits. by rewrite Hh, Hs. Qed.

Lemma took_block f l f' b : took f l f' → block f' b = block f b.
Proof. intros Ht. unfold block. by rewrite (took_header _ _ _ Ht), (took_disc _ _ _ Ht). Qed.

Lemma took_zone_bytes f l f' zs : took f l f' → zone_bytes f' zs = zone_bytes f zs.
Proof. intros Ht. unfold zone_bytes. f_equal. apply list_fmap_ext. intros i z _. by eapply took_block. Qed.

Lemma took_on_disc f l f' b : took f l f' → on_disc f' b ↔ on_disc f b.
Proof. intros Ht. unfold on_disc, num_blocks. by rewrite (took_header _ _ _ Ht). Qed.

(** How many zones a write up to [e] allocates. *)
Definition growth (ino : MinixFSInode) (e : Z) : Z :=
  if i_size_ ino <? e then (e - i_size_ ino) / ZONE_SIZE + 1 else 0.

Lemma growth_room ino (zs : list Z) e : 0 <= i_size_ ino → 0 <= e →
  (if decide (zs = []) then i_size_ ino = 0 else i_size_ ino < Z.of_nat (length zs) * ZONE_SIZE) →
  0 < e → Z.max e (i_size_ ino) < (Z.of_nat (length zs) + growth ino e) * ZONE_SIZE ∧ 0 <= growth ino e.
Proof.
  intros Hs He Hroom Hpos. unfold growth, ZONE_SIZE in *.
  destruct (Z.ltb_spec (i_size_ ino) e); case_decide as E; try (subst zs; simpl);
    Z.to_euclidean_division_equations; lia.
Qed.

(** Allocating for a write leaves the file's bytes alone. *)
Lemma grow_file f ino zs e : fs_ok f → file_ok f ino zs → 0 < e →
  Z.of_nat (length zs) + growth ino e <= Zone.capacity (header f) → 3 * growth ino e + 1 <= free f →
  ∃ f1 z1 zs1 all,
    (if i_size_ ino <? e then
       '(f, z) ← new_zones (Z.to_nat ((e - i_size_ ino) / ZONE_SIZE + 1)) f (i_zones_ ino); Val (f, set_zones z ino)
     else Val (f, ino)) = Val (f1, set_zones z1 ino) ∧
    took f all f1 ∧ file_ok f1 (set_zones z1 ino) zs1 ∧
    owned (set_zones z1 ino) zs1 ≡ₚ owned ino zs ++ all ∧
    contents f1 (set_zones z1 ino) zs1 = contents f ino zs ∧
    Z.max e (i_size_ ino) < Z.of_nat (length zs1) * ZONE_SIZE ∧ zs1 ≠ [].
Proof.
  intros Hok Hfile He Hcap Hfree. pose proof Hfile as [[Hr Hin Hsz Hroom] Hused Hnd].
  pose proof (growth_room ino zs e Hsz ltac:(lia) Hroom He) as [Hgr Hg].
  unfold growth in Hgr, Hg, Hcap, Hfree. destruct (Z.ltb_spec (i_size_ ino) e) as [Hlt|Hge].
  2: { exists f, (i_zones_ ino), zs, []. rewrite Z.add_0_r in Hgr.
       replace (set_zones (i_zones_ ino) ino) with ino by (by destruct ino).
       split_and!; [done|by apply took_refl|done|by rewrite app_nil_r|done|done|intros ->; simpl in Hgr; lia]. }
  set (n := (e - i_size_ ino) / ZONE_SIZE + 1) in *.
  destruct (new_zones_ok (Z.to_nat n) f (i_zones_ ino) zs Hok Hr) as (f1 & z1 & new & all & -> & Hr1 & Hl & Ht & Hp);
    [lia|lia|].
  exists f1, z1, (zs ++ new), all. cbn [mbind res_bind].
  assert (Howned : owned (set_zones z1 ino) (zs ++ new) ≡ₚ owned ino zs ++ all)
    by (unfold owned; simpl; by rewrite <- (assoc_L (++))).
  assert (Hne : zs ++ new ≠ []) by (intros E; apply (f_equal length) in E; rewrite length_app in E; simpl in E; unfold ZONE_SIZE in *; lia).
  assert (Hall : ∀ z, z ∈ owned (set_zones z1 ino) (zs ++ new) → data_zone f z ∧ (z ∈ owned ino zs ∨ z ∈ all)).
  { intros z Hz. rewrite Howned in Hz. apply elem_of_app in Hz as [Hz|Hz]; (split; [|by auto]).
    - by apply Hused.
    - by apply (took_free _ _ _ Ht). }
  split_and!; [done|done| |done| | |done].
  - split.
    + split; simpl; [by rewrite (took_header _ _ _ Ht)| |done|].
      * intros z Hz. apply (took_on_disc _ _ _ _ Ht), data_zone_on_disc; [done|]. apply Hall. apply elem_of_app. by left.
      * rewrite decide_False, length_app by done. unfold ZONE_SIZE in *. lia.
    + intros z Hz. destruct (Hall z Hz) as [Hd Hor]. split; [by apply (took_data_zone _ _ _ _ Ht)|].
      rewrite (took_used _ _ _ Ht) by done. destruct Hor as [Hz'|Hz'].
      * apply Hused in Hz' as [_ ->]. apply orb_true_r.
      * by rewrite bool_decide_true.
    + rewrite Howned. apply NoDup_app. split_and!; [done| |apply Ht]. intros z Hz Hz'.
      apply Hused in Hz as [_ Hz]. apply (took_free _ _ _ Ht) in Hz' as [_ Hz']. congruence.
  - unfold contents. simpl. rewrite (took_zone_bytes _ _ _ _ Ht). unfold zone_bytes.
    assert (Hlen : i_size_ ino <= Z.of_nat (length (mjoin (block f <$> zs)))).
    { pose proof (zone_bytes_length f zs (fo_disc _ Hok) Hin) as Hzl. unfold zone_bytes in Hzl. rewrite Hzl.
      case_decide as Ez; [subst zs; simpl; lia|]. lia. }
    rewrite fmap_app. apply list_eq. intros i. rewrite !lookup_sub. destruct (decide (i < Z.to_nat (i_size_ ino))%nat); [|done].
    assert (mjoin ((block f <$> zs) ++ (block f <$> new)) = mjoin (block f <$> zs) ++ mjoin (block f <$> new)) as ->
      by apply join_app.
    by rewrite lookup_app_l by lia.
  - rewrite length_app. unfold ZONE_SIZE in *. lia.
Qed.

(** Everything but an inode's own zones is as it was; what others use stays
    used and does not become the inode's. *)
Record framed (f : fs D) (ino : MinixFSInode) (zs : list Z) (f' : fs D) (ino' : MinixFSInode) (zs' : list Z) : Prop := {
  fr_header : header f' = header f;
  fr_bits : num_bits f' = num_bits f;
  fr_same : i_type_ ino' = i_type_ ino ∧ i_nlink_ ino' = i_nlink_ ino ∧ i_num_ ino' = i_num_ ino;
  fr_blocks b : on_disc f b → b ∉ owned ino' zs' → block f' b = block f b;
  fr_others b : data_zone f b → zused f b = true → b ∉ owned ino zs → b ∉ owned ino' zs' ∧ zused f' b = true;
  fr_owned b : b ∈ owned ino zs → b ∈ owned ino' zs';
}.

(** The data zones of a file after its bytes were overwritten. *)
Lemma file_rewritten f ino zs f' ino' s : file_ok f ino zs → touched f zs f' →
  i_zones_ ino' = i_zones_ ino → i_size_ ino' = s → 0 <= s → zs ≠ [] → s < Z.of_nat (length zs) * ZONE_SIZE →
  file_ok f' ino' zs.
Proof.
  intros [[Hr Hin _ _] Hused Hnd] Ht Hz Hs Hpos Hne Hlt. pose proof (touched_header _ _ _ Ht) as Hh.
  unfold owned in *. split; unfold owned; rewrite ?Hz; [| |done].
  - split; [by rewrite Hz, Hh| |lia|rewrite decide_False by done; lia].
    intros z Hzin. by apply (touched_on_disc _ _ _ _ Ht), Hin.
  - intros z Hzin. pose proof (touched_zone _ _ _ z Ht) as [Hd ->]. rewrite Hd. auto.
Qed.

Lemma writeData_writes f ino zs offset buffer : fs_ok f → file_ok f ino zs → 0 <= offset <= i_size_ ino → buffer ≠ [] →
  offset + Z.of_nat (length buffer) < 2 ^ 32 - 2048 →
  Z.of_nat (length zs) + growth ino (offset + Z.of_nat (length buffer)) <= Zone.capacity (header f) →
  3 * growth ino (offset + Z.of_nat (length buffer)) + 1 <= free f →
  ∃ f' ino' zs', writeData f ino offset (Z.of_nat (length buffer)) buffer = Val (f', ino', Z.of_nat (length buffer)) ∧
    fs_ok f' ∧ file_ok f' ino' zs' ∧ framed f ino zs f' ino' zs' ∧
    contents f' ino' zs' = patch (contents f ino zs) offset buffer ∧
    i_size_ ino' = Z.max (i_size_ ino) (offset + Z.of_nat (length buffer)).
Proof.
  intros Hok Hfile Ho Hb He Hcap Hfree. set (size := Z.of_nat (length buffer)) in *.
  assert (Hsize : 0 < size) by (unfold size; destruct buffer; simpl; [done|lia]).
  set (e := offset + size) in *.
  destruct (grow_file f ino zs e Hok Hfile ltac:(lia) Hcap Hfree) as (f1 & z1 & zs1 & all & Hgrow & Ht & Hfile1 & Hperm & Hcont & Hroom & Hne).
  unfold writeData. replace (u32 (size + offset)) with e by (rewrite wrap_small by lia; lia).
  assert (E : (if i_size_ ino <? e then
      '(f, z) ← new_zones (Z.to_nat (u32 (e - i_size_ ino) / ZONE_SIZE + 1)) f (i_zones_ ino); Val (f, set_zones z ino)
    else Val (f, ino)) = Val (f1, set_zones z1 ino)).
  { rewrite <- Hgrow. destruct (Z.ltb_spec (i_size_ ino) e); [|done]. by rewrite wrap_small by lia. }
  rewrite E. cbn [mbind res_bind]. clear E Hgrow. set (ino1 := set_zones z1 ino) in *.
  assert (Hs1 : i_size_ ino1 = i_size_ ino) by done. rewrite (proj2 (Z.ltb_ge (i_size_ ino1) offset)) by lia.
  cbn [mbind res_bind]. set (zo := offset mod ZONE_SIZE) in *.
  assert (Hzo : 0 <= zo < ZONE_SIZE ∧ offset = offset / ZONE_SIZE * ZONE_SIZE + zo)
    by (unfold zo, ZONE_SIZE; Z.to_euclidean_division_equations; lia).
  rewrite (wrap_small 32 (zo + size)) by (unfold ZONE_SIZE in *; lia).
  set (nz := (zo + size) / ZONE_SIZE + 1) in *. set (W := nz * ZONE_SIZE) in *.
  assert (HW : zo + size < W ∧ W <= zo + size + ZONE_SIZE ∧ 0 < nz)
    by (unfold W, nz, ZONE_SIZE in *; Z.to_euclidean_division_equations; lia).
  rewrite (wrap_small 32 W) by (unfold ZONE_SIZE in *; lia).
  assert (Hzone : 0 <= offset / ZONE_SIZE ∧ offset / ZONE_SIZE + nz <= Z.of_nat (length zs1))
    by (unfold nz, e, ZONE_SIZE in *; Z.to_euclidean_division_equations; lia).
  assert (Ha : offset - zo = offset / ZONE_SIZE * ZONE_SIZE ∧ 0 <= offset - zo) by (unfold ZONE_SIZE in *; lia).
  destruct Ha as [Ha Ha0].
  pose proof (took_ok _ _ _ Ht) as Hok1. pose proof (fo_disc _ Hok1) as Hd1.
  pose proof Hfile1 as [Hino1 Hused1 Hnd1]. pose proof Hino1 as [Hr1 Hin1 _ _].
  pose proof (local_array_length W ltac:(lia)) as Hla.
  rewrite (readData_reads f1 ino1 zs1); [|done|done|lia|lia|unfold ZONE_SIZE in *; lia|by left|unfold available; repeat split; lia].
  cbn [mbind res_bind]. rewrite slice_fits by (repeat split; lia). cbn [mbind res_bind]. rewrite sub_all by done.
  set (rd := patch (local_array W) 0 (sub (contents f1 ino1 zs1) (offset - zo) (available ino1 (offset - zo) W))).
  assert (Hrd : length rd = length (local_array W)).
  { apply patch_length. pose proof (sub_length_le (contents f1 ino1 zs1) (offset - zo) (available ino1 (offset - zo) W)).
    unfold available in *. repeat split; lia. }
  assert (Hfit : fits rd zo (Z.of_nat (length buffer))) by (fold size; repeat split; lia).
  rewrite splice_fits by done. cbn [mbind res_bind]. pose proof (patch_length _ _ _ Hfit) as Hwl.
  destruct (write_loop_ok (Z.to_nat nz) f1 (i_zones_ ino1) zs1 (offset / ZONE_SIZE) (patch rd zo buffer)) as (f2 & -> & Ht2 & Hzb);
    [done..|by apply NoDup_app in Hnd1 as [? _]|lia|lia|lia|].
  cbn [mbind res_bind]. rewrite (wrap_small 32 (offset + size)) by lia. fold e.
  set (ino2 := if i_size_ ino1 <? e then set_size e ino1 else ino1).
  assert (Hs2 : i_size_ ino2 = Z.max (i_size_ ino) e) by (unfold ino2; rewrite Hs1; destruct (Z.ltb_spec (i_size_ ino) e); simpl; lia).
  assert (Hz2 : i_zones_ ino2 = i_zones_ ino1) by (unfold ino2; by destruct (_ <? _)).
  assert (Ho2 : owned ino2 zs1 = owned ino1 zs1) by (unfold owned; by rewrite Hz2).
  pose proof (zone_bytes_length f1 zs1 Hd1 Hin1) as Hzl.
  exists f2, ino2, zs1. split_and!; [done|by eapply touched_fs_ok| | | |exact Hs2].
  - eapply file_rewritten; [exact Hfile1|done|done|exact Hs2|lia|done|lia].
  - split.
    + by rewrite (touched_header _ _ _ Ht2), (took_header _ _ _ Ht).
    + rewrite <- (took_bits _ _ _ Ht). unfold num_bits. by rewrite (touched_storage _ _ _ Ht2).
    + unfold ino2. by destruct (_ <? _).
    + intros b Hbd Hbo. rewrite Ho2 in Hbo. rewrite (touched_others _ _ _ Ht2); [by eapply took_block|by apply (took_on_disc _ _ _ _ Ht)|].
      intros Hbz. apply Hbo, elem_of_app. by left.
    + intros b Hbd Hbu Hbo. rewrite Ho2. pose proof (touched_zone _ _ _ b Ht2) as [_ ->].
      rewrite Hperm, (took_used _ _ _ Ht), Hbu, orb_true_r by done. split; [|done].
      intros [?|Hba]%elem_of_app; [done|]. apply (took_free _ _ _ Ht) in Hba as [_ ?]. congruence.
    + intros b Hbo. rewrite Ho2, Hperm. apply elem_of_app. by left.
  - rewrite <- Hcont. unfold contents. rewrite Hs2, Hzb, Hs1. unfold rd, contents, available. rewrite Hs1.
    rewrite <- Ha. unfold e. replace (offset + size) with ((offset - zo) + zo + Z.of_nat (length buffer)) by (unfold size; lia).
    rewrite window_write; [f_equal; lia|unfold ZONE_SIZE in *; lia..].
Qed.

(** ** The inode on the disc *)

(** What [writeInode] stores in front of the zone numbers. *)
Definition mode_of (ino : MinixFSInode) : Z := if i_type_ ino =? I_FILE then 0x81FF else 0x41FF.
Definition inode_image (h : MinixFSSuperblock) (ino : MinixFSInode) : list Z :=
  let b := patch (patch (local_array (INODE_SIZE h)) 0 (le 2 (mode_of ino))) (4 * (1 + V3_OFFSET h)) (le 4 (i_size_ ino)) in
  if is_v3 h then patch b 2 (le 2 (i_nlink_ ino)) else patch b 13 (le 1 (i_nlink_ ino)).

Definition word_at (l : list Z) (n : nat) (p : Z) : Z := unle (sub l p (Z.of_nat n)).

(** The image holds the mode, the size and, in the third version, the link
    count; in the first the mode lies where [getInode] looks for the links. *)
Lemma inode_image_fields h ino : 0 <= i_size_ ino < 2 ^ 32 → 0 <= i_nlink_ ino < 2 ^ 16 →
  Z.of_nat (length (inode_image h ino)) = INODE_SIZE h ∧
  word_at (inode_image h ino) 2 0 = mode_of ino ∧
  word_at (inode_image h ino) 4 (4 * (1 + V3_OFFSET h)) = i_size_ ino ∧
  word_at (inode_image h ino) 2 (2 * V3_OFFSET h) = if is_v3 h then i_nlink_ ino else mode_of ino.
Proof.
  intros Hs Hl. unfold inode_image, word_at, INODE_SIZE, V3_OFFSET.
  set (m := mode_of ino). assert (Hm : 0 <= m < 256 ^ Z.of_nat 2) by (unfold m, mode_of; destruct (_ =? _); done).
  clearbody m. pose proof (le_length 2 m) as L1. pose proof (le_length 4 (i_size_ ino)) as L2.
  pose proof (le_length 2 (i_nlink_ ino)) as L3. pose proof (le_length 1 (i_nlink_ ino)) as L4.
  pose proof (unle_le 2 m Hm) as U1. pose proof (unle_le 4 (i_size_ ino) ltac:(simpl; lia)) as U2.
  pose proof (unle_le 2 (i_nlink_ ino) ltac:(simpl; lia)) as U3.
  generalize dependent (le 2 m). intros lm L1 U1. generalize dependent (le 4 (i_size_ ino)). intros ls L2 U2.
  generalize dependent (le 2 (i_nlink_ ino)). intros ln L3 U3. generalize dependent (le 1 (i_nlink_ ino)). intros l1 L4.
  destruct (is_v3 h).
  - assert (F0 : fits (local_array 64) 0 (Z.of_nat (length lm))) by (rewrite L1; repeat split; done).
    assert (E0 := patch_length _ _ _ F0).
    assert (F1 : fits (patch (local_array 64) 0 lm) 8 (Z.of_nat (length ls))) by (rewrite L2; repeat split; rewrite ?E0; done).
    assert (E1 := patch_length _ _ _ F1). change (4 * (1 + 1)) with 8. change (2 * 1) with 2.
    assert (F2 : fits (patch (patch (local_array 64) 0 lm) 8 ls) 2 (Z.of_nat (length ln))) by (rewrite L3; repeat split; rewrite ?E1, ?E0; done).
    split_and!; [by rewrite (patch_length _ _ _ F2), E1, E0|..].
    + rewrite (sub_patch_other _ 2), (sub_patch_other _ 8) by (done || lia).
      rewrite <- L1 at 1. by rewrite sub_patch_same.
    + rewrite (sub_patch_other _ 2) by (done || lia). rewrite <- L2 at 1. by rewrite sub_patch_same.
    + rewrite <- L3 at 1. by rewrite sub_patch_same.
  - assert (F0 : fits (local_array 32) 0 (Z.of_nat (length lm))) by (rewrite L1; repeat split; done).
    assert (E0 := patch_length _ _ _ F0).
    assert (F1 : fits (patch (local_array 32) 0 lm) 4 (Z.of_nat (length ls))) by (rewrite L2; repeat split; rewrite ?E0; done).
    assert (E1 := patch_length _ _ _ F1). change (4 * (1 + 0)) with 4. change (2 * 0) with 0.
    assert (F2 : fits (patch (patch (local_array 32) 0 lm) 4 ls) 13 (Z.of_nat (length l1))) by (rewrite L4; repeat split; rewrite ?E1, ?E0; done).
    assert (Em : unle (sub (patch (patch (patch (local_array 32) 0 lm) 4 ls) 13 l1) 0 (Z.of_nat 2)) = m).
    { rewrite (sub_patch_other _ 13), (sub_patch_other _ 4) by (done || lia).
      rewrite <- L1 at 1. by rewrite sub_patch_same. }
    split_and!; [by rewrite (patch_length _ _ _ F2), E1, E0|done| |done].
    rewrite (sub_patch_other _ 13) by (done || lia). rewrite <- L2 at 1. by rewrite sub_patch_same.
Qed.

(** The number of the inode's block and its place there, as [getInode] computes
    them and as [writeInode] does. *)
Lemma inode_position h i_num : 1 <= i_num < 2 ^ 16 →
  0 <= s_num_inode_bm_blocks_ h < 2 ^ 16 → 0 <= s_num_zone_bm_blocks_ h < 2 ^ 16 →
  u32 (s_num_inode_bm_blocks_ h + s_num_zone_bm_blocks_ h + 2 + Z.quot (i_num - 1) (INODES_PER_BLOCK h)) = Zone.inode_block h i_num ∧
  Z.rem (i_num - 1) (INODES_PER_BLOCK h) * INODE_SIZE h = Zone.inode_offset h i_num.
Proof.
  intros Hi Hb1 Hb2. unfold Zone.inode_block, Zone.inode_offset. rewrite (wrap_small 32 (i_num - 1)) by lia.
  unfold INODES_PER_BLOCK, INODE_SIZE, BLOCK_SIZE.
  destruct (is_v3 h); rewrite !(wrap_small 32 ((i_num - 1) * _)) by lia;
    rewrite Z.quot_div_nonneg, Z.rem_mod_nonneg by lia; (split; [f_equal|]); Z.to_euclidean_division_equations; lia.
Qed.

(** The blocks an inode is kept in are on the disc and do not clash. *)
Definition inode_place_ok (f : fs D) (ino : MinixFSInode) : Prop :=
  (∀ b, b ∈ Zone.inode_block (header f) (i_num_ ino) :: Zone.meta (i_zones_ ino) → on_disc f b) ∧
  NoDup (Zone.inode_block (header f) (i_num_ ino) :: Zone.meta (i_zones_ ino)).

Lemma writeInode_writes f ino zs : disc_ok f → Zone.rep (header f) (i_zones_ ino) zs → inode_place_ok f ino →
  i_type_ ino = I_FILE ∨ i_type_ ino = I_DIR → 0 <= i_size_ ino < 2 ^ 32 → 0 <= i_nlink_ ino < 2 ^ 16 →
  let h := header f in
  let b := Zone.inode_block h (i_num_ ino) in
  ∃ f', writeInode f ino = Val f' ∧ touched f (b :: Zone.meta (i_zones_ ino)) f' ∧ Zone.tables_stored f' (i_zones_ ino) ∧
    block f' b = patch (patch (block f b) (Zone.inode_offset h (i_num_ ino)) (inode_image h ino))
                   (Zone.zones_offset h (i_num_ ino)) (Zone.encode h (Zone.direct_zones_ (i_zones_ ino))).
Proof.
  intros Hd Hr [Hin Hnd] Htype Hs Hl h b. unfold writeInode. fold h. fold b.
  pose proof (Zone.inode_offset_range h (i_num_ ino)) as [Ho1 Ho2].
  assert (HI : INODE_SIZE h = 64 ∨ INODE_SIZE h = 32) by (unfold INODE_SIZE; destruct (is_v3 h); auto).
  pose proof (local_array_length (INODE_SIZE h) ltac:(lia)) as Hla.
  rewrite readBytes_keeps; [|done|apply Hin; by left|lia..]. cbn [mbind res_bind].
  rewrite load_le_sub by (repeat split; simpl; lia). cbn [mbind res_bind].
  assert (Hz : unle (sub (local_array (INODE_SIZE h)) 0 (Z.of_nat 2)) = 0) by (destruct HI as [-> | ->]; reflexivity).
  rewrite Hz. pose proof (inode_image_fields h ino Hs Hl) as (Hlen & _). unfold inode_image in Hlen.
  assert (Hstore : (if i_type_ ino =? I_FILE then Kstring.store_le 2 (local_array (INODE_SIZE h)) 0 (Z.lor 0 0x81FF)
      else if i_type_ ino =? I_DIR then Kstring.store_le 2 (local_array (INODE_SIZE h)) 0 (Z.lor 0 0x41FF)
      else Val (local_array (INODE_SIZE h))) = Val (patch (local_array (INODE_SIZE h)) 0 (le 2 (mode_of ino)))).
  { unfold mode_of. destruct Htype as [-> | ->]; simpl (_ =? _); cbv iota; rewrite store_le_patch by (repeat split; simpl; lia); done. }
  rewrite Hstore. cbn [mbind res_bind].
  assert (Hp : Z.of_nat (length (patch (local_array (INODE_SIZE h)) 0 (le 2 (mode_of ino)))) = INODE_SIZE h).
  { rewrite patch_length; [done|]. rewrite le_length. repeat split; simpl; lia. }
  assert (HV : V3_OFFSET h = 0 ∨ V3_OFFSET h = 1) by (unfold V3_OFFSET; destruct (is_v3 h); auto).
  rewrite store_le_patch by (unfold fits; rewrite Hp; lia). cbn [mbind res_bind].
  assert (Hp2 : Z.of_nat (length (patch (patch (local_array (INODE_SIZE h)) 0 (le 2 (mode_of ino))) (4 * (1 + V3_OFFSET h)) (le 4 (i_size_ ino)))) = INODE_SIZE h).
  { rewrite patch_length; [done|]. rewrite le_length. unfold fits. rewrite Hp. lia. }
  assert (Hlink : (if is_v3 h then Kstring.store_le 2 (patch (patch (local_array (INODE_SIZE h)) 0 (le 2 (mode_of ino))) (4 * (1 + V3_OFFSET h)) (le 4 (i_size_ ino))) 2 (i_nlink_ ino)
      else Kstring.store_le 1 (patch (patch (local_array (INODE_SIZE h)) 0 (le 2 (mode_of ino))) (4 * (1 + V3_OFFSET h)) (le 4 (i_size_ ino))) 13 (i_nlink_ ino)) = Val (inode_image h ino)).
  { unfold inode_image. destruct (is_v3 h); apply store_le_patch; unfold fits; rewrite Hp2; lia. }
  rewrite Hlink. cbn [mbind res_bind]. fold (inode_image h ino) in Hlen. rewrite <- Hlen.
  destruct (writeBytes_writes f b (Zone.inode_offset h (i_num_ ino)) (inode_image h ino) Hd) as (f1 & -> & Hw);
    [apply Hin; by left|lia|lia|].
  cbn [mbind res_bind]. apply wrote_touched in Hw as [Ht1 Hb1]. specialize (Hb1 ltac:(apply Hin; by left)).
  pose proof (touched_header _ _ _ Ht1) as Hh1.
  destruct (Zone.flush_writes f1 (i_zones_ ino) zs (i_num_ ino)) as (f2 & -> & Ht2 & Hst & Hb2).
  - apply Ht1.
  - by rewrite Hh1.
  - rewrite Hh1. intros c Hc. apply (touched_on_disc _ _ _ _ Ht1). by apply Hin.
  - by rewrite Hh1.
  - rewrite Hh1 in Hb2, Ht2. fold h b in Hb2, Ht2. exists f2. split_and!; [done| |done|by rewrite Hb2, Hb1].
    eapply touched_weaken; [by eapply touched_trans|]. intros c [->%list_elem_of_singleton|Hc]%elem_of_app; [by left|done].
Qed.

(** [getInode] on a disc that holds what [writeInode] stores: [b0] is what the
    inode's block held before. *)
Lemma getInode_image f ino zs b0 : disc_ok f → storage_ok (storage_manager_ f) →
  Zone.rep (header f) (i_zones_ ino) zs → (∀ b, b ∈ Zone.inode_block (header f) (i_num_ ino) :: Zone.meta (i_zones_ ino) → on_disc f b) →
  Z.of_nat (length b0) = BLOCK_SIZE →
  block f (Zone.inode_block (header f) (i_num_ ino)) =
    patch (patch b0 (Zone.inode_offset (header f) (i_num_ ino)) (inode_image (header f) ino))
      (Zone.zones_offset (header f) (i_num_ ino)) (Zone.encode (header f) (Zone.direct_zones_ (i_zones_ ino))) →
  Zone.tables_stored f (i_zones_ ino) →
  i_type_ ino = I_FILE ∨ i_type_ ino = I_DIR → 0 <= i_size_ ino < 2 ^ 32 → 0 <= i_nlink_ ino < 2 ^ 16 →
  1 <= i_num_ ino < Bitmap.size_ (inode_bitmap_ (storage_manager_ f)) → inode_used (storage_manager_ f) (i_num_ ino) = true →
  i_num_ ino < getNumUsedInodes (storage_manager_ f) →
  0 <= s_num_inode_bm_blocks_ (header f) < 2 ^ 16 → 0 <= s_num_zone_bm_blocks_ (header f) < 2 ^ 16 →
  getInode f (i_num_ ino) = Val (f, Some (mkInode (i_type_ ino) (i_size_ ino)
      (if is_v3 (header f) then i_nlink_ ino else mode_of ino) (i_num_ ino) (i_zones_ ino))).
Proof.
  intros Hd Hst Hr Hin Hbl Hblk Htab Htype Hs Hl Hnum Hused Hcount Hb1 Hb2. unfold getInode.
  rewrite (proj2 (Z.leb_gt _ _)) by done.
  unfold isInodeSet, Bitmap.getSize. rewrite (proj2 (Z.ltb_lt _ _)) by lia. cbn [kassert mbind res_bind].
  rewrite Bitmap.getBit_in by (apply Hst || lia). fold (inode_used (storage_manager_ f) (i_num_ ino)). rewrite Hused.
  cbn [mbind res_bind negb]. pose proof (st_num_inodes _ Hst) as Hni.
  destruct (inode_position (header f) (i_num_ ino) ltac:(lia) Hb1 Hb2) as [-> ->].
  set (b := Zone.inode_block (header f) (i_num_ ino)) in *. set (h := header f) in *.
  assert (Hbd : on_disc f b) by (apply Hin; by left).
  rewrite readBlocks_one by done. cbn [mbind res_bind].
  pose proof (inode_image_fields h ino Hs Hl) as (Hil & Hf1 & Hf2 & Hf3).
  pose proof (Zone.inode_offset_range h (i_num_ ino)) as [Ho1 Ho2]. pose proof (Zone.zones_offset_range h (i_num_ ino)) as (Hz1 & Hz2 & Hz3 & _).
  pose proof (Zone.sh_direct _ _ (Zone.rep_shape _ _ _ Hr)) as Hdl.
  set (o := Zone.inode_offset h (i_num_ ino)) in *. set (zo := Zone.zones_offset h (i_num_ ino)) in *.
  assert (Hzo : zo = o + INODE_BYTES h * (7 - V3_OFFSET h)) by done.
  assert (Hpos : o + (7 - V3_OFFSET h) * Z.of_nat (entry_bytes h) = zo) by (rewrite Hzo, Hz3; lia).
  set (enc := Zone.encode h (Zone.direct_zones_ (i_zones_ ino))) in *.
  assert (Hel : Z.of_nat (length enc) = NUM_ZONES h * Z.of_nat (entry_bytes h)) by (unfold enc; by rewrite Zone.encode_length, Hdl).
  assert (F1 : fits b0 o (Z.of_nat (length (inode_image h ino)))) by (rewrite Hil; repeat split; unfold INODE_SIZE in *; destruct (is_v3 h); lia).
  pose proof (patch_length _ _ _ F1) as Hp1.
  assert (F2 : fits (patch b0 o (inode_image h ino)) zo (Z.of_nat (length enc))) by (rewrite Hel; repeat split; lia).
  pose proof (patch_length _ _ _ F2) as Hp2.
  assert (Hbl' : Z.of_nat (length (block f b)) = BLOCK_SIZE) by (rewrite Hblk, Hp2, Hp1; done).
  rewrite <- Hdl, Nat2Z.id, (Zone.read_entries_encoded h (Zone.direct_zones_ (i_zones_ ino))).
  2: { eapply Zone.direct_storable; [done|]. intros c Hc. apply Hin. by right. }
  2: { rewrite Hdl, Hpos. repeat split; nia. }
  2: { rewrite Hpos, Hdl, <- Hel, Hblk. by apply sub_patch_same. }
  cbn [mbind res_bind].
  assert (Hword : ∀ n p, 0 <= p → p + Z.of_nat n <= zo - o → p + Z.of_nat n <= INODE_SIZE h →
    Kstring.load_le n (block f b) (o + p) = Val (word_at (inode_image h ino) n p)).
  { intros n p Hp Hpn Hpi. rewrite load_le_sub by (repeat split; lia). unfold word_at.
    rewrite Hblk, (sub_patch_other _ zo), sub_patch_in by (done || lia). done. }
  assert (HI : INODE_SIZE h = 64 ∧ V3_OFFSET h = 1 ∧ zo - o = 24 ∧ is_v3 h = true ∨ INODE_SIZE h = 32 ∧ V3_OFFSET h = 0 ∧ zo - o = 14 ∧ is_v3 h = false).
  { rewrite Hzo. unfold INODE_SIZE, V3_OFFSET, INODE_BYTES. destruct (is_v3 h); [left|right]; split_and!; (done || lia). }
  replace o with (o + 0) at 1 by lia.
  rewrite !Hword by (simpl; lia). cbn [mbind res_bind]. rewrite Hf1, Hf2, Hf3.
  unfold new. rewrite (Zone.new_reads f (i_zones_ ino) zs);
    [|done|done|intros c Hc; apply Hin; by right|done].
  cbn [mbind res_bind]. unfold mode_of. destruct Htype as [E | E]; rewrite E; simpl; rewrite <- ?E; by destruct ino.
Qed.

(** An inode whose number is not below the count of used inodes is not found,
    although it is in use: after a deletion numbers may exceed the count. *)
Lemma getInode_beyond_count f i_num : getNumUsedInodes (storage_manager_ f) <= i_num → getInode f i_num = Val (f, None).
Proof. intros Hc. unfold getInode. by rewrite (proj2 (Z.leb_le _ _)). Qed.

(** C29: An inode in use that is written to the disc is found there again by its
    number, with its type, size and all its zones over the three levels of tables,
    and in the third version its link count (in the first version [getInode] takes
    the mode for the link count), if its number is below the count of inodes in use.
    With any other number, as numbers are after deletions, it is not found. *)
Theorem writeInode_getInode f ino zs : disc_ok f → storage_ok (storage_manager_ f) →
  Zone.rep (header f) (i_zones_ ino) zs → inode_place_ok f ino →
  i_type_ ino = I_FILE ∨ i_type_ ino = I_DIR → 0 <= i_size_ ino < 2 ^ 32 → 0 <= i_nlink_ ino < 2 ^ 16 →
  1 <= i_num_ ino < Bitmap.size_ (inode_bitmap_ (storage_manager_ f)) → inode_used (storage_manager_ f) (i_num_ ino) = true →
  0 <= s_num_inode_bm_blocks_ (header f) < 2 ^ 16 → 0 <= s_num_zone_bm_blocks_ (header f) < 2 ^ 16 →
  ∃ f', writeInode f ino = Val f' ∧
    getInode f' (i_num_ ino) = Val (f', if i_num_ ino <? getNumUsedInodes (storage_manager_ f)
      then Some (mkInode (i_type_ ino) (i_size_ ino)
             (if is_v3 (header f) then i_nlink_ ino else mode_of ino) (i_num_ ino) (i_zones_ ino))
      else None).
Proof.
  intros Hd Hst Hr Hplace Htype Hs Hl Hnum Hused Hb1 Hb2.
  destruct (writeInode_writes f ino zs Hd Hr Hplace Htype Hs Hl) as (f' & Hw & Ht & Htab & Hblk). exists f'. split; [done|].
  destruct Hplace as [Hin Hnd]. pose proof (touched_header _ _ _ Ht) as Hh. pose proof (touched_storage _ _ _ Ht) as Hsm.
  destruct (Z.ltb_spec (i_num_ ino) (getNumUsedInodes (storage_manager_ f))) as [Hcount|Hcount];
    [|apply getInode_beyond_count; by rewrite Hsm].
  pose proof (getInode_image f' ino zs (block f (Zone.inode_block (header f) (i_num_ ino)))) as E. rewrite Hh, Hsm in E.
  apply E; try done; [apply Ht| |].
  - intros b Hb. by apply (touched_on_disc _ _ _ _ Ht), Hin.
  - apply block_length; [done|]. apply Hin. by left.
Qed.

Lemma clean_loop_zeros n : ∀ f zone, disc_ok f → (∀ b, zone <= b < zone + Z.of_nat n → on_disc f b) →
  ∃ f', clean_loop n f zone = Val f' ∧ touched f (seqZ zone (Z.of_nat n)) f' ∧
    ∀ b, zone <= b < zone + Z.of_nat n → block f' b = local_array ZONE_SIZE.
Proof.
  induction n as [|n IH]; intros f zone Hd Hin; [exists f; split_and!; [done|by apply touched_refl|lia]|].
  cbn [clean_loop]. destruct (writeZone_writes f zone (local_array ZONE_SIZE) Hd ltac:(apply Hin; lia) eq_refl) as (f1 & -> & Hw).
  cbn [mbind res_bind]. apply wrote_touched in Hw as [Ht1 Hb1].
  destruct (IH f1 (zone + 1)) as (f2 & -> & Ht2 & Hb2); [apply Ht1| |].
  { intros b Hb. apply (touched_on_disc _ _ _ _ Ht1), Hin. lia. }
  exists f2. split_and!; [done| |].
  - eapply touched_weaken; [by eapply touched_trans|]. intros b [->%list_elem_of_singleton|Hb%elem_of_seqZ]%elem_of_app;
      apply elem_of_seqZ; lia.
  - intros b Hb. destruct (decide (b = zone)) as [->|]; [|apply Hb2; lia].
    rewrite (touched_others _ _ _ Ht2), Hb1; [done|apply Hin; lia|apply (touched_on_disc _ _ _ _ Ht1), Hin; lia|].
    intros ?%elem_of_seqZ. lia.
Qed.

(** A write behind the end of an empty file, from the third block on, clears the
    blocks 1, 2, ... of the disc: the superblock and the bitmaps. *)
Lemma gap_clears_superblock f ino offset : disc_ok f → i_size_ ino = 0 → ZONE_SIZE <= offset →
  (∀ b, 1 <= b <= offset / ZONE_SIZE → on_disc f b) →
  ∃ f', fill_gap f ino offset = Val (f', set_size offset ino) ∧
    ∀ b, 1 <= b <= offset / ZONE_SIZE → block f' b = local_array ZONE_SIZE.
Proof.
  intros Hd Hs Ho Hin. unfold fill_gap. rewrite Hs. change (0 / ZONE_SIZE) with 0. change (0 mod ZONE_SIZE) with 0. simpl negb.
  cbn [mbind res_bind]. assert (1 <= offset / ZONE_SIZE) by (unfold ZONE_SIZE in *; Z.to_euclidean_division_equations; lia).
  destruct (clean_loop_zeros (Z.to_nat (offset / ZONE_SIZE - 0)) f (0 + 1) Hd) as (f' & -> & _ & Hb); [intros b Hb; apply Hin; lia|].
  exists f'. split; [done|]. intros b Hb'. apply Hb. lia.
Qed.

(** ** Several files *)

(** Files that do not share zones. *)
Definition volume (f : fs D) (files : list (MinixFSInode * list Z)) : Prop :=
  fs_ok f ∧ Forall (λ i, file_ok f i.1 i.2) files ∧ NoDup (mjoin ((λ i, owned i.1 i.2) <$> files)).

Lemma other_file f ino zs f' ino' zs' ino2 zs2 : fs_ok f → framed f ino zs f' ino' zs' → file_ok f ino2 zs2 →
  (∀ b, b ∈ owned ino2 zs2 → b ∉ owned ino zs) →
  file_ok f' ino2 zs2 ∧ contents f' ino2 zs2 = contents f ino2 zs2 ∧ (∀ b, b ∈ owned ino2 zs2 → b ∉ owned ino' zs').
Proof.
  intros Hok [Hh Hbits _ Hblk Hoth _] [[Hr Hin Hs Hroom] Hused Hnd] Hdis.
  assert (Hno : ∀ b, b ∈ owned ino2 zs2 → b ∉ owned ino' zs' ∧ zused f' b = true).
  { intros b Hb. destruct (Hused b Hb). apply Hoth; auto. }
  split_and!; [|..|intros b Hb; by apply Hno].
  - split; [split| |done]; try done; [by rewrite Hh| |].
    + intros z Hz. unfold on_disc, num_blocks. rewrite Hh. by apply Hin.
    + intros z Hz. split; [|by apply Hno]. destruct (Hused z Hz) as [Hd _].
      unfold data_zone, zone_bit in *. by rewrite Hh, Hbits.
  - unfold contents, zone_bytes. do 2 f_equal. apply list_fmap_ext. intros i z Hz.
    apply list_elem_of_lookup_2 in Hz. apply Hblk; [by apply Hin|]. apply Hno, elem_of_app. by left.
Qed.

(** C8: On a volume of files that share no zones, [writeData] within or at the
    end of a file makes its contents the old ones with the buffer stored at the
    offset, extending the file where needed over the direct, indirect and doubly
    indirect zones; the contents of every other file and every block of no file
    stay, the files still share no zones, and reading gives back what is stored. *)
Theorem writeData_overwrites f ino zs others offset buffer : volume f ((ino, zs) :: others) →
  0 <= offset <= i_size_ ino → buffer ≠ [] → offset + Z.of_nat (length buffer) < 2 ^ 32 - 2048 →
  Z.of_nat (length zs) + growth ino (offset + Z.of_nat (length buffer)) <= Zone.capacity (header f) →
  3 * growth ino (offset + Z.of_nat (length buffer)) + 1 <= free f →
  ∃ f' ino' zs', writeData f ino offset (Z.of_nat (length buffer)) buffer = Val (f', ino', Z.of_nat (length buffer)) ∧
    volume f' ((ino', zs') :: others) ∧
    contents f' ino' zs' = patch (contents f ino zs) offset buffer ∧
    i_size_ ino' = Z.max (i_size_ ino) (offset + Z.of_nat (length buffer)) ∧
    (∀ i, i ∈ others → contents f' i.1 i.2 = contents f i.1 i.2) ∧
    (∀ b, on_disc f b → b ∉ owned ino' zs' → block f' b = block f b) ∧
    ∀ o n out, 0 <= o → 0 <= n → o + n < 2 ^ 32 → fits out 0 (available ino' o n) →
      readData f' ino' o n out =
      Val (f', patch out 0 (sub (contents f' ino' zs') o (available ino' o n)), available ino' o n).
Proof.
  intros (Hok & [Hfile Hoth]%Forall_cons & Hnd) Ho Hb He Hcap Hfree. simpl in Hfile.
  change (NoDup (owned ino zs ++ mjoin ((λ i, owned i.1 i.2) <$> others))) in Hnd. apply NoDup_app in Hnd as (_ & Hdis & Hnd).
  destruct (writeData_writes f ino zs offset buffer Hok Hfile Ho Hb He Hcap Hfree) as (f' & ino' & zs' & Hw & Hok' & Hfile' & Hfr & Hc & Hsz).
  exists f', ino', zs'.
  assert (Hoth' : ∀ i, i ∈ others → file_ok f' i.1 i.2 ∧ contents f' i.1 i.2 = contents f i.1 i.2 ∧ ∀ b, b ∈ owned i.1 i.2 → b ∉ owned ino' zs').
  { intros i Hi. rewrite Forall_forall in Hoth. eapply other_file; [done|done|by apply Hoth|].
    intros b Hbi Hbo. apply (Hdis b Hbo), list_elem_of_join. exists (owned i.1 i.2). split; [done|].
    apply list_elem_of_fmap. by exists i. }
  split_and!; [done| |done|done|intros i Hi; by apply Hoth'|apply Hfr|].
  - split_and!; [done|constructor; [done|]|].
    + apply Forall_forall. intros i Hi. by apply Hoth'.
    + change (NoDup (owned ino' zs' ++ mjoin ((λ i, owned i.1 i.2) <$> others))). apply NoDup_app.
      split_and!; [apply Hfile'| |done]. intros b Hbo (l & Hbl & (i & -> & Hi)%list_elem_of_fmap)%list_elem_of_join.
      by apply (proj2 (proj2 (Hoth' i Hi)) b).
  - intros o n out Ho' Hn Hon Hfit. apply readData_reads; try done; [apply Hok'|apply Hfile'|].
    left. intros ->. assert (E : contents f' ino' [] = []) by (unfold contents, sub; simpl; apply take_nil).
    rewrite E in Hc. apply (f_equal length) in Hc. unfold patch in Hc. rewrite !length_app in Hc. simpl in Hc.
    destruct buffer; simpl in Hc; [done|lia].
Qed.
End files.

(** ** An empty file system *)

Section example.
Import Mem.

(** A first-version file system of 40 blocks: zones 5 to 35, none in use. *)
Definition ex_header : MinixFSSuperblock := mkSuperblock 0x137f 32 36 1 1 5 0 0 1024 (whole 40).
Definition ex_fs : fs MemDisc :=
  let bm := Bitmap.mkBitmap 32 1 [1; 0; 0; 0] in mkFs ex_header (mkStorage bm bm 0 0 1 1) (blank 40).
Definition ex_file : MinixFSInode := mkInode I_FILE 0 1 2 (Zone.no_zones ex_header).

Lemma ex_fs_ok : fs_ok ex_fs.
Proof.
  assert (Hb : Bitmap.bitmap_ok (Bitmap.mkBitmap 32 1 [1; 0; 0; 0])).
  { split; simpl; [lia|reflexivity|apply Forall_is_byte; reflexivity|reflexivity]. }
  destruct (blank_device 40 ltac:(lia)) as [Hd Hn].
  by split.
Qed.

Lemma ex_file_ok : file_ok ex_fs ex_file [].
Proof.
  assert (Hm : owned ex_file [] = []) by reflexivity.
  split; [split|..].
  - exact (Zone.rep_empty ex_header).
  - intros z Hz. by apply not_elem_of_nil in Hz.
  - discriminate.
  - reflexivity.
  - rewrite Hm. intros z Hz. by apply not_elem_of_nil in Hz.
  - rewrite Hm. constructor.
Qed.

Lemma writeData_overwrites_witness : ∃ f' ino' zs',
  writeData ex_fs ex_file 0 3 [1; 2; 3] = Val (f', ino', 3) ∧ contents f' ino' zs' = [1; 2; 3] ∧
  readData f' ino' 1 2 [0; 0] = Val (f', [2; 3], 2).
Proof.
  destruct (writeData_overwrites ex_fs ex_file [] [] 0 [1; 2; 3]) as (f' & ino' & zs' & Hw & _ & Hc & Hs & _ & _ & Hr).
  - split; [exact ex_fs_ok|]. split; [constructor; [exact ex_file_ok|constructor]|constructor].
  - split; discriminate.
  - discriminate.
  - reflexivity.
  - discriminate.
  - vm_compute. discriminate.
  - assert (Hc' : contents f' ino' zs' = [1; 2; 3]) by (rewrite Hc; reflexivity).
    exists f', ino', zs'. split_and!; [exact Hw|exact Hc'|].
    assert (Ha : available ino' 1 2 = 2) by (unfold available; rewrite Hs; reflexivity).
    rewrite Hr, Ha, Hc'; [reflexivity|discriminate..|reflexivity|]. rewrite Ha. repeat split; discriminate.
Defined.

(** The same with the inodes 0, 1, 2 in use. *)
Definition ex_fs2 : fs MemDisc :=
  mkFs ex_header (mkStorage (Bitmap.mkBitmap 32 3 [7; 0; 0; 0]) (Bitmap.mkBitmap 32 1 [1; 0; 0; 0]) 0 0 1 1) (blank 40).

Lemma writeInode_getInode_witness : ∃ f', writeInode ex_fs2 ex_file = Val f' ∧
  getInode f' 2 = Val (f', Some (mkInode I_FILE 0 0x81FF 2 (Zone.no_zones ex_header))).
Proof.
  destruct (blank_device 40 ltac:(split; [discriminate|reflexivity])) as [Hd Hn].
  assert (Hm : Zone.inode_block ex_header 2 :: Zone.meta (Zone.no_zones ex_header) = [4]) by reflexivity.
  apply (writeInode_getInode ex_fs2 ex_file []).
  - split; [exact Hd|reflexivity].
  - split; simpl; try (split; discriminate || reflexivity);
      (split; simpl; [split; discriminate|reflexivity|apply Forall_is_byte; reflexivity|reflexivity]).
  - exact (Zone.rep_empty ex_header).
  - unfold inode_place_ok. change (NoDup (Zone.inode_block ex_header 2 :: Zone.meta (Zone.no_zones ex_header))) with (NoDup [4]).
    split; [|apply NoDup_singleton].
    intros b. change (i_zones_ ex_file) with (Zone.no_zones ex_header). change (header ex_fs2) with ex_header.
    change (i_num_ ex_file) with 2. rewrite Hm. intros ->%list_elem_of_singleton. unfold on_disc, num_blocks.
    change (s_dev_ (header ex_fs2)) with (whole 40). rewrite Hn. split; [split; [discriminate|reflexivity]|reflexivity].
  - left. reflexivity.
  - split; [discriminate|reflexivity].
  - split; [discriminate|reflexivity].
  - split; [discriminate|reflexivity].
  - reflexivity.
  - split; [discriminate|reflexivity].
  - split; [discriminate|reflexivity].
Defined.
End example.

End Inode.
