(* ===== verification/MinixDir.v ===== *)
(** * MINIX file system: the entries of directories

    What [findDentry] and [writeDentry] of [MinixFSInode.cpp], modelled in
    [MinixInode], do to a directory seen as a row of slots, each with the number
    of an inode and a name; a slot with the number 0 is free. *)
From S2P Require Import Prelude Bitmap LibcString Kstring Buffers BlockDevice MinixStorage MinixDisc MinixZone MinixInode.

Import Storage Disc.

Module Dir.
Import Inode.

(** ** Slots *)

Definition slot_num (s : list Z) : Z := word_at s 2 0.

(** The name in a field of [n] bytes: cut off, or filled with zeros. *)
Definition padded (n : Z) (text : list Z) : list Z := resize (Z.to_nat n) 0 text.

(** The name a field stands for: up to the first 0. *)
Fixpoint until_nul (l : list Z) : list Z :=
  match l with
  | [] => []
  | c :: l => if c =? 0 then [] else c :: until_nul l
  end.

Definition slot_name (h : MinixFSSuperblock) (s : list Z) : list Z :=
  until_nul (sub s (INODE_BYTES h) (MAX_NAME_LENGTH h)).

(** A slot after [writeDentry]; of the four bytes for the number in the third
    version only the lower two are written. *)
Definition entry (h : MinixFSSuperblock) (old : list Z) (src : Z) (text : list Z) : list Z :=
  patch (patch old 0 (le 2 src)) (INODE_BYTES h) (padded (MAX_NAME_LENGTH h) text).

Definition per_block (h : MinixFSSuperblock) : Z := BLOCK_SIZE / INODE_SIZE h.
Definition slot (h : MinixFSSuperblock) (b : list Z) (k : Z) : list Z := sub b (k * INODE_SIZE h) (INODE_SIZE h).
Definition slots (h : MinixFSSuperblock) (b : list Z) : list (list Z) := slot h b <$> seqZ 0 (per_block h).

Section layout.
Context (h : MinixFSSuperblock).
Implicit Types b : list Z.

Lemma layout : (INODE_SIZE h = 64 ∧ INODE_BYTES h = 4 ∧ MAX_NAME_LENGTH h = 60 ∧ per_block h = 16) ∨
  (INODE_SIZE h = 32 ∧ INODE_BYTES h = 2 ∧ MAX_NAME_LENGTH h = 30 ∧ per_block h = 32).
Proof. unfold per_block, INODE_SIZE, INODE_BYTES, MAX_NAME_LENGTH. destruct (is_v3 h); [left|right]; done. Qed.

Lemma layout_facts : 32 <= INODE_SIZE h ∧ 2 <= INODE_BYTES h ∧ INODE_BYTES h + MAX_NAME_LENGTH h = INODE_SIZE h ∧
  per_block h * INODE_SIZE h = BLOCK_SIZE ∧ 0 < per_block h ∧ 0 < MAX_NAME_LENGTH h.
Proof. destruct layout as [(-> & -> & -> & ->)|(-> & -> & -> & ->)]; done. Qed.

Lemma slots_length b : length (slots h b) = Z.to_nat (per_block h).
Proof. unfold slots. by rewrite length_fmap, length_seqZ. Qed.

Lemma slots_lookup b k : 0 <= k < per_block h → slots h b !! Z.to_nat k = Some (slot h b k).
Proof.
  intros Hk. unfold slots. rewrite list_lookup_fmap, lookup_seqZ_lt by lia. simpl. do 2 f_equal. lia.
Qed.

Lemma slot_fits b k : Z.of_nat (length b) = BLOCK_SIZE → 0 <= k < per_block h → fits b (k * INODE_SIZE h) (INODE_SIZE h).
Proof. intros Hb Hk. pose proof layout_facts. repeat split; nia. Qed.

(** Overwriting a part of one slot. *)
Lemma slots_patch b k o l : Z.of_nat (length b) = BLOCK_SIZE → 0 <= k < per_block h → 0 <= o →
  o + Z.of_nat (length l) <= INODE_SIZE h →
  slots h (patch b (k * INODE_SIZE h + o) l) = <[Z.to_nat k := patch (slot h b k) o l]> (slots h b).
Proof.
  intros Hb Hk Ho Hl. pose proof layout_facts as (HS & _). pose proof (slot_fits b k Hb Hk) as Hf.
  apply list_eq. intros i. rewrite list_lookup_insert, slots_length.
  destruct (decide (i < Z.to_nat (per_block h))%nat) as [Hi|Hi].
  2: { rewrite decide_False by lia. rewrite !lookup_ge_None_2 by (rewrite slots_length; lia). done. }
  pose proof (slots_lookup b (Z.of_nat i) ltac:(lia)) as Eb.
  pose proof (slots_lookup (patch b (k * INODE_SIZE h + o) l) (Z.of_nat i) ltac:(lia)) as Ep.
  rewrite Nat2Z.id in Eb, Ep. rewrite Eb, Ep. unfold slot. destruct (decide (Z.of_nat i = k)) as [<-|Hne].
  - rewrite decide_True by lia. f_equal. by apply sub_patch_sub.
  - rewrite decide_False by lia. f_equal. destruct Hf as (? & ? & ?). apply sub_patch_other; [repeat split; lia|nia|lia|nia].
Qed.

(** ** Searching a block *)

(** The byte at which the first slot of [l] with the number starts, for a row
    of slots that starts at [p]. *)
Definition find_slot (i_num : Z) (l : list (list Z)) : option Z :=
  (λ r : nat * list Z, Z.of_nat r.1) <$> list_find (λ s, slot_num s = i_num) l.

Lemma find_slot_cons i_num s l : find_slot i_num (s :: l) =
  if decide (slot_num s = i_num) then Some 0 else (Z.add 1) <$> find_slot i_num l.
Proof.
  unfold find_slot. simpl. destruct (decide (slot_num s = i_num)); [done|].
  destruct (list_find _ l) as [[k x]|]; simpl; [f_equal; lia|done].
Qed.

Lemma find_slot_app i_num l k : find_slot i_num (l ++ k) =
  match find_slot i_num l with Some i => Some i | None => (Z.add (Z.of_nat (length l))) <$> find_slot i_num k end.
Proof.
  induction l as [|s l IH]; simpl.
  { change (find_slot i_num []) with (@None Z). simpl. destruct (find_slot i_num k); simpl; [f_equal; lia|done]. }
  rewrite !find_slot_cons. destruct (decide _); [done|]. rewrite IH. destruct (find_slot i_num l); [done|].
  destruct (find_slot i_num k); simpl; [f_equal; lia|done].
Qed.

Lemma find_slot_Some i_num l k : find_slot i_num l = Some k → 0 <= k ∧
  ∃ s, l !! Z.to_nat k = Some s ∧ slot_num s = i_num ∧ ∀ j s', 0 <= j < k → l !! Z.to_nat j = Some s' → slot_num s' ≠ i_num.
Proof.
  unfold find_slot. intros H. destruct (list_find _ l) as [[i s]|] eqn:E; [|done]. injection H as <-. simpl.
  apply list_find_Some in E as (Hl & Hn & Hb). split; [lia|]. exists s. rewrite Nat2Z.id. split_and!; [done..|].
  intros j s' Hj Hs'. apply (Hb (Z.to_nat j) s'); [done|lia].
Qed.

Lemma find_slot_None i_num l s : find_slot i_num l = None → s ∈ l → slot_num s ≠ i_num.
Proof.
  unfold find_slot. intros H. destruct (list_find _ l) eqn:E; [done|]. apply list_find_None in E.
  rewrite Forall_forall in E. apply E.
Qed.

Lemma find_in_block_finds n b i_num : Z.of_nat (length b) = BLOCK_SIZE → ∀ k, 0 <= k → k + Z.of_nat n <= per_block h →
  find_in_block n h b (k * INODE_SIZE h) i_num =
  Val ((λ i, (k + i) * INODE_SIZE h) <$> find_slot i_num (slot h b <$> seqZ k (Z.of_nat n))).
Proof.
  intros Hb. pose proof layout_facts as (HS & HB & _ & HP & _). induction n as [|n IH]; intros k Hk Hn; [done|]. cbn [find_in_block].
  destruct (slot_fits b k Hb ltac:(lia)) as (? & _ & ?).
  rewrite load_le_sub by (repeat split; simpl; lia). cbn [mbind res_bind].
  assert (E : unle (sub b (k * INODE_SIZE h) (Z.of_nat 2)) = slot_num (slot h b k)).
  { unfold slot_num, word_at, slot. rewrite sub_sub by (simpl; lia). by rewrite Z.add_0_r. }
  rewrite E. clear E.
  rewrite Nat2Z.inj_succ, seqZ_cons by lia. replace (Z.pred (Z.succ (Z.of_nat n))) with (Z.of_nat n) by lia.
  rewrite fmap_cons, find_slot_cons.
  destruct (Z.eqb_spec (slot_num (slot h b k)) i_num) as [En|En].
  - rewrite decide_True by done. simpl. do 2 f_equal. lia.
  - rewrite decide_False by done. replace (k * INODE_SIZE h + INODE_SIZE h) with ((k + 1) * INODE_SIZE h) by lia.
    rewrite IH by lia. replace (Z.succ k) with (k + 1) by lia. f_equal.
    destruct (find_slot _ _); simpl; [f_equal; lia|done].
Qed.
End layout.

(** ** Copying a name *)

Lemma store_byte (m : list Z) p v : fits m p 1 → is_byte v → Libc.store m p v = Val (patch m p [v]).
Proof.
  intros Hf Hv. pose proof (store_le_patch 1 m p v Hf) as E. simpl in E.
  rewrite wrap_small in E by (unfold is_byte in Hv; lia). by destruct (Libc.store m p v).
Qed.

Lemma strncpy_fill n : ∀ m d s, fits m d (Z.of_nat n) →
  Kstring.strncpy_loop m d s true n = Val (patch m d (replicate n 0)).
Proof.
  induction n as [|n IH]; intros m d s (? & ? & Hl); [by simpl; rewrite patch_nil|]. cbn [Kstring.strncpy_loop replicate].
  rewrite store_byte by (first [done | repeat split; lia]). cbn [mbind res_bind].
  assert (F : fits m d (Z.of_nat (length [0]))) by (repeat split; simpl; lia).
  rewrite IH by (repeat split; rewrite ?(patch_length _ _ _ F); lia).
  change (d + 1) with (d + Z.of_nat (length [0])). rewrite patch_app; [done|].
  repeat split; rewrite ?length_replicate; simpl; lia.
Qed.

(** The name is copied up to the end of the field or its NUL, and the field is
    filled with zeros. *)
Lemma strncpy_copies n : ∀ text tail m d s, fits m d (Z.of_nat n) → d + Z.of_nat n <= s →
  drop (Z.to_nat s) m = text ++ 0 :: tail → Forall (λ c, is_byte c ∧ c ≠ 0) text →
  Kstring.strncpy_loop m d s false n = Val (patch m d (padded (Z.of_nat n) text)).
Proof.
  unfold padded. induction n as [|n IH]; intros text tail m d s (? & ? & Hl) Hds Hdrop Hbytes; [by destruct text; simpl; rewrite patch_nil|].
  cbn [Kstring.strncpy_loop]. rewrite Nat2Z.id. rewrite (Nat2Z.inj_succ n) in *.
  destruct text as [|c text].
  - assert (Hc : m !! Z.to_nat s = Some 0) by (rewrite <- (Nat.add_0_r (Z.to_nat s)), <- lookup_drop, Hdrop; done).
    unfold Libc.load. rewrite (proj2 (zget_Val m s 0)) by (split; [lia|done]). cbn [mbind res_bind].
    rewrite store_byte by (first [done | repeat split; lia]). cbn [mbind res_bind]. change (0 =? 0) with true.
    assert (F : fits m d (Z.of_nat (length [0]))) by (repeat split; simpl; lia).
    rewrite strncpy_fill by (repeat split; rewrite ?(patch_length _ _ _ F); lia).
    change (d + 1) with (d + Z.of_nat (length [0])). rewrite patch_app by (repeat split; rewrite ?length_replicate; simpl; lia).
    done.
  - apply Forall_cons in Hbytes as [[Hc Hc0] Hbytes].
    assert (Hcl : m !! Z.to_nat s = Some c) by (rewrite <- (Nat.add_0_r (Z.to_nat s)), <- lookup_drop, Hdrop; done).
    unfold Libc.load. rewrite (proj2 (zget_Val m s c)) by (split; [lia|done]). cbn [mbind res_bind].
    rewrite store_byte by (first [done | repeat split; lia]). cbn [mbind res_bind].
    assert (F : fits m d (Z.of_nat (length [c]))) by (repeat split; simpl; lia).
    rewrite (proj2 (Z.eqb_neq c 0)) by done.
    rewrite (IH text tail).
    + change (d + 1) with (d + Z.of_nat (length [c])).
      rewrite patch_app; [|repeat split; rewrite ?length_resize; simpl; lia].
      by rewrite Nat2Z.id.
    + repeat split; rewrite ?(patch_length _ _ _ F); lia.
    + lia.
    + apply list_eq. intros i. rewrite lookup_drop, lookup_patch by done.
      rewrite decide_False by (simpl; lia). rewrite <- lookup_drop.
      replace (Z.to_nat (s + 1)) with (Z.to_nat s + 1)%nat by lia. rewrite <- drop_drop, Hdrop. done.
    + done.
Qed.

(** ** Directories *)

Section dirs.
Context {D : Type} `{BDDriverLaws D}.
Implicit Types (f : fs D) (ino : MinixFSInode).

(** All slots of a directory whose zones are [zs]. *)
Definition dir_slots (f : fs D) (zs : list Z) : list (list Z) := mjoin ((λ z, slots (header f) (block f z)) <$> zs).

Definition position (h : MinixFSSuperblock) (k : option Z) : Z :=
  match k with Some k => k * INODE_SIZE h | None => -1 end.

Lemma rep_small h z zs : Zone.rep h z zs → Z.of_nat (length zs) * ZONE_SIZE < 2 ^ 31.
Proof.
  intros Hr. pose proof (Zone.rep_capacity _ _ _ Hr) as Hc. unfold Zone.capacity, NUM_ZONE_ADDRESSES, ZONE_SIZE in *.
  destruct (is_v3 h); lia.
Qed.

Lemma find_loop_finds f ino zs i_num : disc_ok f → Zone.rep (header f) (i_zones_ ino) zs → (∀ z, z ∈ zs → on_disc f z) → ∀ n zone, 0 <= zone →
  zone + Z.of_nat n = Z.of_nat (length zs) →
  find_loop n f (i_zones_ ino) zone i_num =
  Val (f, position (header f) (Z.add (zone * per_block (header f)) <$> find_slot i_num (dir_slots f (drop (Z.to_nat zone) zs)))).
Proof.
  intros Hd Hr Hin. pose proof (rep_small _ _ _ Hr) as Hsmall. pose proof (layout_facts (header f)) as (HS & _ & _ & HP & HP0 & _).
  induction n as [|n IH]; intros zone Hz Hn; [by rewrite drop_ge by lia|].
  destruct (lookup_lt_is_Some_2 zs (Z.to_nat zone)) as [v Hv]; [lia|]. cbn [find_loop].
  rewrite (Zone.getZone_gets _ _ _ _ Hr) by done. rewrite Hv. cbn [mbind res_bind].
  assert (Hvd : on_disc f v) by (apply Hin; by eapply list_elem_of_lookup_2).
  rewrite readZone_reads by done. cbn [mbind res_bind].
  fold (per_block (header f)).
  pose proof (find_in_block_finds (header f) (Z.to_nat (per_block (header f))) (block f v) i_num (block_length f v Hd Hvd) 0) as E.
  rewrite Z2Nat.id in E by lia. change (0 * INODE_SIZE (header f)) with 0 in E. rewrite E by lia. cbn [mbind res_bind]. clear E.
  fold (slots (header f) (block f v)).
  rewrite (drop_S _ _ _ Hv). change (dir_slots f (v :: drop (S (Z.to_nat zone)) zs)) with
    (slots (header f) (block f v) ++ dir_slots f (drop (S (Z.to_nat zone)) zs)).
  rewrite find_slot_app, slots_length.
  destruct (find_slot i_num (slots (header f) (block f v))) as [k|] eqn:Ek; cbn [fmap option_fmap option_map].
  - apply find_slot_Some in Ek as (Hk & s & Hs & _). apply lookup_lt_Some in Hs. rewrite slots_length in Hs.
    unfold position. rewrite signed_small by (unfold ZONE_SIZE, BLOCK_SIZE in *; nia). do 2 f_equal. unfold ZONE_SIZE, BLOCK_SIZE in *. nia.
  - rewrite IH by lia. replace (Z.to_nat (zone + 1)) with (S (Z.to_nat zone)) by lia. do 3 f_equal.
    destruct (find_slot i_num (dir_slots _ _)); simpl; [f_equal; lia|done].
Qed.

(** [findDentry] gives the position of the first slot with the number, or -1. *)
Lemma findDentry_finds f ino zs i_num : disc_ok f → Zone.rep (header f) (i_zones_ ino) zs → (∀ z, z ∈ zs → on_disc f z) →
  findDentry f ino i_num = Val (f, position (header f) (find_slot i_num (dir_slots f zs))).
Proof.
  intros Hd Hr Hin. unfold findDentry, Zone.getNumZones. rewrite (Zone.rep_num _ _ _ Hr).
  rewrite (find_loop_finds f ino zs) by (done || lia). rewrite drop_0. do 3 f_equal.
  by destruct (find_slot _ _).
Qed.

Lemma dir_slots_length f zs : length (dir_slots f zs) = (length zs * Z.to_nat (per_block (header f)))%nat.
Proof.
  unfold dir_slots. rewrite (mjoin_length (Z.to_nat (per_block (header f)))), length_fmap; [done|].
  apply Forall_fmap, Forall_forall. intros ? _. apply slots_length.
Qed.

Lemma dir_slots_lookup f zs q r v : zs !! Z.to_nat q = Some v → 0 <= q → 0 <= r < per_block (header f) →
  dir_slots f zs !! Z.to_nat (q * per_block (header f) + r) = Some (slot (header f) (block f v) r).
Proof.
  intros Hv Hq Hr. unfold dir_slots. apply (join_lookup_Some_same_length (Z.to_nat (per_block (header f)))).
  { apply Forall_fmap, Forall_forall. intros ? _. apply slots_length. }
  exists (Z.to_nat q), (slots (header f) (block f v)), (Z.to_nat r). split_and!; [by rewrite list_lookup_fmap, Hv|by apply slots_lookup|nia].
Qed.

(** A name as an array with its NUL. *)
Definition name_ok (text : list Z) : Prop := Forall (λ c, is_byte c ∧ c ≠ 0) text.

Lemma put_entry_puts f z zs k old src text tail : disc_ok f → Zone.rep (header f) z zs → (∀ v, v ∈ zs → on_disc f v) → NoDup zs →
  0 <= k → dir_slots f zs !! Z.to_nat k = Some old → 0 <= src < 2 ^ 16 → name_ok text →
  ∃ f', put_entry f z (k * INODE_SIZE (header f)) src (text ++ 0 :: tail) = Val f' ∧ touched f zs f' ∧
    dir_slots f' zs = <[Z.to_nat k := entry (header f) old src text]> (dir_slots f zs).
Proof.
  intros Hd Hr Hin Hnd Hk Hold Hsrc Hname. set (h := header f) in *.
  pose proof (layout_facts h) as (HS & HB & HN & HP & HP0 & HM). pose proof (rep_small _ _ _ Hr) as Hsmall.
  pose proof (lookup_lt_Some _ _ _ Hold) as Hlt. rewrite dir_slots_length in Hlt. fold h in Hlt.
  set (q := k / per_block h). set (r := k mod per_block h).
  assert (Hqr : k = q * per_block h + r ∧ 0 <= r < per_block h ∧ 0 <= q)
    by (unfold q, r; Z.to_euclidean_division_equations; nia).
  destruct Hqr as (Hkq & Hr0 & Hq0). clearbody q r.
  assert (Hq : q < Z.of_nat (length zs)) by nia.
  unfold put_entry. fold h. rewrite wrap_small by (unfold ZONE_SIZE, BLOCK_SIZE in *; nia).
  assert (Hpos : k * INODE_SIZE h = q * ZONE_SIZE + r * INODE_SIZE h) by (unfold ZONE_SIZE, BLOCK_SIZE in *; nia).
  assert (Hrs : 0 <= r * INODE_SIZE h ∧ r * INODE_SIZE h + INODE_SIZE h <= ZONE_SIZE) by (unfold ZONE_SIZE, BLOCK_SIZE in *; nia).
  assert (Ediv : k * INODE_SIZE h / ZONE_SIZE = q ∧ (k * INODE_SIZE h) mod ZONE_SIZE = r * INODE_SIZE h).
  { rewrite Hpos. clear - Hrs HS. set (x := r * INODE_SIZE h) in *. clearbody x. unfold ZONE_SIZE in *. Z.to_euclidean_division_equations; lia. }
  destruct Ediv as [-> ->].
  destruct (lookup_lt_is_Some_2 zs (Z.to_nat q)) as [v Hv]; [lia|].
  assert (Hvd : on_disc f v) by (apply Hin; by eapply list_elem_of_lookup_2).
  rewrite (Zone.getZone_gets _ _ _ _ Hr) by done. rewrite Hv. cbn [mbind res_bind].
  rewrite readZone_reads by done. cbn [mbind res_bind]. pose proof (block_length f v Hd Hvd) as Hbl.
  set (b := block f v) in *. change BLOCK_SIZE with ZONE_SIZE in Hbl.
  assert (F1 : fits b (r * INODE_SIZE h) (Z.of_nat (length (le 2 src)))) by (rewrite le_length; repeat split; simpl; lia).
  rewrite store_le_patch by (by rewrite le_length in F1). cbn [mbind res_bind].
  set (b1 := patch b (r * INODE_SIZE h) (le 2 src)). assert (L1 : length b1 = length b) by (by apply patch_length).
  unfold Kstring.strncpy. rewrite (strncpy_copies (Z.to_nat (MAX_NAME_LENGTH h)) text tail).
  2: { repeat split; rewrite ?length_app; lia. }
  2: { lia. }
  2: { rewrite drop_app_length' by lia. done. }
  2: { done. }
  cbn [mbind res_bind]. rewrite Z2Nat.id by lia.
  assert (Lp : Z.of_nat (length (padded (MAX_NAME_LENGTH h) text)) = MAX_NAME_LENGTH h) by (unfold padded; rewrite length_resize; lia).
  assert (F2 : fits b1 (r * INODE_SIZE h + INODE_BYTES h) (Z.of_nat (length (padded (MAX_NAME_LENGTH h) text)))) by (rewrite Lp; repeat split; lia).
  set (b2 := patch b1 (r * INODE_SIZE h + INODE_BYTES h) (padded (MAX_NAME_LENGTH h) text)).
  assert (L2 : length b2 = length b1) by (by apply patch_length).
  assert (Etake : take (Z.to_nat ZONE_SIZE) (patch (b1 ++ text ++ 0 :: tail) (r * INODE_SIZE h + INODE_BYTES h)
                    (padded (MAX_NAME_LENGTH h) text)) = b2).
  { apply list_eq. intros i. assert (F3 : fits (b1 ++ text ++ 0 :: tail) (r * INODE_SIZE h + INODE_BYTES h)
      (Z.of_nat (length (padded (MAX_NAME_LENGTH h) text)))) by (destruct F2 as (? & ? & ?); repeat split; rewrite ?length_app; lia).
    destruct (decide (i < Z.to_nat ZONE_SIZE)%nat).
    - rewrite lookup_take_lt by done. unfold b2. rewrite !lookup_patch by done. case_decide; [done|]. by rewrite lookup_app_l by lia.
    - rewrite lookup_take_ge by lia. symmetry. apply lookup_ge_None_2. lia. }
  rewrite Etake. destruct (writeZone_writes f v b2 Hd Hvd) as (f' & -> & Hw); [by rewrite L2, L1|].
  apply wrote_touched in Hw as [Ht Hb]. specialize (Hb Hvd). exists f'. split; [done|]. split.
  { eapply touched_weaken; [done|]. intros c ->%list_elem_of_singleton. by eapply list_elem_of_lookup_2. }
  unfold dir_slots. rewrite (touched_header _ _ _ Ht). fold h.
  assert (Es : slots h b2 = <[Z.to_nat r := entry h (slot h b r) src text]> (slots h b)).
  { unfold b2, b1. rewrite slots_patch by (fold b1; unfold ZONE_SIZE, BLOCK_SIZE in *; lia).
    assert (E0 := slots_patch h b r 0 (le 2 src)). rewrite Z.add_0_r in E0.
    assert (Eslot : slot h (patch b (r * INODE_SIZE h) (le 2 src)) r = patch (slot h b r) 0 (le 2 src)).
    { unfold slot. assert (E := sub_patch_sub b (r * INODE_SIZE h) (INODE_SIZE h) 0 (le 2 src)). rewrite Z.add_0_r in E.
      apply E; [|lia|rewrite le_length; simpl; lia]. apply slot_fits; [done|lia]. }
    rewrite Eslot, E0; [|done|lia|lia|rewrite le_length; simpl; lia]. by rewrite list_insert_insert_eq. }
  assert (Hold' : old = slot h b r).
  { pose proof (dir_slots_lookup f zs q r v Hv Hq0 Hr0) as E. fold h in E. rewrite <- Hkq in E. unfold b. congruence. }
  replace (Z.to_nat k) with (Z.to_nat q * Z.to_nat (per_block h) + Z.to_nat r)%nat by nia.
  rewrite <- (Zone.mjoin_insert _ _ _ _ (slots h b)).
  2: { apply Forall_fmap, Forall_forall. intros ? _. apply slots_length. }
  2: { by rewrite list_lookup_fmap, Hv. }
  2: { lia. }
  f_equal. rewrite Hold', <- Es. apply list_eq. intros i. rewrite list_lookup_insert, !list_lookup_fmap, length_fmap.
  case_decide as Hi.
  - destruct Hi as [<- _]. rewrite Hv. simpl. by rewrite Hb.
  - destruct (zs !! i) as [w|] eqn:Hwi; [|done]. simpl. do 2 f_equal.
    apply (touched_others _ _ _ Ht); [apply Hin; by eapply list_elem_of_lookup_2|].
    intros ->%list_elem_of_singleton. apply Hi. split; [by eapply NoDup_lookup|by eapply lookup_lt_Some].
Qed.

(** A directory: its zones are its own, marked as used, and hold its size. *)
Record dir_ok (f : fs D) (ino : MinixFSInode) (zs : list Z) : Prop := {
  dr_rep : Zone.rep (header f) (i_zones_ ino) zs;
  dr_used z : z ∈ owned ino zs → data_zone f z ∧ zused f z = true;
  dr_distinct : NoDup (owned ino zs);
  dr_size : ∃ m, i_size_ ino = m * INODE_SIZE (header f) ∧ 0 <= m <= Z.of_nat (length zs) * per_block (header f);
}.

Lemma dir_on_disc f ino zs z : fs_ok f → dir_ok f ino zs → z ∈ zs → on_disc f z.
Proof. intros Hok Hd Hz. apply data_zone_on_disc; [done|]. apply (dr_used _ _ _ Hd), elem_of_app. by left. Qed.

Lemma dir_distinct f ino zs : dir_ok f ino zs → NoDup zs.
Proof. intros [_ _ Hn _]. by apply NoDup_app in Hn as [? _]. Qed.

(** The size after an entry was stored at slot [k]. *)
Definition sized (h : MinixFSSuperblock) (dest k : Z) (ino : MinixFSInode) : MinixFSInode :=
  if (dest =? 0) && (i_size_ ino <? k * INODE_SIZE h + INODE_SIZE h) then set_size (i_size_ ino + INODE_SIZE h) ino else ino.

Lemma sized_same h dest k ino : i_zones_ (sized h dest k ino) = i_zones_ ino ∧ i_type_ (sized h dest k ino) = i_type_ ino ∧
  i_nlink_ (sized h dest k ino) = i_nlink_ ino ∧ i_num_ (sized h dest k ino) = i_num_ ino.
Proof. unfold sized. by destruct (_ && _). Qed.

Lemma stored_ok f ino zs k old dest src text tail f0 ino0 zs0 : fs_ok f → dir_ok f ino zs →
  framed f0 ino0 zs0 f ino zs → 0 <= k → dir_slots f zs !! Z.to_nat k = Some old → 0 <= src < 2 ^ 16 → name_ok text →
  ∃ f', (f' ← put_entry f (i_zones_ ino) (k * INODE_SIZE (header f)) src (text ++ 0 :: tail);
         Val (f', if (dest =? 0) && (i_size_ ino <? u32 (u32 (k * INODE_SIZE (header f)) + INODE_SIZE (header f)))
                  then set_size (u32 (i_size_ ino + INODE_SIZE (header f))) ino else ino)) = Val (f', sized (header f) dest k ino) ∧
    fs_ok f' ∧ dir_ok f' (sized (header f) dest k ino) zs ∧ framed f0 ino0 zs0 f' (sized (header f) dest k ino) zs ∧
    dir_slots f' zs = <[Z.to_nat k := entry (header f) old src text]> (dir_slots f zs).
Proof.
  intros Hok Hdir Hfr Hk Hold Hsrc Hname. pose proof Hdir as [Hr Hused Hnd (m & Hm & Hml)].
  destruct (put_entry_puts f (i_zones_ ino) zs k old src text tail) as (f' & -> & Ht & Hs);
    [apply Hok|done|intros v; by eapply dir_on_disc|by eapply dir_distinct|done..|].
  cbn [mbind res_bind]. exists f'. pose proof (layout_facts (header f)) as (HS & _ & _ & HP & HP0 & _).
  pose proof (rep_small _ _ _ Hr) as Hsmall. apply lookup_lt_Some in Hold. rewrite dir_slots_length in Hold.
  assert (Hroom : k * INODE_SIZE (header f) + INODE_SIZE (header f) <= Z.of_nat (length zs) * ZONE_SIZE)
    by (unfold ZONE_SIZE, BLOCK_SIZE in *; nia).
  assert (Hsz : 0 <= i_size_ ino <= Z.of_nat (length zs) * ZONE_SIZE) by (unfold ZONE_SIZE, BLOCK_SIZE in *; nia).
  rewrite !(wrap_small 32 (k * _)) by nia. rewrite !(wrap_small 32) by lia.
  destruct (sized_same (header f) dest k ino) as (E1 & E2 & E3 & E4). pose proof (touched_header _ _ _ Ht) as Hh.
  assert (Eo : owned (sized (header f) dest k ino) zs = owned ino zs) by (unfold owned; by rewrite E1).
  split_and!; [done|by eapply touched_fs_ok|..|done].
  - split; rewrite ?Eo, ?E1, ?Hh; [done| |done|].
    + intros z Hz. pose proof (touched_zone _ _ _ z Ht) as [Hd ->]. rewrite Hd. auto.
    + unfold sized. destruct (Z.ltb_spec (i_size_ ino) (k * INODE_SIZE (header f) + INODE_SIZE (header f))), (dest =? 0); simpl;
        [exists (m + 1)|exists m..]; split; (lia || nia).
  - destruct Hfr as [F1 F2 F3 F4 F5 F6]. split; rewrite ?E2, ?E3, ?E4, ?Eo, ?Hh; try done.
    + rewrite <- F2. unfold num_bits. by rewrite (touched_storage _ _ _ Ht).
    + intros b Hb Hn. rewrite (touched_others _ _ _ Ht); [auto| |].
      * unfold on_disc, num_blocks in *. by rewrite F1.
      * intros Hz. apply Hn, elem_of_app. by left.
    + intros b Hd Hu Hn. destruct (F5 b Hd Hu Hn) as [? ?]. split; [done|]. by pose proof (touched_zone _ _ _ b Ht) as [_ ->].
Qed.

(** An entry is stored over the first slot with the number [dest]. *)
Lemma writeDentry_replaces f ino zs k old dest src text tail : fs_ok f → dir_ok f ino zs →
  find_slot dest (dir_slots f zs) = Some k → dir_slots f zs !! Z.to_nat k = Some old → 0 <= src < 2 ^ 16 → name_ok text →
  ∃ f', writeDentry f ino dest src (text ++ 0 :: tail) = Val (f', sized (header f) dest k ino) ∧
    fs_ok f' ∧ dir_ok f' (sized (header f) dest k ino) zs ∧ framed f ino zs f' (sized (header f) dest k ino) zs ∧
    dir_slots f' zs = <[Z.to_nat k := entry (header f) old src text]> (dir_slots f zs).
Proof.
  intros Hok Hdir Hk Hold Hsrc Hname. pose proof (layout_facts (header f)) as (HS & _).
  destruct (find_slot_Some _ _ _ Hk) as [Hk0 _]. unfold writeDentry.
  rewrite (findDentry_finds f ino zs); [|apply Hok|apply Hdir|intros z; by eapply dir_on_disc].
  rewrite Hk. cbn [position mbind res_bind]. rewrite (proj2 (Z.ltb_ge (k * _) 0)) by nia. cbn [andb mbind res_bind].
  by eapply stored_ok.
Qed.

Lemma took_slots f l f' zs : took f l f' → dir_slots f' zs = dir_slots f zs.
Proof.
  intros Ht. unfold dir_slots. rewrite (took_header _ _ _ Ht). f_equal. apply list_fmap_ext. intros i z _.
  f_equal. by eapply took_block.
Qed.

Lemma dir_slots_app f zs zs' : dir_slots f (zs ++ zs') = dir_slots f zs ++ dir_slots f zs'.
Proof. unfold dir_slots. by rewrite fmap_app, join_app. Qed.

(** A new entry of a directory without free slots goes to the first slot of a
    new zone; the other slots of the zone are what the block held before. *)
Lemma writeDentry_extends f ino zs src text tail : fs_ok f → dir_ok f ino zs →
  find_slot 0 (dir_slots f zs) = None → Z.of_nat (length zs) + 1 <= Zone.capacity (header f) → 4 <= free f →
  0 <= src < 2 ^ 16 → name_ok text →
  ∃ f' ino' v, writeDentry f ino 0 src (text ++ 0 :: tail) = Val (f', ino') ∧ data_zone f v ∧ zused f v = false ∧
    fs_ok f' ∧ dir_ok f' ino' (zs ++ [v]) ∧ framed f ino zs f' ino' (zs ++ [v]) ∧
    dir_slots f' (zs ++ [v]) = dir_slots f zs ++ <[0%nat := entry (header f) (slot (header f) (block f v) 0) src text]> (slots (header f) (block f v)).
Proof.
  intros Hok Hdir Hk Hcap Hfree Hsrc Hname. pose proof Hdir as [Hr Hused Hnd (m & Hm & Hml)].
  pose proof (layout_facts (header f)) as (HS & _ & _ & HP & HP0 & _).
  unfold writeDentry. rewrite (findDentry_finds f ino zs); [|apply Hok|done|intros z; by eapply dir_on_disc].
  rewrite Hk. cbn [position mbind res_bind]. change ((-1 <? 0) && (0 =? 0)) with true. cbv iota.
  destruct (allocateZone_takes f Hok ltac:(lia)) as (fa & v & -> & Hta). cbn [mbind res_bind].
  destruct (took_free _ _ _ Hta v ltac:(by left)) as [Hvd Hvu]. destruct (data_zone_on_disc _ _ Hok Hvd) as [_ Hvn].
  pose proof (took_header _ _ _ Hta) as Hha. pose proof (took_count _ _ _ Hta) as Hca. cbn [length] in Hca.
  unfold Zone.addZone.
  destruct (Zone.setZone_appends fa (i_zones_ ino) zs v) as (f1 & z1 & -> & Hr1 & ms & Htb & Hmeta & _);
    [apply Hta|by rewrite Hha|done|rewrite Hha; lia|lia|]. cbn [mbind res_bind]. rewrite Hha in Hr1.
  pose proof (took_trans _ _ _ _ _ Hta Htb) as Ht. pose proof (took_header _ _ _ Ht) as Hh. set (all := [v] ++ ms) in *.
  assert (Hp : zs ++ [v] ++ Zone.meta z1 ≡ₚ (zs ++ Zone.meta (i_zones_ ino)) ++ all).
  { rewrite Hmeta. unfold all. rewrite <- !(assoc_L (++)). f_equiv. apply Permutation_app_swap_app. }
  assert (Howned : owned (set_zones z1 ino) (zs ++ [v]) ≡ₚ owned ino zs ++ all)
    by (unfold owned; simpl; by rewrite <- (assoc_L (++))).
  assert (Hall : ∀ z, z ∈ owned (set_zones z1 ino) (zs ++ [v]) → data_zone f z ∧ (z ∈ owned ino zs ∨ z ∈ all)).
  { intros z Hz. rewrite Howned in Hz. apply elem_of_app in Hz as [Hz|Hz]; (split; [|by auto]).
    - by apply Hused.
    - by apply (took_free _ _ _ Ht). }
  assert (Hnd1 : NoDup (owned (set_zones z1 ino) (zs ++ [v]))).
  { rewrite Howned. apply NoDup_app. split_and!; [done| |apply Ht]. intros z Hz Hz'.
    apply Hused in Hz as [_ Hz]. apply (took_free _ _ _ Ht) in Hz' as [_ Hz']. congruence. }
  assert (Hdir1 : dir_ok f1 (set_zones z1 ino) (zs ++ [v])).
  { split; [by rewrite Hh| |done|].
    - intros z Hz. destruct (Hall z Hz) as [Hd Hor]. split; [by apply (took_data_zone _ _ _ _ Ht)|].
      rewrite (took_used _ _ _ Ht) by done. destruct Hor as [Hz'|Hz'].
      + apply Hused in Hz' as [_ ->]. apply orb_true_r.
      + by rewrite bool_decide_true.
    - exists m. rewrite Hh, length_app. simpl. split; [done|nia]. }
  assert (Hfr : framed f ino zs f1 (set_zones z1 ino) (zs ++ [v])).
  { split; [done|apply Ht|done| | |].
    - intros b _ _. by eapply took_block.
    - intros b Hd Hu Hn. rewrite Howned, (took_used _ _ _ Ht), Hu, orb_true_r by done. split; [|done].
      intros [?|Hb]%elem_of_app; [done|]. apply (took_free _ _ _ Ht) in Hb as [_ ?]. congruence.
    - intros b Hb. rewrite Howned. apply elem_of_app. by left. }
  set (k := Z.of_nat (length zs) * per_block (header f)).
  assert (Hslot : dir_slots f1 (zs ++ [v]) !! Z.to_nat k = Some (slot (header f) (block f v) 0)).
  { pose proof (dir_slots_lookup f1 (zs ++ [v]) (Z.of_nat (length zs)) 0 v) as E. rewrite Hh, Z.add_0_r in E. fold k in E.
    rewrite E, (took_block _ _ _ _ Ht); [done| |lia|lia]. rewrite Nat2Z.id. by apply list_lookup_middle. }
  assert (Hpos : s32 ((Zone.num_zones_ z1 - 1) * ZONE_SIZE) = k * INODE_SIZE (header f1)).
  { pose proof (rep_small _ _ _ Hr1) as Hsmall. rewrite (Zone.rep_num _ _ _ Hr1), Hh.
    rewrite length_app in *. simpl in Hsmall |- *. unfold k. rewrite signed_small by (unfold ZONE_SIZE in *; lia).
    unfold ZONE_SIZE, BLOCK_SIZE in *. nia. }
  unfold Zone.getNumZones. rewrite Hpos.
  destruct (stored_ok f1 (set_zones z1 ino) (zs ++ [v]) k (slot (header f) (block f v) 0) 0 src text tail f ino zs)
    as (f' & E & Hok' & Hdir' & Hfr' & Hs); [apply Ht|done|done|unfold k; nia|done..|].
  rewrite Hh in E, Hdir', Hfr', Hs. rewrite Hh. cbn [andb Z.eqb] in E |- *.
  exists f', (sized (header f) 0 k (set_zones z1 ino)), v. split_and!; [exact E|done..|].
  rewrite Hs, dir_slots_app, (took_slots _ _ _ _ Ht).
  assert (Ev : dir_slots f1 [v] = slots (header f) (block f v)).
  { unfold dir_slots. simpl. rewrite (took_block _ _ _ _ Ht), Hh. apply app_nil_r. }
  rewrite Ev. rewrite insert_app_r_alt by (rewrite dir_slots_length; unfold k; nia).
  do 2 f_equal. rewrite dir_slots_length. unfold k. nia.
Qed.
End dirs.

(** ** Directories as bags of entries *)

Section entries.
Context (h : MinixFSSuperblock).

(** The entry a slot holds, if any. *)
Definition held (s : list Z) : list (Z * list Z) := if slot_num s =? 0 then [] else [(slot_num s, slot_name h s)].
Definition children (l : list (list Z)) : list (Z * list Z) := mjoin (held <$> l).

Lemma children_app l k : children (l ++ k) = children l ++ children k.
Proof. unfold children. by rewrite fmap_app, join_app. Qed.

Lemma children_insert l k old s : l !! k = Some old →
  ∃ rest, children l ≡ₚ held old ++ rest ∧ children (<[k := s]> l) ≡ₚ held s ++ rest.
Proof.
  intros Hk. pose proof (lookup_lt_Some _ _ _ Hk). exists (children (take k l) ++ children (drop (S k) l)).
  rewrite <- (take_drop_middle l k old Hk) at 1. rewrite insert_take_drop by done.
  rewrite !children_app. split.
  - change (children (old :: drop (S k) l)) with (held old ++ children (drop (S k) l)). by rewrite Permutation_app_swap_app.
  - change (children (s :: drop (S k) l)) with (held s ++ children (drop (S k) l)). by rewrite Permutation_app_swap_app.
Qed.

Lemma until_nul_resize n : ∀ text, name_ok text → until_nul (resize n 0 text) = take n text.
Proof.
  induction n as [|n IH]; intros [|c text] Hname; simpl; try done.
  apply Forall_cons in Hname as [[_ Hc] Ht]. rewrite (proj2 (Z.eqb_neq c 0)) by done. by rewrite IH.
Qed.

(** What [writeDentry] stores is the number and the name, cut off. *)
Lemma held_entry old src text : Z.of_nat (length old) = INODE_SIZE h → 0 <= src < 2 ^ 16 → name_ok text →
  held (entry h old src text) = if src =? 0 then [] else [(src, take (Z.to_nat (MAX_NAME_LENGTH h)) text)].
Proof.
  intros Hold Hsrc Hname. pose proof (layout_facts h) as (HS & HB & HN & _ & _ & HM).
  assert (F1 : fits old 0 (Z.of_nat (length (le 2 src)))) by (rewrite le_length; repeat split; simpl; lia).
  assert (Lp : Z.of_nat (length (padded (MAX_NAME_LENGTH h) text)) = MAX_NAME_LENGTH h) by (unfold padded; rewrite length_resize; lia).
  assert (F2 : fits (patch old 0 (le 2 src)) (INODE_BYTES h) (Z.of_nat (length (padded (MAX_NAME_LENGTH h) text))))
    by (rewrite Lp; repeat split; rewrite ?(patch_length _ _ _ F1); lia).
  assert (En : slot_num (entry h old src text) = src).
  { unfold slot_num, word_at, entry. rewrite (sub_patch_other _ (INODE_BYTES h)) by (done || simpl; lia).
    change (Z.of_nat 2) with (Z.of_nat (length (le 2 src))). rewrite sub_patch_same by done. by apply unle_le. }
  unfold held. rewrite En. destruct (src =? 0); [done|]. do 2 f_equal.
  pose proof (sub_patch_same _ _ _ F2) as E2. rewrite Lp in E2. unfold slot_name, entry. rewrite E2. by apply until_nul_resize.
Qed.
End entries.

Section bags.
Context {D : Type} `{BDDriverLaws D}.
Implicit Types (f : fs D) (ino : MinixFSInode).

Definition dir_children (f : fs D) (zs : list Z) : list (Z * list Z) := children (header f) (dir_slots f zs).

Lemma slot_length f zs k s : fs_ok f → (∀ z, z ∈ zs → on_disc f z) → dir_slots f zs !! k = Some s →
  Z.of_nat (length s) = INODE_SIZE (header f).
Proof.
  intros Hok Hin Hk. unfold dir_slots in Hk. apply join_lookup_Some in Hk as (j & l & i & Hj & Hi & _).
  rewrite list_lookup_fmap in Hj. destruct (zs !! j) as [z|] eqn:Hz; [|done]. injection Hj as <-.
  unfold slots in Hi. rewrite list_lookup_fmap in Hi. destruct (seqZ _ _ !! i) as [q|] eqn:Hq; [|done]. injection Hi as <-.
  apply lookup_seqZ in Hq as [-> Hi]. apply sub_length, slot_fits; [|lia].
  apply block_length; [apply Hok|]. apply Hin. by eapply list_elem_of_lookup_2.
Qed.

Lemma held_some n l h : n ≠ 0 → (∃ nm, (n, nm) ∈ children h l) → is_Some (find_slot n l).
Proof.
  intros Hn [nm Hin]. destruct (find_slot n l) eqn:E; [eauto|]. exfalso.
  unfold children in Hin. apply list_elem_of_join in Hin as (x & Hx & (s & -> & Hs)%list_elem_of_fmap).
  unfold held in Hx. destruct (slot_num s =? 0); [by apply not_elem_of_nil in Hx|]. apply list_elem_of_singleton in Hx.
  injection Hx as Hx _. by apply (find_slot_None _ _ _ E Hs).
Qed.

Lemma some_held n l h k : n ≠ 0 → find_slot n l = Some k → ∃ nm, (n, nm) ∈ children h l.
Proof.
  intros Hn (_ & s & Hs & <- & _)%find_slot_Some. exists (slot_name h s). unfold children.
  apply list_elem_of_join. exists (held h s). split; [|apply list_elem_of_fmap_2; by eapply list_elem_of_lookup_2].
  unfold held. rewrite (proj2 (Z.eqb_neq _ _) Hn). by left.
Qed.

(** An entry that [writeDentry] adds to a directory joins the entries that were
    there, with the name cut off at the version's limit; nothing but the
    directory's own zones changes.  When the directory had no free slot it gets
    a new zone, and whatever the block held in the other slots of that zone
    become entries too: the zone is not cleared. *)
Lemma directory_gains f ino zs src text tail : fs_ok f → dir_ok f ino zs → name_ok text → 0 < src < 2 ^ 16 →
  Z.of_nat (length zs) + 1 <= Zone.capacity (header f) → 4 <= free f →
  ∃ f' ino' zs' stale, writeDentry f ino 0 src (text ++ 0 :: tail) = Val (f', ino') ∧
    fs_ok f' ∧ dir_ok f' ino' zs' ∧ framed f ino zs f' ino' zs' ∧
    dir_children f' zs' ≡ₚ (src, take (Z.to_nat (MAX_NAME_LENGTH (header f))) text) :: dir_children f zs ++ stale ∧
    (zs' = zs ∧ stale = [] ∨
     ∃ v, zs' = zs ++ [v] ∧ data_zone f v ∧ zused f v = false ∧
       stale = children (header f) (drop 1 (slots (header f) (block f v)))).
Proof.
  intros Hok Hdir Hname Hsrc Hcap Hfree. set (h := header f).
  assert (Hin : ∀ z, z ∈ zs → on_disc f z) by (intros z; by eapply dir_on_disc).
  destruct (find_slot 0 (dir_slots f zs)) as [k|] eqn:Hk.
  - destruct (find_slot_Some _ _ _ Hk) as (Hk0 & old & Hold & Hz & _).
    destruct (writeDentry_replaces f ino zs k old 0 src text tail) as (f' & E & Hok' & Hdir' & Hfr & Hs); [done..|lia|done|].
    exists f', (sized h 0 k ino), zs, []. split_and!; [done..| |by left]. rewrite app_nil_r.
    unfold dir_children. rewrite (fr_header _ _ _ _ _ _ Hfr), Hs. fold h.
    destruct (children_insert h _ _ old (entry h old src text) Hold) as (rest & -> & ->).
    rewrite held_entry by (done || lia || by eapply slot_length). rewrite (proj2 (Z.eqb_neq src 0)) by lia.
    unfold held. by rewrite Hz.
  - destruct (writeDentry_extends f ino zs src text tail) as (f' & ino' & v & E & Hvd & Hvu & Hok' & Hdir' & Hfr & Hs); [done..|lia|done|].
    exists f', ino', (zs ++ [v]), (children h (drop 1 (slots h (block f v)))).
    split_and!; [done..| |right; by exists v].
    unfold dir_children. rewrite (fr_header _ _ _ _ _ _ Hfr), Hs. fold h. rewrite children_app.
    destruct (data_zone_on_disc _ _ Hok Hvd) as [Hvo _]. pose proof (block_length f v (fo_disc _ Hok) Hvo) as Hbl.
    pose proof (layout_facts h) as (_ & _ & _ & _ & HP0 & _).
    pose proof (slots_lookup h (block f v) 0 ltac:(lia)) as H0s. change (Z.to_nat 0) with 0%nat in H0s.
    rewrite <- (take_drop_middle _ _ _ H0s) at 1. simpl.
    change (children h (entry h (slot h (block f v) 0) src text :: drop 1 (slots h (block f v))))
      with (held h (entry h (slot h (block f v) 0) src text) ++ children h (drop 1 (slots h (block f v)))).
    rewrite held_entry; [|apply sub_length, slot_fits; [done|lia]|lia|done].
    rewrite (proj2 (Z.eqb_neq src 0)) by lia. rewrite Permutation_app_swap_app. done.
Qed.

(** Erasing an entry takes out the first with the number. *)
Lemma writeDentry_erases f ino zs dest : fs_ok f → dir_ok f ino zs → dest ≠ 0 →
  (∃ nm, (dest, nm) ∈ dir_children f zs) →
  ∃ f' nm, writeDentry f ino dest 0 [0] = Val (f', ino) ∧ fs_ok f' ∧ dir_ok f' ino zs ∧ framed f ino zs f' ino zs ∧
    dir_children f zs ≡ₚ (dest, nm) :: dir_children f' zs.
Proof.
  intros Hok Hdir Hdest Hin. set (h := header f).
  destruct (held_some dest (dir_slots f zs) h Hdest Hin) as [k Hk].
  destruct (find_slot_Some _ _ _ Hk) as (Hk0 & old & Hold & Hz & _).
  destruct (writeDentry_replaces f ino zs k old dest 0 [] []) as (f' & E & Hok' & Hdir' & Hfr & Hs); [done..|by constructor|].
  assert (Es : sized h dest k ino = ino) by (unfold sized; by rewrite (proj2 (Z.eqb_neq dest 0))).
  fold h in E, Hdir', Hfr, Hs. rewrite Es in E, Hdir', Hfr.
  exists f', (slot_name h old). split_and!; [done..|].
  unfold dir_children. rewrite (fr_header _ _ _ _ _ _ Hfr), Hs. fold h.
  destruct (children_insert h _ _ old (entry h old 0 []) Hold) as (rest & -> & ->).
  assert (Hlen : Z.of_nat (length old) = INODE_SIZE h) by (eapply slot_length; [done| |done]; intros z; by eapply dir_on_disc).
  rewrite held_entry by (done || lia || by constructor). unfold held. rewrite Hz, (proj2 (Z.eqb_neq dest 0)) by done. reflexivity.
Qed.

(** A number the directory does not hold: the position -1 is taken for one far
    behind the directory's zones, and the assertion of [getZone] fails. *)
Lemma writeDentry_missing f ino zs dest src name : fs_ok f → dir_ok f ino zs → dest ≠ 0 →
  find_slot dest (dir_slots f zs) = None → writeDentry f ino dest src name = Err EAssert.
Proof.
  intros Hok Hdir Hdest Hk. pose proof (dr_rep _ _ _ Hdir) as Hr. unfold writeDentry.
  rewrite (findDentry_finds f ino zs); [|apply Hok|done|intros z; by eapply dir_on_disc]. rewrite Hk.
  cbn [position mbind res_bind]. rewrite (proj2 (Z.eqb_neq dest 0)) by done. rewrite andb_false_r. cbn [mbind res_bind].
  unfold put_entry. change (u32 (-1) / ZONE_SIZE) with 4194303. unfold Zone.getZone.
  rewrite (Zone.rep_num _ _ _ Hr). pose proof (rep_small _ _ _ Hr) as Hs.
  assert ((4194303 <? Z.of_nat (length zs)) = false) as -> by (apply Z.ltb_ge; unfold ZONE_SIZE in Hs; lia). reflexivity.
Qed.
End bags.

(** ** The inode bitmap *)

(** Operations on the contents of the disc leave the inodes' bitmap alone. *)
Section bitmap.
Context {D : Type} `{BDDriver D}.
Implicit Types (f : fs D) (ino : MinixFSInode).

Definition inodes_of (f : fs D) : Bitmap.Bitmap := inode_bitmap_ (storage_manager_ f).

Ltac run_inv H := repeat (progress (res_inv H;
  try match type of H with
  | (let '(_, _) := ?r in _) = Val _ => destruct r
  | match ?o with _ => _ end = Val _ => destruct o eqn:?
  | Err _ = Val _ => discriminate H
  end)).

Lemma readZone_inodes f z b f' b' : readZone f z b = Val (f', b') → inodes_of f' = inodes_of f.
Proof. unfold readZone, readBlocks. intros E. by run_inv E. Qed.
Lemma writeZone_inodes f z b f' : writeZone f z b = Val f' → inodes_of f' = inodes_of f.
Proof. unfold writeZone, writeBlocks. intros E. by run_inv E. Qed.
Lemma allocateZone_inodes f f' z : allocateZone f = Val (f', z) → inodes_of f' = inodes_of f.
Proof. unfold allocateZone, allocZone. intros E. run_inv E. by run_inv Hr. Qed.

Lemma need_indirect_inodes f z f' z' : Zone.need_indirect f z = Val (f', z') → inodes_of f' = inodes_of f.
Proof. unfold Zone.need_indirect. intros E. run_inv E; [done|]. by eapply allocateZone_inodes. Qed.
Lemma need_double_inodes f z f' z' : Zone.need_double f z = Val (f', z') → inodes_of f' = inodes_of f.
Proof. unfold Zone.need_double. intros E. run_inv E; [done|]. by eapply allocateZone_inodes. Qed.
Lemma need_table_inodes f z k f' z' : Zone.need_table f z k = Val (f', z') → inodes_of f' = inodes_of f.
Proof. unfold Zone.need_table. intros E. run_inv E; [done|]. by eapply allocateZone_inodes. Qed.

Lemma setZone_inodes f z index zone f' z' : Zone.setZone f z index zone = Val (f', z') → inodes_of f' = inodes_of f.
Proof.
  unfold Zone.setZone. intros E. destruct (index <? 7); [by run_inv E|]. destruct (index - 7 <? _); run_inv E.
  - by eapply need_indirect_inodes.
  - transitivity (inodes_of f0); [by eapply need_table_inodes|by eapply need_double_inodes].
Qed.

Lemma find_loop_inodes n : ∀ f z zone i_num f' k, find_loop n f z zone i_num = Val (f', k) → inodes_of f' = inodes_of f.
Proof.
  induction n as [|n IH]; intros f z zone i_num f' k; cbn [find_loop]; intros E; run_inv E; [done| |].
  - by eapply readZone_inodes.
  - etransitivity; [by eapply IH|by eapply readZone_inodes].
Qed.

Lemma writeDentry_inodes f ino dest src name f' ino' :
  writeDentry f ino dest src name = Val (f', ino') → inodes_of f' = inodes_of f.
Proof.
  unfold writeDentry, findDentry, put_entry. intros E. run_inv E. run_inv Hr0.
  all: repeat match goal with
  | H : find_loop _ _ _ _ _ = Val _ |- _ => apply find_loop_inodes in H
  | H : allocateZone _ = Val _ |- _ => apply allocateZone_inodes in H
  | H : Zone.addZone _ _ _ = Val _ |- _ => apply setZone_inodes in H
  end.
  all: run_inv Hr1.
  all: match goal with W : writeZone _ _ _ = Val _, R : readZone _ _ _ = Val _ |- _ =>
    apply writeZone_inodes in W; apply readZone_inodes in R end; congruence.
Qed.
End bitmap.
End Dir.
