(* ===== verification/Descriptors.v ===== *)
(** * Descriptors: the files and pipes of a process

    Models the descriptors and pipes of [common/source/kernel/UserProcess.cpp]
    (with what its copy constructor, used by fork, and its destructor do to
    them) and the system calls of [common/source/kernel/Syscall.cpp] that work
    on them.  A process's [ustl::map]s are sorted association lists, because the
    code walks them in order.  Pipes are [RingBuffer] objects that processes
    share after a fork; [rings] holds the live ones by address.  Each operation
    runs under the process's [fds_lock_] or [pipes_lock_] and is one step, so a
    history is one of calls that do not overlap in time.  The locks of two
    processes differ, and their calls on one pipe can overlap: for one that writes
    and one that reads, [ringbuffer_spsc] of [Queues] covers every interleaving
    of the accesses to the buffer; for two that write, or two that read, nothing
    is promised, and [two_producers_lose] shows that bytes get lost.  What lies
    below, the virtual file system and the terminal, is the class [IoOps]. *)
From S2P Require Import Prelude Queues LibcString Kstring Buffers.
Import Libc RingBuffer.

(** ** ustl::map *)

Module UMap.
Section umap.
Context {K V : Type} `{EqDecision K} (lt : K → K → bool).
Implicit Types m : list (K * V).

Fixpoint find m (k : K) : option V :=
  match m with
  | [] => None
  | (k', v) :: m => if decide (k' = k) then Some v else find m k
  end.

(** [m[k] = v] *)
Fixpoint set m (k : K) (v : V) : list (K * V) :=
  match m with
  | [] => [(k, v)]
  | (k', v') :: m =>
      if decide (k' = k) then (k, v) :: m
      else if lt k k' then (k, v) :: (k', v') :: m
      else (k', v') :: set m k v
  end.

Fixpoint erase m (k : K) : list (K * V) :=
  match m with
  | [] => []
  | (k', v') :: m => if decide (k' = k) then m else (k', v') :: erase m k
  end.

Lemma find_elem m k v : find m k = Some v → (k, v) ∈ m.
Proof.
  induction m as [|[k' v'] m IH]; cbn [find]; [done|].
  case_decide; [intros [= <-]; subst; by left|right; by apply IH].
Qed.

Lemma find_None m k : find m k = None ↔ k ∉ m.*1.
Proof.
  induction m as [|[k' v'] m IH]; cbn [find fmap list_fmap fst]; [split; [intros _; apply not_elem_of_nil|done]|].
  rewrite not_elem_of_cons, <- IH. case_decide; naive_solver.
Qed.

Lemma elem_find m k v : NoDup m.*1 → (k, v) ∈ m → find m k = Some v.
Proof.
  induction m as [|[k' v'] m IH]; cbn [find fmap list_fmap fst]; [by intros _ ?%not_elem_of_nil|].
  intros [Hk Hn]%NoDup_cons [E|Hin]%elem_of_cons.
  - injection E as -> ->. by rewrite decide_True.
  - rewrite decide_False; [by apply IH|]. intros ->. apply Hk.
    apply list_elem_of_fmap. by exists (k, v).
Qed.

Lemma set_fresh m k v : k ∉ m.*1 → set m k v ≡ₚ (k, v) :: m.
Proof.
  induction m as [|[k' v'] m IH]; cbn [set fmap list_fmap fst]; [done|].
  intros [Hk Hm]%not_elem_of_cons. rewrite decide_False by congruence.
  destruct (lt k k'); [done|]. rewrite (IH Hm). apply Permutation_swap.
Qed.

Lemma set_lookup m k v k' : find (set m k v) k' = if decide (k = k') then Some v else find m k'.
Proof.
  induction m as [|[j w] m IH]; cbn [set find]; [done|].
  destruct (decide (j = k)) as [->|]; cbn [find]; [by destruct (decide (k = k'))|].
  destruct (lt k j); cbn [find]; [done|]. rewrite IH.
  destruct (decide (j = k')), (decide (k = k')); congruence.
Qed.

Lemma erase_elem m k v : find m k = Some v → m ≡ₚ (k, v) :: erase m k.
Proof.
  induction m as [|[j w] m IH]; cbn [find erase]; [done|].
  destruct (decide (j = k)) as [->|]; [by intros [= ->]|].
  intros E%IH. rewrite E at 1. apply Permutation_swap.
Qed.

End umap.
End UMap.

(** ** Below the descriptors *)

(** The functions of [VfsSyscall] the descriptors use, by the number of the
    global descriptor, and the terminal: [mem] is the process's memory, the
    number behind it the address of the buffer.  A result is an [int32], or
    [size_t] for [term_readLine].  [vfs_dup] makes a descriptor for a copy of the
    [File] of another one. *)
Class IoOps (V : Type) := {
  vfs_open : V → list Z → Z → res (V * Z);
  vfs_close : V → Z → res (V * Z);
  vfs_read : V → Z → mem → Z → Z → res (V * mem * Z);
  vfs_write : V → Z → mem → Z → Z → res (V * Z);
  vfs_dup : V → Z → res (V * Z);
  term_readLine : V → mem → Z → Z → res (V * mem * Z);
  term_print : V → mem → Z → Z → res V;
}.

Module Descriptors.

Definition PIPE_BUF_SIZE : Z := 1024.
Definition PIPE_FD_CLOSED : Z := -3.
Definition USER_BREAK : Z := 0x0000800000000000.
Definition fd_stdin : Z := 0.
Definition fd_stdout : Z := 1.
Definition O_RDONLY : Z := 1.

(** The keys of [pipes_] and their order. *)
Definition ends : Set := Z * Z.
Definition ends_lt (a b : ends) : bool := (a.1 <? b.1) || ((a.1 =? b.1) && (a.2 <? b.2)).

Record UserProcess : Set := mkProc {
  fd_ : Z;
  filename_ : list Z;
  fds_ : list (Z * Z);
  pipes_ : list (ends * Z);
  fd_num_ : Z;
}.

Definition set_fds (l : list (Z * Z)) (p : UserProcess) : UserProcess :=
  mkProc (fd_ p) (filename_ p) l (pipes_ p) (fd_num_ p).
Definition set_pipes (l : list (ends * Z)) (p : UserProcess) : UserProcess :=
  mkProc (fd_ p) (filename_ p) (fds_ p) l (fd_num_ p).
Definition set_fd_num (n : Z) (p : UserProcess) : UserProcess :=
  mkProc (fd_ p) (filename_ p) (fds_ p) (pipes_ p) n.

Definition addLocalFD (p : UserProcess) (global_fd : Z) : UserProcess * Z :=
  let n := u64 (fd_num_ p + 1) in
  (set_fd_num n (set_fds (UMap.set Z.ltb (fds_ p) (s32 n) global_fd) p), n).

Definition getGlobalFD (p : UserProcess) (local_fd : Z) : Z :=
  match UMap.find (fds_ p) (s32 local_fd) with Some g => u32 g | None => u32 (-1) end.

Definition isPipe (p : UserProcess) (local_fd : Z) : bool :=
  existsb (λ e : ends * Z, (e.1.1 =? s32 local_fd) || (e.1.2 =? s32 local_fd)) (pipes_ p).

Section kernel.
Context {V : Type} `{IoOps V}.

(** [next_ring] is the address of the next pipe that is allocated. *)
Record kernel : Type := mkKernel {
  procs : gmap Z UserProcess;
  rings : gmap Z (RingBuffer Z);
  next_ring : Z;
  below : V;
}.
Implicit Types (k : kernel) (p : UserProcess) (m : mem).

Definition set_proc (pid : Z) (p : UserProcess) (k : kernel) : kernel :=
  mkKernel (<[pid := p]> (procs k)) (rings k) (next_ring k) (below k).
Definition set_rings (r : gmap Z (RingBuffer Z)) (k : kernel) : kernel :=
  mkKernel (procs k) r (next_ring k) (below k).
Definition set_below (v : V) (k : kernel) : kernel := mkKernel (procs k) (rings k) (next_ring k) v.

Definition get_proc (k : kernel) (pid : Z) : res UserProcess :=
  match procs k !! pid with Some p => Val p | None => Err EUndef end.
Definition get_ring (g : gmap Z (RingBuffer Z)) (r : Z) : res (RingBuffer Z) :=
  match g !! r with Some rb => Val rb | None => Err EUndef end.

(** ** Pipes *)

(** [decProcCount], and [delete] when the counter is 0. *)
Definition release_ring (g : gmap Z (RingBuffer Z)) (r : Z) : res (gmap Z (RingBuffer Z)) :=
  rb ← get_ring g r;
  let rb := decProcCount rb in
  Val (if getProcCount rb =? 0 then delete r g else <[r := rb]> g).

Definition acquire_ring (g : gmap Z (RingBuffer Z)) (r : Z) : res (gmap Z (RingBuffer Z)) :=
  rb ← get_ring g r; Val (<[r := incProcCount rb]> g).

(** The loop of [removeLocalFD].  The entry it visits is a copy, so marking one
    end as closed has no effect; only an entry whose other end is marked is
    released. *)
Fixpoint find_closed (l : list (ends * Z)) (fd : Z) : option (ends * Z) :=
  match l with
  | [] => None
  | e :: l =>
      if (e.1.1 =? fd) && (e.1.2 =? PIPE_FD_CLOSED) then Some e
      else if (e.1.1 =? fd) && negb (e.1.2 =? PIPE_FD_CLOSED) then None
      else if (e.1.1 =? PIPE_FD_CLOSED) && (e.1.2 =? fd) then Some e
      else if negb (e.1.1 =? PIPE_FD_CLOSED) && (e.1.2 =? fd) then None
      else find_closed l fd
  end.

Definition removeLocalFD (k : kernel) (pid : Z) (fd : Z) : res kernel :=
  p ← get_proc k pid;
  let fd := s32 fd in
  let p := set_fds (UMap.erase (fds_ p) fd) p in
  match find_closed (pipes_ p) fd with
  | None => Val (set_proc pid p k)
  | Some (e, r) =>
      g ← release_ring (rings k) r;
      Val (set_rings g (set_proc pid (set_pipes (UMap.erase (pipes_ p) e) p) k))
  end.

(** [garbage] is what the new pipe's buffer happens to contain.  [read] and
    [write] are addresses in the process's memory. *)
Definition openPipe (garbage : list Z) (k : kernel) (m : mem) (pid read write : Z) : res (kernel * mem * Z) :=
  p ← get_proc k pid;
  let r := u64 (fd_num_ p + 1) in
  m ← Kstring.store_le 4 m read (u32 r);
  let w := u64 (r + 1) in
  m ← Kstring.store_le 4 m write (u32 w);
  k0 ← Kstring.load_le 4 m read;
  k1 ← Kstring.load_le 4 m write;
  rb ← RingBuffer.new PIPE_BUF_SIZE garbage;
  let a := next_ring k in
  let p := set_pipes (UMap.set ends_lt (pipes_ p) (s32 k0, s32 k1) a) (set_fd_num w p) in
  Val (mkKernel (<[pid := p]> (procs k)) (<[a := incProcCount rb]> (rings k)) (a + 1) (below k), m, 0).

(** The first entry whose read end, or write end, is [fd]. *)
Fixpoint find_end (write : bool) (l : list (ends * Z)) (fd : Z) : option Z :=
  match l with
  | [] => None
  | e :: l => if (if write then e.1.2 else e.1.1) =? fd then Some e.2 else find_end write l fd
  end.

(** [character] bytes were moved; [n] are left. *)
Fixpoint read_loop (n : nat) (rb : RingBuffer Z) (m : mem) (buffer character : Z) : res (RingBuffer Z * mem * Z) :=
  match n with
  | O => Val (rb, m, character)
  | S n =>
      '(rb', c) ← RingBuffer.get rb;
      match c with
      | None => Val (rb, m, character)
      | Some c => m ← store m (buffer + character) c; read_loop n rb' m buffer (character + 1)
      end
  end.

Definition readFromPipe (k : kernel) (m : mem) (pid read_fd buffer count : Z) : res (kernel * mem * Z) :=
  p ← get_proc k pid;
  match find_end false (pipes_ p) (s32 read_fd) with
  | None => Val (k, m, u64 (-1))
  | Some r =>
      rb ← get_ring (rings k) r;
      '(rb, m, character) ← read_loop (Z.to_nat count) rb m buffer 0;
      Val (set_rings (<[r := rb]> (rings k)) k, m, character)
  end.

Fixpoint write_loop (n : nat) (rb : RingBuffer Z) (m : mem) (buffer character : Z) : res (RingBuffer Z * Z) :=
  match n with
  | O => Val (rb, character)
  | S n =>
      c ← load m (buffer + character);
      '(rb', b) ← RingBuffer.put rb c;
      if b : bool then write_loop n rb' m buffer (character + 1) else Val (rb, character)
  end.

Definition writeToPipe (k : kernel) (m : mem) (pid write_fd buffer count : Z) : res (kernel * Z) :=
  p ← get_proc k pid;
  match find_end true (pipes_ p) (s32 write_fd) with
  | None => Val (k, u64 (-1))
  | Some r =>
      rb ← get_ring (rings k) r;
      '(rb, character) ← write_loop (Z.to_nat count) rb m buffer 0;
      Val (set_rings (<[r := rb]> (rings k)) k, character)
  end.

(** ** Fork and exit *)

Fixpoint dup_fds (v : V) (l : list (Z * Z)) (new : list (Z * Z)) : res (V * list (Z * Z)) :=
  match l with
  | [] => Val (v, new)
  | (fd, g) :: l => '(v, g) ← vfs_dup v (u32 g); dup_fds v l (UMap.set Z.ltb new fd g)
  end.

Fixpoint share_pipes (g : gmap Z (RingBuffer Z)) (l new : list (ends * Z)) : res (gmap Z (RingBuffer Z) * list (ends * Z)) :=
  match l with
  | [] => Val (g, new)
  | (e, r) :: l => g ← acquire_ring g r; share_pipes g l (UMap.set ends_lt new e r)
  end.

(** What the copy constructor does to descriptors and pipes.  Its initialiser
    opens the program once more and the descriptor is forgotten. *)
Definition fork_copy (k : kernel) (pid new_pid : Z) : res kernel :=
  p ← get_proc k pid;
  '(v, _) ← vfs_open (below k) (filename_ p) O_RDONLY;
  '(v, fds) ← dup_fds v (fds_ p) [];
  '(g, pipes) ← share_pipes (rings k) (pipes_ p) [];
  '(v, g1) ← vfs_open v (filename_ p) O_RDONLY;
  let p' := mkProc (fd_ p) (filename_ p) (UMap.set Z.ltb fds (s32 (fd_ p)) g1) pipes (fd_num_ p) in
  Val (mkKernel (<[new_pid := p']> (procs k)) g (next_ring k) v).

(** The constructor's part: the program's file is descriptor 4. *)
Definition create_process (k : kernel) (pid : Z) (filename : list Z) : res kernel :=
  '(v, g) ← vfs_open (below k) filename O_RDONLY;
  let '(p, n) := addLocalFD (mkProc 0 filename [] [] 3) g in
  Val (set_below v (set_proc pid (mkProc (s32 n) filename (fds_ p) (pipes_ p) (fd_num_ p)) k)).

Fixpoint close_fds (p : UserProcess) (v : V) (l : list (Z * Z)) : res V :=
  match l with
  | [] => Val v
  | (fd, g) :: l =>
      _ ← kassert (negb (getGlobalFD p fd =? u32 (-1)));
      '(v, _) ← vfs_close v (u32 g);
      close_fds p v l
  end.

Fixpoint release_all (g : gmap Z (RingBuffer Z)) (l : list (ends * Z)) : res (gmap Z (RingBuffer Z)) :=
  match l with
  | [] => Val g
  | (_, r) :: l => g ← release_ring g r; release_all g l
  end.

(** The destructor's part for descriptors and pipes. *)
Definition exit_process (k : kernel) (pid : Z) : res kernel :=
  p ← get_proc k pid;
  v ← close_fds p (below k) (fds_ p);
  g ← release_all (rings k) (pipes_ p);
  Val (mkKernel (delete pid (procs k)) g (next_ring k) v).

(** ** System calls *)

Definition sys_write (k : kernel) (m : mem) (pid fd buffer size : Z) : res (kernel * Z) :=
  if (USER_BREAK <=? buffer) || (USER_BREAK <? u64 (buffer + size)) then Val (k, u32 (-1))
  else if fd =? fd_stdout then
    v ← term_print (below k) m buffer (s32 size);
    Val (set_below v k, size)
  else
    p ← get_proc k pid;
    if isPipe p fd then writeToPipe k m pid fd buffer size
    else
      let global_fd := getGlobalFD p fd in
      if global_fd =? u32 (-1) then Val (k, u64 (-1))
      else
        '(v, r) ← vfs_write (below k) global_fd m buffer (u32 size);
        Val (set_below v k, u64 r).

Definition sys_read (k : kernel) (m : mem) (pid fd buffer count : Z) : res (kernel * mem * Z) :=
  if (USER_BREAK <=? buffer) || (USER_BREAK <? u64 (buffer + count)) then Val (k, m, u32 (-1))
  else if fd =? fd_stdin then
    '(v, m, n) ← term_readLine (below k) m buffer count;
    Val (set_below v k, m, n)
  else
    p ← get_proc k pid;
    if isPipe p fd then readFromPipe k m pid fd buffer count
    else
      let global_fd := getGlobalFD p fd in
      if global_fd =? u32 (-1) then Val (k, m, u64 (-1))
      else
        '(v, m, r) ← vfs_read (below k) global_fd m buffer (u32 count);
        Val (set_below v k, m, u64 r).

Definition sys_close (k : kernel) (pid fd : Z) : res (kernel * Z) :=
  p ← get_proc k pid;
  let global_fd := getGlobalFD p fd in
  if isPipe p fd then k ← removeLocalFD k pid fd; Val (k, 0)
  else
    '(v, retval) ← (if global_fd =? u32 (-1) then Val (below k, -1) else vfs_close (below k) global_fd);
    let k := set_below v k in
    k ← (if negb (retval =? -1) then removeLocalFD k pid fd else Val k);
    Val (k, u64 retval).

(** [path] is the string at the address that was checked. *)
Definition sys_open (k : kernel) (pid address : Z) (path : list Z) (flags : Z) : res (kernel * Z) :=
  if USER_BREAK <=? address then Val (k, u32 (-1))
  else
    p ← get_proc k pid;
    '(v, fd) ← vfs_open (below k) path (u32 flags);
    let '(p, n) := addLocalFD p fd in
    Val (set_below v (set_proc pid p k), n).

Definition sys_pipe (garbage : list Z) (k : kernel) (m : mem) (pid read write : Z) : res (kernel * mem * Z) :=
  if (USER_BREAK <=? read) || (USER_BREAK <=? write) then Val (k, m, u64 (-1))
  else openPipe garbage k m pid read write.

End kernel.
Arguments kernel : clear implicits.

(** ** The counters of the pipes *)

Definition refcount (r : Z) (l : list Z) : Z := Z.of_nat (length (filter (λ x, x = r) l)).

(** [l] lists the holders of the pipes, one element for each entry. *)
Definition counted (g : gmap Z (RingBuffer Z)) (l : list Z) : Prop :=
  ∀ r, match g !! r with
       | Some rb => connected_proc_counter_ rb = refcount r l ∧ 0 < refcount r l
       | None => refcount r l = 0
       end.

(** A buffer over which [put] and [get] are safe, and its contents. *)
Definition pipe_ring (rb : RingBuffer Z) (l : list Z) : Prop :=
  buffer_size_ rb = PIPE_BUF_SIZE ∧ holds rb l.
Definition rings_ok (g : gmap Z (RingBuffer Z)) : Prop :=
  map_Forall (λ _ rb, ∃ l, pipe_ring rb l) g.

Lemma refcount_cons r x l : refcount r (x :: l) = (if decide (x = r) then 1 else 0) + refcount r l.
Proof. unfold refcount. rewrite filter_cons. case_decide; cbn [length]; lia. Qed.

Lemma refcount_range r l : 0 <= refcount r l <= Z.of_nat (length l).
Proof. unfold refcount. pose proof (length_filter (λ x, x = r) l). lia. Qed.

Lemma refcount_in r l : 0 < refcount r l ↔ r ∈ l.
Proof.
  induction l as [|x l IH]; [split; [unfold refcount; simpl; lia|by intros ?%not_elem_of_nil]|].
  rewrite refcount_cons, elem_of_cons, <- IH. pose proof (refcount_range r l).
  case_decide as E; [split; [by left|lia]|]. split; [right; lia|intros [->|?]; [done|lia]].
Qed.

Lemma refcount_perm r l l' : l ≡ₚ l' → refcount r l = refcount r l'.
Proof. intros E. unfold refcount. by rewrite E. Qed.

Lemma counted_perm g l l' : l ≡ₚ l' → counted g l → counted g l'.
Proof. intros E Hg r. specialize (Hg r). by rewrite !(refcount_perm r l' l) by done. Qed.

Lemma counted_held g l r : counted g l → r ∈ l → ∃ rb, g !! r = Some rb ∧ connected_proc_counter_ rb = refcount r l.
Proof.
  intros Hg Hr%refcount_in. specialize (Hg r). destruct (g !! r) as [rb|]; [|lia].
  exists rb. tauto.
Qed.

Lemma release_counted g r l : Z.of_nat (length (r :: l)) < 2 ^ 64 → counted g (r :: l) → rings_ok g →
  ∃ g', release_ring g r = Val g' ∧ counted g' l ∧ rings_ok g' ∧ ∀ a, is_Some (g' !! a) → is_Some (g !! a).
Proof.
  intros Hl Hg Hok. destruct (counted_held g (r :: l) r Hg) as (rb & Hr & Hc); [by left|].
  unfold release_ring, get_ring. rewrite Hr. cbn [mbind res_bind getProcCount decProcCount connected_proc_counter_].
  rewrite Hc, refcount_cons, decide_True by done. pose proof (refcount_range r l). cbn [length] in Hl.
  rewrite wrap_small by lia. replace (1 + refcount r l - 1) with (refcount r l) by lia.
  eexists. split; [done|]. destruct (Z.eqb_spec (refcount r l) 0) as [E|E].
  - split_and!; [|by apply map_Forall_delete|intros a; rewrite lookup_delete; case_decide; [intros [? [=]]|done]].
    intros a. specialize (Hg a). rewrite refcount_cons in Hg. rewrite lookup_delete.
    destruct (decide (r = a)) as [<-|]; [done|by rewrite Z.add_0_l in Hg].
  - split_and!; [|apply map_Forall_insert_2; [apply (Hok r rb Hr)|done]|intros a; rewrite lookup_insert; case_decide; [by subst|done]].
    intros a. specialize (Hg a). rewrite refcount_cons in Hg. rewrite lookup_insert.
    destruct (decide (r = a)) as [<-|]; [|by rewrite Z.add_0_l in Hg].
    cbn. rewrite Hc, refcount_cons, decide_True by done. rewrite wrap_small by lia. lia.
Qed.

Lemma acquire_counted g r l : Z.of_nat (length (r :: l)) < 2 ^ 64 → counted g l → r ∈ l → rings_ok g →
  ∃ g', acquire_ring g r = Val g' ∧ counted g' (r :: l) ∧ rings_ok g' ∧ ∀ a, is_Some (g' !! a) → is_Some (g !! a).
Proof.
  intros Hl Hg Hin Hok. destruct (counted_held g l r Hg Hin) as (rb & Hr & Hc).
  unfold acquire_ring, get_ring. rewrite Hr. cbn [mbind res_bind].
  eexists. split; [done|]. split_and!; [|apply map_Forall_insert_2; [apply (Hok r rb Hr)|done]|
    intros a; rewrite lookup_insert; case_decide; [by subst|done]].
  intros a. specialize (Hg a). rewrite refcount_cons, lookup_insert.
  pose proof (refcount_range r l). cbn [length] in Hl. destruct (decide (r = a)) as [<-|]; [|by rewrite Z.add_0_l; destruct (g !! a)].
  rewrite Hr in Hg. cbn. rewrite Hc, wrap_small by lia. lia.
Qed.

Lemma release_all_counted ps : ∀ g l, Z.of_nat (length (ps.*2 ++ l)) < 2 ^ 64 → counted g (ps.*2 ++ l) → rings_ok g →
  ∃ g', release_all g ps = Val g' ∧ counted g' l ∧ rings_ok g' ∧ ∀ a, is_Some (g' !! a) → is_Some (g !! a).
Proof.
  induction ps as [|[e r] ps IH]; intros g l Hl Hg Hok; cbn [release_all]; [naive_solver|].
  destruct (release_counted g r (ps.*2 ++ l)) as (g1 & -> & Hg1 & Hok1 & Hd1); [done..|]. cbn [mbind res_bind].
  destruct (IH g1 l) as (g2 & -> & ? & ? & Hd2); [cbn [app length fmap list_fmap] in *; lia|done..|].
  exists g2. naive_solver.
Qed.

Lemma share_pipes_counted ps : ∀ g new l, Z.of_nat (length (ps.*2 ++ new.*2 ++ l)) < 2 ^ 64 → counted g (new.*2 ++ l) →
  (∀ r, r ∈ ps.*2 → r ∈ l) → NoDup (ps.*1 ++ new.*1) → rings_ok g →
  ∃ g' new', share_pipes g ps new = Val (g', new') ∧ counted g' (new'.*2 ++ l) ∧ rings_ok g' ∧
    new' ≡ₚ ps ++ new ∧ ∀ a, is_Some (g' !! a) → is_Some (g !! a).
Proof.
  induction ps as [|[e r] ps IH]; intros g new l Hl Hg Hin Hn Hok; cbn [share_pipes]; [naive_solver|].
  cbn [app fmap list_fmap fst snd] in *. apply NoDup_cons in Hn as [He Hn].
  destruct (acquire_counted g r (new.*2 ++ l)) as (g1 & -> & Hg1 & Hok1 & Hd1); [|done| |done|].
  { rewrite length_cons in Hl |- *. rewrite length_app in Hl. lia. }
  { apply elem_of_app. right. apply Hin. by left. }
  cbn [mbind res_bind].
  assert (Ep : UMap.set ends_lt new e r ≡ₚ (e, r) :: new) by (apply UMap.set_fresh; set_solver).
  destruct (IH g1 (UMap.set ends_lt new e r) l) as (g2 & new2 & -> & ? & ? & Ep2 & Hd2).
  - rewrite Ep. cbn [app fmap list_fmap snd]. rewrite length_cons, !length_app in Hl.
    rewrite !length_app, length_cons, length_app. lia.
  - eapply counted_perm; [|exact Hg1]. rewrite Ep. done.
  - intros r' ?. apply Hin. by right.
  - rewrite Ep. cbn [fmap list_fmap fst]. rewrite <- Permutation_middle. by apply NoDup_cons.
  - done.
  - exists g2, new2. split_and!; [done..| |naive_solver].
    rewrite Ep2, Ep. by rewrite Permutation_middle.
Qed.

(** ** The bytes in a pipe *)

Lemma put_pipe rb l c : pipe_ring rb l →
  ∃ rb', put rb c = Val (rb', bool_decide (Z.of_nat (length l) < PIPE_BUF_SIZE - 1)) ∧
    pipe_ring rb' (if decide (Z.of_nat (length l) < PIPE_BUF_SIZE - 1) then l ++ [c] else l) ∧
    connected_proc_counter_ rb' = connected_proc_counter_ rb.
Proof.
  intros [Hs Hh]. destruct (put_holds rb l c Hh) as (rb' & E & Hs' & Hh'). exists rb'. rewrite E.
  pose proof (Ring.ring_cap _ _ _ _ _ Hh) as Hcap. rewrite Hs in *. unfold Ring.q_put in *.
  destruct (Z.eqb_spec (Z.of_nat (length l)) (PIPE_BUF_SIZE - 1)), (decide (Z.of_nat (length l) < PIPE_BUF_SIZE - 1)); try lia;
    rewrite ?bool_decide_true, ?bool_decide_false by done; (split_and!; [done|split; [congruence|done]|]);
    unfold put in E; destruct (_ =? _); res_inv E; by simplify_eq.
Qed.

Lemma get_pipe rb l : pipe_ring rb l →
  ∃ rb', get rb = Val (rb', head l) ∧ pipe_ring rb' (tail l) ∧
    connected_proc_counter_ rb' = connected_proc_counter_ rb.
Proof.
  intros [Hs Hh]. destruct (get_holds rb l Hh) as (rb' & E & Hs' & Hh'). exists rb'.
  split_and!; [destruct l; done|split; [congruence|destruct l; done]|].
  unfold get in E. destruct (_ =? _); res_inv E; by simplify_eq.
Qed.

Lemma read_loop_keeps n : ∀ rb m buffer c l rb' m' c', pipe_ring rb l →
  read_loop n rb m buffer c = Val (rb', m', c') →
  (∃ l', pipe_ring rb' l') ∧ connected_proc_counter_ rb' = connected_proc_counter_ rb.
Proof.
  induction n as [|n IH]; intros rb m buffer c l rb' m' c' Hp E; cbn [read_loop] in E; [simplify_eq; eauto|].
  destruct (get_pipe rb l Hp) as (rb1 & Eg & Hp1 & Hc1). rewrite Eg in E. cbn [mbind res_bind] in E.
  destruct l as [|x l]; cbn [head] in E; [simplify_eq; eauto|].
  apply bind_Val in E as (m1 & _ & E). destruct (IH _ _ _ _ _ _ _ _ Hp1 E) as [? Hc]. split; [done|congruence].
Qed.

Lemma write_loop_keeps n : ∀ rb m buffer c l rb' c', pipe_ring rb l →
  write_loop n rb m buffer c = Val (rb', c') →
  (∃ l', pipe_ring rb' l') ∧ connected_proc_counter_ rb' = connected_proc_counter_ rb.
Proof.
  induction n as [|n IH]; intros rb m buffer c l rb' c' Hp E; cbn [write_loop] in E; [simplify_eq; eauto|].
  apply bind_Val in E as (x & _ & E). destruct (put_pipe rb l x Hp) as (rb1 & Eg & Hp1 & Hc1).
  rewrite Eg in E. cbn [mbind res_bind] in E. destruct (bool_decide _); [|simplify_eq; eauto].
  destruct (IH _ _ _ _ _ _ _ Hp1 E) as [? Hc]. split; [done|congruence].
Qed.

(** A read moves the oldest bytes into the buffer, as many as there are and as
    were asked for; a write appends the buffer's first bytes, as many as fit. *)
Lemma read_loop_reads n : ∀ rb m buffer c l, pipe_ring rb l → Forall is_byte l →
  fits m (buffer + c) (Z.of_nat n) →
  ∃ rb', read_loop n rb m buffer c =
      Val (rb', patch m (buffer + c) (take n l), c + Z.min (Z.of_nat n) (Z.of_nat (length l))) ∧
    pipe_ring rb' (drop n l).
Proof.
  induction n as [|n IH]; intros rb m buffer c l Hp Hl Hf; cbn [read_loop].
  { exists rb. split; [|done]. rewrite take_0, patch_nil. do 2 f_equal. lia. }
  destruct (get_pipe rb l Hp) as (rb1 & -> & Hp1 & _). cbn [mbind res_bind].
  destruct l as [|x l]; cbn [head tail drop take length] in *.
  { exists rb. split; [|done]. rewrite patch_nil. do 2 f_equal. lia. }
  apply Forall_cons in Hl as [Hx Hl]. destruct Hf as (? & _ & Hf).
  assert (Es : store m (buffer + c) x = Val (patch m (buffer + c) [x])).
  { pose proof (store_le_patch 1 m (buffer + c) x) as E. cbn [Kstring.store_le le] in E.
    rewrite wrap_small in E by (unfold is_byte in Hx; lia). destruct (store m (buffer + c) x); apply E; repeat split; lia. }
  rewrite Es. cbn [mbind res_bind].
  destruct (IH rb1 (patch m (buffer + c) [x]) buffer (c + 1) l Hp1 Hl) as (rb' & -> & Hp').
  { repeat split; rewrite ?patch_length by (repeat split; cbn [length]; lia); lia. }
  exists rb'. split; [|done]. do 2 f_equal; [f_equal|lia].
  replace (buffer + (c + 1)) with (buffer + c + Z.of_nat (length [x])) by (cbn [length]; lia).
  rewrite patch_app; [done|]. repeat split; [lia..|]. rewrite length_take. cbn [length]. lia.
Qed.

Definition room (l : list Z) : Z := PIPE_BUF_SIZE - 1 - Z.of_nat (length l).

Lemma pipe_room rb l : pipe_ring rb l → 0 <= room l.
Proof. intros [Hs Hh]. pose proof (Ring.ring_cap _ _ _ _ _ Hh). unfold room. lia. Qed.

Lemma write_loop_writes n : ∀ rb m buffer c l, pipe_ring rb l → fits m (buffer + c) (Z.of_nat n) →
  ∃ rb', write_loop n rb m buffer c = Val (rb', c + Z.min (Z.of_nat n) (room l)) ∧
    pipe_ring rb' (l ++ sub m (buffer + c) (Z.min (Z.of_nat n) (room l))).
Proof.
  induction n as [|n IH]; intros rb m buffer c l Hp (Hf1 & _ & Hf2); cbn [write_loop]; pose proof (pipe_room _ _ Hp) as Hr.
  { exists rb. rewrite Z.min_l, sub_0, app_nil_r, Z.add_0_r by lia. done. }
  destruct (zget_lt m (buffer + c) ltac:(lia)) as [x Hx]. unfold load. rewrite Hx. cbn [mbind res_bind].
  destruct (put_pipe rb l x Hp) as (rb1 & -> & Hp1 & _). cbn [mbind res_bind].
  destruct (decide (Z.of_nat (length l) < PIPE_BUF_SIZE - 1)) as [Hlt|Hge].
  - rewrite bool_decide_true by done.
    destruct (IH rb1 m buffer (c + 1) _ Hp1) as (rb' & -> & Hp'); [repeat split; lia|].
    assert (Er : room (l ++ [x]) = room l - 1) by (unfold room; rewrite length_app; cbn [length]; lia).
    rewrite Er in *. exists rb'. split; [do 2 f_equal; unfold room in *; lia|].
    replace (Z.min (Z.of_nat (S n)) (room l)) with (1 + Z.min (Z.of_nat n) (room l - 1)) by (unfold room in *; lia).
    rewrite sub_app by (unfold room in *; lia). apply zget_Val in Hx as [_ Hx].
    assert (E1 : sub m (buffer + c) 1 = [x]) by (unfold sub; rewrite (drop_S _ _ _ Hx); simpl; by rewrite ?take_0).
    by rewrite E1, app_assoc, <- Z.add_assoc.
  - rewrite bool_decide_false by done. exists rb.
    replace (Z.min (Z.of_nat (S n)) (room l)) with 0 by (unfold room in *; lia).
    rewrite sub_0, app_nil_r, Z.add_0_r. done.
Qed.

(** ** Histories of the kernel *)

Section histories.
Context {V : Type} `{IoOps V}.
Implicit Types k : kernel V.

Inductive op :=
| OCreate (pid : Z) (filename : list Z)
| OOpen (pid address : Z) (path : list Z) (flags : Z)
| OClose (pid fd : Z)
| OPipe (garbage : list Z) (m : mem) (pid read write : Z)
| OWrite (m : mem) (pid fd buffer size : Z)
| ORead (m : mem) (pid fd buffer count : Z)
| OFork (pid new_pid : Z)
| OExit (pid : Z).

Definition perform (k : kernel V) (o : op) : res (kernel V) :=
  match o with
  | OCreate pid filename => create_process k pid filename
  | OOpen pid address path flags => '(k, _) ← sys_open k pid address path flags; Val k
  | OClose pid fd => '(k, _) ← sys_close k pid fd; Val k
  | OPipe garbage m pid read write => '(k, _, _) ← sys_pipe garbage k m pid read write; Val k
  | OWrite m pid fd buffer size => '(k, _) ← sys_write k m pid fd buffer size; Val k
  | ORead m pid fd buffer count => '(k, _, _) ← sys_read k m pid fd buffer count; Val k
  | OFork pid new_pid => fork_copy k pid new_pid
  | OExit pid => exit_process k pid
  end.

(** One element for each entry of each process. *)
Definition refs_of (ps : gmap Z UserProcess) : list Z := map_to_list ps ≫= λ kv, (pipes_ kv.2).*2.
Notation refs k := (refs_of (procs k)).

(** What the rest of the kernel and the sizes of memory grant: ids of processes
    are new, fewer than [2^31] descriptors and [2^32] pipe ends are in use, and
    [pipe] is not asked to store its two results in overlapping places. *)
Definition room_for_fds (k : kernel V) (pid : Z) : Prop :=
  ∀ p, procs k !! pid = Some p → fd_num_ p < 2 ^ 31 - 3.
Definition enabled (k : kernel V) (o : op) : Prop :=
  match o with
  | OCreate pid _ => procs k !! pid = None
  | OOpen pid _ _ _ => room_for_fds k pid
  | OPipe garbage m pid read write => room_for_fds k pid ∧ Z.of_nat (length (refs k)) < 2 ^ 32 ∧
      Z.of_nat (length garbage) = PIPE_BUF_SIZE ∧ (read = write ∨ 4 <= Z.abs (read - write))
  | OFork pid new_pid => procs k !! new_pid = None ∧ Z.of_nat (length (refs k)) < 2 ^ 32
  | _ => True
  end.

Definition boot (v : V) : kernel V := mkKernel ∅ ∅ 1 v.

Inductive reachable (v : V) : kernel V → Prop :=
| reach_boot : reachable v (boot v)
| reach_step k o k' : reachable v k → enabled k o → perform k o = Val k' → reachable v k'.

Record proc_ok (p : UserProcess) : Prop := {
  pk_nodup : NoDup (pipes_ p).*1;
  pk_num : 3 <= fd_num_ p < 2 ^ 31;
  pk_ends : ∀ e, e ∈ (pipes_ p).*1 → 3 < e.1 <= fd_num_ p ∧ 3 < e.2 <= fd_num_ p;
}.

Record kernel_ok (k : kernel V) : Prop := {
  ko_counted : counted (rings k) (refs k);
  ko_size : Z.of_nat (length (refs k)) <= 2 ^ 33;
  ko_rings : rings_ok (rings k);
  ko_procs : map_Forall (λ _ p, proc_ok p) (procs k);
  ko_fresh : ∀ a, is_Some (rings k !! a) → a < next_ring k;
}.

Lemma refs_insert ps pid p : ps !! pid = None → refs_of (<[pid := p]> ps) ≡ₚ (pipes_ p).*2 ++ refs_of ps.
Proof. intros E. unfold refs_of. by rewrite map_to_list_insert. Qed.

Lemma refs_get ps pid p : ps !! pid = Some p → refs_of ps ≡ₚ (pipes_ p).*2 ++ refs_of (delete pid ps).
Proof.
  intros E. rewrite <- (insert_delete_id ps pid p E) at 1. apply refs_insert, lookup_delete_eq.
Qed.

Lemma refs_set ps pid p : refs_of (<[pid := p]> ps) ≡ₚ (pipes_ p).*2 ++ refs_of (delete pid ps).
Proof. rewrite <- insert_delete_eq. apply refs_insert, lookup_delete_eq. Qed.

(** An operation that leaves every process its pipes leaves the holders. *)
Lemma refs_same ps pid p p' : ps !! pid = Some p → pipes_ p' = pipes_ p → refs_of (<[pid := p']> ps) ≡ₚ refs_of ps.
Proof. intros E Ep. by rewrite refs_set, Ep, <- refs_get. Qed.

Lemma get_proc_Val k pid p : get_proc k pid = Val p ↔ procs k !! pid = Some p.
Proof. unfold get_proc. destruct (procs k !! pid); naive_solver. Qed.

Lemma ok_set_proc k pid p p' : kernel_ok k → procs k !! pid = Some p → proc_ok p' → pipes_ p' = pipes_ p →
  kernel_ok (set_proc pid p' k).
Proof.
  intros [Hc Hs Hr Hp Hf] E Hp' Ep. pose proof (refs_same _ _ _ _ E Ep) as Er.
  split; cbn; [by eapply counted_perm; [symmetry; exact Er|]|by rewrite Er|done|by apply map_Forall_insert_2|done].
Qed.

Lemma ok_set_ring k r rb rb' : kernel_ok k → rings k !! r = Some rb → (∃ l, pipe_ring rb' l) →
  connected_proc_counter_ rb' = connected_proc_counter_ rb → kernel_ok (set_rings (<[r := rb']> (rings k)) k).
Proof.
  intros [Hc Hs Hr Hp Hf] E Hok Ec. split; cbn; [|done|by apply map_Forall_insert_2|done|].
  - intros a. specialize (Hc a). rewrite lookup_insert. destruct (decide (r = a)) as [<-|]; [|done].
    rewrite E in Hc. by rewrite Ec.
  - intros a. rewrite lookup_insert. case_decide; [subst; intros _; apply Hf; by rewrite E|apply Hf].
Qed.

Lemma ok_set_below k v : kernel_ok k → kernel_ok (set_below v k).
Proof. by intros [? ? ? ? ?]. Qed.

(** No entry is ever marked as closed, so nothing is released before the end of
    a process. *)
Lemma never_closed l fd : (∀ e, e ∈ l.*1 → 3 < e.1 ∧ 3 < e.2) → find_closed l fd = None.
Proof.
  induction l as [|[[r w] a] l IH]; intros Hl; cbn [find_closed fst snd]; [done|].
  destruct (Hl (r, w)) as [Hr Hw]; [by left|]. cbn [fst snd] in *. unfold PIPE_FD_CLOSED.
  destruct (Z.eqb_spec w (-3)), (Z.eqb_spec r (-3)); try lia.
  rewrite !andb_false_r, !andb_false_l, !andb_true_r, !andb_true_l. cbn [negb].
  destruct (r =? fd), (w =? fd); cbn; try done. apply IH. intros e He. apply Hl. by right.
Qed.

Lemma removeLocalFD_spec k pid p fd : kernel_ok k → procs k !! pid = Some p →
  removeLocalFD k pid fd = Val (set_proc pid (set_fds (UMap.erase (fds_ p) (s32 fd)) p) k).
Proof.
  intros Hk E. pose proof (ko_procs _ Hk _ _ E) as Hp. unfold removeLocalFD, get_proc. rewrite E. cbn.
  rewrite never_closed; [done|]. intros e He%(pk_ends _ Hp). lia.
Qed.

Lemma ok_remove k pid fd k' : kernel_ok k → removeLocalFD k pid fd = Val k' → kernel_ok k'.
Proof.
  intros Hk E. pose proof E as E2. unfold removeLocalFD in E2. apply bind_Val in E2 as (p & Ep%get_proc_Val & _).
  rewrite (removeLocalFD_spec _ _ _ _ Hk Ep) in E. injection E as <-.
  eapply ok_set_proc; [done|done| |done]. by destruct (ko_procs _ Hk _ _ Ep).
Qed.

Lemma new_fd n : 3 <= n < 2 ^ 31 - 1 → u64 (n + 1) = n + 1.
Proof. intros. apply wrap_small. lia. Qed.

Lemma store_le_inv n : ∀ m p v m', Kstring.store_le (S n) m p v = Val m' →
  fits m p (Z.of_nat (S n)) ∧ m' = patch m p (le (S n) v).
Proof.
  induction n as [|n IH]; intros m p v m' E; pose proof E as E2; cbn [Kstring.store_le] in E2;
    apply bind_Val in E2 as (m1 & Es & E2); unfold store in Es; pose proof (zset_length _ _ _ _ Es) as Hl;
    apply zset_Val in Es as [Hp _].
  - assert (Hf : fits m p (Z.of_nat 1)) by (repeat split; lia). split; [done|].
    rewrite store_le_patch in E by done. by injection E.
  - apply IH in E2 as [(? & ? & Hf) _]. assert (Hf' : fits m p (Z.of_nat (S (S n)))) by (repeat split; lia).
    split; [done|]. rewrite store_le_patch in E by done. by injection E.
Qed.

Lemma load_patch m p v : fits m p 4 → 0 <= v < 2 ^ 32 → Kstring.load_le 4 (patch m p (le 4 v)) p = Val v.
Proof.
  intros Hf Hv. rewrite load_le_sub by (destruct Hf as (? & ? & ?); repeat split; rewrite ?patch_length by done; lia).
  change (Z.of_nat 4) with (Z.of_nat (length (le 4 v))). rewrite sub_patch_same by done. by rewrite unle_le.
Qed.

(** The new pipe is entered under two numbers that were not in use. *)
Lemma openPipe_inv garbage k m pid p read write k' m' r : procs k !! pid = Some p → 3 <= fd_num_ p < 2 ^ 31 - 3 →
  read = write ∨ 4 <= Z.abs (read - write) → openPipe garbage k m pid read write = Val (k', m', r) →
  ∃ rb e, RingBuffer.new PIPE_BUF_SIZE garbage = Val rb ∧
    (e = (fd_num_ p + 1, fd_num_ p + 2) ∨ e = (fd_num_ p + 2, fd_num_ p + 2)) ∧ r = 0 ∧
    k' = mkKernel (<[pid := set_pipes (UMap.set ends_lt (pipes_ p) e (next_ring k)) (set_fd_num (fd_num_ p + 2) p)]> (procs k))
           (<[next_ring k := incProcCount rb]> (rings k)) (next_ring k + 1) (below k).
Proof.
  intros Ep Hn Hrw E. unfold openPipe, get_proc in E. rewrite Ep in E. cbn [mbind res_bind] in E.
  rewrite !(new_fd (fd_num_ p)), !(new_fd (fd_num_ p + 1)) in E by lia.
  rewrite (wrap_small 32 (fd_num_ p + 1)), (wrap_small 32 (fd_num_ p + 1 + 1)) in E by lia.
  apply bind_Val in E as (m1 & [Hf1 ->]%store_le_inv & E). apply bind_Val in E as (m2 & [Hf2 ->]%store_le_inv & E).
  apply bind_Val in E as (k0 & E0 & E). apply bind_Val in E as (k1 & E1 & E). apply bind_Val in E as (rb & Erb & E).
  assert (k1 = fd_num_ p + 1 + 1) as ->.
  { rewrite load_patch in E1; [by injection E1|done|lia]. }
  assert (k0 = fd_num_ p + 1 ∨ k0 = fd_num_ p + 1 + 1) as Hk0.
  { destruct Hrw as [<-|Hrw]; [right; rewrite load_patch in E0; [by injection E0|done|lia]|left].
    destruct Hf1 as (Hr & Hr4 & Hf1), Hf2 as (Hw & Hw4 & Hf2). assert (Hfr : fits m read 4) by done.
    rewrite patch_length in Hf2 by done.
    rewrite load_le_sub in E0 by (repeat split; [lia..|rewrite !patch_length; [lia|done|]; repeat split; rewrite ?patch_length by done; cbn; lia]).
    rewrite sub_patch_other in E0; [|repeat split; rewrite ?patch_length by done; cbn [length le]; lia|lia..|cbn [length le]; lia].
    change (Z.of_nat 4) with (Z.of_nat (length (le 4 (fd_num_ p + 1)))) in E0.
    rewrite sub_patch_same, unle_le in E0 by (done || lia). by injection E0. }
  exists rb, (s32 k0, s32 (fd_num_ p + 1 + 1)). rewrite !signed_small in E |- * by lia.
  split; [done|]. split; [replace (fd_num_ p + 2) with (fd_num_ p + 1 + 1) by lia; destruct Hk0 as [-> | ->]; auto|].
  injection E as <- _ <-. split; [done|]. by replace (fd_num_ p + 2) with (fd_num_ p + 1 + 1) by lia.
Qed.

Lemma ok_pipe garbage k m pid read write k' : kernel_ok k → enabled k (OPipe garbage m pid read write) →
  perform k (OPipe garbage m pid read write) = Val k' → kernel_ok k'.
Proof.
  intros Hk (Hroom & Hsize & Hg & Hrw) E. cbn [perform] in E. apply bind_Val in E as ([[k1 m1] r] & E & [= <-]).
  unfold sys_pipe in E. destruct (_ || _); [by injection E as <-|].
  pose proof E as E2. unfold openPipe in E2. apply bind_Val in E2 as (p & Ep%get_proc_Val & _).
  pose proof (ko_procs _ Hk _ _ Ep) as Hp. pose proof (pk_num _ Hp). pose proof (Hroom _ Ep).
  destruct (openPipe_inv _ _ _ _ _ _ _ _ _ _ Ep ltac:(lia) Hrw E) as (rb & e & Erb & He & _ & ->). clear E.
  destruct (new_holds PIPE_BUF_SIZE garbage) as (rb' & Erb' & Hs & Hh); [unfold PIPE_BUF_SIZE; lia|done|].
  rewrite Erb in Erb'. injection Erb' as <-.
  assert (Hnew : rings k !! next_ring k = None).
  { apply eq_None_not_Some. intros Ha%(ko_fresh _ Hk). lia. }
  assert (Hfe : e ∉ (pipes_ p).*1).
  { intros Hin%(pk_ends _ Hp). destruct He as [-> | ->]; cbn in *; lia. }
  assert (Eset : UMap.set ends_lt (pipes_ p) e (next_ring k) ≡ₚ (e, next_ring k) :: pipes_ p) by by apply UMap.set_fresh.
  assert (Er : refs_of (<[pid := set_pipes (UMap.set ends_lt (pipes_ p) e (next_ring k)) (set_fd_num (fd_num_ p + 2) p)]> (procs k)) ≡ₚ next_ring k :: refs k).
  { rewrite refs_set. cbn [pipes_ set_pipes set_fd_num]. rewrite Eset. cbn [fmap list_fmap snd app]. by rewrite <- refs_get. }
  split; cbn.
  - eapply counted_perm; [symmetry; exact Er|]. intros a. rewrite refcount_cons, lookup_insert.
    pose proof (ko_counted _ Hk a) as Hc. destruct (decide (next_ring k = a)) as [<-|]; [|by rewrite Z.add_0_l].
    rewrite Hnew in Hc. cbn. rewrite Hc. unfold RingBuffer.new in Erb. res_inv Erb. cbn. done.
  - rewrite Er. cbn [length]. lia.
  - apply map_Forall_insert_2; [|apply Hk]. exists []. split; done.
  - apply map_Forall_insert_2; [|apply Hk]. split; cbn; [| lia|].
    + rewrite Eset. cbn. apply NoDup_cons. split; [done|apply Hp].
    + intros e'. rewrite Eset. cbn. intros [->|Hin%(pk_ends _ Hp)]%elem_of_cons; [|lia]. destruct He as [-> | ->]; cbn; lia.
  - intros a. rewrite lookup_insert. case_decide; [lia|]. intros Ha%(ko_fresh _ Hk). lia.
Qed.

Lemma ok_write k m pid fd buffer size k' : kernel_ok k → perform k (OWrite m pid fd buffer size) = Val k' → kernel_ok k'.
Proof.
  intros Hk E. cbn [perform] in E. apply bind_Val in E as ([k1 n] & E & [= <-]). unfold sys_write in E.
  destruct (_ || _); [by simplify_eq|]. destruct (fd =? fd_stdout).
  { apply bind_Val in E as (v & _ & [= <- _]). by apply ok_set_below. }
  apply bind_Val in E as (p & _ & E). destruct (isPipe p fd).
  - unfold writeToPipe in E. apply bind_Val in E as (p' & _ & E).
    destruct (find_end true _ _) as [r|]; [|by simplify_eq]. apply bind_Val in E as (rb & Er & E).
    unfold get_ring in Er. destruct (rings k !! r) as [rb0|] eqn:Ek; [|done]. injection Er as ->.
    apply bind_Val in E as ([rb' c] & El & [= <- _]). destruct (ko_rings _ Hk _ _ Ek) as [l Hl].
    destruct (write_loop_keeps _ _ _ _ _ _ _ _ Hl El). by eapply ok_set_ring.
  - destruct (_ =? _); [by simplify_eq|]. apply bind_Val in E as ([v r] & _ & [= <- _]). by apply ok_set_below.
Qed.

Lemma ok_read k m pid fd buffer size k' : kernel_ok k → perform k (ORead m pid fd buffer size) = Val k' → kernel_ok k'.
Proof.
  intros Hk E. cbn [perform] in E. apply bind_Val in E as ([[k1 m1] n] & E & [= <-]). unfold sys_read in E.
  destruct (_ || _); [by simplify_eq|]. destruct (fd =? fd_stdin).
  { apply bind_Val in E as ([[v ?] ?] & _ & E). simplify_eq. by apply ok_set_below. }
  apply bind_Val in E as (p & _ & E). destruct (isPipe p fd).
  - unfold readFromPipe in E. apply bind_Val in E as (p' & _ & E).
    destruct (find_end false _ _) as [r|]; [|by simplify_eq]. apply bind_Val in E as (rb & Er & E).
    unfold get_ring in Er. destruct (rings k !! r) as [rb0|] eqn:Ek; [|done]. injection Er as ->.
    apply bind_Val in E as ([[rb' m'] c] & El & E). simplify_eq. destruct (ko_rings _ Hk _ _ Ek) as [l Hl].
    destruct (read_loop_keeps _ _ _ _ _ _ _ _ _ Hl El). by eapply ok_set_ring.
  - destruct (_ =? _); [by simplify_eq|]. apply bind_Val in E as ([[v m2] r] & _ & E). simplify_eq. by apply ok_set_below.
Qed.

Lemma ok_close k pid fd k' : kernel_ok k → perform k (OClose pid fd) = Val k' → kernel_ok k'.
Proof.
  intros Hk E. cbn [perform] in E. apply bind_Val in E as ([k1 n] & E & [= <-]). unfold sys_close in E.
  apply bind_Val in E as (p & _ & E). destruct (isPipe p fd).
  - apply bind_Val in E as (k2 & E & [= <- _]). by eapply ok_remove.
  - apply bind_Val in E as ([v r] & _ & E). apply bind_Val in E as (k2 & E & [= <- _]).
    destruct (negb _); [|simplify_eq; by apply ok_set_below]. eapply ok_remove; [|done]. by apply ok_set_below.
Qed.

Lemma ok_open k pid address path flags k' : kernel_ok k → room_for_fds k pid →
  perform k (OOpen pid address path flags) = Val k' → kernel_ok k'.
Proof.
  intros Hk Hroom E. cbn [perform] in E. apply bind_Val in E as ([k1 n] & E & [= <-]). unfold sys_open in E.
  destruct (_ <=? _); [by simplify_eq|]. apply bind_Val in E as (p & Ep%get_proc_Val & E).
  apply bind_Val in E as ([v fd] & _ & E). unfold addLocalFD in E. simplify_eq. apply ok_set_below.
  destruct (ko_procs _ Hk _ _ Ep) as [Hn Hnum He]. pose proof (Hroom _ Ep).
  eapply ok_set_proc; [done|done| |done]. rewrite new_fd by lia. split; cbn; [done|lia|].
  intros e Hin%He. lia.
Qed.

Lemma ok_create k pid filename k' : kernel_ok k → procs k !! pid = None →
  create_process k pid filename = Val k' → kernel_ok k'.
Proof.
  intros [Hc Hs Hr Hp Hf] En E. unfold create_process in E. apply bind_Val in E as ([v g] & _ & E).
  unfold addLocalFD in E. cbn [fst snd] in E. simplify_eq.
  assert (Er : refs_of (<[pid := mkProc (s32 (u64 (3 + 1))) filename [(s32 (u64 (3 + 1)), g)] [] (u64 (3 + 1))]> (procs k)) ≡ₚ refs k)
    by by rewrite refs_insert.
  split; cbn; [by eapply counted_perm; [symmetry; exact Er|]|by rewrite Er|done| |done].
  apply map_Forall_insert_2; [|done]. split; cbn; [constructor|by split|by intros e ?%not_elem_of_nil].
Qed.

Lemma ok_fork k pid new_pid k' : kernel_ok k → enabled k (OFork pid new_pid) →
  fork_copy k pid new_pid = Val k' → kernel_ok k'.
Proof.
  intros Hk [En Hsize] E. unfold fork_copy in E. apply bind_Val in E as (p & Ep%get_proc_Val & E).
  apply bind_Val in E as ([v1 ?] & _ & E). apply bind_Val in E as ([v2 fds] & _ & E).
  apply bind_Val in E as ([g pipes] & Es & E). apply bind_Val in E as ([v3 g1] & _ & E). simplify_eq.
  pose proof (ko_procs _ Hk _ _ Ep) as Hp. pose proof (refs_get _ _ _ Ep) as Eg.
  assert (Hlen : (length (pipes_ p) ≤ length (refs k))%nat) by (rewrite Eg, length_app, length_fmap; lia).
  destruct (share_pipes_counted (pipes_ p) (rings k) [] (refs k)) as (g' & new' & Es' & Hc & Hr & Enew & Hd).
  - cbn. rewrite length_app, length_fmap. lia.
  - apply Hk.
  - intros r Hin. rewrite Eg. apply elem_of_app. by left.
  - rewrite app_nil_r. apply Hp.
  - apply Hk.
  - rewrite Es in Es'. injection Es' as <- <-. rewrite app_nil_r in Enew.
    assert (Er : ∀ p', pipes_ p' = pipes → refs_of (<[new_pid := p']> (procs k)) ≡ₚ pipes.*2 ++ refs k)
      by (intros p' <-; by apply refs_insert).
    split; cbn [rings procs next_ring].
    + eapply counted_perm; [symmetry; by apply Er|done].
    + rewrite Er by done. rewrite length_app, length_fmap, Enew. lia.
    + done.
    + apply map_Forall_insert_2; [|apply Hk]. destruct Hp as [Hn Hnum He].
      split; cbn; [by rewrite Enew|done|]. intros e. rewrite Enew. apply He.
    + intros a Ha. apply (ko_fresh _ Hk), Hd, Ha.
Qed.

Lemma exit_releases k pid p : kernel_ok k → procs k !! pid = Some p →
  ∃ g, release_all (rings k) (pipes_ p) = Val g ∧ ∀ v, kernel_ok (mkKernel (delete pid (procs k)) g (next_ring k) v).
Proof.
  intros Hk Ep. pose proof (refs_get _ _ _ Ep) as Eg.
  assert (Hl : (length ((pipes_ p).*2 ++ refs_of (delete pid (procs k))) = length (refs k))%nat) by by rewrite <- Eg.
  destruct (release_all_counted (pipes_ p) (rings k) (refs_of (delete pid (procs k)))) as (g & Er & Hc & Hr & Hd).
  - rewrite Hl. pose proof (ko_size _ Hk). lia.
  - by eapply counted_perm; [exact Eg|apply Hk].
  - apply Hk.
  - exists g. split; [done|]. intros v. split; cbn; [done| |done|apply map_Forall_delete, Hk|].
    + rewrite length_app in Hl. pose proof (ko_size _ Hk). lia.
    + intros a Ha. by apply (ko_fresh _ Hk), Hd.
Qed.

Lemma ok_exit k pid k' : kernel_ok k → exit_process k pid = Val k' → kernel_ok k'.
Proof.
  intros Hk E. unfold exit_process in E. apply bind_Val in E as (p & Ep%get_proc_Val & E).
  destruct (exit_releases _ _ _ Hk Ep) as (g & Er & Hok). rewrite Er in E.
  apply bind_Val in E as (v & _ & E). injection E as <-. apply Hok.
Qed.

Lemma reachable_ok v k : reachable v k → kernel_ok k.
Proof.
  induction 1 as [|k o k' _ IH Hen E]; [split; cbn; [by intros a; rewrite lookup_empty|done|done|done|by intros a []]|].
  destruct o; cbn [perform] in E; [by eapply ok_create|by eapply ok_open|by eapply ok_close|by eapply ok_pipe|
    by eapply ok_write|by eapply ok_read|by eapply ok_fork|by eapply ok_exit].
Qed.

(** A process has an entry for the pipe. *)
Definition has_pipe (ps : gmap Z UserProcess) (pid r : Z) : Prop :=
  ∃ p, ps !! pid = Some p ∧ r ∈ (pipes_ p).*2.

Lemma elem_refs ps r : r ∈ refs_of ps ↔ ∃ pid, has_pipe ps pid r.
Proof.
  unfold refs_of, has_pipe. rewrite list_elem_of_bind. split.
  - intros ([pid p] & Hin & Hp%elem_of_map_to_list). eauto.
  - intros (pid & p & Hp & Hin). exists (pid, p). split; [done|by apply elem_of_map_to_list].
Qed.

Lemma counted_live g l r : counted g l → is_Some (g !! r) ↔ r ∈ l.
Proof.
  intros Hg. specialize (Hg r). rewrite <- refcount_in.
  destruct (g !! r); split; [intros _; apply Hg|done|by intros []|rewrite Hg; lia].
Qed.

(** Closing a pipe's ends neither releases it nor makes it unusable. *)
Lemma close_keeps_pipe v k pid p fd : reachable v k → procs k !! pid = Some p → isPipe p fd = true →
  ∃ p', sys_close k pid fd = Val (set_proc pid p' k, 0) ∧ pipes_ p' = pipes_ p ∧ isPipe p' fd = true.
Proof.
  intros Hk%reachable_ok Ep Hi. unfold sys_close, get_proc. rewrite Ep. cbn [mbind res_bind]. rewrite Hi.
  rewrite (removeLocalFD_spec _ _ _ _ Hk Ep). cbn [mbind res_bind]. eexists. split; [done|]. split; [done|exact Hi].
Qed.

(** C9: pipes are accounted for.  In every state the system calls can reach from
    the start, with any number of processes, forks and exits, a pipe's counter
    is the number of entries the processes have for it, and a pipe is allocated
    exactly while some process has it: none is lost and none is used after it
    was deleted.  A process that ends can always give its pipes back, and then
    those are left that another process has; so the end of a process succeeds if
    only its files can be closed (which fails for a descriptor of a file that
    could not be opened: [missing_file_panics]). *)
Theorem pipes_accounted v k : reachable v k →
  (∀ r rb, rings k !! r = Some rb → getProcCount rb = refcount r (refs k)) ∧
  (∀ r, is_Some (rings k !! r) ↔ ∃ pid, has_pipe (procs k) pid r) ∧
  (∀ pid p, procs k !! pid = Some p → ∃ g, release_all (rings k) (pipes_ p) = Val g ∧
    (∀ r, is_Some (g !! r) ↔ ∃ pid', pid' ≠ pid ∧ has_pipe (procs k) pid' r) ∧
    ∀ w, close_fds p (below k) (fds_ p) = Val w →
      exit_process k pid = Val (mkKernel (delete pid (procs k)) g (next_ring k) w)).
Proof.
  intros Hk%reachable_ok. pose proof (ko_counted _ Hk) as Hc. split_and!.
  - intros r rb E. specialize (Hc r). rewrite E in Hc. apply Hc.
  - intros r. by rewrite (counted_live _ _ _ Hc), elem_refs.
  - intros pid p Ep. destruct (exit_releases k pid p Hk Ep) as (g & Eg & Hok). exists g. split; [done|]. split.
    2: { intros w Ew. unfold exit_process, get_proc. rewrite Ep. cbn [mbind res_bind]. rewrite Ew. cbn [mbind res_bind].
         by rewrite Eg. }
    intros r. rewrite (counted_live _ _ _ (ko_counted _ (Hok (below k)))), elem_refs. cbn.
    unfold has_pipe. split; intros (pid' & Hp).
    + destruct Hp as (p' & [Hne Hp]%lookup_delete_Some & Hin). eauto.
    + destruct Hp as (Hne & p' & Hp & Hin). exists pid', p'. split; [by rewrite lookup_delete_ne|done].
Qed.

(** ** A pipe is a queue of bytes *)

(** A system call [write], or [read], of a process on a descriptor. *)
Record pipe_op := mkPipeOp {
  po_write : bool;
  po_pid : Z;
  po_fd : Z;
  po_mem : mem;
  po_buffer : Z;
  po_count : Z;
}.

Definition perform_pipe (k : kernel V) (o : pipe_op) : res (kernel V * (mem * Z)) :=
  if po_write o then
    '(k, n) ← sys_write k (po_mem o) (po_pid o) (po_fd o) (po_buffer o) (po_count o); Val (k, (po_mem o, n))
  else
    '(k, m, n) ← sys_read k (po_mem o) (po_pid o) (po_fd o) (po_buffer o) (po_count o); Val (k, (m, n)).

(** The queue: it takes the bytes it has room for and gives the oldest ones. *)
Definition queue_op (l : list Z) (o : pipe_op) : res (list Z * (mem * Z)) :=
  if po_write o then
    let n := Z.min (po_count o) (room l) in
    Val (l ++ sub (po_mem o) (po_buffer o) n, (po_mem o, n))
  else
    let n := Z.min (po_count o) (Z.of_nat (length l)) in
    Val (drop (Z.to_nat n) l, (patch (po_mem o) (po_buffer o) (take (Z.to_nat n) l), n)).

(** The descriptor is the right end of the pipe [r] in its process, and the
    buffer lies in the process's memory. *)
Definition uses_pipe (ps : gmap Z UserProcess) (r : Z) (o : pipe_op) : Prop :=
  (∃ p, ps !! po_pid o = Some p ∧ find_end (po_write o) (pipes_ p) (s32 (po_fd o)) = Some r) ∧
  2 < po_fd o ∧ fits (po_mem o) (po_buffer o) (po_count o) ∧ mem_ok (po_mem o) ∧
  Z.of_nat (length (po_mem o)) < USER_BREAK.

Definition pipe_holds (k : kernel V) (r : Z) (l : list Z) : Prop :=
  (∃ rb, rings k !! r = Some rb ∧ pipe_ring rb l) ∧ Forall is_byte l.

Lemma find_end_isPipe b p fd r : find_end b (pipes_ p) (s32 fd) = Some r → isPipe p fd = true.
Proof.
  unfold isPipe. induction (pipes_ p) as [|e l IH]; cbn [find_end existsb]; [done|].
  destruct b, (_ =? s32 fd) eqn:Ee; intros E; rewrite ?orb_true_r; try done; by rewrite IH, orb_true_r.
Qed.

Lemma pipe_step ps r k l o : procs k = ps ∧ pipe_holds k r l → uses_pipe ps r o →
  sim (λ k l, procs k = ps ∧ pipe_holds k r l) (perform_pipe k o) (queue_op l o).
Proof.
  intros [<- [(rb & Er & Hp) Hl]] ((p & Ep & Ef) & Hfd & Hfit & Hm & Hub).
  pose proof (find_end_isPipe _ _ _ _ Ef) as Hi. destruct o as [w pid fd m b c]. cbn in *.
  destruct Hfit as (Hb & Hc & Hbc).
  assert (Hguard : (USER_BREAK <=? b) || (USER_BREAK <? u64 (b + c)) = false).
  { unfold USER_BREAK in *. rewrite wrap_small by lia. apply orb_false_iff. split; [apply Z.leb_gt|apply Z.ltb_ge]; lia. }
  assert (Hnat : Z.of_nat (Z.to_nat c) = c) by lia.
  assert (Hfit : fits m (b + 0) (Z.of_nat (Z.to_nat c))) by (repeat split; lia).
  unfold perform_pipe, queue_op, sim, sys_write, sys_read, writeToPipe, readFromPipe, get_proc, get_ring. cbn [po_write po_pid po_fd po_mem po_buffer po_count].
  destruct w; rewrite Hguard.
  - destruct (Z.eqb_spec fd fd_stdout) as [->|_]; [done|]. rewrite Ep. cbn [mbind res_bind]. rewrite Hi. cbn [mbind res_bind].
    rewrite Ef, Er. cbn [mbind res_bind].
    destruct (write_loop_writes _ rb m b 0 l Hp Hfit) as (rb' & -> & Hp'). rewrite Hnat, Z.add_0_r in Hp'. rewrite Hnat, Z.add_0_l. cbn [mbind res_bind].
    split; [done|]. split; [done|]. split; [|apply Forall_app_2; [done|by apply sub_bytes]].
    exists rb'. split; [apply lookup_insert_eq|done].
  - destruct (Z.eqb_spec fd fd_stdin) as [->|_]; [done|]. rewrite Ep. cbn [mbind res_bind]. rewrite Hi. cbn [mbind res_bind].
    rewrite Ef, Er. cbn [mbind res_bind].
    destruct (read_loop_reads _ rb m b 0 l Hp Hl Hfit) as (rb' & -> & Hp'). rewrite Hnat, Z.add_0_r, Z.add_0_l. cbn [mbind res_bind].
    destruct (decide (c <= Z.of_nat (length l))) as [Hle|Hgt].
    + rewrite Z.min_l by done. split; [done|]. split; [done|]. split; [|by apply Forall_drop].
      exists rb'. split; [apply lookup_insert_eq|done].
    + rewrite Z.min_r, Nat2Z.id, firstn_all, drop_all by lia. rewrite take_ge by lia. rewrite drop_ge in Hp' by lia.
      split; [done|]. split; [done|]. split; [|done]. exists rb'. split; [apply lookup_insert_eq|done].
Qed.

(** C26: a pipe is a bounded queue of bytes for the processes that share it, as long
    as their calls do not overlap in time.  For every sequence of reads and writes,
    one after the other, by whichever processes have an end of the pipe, each call
    returns the number of bytes the queue takes or gives (at most 1023 are in it), a
    read stores exactly the oldest bytes, in the order in which they were written,
    at the start of its buffer, and no call fails or blocks. *)
Theorem pipe_transfers k r l os : pipe_holds k r l → Forall (uses_pipe (procs k) r) os →
  run perform_pipe k os = run queue_op l os.
Proof.
  intros Hh Hos. eapply (sim_run _ _ (λ k' l, procs k' = procs k ∧ pipe_holds k' r l)); [|by split|exact Hos].
  intros k' l' o Hk' Ho. by apply pipe_step.
Qed.

(** ** Files that cannot be opened *)

Lemma close_fds_panics p v l : (∀ v g, is_val (vfs_close v g) = true) →
  (∃ fd, fd ∈ l.*1 ∧ getGlobalFD p fd = u32 (-1)) → close_fds p v l = Err EAssert.
Proof.
  intros Hclose. revert v. induction l as [|[fd g] l IH]; intros v (fd' & Hin & Hg); [by apply not_elem_of_nil in Hin|].
  cbn [close_fds]. destruct (Z.eqb_spec (getGlobalFD p fd) (u32 (-1))) as [E|E]; [done|]. cbn [negb kassert mbind res_bind].
  pose proof (Hclose v (u32 g)) as Hv. destruct (vfs_close v (u32 g)) as [[v' ?]|]; [|done]. cbn [mbind res_bind].
  apply IH. exists fd'. split; [|done]. apply elem_of_cons in Hin as [->|]; [done|done].
Qed.

(** Opening a file that does not exist ends in a panic.  When the file
    system refuses to open a path, the system call [open] still returns a new
    descriptor; closing that descriptor fails and keeps it; and when the process
    ends, its destructor fails its assertion that every descriptor is mapped,
    provided only that closing a descriptor returns at all. *)
Theorem missing_file_panics v0 k pid p address path flags v :
  reachable v0 k → room_for_fds k pid → procs k !! pid = Some p → 0 <= address < USER_BREAK →
  vfs_open (below k) path (u32 flags) = Val (v, -1) → (∀ v g, is_val (vfs_close v g) = true) →
  ∃ k' k'', sys_open k pid address path flags = Val (k', fd_num_ p + 1) ∧
    sys_close k' pid (fd_num_ p + 1) = Val (k'', u64 (-1)) ∧
    exit_process k' pid = Err EAssert ∧ exit_process k'' pid = Err EAssert.
Proof.
  intros Hk%reachable_ok Hroom Ep Ha Eo Hclose. pose proof (Hroom _ Ep). pose proof (ko_procs _ Hk _ _ Ep) as [_ Hn He].
  unfold sys_open, get_proc, addLocalFD. rewrite Ep. destruct (Z.leb_spec USER_BREAK address); [lia|]. cbn [mbind res_bind].
  rewrite Eo. cbn [mbind res_bind]. rewrite new_fd by lia.
  set (p' := set_fd_num _ _). assert (Hs : s32 (fd_num_ p + 1) = fd_num_ p + 1) by (apply signed_small; lia).
  assert (Hg : getGlobalFD p' (fd_num_ p + 1) = u32 (-1)).
  { unfold getGlobalFD. cbn. by rewrite UMap.set_lookup, decide_True by done. }
  assert (Hin : fd_num_ p + 1 ∈ (fds_ p').*1).
  { apply list_elem_of_fmap. exists (fd_num_ p + 1, -1). split; [done|]. apply UMap.find_elem. cbn. by rewrite UMap.set_lookup, decide_True by done. }
  assert (Hi : isPipe p' (fd_num_ p + 1) = false).
  { unfold isPipe. cbn [p' pipes_ set_fd_num set_fds]. apply not_true_iff_false. intros (e & Hie%list_elem_of_In & Hb)%existsb_exists.
    destruct (He e.1) as [He1 He2]; [by apply list_elem_of_fmap_2|]. rewrite Hs in Hb.
    apply orb_true_iff in Hb as [E%Z.eqb_eq|E%Z.eqb_eq]; lia. }
  eexists _, _. split; [done|]. split; [|].
  - assert (Ek : procs (set_below v (set_proc pid p' k)) !! pid = Some p') by apply lookup_insert_eq.
    unfold sys_close, get_proc. rewrite Ek. cbn [mbind res_bind]. rewrite Hi, Hg, Z.eqb_refl. reflexivity.
  - assert (Hexit : ∀ k1, procs k1 !! pid = Some p' → exit_process k1 pid = Err EAssert).
    { intros k1 E1. unfold exit_process, get_proc. rewrite E1. cbn [mbind res_bind]. rewrite close_fds_panics; [done..|].
      by exists (fd_num_ p + 1). }
    split; apply Hexit, lookup_insert_eq.
Qed.
End histories.

(** ** Examples *)

(** Below the descriptors, only the number of the next global descriptor; the
    empty path names no file. *)
#[local] Instance flat_io : IoOps Z := {
  vfs_open v path _ := match path with [] => Val (v, -1) | _ => Val (v + 1, v) end;
  vfs_close v _ := Val (v, 0);
  vfs_read v _ m _ _ := Val (v, m, 0);
  vfs_write v _ _ _ _ := Val (v, 0);
  vfs_dup v _ := Val (v + 1, v);
  term_readLine v m _ _ := Val (v, m, 0);
  term_print v _ _ _ := Val v;
}.

Definition ex_step (k : kernel Z) (o : op) : kernel Z := match perform k o with Val k => k | Err _ => k end.
Definition ex_garbage : list Z := replicate (Z.to_nat PIPE_BUF_SIZE) 0.
Definition ex_mem : mem := [0; 0; 0; 0; 0; 0; 0; 0].

(** A process, then with a pipe, then with a child that shares it. *)
Definition ex_one : kernel Z := ex_step (boot 100) (OCreate 1 [112]).
Definition ex_pipe : kernel Z := ex_step ex_one (OPipe ex_garbage ex_mem 1 0 4).
Definition ex_two : kernel Z := ex_step ex_pipe (OFork 1 2).

Lemma ex_garbage_length : Z.of_nat (length ex_garbage) = PIPE_BUF_SIZE.
Proof. unfold ex_garbage, PIPE_BUF_SIZE. rewrite length_replicate. lia. Qed.

Lemma ex_one_reachable : reachable 100 ex_one.
Proof. eapply (reach_step _ (boot 100) (OCreate 1 [112])); [apply reach_boot|done|reflexivity]. Qed.

Lemma ex_two_reachable : reachable 100 ex_two.
Proof.
  apply (reach_step _ ex_pipe (OFork 1 2)); [|by split|reflexivity].
  apply (reach_step _ ex_one (OPipe ex_garbage ex_mem 1 0 4)); [apply ex_one_reachable| |reflexivity].
  split_and!; [by intros p [= <-]|done|apply ex_garbage_length|right; done].
Qed.

Lemma pipes_accounted_witness :
  (∃ pid, has_pipe (procs ex_two) pid 1) ∧ is_Some (rings ex_two !! 1) ∧
  (∀ p, procs ex_two !! 1 = Some p → ∃ g, release_all (rings ex_two) (pipes_ p) = Val g ∧ is_Some (g !! 1)).
Proof.
  destruct (pipes_accounted 100 ex_two ex_two_reachable) as (_ & H2 & H3).
  assert (Hone : ∀ pid, pid = 1 ∨ pid = 2 → has_pipe (procs ex_two) pid 1).
  { intros pid [-> | ->]; eexists; (split; [reflexivity|]); cbn; by left. }
  split_and!.
  - exists 1. apply Hone. by left.
  - apply H2. exists 1. apply Hone. by left.
  - intros p Hp. destruct (H3 1 p Hp) as (g & Eg & Hg & _). exists g. split; [done|].
    apply Hg. exists 2. split; [done|]. apply Hone. by right.
Defined.

(** The child writes two bytes and the parent asks for three. *)
Definition ex_ops : list pipe_op :=
  [mkPipeOp true 2 6 [104; 105; 0] 0 2; mkPipeOp false 1 5 [0; 0; 0] 0 3].

Lemma ex_ring_holds : pipe_holds ex_two 1 [].
Proof.
  split; [|done]. eexists. split; [reflexivity|]. split; [done|].
  destruct (new_holds PIPE_BUF_SIZE ex_garbage) as (rb & E & _ & Hh); [by split|apply ex_garbage_length|].
  injection E as <-. exact Hh.
Qed.

Lemma pipe_transfers_witness :
  run perform_pipe ex_two ex_ops = Val [([104; 105; 0], 2); ([104; 105; 0], 2)].
Proof.
  rewrite (pipe_transfers ex_two 1 [] ex_ops ex_ring_holds); [reflexivity|].
  assert (Hb : Forall is_byte [104; 105; 0] ∧ Forall is_byte [0; 0; 0]) by (split; by apply Forall_is_byte).
  repeat constructor; try apply Hb; try done; eexists; (split; [reflexivity|done]).
Defined.

Lemma missing_file_panics_witness : ∃ k' k'', sys_open ex_one 1 0 [] 1 = Val (k', 5) ∧
  sys_close k' 1 5 = Val (k'', u64 (-1)) ∧ exit_process k' 1 = Err EAssert ∧ exit_process k'' 1 = Err EAssert.
Proof.
  destruct (procs ex_one !! 1) as [p|] eqn:Ep; [|done].
  assert (Hn : fd_num_ p = 4) by by injection Ep as <-.
  destruct (missing_file_panics 100 ex_one 1 p 0 [] 1 101 ex_one_reachable) as (k' & k'' & E); rewrite ?Hn in *;
    [by intros ? [= <-]|done|by split|done|done|by exists k', k''].
Defined.

(** The check of a user buffer wraps around: a size near [2^64] passes it. *)
Lemma buffer_check_wraps : (USER_BREAK <=? 16) || (USER_BREAK <? u64 (16 + (2 ^ 64 - 1))) = false.
Proof. reflexivity. Qed.

End Descriptors.
