(* ===== verification/WaitPid.v ===== *)
(** * Waiting for processes

    Models the part of [common/source/kernel/ProcessRegistry.cpp] behind
    [waitpid] (the map of conditions, the record of who waits for whom, the
    deadlock check, ids and the count of processes), [waitForPid] and
    [waitForAnyPid] of [UserThread.cpp] and [Syscall::waitpid].  The condition
    of a process is the list of the threads asleep on it, the longest waiting
    first; it is deleted with its entry.  What runs under [waitpid_map_lock_] is
    one step.  [waitForPid] takes that lock twice, so it is two steps between
    which others run; a sleeping thread goes on in a step of its own. *)
From S2P Require Import Prelude Descriptors.

Module WaitPid.

Record ProcessRegistry : Set := mkReg {
  waitpid_map_ : gmap Z (list Z);
  wait_pid_map_helper_ : gmap Z (list Z);
  any_process_died_ : list Z;
  last_dead_pid_ : Z;
  pid_counter_ : Z;
  progs_running_ : Z;
}.

(** [at] of the containers asserts that the key is there. *)
Definition at_ (m : gmap Z (list Z)) (k : Z) : res (list Z) :=
  match m !! k with Some l => Val l | None => Err EAssert end.

Definition getNewPID (r : ProcessRegistry) : ProcessRegistry * Z :=
  (mkReg (waitpid_map_ r) (wait_pid_map_helper_ r) (any_process_died_ r) (last_dead_pid_ r)
     (u64 (pid_counter_ r + 1)) (progs_running_ r), pid_counter_ r).

Definition processStart (r : ProcessRegistry) : ProcessRegistry :=
  mkReg (waitpid_map_ r) (wait_pid_map_helper_ r) (any_process_died_ r) (last_dead_pid_ r)
    (pid_counter_ r) (u32 (progs_running_ r + 1)).

(** Also: is the condition [all_processes_killed_] signalled? *)
Definition processExit (r : ProcessRegistry) : ProcessRegistry * bool :=
  let n := u32 (progs_running_ r - 1) in
  (mkReg (waitpid_map_ r) (wait_pid_map_helper_ r) (any_process_died_ r) (last_dead_pid_ r)
     (pid_counter_ r) n, n =? 0).

Definition addToWaitPIDMap (r : ProcessRegistry) (pid : Z) : res ProcessRegistry :=
  _ ← kassert (bool_decide (waitpid_map_ r !! pid = None));
  Val (mkReg (<[pid := []]> (waitpid_map_ r)) (<[pid := []]> (wait_pid_map_helper_ r)) (any_process_died_ r)
         (last_dead_pid_ r) (pid_counter_ r) (progs_running_ r)).

(** The threads woken up: those that wait for the process, and those that wait
    for any. *)
Definition removeFromWaitPIDMap (r : ProcessRegistry) (pid : Z) : res (ProcessRegistry * list Z * list Z) :=
  woken ← at_ (waitpid_map_ r) pid;
  Val (mkReg (delete pid (waitpid_map_ r)) (delete pid (wait_pid_map_helper_ r)) [] pid
         (pid_counter_ r) (progs_running_ r), woken, any_process_died_ r).

(** The loop of [checkWaitPidDeadlock] over the processes [l]; [check] is the
    recursive call, and [true] the result -1U. *)
Fixpoint visit (check : Z → res bool) (waited_by : Z) (l : list Z) : res bool :=
  match l with
  | [] => Val false
  | pid :: l =>
      if pid =? waited_by then Val true
      else
        found ← check pid;
        if found : bool then Val true else visit check waited_by l
  end.

Fixpoint check_loop (fuel : nat) (helper : gmap Z (list Z)) (pid_to_wait waited_by : Z) : res bool :=
  match fuel with
  | O => Err EFuel
  | S fuel =>
      l ← at_ helper pid_to_wait;
      visit (λ pid, check_loop fuel helper pid waited_by) waited_by l
  end.

(** The recursion is no deeper than there are entries, see below. *)
Definition checkWaitPidDeadlock (r : ProcessRegistry) (pid_to_wait waited_by : Z) : res bool :=
  check_loop (S (size (wait_pid_map_helper_ r))) (wait_pid_map_helper_ r) pid_to_wait waited_by.

(** [true]: the condition of [pid] is returned, [false]: NULL. *)
Definition getCondToWait (r : ProcessRegistry) (current_pid pid : Z) : res (ProcessRegistry * bool) :=
  deadlock ← checkWaitPidDeadlock r pid current_pid;
  if deadlock : bool then Val (r, false)
  else
    match waitpid_map_ r !! pid with
    | Some _ =>
        l ← at_ (wait_pid_map_helper_ r) current_pid;
        Val (mkReg (waitpid_map_ r) (<[current_pid := l ++ [pid]]> (wait_pid_map_helper_ r)) (any_process_died_ r)
               (last_dead_pid_ r) (pid_counter_ r) (progs_running_ r), true)
    | None => Val (r, false)
    end.

Definition getLastDeadPID (r : ProcessRegistry) : Z := last_dead_pid_ r.

(** [waitpid_cond->wait(false)], after [waitpid_map_lock_] was acquired again; a
    condition whose entry is gone was deleted. *)
Definition wait_pid (r : ProcessRegistry) (pid tid : Z) : res ProcessRegistry :=
  match waitpid_map_ r !! pid with
  | Some l => Val (mkReg (<[pid := l ++ [tid]]> (waitpid_map_ r)) (wait_pid_map_helper_ r) (any_process_died_ r)
                     (last_dead_pid_ r) (pid_counter_ r) (progs_running_ r))
  | None => Err EUndef
  end.

Definition wait_any (r : ProcessRegistry) (tid : Z) : ProcessRegistry :=
  mkReg (waitpid_map_ r) (wait_pid_map_helper_ r) (any_process_died_ r ++ [tid])
    (last_dead_pid_ r) (pid_counter_ r) (progs_running_ r).

(** [Syscall::waitpid]: what the arguments ask for. *)
Inductive request := Return (value : Z) | ForAny | ForPid (pid : Z).

Definition waitpid (own pid status options : Z) : request :=
  if (Descriptors.USER_BREAK <=? status) || (pid =? 0) || (s32 pid <? -1) || (pid =? own) then Return (u64 (-1))
  else if (options =? 0) || (options =? 4) then
    if s32 pid =? -1 then ForAny else ForPid pid
  else Return (u64 (-1)).

(** ** The threads *)

(** Where a thread is: in user code with the result of its last call, between
    the two critical sections of [waitForPid], asleep on the condition of a
    process or of any, or woken up from it. *)
Inductive phase : Set :=
| User (result : Z)
| Got (pid : Z)
| Asleep (pid : Z)
| AsleepAny
| Woken (pid : Z)
| WokenAny.

(** [proc_of]: the process of each thread that has not ended. *)
Record sys : Set := mkSys {
  reg : ProcessRegistry;
  proc_of : gmap Z Z;
  phases : gmap Z phase;
}.

Definition rd {A} (m : gmap Z A) (k : Z) : res A := match m !! k with Some a => Val a | None => Err EUndef end.
Definition goto (s : sys) (r : ProcessRegistry) (tid : Z) (p : phase) : sys := mkSys r (proc_of s) (<[tid := p]> (phases s)).
Definition wake_all (p : phase) (l : list Z) (m : gmap Z phase) : gmap Z phase := foldr (λ tid, insert tid p) m l.

Inductive op :=
| Create                                       (* a process starts *)
| Spawn (tid pid : Z)                          (* a thread of it starts *)
| Call (tid pid status options : Z)            (* a thread in user code calls waitpid *)
| Go (tid : Z)                                 (* a thread inside waitpid goes on *)
| End (tid : Z)                                (* a thread in user code ends *)
| Exit (pid : Z).                              (* the destructor of a process *)

Definition step (s : sys) (o : op) : res sys :=
  let r := reg s in
  match o with
  | Create =>
      let '(r, pid) := getNewPID r in
      r ← addToWaitPIDMap (processStart r) pid;
      Val (mkSys r (proc_of s) (phases s))
  | Spawn tid pid => Val (mkSys r (<[tid := pid]> (proc_of s)) (<[tid := User 0]> (phases s)))
  | Call tid pid status options =>
      own ← rd (proc_of s) tid;
      match waitpid own pid status options with
      | Return value => Val (goto s r tid (User value))
      | ForAny => Val (goto s (wait_any r tid) tid AsleepAny)
      | ForPid pid =>
          '(r, found) ← getCondToWait r own pid;
          Val (goto s r tid (if found : bool then Got pid else User (u64 (-1))))
      end
  | Go tid =>
      p ← rd (phases s) tid;
      match p with
      | Got pid => r ← wait_pid r pid tid; Val (goto s r tid (Asleep pid))
      | Woken pid => Val (goto s r tid (User (u64 (s32 pid))))
      | WokenAny => Val (goto s r tid (User (u64 (s32 (getLastDeadPID r)))))
      | User _ | Asleep _ | AsleepAny => Err EBlock
      end
  | End tid => Val (mkSys r (delete tid (proc_of s)) (delete tid (phases s)))
  | Exit pid =>
      let '(r, _) := processExit r in
      '(r, woken, any) ← removeFromWaitPIDMap r pid;
      Val (mkSys r (proc_of s) (wake_all WokenAny any (wake_all (Woken pid) woken (phases s))))
  end.

(** What the rest of the kernel grants: ids do not run out, threads are new and
    belong to a process that runs, only threads in user code call and end, and a
    process is destroyed after its last thread. *)
Definition enabled (s : sys) (o : op) : Prop :=
  match o with
  | Create => pid_counter_ (reg s) < 2 ^ 32 - 1
  | Spawn tid pid => phases s !! tid = None ∧ is_Some (waitpid_map_ (reg s) !! pid)
  | Call tid _ _ _ | End tid => ∃ v, phases s !! tid = Some (User v)
  | Go tid => True
  | Exit pid => is_Some (waitpid_map_ (reg s) !! pid) ∧ ∀ tid, proc_of s !! tid ≠ Some pid
  end.

Definition boot : sys := mkSys (mkReg ∅ ∅ [] 0 0 0) ∅ ∅.

Inductive reachable : sys → Prop :=
| reach_boot : reachable boot
| reach_step s o s' : reachable s → enabled s o → step s o = Val s' → reachable s'.

(** ** The deadlock check *)

Definition edge (helper : gmap Z (list Z)) (a b : Z) : Prop := ∃ l, helper !! a = Some l ∧ b ∈ l.
Definition acyclic (helper : gmap Z (list Z)) : Prop := ∀ a, ¬ tc (edge helper) a a.

Lemma tc_edge_dom h a b : tc (edge h) a b → is_Some (h !! a).
Proof. destruct 1 as [? ? (l & -> & _)|? ? ? (l & -> & _) _]; by eexists. Qed.

Lemma at_Val m k l : at_ m k = Val l ↔ m !! k = Some l.
Proof. unfold at_. destruct (m !! k); naive_solver. Qed.

(** What an answer means: [true], a way from [pid] to [w]; [false], no way, and
    everything on the ways is alive; the failed assertion, a dead process on one
    of them. *)
Definition answers (h : gmap Z (list Z)) (w pid : Z) (r : res bool) : Prop :=
  match r with
  | Val true => tc (edge h) pid w
  | Val false => ¬ tc (edge h) pid w ∧ ∀ d, rtc (edge h) pid d → is_Some (h !! d)
  | Err EAssert => ∃ d, rtc (edge h) pid d ∧ h !! d = None
  | Err _ => False
  end.

Lemma visit_answers h w pid l check : h !! pid = Some l → (∀ p, p ∈ l → answers h w p (check p)) →
  answers h w pid (visit check w l).
Proof.
  intros Hpid. assert (Hgen : ∀ done todo, l = done ++ todo →
    (∀ p, p ∈ l → answers h w p (check p)) → (∀ p, p ∈ done → p ≠ w ∧ answers h w p (Val false)) →
    answers h w pid (visit check w todo)).
  { intros done todo. revert done. induction todo as [|p todo IH]; intros done -> Hc Hd; cbn [visit].
    - rewrite app_nil_r in Hpid. split.
      + intros Ht. inversion Ht as [? ? (l' & E & Hin)|? b ? (l' & E & Hin) Ht']; subst; rewrite Hpid in E; injection E as <-;
          destruct (Hd _ Hin) as [? [Hn _]]; done.
      + intros d Hr. inversion Hr as [|? b ? (l' & E & Hin) Hr']; subst; [by eexists|]. rewrite Hpid in E. injection E as <-.
        by apply (Hd _ Hin).
    - assert (Hin : p ∈ done ++ p :: todo) by (apply elem_of_app; right; left).
      assert (He : edge h pid p) by by exists (done ++ p :: todo).
      destruct (Z.eqb_spec p w) as [->|Hne]; [by apply tc_once|]. pose proof (Hc _ Hin) as Hp.
      destruct (check p) as [[]|[]]; cbn [answers mbind res_bind] in *; try done.
      + by eapply tc_l.
      + apply (IH (done ++ [p])); [by rewrite <- app_assoc|done|].
        intros q [Hq|Hq%list_elem_of_singleton]%elem_of_app; [by apply Hd|by subst].
      + destruct Hp as (d & Hr & Hn). exists d. split; [|done]. by eapply rtc_l. }
  intros Hc. apply (Hgen [] l); [done|done|]. by intros p ?%not_elem_of_nil.
Qed.

(** The recursion goes along a way, which meets no process twice. *)
Lemma check_loop_answers h w fuel : acyclic h → ∀ pid (V : gset Z),
  V ⊆ dom h → (∀ v, v ∈ V → tc (edge h) v pid) → (size h < fuel + size V)%nat →
  answers h w pid (check_loop fuel h pid w).
Proof.
  intros Ha. induction fuel as [|fuel IH]; intros pid V HV Hto Hf; cbn [check_loop].
  { pose proof (subseteq_size _ _ HV). rewrite size_dom in *. lia. }
  destruct (at_ h pid) as [l|e] eqn:El; cbn [mbind res_bind].
  - apply at_Val in El. apply (visit_answers _ _ _ l); [done|]. intros p Hp.
    assert (He : edge h pid p) by by exists l.
    apply (IH p (V ∪ {[pid]})).
    + intros v [Hv| ->%elem_of_singleton]%elem_of_union; [by apply HV|]. by apply elem_of_dom.
    + intros v [Hv| ->%elem_of_singleton]%elem_of_union; [|by apply tc_once]. eapply tc_r; [by apply Hto|done].
    + rewrite size_union, size_singleton; [lia|]. intros v Hv ->%elem_of_singleton. apply (Ha pid). by apply Hto.
  - unfold at_ in El. destruct (h !! pid) eqn:E; [done|]. injection El as <-. exists pid. by split; [apply rtc_refl|].
Qed.

Lemma waits_tc_add h a b x l : h !! x = Some l → ∀ y, tc (edge (<[x := l ++ [y]]> h)) a b →
  tc (edge h) a b ∨ rtc (edge h) a x ∧ rtc (edge h) y b.
Proof.
  intros Hx y.
  assert (Hstep : ∀ a b, edge (<[x := l ++ [y]]> h) a b → edge h a b ∨ a = x ∧ b = y).
  { intros c d (l' & E & Hin). rewrite lookup_insert in E. destruct (decide (x = c)) as [<-|]; [|left; by exists l'].
    injection E as <-. apply elem_of_app in Hin as [Hin| ->%list_elem_of_singleton]; [left; by exists l|by right]. }
  induction 1 as [a b He%Hstep|a c b He%Hstep _ IH].
  - destruct He as [He|[-> ->]]; [left; by apply tc_once|right; by split].
  - destruct He as [He|[-> ->]], IH as [Hc|[H1 H2]].
    + left. by eapply tc_l.
    + right. split; [by eapply rtc_l|done].
    + right. split; [done|by apply tc_rtc].
    + by right.
Qed.

Lemma acyclic_add h x l y : acyclic h → h !! x = Some l → x ≠ y → ¬ tc (edge h) y x →
  acyclic (<[x := l ++ [y]]> h).
Proof.
  intros Ha Hx Hne Hn a [Ht|[H1 H2]]%(waits_tc_add _ _ _ _ _ Hx); [by apply (Ha a)|].
  assert (Hr : rtc (edge h) y x) by by etrans. apply rtc_inv in Hr as [->|(z & He & Hr)]; [done|].
  apply Hn. by eapply tc_rtc_r; [apply tc_once|].
Qed.

Lemma waits_acyclic_sub h h' : (∀ a b, edge h' a b → edge h a b) → acyclic h → acyclic h'.
Proof. intros Hs Ha a Ht. apply (Ha a). exact (tc_congruence (R := edge h') id (edge h) a a Hs Ht). Qed.

(** ** Reachable states *)

Definition waits_for (p : phase) : option Z :=
  match p with Got pid | Asleep pid | Woken pid => Some pid | _ => None end.

Record sys_ok (s : sys) : Prop := {
  so_dom : dom (waitpid_map_ (reg s)) = dom (wait_pid_map_helper_ (reg s));
  so_new : ∀ pid, is_Some (wait_pid_map_helper_ (reg s) !! pid) → 0 <= pid < pid_counter_ (reg s);
  so_old : ∀ a b, edge (wait_pid_map_helper_ (reg s)) a b → b < pid_counter_ (reg s);
  so_counter : 0 <= pid_counter_ (reg s) < 2 ^ 32;
  so_acyclic : acyclic (wait_pid_map_helper_ (reg s));
  so_running : progs_running_ (reg s) = Z.of_nat (size (waitpid_map_ (reg s)));
  so_threads : dom (proc_of s) = dom (phases s);
  so_procs : ∀ tid pid, proc_of s !! tid = Some pid → is_Some (waitpid_map_ (reg s) !! pid);
  so_edge : ∀ tid own p pid, proc_of s !! tid = Some own → phases s !! tid = Some p → waits_for p = Some pid →
    edge (wait_pid_map_helper_ (reg s)) own pid;
  so_asleep : ∀ tid pid, phases s !! tid = Some (Asleep pid) ↔
    ∃ l, waitpid_map_ (reg s) !! pid = Some l ∧ tid ∈ l;
  so_any : ∀ tid, phases s !! tid = Some AsleepAny ↔ tid ∈ any_process_died_ (reg s);
}.

Lemma wake_all_lookup p l m tid : wake_all p l m !! tid = if decide (tid ∈ l) then Some p else m !! tid.
Proof.
  induction l as [|t l IH]; cbn [wake_all foldr]; [by rewrite decide_False by apply not_elem_of_nil|].
  rewrite lookup_insert. fold (wake_all p l m). rewrite IH.
  destruct (decide (t = tid)) as [->|]; [by rewrite decide_True by left|].
  destruct (decide (tid ∈ l)); [by rewrite decide_True by (by right)|rewrite decide_False; [done|]].
  rewrite not_elem_of_cons. naive_solver.
Qed.

Lemma so_size s : sys_ok s → Z.of_nat (size (waitpid_map_ (reg s))) <= pid_counter_ (reg s).
Proof.
  intros []. rewrite <- size_dom, <- (Z2Nat.id (pid_counter_ (reg s))) by lia. apply inj_le.
  rewrite <- (length_seqZ 0 (pid_counter_ (reg s))), <- (size_list_to_set (C:=gset Z) (seqZ 0 (pid_counter_ (reg s)))) by apply NoDup_seqZ.
  apply subseteq_size. intros p. rewrite so_dom0, elem_of_list_to_set, elem_of_seqZ. intros []%elem_of_dom%so_new0. lia.
Qed.

(** A thread moves without touching the conditions. *)
Lemma ok_goto s tid own p : sys_ok s → proc_of s !! tid = Some own →
  (∀ q, phases s !! tid = Some q → match q with Asleep _ | AsleepAny => False | _ => True end) →
  match p with Asleep _ | AsleepAny => False | _ => True end →
  (∀ pid, waits_for p = Some pid → edge (wait_pid_map_helper_ (reg s)) own pid) →
  sys_ok (goto s (reg s) tid p).
Proof.
  intros [] Ht Hq Hp He. split; cbn; try done.
  - rewrite dom_insert_L, so_threads0. assert (tid ∈ dom (phases s)) by (rewrite <- so_threads0; by apply elem_of_dom). set_solver.
  - intros t o q pid Hto. rewrite lookup_insert. destruct (decide (tid = t)) as [<-|]; [|by eauto].
    intros [= <-] Hw. rewrite Ht in Hto. injection Hto as <-. by apply He.
  - intros t pid. rewrite <- so_asleep0, lookup_insert. destruct (decide (tid = t)) as [<-|]; [|done].
    split; [intros [= ->]; done|]. intros Hs. by destruct (Hq _ Hs).
  - intros t. rewrite <- so_any0, lookup_insert. destruct (decide (tid = t)) as [<-|]; [|done].
    split; [intros [= ->]; done|]. intros Hs. by destruct (Hq _ Hs).
Qed.

Lemma wait_ok_create s s' : sys_ok s → pid_counter_ (reg s) < 2 ^ 32 - 1 → step s Create = Val s' → sys_ok s'.
Proof.
  intros Hs Hn E. pose proof Hs as [].
  assert (Hh : wait_pid_map_helper_ (reg s) !! pid_counter_ (reg s) = None) by (apply eq_None_not_Some; intros []%so_new0; lia).
  assert (Hm : waitpid_map_ (reg s) !! pid_counter_ (reg s) = None)
    by (apply not_elem_of_dom; rewrite so_dom0; by apply not_elem_of_dom).
  pose proof (so_size _ Hs) as Hlt.
  cbn [step] in E. unfold getNewPID, processStart, addToWaitPIDMap in E. cbn in E. rewrite bool_decide_true in E by done. cbn in E. injection E as <-.
  assert (He : ∀ a b, edge (<[pid_counter_ (reg s) := []]> (wait_pid_map_helper_ (reg s))) a b → edge (wait_pid_map_helper_ (reg s)) a b).
  { intros a b (l & E & Hin). rewrite lookup_insert in E. case_decide; [injection E as <-; by apply not_elem_of_nil in Hin|by exists l]. }
  split; cbn; rewrite ?wrap_small by lia; try done.
  - by rewrite !dom_insert_L, so_dom0.
  - intros pid. rewrite lookup_insert. case_decide; [lia|]. intros []%so_new0. lia.
  - intros a b ?%He%so_old0. lia.
  - lia.
  - by eapply waits_acyclic_sub.
  - rewrite map_size_insert_None by done. lia.
  - intros tid pid ?%so_procs0. rewrite lookup_insert. case_decide; [by eexists|done].
  - intros tid own p pid Ht Hp Hw. destruct (so_edge0 _ _ _ _ Ht Hp Hw) as (l & E & Hin). exists l.
    rewrite lookup_insert_ne; [done|]. intros <-. by rewrite Hh in E.
  - intros tid pid. rewrite so_asleep0, lookup_insert. case_decide as E; [subst pid|done].
    split; [intros (l & E & _); by rewrite Hm in E|intros (l & [= <-] & Hin); by apply not_elem_of_nil in Hin].
Qed.

Lemma ok_spawn s tid pid s' : sys_ok s → phases s !! tid = None → is_Some (waitpid_map_ (reg s) !! pid) →
  step s (Spawn tid pid) = Val s' → sys_ok s'.
Proof.
  intros [] Hn Hp [= <-]. split; cbn; try done.
  - by rewrite !dom_insert_L, so_threads0.
  - intros t p. rewrite lookup_insert. case_decide; [by intros [= <-]|apply so_procs0].
  - intros t o p q. rewrite !lookup_insert. case_decide; [by intros _ [= <-]|apply so_edge0].
  - intros t p. rewrite <- so_asleep0, lookup_insert. case_decide; [subst; by rewrite Hn|done].
  - intros t. rewrite <- so_any0, lookup_insert. case_decide; [subst; by rewrite Hn|done].
Qed.

Lemma ok_end s tid s' v : sys_ok s → phases s !! tid = Some (User v) → step s (End tid) = Val s' → sys_ok s'.
Proof.
  intros [] Hn [= <-]. split; cbn; try done.
  - by rewrite !dom_delete_L, so_threads0.
  - intros t p. rewrite lookup_delete. case_decide; [done|apply so_procs0].
  - intros t o p q. rewrite !lookup_delete. case_decide; [done|apply so_edge0].
  - intros t p. rewrite <- so_asleep0, lookup_delete. case_decide; [subst; by rewrite Hn|done].
  - intros t. rewrite <- so_any0, lookup_delete. case_decide; [subst; by rewrite Hn|done].
Qed.

Lemma wait_ok_exit s pid s' : sys_ok s → (∀ tid, proc_of s !! tid ≠ Some pid) → step s (Exit pid) = Val s' → sys_ok s'.
Proof.
  intros Hs Hno E. pose proof Hs as []. cbn [step processExit] in E. unfold removeFromWaitPIDMap in E. cbn [waitpid_map_ wait_pid_map_helper_ any_process_died_] in E.
  destruct (at_ (waitpid_map_ (reg s)) pid) as [woken|] eqn:Ew; [|done]. apply at_Val in Ew. cbn in E. injection E as <-.
  assert (He : ∀ a b, edge (delete pid (wait_pid_map_helper_ (reg s))) a b → edge (wait_pid_map_helper_ (reg s)) a b).
  { intros a b (l & E & Hin). rewrite lookup_delete in E. case_decide; [done|by exists l]. }
  assert (Hin : pid ∈ dom (waitpid_map_ (reg s))) by (apply elem_of_dom; by eexists).
  assert (Hph : ∀ tid, wake_all WokenAny (any_process_died_ (reg s)) (wake_all (Woken pid) woken (phases s)) !! tid =
    match phases s !! tid with
    | Some AsleepAny => Some WokenAny
    | Some (Asleep p) => if decide (p = pid) then Some (Woken pid) else Some (Asleep p)
    | q => q end).
  { intros tid. rewrite !wake_all_lookup. pose proof (so_any0 tid) as Ha. pose proof (so_asleep0 tid) as Hsl.
    destruct (decide (tid ∈ any_process_died_ (reg s))) as [Hi|Hi]; [apply Ha in Hi as ->; done|].
    destruct (decide (tid ∈ woken)) as [Hw|Hw].
    - assert (phases s !! tid = Some (Asleep pid)) as -> by (apply Hsl; eauto). by rewrite decide_True.
    - destruct (phases s !! tid) as [[| |p| | |]|] eqn:Ep; try done; [|by destruct Hi; apply Ha].
      rewrite decide_False; [done|]. intros ->. destruct (proj1 (Hsl pid) eq_refl) as (l & E & Hl). rewrite Ew in E. by simplify_eq. }
  split; cbn [reg proc_of phases waitpid_map_ wait_pid_map_helper_ any_process_died_ pid_counter_ progs_running_]; try done.
  - by rewrite !dom_delete_L, so_dom0.
  - intros p. rewrite lookup_delete. case_decide; [by intros []|apply so_new0].
  - intros a b ?%He. by eapply so_old0.
  - by eapply waits_acyclic_sub.
  - rewrite so_running0, map_size_delete_Some by (by eexists).
    assert (size (waitpid_map_ (reg s)) ≠ 0)%nat by (rewrite <- size_dom; intros E%size_empty_inv; set_solver).
    pose proof (so_size _ Hs).
    rewrite wrap_small by lia. lia.
  - rewrite so_threads0. apply set_eq. intros tid. rewrite !elem_of_dom. rewrite Hph.
    destruct (phases s !! tid) as [[]|]; [..|done]; try (split; by eexists). case_decide; split; by eexists.
  - intros tid p Ht. rewrite lookup_delete. case_decide; [subst; by apply Hno in Ht|by eapply so_procs0].
  - intros tid own q p Ht. rewrite Hph. intros Hq Hw.
    assert (∃ q0, phases s !! tid = Some q0 ∧ waits_for q0 = Some p) as (q0 & Hq0 & Hw0).
    { destruct (phases s !! tid) as [[]|]; try (by simplify_eq); try (eexists; split; [done|]; by simplify_eq).
      case_decide; simplify_eq; eexists; (split; [done|]); done. }
    destruct (so_edge0 _ _ _ _ Ht Hq0 Hw0) as (l & E & Hl). exists l. rewrite lookup_delete_ne; [done|]. intros <-. by apply Hno in Ht.
  - intros tid p. rewrite Hph. rewrite lookup_delete. pose proof (so_asleep0 tid) as Hsl.
    destruct (phases s !! tid) as [[| |p'| | |]|] eqn:Ep; try (split; [done|intros (l & E & Hl); case_decide; [done|]; assert (Eq := proj2 (Hsl p) (ex_intro _ l (conj E Hl))); congruence]).
    destruct (decide (p' = pid)) as [->|Hne], (decide (pid = p)) as [<-|Hne']; split; try (intros [= ->]; done); try (by intros (? & ? & ?)).
    + intros ?%Hsl. congruence.
    + intros [= ->]. by apply Hsl.
    + intros ?%Hsl. congruence.
  - intros tid. rewrite Hph. split; [|by intros ?%not_elem_of_nil].
    destruct (phases s !! tid) as [[]|]; try done. by case_decide.
Qed.

Lemma check_answers s pid w : sys_ok s →
  answers (wait_pid_map_helper_ (reg s)) w pid (checkWaitPidDeadlock (reg s) pid w).
Proof.
  intros []. apply (check_loop_answers _ _ _ so_acyclic0 pid ∅); [set_solver|set_solver|rewrite size_empty; lia].
Qed.

Lemma waitpid_ForPid own pid status options pid' : waitpid own pid status options = ForPid pid' → pid' = pid ∧ pid ≠ own.
Proof.
  unfold waitpid. destruct (pid =? own) eqn:E; rewrite ?orb_true_r, ?orb_false_r; [done|].
  apply Z.eqb_neq in E. repeat case_match; try done. intros [= <-]. by split.
Qed.

Lemma ok_call s tid pid status options s' v : sys_ok s → phases s !! tid = Some (User v) →
  step s (Call tid pid status options) = Val s' → sys_ok s'.
Proof.
  intros Hs Hph E. pose proof Hs as []. cbn [step] in E. unfold rd in E. destruct (proc_of s !! tid) as [own|] eqn:Ht; [|done].
  cbn [mbind res_bind] in E. destruct (waitpid own pid status options) as [u| |pid'] eqn:Ew.
  - injection E as <-. apply (ok_goto _ _ own); [done..| |done|done]. intros q Hq. rewrite Hph in Hq. by injection Hq as <-.
  - injection E as <-. split; cbn; try done.
    + rewrite dom_insert_L, so_threads0. assert (tid ∈ dom (phases s)) by (apply elem_of_dom; by eexists). set_solver.
    + intros t o q p Hto. rewrite lookup_insert. case_decide; [by intros [= <-]|by eauto].
    + intros t p. rewrite <- so_asleep0, lookup_insert. case_decide; [subst; by rewrite Hph|done].
    + intros t. rewrite elem_of_app, <- so_any0, list_elem_of_singleton, lookup_insert. case_decide; [subst; naive_solver|naive_solver].
  - apply waitpid_ForPid in Ew as [-> Hne]. unfold getCondToWait in E.
    pose proof (check_answers s pid own Hs) as Ha.
    destruct (checkWaitPidDeadlock (reg s) pid own) as [[]|]; cbn [mbind res_bind answers] in *; [|destruct (waitpid_map_ (reg s) !! pid) as [ws|] eqn:Em|done].
    + injection E as <-. apply (ok_goto _ _ own); [done..| |done|done]. intros q Hq. rewrite Hph in Hq. by injection Hq as <-.
    + destruct (at_ _ own) as [l|] eqn:El; [|done]. apply at_Val in El. cbn in E. injection E as <-.
      assert (He : ∀ a b, edge (wait_pid_map_helper_ (reg s)) a b → edge (<[own := l ++ [pid]]> (wait_pid_map_helper_ (reg s))) a b).
      { intros a b (l' & E & Hin). destruct (decide (own = a)) as [<-|].
        - exists (l ++ [pid]). rewrite lookup_insert_eq. split; [done|]. rewrite El in E. injection E as <-. apply elem_of_app. by left.
        - exists l'. by rewrite lookup_insert_ne. }
      split; cbn; try done.
      * rewrite dom_insert_L. assert (own ∈ dom (wait_pid_map_helper_ (reg s))) by (apply elem_of_dom; by eexists). set_solver.
      * intros p. rewrite lookup_insert. case_decide; [subst; intros _; apply so_new0; by eexists|apply so_new0].
      * intros a b (l' & E & Hin). rewrite lookup_insert in E. case_decide; [|by apply (so_old0 a); exists l'].
        injection E as <-. apply elem_of_app in Hin as [Hin| ->%list_elem_of_singleton]; [apply (so_old0 own); by exists l|].
        apply so_new0. apply elem_of_dom. rewrite <- so_dom0. apply elem_of_dom. by eexists.
      * apply acyclic_add; [done..|]. apply Ha.
      * rewrite dom_insert_L, so_threads0. assert (tid ∈ dom (phases s)) by (apply elem_of_dom; by eexists). set_solver.
      * intros t o q p Hto. rewrite lookup_insert. destruct (decide (tid = t)) as [<-|].
        -- intros [= <-] [= <-]. rewrite Ht in Hto. injection Hto as <-. exists (l ++ [pid]). rewrite lookup_insert_eq. split; [done|]. apply elem_of_app. right. by left.
        -- intros Hq Hw. apply He. by eapply so_edge0.
      * intros t p. rewrite <- so_asleep0, lookup_insert. case_decide; [subst; by rewrite Hph|done].
      * intros t. rewrite <- so_any0, lookup_insert. case_decide; [subst; by rewrite Hph|done].
    + injection E as <-. apply (ok_goto _ _ own); [done..| |done|done]. intros q Hq. rewrite Hph in Hq. by injection Hq as <-.
Qed.

Lemma ok_go s tid s' : sys_ok s → step s (Go tid) = Val s' → sys_ok s'.
Proof.
  intros Hs E. pose proof Hs as []. cbn [step] in E. unfold rd in E. destruct (phases s !! tid) as [p|] eqn:Hph; [|done].
  assert (∃ own, proc_of s !! tid = Some own) as [own Ht].
  { apply elem_of_dom. rewrite so_threads0. apply elem_of_dom. by eexists. }
  cbn [mbind res_bind] in E. destruct p as [v|pid|pid| |pid|]; try done.
  - unfold wait_pid in E. destruct (waitpid_map_ (reg s) !! pid) as [l|] eqn:El; [|done]. cbn in E. injection E as <-.
    split; cbn; try done.
    + rewrite dom_insert_L. assert (pid ∈ dom (waitpid_map_ (reg s))) by (apply elem_of_dom; by eexists). set_solver.
    + rewrite map_size_insert_Some by by eexists. done.
    + rewrite dom_insert_L, so_threads0. assert (tid ∈ dom (phases s)) by (apply elem_of_dom; by eexists). set_solver.
    + intros t p ?%so_procs0. rewrite lookup_insert. case_decide; [by eexists|done].
    + intros t o q p Hto. rewrite lookup_insert. destruct (decide (tid = t)) as [<-|]; [|by eauto].
      intros [= <-] [= <-]. rewrite Ht in Hto. injection Hto as <-. by eapply so_edge0.
    + intros t p. rewrite !lookup_insert. pose proof (so_asleep0 t p) as Hsl.
      destruct (decide (tid = t)) as [<-|], (decide (pid = p)) as [<-|].
      * split; [|done]. intros _. exists (l ++ [tid]). split; [done|]. apply elem_of_app. right. by left.
      * rewrite Hph in Hsl. split; [congruence|]. intros ?%Hsl. done.
      * rewrite Hsl, El. split; intros (l' & [= <-] & Hin).
        -- exists (l ++ [tid]). split; [done|]. apply elem_of_app. by left.
        -- exists l. split; [done|]. apply elem_of_app in Hin as [|?%list_elem_of_singleton]; [done|congruence].
      * done.
    + intros t. rewrite <- so_any0, lookup_insert. case_decide; [subst; by rewrite Hph|done].
  - injection E as <-. apply (ok_goto _ _ own); [done..| |done|done]. intros q Hq. rewrite Hph in Hq. by injection Hq as <-.
  - injection E as <-. apply (ok_goto _ _ own); [done..| |done|done]. intros q Hq. rewrite Hph in Hq. by injection Hq as <-.
Qed.

Lemma wait_reachable_ok s : reachable s → sys_ok s.
Proof.
  induction 1 as [|s o s' _ IH Hen E].
  - split; cbn; try done; try (by intros ? []); try (by intros ? ? (? & ? & _)).
    + intros a []%tc_edge_dom. done.
    + intros tid pid. split; [done|]. by intros (? & ? & _).
    + intros tid. split; [done|]. by intros ?%not_elem_of_nil.
  - destruct o; cbn [enabled] in Hen; [by eapply wait_ok_create|destruct Hen; by eapply ok_spawn|destruct Hen; by eapply ok_call|
      by eapply ok_go|destruct Hen; by eapply ok_end|destruct Hen; by eapply wait_ok_exit].
Qed.

(** ** A family: process 1 with thread 10, its child 2 with thread 11, and a
    child 3 of that without threads *)

Definition enabledb (s : sys) (o : op) : bool :=
  match o with
  | Create => pid_counter_ (reg s) <? 2 ^ 32 - 1
  | Spawn tid pid => match phases s !! tid with None => bool_decide (is_Some (waitpid_map_ (reg s) !! pid)) | _ => false end
  | Call tid _ _ _ | End tid => match phases s !! tid with Some (User _) => true | _ => false end
  | Go _ => true
  | Exit pid => bool_decide (is_Some (waitpid_map_ (reg s) !! pid)) && bool_decide (map_Forall (λ _ p, p ≠ pid) (proc_of s))
  end.

Lemma enabledb_enabled s o : enabledb s o = true → enabled s o.
Proof.
  destruct o; cbn; try done.
  - by intros ?%Z.ltb_lt.
  - case_match; [done|]. by intros ?%bool_decide_eq_true.
  - case_match; [|done]. case_match; try done. eauto.
  - case_match; [|done]. case_match; try done. eauto.
  - intros [?%bool_decide_eq_true Hf%bool_decide_eq_true]%andb_true_iff. split; [done|]. intros tid Ht. by apply (Hf tid _ Ht).
Qed.

Fixpoint play (s : sys) (l : list op) : res sys :=
  match l with
  | [] => Val s
  | o :: l => _ ← kassert (enabledb s o); s ← step s o; play s l
  end.

Lemma wait_play_reachable l : ∀ s s', reachable s → play s l = Val s' → reachable s'.
Proof.
  induction l as [|o l IH]; intros s s' Hs E; cbn [play] in E; [by injection E as <-|].
  apply bind_Val in E as (u & He%kassert_Val & E). apply bind_Val in E as (s1 & Es & E).
  eapply IH; [|done]. eapply reach_step; [done| |done]. by apply enabledb_enabled.
Qed.

Definition get (r : res sys) : sys := match r with Val s => s | Err _ => boot end.

Lemma get_reachable l : is_val (play boot l) = true → reachable (get (play boot l)).
Proof.
  destruct (play boot l) as [s|] eqn:E; [|done]. intros _. eapply wait_play_reachable; [apply reach_boot|exact E].
Qed.
Definition ex_family : list op := [Create; Create; Create; Create; Spawn 10 1; Spawn 11 2].


(** The parent has waited for its child 3, which has ended. *)
Definition ex_waited : sys := get (play boot (ex_family ++ [Call 11 3 0 0; Go 11; Exit 3; Go 11])).

Lemma ex_waited_reachable : reachable ex_waited.
Proof. apply get_reachable. reflexivity. Qed.

(** The parent sleeps for its child, and thread 10 for the parent. *)
Definition ex_chain : sys := get (play boot (ex_family ++ [Call 11 3 0 0; Go 11])).
Lemma ex_chain_reachable : reachable ex_chain.
Proof. apply get_reachable. reflexivity. Qed.

(** ** Theorems *)

(** A thread of process [a] is on its way to sleep, or sleeps, until process [b]
    ends. *)
Definition awaits (s : sys) (a b : Z) : Prop :=
  ∃ tid p, proc_of s !! tid = Some a ∧ phases s !! tid = Some p ∧ (p = Got b ∨ p = Asleep b).

(** What a thread in user code or woken up does leaves the waiting of the others
    as it is. *)
Lemma awaits_goto s r tid p q a b : phases s !! tid = Some p → (∀ c, p ≠ Got c ∧ p ≠ Asleep c) →
  awaits s a b → awaits (goto s r tid q) a b.
Proof.
  intros Hp Hne (t & p' & Ht & Hp' & Hw). exists t, p'. split_and!; [done| |done]. cbn [phases goto].
  rewrite lookup_insert_ne; [done|]. intros <-. rewrite Hp in Hp'. injection Hp' as <-. destruct (Hne b). naive_solver.
Qed.

(** On record between two processes that run is what a thread waits for. *)
Definition recorded (s : sys) : Prop := ∀ a b, edge (wait_pid_map_helper_ (reg s)) a b →
  is_Some (waitpid_map_ (reg s) !! b) → awaits s a b.

Lemma recorded_create s s' : sys_ok s → recorded s → step s Create = Val s' → recorded s'.
Proof.
  intros [] Hrec E a b (l & El & Hin) Hb. cbn in E. apply bind_Val in E as (r & E & [= <-]).
  apply bind_Val in E as ([] & _ & [= <-]). cbn in *. rewrite lookup_insert in El. case_decide as Ha.
  { injection El as <-. by apply not_elem_of_nil in Hin. }
  assert (He : edge (wait_pid_map_helper_ (reg s)) a b) by by exists l. pose proof (so_old0 _ _ He).
  rewrite lookup_insert_ne in Hb by lia. exact (Hrec a b He Hb).
Qed.

Lemma recorded_call s tid pid status options s' v : sys_ok s → recorded s → phases s !! tid = Some (User v) →
  step s (Call tid pid status options) = Val s' → recorded s'.
Proof.
  intros Hs Hrec Hph E. cbn [step] in E. unfold rd in E. destruct (proc_of s !! tid) as [own|] eqn:Ht; [|done].
  cbn [mbind res_bind] in E.
  assert (Hmove : ∀ r q a b, awaits s a b → awaits (goto s r tid q) a b).
  { intros r q a b. by apply (awaits_goto s r tid (User v)). }
  destruct (waitpid own pid status options) as [value| |pid'].
  - injection E as <-. intros a b He Hb. by apply Hmove, Hrec.
  - injection E as <-. intros a b He Hb. by apply Hmove, Hrec.
  - unfold getCondToWait in E. destruct (checkWaitPidDeadlock _ _ _) as [[]|]; cbn [mbind res_bind] in E; [| |done].
    { injection E as <-. intros a b He Hb. by apply Hmove, Hrec. }
    destruct (waitpid_map_ (reg s) !! pid') as [ws|] eqn:Em; cbn [mbind res_bind] in E.
    + destruct (at_ _ own) as [l|] eqn:El; [|done]. apply at_Val in El. cbn in E. injection E as <-.
      intros a b (l' & E & Hin) Hb. cbn in E, Hb. rewrite lookup_insert in E. case_decide as Ha.
      * subst a. injection E as <-. apply elem_of_app in Hin as [Hin| ->%list_elem_of_singleton].
        -- apply Hmove, Hrec; [by exists l|done].
        -- exists tid, (Got pid'). cbn. rewrite lookup_insert_eq. by split_and!; [| |left].
      * apply Hmove, Hrec; [by exists l'|done].
    + injection E as <-. intros a b He Hb. by apply Hmove, Hrec.
Qed.

Lemma recorded_go s tid s' : recorded s → step s (Go tid) = Val s' → recorded s'.
Proof.
  intros Hrec E. cbn [step] in E. unfold rd in E. destruct (phases s !! tid) as [p|] eqn:Hph; [|done].
  cbn [mbind res_bind] in E. destruct p as [v|pid|pid| |pid|]; try done.
  - unfold wait_pid in E. destruct (waitpid_map_ (reg s) !! pid) as [l|] eqn:El; [|done]. cbn in E. injection E as <-.
    intros a b He Hb. cbn in He, Hb. destruct (Hrec a b He) as (t & q & Ht & Hq & Hw).
    { rewrite lookup_insert in Hb. case_decide; [subst; by eexists|done]. }
    destruct (decide (tid = t)) as [<-|Hne].
    + rewrite Hph in Hq. injection Hq as <-. destruct Hw as [[= ->]|]; [|done]. exists tid, (Asleep b). cbn.
      rewrite lookup_insert_eq. by split_and!; [| |right].
    + exists t, q. cbn. by rewrite lookup_insert_ne.
  - injection E as <-. intros a b He Hb. eapply awaits_goto; [done|done|by apply Hrec].
  - injection E as <-. intros a b He Hb. eapply awaits_goto; [done|done|by apply Hrec].
Qed.

Lemma recorded_exit s pid s' : sys_ok s → recorded s → step s (Exit pid) = Val s' → recorded s'.
Proof.
  intros [] Hrec E. cbn in E. unfold removeFromWaitPIDMap in E. apply bind_Val in E as ([[r w] any] & E & [= <-]).
  apply bind_Val in E as (woken & Ew%at_Val & [= <- <- <-]). cbn in *. intros a b (l & El & Hin) Hb. cbn in *.
  rewrite lookup_delete in El. case_decide; [done|]. rewrite lookup_delete in Hb. case_decide; [by destruct Hb|].
  destruct (Hrec a b) as (t & q & Ht & Hq & Hw); [by exists l|done|].
  exists t, q. split_and!; [done| |done]. cbn. rewrite !wake_all_lookup, !decide_False; [done| |].
  - intros Hin'. assert (phases s !! t = Some (Asleep pid)) as E by (apply so_asleep0; eauto).
    rewrite Hq in E. destruct Hw as [->| ->]; [done|]. by injection E as ->.
  - intros Hin'%so_any0. rewrite Hq in Hin'. destruct Hw as [->| ->]; done.
Qed.

Lemma recorded_reachable s : reachable s → recorded s.
Proof.
  induction 1 as [|s o s' Hr IH Hen E]; [by intros a b (l & E & _)|]. pose proof (wait_reachable_ok _ Hr) as Hs.
  destruct o as [|tid pid|tid pid status options|tid|tid|pid]; cbn [enabled] in Hen.
  - by eapply recorded_create.
  - injection E as <-. destruct Hen as [Hnew _]. intros a b He Hb. destruct (IH a b He Hb) as (t & p & Ht & Hp & Hw).
    exists t, p. cbn. rewrite !lookup_insert_ne by congruence. done.
  - destruct Hen as [v Hv]. by eapply recorded_call.
  - by eapply recorded_go.
  - injection E as <-. destruct Hen as [v Hv]. intros a b He Hb. destruct (IH a b He Hb) as (t & p & Ht & Hp & Hw).
    exists t, p. cbn. rewrite !lookup_delete_ne; [done|..]; intros ->; naive_solver.
  - by eapply recorded_exit.
Qed.

Lemma awaits_edge s a b : sys_ok s → awaits s a b → edge (wait_pid_map_helper_ (reg s)) a b.
Proof. intros [] (t & p & Ht & Hp & Hw). eapply so_edge0; [done|done|]. by destruct Hw as [->| ->]. Qed.

(** A process that has ended and to which the record leads from [pid]: [pid], or
    a process on the way, once waited for it. *)
Definition stale (s : sys) (pid d : Z) : Prop :=
  rtc (edge (wait_pid_map_helper_ (reg s))) pid d ∧ waitpid_map_ (reg s) !! d = None.

Lemma recorded_ways s pid : sys_ok s → recorded s → (∀ d, ¬ stale s pid d) → ∀ w,
  tc (edge (wait_pid_map_helper_ (reg s))) pid w → tc (awaits s) pid w.
Proof.
  intros Hs Hrec Hst w Ht. induction Ht as [a b He|a b w He _ IH].
  - apply tc_once, Hrec; [done|]. apply not_eq_None_Some. intros Hn. apply (Hst b). split; [by apply rtc_once|done].
  - eapply tc_l.
    + apply Hrec; [done|]. apply not_eq_None_Some. intros Hn. apply (Hst b). split; [by apply rtc_once|done].
    + apply IH. intros d [Hd Hn]. apply (Hst d). split; [by eapply rtc_l|done].
Qed.

(** C17: the deadlock check of [waitpid] always ends.  In every reachable state,
    if all processes the record leads to from [pid] still run, it says that
    waiting would close a circle exactly when it would: when a thread of [pid]
    waits for the caller, or for a process that waits for the caller, and so on.
    If the record leads to a process that has ended, which stays on record for
    those that waited for it, then the check never lets the caller wait: either it
    finds a way to the caller first or it fails the assertion of [at]. *)
Theorem checkWaitPidDeadlock_exact s pid waited_by : reachable s →
  ((∀ d, ¬ stale s pid d) → ∃ found, checkWaitPidDeadlock (reg s) pid waited_by = Val found ∧
     (found = true ↔ tc (awaits s) pid waited_by)) ∧
  (∀ d, stale s pid d → checkWaitPidDeadlock (reg s) pid waited_by = Err EAssert ∨
     checkWaitPidDeadlock (reg s) pid waited_by = Val true ∧
       tc (edge (wait_pid_map_helper_ (reg s))) pid waited_by).
Proof.
  intros Hr. pose proof (wait_reachable_ok _ Hr) as Hs. pose proof (recorded_reachable _ Hr) as Hrec.
  pose proof (check_answers s pid waited_by Hs) as Ha.
  assert (Hdead : ∀ d, wait_pid_map_helper_ (reg s) !! d = None ↔ waitpid_map_ (reg s) !! d = None).
  { intros d. by rewrite <- !not_elem_of_dom, (so_dom _ Hs). }
  destruct (checkWaitPidDeadlock (reg s) pid waited_by) as [[]|[]]; cbn [answers] in Ha; try done.
  - split; [|auto]. intros Hst. exists true. split; [done|]. split; [intros _|done]. by apply recorded_ways.
  - destruct Ha as [Hn Hal]. split.
    + intros _. exists false. split; [done|]. split; [done|]. intros Ht. destruct Hn.
      refine (tc_congruence (R := awaits s) id (edge _) pid waited_by _ Ht). intros a b. by apply awaits_edge.
    + intros d [Hd Hdn]. apply Hdead in Hdn. destruct (Hal d Hd) as [l E]. by rewrite E in Hdn.
  - destruct Ha as (d & Hd & Hdn). split; [|auto]. intros Hst. destruct (Hst d). split; [done|by apply Hdead].
Qed.

(** A thread of process [a] sleeps until process [b] ends. *)
Definition blocked (s : sys) (a b : Z) : Prop :=
  ∃ tid, proc_of s !! tid = Some a ∧ phases s !! tid = Some (Asleep b).

Definition asleep (p : option phase) : bool := match p with Some (Asleep _) => true | _ => false end.

Lemma blocked_alive s a b : sys_ok s → tc (blocked s) a b → is_Some (waitpid_map_ (reg s) !! b).
Proof.
  intros [] Ht. induction Ht as [a b (tid & _ & Hp)|]; [|done].
  apply so_asleep0 in Hp as (l & -> & _). by eexists.
Qed.

Lemma blocked_acyclic s a : sys_ok s → ¬ tc (blocked s) a a.
Proof.
  intros [] Ht. apply (so_acyclic0 a). refine (tc_congruence (R := blocked s) id (edge _) a a _ Ht).
  intros c d (tid & H1 & H2). by eapply so_edge0.
Qed.

Lemma blocked_sn s a : sys_ok s → sn (blocked s) a.
Proof.
  intros Hs. apply tc_finite_sn.
  - intros x. by apply blocked_acyclic.
  - exists (elements (dom (waitpid_map_ (reg s)))). intros b Ht. apply elem_of_elements, elem_of_dom. by eapply blocked_alive.
Qed.

(** Who waited for any process and was woken up finds the number of a process
    that has ended. *)
Definition dead_known (s : sys) : Prop := ∀ tid, phases s !! tid = Some WokenAny →
  last_dead_pid_ (reg s) < pid_counter_ (reg s) ∧ waitpid_map_ (reg s) !! last_dead_pid_ (reg s) = None.

Lemma dead_known_reachable s : reachable s → dead_known s.
Proof.
  induction 1 as [|s o s' Hr IH Hen E]; [done|]. pose proof (wait_reachable_ok _ Hr) as Hs. intros tid.
  destruct o as [|t pid|t pid status options|t|t|pid]; cbn [enabled step] in *.
  - cbn in E. apply bind_Val in E as (r & E & [= <-]). apply bind_Val in E as ([] & _ & [= <-]). cbn.
    intros Hp. destruct (IH _ Hp) as [Hlt Hn]. destruct Hs as [_ _ _ Hc _ _ _ _ _ _ _]. rewrite lookup_insert_ne by lia.
    split; [|done]. rewrite wrap_small by lia. lia.
  - injection E as <-. cbn. rewrite lookup_insert. case_decide; [done|apply IH].
  - destruct Hen as [v Hv]. apply bind_Val in E as (own & _ & E). destruct (waitpid own pid status options) as [value| |pid'].
    + injection E as <-. cbn. rewrite lookup_insert. case_decide; [done|apply IH].
    + injection E as <-. cbn. rewrite lookup_insert. case_decide; [done|apply IH].
    + apply bind_Val in E as ([r found] & E & [= <-]). cbn. rewrite lookup_insert. case_decide; [by destruct found|].
      intros Hp. destruct (IH _ Hp) as [Hlt Hn]. unfold getCondToWait in E.
      apply bind_Val in E as ([] & _ & E); [by injection E as <- _|]. destruct (_ !! pid'); [|by injection E as <- _].
      by apply bind_Val in E as (rec & _ & [= <- _]).
  - apply bind_Val in E as (p & Hp & E). destruct p as [v|pid|pid| |pid|]; try done.
    + apply bind_Val in E as (r & E & [= <-]). cbn. rewrite lookup_insert. case_decide; [done|]. intros Hq.
      destruct (IH _ Hq) as [Hlt Hn]. unfold wait_pid in E. destruct (_ !! pid) as [l|] eqn:El; [|done]. injection E as <-. cbn.
      split; [done|]. rewrite lookup_insert_ne; [done|]. intros ->. by rewrite Hn in El.
    + injection E as <-. cbn. rewrite lookup_insert. case_decide; [done|apply IH].
    + injection E as <-. cbn. rewrite lookup_insert. case_decide; [done|apply IH].
  - injection E as <-. cbn. rewrite lookup_delete. case_decide; [done|apply IH].
  - unfold processExit, removeFromWaitPIDMap in E. apply bind_Val in E as ([[r w] any] & E & [= <-]).
    apply bind_Val in E as (woken & Ew%at_Val & [= <- <- <-]). cbn in *. intros _.
    destruct Hs as [Hdom Hnew _ _ _ _ _ _ _ _ _]. split; [|apply lookup_delete_eq]. apply Hnew.
    apply elem_of_dom. rewrite <- Hdom. apply elem_of_dom. by eexists.
Qed.

(** C16: waiting for a process by its number cannot deadlock, and it ends.  In
    every reachable state a thread sleeps only for a process that is still there,
    such waiting makes no circle of processes, and following it from any process
    leads to one with no thread asleep this way (it may have one that waits for any
    process, which the deadlock check does not see: [any_circle]).  When a process
    ends, its end succeeds and wakes exactly the threads asleep for it and those
    that wait for any.  A thread that waited for a number then returns it; one that
    waited for any returns the number of the process that ended last when it goes
    on, which has ended, and is the one that woke it if no other ended in
    between. *)
Theorem waitpid_returns s : reachable s →
  (∀ tid pid, phases s !! tid = Some (Asleep pid) → is_Some (waitpid_map_ (reg s) !! pid)) ∧
  (∀ a, ¬ tc (blocked s) a a) ∧
  (∀ a, is_Some (waitpid_map_ (reg s) !! a) →
    ∃ b, rtc (blocked s) a b ∧ is_Some (waitpid_map_ (reg s) !! b) ∧
      ∀ tid c, proc_of s !! tid = Some b → phases s !! tid ≠ Some (Asleep c)) ∧
  (∀ pid, enabled s (Exit pid) → ∃ s', step s (Exit pid) = Val s' ∧ getLastDeadPID (reg s') = pid ∧
    ∀ tid, phases s' !! tid = match phases s !! tid with
      | Some (Asleep p) => Some (if decide (p = pid) then Woken pid else Asleep p)
      | Some AsleepAny => Some WokenAny
      | p => p end) ∧
  (∀ tid pid, phases s !! tid = Some (Woken pid) →
    ∃ s', step s (Go tid) = Val s' ∧ phases s' !! tid = Some (User (u64 (s32 pid)))) ∧
  (∀ tid, phases s !! tid = Some WokenAny →
    waitpid_map_ (reg s) !! getLastDeadPID (reg s) = None ∧
    ∃ s', step s (Go tid) = Val s' ∧ phases s' !! tid = Some (User (u64 (s32 (getLastDeadPID (reg s)))))).
Proof.
  intros Hr. pose proof (dead_known_reachable _ Hr) as Hdead. pose proof (wait_reachable_ok _ Hr) as Hs.
  pose proof Hs as []. split_and!.
  - intros tid pid (l & -> & _)%so_asleep0. by eexists.
  - intros a. by apply blocked_acyclic.
  - intros a. pose proof (blocked_sn s a Hs) as Hsn. induction Hsn as [a _ IH]. intros Ha.
    destruct (decide (map_Forall (λ tid own, ¬ (own = a ∧ asleep (phases s !! tid) = true)) (proc_of s))) as [Hf|Hf].
    + exists a. split; [apply rtc_refl|]. split; [done|]. intros tid c Ht Hp. apply (Hf tid a Ht). by rewrite Hp.
    + apply map_not_Forall in Hf as (tid & own & Ht & Hn); [|apply _]. apply dec_stable in Hn as [-> Hn].
      destruct (phases s !! tid) as [[| |pid| | |]|] eqn:Ep; try done.
      assert (Hb : blocked s a pid) by by exists tid.
      destruct (IH pid Hb) as (b & Hrt & Hb'); [by eapply blocked_alive; [|apply tc_once]|].
      exists b. split; [by eapply rtc_l|done].
  - intros pid [[woken Ew] Hno]. cbn [step processExit]. unfold removeFromWaitPIDMap, at_. cbn [waitpid_map_]. rewrite Ew. cbn [mbind res_bind any_process_died_].
    eexists. split; [done|]. split; [done|]. intros tid. cbn [phases]. rewrite !wake_all_lookup.
    pose proof (so_any0 tid) as Ha. pose proof (so_asleep0 tid) as Hsl.
    destruct (decide (tid ∈ any_process_died_ (reg s))) as [Hi|Hi]; [apply Ha in Hi as ->; done|].
    destruct (decide (tid ∈ woken)) as [Hw|Hw].
    + assert (phases s !! tid = Some (Asleep pid)) as -> by (apply Hsl; eauto). by rewrite decide_True.
    + destruct (phases s !! tid) as [[| |p| | |]|] eqn:Ep; try done; [|by destruct Hi; apply Ha].
      rewrite decide_False; [done|]. intros ->. destruct (proj1 (Hsl pid) eq_refl) as (l & E & Hl). rewrite Ew in E. by simplify_eq.
  - intros tid pid Hp. cbn [step]. unfold rd. rewrite Hp. cbn. eexists. split; [done|]. apply lookup_insert_eq.
  - intros tid Hp. destruct (Hdead _ Hp) as [_ Hn]. split; [done|]. cbn [step]. unfold rd. rewrite Hp. cbn.
    eexists. split; [done|]. apply lookup_insert_eq.
Qed.

(** Process 1 waits for any process and 2, the only other one, for 1: the check
    lets both sleep, and none can end. *)
Definition ex_circle : sys := get (play boot
  [Create; Create; Create; Exit 0; Spawn 10 1; Spawn 11 2; Call 10 (2 ^ 64 - 1) 0 0; Call 11 1 0 0; Go 11]).

Lemma any_circle : reachable ex_circle ∧ phases ex_circle = {[10 := AsleepAny; 11 := Asleep 1]} ∧
  (∀ pid, ¬ enabled ex_circle (Exit pid)) ∧ ∀ tid, is_val (step ex_circle (Go tid)) = false.
Proof.
  split_and!; [apply get_reachable; reflexivity|reflexivity| |].
  - intros pid [Hp Hno]. change (waitpid_map_ (reg ex_circle)) with ({[1 := [11]; 2 := []]} : gmap Z (list Z)) in Hp.
    change (proc_of ex_circle) with ({[10 := 1; 11 := 2]} : gmap Z Z) in Hno.
    destruct (decide (pid = 1)) as [->|]; [by apply (Hno 10)|]. destruct (decide (pid = 2)) as [->|]; [by apply (Hno 11)|].
    rewrite lookup_insert_ne, lookup_singleton_ne in Hp by done. by destruct Hp.
  - intros tid. cbn [step]. unfold rd. change (phases ex_circle) with ({[10 := AsleepAny; 11 := Asleep 1]} : gmap Z phase).
    destruct (decide (tid = 10)) as [->|]; [reflexivity|]. destruct (decide (tid = 11)) as [->|]; [reflexivity|].
    by rewrite lookup_insert_ne, lookup_singleton_ne.
Qed.

(** A thread that waited for any is woken by the end of 3 and returns 2, which
    ended before the thread went on. *)
Lemma any_later : (λ s, phases s !! 10) <$> Some (get (play boot
  [Create; Create; Create; Create; Spawn 10 1; Call 10 (2 ^ 64 - 1) 0 0; Exit 3; Exit 2; Go 10])) = Some (Some (User 2)).
Proof. reflexivity. Qed.

(** [waitpid] panics on processes that are gone.  Waiting for an id that no
    process has fails the assertion of [at], where a comment promises -1; and
    there is a reachable state in which a thread calls [waitpid] for a process
    that runs and fails it too, because that process once waited for a child
    that has ended and is still on record.  *)
Theorem waitpid_panics :
  (∀ s tid own pid, reachable s → proc_of s !! tid = Some own →
    waitpid_map_ (reg s) !! pid = None → waitpid own pid 0 0 = ForPid pid →
    step s (Call tid pid 0 0) = Err EAssert) ∧
  (∃ s tid v pid, reachable s ∧ phases s !! tid = Some (User v) ∧ is_Some (waitpid_map_ (reg s) !! pid) ∧
    (∀ t c, phases s !! t ≠ Some (Asleep c)) ∧ step s (Call tid pid 0 0) = Err EAssert).
Proof.
  split.
  - intros s tid own pid Hs%wait_reachable_ok Ht Hn Hw. cbn [step]. unfold rd. rewrite Ht. cbn [mbind res_bind]. rewrite Hw.
    unfold getCondToWait, checkWaitPidDeadlock, check_loop. fold check_loop. unfold at_.
    assert (wait_pid_map_helper_ (reg s) !! pid = None) as ->; [|done].
    apply not_elem_of_dom. rewrite <- (so_dom _ Hs). by apply not_elem_of_dom.
  - exists ex_waited, 10, 0, 2. split; [apply ex_waited_reachable|]. split_and!; [reflexivity|by eexists| |reflexivity].
    intros t c E. assert (Hf : map_Forall (λ _ p, match p with Asleep _ => False | _ => True end) (phases ex_waited)).
    { change (phases ex_waited) with (<[11 := User 3]> (<[10 := User 0]> (∅ : gmap Z phase))). repeat apply map_Forall_insert_2; done. }
    by apply (Hf t _ E).
Qed.

Lemma checkWaitPidDeadlock_exact_witness :
  checkWaitPidDeadlock (reg ex_chain) 2 3 = Val true ∧ tc (awaits ex_chain) 2 3.
Proof.
  destruct (checkWaitPidDeadlock_exact ex_chain 2 3 ex_chain_reachable) as [H _].
  assert (E : checkWaitPidDeadlock (reg ex_chain) 2 3 = Val true) by reflexivity.
  destruct H as (found & Ef & Hf); [|rewrite E in Ef; injection Ef as <-; split; [done|by apply Hf]].
  intros d [Hd Hn]. change (waitpid_map_ (reg ex_chain)) with ({[0 := []; 1 := []; 2 := []; 3 := [11]]} : gmap Z (list Z)) in Hn.
  change (wait_pid_map_helper_ (reg ex_chain)) with ({[0 := []; 1 := []; 2 := [3]; 3 := []]} : gmap Z (list Z)) in Hd.
  apply rtc_inv in Hd as [<-|(z & (l & E2 & Hz) & Hd)]; [done|]. vm_compute in E2. injection E2 as <-.
  apply list_elem_of_singleton in Hz as ->. apply rtc_inv in Hd as [<-|(z & (l & E3 & Hz) & Hd)]; [done|].
  vm_compute in E3. injection E3 as <-. by apply not_elem_of_nil in Hz.
Defined.

Lemma waitpid_returns_witness : phases ex_chain !! 11 = Some (Asleep 3) ∧
  ∃ s', step ex_chain (Exit 3) = Val s' ∧ phases s' !! 11 = Some (Woken 3) ∧ phases s' !! 10 = Some (User 0).
Proof.
  destruct (waitpid_returns ex_chain ex_chain_reachable) as (_ & _ & _ & H & _). split; [reflexivity|].
  destruct (H 3) as (s' & E & _ & Hp); [apply enabledb_enabled; reflexivity|].
  exists s'. rewrite !Hp. by repeat split.
Defined.

(** Between the two critical sections of [waitForPid] the process can end and
    its condition be deleted. *)
Lemma waitpid_race : play boot (ex_family ++ [Call 11 3 0 0; Exit 3; Go 11]) = Err EUndef.
Proof. reflexivity. Qed.
End WaitPid.
