(* ===== verification/Vfs.v ===== *)
(** * The virtual file system: names, directories and path walking

    Models [common/source/fs/Dentry.cpp], [VfsMount.cpp], the mounts of
    [VirtualFileSystem.cpp], [FileSystemInfo.cpp] and [PathWalker.cpp].  The
    objects of the file systems point to each other, so they live in one heap
    with a map for each class, from addresses to objects; 0 is the null pointer
    and an address that is not in its map points to nothing.  The inodes, files
    and superblocks are those of the file systems in memory, see [RamFs].  A C
    string is the list of its bytes without the final 0. *)
From S2P Require Import Prelude.

Module Vfs.

(** ** Objects *)

Record Dentry : Set := mkDentry {
  d_inode_ : Z;
  d_parent_ : Z;
  d_child_ : list Z;
  d_mounts_ : Z;
  d_name_ : list Z;
}.

(** [data_] is null for a directory. *)
Record Inode : Set := mkInode {
  i_dentry_ : Z;
  i_files_ : list Z;
  i_size_ : Z;
  i_type_ : Z;
  i_mode_ : Z;
  superblock_ : Z;
  data_ : option (list Z);
}.

Record File : Set := mkFile {
  f_superblock_ : Z;
  f_inode_ : Z;
  f_dentry_ : Z;
  flag_ : Z;
  offset_ : Z;
}.

Record FileDescriptor : Set := mkFd {
  fd_ : Z;
  file_ : Z;
}.

(** The class of a superblock that holds inodes in memory. *)
Inductive fs_kind := RamFS | DeviceFS.

Record Superblock : Set := mkSuper {
  s_kind : fs_kind;
  s_root_ : Z;
  mounted_over_ : Z;
  used_inodes_ : list Z;
  all_inodes_ : list Z;
  s_files_ : list Z;
}.

Record VfsMount : Set := mkMount {
  mnt_parent_ : Z;
  mnt_mountpoint_ : Z;
  mnt_root_ : Z;
  mnt_sb_ : Z;
}.

(** [mounts_] is the list in [vfs], [fd_num_] the counter of [FileDescriptor.cpp],
    [next] the address of the next object. *)
Record heap : Set := mkHeap {
  dentries : gmap Z Dentry;
  inodes : gmap Z Inode;
  files : gmap Z File;
  descriptors : gmap Z FileDescriptor;
  superblocks : gmap Z Superblock;
  vfs_mounts : gmap Z VfsMount;
  mounts_ : list Z;
  global_fd : list Z;
  fd_num_ : Z;
  next : Z;
}.
Implicit Types h : heap.

(** Working and root directory of a thread. *)
Record FileSystemInfo : Set := mkInfo {
  root_ : Z;
  root_mnt_ : Z;
  pwd_ : Z;
  pwd_mnt_ : Z;
  pathname_ : list Z;
}.

Definition set_dentries m h : heap :=
  mkHeap m (inodes h) (files h) (descriptors h) (superblocks h) (vfs_mounts h) (mounts_ h) (global_fd h) (fd_num_ h) (next h).
Definition set_inodes m h : heap :=
  mkHeap (dentries h) m (files h) (descriptors h) (superblocks h) (vfs_mounts h) (mounts_ h) (global_fd h) (fd_num_ h) (next h).
Definition set_files m h : heap :=
  mkHeap (dentries h) (inodes h) m (descriptors h) (superblocks h) (vfs_mounts h) (mounts_ h) (global_fd h) (fd_num_ h) (next h).
Definition set_descriptors m l h : heap :=
  mkHeap (dentries h) (inodes h) (files h) m (superblocks h) (vfs_mounts h) (mounts_ h) l (fd_num_ h) (next h).
Definition set_superblocks m h : heap :=
  mkHeap (dentries h) (inodes h) (files h) (descriptors h) m (vfs_mounts h) (mounts_ h) (global_fd h) (fd_num_ h) (next h).
Definition set_fd_num n h : heap :=
  mkHeap (dentries h) (inodes h) (files h) (descriptors h) (superblocks h) (vfs_mounts h) (mounts_ h) (global_fd h) n (next h).
Definition set_next n h : heap :=
  mkHeap (dentries h) (inodes h) (files h) (descriptors h) (superblocks h) (vfs_mounts h) (mounts_ h) (global_fd h) (fd_num_ h) n.

(** Following a pointer. *)
Definition deref {A} (m : gmap Z A) (a : Z) : res A :=
  match m !! a with Some x => Val x | None => Err EUndef end.

Definition put_dentry (a : Z) (d : Dentry) h : heap := set_dentries (<[a := d]> (dentries h)) h.
Definition put_inode (a : Z) (i : Inode) h : heap := set_inodes (<[a := i]> (inodes h)) h.
Definition put_super (a : Z) (s : Superblock) h : heap := set_superblocks (<[a := s]> (superblocks h)) h.

Definition with_inode (i : Z) (d : Dentry) : Dentry := mkDentry i (d_parent_ d) (d_child_ d) (d_mounts_ d) (d_name_ d).
Definition with_parent (p : Z) (d : Dentry) : Dentry := mkDentry (d_inode_ d) p (d_child_ d) (d_mounts_ d) (d_name_ d).
Definition with_child (l : list Z) (d : Dentry) : Dentry := mkDentry (d_inode_ d) (d_parent_ d) l (d_mounts_ d) (d_name_ d).
Definition with_mounts (m : Z) (d : Dentry) : Dentry := mkDentry (d_inode_ d) (d_parent_ d) (d_child_ d) m (d_name_ d).
Definition with_name (n : list Z) (d : Dentry) : Dentry := mkDentry (d_inode_ d) (d_parent_ d) (d_child_ d) (d_mounts_ d) n.

(** [list::remove] takes out every equal element. *)
Definition list_remove (x : Z) (l : list Z) : list Z := filter (λ y, y ≠ x) l.

(** ** Dentry.cpp *)

(** "NamELLEss" *)
Definition NamELLEss : list Z := [78; 97; 109; 69; 76; 76; 69; 115; 115].

(** [Dentry(const char* name)] *)
Definition new_dentry (name : list Z) h : heap * Z :=
  let a := next h in
  (set_next (a + 1) (put_dentry a (mkDentry 0 a [] 0 name) h), a).

Definition setChild h (this dentry : Z) : res (heap * Z) :=
  d ← deref (dentries h) this;
  if (dentry =? 0) || bool_decide (dentry ∈ d_child_ d) then Val (h, -1)
  else Val (put_dentry this (with_child (d_child_ d ++ [dentry]) d) h, 0).

(** [Dentry(Dentry* parent)] *)
Definition new_child h (parent : Z) : res (heap * Z) :=
  let a := next h in
  let h := set_next (a + 1) (put_dentry a (mkDentry 0 parent [] 0 NamELLEss) h) in
  '(h, _) ← setChild h parent a;
  Val (h, a).

Definition childInsert h (this child_dentry : Z) : res heap :=
  _ ← kassert (negb (child_dentry =? 0));
  d ← deref (dentries h) this;
  Val (put_dentry this (with_child (d_child_ d ++ [child_dentry]) d) h).

Definition childRemove h (this child_dentry : Z) : res (heap * Z) :=
  _ ← kassert (negb (child_dentry =? 0));
  d ← deref (dentries h) this;
  let h := put_dentry this (with_child (list_remove child_dentry (d_child_ d)) d) h in
  c ← deref (dentries h) child_dentry;
  Val (put_dentry child_dentry (with_parent 0 c) h, 0).

Fixpoint orphan (h : heap) (l : list Z) : res heap :=
  match l with
  | [] => Val h
  | a :: l => d ← deref (dentries h) a; orphan (put_dentry a (with_parent 0 d) h) l
  end.

(** [delete dentry] *)
Definition delete_dentry h (this : Z) : res heap :=
  d ← deref (dentries h) this;
  h ← (if negb (d_parent_ d =? 0) && negb (d_parent_ d =? this)
       then '(h, _) ← childRemove h (d_parent_ d) this; Val h else Val h);
  d ← deref (dentries h) this;
  h ← orphan h (d_child_ d);
  Val (set_dentries (delete this (dentries h)) h).

Definition setInode h (this inode : Z) : res heap :=
  d ← deref (dentries h) this; Val (put_dentry this (with_inode inode d) h).
Definition releaseInode h (this : Z) : res heap := setInode h this 0.
Definition setParent h (this parent : Z) : res heap :=
  d ← deref (dentries h) this; Val (put_dentry this (with_parent parent d) h).
Definition setMountPoint h (this mount_point : Z) : res heap :=
  d ← deref (dentries h) this; Val (put_dentry this (with_mounts mount_point d) h).

(** The loop of [checkName]: the first child with the name, or 0. *)
Fixpoint check_children h (l : list Z) (name : list Z) : res Z :=
  match l with
  | [] => Val 0
  | a :: l =>
      d ← deref (dentries h) a;
      if bool_decide (d_name_ d = name) then Val a else check_children h l name
  end.
Definition checkName h (this : Z) (name : list Z) : res Z :=
  d ← deref (dentries h) this; check_children h (d_child_ d) name.

Definition getNumChild h (this : Z) : res Z := d ← deref (dentries h) this; Val (Z.of_nat (length (d_child_ d))).
Definition emptyChild h (this : Z) : res bool := d ← deref (dentries h) this; Val (bool_decide (d_child_ d = [])).

(** ** Mounts *)

(** The loop of [getVfsMount]. *)
Fixpoint find_mount h (l : list Z) (dentry : Z) : res Z :=
  match l with
  | [] => Val 0
  | a :: l =>
      m ← deref (vfs_mounts h) a;
      if (mnt_mountpoint_ m =? dentry) || (mnt_root_ m =? dentry) then Val a else find_mount h l dentry
  end.

(** With [is_root] the loop is not entered. *)
Definition getVfsMount h (dentry : Z) (is_root : bool) : res Z :=
  _ ← kassert (negb (dentry =? 0));
  if is_root then Val 0 else find_mount h (mounts_ h) dentry.

(** ** PathWalker.cpp *)

Definition CHAR_DOT : Z := 46.
Definition SEPARATOR : Z := 47.
Definition PW_SUCCESS : Z := 0.
Definition PW_ENOTFOUND : Z := 1.
Definition PW_EINVALID : Z := 2.

Inductive last_type := LAST_NORM | LAST_ROOT | LAST_DOT | LAST_DOTDOT.
#[export] Instance last_type_eq_dec : EqDecision last_type.
Proof. solve_decision. Defined.

(** [s[i]]: the terminating 0 follows the last character. *)
Definition ch (s : list Z) (i : nat) : Z := nth i s 0.

(** [strchr] for [SEPARATOR]. *)
Fixpoint index_of (c : Z) (s : list Z) : option Z :=
  match s with
  | [] => None
  | x :: s => if x =? c then Some 0 else option_map (Z.add 1) (index_of c s)
  end.

(** The length of the array for the next part, and the number of characters to
    step over. *)
Definition getNextPartLen (path : list Z) : Z * Z :=
  match index_of SEPARATOR path with
  | Some i => (s32 (i + 1), s32 (i + 1))
  | None => (s32 (Z.of_nat (length path) + 1), s32 (Z.of_nat (length path)))
  end.

Fixpoint skip_separators (s : list Z) : list Z :=
  match s with
  | x :: s' => if x =? SEPARATOR then skip_separators s' else s
  | [] => []
  end.

(** What the first characters of a part make of [last_type_]; a longer name that
    begins with a dot leaves it as it was. *)
Definition next_type (last : last_type) (npart : list Z) : last_type :=
  if ch npart 0 =? CHAR_DOT then
    if ch npart 1 =? 0 then LAST_DOT
    else if (ch npart 1 =? CHAR_DOT) && (ch npart 2 =? 0) then LAST_DOTDOT
    else last
  else LAST_NORM.

Section walk.
(** [Inode::lookup] of the inode at an address: the dentry, or 0. *)
Context (lookup : heap → Z → list Z → res Z).
Context (h : heap) (fs_info : FileSystemInfo).

(** LAST_DOTDOT *)
Definition follow_dotdot (dentry_ vfs_mount_ : Z) : res (Z * Z) :=
  if (dentry_ =? root_ fs_info) && (vfs_mount_ =? root_mnt_ fs_info) then Val (dentry_, vfs_mount_)
  else
    vfs_mount ← getVfsMount h dentry_ true;
    '(dentry_, vfs_mount_) ← (if vfs_mount =? 0 then Val (dentry_, vfs_mount_)
      else m ← deref (vfs_mounts h) vfs_mount; Val (mnt_mountpoint_ m, mnt_parent_ m));
    d ← deref (dentries h) dentry_;
    Val (d_parent_ d, vfs_mount_).

(** LAST_NORM; [None] when there is no such name. *)
Definition follow_norm (dentry_ vfs_mount_ : Z) (last_ : list Z) : res (option (Z * Z)) :=
  d ← deref (dentries h) dentry_;
  found ← lookup h (d_inode_ d) last_;
  if found =? 0 then Val None
  else
    vfs_mount ← getVfsMount h found false;
    if vfs_mount =? 0 then Val (Some (found, vfs_mount_))
    else m ← deref (vfs_mounts h) vfs_mount; Val (Some (mnt_root_ m, vfs_mount)).

(** The loop over the parts; the result is the code with [dentry_] and
    [vfs_mount_]. *)
Fixpoint walk_loop (fuel : nat) (pathname : list Z) (last : last_type) (dentry_ vfs_mount_ : Z) : res (Z * Z * Z) :=
  match fuel with
  | O => Err EFuel
  | S fuel =>
      let '(npart_len, npart_pos) := getNextPartLen pathname in
      _ ← defined (0 <? npart_len);
      let npart := take (Z.to_nat (npart_len - 1)) pathname in
      if npart_pos <? 0 then Val (PW_EINVALID, dentry_, vfs_mount_)
      else if (ch npart 0 =? 0) || (npart_pos =? 0) then Val (PW_SUCCESS, dentry_, vfs_mount_)
      else
        let pathname := drop (Z.to_nat npart_pos) pathname in
        let last := next_type last npart in
        let rest d m :=
          let pathname := skip_separators pathname in
          if bool_decide (pathname = []) then Val (PW_SUCCESS, d, m) else walk_loop fuel pathname last d m in
        match last with
        | LAST_DOT => walk_loop fuel pathname last dentry_ vfs_mount_
        | LAST_DOTDOT => '(d, m) ← follow_dotdot dentry_ vfs_mount_; walk_loop fuel pathname last d m
        | LAST_NORM =>
            r ← follow_norm dentry_ vfs_mount_ npart;
            match r with
            | None => Val (PW_ENOTFOUND, dentry_, vfs_mount_)
            | Some (d, m) => rest d m
            end
        | LAST_ROOT => rest dentry_ vfs_mount_
        end
  end.

Definition pathWalk (pathname : list Z) : res (Z * Z * Z) :=
  let '(last, dentry_, vfs_mount_) :=
    if ch pathname 0 =? SEPARATOR then (LAST_ROOT, root_ fs_info, root_mnt_ fs_info)
    else (LAST_NORM, pwd_ fs_info, pwd_mnt_ fs_info) in
  if (dentry_ =? 0) || (vfs_mount_ =? 0) then Val (PW_ENOTFOUND, dentry_, vfs_mount_)
  else
    let pathname := skip_separators pathname in
    if bool_decide (pathname = []) then Val (PW_SUCCESS, dentry_, vfs_mount_)
    else walk_loop (S (length pathname)) pathname last dentry_ vfs_mount_.
End walk.

(** ** Paths as lists of parts *)

Inductive part := Dot | DotDot | Name (name : list Z).

Definition text (p : part) : list Z :=
  match p with Dot => [CHAR_DOT] | DotDot => [CHAR_DOT; CHAR_DOT] | Name n => n end.

(** Each part is followed by a number of separators. *)
Fixpoint spell (ps : list (part * nat)) : list Z :=
  match ps with [] => [] | (p, n) :: ps => text p ++ replicate n SEPARATOR ++ spell ps end.

(** A name is not empty, has no separator and no 0 and does not begin with a
    dot. *)
Definition good_name (n : list Z) : Prop :=
  Forall (λ c, c ≠ 0 ∧ c ≠ SEPARATOR) n ∧ ch n 0 ≠ 0 ∧ ch n 0 ≠ CHAR_DOT.

(** Parts are separated, the last one perhaps from nothing; a single separator
    follows a dot or two. *)
Fixpoint good_path (ps : list (part * nat)) : Prop :=
  match ps with
  | [] => True
  | (p, n) :: ps =>
      (n = 0%nat → ps = []) ∧
      match p with Name name => good_name name | _ => (n ≤ 1)%nat end ∧ good_path ps
  end.

Section walking.
Context (lookup : heap → Z → list Z → res Z) (h : heap) (fs_info : FileSystemInfo).

(** Following the parts one by one. *)
Fixpoint follow (ps : list (part * nat)) (d m : Z) : res (Z * Z * Z) :=
  match ps with
  | [] => Val (PW_SUCCESS, d, m)
  | (Dot, _) :: ps => follow ps d m
  | (DotDot, _) :: ps => '(d, m) ← follow_dotdot h fs_info d m; follow ps d m
  | (Name n, _) :: ps =>
      r ← follow_norm lookup h d m n;
      match r with Some (d, m) => follow ps d m | None => Val (PW_ENOTFOUND, d, m) end
  end.

Lemma index_of_app s t : Forall (λ c, c ≠ 0 ∧ c ≠ SEPARATOR) s →
  index_of SEPARATOR (s ++ SEPARATOR :: t) = Some (Z.of_nat (length s)) ∧ index_of SEPARATOR s = None.
Proof.
  induction 1 as [|c s [_ Hc] _ [IH1 IH2]]; [done|]. cbn [index_of app length].
  rewrite (proj2 (Z.eqb_neq _ _) Hc), IH1, IH2. split; [|done]. cbn. f_equal. lia.
Qed.

Lemma text_good p n ps : good_path ((p, n) :: ps) →
  Forall (λ c, c ≠ 0 ∧ c ≠ SEPARATOR) (text p) ∧ ch (text p) 0 ≠ 0 ∧ ch (text p) 0 ≠ SEPARATOR ∧
  ∀ last, next_type last (text p) = match p with Dot => LAST_DOT | DotDot => LAST_DOTDOT | Name _ => LAST_NORM end.
Proof.
  intros (_ & Hp & _). destruct p as [| |name]; cbn [text].
  - split_and!; [by repeat constructor|done..].
  - split_and!; [by repeat constructor|done..].
  - destruct Hp as (Hf & H0 & Hd). split_and!; [done|done| |].
    + destruct name as [|c name]; [done|]. cbn in *. by apply Forall_cons in Hf as [[_ ?] _].
    + intros last. unfold next_type. by rewrite (proj2 (Z.eqb_neq _ _) Hd).
Qed.

Lemma spell_nonempty p n ps : good_path ((p, n) :: ps) → spell ((p, n) :: ps) ≠ [].
Proof. intros (_ & H0 & _)%text_good E. cbn [spell] in E. apply app_nil in E as [E _]. by rewrite E in H0. Qed.

Lemma skip_spell k ps : good_path ps → skip_separators (replicate k SEPARATOR ++ spell ps) = spell ps.
Proof.
  intros Hg. induction k as [|k IH]; cbn [replicate app]; [|exact IH].
  destruct ps as [|[p n] ps]; [done|]. destruct (text_good _ _ _ Hg) as (_ & H0 & Hs & _).
  cbn [spell]. destruct (text p) as [|c t]; [done|]. cbn in *. by rewrite (proj2 (Z.eqb_neq _ _) Hs).
Qed.

Lemma next_part p n ps : good_path ((p, n) :: ps) → Z.of_nat (length (spell ((p, n) :: ps))) < 2 ^ 31 - 1 →
  ∃ pos, getNextPartLen (spell ((p, n) :: ps)) = (Z.of_nat (length (text p)) + 1, pos) ∧ 0 < pos ∧
    take (Z.to_nat (Z.of_nat (length (text p)) + 1 - 1)) (spell ((p, n) :: ps)) = text p ∧
    drop (Z.to_nat pos) (spell ((p, n) :: ps)) = replicate (n - 1) SEPARATOR ++ spell ps.
Proof.
  intros Hg Hl. destruct (text_good _ _ _ Hg) as (Hf & H0 & _). pose proof Hg as (Hn & _). cbn [spell] in *.
  rewrite !length_app in Hl. assert (Hlen : (0 < length (text p))%nat) by (destruct (text p); [done|cbn; lia]).
  replace (Z.of_nat (length (text p)) + 1 - 1) with (Z.of_nat (length (text p))) by lia. rewrite Nat2Z.id, take_app_length.
  unfold getNextPartLen. destruct n as [|n].
  - rewrite (Hn eq_refl) in *. cbn [replicate app spell] in *. rewrite app_nil_r.
    destruct (index_of_app (text p) [] Hf) as [_ ->]. rewrite !signed_small by lia.
    exists (Z.of_nat (length (text p))). split_and!; [done|lia|done|]. by rewrite Nat2Z.id, drop_all.
  - cbn [replicate app]. destruct (index_of_app (text p) (replicate n SEPARATOR ++ spell ps) Hf) as [-> _].
    rewrite length_replicate in Hl. rewrite signed_small by lia. exists (Z.of_nat (length (text p)) + 1).
    split_and!; [done|lia|done|]. replace (Z.to_nat (Z.of_nat (length (text p)) + 1)) with (length (text p) + 1)%nat by lia.
    rewrite drop_app_add by done. by replace (S n - 1)%nat with n by lia.
Qed.

Lemma walk_loop_follows ps : ∀ fuel last d m, good_path ps → Z.of_nat (length (spell ps)) < 2 ^ 31 - 1 →
  (length (spell ps) < fuel)%nat → walk_loop lookup h fs_info fuel (spell ps) last d m = follow ps d m.
Proof.
  induction ps as [|[p n] ps IH]; intros [|fuel] last d m Hg Hl Hf; try (cbn in Hf; lia); [done|].
  destruct (next_part _ _ _ Hg Hl) as (pos & Eg & Hpos & Et & Ed). destruct (text_good _ _ _ Hg) as (_ & H0 & _ & Ety).
  cbn [walk_loop]. rewrite Eg. destruct (Z.ltb_spec 0 (Z.of_nat (length (text p)) + 1)); [|lia]. cbn [defined mbind res_bind].
  rewrite Et, Ed, Ety. destruct (Z.ltb_spec pos 0); [lia|]. rewrite (proj2 (Z.eqb_neq _ _) H0).
  destruct (Z.eqb_spec pos 0); [lia|]. cbn [orb].
  assert (Hl' : (length (spell ps) < length (spell ((p, n) :: ps)))%nat).
  { cbn [spell]. rewrite !length_app. destruct (text p); [done|cbn; lia]. }
  pose proof Hg as (Hn & Hp & Hg').
  assert (Hrest : ∀ last' d' m', (if bool_decide (spell ps = []) then Val (PW_SUCCESS, d', m')
    else walk_loop lookup h fs_info fuel (spell ps) last' d' m') = follow ps d' m').
  { intros last' d' m'. case_bool_decide as E; [|apply IH; [done|lia|lia]].
    destruct ps as [|[p' n'] ps]; [done|]. by destruct (spell_nonempty _ _ _ Hg'). }
  destruct p as [| |name]; cbn [follow text].
  - replace (n - 1)%nat with 0%nat by lia. cbn [replicate app]. apply IH; [done|lia|lia].
  - replace (n - 1)%nat with 0%nat by lia. cbn [replicate app].
    destruct (follow_dotdot h fs_info d m) as [[d' m']|]; cbn [mbind res_bind]; [|done]. apply IH; [done|lia|lia].
  - destruct (follow_norm lookup h d m name) as [[[d' m']|]|]; cbn [mbind res_bind]; [|done..].
    rewrite skip_spell by done. apply Hrest.
Qed.

Definition start (absolute : bool) : Z * Z :=
  if absolute then (root_ fs_info, root_mnt_ fs_info) else (pwd_ fs_info, pwd_mnt_ fs_info).

Lemma pathWalk_parts k ps : let '(d, m) := start (bool_decide (k ≠ 0%nat)) in
  good_path ps → d ≠ 0 → m ≠ 0 → Z.of_nat (length (spell ps)) < 2 ^ 31 - 1 →
  pathWalk lookup h fs_info (replicate k SEPARATOR ++ spell ps) = follow ps d m.
Proof.
  destruct (start _) as [d m] eqn:Es. intros Hg Hd Hm Hl. unfold pathWalk.
  assert (Hgoal : ∀ last, (if bool_decide (spell ps = []) then Val (PW_SUCCESS, d, m)
    else walk_loop lookup h fs_info (S (length (spell ps))) (spell ps) last d m) = follow ps d m).
  { intros last. destruct (decide (spell ps = [])) as [E|E]; [rewrite bool_decide_true by done|
      rewrite bool_decide_false by done; apply walk_loop_follows; [done|done|lia]].
    destruct ps as [|[p n] ps]; [done|]. by destruct (spell_nonempty _ _ _ Hg). }
  rewrite skip_spell by done.
  assert (Eh : (ch (replicate k SEPARATOR ++ spell ps) 0 =? SEPARATOR) = bool_decide (k ≠ 0%nat)).
  { destruct k; [|done]. cbn [replicate app]. rewrite bool_decide_false by tauto. apply Z.eqb_neq.
    destruct ps as [|[p n] ps]; [done|]. destruct (text_good _ _ _ Hg) as (_ & H0 & Hs & _). cbn [spell]. by destruct (text p). }
  rewrite Eh. unfold start in Es.
  destruct (bool_decide (k ≠ 0%nat)); injection Es as -> ->;
    rewrite (proj2 (Z.eqb_neq _ _) Hd), (proj2 (Z.eqb_neq _ _) Hm); apply Hgoal.
Qed.

(** C20: path walking is following the parts of the path.  For every path that
    is written with any number of leading separators, single separators after
    ".", ".." and any number after names that do not begin with a dot, the
    character loop of [pathWalk] always ends and gives exactly what following
    the parts gives, from the root directory if there is a leading separator and
    from the working directory if not: code, directory entry, mount and
    failure. *)
Theorem pathWalk_follows k ps : let '(d, m) := start (bool_decide (k ≠ 0%nat)) in
  good_path ps → d ≠ 0 → m ≠ 0 → Z.of_nat (length (spell ps)) < 2 ^ 31 - 1 →
  pathWalk lookup h fs_info (replicate k SEPARATOR ++ spell ps) = follow ps d m.
Proof. apply pathWalk_parts. Qed.
End walking.

(** ** A small tree

    The root 1 (its own parent, inode 11) with a directory "a" (2, inode 12);
    mount 5 is the root's. *)

Definition tree : heap :=
  mkHeap (<[1 := mkDentry 11 1 [2] 0 [SEPARATOR]]> (<[2 := mkDentry 12 1 [] 0 [97]]> ∅))
    ∅ ∅ ∅ ∅ (<[5 := mkMount 0 0 1 6]> ∅) [] [] 0 20.
Definition tree_info : FileSystemInfo := mkInfo 1 5 1 5 [].
(** [Inode::lookup] of the two inodes. *)
Definition tree_lookup h (i : Z) (name : list Z) : res Z := checkName h (i - 10) name.

Lemma pathWalk_follows_witness :
  good_path [(Name [97], 2%nat); (DotDot, 1%nat); (Name [97], 0%nat)] ∧
  pathWalk tree_lookup tree tree_info [47; 97; 47; 47; 46; 46; 47; 97] = Val (PW_SUCCESS, 2, 5).
Proof.
  assert (Hg : good_path [(Name [97], 2%nat); (DotDot, 1%nat); (Name [97], 0%nat)]).
  { repeat split; try done; try lia; repeat constructor; done. }
  split; [exact Hg|].
  change [47; 97; 47; 47; 46; 46; 47; 97] with
    (replicate 1 SEPARATOR ++ spell [(Name [97], 2%nat); (DotDot, 1%nat); (Name [97], 0%nat)]).
  rewrite (pathWalk_follows tree_lookup tree tree_info 1 [(Name [97], 2%nat); (DotDot, 1%nat); (Name [97], 0%nat)] Hg);
    [reflexivity|done|done|done].
Defined.

(** Two separators after "." end the walk there: ".//b" is found though there is
    no "b". *)
Lemma walk_stops_after_dot : pathWalk tree_lookup tree tree_info [46; 47; 98] = Val (PW_ENOTFOUND, 1, 5) ∧
  pathWalk tree_lookup tree tree_info [46; 47; 47; 98] = Val (PW_SUCCESS, 1, 5).
Proof. split; reflexivity. Qed.

(** A name that begins with a dot is taken for what came before it: "/.x" for
    the root, "./.x" for ".", "a/../.x" for "..". *)
Lemma walk_dot_names : pathWalk tree_lookup tree tree_info [47; 46; 120] = Val (PW_SUCCESS, 1, 5) ∧
  pathWalk tree_lookup tree tree_info [46; 47; 46; 120] = Val (PW_SUCCESS, 1, 5) ∧
  pathWalk tree_lookup tree tree_info [46; 46; 47; 46; 120] = Val (PW_SUCCESS, 1, 5) ∧
  pathWalk tree_lookup tree tree_info [120] = Val (PW_ENOTFOUND, 1, 5).
Proof. repeat split; reflexivity. Qed.

End Vfs.
