(* ===== verification/RamFs.v ===== *)
(** * The file systems in memory

    Models [common/source/fs/ramfs/] ([RamFSInode.cpp], [RamFSFile.cpp],
    [RamFSSuperblock.cpp]), [devicefs/DeviceFSSuperblock.cpp] without the devices
    themselves, and the base classes [Superblock.cpp], [File.cpp] and
    [FileDescriptor.cpp], on the heap of [Vfs]: operations, the well-formedness
    of a file system and that the operations keep it. *)
From S2P Require Import Prelude LibcString Kstring Buffers Vfs.
Import Vfs.

Module RamFs.
Implicit Types h : heap.

Definition BASIC_ALLOC : Z := 256.
Definition A_READABLE : Z := 1.
Definition A_WRITABLE : Z := 2.
Definition A_EXECABLE : Z := 4.
Definition I_FILE : Z := 0.
Definition I_DIR : Z := 1.
Definition INODE_DEAD : Z := 666.
Definition O_RDONLY : Z := 1.
Definition O_WRONLY : Z := 2.
Definition O_RDWR : Z := 4.
Definition O_CREAT : Z := 8.
Definition O_APPEND : Z := 16.
Definition O_TRUNC : Z := 128.
Definition SEEK_SET : Z := 0.
Definition SEEK_CUR : Z := 1.
Definition SEEK_END : Z := 2.

(** [flag & bit] as a condition. *)
Definition has (flag bit : Z) : bool := negb (Z.land flag bit =? 0).

Definition with_i_dentry (d : Z) (x : Inode) : Inode :=
  mkInode d (i_files_ x) (i_size_ x) (i_type_ x) (i_mode_ x) (superblock_ x) (data_ x).
Definition with_i_files (l : list Z) (x : Inode) : Inode :=
  mkInode (i_dentry_ x) l (i_size_ x) (i_type_ x) (i_mode_ x) (superblock_ x) (data_ x).
Definition with_data (l : option (list Z)) (x : Inode) : Inode :=
  mkInode (i_dentry_ x) (i_files_ x) (i_size_ x) (i_type_ x) (i_mode_ x) (superblock_ x) l.
Definition with_offset (o : Z) (y : File) : File := mkFile (f_superblock_ y) (f_inode_ y) (f_dentry_ y) (flag_ y) o.
Definition with_used_inodes (l : list Z) (s : Superblock) : Superblock :=
  mkSuper (s_kind s) (s_root_ s) (mounted_over_ s) l (all_inodes_ s) (s_files_ s).
Definition with_all_inodes (l : list Z) (s : Superblock) : Superblock :=
  mkSuper (s_kind s) (s_root_ s) (mounted_over_ s) (used_inodes_ s) l (s_files_ s).
Definition with_s_files (l : list Z) (s : Superblock) : Superblock :=
  mkSuper (s_kind s) (s_root_ s) (mounted_over_ s) (used_inodes_ s) (all_inodes_ s) l.
Definition put_file (a : Z) (y : File) h : heap := set_files (<[a := y]> (files h)) h.

(** ** RamFSInode.cpp *)

(** [new char[BASIC_ALLOC]()] *)
Definition new_data : list Z := replicate (Z.to_nat BASIC_ALLOC) 0.
Arguments new_data : simpl never.

(** [new RamFSInode(super_block, inode_type)] *)
Definition new_inode h (super_block inode_type : Z) : heap * Z :=
  let a := next h in
  let data := if inode_type =? I_FILE then Some new_data else None in
  let mode := Z.lxor (Z.lxor A_READABLE A_WRITABLE) A_EXECABLE in
  (set_next (a + 1) (put_inode a (mkInode 0 [] BASIC_ALLOC inode_type mode super_block data) h), a).

Definition readData h (this offset size : Z) : res (Z * list Z) :=
  x ← deref (inodes h) this;
  if i_size_ x <=? offset then Val (0, [])
  else
    let read_size := Z.min size (u32 (i_size_ x - offset)) in
    data ← match data_ x with Some l => Val l | None => Err EUndef end;
    l ← slice data offset read_size;
    Val (s32 read_size, l).

Definition writeData h (this offset size : Z) (buffer : list Z) : res (heap * Z) :=
  x ← deref (inodes h) this;
  _ ← kassert (i_type_ x =? I_FILE);
  if i_size_ x <=? offset then Val (h, 0)
  else
    let write_size := Z.min size (u32 (i_size_ x - offset)) in
    data ← match data_ x with Some l => Val l | None => Err EUndef end;
    l ← slice buffer 0 write_size;
    data ← splice data offset l;
    Val (put_inode this (with_data (Some data) x) h, s32 write_size).

Definition mknod h (this dentry : Z) : res (heap * Z) :=
  if dentry =? 0 then Val (h, -1)
  else
    x ← deref (inodes h) this;
    if negb (i_type_ x =? I_DIR) then Val (h, -1)
    else h ← setInode (put_inode this (with_i_dentry dentry x) h) dentry this; Val (h, 0).

Definition mkfile h (this dentry : Z) : res (heap * Z) :=
  if dentry =? 0 then Val (h, -1)
  else
    x ← deref (inodes h) this;
    if negb (i_type_ x =? I_FILE) then Val (h, -1)
    else h ← setInode (put_inode this (with_i_dentry dentry x) h) dentry this; Val (h, 0).

(** With [new RamFSFile(this, i_dentry_, flag)]. *)
Definition link h (this flag : Z) : res (heap * Z) :=
  x ← deref (inodes h) this;
  let file := next h in
  let h := set_next (file + 1) (put_file file (mkFile (superblock_ x) this (i_dentry_ x) flag 0) h) in
  Val (put_inode this (with_i_files (i_files_ x ++ [file]) x) h, file).

Definition unlink h (this file : Z) : res (heap * Z) :=
  x ← deref (inodes h) this;
  let h := put_inode this (with_i_files (list_remove file (i_files_ x)) x) h in
  Val (set_files (delete file (files h)) h, 0).

(** The end of [rmdir] and [rm]. *)
Definition remove_entry h (this : Z) : res (heap * Z) :=
  x ← deref (inodes h) this;
  let dentry := i_dentry_ x in
  no_child ← emptyChild h dentry;
  if no_child : bool then
    h ← releaseInode h dentry;
    d ← deref (dentries h) dentry;
    '(h, _) ← childRemove h (d_parent_ d) dentry;
    h ← delete_dentry h dentry;
    x ← deref (inodes h) this;
    Val (put_inode this (with_i_dentry 0 x) h, INODE_DEAD)
  else Val (h, -1).

Definition rmdir h (this : Z) : res (heap * Z) :=
  x ← deref (inodes h) this;
  if negb (i_type_ x =? I_DIR) then Val (h, -1) else remove_entry h this.

Definition rm h (this : Z) : res (heap * Z) :=
  x ← deref (inodes h) this;
  if negb (bool_decide (i_files_ x = [])) then Val (h, -1) else remove_entry h this.

Definition lookup h (this : Z) (name : list Z) : res Z :=
  x ← deref (inodes h) this;
  if i_type_ x =? I_DIR then checkName h (i_dentry_ x) name else Val 0.

(** ** RamFSFile.cpp and File.cpp *)

Definition file_read h (this count offset : Z) : res (heap * Z * list Z) :=
  y ← deref (files h) this;
  x ← deref (inodes h) (f_inode_ y);
  if (has (flag_ y) O_RDONLY || has (flag_ y) O_RDWR) && has (i_mode_ x) A_READABLE then
    '(read_bytes, l) ← readData h (f_inode_ y) (u32 (u64 (offset_ y + offset))) count;
    Val (put_file this (with_offset (u64 (offset_ y + read_bytes)) y) h, read_bytes, l)
  else Val (h, -1, []).

Definition file_write h (this : Z) (buffer : list Z) (count offset : Z) : res (heap * Z) :=
  y ← deref (files h) this;
  x ← deref (inodes h) (f_inode_ y);
  if (has (flag_ y) O_WRONLY || has (flag_ y) O_RDWR) && has (i_mode_ x) A_WRITABLE then
    '(h, written_bytes) ← writeData h (f_inode_ y) (u32 (u64 (offset_ y + offset))) count buffer;
    Val (put_file this (with_offset (u64 (offset_ y + written_bytes)) y) h, written_bytes)
  else Val (h, -1).

Definition getSize h (this : Z) : res Z :=
  y ← deref (files h) this; x ← deref (inodes h) (f_inode_ y); Val (i_size_ x).

(** The result is an [l_off_t], 64 bits without a sign. *)
Definition file_lseek h (this offset origin : Z) : res (heap * Z) :=
  y ← deref (files h) this;
  let to o := (put_file this (with_offset o y) h, o) in
  if origin =? SEEK_SET then Val (to offset)
  else if origin =? SEEK_CUR then Val (to (u64 (offset_ y + offset)))
  else if origin =? SEEK_END then size ← getSize h this; Val (to (u64 (size + offset)))
  else Val (h, u64 (-1)).

(** ** FileDescriptor.cpp *)

Definition new_descriptor h (file : Z) : heap * Z :=
  let a := next h in
  (set_fd_num (u64 (fd_num_ h + 1))
    (set_next (a + 1) (set_descriptors (<[a := mkFd (fd_num_ h) file]> (descriptors h)) (global_fd h) h)), a).
Definition fd_add h (fd : Z) : heap := set_descriptors (descriptors h) (global_fd h ++ [fd]) h.
Definition fd_remove h (fd : Z) : heap := set_descriptors (descriptors h) (list_remove fd (global_fd h)) h.
Definition getFd (e : FileDescriptor) : Z := u32 (fd_ e).

(** ** RamFSSuperblock.cpp, DeviceFSSuperblock.cpp, Superblock.cpp *)

(** [l.push_back(x)] unless [find(l, x)]. *)
Definition add_once (x : Z) (l : list Z) : list Z := if bool_decide (x ∈ l) then l else l ++ [x].

Definition createInode h (this dentry type : Z) : res (heap * Z) :=
  let '(h, inode) := new_inode h this type in
  h ← (if type =? I_DIR then '(h, r) ← mknod h inode dentry; _ ← kassert (r =? 0); Val h
       else if type =? I_FILE then '(h, r) ← mkfile h inode dentry; _ ← kassert (r =? 0); Val h
       else Val h);
  s ← deref (superblocks h) this;
  Val (put_super this (with_all_inodes (all_inodes_ s ++ [inode]) s) h, inode).

(** [RamFSSuperblock] takes the inode off its list, [DeviceFSSuperBlock] has the
    method of [Superblock]; [dirty_inodes_] is never filled. *)
Definition delete_inode h (this inode : Z) : res heap :=
  s ← deref (superblocks h) this;
  match s_kind s with
  | RamFS => Val (put_super this (with_all_inodes (list_remove inode (all_inodes_ s)) s) h)
  | DeviceFS =>
      _ ← kassert (negb (inode =? 0));
      let s := with_used_inodes (list_remove inode (used_inodes_ s)) s in
      let s := with_all_inodes (list_remove inode (all_inodes_ s)) s in
      Val (set_inodes (delete inode (inodes h)) (put_super this s h))
  end.

Definition createFd h (this inode flag : Z) : res (heap * Z) :=
  _ ← kassert (negb (inode =? 0));
  '(h, file) ← link h inode flag;
  let '(h, fd) := new_descriptor h file in
  s ← deref (superblocks h) this;
  let h := put_super this (with_s_files (s_files_ s ++ [fd]) s) h in
  let h := fd_add h fd in
  s ← deref (superblocks h) this;
  let h := put_super this (with_used_inodes (add_once inode (used_inodes_ s)) s) h in
  e ← deref (descriptors h) fd;
  Val (h, s32 (getFd e)).

Definition removeFd h (this inode fd : Z) : res (heap * Z) :=
  _ ← kassert (negb (inode =? 0));
  _ ← kassert (negb (fd =? 0));
  s ← deref (superblocks h) this;
  let h := put_super this (with_s_files (list_remove fd (s_files_ s)) s) h in
  let h := fd_remove h fd in
  e ← deref (descriptors h) fd;
  '(h, tmp) ← unlink h inode (file_ e);
  x ← deref (inodes h) inode;
  h ← (if bool_decide (i_files_ x = []) then
         s ← deref (superblocks h) this;
         Val (put_super this (with_used_inodes (list_remove inode (used_inodes_ s)) s) h)
       else Val h);
  Val (set_descriptors (delete fd (descriptors h)) (global_fd h) h, tmp).

Definition ROOT_NAME : list Z := [SEPARATOR].
Definition DEVICE_ROOT_NAME : list Z := [100; 101; 118].

(** The constructors; the superblock gets its address first. *)
Definition new_RamFSSuperblock h (s_root : Z) : res (heap * Z) :=
  let this := next h in
  let '(h, root_dentry) := new_dentry ROOT_NAME (set_next (this + 1) h) in
  let mounted_over := if negb (s_root =? 0) then s_root else root_dentry in
  let '(h, root_inode) := new_inode h this I_DIR in
  '(h, root_init) ← mknod h root_inode root_dentry;
  _ ← kassert (root_init =? 0);
  Val (put_super this (mkSuper RamFS root_dentry mounted_over [] [root_inode] []) h, this).

Definition new_DeviceFSSuperBlock h (s_root : Z) : res (heap * Z) :=
  let this := next h in
  let '(h, root_dentry) := new_dentry ROOT_NAME (set_next (this + 1) h) in
  let mounted_over := if negb (s_root =? 0) then s_root else root_dentry in
  let '(h, root_inode) := new_inode h this I_DIR in
  '(h, root_init) ← mknod h root_inode root_dentry;
  _ ← kassert (root_init =? 0);
  '(h, device_root_dentry) ← new_child h root_dentry;
  d ← deref (dentries h) device_root_dentry;
  let h := put_dentry device_root_dentry (with_name DEVICE_ROOT_NAME d) h in
  let '(h, device_root_inode) := new_inode h this I_DIR in
  '(h, root_init) ← mknod h device_root_inode device_root_dentry;
  _ ← kassert (root_init =? 0);
  Val (put_super this (mkSuper DeviceFS root_dentry mounted_over [] [root_inode; device_root_inode] []) h, this).


(** ** Well-formed file systems

    One superblock [sb] with the root directory [root]. *)

(** The directory tree: entries and inodes point to each other, a directory lists
    each of its entries once, an entry is listed by its parent, which is older. *)
Definition node_ok h (root a : Z) (d : Dentry) : Prop :=
  0 < a < next h ∧
  (∃ x, inodes h !! d_inode_ d = Some x ∧ i_dentry_ x = a ∧ (d_child_ d ≠ [] → i_type_ x = I_DIR)) ∧
  NoDup (d_child_ d) ∧
  (∀ c, c ∈ d_child_ d → c ≠ root ∧ ∃ e, dentries h !! c = Some e ∧ d_parent_ e = a) ∧
  (a ≠ root → d_parent_ d < a ∧ ∃ p, dentries h !! d_parent_ d = Some p ∧ a ∈ d_child_ p).

(** An inode is a directory or a file of [BASIC_ALLOC] bytes; a removed one has no
    entry. *)
Definition inode_ok h (sb i : Z) (x : Inode) : Prop :=
  0 < i < next h ∧ superblock_ x = sb ∧ i_size_ x = BASIC_ALLOC ∧ i_mode_ x = 7 ∧
  (i_type_ x = I_DIR ∧ i_files_ x = [] ∨
   i_type_ x = I_FILE ∧ ∃ l, data_ x = Some l ∧ length l = Z.to_nat BASIC_ALLOC) ∧
  (i_dentry_ x ≠ 0 → ∃ d, dentries h !! i_dentry_ x = Some d ∧ d_inode_ d = i).

Record tree_ok h (sb root : Z) : Prop := {
  t_node : ∀ a d, dentries h !! a = Some d → node_ok h root a d;
  t_inode : ∀ i x, inodes h !! i = Some x → inode_ok h sb i x;
  t_root : ∃ d x, dentries h !! root = Some d ∧ d_parent_ d = root ∧
    inodes h !! d_inode_ d = Some x ∧ i_type_ x = I_DIR;
}.

(** Open files: an inode knows the files that are open on it, each file belongs to
    one descriptor, and numbers are not shared. *)
Record files_ok h (sb : Z) : Prop := {
  c_inode : ∀ i x, inodes h !! i = Some x → NoDup (i_files_ x) ∧
    (∀ f, f ∈ i_files_ x ↔ ∃ y, files h !! f = Some y ∧ f_inode_ y = i) ∧ (i_files_ x ≠ [] → i_dentry_ x ≠ 0);
  c_file : ∀ f y, files h !! f = Some y → 0 < f < next h ∧ f_superblock_ y = sb ∧ is_Some (inodes h !! f_inode_ y) ∧
    0 <= offset_ y < 2 ^ 64;
  c_fd : ∀ p e, descriptors h !! p = Some e → 0 < p < next h ∧ 0 <= fd_ e < fd_num_ h ∧ is_Some (files h !! file_ e);
  c_inj : ∀ p q e g, descriptors h !! p = Some e → descriptors h !! q = Some g →
    fd_ e = fd_ g ∨ file_ e = file_ g → p = q;
  c_global : NoDup (global_fd h) ∧ ∀ p, p ∈ global_fd h ↔ is_Some (descriptors h !! p);
  c_num : 0 <= fd_num_ h < 2 ^ 31;
}.

(** The lists of the superblock. *)
Definition super_ok h (sb : Z) : Prop :=
  ∃ s, superblocks h !! sb = Some s ∧ sb ≠ 0 ∧ s_files_ s = global_fd h ∧
    NoDup (all_inodes_ s) ∧ (∀ i, i ∈ all_inodes_ s ↔ ∃ x, inodes h !! i = Some x ∧ i_dentry_ x ≠ 0) ∧
    NoDup (used_inodes_ s) ∧ (∀ i, i ∈ used_inodes_ s ↔ ∃ x, inodes h !! i = Some x ∧ i_files_ x ≠ []).

Definition fs_ok h (sb root : Z) : Prop := tree_ok h sb root ∧ files_ok h sb ∧ super_ok h sb.

Lemma deref_Some {A} (m : gmap Z A) a x : m !! a = Some x → deref m a = Val x.
Proof. unfold deref. by intros ->. Qed.

Lemma deref_insert {A} (m : gmap Z A) a x : deref (<[a := x]> m) a = Val x.
Proof. apply deref_Some, lookup_insert_eq. Qed.

Lemma deref_insert_ne {A} (m : gmap Z A) a b x : a ≠ b → deref (<[a := x]> m) b = deref m b.
Proof. unfold deref. intros. by rewrite lookup_insert_ne. Qed.

(** [look] decides every lookup in a map that was changed. *)
Ltac look :=
  repeat match goal with
  | H : context [<[?a := _]> _ !! ?b] |- _ => rewrite (lookup_insert _ a b) in H; destruct (decide (a = b)); subst
  | H : context [delete ?a _ !! ?b] |- _ => rewrite (lookup_delete _ a b) in H; destruct (decide (a = b)); subst
  | H : Some _ = Some _ |- _ => injection H as <-
  | H : Some _ = Some _ |- _ => injection H as ->
  | H : context [∅ !! _] |- _ => rewrite lookup_empty in H
  | H : None = Some _ |- _ => discriminate H
  end.

Section tree.
Context h (sb root : Z) (Ht : tree_ok h sb root).

Lemma dentry_live a d : dentries h !! a = Some d → 0 < a < next h.
Proof. intros [Ha _]%(t_node _ _ _ Ht). exact Ha. Qed.

Lemma inode_live i x : inodes h !! i = Some x → 0 < i < next h.
Proof. intros [Ha _]%(t_inode _ _ _ Ht). exact Ha. Qed.

Lemma dentry_fresh k : next h <= k → dentries h !! k = None.
Proof. intros Hk. destruct (dentries h !! k) eqn:E; [|done]. apply dentry_live in E. lia. Qed.

Lemma inode_fresh k : next h <= k → inodes h !! k = None.
Proof. intros Hk. destruct (inodes h !! k) eqn:E; [|done]. apply inode_live in E. lia. Qed.

Lemma inode_of a d : dentries h !! a = Some d →
  ∃ x, inodes h !! d_inode_ d = Some x ∧ i_dentry_ x = a ∧ inode_ok h sb (d_inode_ d) x.
Proof. intros Ha. destruct (t_node _ _ _ Ht _ _ Ha) as (_ & (x & Hx & Hd & _) & _). eauto using t_inode. Qed.

(** Following the parents ends at the root. *)
Lemma reaches_root (P : Z → Prop) : P root →
  (∀ a d, dentries h !! a = Some d → a ≠ root → P (d_parent_ d) → P a) → ∀ a, is_Some (dentries h !! a) → P a.
Proof.
  intros Hr Hs a. destruct (decide (0 <= a)) as [H0|H0]; [|intros [d Hd]; apply dentry_live in Hd; lia].
  revert a H0. apply (Zlt_0_ind (λ a, is_Some (dentries h !! a) → P a)).
  intros a IH _ [d Hd]. destruct (decide (a = root)) as [->|Hn]; [done|].
  destruct (t_node _ _ _ Ht _ _ Hd) as (_ & _ & _ & _ & [Hlt (p & Hp & _)]%(λ H, H Hn)).
  pose proof (dentry_live _ _ Hp). eapply Hs; eauto. apply IH; [lia|eauto].
Qed.
End tree.

(** ** Creation *)

Lemma heap_ext h h' : dentries h = dentries h' → inodes h = inodes h' → files h = files h' →
  descriptors h = descriptors h' → superblocks h = superblocks h' → vfs_mounts h = vfs_mounts h' →
  mounts_ h = mounts_ h' → global_fd h = global_fd h' → fd_num_ h = fd_num_ h' → next h = next h' → h = h'.
Proof. destruct h, h'. cbn. by intros -> -> -> -> -> -> -> -> -> ->. Qed.

(** What the smaller steps give. *)
Lemma setInode_eq h a d i : dentries h !! a = Some d → setInode h a i = Val (put_dentry a (with_inode i d) h).
Proof. intros Ha. unfold setInode. by rewrite (deref_Some _ _ _ Ha). Qed.

Lemma mknod_eq h i x a d : a ≠ 0 → inodes h !! i = Some x → i_type_ x = I_DIR → dentries h !! a = Some d →
  mknod h i a = Val (put_dentry a (with_inode i d) (put_inode i (with_i_dentry a x) h), 0).
Proof.
  intros Ha Hi Ht Hd. unfold mknod. rewrite (proj2 (Z.eqb_neq a 0) Ha), (deref_Some _ _ _ Hi). cbn [mbind res_bind].
  rewrite Ht. cbn [Z.eqb negb]. by rewrite (setInode_eq _ _ d) by done.
Qed.

Lemma mkfile_eq h i x a d : a ≠ 0 → inodes h !! i = Some x → i_type_ x = I_FILE → dentries h !! a = Some d →
  mkfile h i a = Val (put_dentry a (with_inode i d) (put_inode i (with_i_dentry a x) h), 0).
Proof.
  intros Ha Hi Ht Hd. unfold mkfile. rewrite (proj2 (Z.eqb_neq a 0) Ha), (deref_Some _ _ _ Hi). cbn [mbind res_bind].
  rewrite Ht. cbn [Z.eqb negb]. by rewrite (setInode_eq _ _ d) by done.
Qed.

Lemma new_child_eq h p d : 0 < p < next h → dentries h !! p = Some d → next h ∉ d_child_ d →
  new_child h p = Val (mkHeap
    (<[next h := mkDentry 0 p [] 0 NamELLEss]> (<[p := with_child (d_child_ d ++ [next h]) d]> (dentries h)))
    (inodes h) (files h) (descriptors h) (superblocks h) (vfs_mounts h) (mounts_ h) (global_fd h) (fd_num_ h)
    (next h + 1), next h).
Proof.
  intros Hp Hd Hn. unfold new_child, setChild. cbn [dentries set_next set_dentries put_dentry].
  rewrite deref_insert_ne by lia. rewrite (deref_Some _ _ _ Hd). cbn [mbind res_bind].
  rewrite (proj2 (Z.eqb_neq (next h) 0)) by lia. rewrite bool_decide_false by done. cbn [orb mbind res_bind].
  f_equal. f_equal. apply heap_ext; try reflexivity.
  cbn [dentries put_dentry set_dentries set_next]. rewrite insert_insert_ne by lia. reflexivity.
Qed.

(** The inode of a new entry. *)
Definition fresh_inode (a type sb : Z) : Inode :=
  mkInode a [] BASIC_ALLOC type 7 sb (if type =? I_FILE then Some new_data else None).

Lemma createInode_eq h sb s a d type : a ≠ 0 → dentries h !! a = Some d → superblocks h !! sb = Some s →
  type = I_DIR ∨ type = I_FILE →
  createInode h sb a type = Val (mkHeap (<[a := with_inode (next h) d]> (dentries h))
    (<[next h := fresh_inode a type sb]> (inodes h)) (files h) (descriptors h)
    (<[sb := with_all_inodes (all_inodes_ s ++ [next h]) s]> (superblocks h)) (vfs_mounts h) (mounts_ h) (global_fd h)
    (fd_num_ h) (next h + 1), next h).
Proof.
  intros Ha Hd Hs Ht. unfold createInode.
  destruct (new_inode h sb type) as [h1 i] eqn:E. unfold new_inode in E. injection E as <- <-.
  destruct Ht as [-> | ->]; cbn [Z.eqb I_DIR I_FILE Pos.eqb];
    [erewrite mknod_eq|erewrite mkfile_eq]; try (done || apply lookup_insert_eq); cbn [mbind res_bind kassert Z.eqb];
    cbn [superblocks put_dentry put_inode set_dentries set_inodes set_next];
    rewrite (deref_Some _ _ _ Hs); cbn [mbind res_bind]; f_equal; f_equal; apply heap_ext; try reflexivity;
    cbn [inodes put_super put_dentry put_inode set_dentries set_inodes set_superblocks set_next];
    rewrite insert_insert_eq; reflexivity.
Qed.

(** The heap after the creation of an entry with an inode. *)
Definition created h (p : Z) (d : Dentry) (name : list Z) (sb : Z) (s : Superblock) (type : Z) : heap :=
  let a := next h in
  let i := next h + 1 in
  mkHeap (<[a := mkDentry i p [] 0 name]> (<[p := with_child (d_child_ d ++ [a]) d]> (dentries h)))
    (<[i := fresh_inode a type sb]> (inodes h)) (files h) (descriptors h)
    (<[sb := with_all_inodes (all_inodes_ s ++ [i]) s]> (superblocks h)) (vfs_mounts h) (mounts_ h) (global_fd h)
    (fd_num_ h) (next h + 2).

Section create.
Context h (sb root : Z) (Ht : tree_ok h sb root).
Context (p : Z) (d : Dentry) (x : Inode) (name : list Z) (s : Superblock) (type : Z).
Context (Hd : dentries h !! p = Some d) (Hx : inodes h !! d_inode_ d = Some x) (Hx' : i_type_ x = I_DIR).
Context (Htype : type = I_DIR ∨ type = I_FILE) (Hs : superblocks h !! sb = Some s).

Lemma new_child_not_listed a e : dentries h !! a = Some e → next h ∉ d_child_ e.
Proof.
  intros He Hin. destruct (t_node _ _ _ Ht _ _ He) as (_ & _ & _ & Hc & _).
  apply Hc in Hin as (_ & e' & He' & _). apply (dentry_live _ _ _ Ht) in He'. lia.
Qed.

Lemma create_entry :
  ('(h, sub) ← new_child h p;
   e ← deref (dentries h) sub;
   createInode (put_dentry sub (with_name name e) h) sb sub type) = Val (created h p d name sb s type, next h + 1).
Proof.
  pose proof (dentry_live _ _ _ Ht _ _ Hd) as Hl.
  rewrite (new_child_eq _ _ _ Hl Hd) by by eapply new_child_not_listed. cbn [mbind res_bind dentries].
  rewrite deref_insert. cbn [mbind res_bind].
  erewrite createInode_eq; [|lia|apply lookup_insert_eq|exact Hs|done].
  f_equal. f_equal. apply heap_ext; try reflexivity.
  - cbn. rewrite !insert_insert_eq. reflexivity.
  - cbn. lia.
Qed.

Let h' := created h p d name sb s type.

(** What is there stays there; only [p] gets a child. *)
Lemma created_dentry a e : dentries h !! a = Some e →
  ∃ e', dentries h' !! a = Some e' ∧ d_inode_ e' = d_inode_ e ∧ d_parent_ e' = d_parent_ e ∧
    d_name_ e' = d_name_ e ∧ d_child_ e' = (if decide (a = p) then d_child_ e ++ [next h] else d_child_ e).
Proof.
  intros Ha. pose proof (dentry_live _ _ _ Ht _ _ Ha). unfold h', created. cbn [dentries].
  rewrite lookup_insert_ne by lia. destruct (decide (p = a)) as [<-|Hn].
  - rewrite Hd in Ha. injection Ha as <-. rewrite lookup_insert_eq, decide_True by done. by eexists.
  - rewrite lookup_insert_ne, decide_False by done. by exists e.
Qed.

Lemma created_dentry_inv a e' : dentries h' !! a = Some e' →
  a = next h ∧ e' = mkDentry (next h + 1) p [] 0 name ∨ is_Some (dentries h !! a).
Proof.
  unfold h', created. cbn [dentries]. rewrite !lookup_insert.
  destruct (decide (next h = a)) as [<-|]; [intros [= <-]; by left|].
  destruct (decide (p = a)) as [<-|]; [by right; exists d|]. right. by exists e'.
Qed.

Lemma created_inode i y : inodes h !! i = Some y → inodes h' !! i = Some y.
Proof.
  intros Hi. pose proof (inode_live _ _ _ Ht _ _ Hi). unfold h', created. cbn [inodes].
  by rewrite lookup_insert_ne by lia.
Qed.

Lemma created_tree : tree_ok h' sb root.
Proof.
  pose proof (dentry_live _ _ _ Ht _ _ Hd) as Hp.
  assert (Hnext : next h' = next h + 2) by done.
  assert (Ha : dentries h' !! next h = Some (mkDentry (next h + 1) p [] 0 name)) by apply lookup_insert_eq.
  assert (Hi : inodes h' !! (next h + 1) = Some (fresh_inode (next h) type sb)) by apply lookup_insert_eq.
  assert (Hr : next h ≠ root).
  { intros E. destruct (t_root _ _ _ Ht) as (r & _ & Hr & _). apply (dentry_live _ _ _ Ht) in Hr. lia. }
  destruct (created_dentry _ _ Hd) as (d' & Hd' & Ei & Ep & _ & Ec). rewrite decide_True in Ec by done.
  split.
  - intros a e' He'. destruct (created_dentry_inv _ _ He') as [[-> ->]|[e He]].
    + split_and!; [lia|lia|exists (fresh_inode (next h) type sb); cbn; split_and!; [exact Hi|done|done]|apply NoDup_nil_2| |].
      * by intros c Hc%elem_of_nil.
      * intros _. cbn. split; [lia|]. exists d'. rewrite Ec. split; [done|]. set_solver.
    + destruct (t_node _ _ _ Ht _ _ He) as (Hl & (y & Hy & Hya & Hyt) & Hnd & Hch & Hpar).
      destruct (created_dentry _ _ He) as (e1 & He1 & Ei1 & Ep1 & _ & Ec1). rewrite He' in He1. injection He1 as <-.
      split_and!; [lia|lia| | | |].
      * exists y. rewrite Ei1. split_and!; [by apply created_inode|done|]. rewrite Ec1. destruct (decide (a = p)) as [->|]; [|done].
        rewrite Hd in He. injection He as <-. rewrite Hx in Hy. by injection Hy as <-.
      * rewrite Ec1. destruct (decide (a = p)); [|done]. apply NoDup_app. split_and!; [done| |apply NoDup_singleton].
        intros c Hc ->%list_elem_of_singleton. apply Hch in Hc as (_ & z & Hz & _). apply (dentry_live _ _ _ Ht) in Hz. lia.
      * intros c Hc. assert (c ∈ d_child_ e ∨ a = p ∧ c = next h) as [Hc'|[-> ->]].
        { rewrite Ec1 in Hc. destruct (decide (a = p)); [|by left]. apply elem_of_app in Hc as [Hc|Hc%list_elem_of_singleton]; auto. }
        -- apply Hch in Hc' as (Hcr & z & Hz & Hzp). split; [done|].
           destruct (created_dentry _ _ Hz) as (z' & Hz' & _ & Ez & _). exists z'. by rewrite Ez.
        -- split; [done|]. by eexists.
      * intros Hn. destruct (Hpar Hn) as (Hlt & q & Hq & Hin). rewrite Ep1. split; [done|].
        destruct (created_dentry _ _ Hq) as (q' & Hq' & _ & _ & _ & Eq). exists q'. split; [done|].
        rewrite Eq. case_decide; [apply elem_of_app; by left|done].
  - intros i y Hy. unfold h', created in Hy. cbn [inodes] in Hy. rewrite lookup_insert in Hy.
    destruct (decide (next h + 1 = i)) as [<-|Hn].
    + injection Hy as <-. split_and!; [lia|lia|done..| |intros _; by eexists].
      destruct Htype as [-> | ->]; cbn; [by left|right]. split; [done|]. by exists new_data.
    + destruct (t_inode _ _ _ Ht _ _ Hy) as (Hl & ? & ? & ? & ? & He). split_and!; try done; try lia.
      intros (e & Hee & <-)%He. destruct (created_dentry _ _ Hee) as (e' & ? & ? & _). by exists e'.
  - destruct (t_root _ _ _ Ht) as (r & y & Hr' & Hrp & Hy & Hyt).
    destruct (created_dentry _ _ Hr') as (r' & Hr'' & Er & Epr & _). exists r', y. rewrite Epr, Er.
    split_and!; [done|done|by apply created_inode|done].
Qed.

Lemma created_files : files_ok h sb → files_ok h' sb.
Proof.
  intros Hf. split; try exact (c_inj _ _ Hf); try exact (c_global _ _ Hf); try exact (c_num _ _ Hf).
  - intros i y Hy. unfold h', created in Hy. cbn [inodes] in Hy. rewrite lookup_insert in Hy.
    destruct (decide (next h + 1 = i)) as [<-|Hn]; [|by apply (c_inode _ _ Hf)].
    injection Hy as <-. cbn. split_and!; [by apply NoDup_nil_2| |done]. intros f. split; [by intros ?%elem_of_nil|].
    intros (y & Hy & Ey). destruct (c_file _ _ Hf _ _ Hy) as (_ & _ & [z Hz] & _). rewrite Ey in Hz.
    apply (inode_live _ _ _ Ht) in Hz. lia.
  - intros f y Hy. destruct (c_file _ _ Hf _ _ Hy) as (? & ? & [z Hz] & ?). change (next h') with (next h + 2).
    split_and!; try done; try lia. exists z. by apply created_inode.
  - intros q e He. destruct (c_fd _ _ Hf _ _ He) as (? & ? & ?). change (fd_num_ h') with (fd_num_ h).
    change (next h') with (next h + 2). split_and!; try done; lia.
Qed.

Lemma created_super : super_ok h sb → super_ok h' sb.
Proof.
  intros (s0 & Hs0 & Hsb & Hsf & Hn & Ha & Hnu & Hu). rewrite Hs in Hs0. injection Hs0 as <-.
  assert (Hni : ∀ y, inodes h !! (next h + 1) ≠ Some y).
  { intros y Hy. apply (inode_live _ _ _ Ht) in Hy. lia. }
  exists (with_all_inodes (all_inodes_ s ++ [next h + 1]) s). cbn.
  split_and!; [apply lookup_insert_eq|done|done| | |done|].
  - apply NoDup_app. split_and!; [done| |apply NoDup_singleton]. intros i Hi ->%list_elem_of_singleton.
    apply Ha in Hi as (y & Hy & _). by apply Hni in Hy.
  - intros i. rewrite elem_of_app, list_elem_of_singleton, Ha, lookup_insert.
    destruct (decide (next h + 1 = i)) as [<-|]; [|naive_solver].
    pose proof (dentry_live _ _ _ Ht _ _ Hd). split; [|auto]. intros _. eexists. split; [done|]. cbn. lia.
  - intros i. rewrite Hu, lookup_insert. destruct (decide (next h + 1 = i)) as [<-|]; [|done].
    split; [intros (y & Hy & _); by apply Hni in Hy|]. by intros (y & [= <-] & Hy).
Qed.
End create.

Lemma created_ok h sb root p d x name s type : fs_ok h sb root → dentries h !! p = Some d →
  inodes h !! d_inode_ d = Some x → i_type_ x = I_DIR → type = I_DIR ∨ type = I_FILE → superblocks h !! sb = Some s →
  fs_ok (created h p d name sb s type) sb root.
Proof. intros (Ht & Hf & Hs) ? ? ? ? ?. split_and!; [by eapply created_tree|by eapply created_files|by eapply created_super]. Qed.

(** ** Removal *)

Lemma list_remove_in c a l : c ∈ list_remove a l ↔ c ∈ l ∧ c ≠ a.
Proof. unfold list_remove. rewrite list_elem_of_filter. tauto. Qed.

Lemma list_remove_NoDup a l : NoDup l → NoDup (list_remove a l).
Proof. apply NoDup_filter. Qed.

(** The heap after the removal of the entry [a] of the inode [i] from [p]. *)
Definition unlinked h (a p : Z) (dp : Dentry) (i : Z) (x : Inode) : heap :=
  mkHeap (delete a (<[p := with_child (list_remove a (d_child_ dp)) dp]> (dentries h)))
    (<[i := with_i_dentry 0 x]> (inodes h)) (files h) (descriptors h) (superblocks h) (vfs_mounts h) (mounts_ h)
    (global_fd h) (fd_num_ h) (next h).

(** The inodes and the superblock after [delete_inode] as well. *)
Definition removed h (a p : Z) (dp : Dentry) (i : Z) (x : Inode) (sb : Z) (s : Superblock) : heap :=
  let s' := with_all_inodes (list_remove i (all_inodes_ s)) s in
  mkHeap (delete a (<[p := with_child (list_remove a (d_child_ dp)) dp]> (dentries h)))
    (match s_kind s with RamFS => <[i := with_i_dentry 0 x]> (inodes h) | DeviceFS => delete i (inodes h) end)
    (files h) (descriptors h)
    (<[sb := match s_kind s with RamFS => s' | DeviceFS => with_used_inodes (list_remove i (used_inodes_ s)) s' end]>
      (superblocks h))
    (vfs_mounts h) (mounts_ h) (global_fd h) (fd_num_ h) (next h).

Lemma childRemove_eq h p a dp d : a ≠ 0 → a ≠ p → dentries h !! p = Some dp → dentries h !! a = Some d →
  childRemove h p a = Val (put_dentry a (with_parent 0 d)
    (put_dentry p (with_child (list_remove a (d_child_ dp)) dp) h), 0).
Proof.
  intros Ha Hap Hp Hd. unfold childRemove. rewrite (proj2 (Z.eqb_neq a 0) Ha). cbn [negb kassert mbind res_bind].
  rewrite (deref_Some _ _ _ Hp). cbn [mbind res_bind dentries put_dentry set_dentries].
  rewrite deref_insert_ne by done. by rewrite (deref_Some _ _ _ Hd).
Qed.

Lemma delete_dentry_eq h a d : dentries h !! a = Some d → d_parent_ d = 0 → d_child_ d = [] →
  delete_dentry h a = Val (set_dentries (delete a (dentries h)) h).
Proof.
  intros Ha Hp Hc. unfold delete_dentry. rewrite (deref_Some _ _ _ Ha). cbn [mbind res_bind].
  rewrite Hp. cbn [Z.eqb negb andb mbind res_bind]. rewrite (deref_Some _ _ _ Ha). cbn [mbind res_bind].
  by rewrite Hc.
Qed.

Lemma remove_entry_eq h i x a d p dp : inodes h !! i = Some x → i_dentry_ x = a → dentries h !! a = Some d →
  d_child_ d = [] → d_parent_ d = p → a ≠ 0 → a ≠ p → dentries h !! p = Some dp →
  remove_entry h i = Val (unlinked h a p dp i x, INODE_DEAD).
Proof.
  intros Hi Ea Ha Hc Ep Ha0 Hap Hp. unfold remove_entry. rewrite (deref_Some _ _ _ Hi). cbn [mbind res_bind].
  rewrite Ea. unfold emptyChild. rewrite (deref_Some _ _ _ Ha). cbn [mbind res_bind].
  rewrite bool_decide_true by done.
  unfold releaseInode. rewrite (setInode_eq _ _ d) by done. cbn [mbind res_bind dentries put_dentry set_dentries].
  rewrite deref_insert. cbn [mbind res_bind d_parent_ with_inode]. rewrite Ep.
  rewrite (childRemove_eq _ p a dp (with_inode 0 d));
    [|done|done|cbn [dentries put_dentry set_dentries]; by rewrite lookup_insert_ne|apply lookup_insert_eq].
  cbn [mbind res_bind]. erewrite delete_dentry_eq; [|apply lookup_insert_eq|done|exact Hc]. cbn [mbind res_bind].
  cbn [inodes set_dentries put_dentry]. rewrite (deref_Some _ _ _ Hi). cbn [mbind res_bind]. f_equal. f_equal.
  apply heap_ext; try reflexivity. cbn. rewrite delete_insert_eq, !(delete_insert_ne _ a p) by done.
  by rewrite delete_insert_eq.
Qed.

Section remove.
Context h (sb root : Z) (Hok : fs_ok h sb root).
Context (a : Z) (d : Dentry) (x : Inode) (dp : Dentry) (s : Superblock).
Context (Ha : dentries h !! a = Some d) (Har : a ≠ root) (Hempty : d_child_ d = []).
Context (Hx : inodes h !! d_inode_ d = Some x) (Hclosed : i_files_ x = []).
Context (Hp : dentries h !! d_parent_ d = Some dp) (Hs : superblocks h !! sb = Some s).

Let p := d_parent_ d.
Let i := d_inode_ d.
Let h' := removed h a p dp i x sb s.

Lemma remove_parent : a ≠ 0 ∧ a ≠ p ∧ i_dentry_ x = a.
Proof.
  destruct Hok as (Ht & _). destruct (t_node _ _ _ Ht _ _ Ha) as (Hl & (y & Hy & Hya & _) & _ & _ & Hpar).
  rewrite Hx in Hy. injection Hy as <-. apply Hpar in Har as [? _]. unfold p. split_and!; [lia|lia|done].
Qed.

Lemma remove_steps : ('(h, r) ← remove_entry h i; _ ← kassert (r =? INODE_DEAD); delete_inode h sb i) = Val h'.
Proof.
  destruct remove_parent as (Ha0 & Hap & Ex). erewrite remove_entry_eq; [|exact Hx|exact Ex|exact Ha|done|done|done|done|exact Hp].
  cbn [mbind res_bind]. change (INODE_DEAD =? INODE_DEAD) with true. cbn [kassert mbind res_bind].
  unfold delete_inode. cbn [superblocks unlinked]. rewrite (deref_Some _ _ _ Hs). cbn [mbind res_bind].
  destruct Hok as (Ht & _). pose proof (inode_live _ _ _ Ht _ _ Hx). fold i in H.
  unfold h', removed. destruct (s_kind s); [f_equal; by apply heap_ext|].
  rewrite (proj2 (Z.eqb_neq i 0)) by lia. cbn [negb kassert mbind res_bind]. f_equal. apply heap_ext; try reflexivity.
  cbn. apply delete_insert_eq.
Qed.

Let strip (b : Z) (e : Dentry) : Dentry :=
  if decide (b = p) then with_child (list_remove a (d_child_ e)) e else e.

Lemma removed_dentry b e : dentries h !! b = Some e → b ≠ a → dentries h' !! b = Some (strip b e).
Proof.
  intros Hb Hba. unfold h', removed, strip. cbn [dentries]. rewrite lookup_delete_ne by done.
  destruct (decide (b = p)) as [->|]; [|by rewrite lookup_insert_ne].
  rewrite lookup_insert_eq. unfold p in Hb. rewrite Hp in Hb. by injection Hb as <-.
Qed.

Lemma removed_dentry_inv b e' : dentries h' !! b = Some e' → b ≠ a ∧ ∃ e, dentries h !! b = Some e ∧ e' = strip b e.
Proof.
  intros Hb. assert (b ≠ a) as Hba by (intros ->; unfold h', removed in Hb; cbn in Hb; by rewrite lookup_delete_eq in Hb).
  split; [done|]. assert (is_Some (dentries h !! b)) as [e He].
  { unfold h', removed in Hb. cbn [dentries] in Hb. rewrite lookup_delete_ne, lookup_insert in Hb by done.
    destruct (decide (p = b)) as [<-|]; eauto. }
  exists e. split; [done|]. rewrite (removed_dentry _ _ He Hba) in Hb. by injection Hb as <-.
Qed.

Lemma removed_inode j y : inodes h !! j = Some y → j ≠ i → inodes h' !! j = Some y.
Proof.
  intros Hj Hn. unfold h', removed. cbn [inodes]. destruct (s_kind s); [by rewrite lookup_insert_ne|by rewrite lookup_delete_ne].
Qed.

Lemma removed_inode_inv j y : inodes h' !! j = Some y → j ≠ i ∧ inodes h !! j = Some y ∨ j = i ∧ y = with_i_dentry 0 x.
Proof.
  unfold h', removed. cbn [inodes]. destruct (s_kind s); rewrite ?lookup_insert, ?lookup_delete;
    destruct (decide (i = j)) as [<-|]; try done; try (intros [= <-]; by right); by left.
Qed.

Lemma strip_fields b e : d_inode_ (strip b e) = d_inode_ e ∧ d_parent_ (strip b e) = d_parent_ e ∧
  d_name_ (strip b e) = d_name_ e.
Proof. unfold strip. by case_decide. Qed.

(** Only [p] lists [a]. *)
Lemma strip_child b e c : dentries h !! b = Some e → c ∈ d_child_ (strip b e) ↔ c ∈ d_child_ e ∧ c ≠ a.
Proof.
  intros Hb. unfold strip. case_decide as Eb; [apply list_remove_in|]. split; [|tauto]. intros Hc. split; [done|]. intros ->.
  destruct Hok as (Ht & _). destruct (t_node _ _ _ Ht _ _ Hb) as (_ & _ & _ & Hch & _).
  apply Hch in Hc as (_ & e' & He' & Ep). rewrite Ha in He'. injection He' as <-. by apply Eb.
Qed.

Lemma other_inode b e : dentries h !! b = Some e → b ≠ a → d_inode_ e ≠ i.
Proof.
  intros Hb Hba E. destruct Hok as (Ht & _). destruct (inode_of _ _ _ Ht _ _ Hb) as (y & Hy & Ey & _).
  rewrite E in Hy. unfold i in Hy. rewrite Hx in Hy. injection Hy as <-. destruct remove_parent as (_ & _ & Ex). congruence.
Qed.

Lemma removed_tree : tree_ok h' sb root.
Proof.
  pose proof Hok as (Ht & _). split.
  - intros b e' Hb'. destruct (removed_dentry_inv _ _ Hb') as (Hba & e & Hb & ->).
    destruct (t_node _ _ _ Ht _ _ Hb) as (Hl & (y & Hy & Hyb & Hyt) & Hnd & Hch & Hpar).
    destruct (strip_fields b e) as (Ei & Ep & _).
    refine (conj Hl (conj _ (conj _ (conj _ _)))).
    + exists y. rewrite Ei. split_and!; [apply removed_inode; [done|by eapply other_inode]|done|].
      intros Hc. apply Hyt. intros E. apply Hc. apply elem_of_nil_inv. intros c. rewrite strip_child by done. rewrite E.
      by intros [?%elem_of_nil _].
    + unfold strip. case_decide; [by apply list_remove_NoDup|done].
    + intros c [Hc Hca]%strip_child; [|done]. apply Hch in Hc as (Hcr & z & Hz & Hzp). split; [done|].
      exists (strip c z). rewrite (proj1 (proj2 (strip_fields c z))). by split; [apply removed_dentry|].
    + intros Hbr. destruct (Hpar Hbr) as (Hlt & q & Hq & Hin). rewrite Ep. split; [done|].
      exists (strip (d_parent_ e) q). rewrite strip_child by done. split; [|done]. apply removed_dentry; [done|].
      intros Eq. rewrite Eq, Ha in Hq. injection Hq as <-. rewrite Hempty in Hin. by apply elem_of_nil in Hin.
  - intros j y Hj. destruct (removed_inode_inv _ _ Hj) as [[Hji Hjo]|[-> ->]].
    + destruct (t_inode _ _ _ Ht _ _ Hjo) as (Hl & ? & ? & ? & Hk & He).
      refine (conj Hl (conj _ (conj _ (conj _ (conj Hk _))))); [done..|].
      intros (e & Hee & <-)%He. exists (strip (i_dentry_ y) e). split; [apply removed_dentry; [done|]|by apply strip_fields].
      intros E. rewrite E, Ha in Hee. by injection Hee as <-.
    + destruct (t_inode _ _ _ Ht _ _ Hx) as (Hl & ? & ? & ? & Hk & _).
      by refine (conj Hl (conj _ (conj _ (conj _ (conj Hk _))))).
  - destruct (t_root _ _ _ Ht) as (r & y & Hr & Hrp & Hy & Hyt). exists (strip root r), y.
    destruct (strip_fields root r) as (-> & -> & _). split_and!; [by apply removed_dentry|done| |done].
    apply removed_inode; [done|by eapply other_inode].
Qed.

Lemma removed_files : files_ok h' sb.
Proof.
  pose proof Hok as (Ht & Hf & _). split; try exact (c_inj _ _ Hf); try exact (c_global _ _ Hf); try exact (c_num _ _ Hf);
    try exact (c_fd _ _ Hf).
  - intros j y Hj. destruct (removed_inode_inv _ _ Hj) as [[Hji Hjo]|[-> ->]]; [by apply (c_inode _ _ Hf)|].
    destruct (c_inode _ _ Hf _ _ Hx) as (? & ? & ?). rewrite Hclosed in *. cbn. by rewrite Hclosed.
  - intros f y Hy. destruct (c_file _ _ Hf _ _ Hy) as (Hl & ? & [z Hz] & ?). refine (conj Hl (conj _ (conj _ _))); [done| |done].
    exists z. apply removed_inode; [done|]. intros E. unfold i in E. rewrite E, Hx in Hz. injection Hz as <-.
    destruct (c_inode _ _ Hf _ _ Hx) as (_ & Hin & _). rewrite Hclosed in Hin.
    apply (elem_of_nil f), Hin. by exists y.
Qed.

Lemma removed_super : super_ok h' sb.
Proof.
  destruct Hok as (Ht & Hf & (s0 & Hs0 & Hsb & Hsf & Hn & Hall & Hnu & Hu)). rewrite Hs in Hs0. injection Hs0 as <-.
  destruct remove_parent as (Ha0 & _ & Ex).
  assert (Hall' : ∀ j, (j ∈ list_remove i (all_inodes_ s)) ↔ ∃ y, inodes h' !! j = Some y ∧ i_dentry_ y ≠ 0).
  { intros j. rewrite list_remove_in, Hall. split.
    - intros [(y & Hy & Hd) Hj]. exists y. by split; [apply removed_inode|].
    - intros (y & Hy & Hd). destruct (removed_inode_inv _ _ Hy) as [[? ?]|[_ ->]]; [eauto|done]. }
  assert (Hu' : ∀ j, (∃ y, inodes h !! j = Some y ∧ i_files_ y ≠ []) ↔ ∃ y, inodes h' !! j = Some y ∧ i_files_ y ≠ []).
  { intros j. split.
    - intros (y & Hy & Hc). exists y. split; [apply removed_inode|]; try done. intros ->. unfold i in Hy. rewrite Hx in Hy.
      by injection Hy as <-.
    - intros (y & Hy & Hc). destruct (removed_inode_inv _ _ Hy) as [[? ?]|[_ ->]]; [eauto|done]. }
  eexists. split_and!; [apply lookup_insert_eq|done|by destruct (s_kind s)|..]; destruct (s_kind s); cbn;
    try by apply list_remove_NoDup.
  - done.
  - done.
  - done.
  - intros j. rewrite Hu. apply Hu'.
  - intros j. rewrite list_remove_in, Hu. etransitivity; [|apply Hu']. split; [by intros [? _]|]. intros Hj. split; [done|]. intros ->.
    destruct Hj as (y & Hy & Hc). unfold i in Hy. rewrite Hx in Hy. by injection Hy as <-.
Qed.

Lemma removed_ok : fs_ok h' sb root.
Proof. split_and!; [apply removed_tree|apply removed_files|apply removed_super]. Qed.
End remove.

(** ** Open files *)

(** A change to the open files or the bytes of an inode. *)
Definition like (x x' : Inode) : Prop :=
  i_dentry_ x' = i_dentry_ x ∧ i_size_ x' = i_size_ x ∧ i_type_ x' = i_type_ x ∧ i_mode_ x' = i_mode_ x ∧
  superblock_ x' = superblock_ x ∧ (i_type_ x = I_DIR → i_files_ x' = i_files_ x) ∧
  ∀ l, data_ x = Some l → ∃ l', data_ x' = Some l' ∧ length l' = length l.

Lemma like_refl x : like x x.
Proof. repeat split; eauto. Qed.

Lemma tree_frame h h' sb root i x x' : tree_ok h sb root → inodes h !! i = Some x → like x x' →
  dentries h' = dentries h → inodes h' = <[i := x']> (inodes h) → next h <= next h' → tree_ok h' sb root.
Proof.
  intros Ht Hi Hlike Ed Ei Hn.
  assert (Hfw : ∀ j y, inodes h !! j = Some y → ∃ y', inodes h' !! j = Some y' ∧ like y y').
  { intros j y Hj. rewrite Ei, lookup_insert. destruct (decide (i = j)) as [<-|]; [|eauto using like_refl].
    rewrite Hi in Hj. injection Hj as <-. eauto. }
  split.
  - intros a d Ha. rewrite Ed in Ha. destruct (t_node _ _ _ Ht _ _ Ha) as (Hl & (y & Hy & Hya & Hyt) & ? & ? & ?).
    unfold node_ok. rewrite Ed. refine (conj _ (conj _ _)); [lia| |done].
    destruct (Hfw _ _ Hy) as (y' & Hy' & Ed' & _ & Et' & _). exists y'. rewrite Ed', Et'. done.
  - intros j y Hj. rewrite Ei, lookup_insert in Hj. destruct (decide (i = j)) as [<-|].
    + injection Hj as <-. destruct (t_inode _ _ _ Ht _ _ Hi) as (Hl & ? & ? & ? & Hk & He).
      destruct Hlike as (E1 & E2 & E3 & E4 & E5 & E6 & E7). unfold inode_ok. rewrite Ed, E1, E2, E3, E4, E5.
      refine (conj _ (conj _ (conj _ (conj _ (conj _ He))))); [lia|done..|].
      destruct Hk as [[Hk Hf]|[Hk (l & Hl1 & Hl2)]]; [left; by rewrite E6|right]. split; [done|].
      destruct (E7 _ Hl1) as (l' & ? & ?). exists l'. split; [done|]. congruence.
    + destruct (t_inode _ _ _ Ht _ _ Hj) as (Hl & Hr). unfold inode_ok. rewrite Ed. split; [lia|done].
  - destruct (t_root _ _ _ Ht) as (r & y & Hr & Hrp & Hy & Hyt). destruct (Hfw _ _ Hy) as (y' & Hy' & _ & _ & Et & _).
    exists r, y'. by rewrite Ed, Et.
Qed.

(** The heap after an open of the inode [i]. *)
Definition opened h (i : Z) (x : Inode) (flag sb : Z) (s : Superblock) : heap :=
  let f := next h in
  let q := next h + 1 in
  mkHeap (dentries h) (<[i := with_i_files (i_files_ x ++ [f]) x]> (inodes h))
    (<[f := mkFile (superblock_ x) i (i_dentry_ x) flag 0]> (files h)) (<[q := mkFd (fd_num_ h) f]> (descriptors h))
    (<[sb := with_used_inodes (add_once i (used_inodes_ s)) (with_s_files (s_files_ s ++ [q]) s)]> (superblocks h))
    (vfs_mounts h) (mounts_ h) (global_fd h ++ [q]) (u64 (fd_num_ h + 1)) (next h + 2).

Lemma add_once_in c x l : c ∈ add_once x l ↔ c = x ∨ c ∈ l.
Proof. unfold add_once. case_bool_decide; [|rewrite elem_of_app, list_elem_of_singleton]; naive_solver. Qed.

Lemma add_once_NoDup x l : NoDup l → NoDup (add_once x l).
Proof.
  unfold add_once. case_bool_decide; [done|]. intros. apply NoDup_app. split_and!; [done| |apply NoDup_singleton].
  by intros c Hc ->%list_elem_of_singleton.
Qed.

Lemma NoDup_snoc (l : list Z) x : x ∉ l → NoDup l → NoDup (l ++ [x]).
Proof.
  intros Hx Hl. apply NoDup_app. split_and!; [done| |apply NoDup_singleton]. by intros c Hc ->%list_elem_of_singleton.
Qed.

Lemma app_nonempty (l : list Z) x : l ++ [x] ≠ [].
Proof. by destruct l. Qed.

Section opening.
Context h (sb root : Z) (Hok : fs_ok h sb root) (i : Z) (x : Inode) (flag : Z) (s : Superblock).
Context (Hi : inodes h !! i = Some x) (Hfile : i_type_ x = I_FILE) (Hlinked : i_dentry_ x ≠ 0).
Context (Hs : superblocks h !! sb = Some s) (Hnum : fd_num_ h + 1 < 2 ^ 31).

Lemma createFd_eq : createFd h sb i flag = Val (opened h i x flag sb s, fd_num_ h).
Proof.
  destruct Hok as (Ht & Hf & _). pose proof (inode_live _ _ _ Ht _ _ Hi). pose proof (c_num _ _ Hf).
  unfold createFd. rewrite (proj2 (Z.eqb_neq i 0)) by lia. cbn [negb kassert mbind res_bind].
  unfold link. rewrite (deref_Some _ _ _ Hi). cbn [mbind res_bind].
  destruct (new_descriptor _ _) as [h1 q] eqn:E. unfold new_descriptor in E. injection E as <- <-.
  cbn [superblocks put_inode put_file set_files set_inodes set_next set_fd_num set_descriptors].
  rewrite (deref_Some _ _ _ Hs). cbn [mbind res_bind].
  cbn [superblocks put_super fd_add set_superblocks set_descriptors]. rewrite deref_insert. cbn [mbind res_bind].
  cbn [descriptors put_super fd_add set_superblocks set_descriptors set_fd_num set_next]. rewrite deref_insert.
  cbn [mbind res_bind]. unfold getFd. cbn [fd_ fd_num_ put_inode put_file set_files set_inodes set_next].
  rewrite (wrap_small 32), signed_small by lia. f_equal. f_equal. apply heap_ext; try reflexivity.
  - cbn. by rewrite insert_insert_eq.
  - cbn. lia.
Qed.

Let h' := opened h i x flag sb s.

Lemma opened_tree : tree_ok h' sb root.
Proof.
  destruct Hok as (Ht & _). eapply tree_frame; [exact Ht|exact Hi| |done|reflexivity|cbn; lia].
  repeat split; try done; [|eauto]. by rewrite Hfile.
Qed.

Lemma file_fresh k : next h <= k → files h !! k = None.
Proof.
  intros Hk. destruct (files h !! k) eqn:E; [|done]. destruct Hok as (_ & Hf & _). apply (c_file _ _ Hf) in E. lia.
Qed.
Lemma descriptor_fresh k : next h <= k → descriptors h !! k = None.
Proof.
  intros Hk. destruct (descriptors h !! k) eqn:E; [|done]. destruct Hok as (_ & Hf & _). apply (c_fd _ _ Hf) in E. lia.
Qed.

Lemma opened_inode j y : inodes h !! j = Some y → ∃ y', inodes h' !! j = Some y' ∧ i_dentry_ y' = i_dentry_ y.
Proof.
  intros Hj. cbn. rewrite lookup_insert. destruct (decide (i = j)) as [<-|]; [|eauto].
  rewrite Hi in Hj. injection Hj as <-. by eexists.
Qed.

Lemma opened_files : files_ok h' sb.
Proof.
  pose proof Hok as (Ht & Hf & _). pose proof (c_num _ _ Hf). pose proof (inode_live _ _ _ Ht _ _ Hi).
  assert (Efd : fd_num_ h' = fd_num_ h + 1) by (cbn; by rewrite (wrap_small 64) by lia).
  assert (Hq : next h + 1 ∉ global_fd h).
  { intros [e He]%(c_global _ _ Hf). by rewrite descriptor_fresh in He by lia. }
  assert (Hnofile : ∀ p e, descriptors h !! p = Some e → file_ e ≠ next h).
  { intros p e He E. destruct (c_fd _ _ Hf _ _ He) as (_ & _ & [y Hy]). rewrite E, file_fresh in Hy by lia. done. }
  split.
  - intros j y Hj. cbn in Hj. rewrite lookup_insert in Hj. destruct (decide (i = j)) as [<-|Hn].
    + injection Hj as <-. destruct (c_inode _ _ Hf _ _ Hi) as (Hnd & Hin & Hc). cbn [i_files_ i_dentry_ with_i_files].
      split_and!; [|intros f|done].
      * apply NoDup_snoc; [|done]. intros (y & Hy & _)%Hin. by rewrite file_fresh in Hy by lia.
      * rewrite elem_of_app, list_elem_of_singleton, Hin. cbn. rewrite lookup_insert.
        destruct (decide (next h = f)) as [<-|]; [|naive_solver]. split; [|auto]. intros _. by eexists.
    + destruct (c_inode _ _ Hf _ _ Hj) as (Hnd & Hin & Hc). split_and!; [done|intros f|done]. rewrite Hin. cbn.
      rewrite lookup_insert. destruct (decide (next h = f)) as [<-|]; [|done]. rewrite file_fresh by lia.
      split; [naive_solver|]. by intros (y' & [= <-] & E).
  - intros f y Hy. change (next h') with (next h + 2). cbn in Hy. rewrite lookup_insert in Hy.
    destruct (decide (next h = f)) as [<-|Hn].
    + injection Hy as <-. cbn. destruct (t_inode _ _ _ Ht _ _ Hi) as (_ & Esb & _).
      split_and!; try done; try lia. fold h'. destruct (opened_inode _ _ Hi) as (z & Hz & _). by exists z.
    + destruct (c_file _ _ Hf _ _ Hy) as (Hl & ? & [z Hz] & ?). refine (conj _ (conj _ (conj _ _))); [lia|done| |done].
      destruct (opened_inode _ _ Hz) as (z' & Hz' & _). by exists z'.
  - intros p e He. rewrite Efd. change (next h') with (next h + 2). cbn in He. rewrite lookup_insert in He.
    destruct (decide (next h + 1 = p)) as [<-|Hn].
    + injection He as <-. cbn. rewrite lookup_insert_eq. split_and!; try lia. by eexists.
    + destruct (c_fd _ _ Hf _ _ He) as (Hl & ? & [y Hy]). refine (conj _ (conj _ _)); [lia|lia|]. cbn.
      rewrite lookup_insert_ne by (intros E; by apply (Hnofile _ _ He)). by exists y.
  - intros p q e g Hp Hg. cbn in Hp, Hg. rewrite lookup_insert in Hp, Hg.
    destruct (decide (next h + 1 = p)) as [<-|], (decide (next h + 1 = q)) as [<-|]; try done.
    + injection Hp as <-. cbn. intros [E|E]; [|by destruct (Hnofile _ _ Hg)].
      destruct (c_fd _ _ Hf _ _ Hg) as (_ & ? & _). lia.
    + injection Hg as <-. cbn. intros [E|E]; [|by destruct (Hnofile _ _ Hp)].
      destruct (c_fd _ _ Hf _ _ Hp) as (_ & ? & _). lia.
    + by apply (c_inj _ _ Hf).
  - destruct (c_global _ _ Hf) as [Hn Hg]. cbn. split; [by apply NoDup_snoc|]. intros p.
    rewrite elem_of_app, list_elem_of_singleton, Hg, lookup_insert. destruct (decide (next h + 1 = p)) as [<-|]; [|naive_solver].
    split; [by eexists|by right].
  - rewrite Efd. lia.
Qed.

Lemma opened_super : super_ok h' sb.
Proof.
  destruct Hok as (Ht & Hf & (s0 & Hs0 & Hsb & Hsf & Hn & Hall & Hnu & Hu)). rewrite Hs in Hs0. injection Hs0 as <-.
  eexists. split_and!; [apply lookup_insert_eq|done|cbn; by rewrite Hsf|done| |cbn; by apply add_once_NoDup|].
  - intros j. cbn. rewrite Hall, lookup_insert. destruct (decide (i = j)) as [<-|]; [|done]. rewrite Hi.
    split; intros (y & [= <-] & Hy); by eexists.
  - intros j. cbn. rewrite add_once_in, Hu, lookup_insert. destruct (decide (i = j)) as [<-|Hne].
    + split; [|by left]. intros _. eexists. split; [done|]. apply app_nonempty.
    + split; [intros [E|]; [congruence|done]|by right].
Qed.

Lemma opened_ok : fs_ok h' sb root.
Proof. split_and!; [apply opened_tree|apply opened_files|apply opened_super]. Qed.
End opening.

(** The heap after the descriptor [q] is closed. *)
Definition closed h (i : Z) (x : Inode) (q : Z) (e : FileDescriptor) (sb : Z) (s : Superblock) : heap :=
  let l := list_remove (file_ e) (i_files_ x) in
  let s' := with_s_files (list_remove q (s_files_ s)) s in
  mkHeap (dentries h) (<[i := with_i_files l x]> (inodes h)) (delete (file_ e) (files h)) (delete q (descriptors h))
    (<[sb := if bool_decide (l = []) then with_used_inodes (list_remove i (used_inodes_ s)) s' else s']> (superblocks h))
    (vfs_mounts h) (mounts_ h) (list_remove q (global_fd h)) (fd_num_ h) (next h).

Section closing.
Context h (sb root : Z) (Hok : fs_ok h sb root).
Context (q : Z) (e : FileDescriptor) (y : File) (x : Inode) (s : Superblock).
Context (Hq : descriptors h !! q = Some e) (Hy : files h !! file_ e = Some y) (Hi : inodes h !! f_inode_ y = Some x).
Context (Hs : superblocks h !! sb = Some s).

Let i := f_inode_ y.
Let h' := closed h i x q e sb s.

Lemma removeFd_eq : removeFd h sb i q = Val (h', 0).
Proof.
  destruct Hok as (Ht & Hf & _). pose proof (inode_live _ _ _ Ht _ _ Hi) as Hl. pose proof (c_fd _ _ Hf _ _ Hq) as (? & _).
  fold i in Hi, Hl. unfold removeFd. rewrite (proj2 (Z.eqb_neq i 0)), (proj2 (Z.eqb_neq q 0)) by lia.
  cbn [negb kassert mbind res_bind]. rewrite (deref_Some _ _ _ Hs). cbn [mbind res_bind].
  cbn [descriptors put_super fd_remove set_superblocks set_descriptors]. rewrite (deref_Some _ _ _ Hq). cbn [mbind res_bind].
  unfold unlink. cbn [inodes put_super fd_remove set_superblocks set_descriptors]. rewrite (deref_Some _ _ _ Hi).
  cbn [mbind res_bind inodes put_inode set_inodes set_files]. rewrite deref_insert. cbn [mbind res_bind i_files_ with_i_files].
  unfold h', closed. destruct (bool_decide (list_remove (file_ e) (i_files_ x) = [])).
  - cbn [superblocks put_super put_inode fd_remove set_superblocks set_descriptors set_inodes set_files].
    rewrite deref_insert. cbn [mbind res_bind]. f_equal. f_equal. apply heap_ext; try reflexivity.
    cbn. by rewrite insert_insert_eq.
  - reflexivity.
Qed.

Lemma closed_tree : tree_ok h' sb root.
Proof.
  destruct Hok as (Ht & _). eapply tree_frame; [exact Ht|exact Hi| |done|reflexivity|cbn; lia].
  repeat split; try done; [|eauto]. intros Hd. cbn. destruct (t_inode _ _ _ Ht _ _ Hi) as (_ & _ & _ & _ & [[_ ->]|[E _]] & _).
  - done.
  - by rewrite Hd in E.
Qed.

Lemma closed_inode j z : inodes h !! j = Some z → ∃ z', inodes h' !! j = Some z' ∧ i_dentry_ z' = i_dentry_ z.
Proof.
  intros Hj. cbn. rewrite lookup_insert. fold i in Hi. destruct (decide (i = j)) as [<-|]; [|eauto].
  rewrite Hi in Hj. injection Hj as <-. by eexists.
Qed.

Lemma closed_files : files_ok h' sb.
Proof.
  pose proof Hok as (Ht & Hf & _). fold i in Hi. split; try exact (c_num _ _ Hf).
  - intros j z Hj. cbn in Hj. rewrite lookup_insert in Hj. destruct (decide (i = j)) as [<-|Hn].
    + injection Hj as <-. destruct (c_inode _ _ Hf _ _ Hi) as (Hnd & Hin & Hc). cbn [i_files_ i_dentry_ with_i_files].
      split_and!; [by apply list_remove_NoDup|intros f|].
      * rewrite list_remove_in, Hin. cbn. rewrite lookup_delete. case_decide as Ef; [subst f|].
        -- split; [by intros [_ ?]|]. by intros (? & ? & _).
        -- naive_solver.
      * intros Hne. apply Hc. intros E. by rewrite E in Hne.
    + destruct (c_inode _ _ Hf _ _ Hj) as (Hnd & Hin & Hc). split_and!; [done|intros f|done]. rewrite Hin. cbn.
      rewrite lookup_delete. case_decide as Ef; [subst f|done]. rewrite Hy. split; [|by intros (? & ? & _)].
      by intros (y' & [= <-] & E).
  - intros f z Hz. cbn in Hz. rewrite lookup_delete in Hz. destruct (decide (file_ e = f)); [done|].
    destruct (c_file _ _ Hf _ _ Hz) as (Hl & ? & [u Hu] & ?). refine (conj Hl (conj _ (conj _ _))); [done| |done].
    destruct (closed_inode _ _ Hu) as (u' & Hu' & _). by exists u'.
  - intros p g Hp. cbn in Hp. rewrite lookup_delete in Hp. destruct (decide (q = p)) as [|Hn]; [done|].
    destruct (c_fd _ _ Hf _ _ Hp) as (Hl & ? & [z Hz]). refine (conj Hl (conj _ _)); [done|]. cbn.
    rewrite lookup_delete_ne by (intros E; apply Hn, (c_inj _ _ Hf _ _ _ _ Hq Hp); by right). by exists z.
  - intros p r g k Hp Hr. cbn in Hp, Hr. rewrite lookup_delete in Hp, Hr.
    destruct (decide (q = p)), (decide (q = r)); try done. by apply (c_inj _ _ Hf).
  - destruct (c_global _ _ Hf) as [Hn Hg]. cbn. split; [by apply list_remove_NoDup|]. intros p.
    rewrite list_remove_in, Hg, lookup_delete. destruct (decide (q = p)) as [<-|]; [|naive_solver].
    split; [by intros [_ ?]|]. by intros [? ?].
Qed.

Lemma closed_super : super_ok h' sb.
Proof.
  destruct Hok as (Ht & Hf & (s0 & Hs0 & Hsb & Hsf & Hn & Hall & Hnu & Hu)). rewrite Hs in Hs0. injection Hs0 as <-.
  fold i in Hi. eexists. split_and!; [apply lookup_insert_eq|done|..].
  - cbn. case_bool_decide; cbn; by rewrite Hsf.
  - by case_bool_decide.
  - intros j. etransitivity; [instantiate (1 := j ∈ all_inodes_ s); by case_bool_decide|]. cbn. rewrite Hall, lookup_insert.
    destruct (decide (i = j)) as [<-|]; [|done]. rewrite Hi. split; intros (z & [= <-] & Hz); by eexists.
  - case_bool_decide; [by apply list_remove_NoDup|done].
  - intros j. cbn. rewrite lookup_insert. case_bool_decide as El; cbn.
    + rewrite list_remove_in, Hu. destruct (decide (i = j)) as [<-|Hne].
      * split; [by intros [_ ?]|]. intros (z & [= <-] & Hz). by cbn in Hz; rewrite El in Hz.
      * split; [by intros [? _]|]. by intros ?.
    + rewrite Hu. destruct (decide (i = j)) as [<-|Hne]; [|done]. rewrite Hi. split; intros (z & [= <-] & Hz).
      * eexists. by split.
      * eexists. split; [done|]. intros E. cbn in El. by rewrite E in El.
Qed.

Lemma closed_ok : fs_ok h' sb root.
Proof. split_and!; [apply closed_tree|apply closed_files|apply closed_super]. Qed.
End closing.

(** ** Reading and writing *)

(** The heap after the bytes of the inode [i] and the offset of the file [f]
    change. *)
Definition moved h (i : Z) (x : Inode) (l : option (list Z)) (f : Z) (y : File) (o : Z) : heap :=
  mkHeap (dentries h) (<[i := with_data l x]> (inodes h)) (<[f := with_offset o y]> (files h)) (descriptors h)
    (superblocks h) (vfs_mounts h) (mounts_ h) (global_fd h) (fd_num_ h) (next h).

Section moving.
Context h (sb root : Z) (Hok : fs_ok h sb root).
Context (f : Z) (y : File) (x : Inode) (l l' : list Z) (o : Z).
Context (Hy : files h !! f = Some y) (Hi : inodes h !! f_inode_ y = Some x) (Hl : data_ x = Some l).
Context (Hl' : length l' = length l) (Ho : 0 <= o < 2 ^ 64).

Let i := f_inode_ y.
Let h' := moved h i x (Some l') f y o.

Lemma moved_inode j z' : inodes h' !! j = Some z' →
  ∃ z, inodes h !! j = Some z ∧ i_dentry_ z' = i_dentry_ z ∧ i_files_ z' = i_files_ z.
Proof.
  cbn. rewrite lookup_insert. fold i in Hi. destruct (decide (i = j)) as [<-|]; [|eauto]. intros [= <-]. eauto.
Qed.

Lemma inode_moved j z : inodes h !! j = Some z →
  ∃ z', inodes h' !! j = Some z' ∧ i_dentry_ z' = i_dentry_ z ∧ i_files_ z' = i_files_ z.
Proof.
  intros Hj. cbn. rewrite lookup_insert. fold i in Hi. destruct (decide (i = j)) as [<-|]; [|eauto].
  rewrite Hi in Hj. injection Hj as <-. by eexists.
Qed.

Lemma moved_file g z' : files h' !! g = Some z' → ∃ z, files h !! g = Some z ∧ f_inode_ z' = f_inode_ z ∧
  f_superblock_ z' = f_superblock_ z ∧ (offset_ z' = offset_ z ∨ offset_ z' = o).
Proof.
  cbn. rewrite lookup_insert. destruct (decide (f = g)) as [<-|]; [|intros ?; exists z'; eauto].
  intros [= <-]. exists y. eauto.
Qed.

Lemma file_moved g z : files h !! g = Some z → ∃ z', files h' !! g = Some z' ∧ f_inode_ z' = f_inode_ z.
Proof.
  intros Hg. cbn. rewrite lookup_insert. destruct (decide (f = g)) as [<-|]; [|eauto].
  rewrite Hy in Hg. injection Hg as <-. by eexists.
Qed.

Lemma moved_ok : fs_ok h' sb root.
Proof.
  pose proof Hok as (Ht & Hf & (s & Hs & Hsb & Hsf & Hn & Hall & Hnu & Hu)).
  split_and!.
  - eapply tree_frame; [exact Ht|exact Hi| |done|reflexivity|cbn; lia]. repeat split. intros k. rewrite Hl.
    intros [= <-]. by exists l'.
  - split; try exact (c_inj _ _ Hf); try exact (c_global _ _ Hf); try exact (c_num _ _ Hf).
    + intros j z' Hz'. destruct (moved_inode _ _ Hz') as (z & Hz & Ed & Ef). rewrite Ed, Ef.
      destruct (c_inode _ _ Hf _ _ Hz) as (? & Hin & ?). split_and!; [done|intros g|done]. rewrite Hin. split.
      * intros (w & Hw & Ew). destruct (file_moved _ _ Hw) as (w' & ? & ?). exists w'. split; [done|congruence].
      * intros (w & Hw & Ew). destruct (moved_file _ _ Hw) as (w' & ? & ? & _). exists w'. split; [done|congruence].
    + intros g z' Hz'. destruct (moved_file _ _ Hz') as (z & Hz & Ei & Es & Eo).
      destruct (c_file _ _ Hf _ _ Hz) as (Hlv & Hzs & [w Hw] & ?). rewrite Ei, Es.
      refine (conj Hlv (conj Hzs (conj _ _))); [|destruct Eo as [-> | ->]; done].
      destruct (inode_moved _ _ Hw) as (w' & Hw' & _). by exists w'.
    + intros q e He. destruct (c_fd _ _ Hf _ _ He) as (Hlv & Hn' & [z Hz]). refine (conj Hlv (conj Hn' _)).
      destruct (file_moved _ _ Hz) as (z' & Hz' & _). by exists z'.
  - exists s. split_and!; try done.
    + intros j. rewrite Hall. split; intros (z & Hz & Hd).
      * destruct (inode_moved _ _ Hz) as (z' & Hz' & Ed & _). exists z'. by rewrite Ed.
      * destruct (moved_inode _ _ Hz) as (z' & Hz' & Ed & _). exists z'. by rewrite <- Ed.
    + intros j. rewrite Hu. split; intros (z & Hz & Hd).
      * destruct (inode_moved _ _ Hz) as (z' & Hz' & _ & Ef). exists z'. by rewrite Ef.
      * destruct (moved_inode _ _ Hz) as (z' & Hz' & _ & Ef). exists z'. by rewrite <- Ef.
Qed.
End moving.

(** The number of bytes an access at the [l_off_t] offset [o] reaches: the inode
    gets the low 32 bits of the offset. *)
Definition reach (o count : Z) : Z := Z.max 0 (Z.min count (BASIC_ALLOC - u32 o)).

Section access.
Context h (sb root : Z) (Hok : fs_ok h sb root) (f : Z) (y : File) (x : Inode) (l : list Z) (count : Z).
Context (Hy : files h !! f = Some y) (Hi : inodes h !! f_inode_ y = Some x) (Hl : data_ x = Some l).
Context (Hcount : 0 <= count < 2 ^ 32) (Hfile : i_type_ x = I_FILE).

Lemma access_facts : i_size_ x = BASIC_ALLOC ∧ i_mode_ x = 7 ∧ length l = Z.to_nat BASIC_ALLOC ∧ 0 <= offset_ y < 2 ^ 64 ∧
  superblock_ x = sb.
Proof.
  destruct Hok as (Ht & Hf & _). destruct (t_inode _ _ _ Ht _ _ Hi) as (_ & ? & ? & ? & Hk & _).
  pose proof (c_file _ _ Hf _ _ Hy) as (_ & _ & _ & ?). split_and!; try done; try lia.
  destruct Hk as [[E _]|(_ & k & Hk & ?)]; [by rewrite Hfile in E|]. rewrite Hl in Hk. by injection Hk as <-.
Qed.

Let n := reach (offset_ y) count.

Lemma reach_bounds : 0 <= n <= BASIC_ALLOC ∧ n <= count.
Proof. pose proof (wrap_bounds 32 (offset_ y) ltac:(lia)). unfold n, reach, BASIC_ALLOC. lia. Qed.

Lemma reach_fits : fits l (u32 (offset_ y)) n ∨ n = 0 ∧ BASIC_ALLOC <= u32 (offset_ y).
Proof.
  destruct access_facts as (_ & _ & Hll & _). pose proof (wrap_bounds 32 (offset_ y) ltac:(lia)).
  unfold fits, n, reach, BASIC_ALLOC in *. destruct (decide (256 <= u32 (offset_ y))); [right; lia|left; lia].
Qed.

Lemma ramfs_readData_reads : readData h (f_inode_ y) (u32 (offset_ y)) count = Val (n, sub l (u32 (offset_ y)) n).
Proof.
  destruct access_facts as (Es & _ & Hll & Ho & _). pose proof (wrap_bounds 32 (offset_ y) ltac:(lia)).
  pose proof reach_bounds as Hn. unfold readData. rewrite (deref_Some _ _ _ Hi). cbn [mbind res_bind]. rewrite Es.
  destruct (Z.leb_spec BASIC_ALLOC (u32 (offset_ y))).
  { destruct reach_fits as [(? & ? & ?)|[-> _]]; [|by rewrite sub_0]. unfold BASIC_ALLOC in *.
    assert (n = 0) as -> by lia. by rewrite sub_0. }
  rewrite Hl. cbn [mbind res_bind]. unfold BASIC_ALLOC in *. rewrite (wrap_small 32) by lia.
  assert (En : Z.min count (256 - u32 (offset_ y)) = n) by (unfold n, reach, BASIC_ALLOC; lia). rewrite En.
  destruct reach_fits as [Hfit|[_ ?]]; [|unfold BASIC_ALLOC in *; lia].
  rewrite slice_fits by done. cbn [mbind res_bind]. by rewrite signed_small by lia.
Qed.

Lemma file_read_reads : file_read h f count 0 =
  if has (flag_ y) O_RDONLY || has (flag_ y) O_RDWR
  then Val (put_file f (with_offset (u64 (offset_ y + n)) y) h, n, sub l (u32 (offset_ y)) n)
  else Val (h, -1, []).
Proof.
  destruct access_facts as (_ & Em & _ & Ho & _). unfold file_read.
  rewrite (deref_Some _ _ _ Hy). cbn [mbind res_bind]. rewrite (deref_Some _ _ _ Hi). cbn [mbind res_bind].
  rewrite Em. change (has 7 A_READABLE) with true. rewrite andb_true_r. destruct (_ || _); [|done].
  rewrite Z.add_0_r, (wrap_small 64) by done. by rewrite ramfs_readData_reads.
Qed.

Lemma ramfs_writeData_writes buffer : count <= Z.of_nat (length buffer) →
  writeData h (f_inode_ y) (u32 (offset_ y)) count buffer =
  Val (put_inode (f_inode_ y) (with_data (Some (patch l (u32 (offset_ y)) (sub buffer 0 n))) x) h, n).
Proof.
  intros Hb. destruct access_facts as (Es & _ & Hll & Ho & _). pose proof (wrap_bounds 32 (offset_ y) ltac:(lia)).
  pose proof reach_bounds as Hn. unfold writeData. rewrite (deref_Some _ _ _ Hi). cbn [mbind res_bind]. rewrite Es, Hfile.
  cbn [Z.eqb I_FILE kassert mbind res_bind].
  assert (Hx : with_data (Some l) x = x) by (destruct x; cbn in *; by rewrite Hl).
  assert (Hsame : n = 0 → put_inode (f_inode_ y) (with_data (Some (patch l (u32 (offset_ y)) (sub buffer 0 n))) x) h = h).
  { intros ->. rewrite sub_0, patch_nil, Hx. apply heap_ext; try reflexivity. cbn. by apply insert_id. }
  destruct (Z.leb_spec BASIC_ALLOC (u32 (offset_ y))).
  { assert (n = 0) as E by (destruct reach_fits as [(? & ? & ?)|[? _]]; unfold BASIC_ALLOC in *; lia).
    by rewrite Hsame, E by done. }
  rewrite Hl. cbn [mbind res_bind]. unfold BASIC_ALLOC in *. rewrite (wrap_small 32) by lia.
  assert (En : Z.min count (256 - u32 (offset_ y)) = n) by (unfold n, reach, BASIC_ALLOC; lia). rewrite En.
  destruct reach_fits as [Hfit|[_ ?]]; [|unfold BASIC_ALLOC in *; lia].
  rewrite slice_fits by (repeat split; lia). cbn [mbind res_bind].
  rewrite splice_fits by (rewrite sub_length by (repeat split; lia); done). cbn [mbind res_bind].
  by rewrite signed_small by lia.
Qed.

Lemma file_write_writes buffer : count <= Z.of_nat (length buffer) → file_write h f buffer count 0 =
  if has (flag_ y) O_WRONLY || has (flag_ y) O_RDWR
  then Val (moved h (f_inode_ y) x (Some (patch l (u32 (offset_ y)) (sub buffer 0 n))) f y (u64 (offset_ y + n)), n)
  else Val (h, -1).
Proof.
  intros Hb. destruct access_facts as (_ & Em & _ & Ho & _). unfold file_write.
  rewrite (deref_Some _ _ _ Hy). cbn [mbind res_bind]. rewrite (deref_Some _ _ _ Hi). cbn [mbind res_bind].
  rewrite Em. change (has 7 A_WRITABLE) with true. rewrite andb_true_r. destruct (_ || _); [|done].
  rewrite Z.add_0_r, (wrap_small 64) by done. by rewrite ramfs_writeData_writes.
Qed.

Lemma patched_length buffer : count <= Z.of_nat (length buffer) →
  length (patch l (u32 (offset_ y)) (sub buffer 0 n)) = length l.
Proof.
  intros Hb. pose proof reach_bounds as Hn. destruct reach_fits as [Hfit|[-> _]]; [|by rewrite sub_0, patch_nil].
  apply patch_length. by rewrite sub_length by (repeat split; lia).
Qed.
End access.

(** A new offset alone. *)
Lemma put_file_moved h f y x l o : inodes h !! f_inode_ y = Some x → data_ x = Some l →
  put_file f (with_offset o y) h = moved h (f_inode_ y) x (Some l) f y o.
Proof.
  intros Hi Hl. apply heap_ext; try reflexivity. cbn.
  assert (with_data (Some l) x = x) as -> by (destruct x; cbn in *; by rewrite Hl). by rewrite insert_id.
Qed.

End RamFs.
