(* ===== verification/VfsSyscall.v ===== *)
(** * The file system calls

    Models [common/source/fs/VfsSyscall.cpp] and [root_mount] of
    [VirtualFileSystem.cpp] over the file systems in memory of [RamFs]: creation,
    removal and opening of files and directories by path, and reading, writing
    and seeking through descriptors. *)
From S2P Require Import Prelude LibcString Kstring Buffers Vfs RamFs.
Import Vfs RamFs.

Module VfsSyscall.
Implicit Types (h : heap) (fs_info : FileSystemInfo) (pathname : list Z).

Definition with_pathname pathname fs_info : FileSystemInfo :=
  mkInfo (root_ fs_info) (root_mnt_ fs_info) (pwd_ fs_info) (pwd_mnt_ fs_info) pathname.
Definition setFsRoot root root_mnt fs_info : FileSystemInfo :=
  mkInfo root root_mnt (pwd_ fs_info) (pwd_mnt_ fs_info) (pathname_ fs_info).
Definition setFsPwd pwd pwd_mnt fs_info : FileSystemInfo :=
  mkInfo (root_ fs_info) (root_mnt_ fs_info) pwd pwd_mnt (pathname_ fs_info).

Definition walk h fs_info pathname : res (Z * Z * Z) := pathWalk RamFs.lookup h fs_info pathname.

(** [VirtualFileSystem::root_mount] with the file system type [kind]. *)
Definition root_mount h (kind : fs_kind) : res (heap * FileSystemInfo) :=
  '(h, super) ← match kind with RamFS => new_RamFSSuperblock h 0 | DeviceFS => new_DeviceFSSuperBlock h 0 end;
  s ← deref (superblocks h) super;
  let mount_point := mounted_over_ s in
  h ← setMountPoint h mount_point mount_point;
  let root := s_root_ s in
  let mnt := next h in
  let h := mkHeap (dentries h) (inodes h) (files h) (descriptors h) (superblocks h)
             (<[mnt := mkMount 0 mount_point root super]> (vfs_mounts h)) (mounts_ h ++ [mnt])
             (global_fd h) (fd_num_ h) (mnt + 1) in
  Val (h, setFsPwd root mnt (setFsRoot root mnt (mkInfo 0 0 0 0 []))).

(** The loop of [getFileDescriptor]; 0 when there is none. *)
Fixpoint find_fd h (l : list Z) (fd : Z) : res Z :=
  match l with
  | [] => Val 0
  | it :: l => e ← deref (descriptors h) it; if getFd e =? fd then Val it else find_fd h l fd
  end.
Definition getFileDescriptor h (fd : Z) : res Z := find_fd h (global_fd h) fd.

(** The loop of [dupChecking], which drops the prefix "./" of a path that begins
    with a separator or with one or two dots and a separator. *)
Fixpoint dots (n i : nat) pathname (prefix : list Z) : list Z :=
  match n with
  | O => prefix
  | S n =>
      if bool_decide (i < length pathname)%nat && (ch pathname i =? SEPARATOR) then dots n (S i) pathname []
      else if negb (ch pathname i =? CHAR_DOT) then prefix
      else dots n (S i) pathname prefix
  end.

Definition dupChecking h fs_info pathname : res (FileSystemInfo * (Z * Z * Z)) :=
  let fs_info := with_pathname (dots 3 0 pathname [CHAR_DOT; SEPARATOR] ++ pathname) fs_info in
  r ← walk h fs_info (pathname_ fs_info);
  Val (fs_info, r).

(** [find_last_of("/")] *)
Definition find_last_of (c : Z) (s : list Z) : option Z :=
  option_map (λ i, Z.of_nat (length s) - 1 - i) (index_of c (rev s)).

(** The parent's path and the last name of [pathname_]. *)
Definition split_path pathname : res (list Z * list Z) :=
  match find_last_of SEPARATOR pathname with
  | Some len => Val (take (Z.to_nat len) pathname, drop (Z.to_nat (len + 1)) pathname)
  | None => Err EUndef
  end.

Definition mkdir h fs_info pathname : res (heap * FileSystemInfo * Z) :=
  '(fs_info, (code, _, _)) ← dupChecking h fs_info pathname;
  if code =? 0 then Val (h, fs_info, -1)
  else
    '(parent, sub_dentry_name) ← split_path (pathname_ fs_info);
    let fs_info := with_pathname parent fs_info in
    '(success, pw_dentry, _) ← walk h fs_info (pathname_ fs_info);
    if negb (success =? 0) then Val (h, fs_info, -1)
    else
      d ← deref (dentries h) pw_dentry;
      current_inode ← deref (inodes h) (d_inode_ d);
      if negb (i_type_ current_inode =? I_DIR) then Val (h, fs_info, -1)
      else
        '(h, sub_dentry) ← new_child h pw_dentry;
        e ← deref (dentries h) sub_dentry;
        let h := put_dentry sub_dentry (with_name sub_dentry_name e) h in
        '(h, _) ← createInode h (superblock_ current_inode) sub_dentry I_DIR;
        Val (h, fs_info, 0).

(** The lines that are printed: type and name of each entry. *)
Fixpoint list_children h (l : list Z) : res (list (Z * list Z)) :=
  match l with
  | [] => Val []
  | a :: l =>
      d ← deref (dentries h) a;
      x ← deref (inodes h) (d_inode_ d);
      rest ← list_children h l;
      Val ((i_type_ x, d_name_ d) :: rest)
  end.

Definition readdir h fs_info pathname : res (FileSystemInfo * list (Z * list Z)) :=
  '(fs_info, (code, _, _)) ← dupChecking h fs_info pathname;
  if code =? 0 then
    '(success, pw_dentry, _) ← walk h fs_info (pathname_ fs_info);
    if negb (success =? 0) then Val (fs_info, [])
    else
      d ← deref (dentries h) pw_dentry;
      x ← deref (inodes h) (d_inode_ d);
      if negb (i_type_ x =? I_DIR) then Val (fs_info, [])
      else l ← list_children h (d_child_ d); Val (fs_info, l)
  else Val (fs_info, []).

Definition chdir h fs_info pathname : res (heap * FileSystemInfo * Z) :=
  '(fs_info, (code, pw_dentry, pw_vfs_mount)) ← dupChecking h fs_info pathname;
  if negb (code =? 0) then Val (h, fs_info, -1)
  else
    d ← deref (dentries h) pw_dentry;
    current_inode ← deref (inodes h) (d_inode_ d);
    if negb (i_type_ current_inode =? I_DIR) then Val (h, fs_info, -1)
    else Val (h, setFsPwd pw_dentry pw_vfs_mount fs_info, 0).

Definition rm h fs_info pathname : res (heap * FileSystemInfo * Z) :=
  '(fs_info, (code, pw_dentry, _)) ← dupChecking h fs_info pathname;
  if negb (code =? 0) then Val (h, fs_info, -1)
  else
    d ← deref (dentries h) pw_dentry;
    current_inode ← deref (inodes h) (d_inode_ d);
    if negb (i_type_ current_inode =? I_FILE) then Val (h, fs_info, -1)
    else
      '(h, r) ← RamFs.rm h (d_inode_ d);
      if r =? INODE_DEAD then h ← delete_inode h (superblock_ current_inode) (d_inode_ d); Val (h, fs_info, 0)
      else Val (h, fs_info, -1).

Definition rmdir h fs_info pathname : res (heap * FileSystemInfo * Z) :=
  '(fs_info, (code, pw_dentry, _)) ← dupChecking h fs_info pathname;
  if negb (code =? 0) then Val (h, fs_info, -1)
  else
    d ← deref (dentries h) pw_dentry;
    current_inode ← deref (inodes h) (d_inode_ d);
    if negb (i_type_ current_inode =? I_DIR) then Val (h, fs_info, -1)
    else
      '(h, r) ← RamFs.rmdir h (d_inode_ d);
      if r =? INODE_DEAD then h ← delete_inode h (superblock_ current_inode) (d_inode_ d); Val (h, fs_info, 0)
      else Val (h, fs_info, -1).

Definition close h (fd : Z) : res (heap * Z) :=
  file_descriptor ← getFileDescriptor h fd;
  if file_descriptor =? 0 then Val (h, -1)
  else
    e ← deref (descriptors h) file_descriptor;
    y ← deref (files h) (file_ e);
    x ← deref (inodes h) (f_inode_ y);
    '(h, r) ← removeFd h (superblock_ x) (f_inode_ y) file_descriptor;
    _ ← kassert (r =? 0);
    Val (h, 0).

Definition open_flags : Z := 1 + 2 + 4 + 8 + 16 + 128.

Definition open h fs_info pathname (flag : Z) : res (heap * FileSystemInfo * Z) :=
  if has flag (Z.lxor (2 ^ 32 - 1) open_flags) then Val (h, fs_info, -1)
  else if has flag (O_APPEND + O_TRUNC) then Val (h, fs_info, -1)
  else
    '(fs_info, (code, pw_dentry, _)) ← dupChecking h fs_info pathname;
    if code =? 0 then
      d ← deref (dentries h) pw_dentry;
      current_inode ← deref (inodes h) (d_inode_ d);
      if negb (i_type_ current_inode =? I_FILE) then Val (h, fs_info, -1)
      else '(h, fd) ← createFd h (superblock_ current_inode) (d_inode_ d) flag; Val (h, fs_info, fd)
    else if has flag O_CREAT then
      '(parent, sub_dentry_name) ← split_path (pathname_ fs_info);
      let fs_info := with_pathname parent fs_info in
      '(success, pw_dentry, _) ← walk h fs_info (pathname_ fs_info);
      if negb (success =? 0) then Val (h, fs_info, -1)
      else
        d ← deref (dentries h) pw_dentry;
        current_inode ← deref (inodes h) (d_inode_ d);
        if negb (i_type_ current_inode =? I_DIR) then Val (h, fs_info, -1)
        else
          '(h, sub_dentry) ← new_child h pw_dentry;
          e ← deref (dentries h) sub_dentry;
          let h := put_dentry sub_dentry (with_name sub_dentry_name e) h in
          h ← setParent h sub_dentry pw_dentry;
          '(h, sub_inode) ← createInode h (superblock_ current_inode) sub_dentry I_FILE;
          '(h, fd) ← createFd h (superblock_ current_inode) sub_inode flag;
          Val (h, fs_info, fd)
    else Val (h, fs_info, -1).

Definition read h (fd count : Z) : res (heap * Z * list Z) :=
  file_descriptor ← getFileDescriptor h fd;
  if file_descriptor =? 0 then Val (h, -1, [])
  else if count =? 0 then Val (h, 0, [])
  else
    e ← deref (descriptors h) file_descriptor;
    y ← deref (files h) (file_ e);
    if negb (has (flag_ y) (O_RDONLY + O_RDWR)) then Val (h, -1, [])
    else file_read h (file_ e) count 0.

Definition write h (fd : Z) (buffer : list Z) (count : Z) : res (heap * Z) :=
  file_descriptor ← getFileDescriptor h fd;
  if file_descriptor =? 0 then Val (h, -1)
  else if count =? 0 then Val (h, 0)
  else
    e ← deref (descriptors h) file_descriptor;
    y ← deref (files h) (file_ e);
    if negb (has (flag_ y) (O_WRONLY + O_RDWR)) then Val (h, -1)
    else file_write h (file_ e) buffer count 0.

Definition lseek h (fd offset origin : Z) : res (heap * Z) :=
  file_descriptor ← getFileDescriptor h fd;
  if file_descriptor =? 0 then Val (h, u64 (-1))
  else e ← deref (descriptors h) file_descriptor; file_lseek h (file_ e) offset origin.

Definition flush h (fd : Z) : res Z :=
  file_descriptor ← getFileDescriptor h fd;
  if file_descriptor =? 0 then Val (-1) else Val 0.

Definition getFileSize h (fd : Z) : res Z :=
  file_descriptor ← getFileDescriptor h fd;
  if file_descriptor =? 0 then Val (u32 (-1))
  else e ← deref (descriptors h) file_descriptor; getSize h (file_ e).


(** ** Path walking in a well-formed file system *)

(** One mount, of the root directory. *)
Definition mounts_ok h (root : Z) : Prop :=
  ∀ m, m ∈ mounts_ h → ∃ t, vfs_mounts h !! m = Some t ∧ mnt_mountpoint_ t = root ∧ mnt_root_ t = root.

(** A live directory. *)
Definition is_dir h (a : Z) : Prop :=
  ∃ d x, dentries h !! a = Some d ∧ inodes h !! d_inode_ d = Some x ∧ i_type_ x = I_DIR.

Record info_ok h (root : Z) fs_info : Prop := {
  w_root : root_ fs_info = root;
  w_mnt : root_mnt_ fs_info ≠ 0 ∧ pwd_mnt_ fs_info = root_mnt_ fs_info;
  w_pwd : is_dir h (pwd_ fs_info);
}.

Section walking.
Context h (sb root : Z) (Ht : tree_ok h sb root) (Hm : mounts_ok h root).

Lemma check_children_spec name l : (∀ c, c ∈ l → is_Some (dentries h !! c)) →
  ∃ c, check_children h l name = Val c ∧
    (c = 0 ∧ (∀ b d, b ∈ l → dentries h !! b = Some d → d_name_ d ≠ name) ∨
     c ∈ l ∧ ∃ d, dentries h !! c = Some d ∧ d_name_ d = name).
Proof.
  induction l as [|b l IH]; intros Hl.
  { exists 0. split; [done|]. left. split; [done|]. by intros ? ? ?%elem_of_nil. }
  destruct (Hl b ltac:(by left)) as [d Hd]. cbn [check_children]. rewrite (deref_Some _ _ _ Hd). cbn [mbind res_bind].
  destruct (decide (d_name_ d = name)) as [En|En].
  - rewrite bool_decide_true by done. exists b. split; [done|]. right. split; [by left|eauto].
  - rewrite bool_decide_false by done. destruct IH as (c & -> & Hc); [intros; apply Hl; by right|]. exists c. split; [done|].
    destruct Hc as [[-> Hno]|[Hin He]]; [left|right; split; [by right|done]].
    split; [done|]. intros b' d' [->|Hb']%elem_of_cons Hd'; [congruence|eauto].
Qed.

(** [lookup] of an entry's inode gives one of its children. *)
Lemma lookup_spec a d name : dentries h !! a = Some d →
  ∃ c, RamFs.lookup h (d_inode_ d) name = Val c ∧
    (c = 0 ∧ (∀ b e, b ∈ d_child_ d → dentries h !! b = Some e → d_name_ e ≠ name) ∨
     c ∈ d_child_ d ∧ ∃ e, dentries h !! c = Some e ∧ d_name_ e = name).
Proof.
  intros Ha. destruct (t_node _ _ _ Ht _ _ Ha) as (_ & (x & Hx & Exa & Hdir) & _ & Hch & _).
  unfold RamFs.lookup. rewrite (deref_Some _ _ _ Hx). cbn [mbind res_bind].
  destruct (Z.eqb_spec (i_type_ x) I_DIR) as [Ed|Ed].
  - rewrite Exa. unfold checkName. rewrite (deref_Some _ _ _ Ha). cbn [mbind res_bind]. apply check_children_spec.
    intros c (_ & e & He & _)%Hch. by exists e.
  - exists 0. split; [done|]. left. split; [done|]. intros b e Hb. destruct Ed. apply Hdir. intros E. rewrite E in Hb.
    by apply elem_of_nil in Hb.
Qed.

Lemma find_mount_none l c : (∀ m, m ∈ l → ∃ t, vfs_mounts h !! m = Some t ∧ mnt_mountpoint_ t = root ∧ mnt_root_ t = root) →
  c ≠ root → find_mount h l c = Val 0.
Proof.
  intros Hl Hc. induction l as [|m l IH]; [done|]. destruct (Hl m ltac:(by left)) as (t & Et & E1 & E2).
  cbn [find_mount]. rewrite (deref_Some _ _ _ Et). cbn [mbind res_bind]. rewrite E1, E2.
  rewrite (proj2 (Z.eqb_neq root c)) by done. apply IH. intros. apply Hl. by right.
Qed.

Lemma child_live a d c : dentries h !! a = Some d → c ∈ d_child_ d →
  c ≠ root ∧ c ≠ 0 ∧ ∃ e, dentries h !! c = Some e ∧ d_parent_ e = a.
Proof.
  intros Ha Hc. destruct (t_node _ _ _ Ht _ _ Ha) as (_ & _ & _ & Hch & _). destruct (Hch _ Hc) as (? & e & He & ?).
  pose proof (dentry_live _ _ _ Ht _ _ He). split_and!; [done|lia|eauto].
Qed.

Lemma parent_live a d : dentries h !! a = Some d → is_Some (dentries h !! d_parent_ d).
Proof.
  intros Ha. destruct (decide (a = root)) as [->|Hn].
  - destruct (t_root _ _ _ Ht) as (r & _ & Hr & Er & _). rewrite Ha in Hr. injection Hr as <-. rewrite Er. by exists d.
  - destruct (t_node _ _ _ Ht _ _ Ha) as (_ & _ & _ & _ & (_ & q & Hq & _)%(λ H, H Hn)). by exists q.
Qed.

Lemma follow_norm_spec a d m name : dentries h !! a = Some d →
  (∃ c, c ∈ d_child_ d ∧ (∃ e, dentries h !! c = Some e ∧ d_name_ e = name) ∧
     follow_norm RamFs.lookup h a m name = Val (Some (c, m))) ∨
  follow_norm RamFs.lookup h a m name = Val None ∧
    ∀ b e, b ∈ d_child_ d → dentries h !! b = Some e → d_name_ e ≠ name.
Proof.
  intros Ha. unfold follow_norm. rewrite (deref_Some _ _ _ Ha). cbn [mbind res_bind].
  destruct (lookup_spec _ _ name Ha) as (c & -> & Hc). cbn [mbind res_bind].
  destruct Hc as [[-> Hno]|[Hin He]]; [by right|left]. destruct (child_live _ _ _ Ha Hin) as (Hcr & Hc0 & _).
  exists c. split_and!; [done|done|]. rewrite (proj2 (Z.eqb_neq c 0)) by done. unfold getVfsMount.
  rewrite (proj2 (Z.eqb_neq c 0)) by done. cbn [negb kassert mbind res_bind].
  rewrite find_mount_none by done. done.
Qed.

Lemma follow_dotdot_spec fs_info a d m : dentries h !! a = Some d →
  follow_dotdot h fs_info a m = Val (if (a =? root_ fs_info) && (m =? root_mnt_ fs_info) then a else d_parent_ d, m).
Proof.
  intros Ha. unfold follow_dotdot. destruct (_ && _); [done|]. unfold getVfsMount.
  pose proof (dentry_live _ _ _ Ht _ _ Ha). rewrite (proj2 (Z.eqb_neq a 0)) by lia. cbn [negb kassert mbind res_bind Z.eqb].
  by rewrite (deref_Some _ _ _ Ha).
Qed.

Lemma skip_length s : (length (skip_separators s) <= length s)%nat.
Proof. induction s as [|c s IH]; cbn; [lia|]. destruct (c =? SEPARATOR); cbn; lia. Qed.

(** What a walk that ends may answer. *)
Definition walked (m : Z) (r : Z * Z * Z) : Prop :=
  (r.1.1 = PW_SUCCESS ∨ r.1.1 = PW_ENOTFOUND) ∧ is_Some (dentries h !! r.1.2) ∧ r.2 = m.

Lemma walk_loop_total fs_info m : ∀ fuel s last a, is_Some (dentries h !! a) →
  (length s < fuel)%nat → Z.of_nat (length s) < 2 ^ 31 - 1 →
  ∃ r, walk_loop RamFs.lookup h fs_info fuel s last a m = Val r ∧ walked m r.
Proof.
  induction fuel as [|fuel IH]; intros s last a [d Ha] Hf Hl; [lia|]. cbn [walk_loop].
  assert (Hpart : ∃ n pos, getNextPartLen s = (n, pos) ∧ 0 < n ∧ 0 <= pos <= Z.of_nat (length s)).
  { unfold getNextPartLen. assert (Hi : ∀ i, index_of SEPARATOR s = Some i → 0 <= i < Z.of_nat (length s)).
    { clear. induction s as [|c s IH]; [done|]. cbn [index_of length]. destruct (c =? SEPARATOR); [intros i [= <-]; lia|].
      destruct (index_of SEPARATOR s) as [j|]; [|done]. intros i [= <-]. specialize (IH j eq_refl). lia. }
    destruct (index_of SEPARATOR s) as [i|]; [specialize (Hi i eq_refl)|]; rewrite !signed_small by lia;
      do 2 eexists; split_and!; try done; lia. }
  destruct Hpart as (n & pos & -> & Hn & Hpos). destruct (Z.ltb_spec 0 n); [|lia]. cbn [defined mbind res_bind].
  destruct (Z.ltb_spec pos 0); [lia|].
  destruct (_ || _) eqn:Eend; [by eexists; split; [done|split_and!; [by left|by exists d|done]]|].
  apply orb_false_iff in Eend as [_ Epos%Z.eqb_neq].
  set (s' := drop (Z.to_nat pos) s). assert (Hs' : (length s' < length s)%nat) by (unfold s'; rewrite length_drop; lia).
  assert (Hrest : ∀ last b, is_Some (dentries h !! b) →
    ∃ r, (if bool_decide (skip_separators s' = []) then Val (PW_SUCCESS, b, m)
          else walk_loop RamFs.lookup h fs_info fuel (skip_separators s') last b m) = Val r ∧ walked m r).
  { intros last' b Hb. pose proof (skip_length s'). case_bool_decide; [|apply IH; [done|lia|lia]].
    eexists. split; [done|]. split_and!; [by left|done|done]. }
  destruct (next_type _ _).
  - destruct (follow_norm_spec _ _ m (take (Z.to_nat (n - 1)) s) Ha) as [(c & Hc & _ & ->)|[-> _]]; cbn [mbind res_bind].
    + destruct (child_live _ _ _ Ha Hc) as (_ & _ & e & He & _). apply Hrest. by exists e.
    + eexists. split; [done|]. split_and!; [by right|by exists d|done].
  - apply Hrest. by exists d.
  - apply IH; [by exists d|lia|lia].
  - rewrite (follow_dotdot_spec _ _ _ _ Ha). cbn [mbind res_bind]. apply IH; [|lia|lia].
    destruct (_ && _); [by exists d|by eapply parent_live].
Qed.

Lemma root_live : is_Some (dentries h !! root).
Proof. destruct (t_root _ _ _ Ht) as (d & _ & Hd & _). by exists d. Qed.

Lemma walk_total fs_info s : info_ok h root fs_info → Z.of_nat (length s) < 2 ^ 31 - 1 →
  ∃ r, walk h fs_info s = Val r ∧ walked (root_mnt_ fs_info) r.
Proof.
  intros [Hr [Hm0 Hpm] (pwd & pwdi & Hp & _)] Hl. unfold walk, pathWalk. pose proof (skip_length s).
  assert (Hgo : ∀ last a, is_Some (dentries h !! a) → a ≠ 0 →
    ∃ r, (if (a =? 0) || (root_mnt_ fs_info =? 0) then Val (PW_ENOTFOUND, a, root_mnt_ fs_info)
      else if bool_decide (skip_separators s = []) then Val (PW_SUCCESS, a, root_mnt_ fs_info)
      else walk_loop RamFs.lookup h fs_info (S (length (skip_separators s))) (skip_separators s) last a (root_mnt_ fs_info))
      = Val r ∧ walked (root_mnt_ fs_info) r).
  { intros last a Ha Ha0. rewrite (proj2 (Z.eqb_neq a 0)), (proj2 (Z.eqb_neq (root_mnt_ fs_info) 0)) by done. cbn [orb].
    case_bool_decide; [|apply walk_loop_total; [done|lia|lia]]. eexists. split; [done|]. split_and!; [by left|done|done]. }
  assert (Hlive : ∀ a, is_Some (dentries h !! a) → a ≠ 0).
  { intros a [d Hd]. apply (dentry_live _ _ _ Ht) in Hd. lia. }
  destruct (ch s 0 =? SEPARATOR); [rewrite Hr|rewrite Hpm]; apply Hgo; try apply Hlive; try done; first [apply root_live|by exists pwd].
Qed.
End walking.

(** ** Paths *)

Lemma dots_prefix n : ∀ i p pre, dots n i p pre = pre ∨ dots n i p pre = [] ∧ SEPARATOR ∈ p.
Proof.
  induction n as [|n IH]; intros i p pre; [by left|]. cbn [dots]. destruct (_ && _) eqn:E.
  - apply andb_true_iff in E as [Hi%bool_decide_eq_true Hc%Z.eqb_eq].
    assert (SEPARATOR ∈ p).
    { destruct (lookup_lt_is_Some_2 p i Hi) as [x Hx]. unfold ch in Hc. rewrite nth_lookup, Hx in Hc. cbn in Hc.
      subst x. apply list_elem_of_lookup. by exists i. }
    right. destruct (IH (S i) p []) as [->|[-> _]]; done.
  - destruct (negb _); [by left|]. apply IH.
Qed.

(** The path that [dupChecking] walks. *)
Definition full_path pathname : list Z := dots 3 0 pathname [CHAR_DOT; SEPARATOR] ++ pathname.

Lemma full_path_spec p : SEPARATOR ∈ full_path p ∧ (length (full_path p) <= length p + 2)%nat.
Proof.
  unfold full_path. rewrite length_app, elem_of_app. destruct (dots_prefix 3 0 p [CHAR_DOT; SEPARATOR]) as [->|[-> Hp]].
  - split; [left; by right; left|cbn; lia].
  - split; [by right|cbn; lia].
Qed.

Lemma index_of_spec c s : c ∈ s → ∃ i, index_of c s = Some i ∧ 0 <= i < Z.of_nat (length s) ∧
  s = take (Z.to_nat i) s ++ c :: drop (Z.to_nat (i + 1)) s ∧ c ∉ take (Z.to_nat i) s.
Proof.
  induction s as [|x s IH]; [by intros ?%elem_of_nil|]. intros Hc. cbn [index_of].
  destruct (Z.eqb_spec x c) as [->|Hn].
  - exists 0. cbn. split_and!; [done|lia|lia|done|apply not_elem_of_nil].
  - apply elem_of_cons in Hc as [|Hc]; [congruence|]. destruct (IH Hc) as (i & -> & Hi & Es & Hno).
    exists (1 + i). cbn [option_map length]. replace (Z.to_nat (1 + i)) with (S (Z.to_nat i)) by lia.
    replace (Z.to_nat (1 + i + 1)) with (S (Z.to_nat (i + 1))) by lia. cbn [take drop]. split_and!; [done|lia|lia| |].
    + cbn. by f_equal.
    + apply not_elem_of_cons. by split.
Qed.

Lemma split_path_spec p : SEPARATOR ∈ p → ∃ parent name,
  split_path p = Val (parent, name) ∧ p = parent ++ SEPARATOR :: name ∧ SEPARATOR ∉ name.
Proof.
  intros Hp. destruct (index_of_spec SEPARATOR (rev p)) as (i & Ei & Hi & Es & Hno); [by rewrite list_elem_of_In, <- in_rev, <- list_elem_of_In|].
  unfold split_path, find_last_of. rewrite Ei. cbn [option_map]. rewrite length_rev in Hi.
  set (a := take (Z.to_nat i) (rev p)) in *. set (b := drop (Z.to_nat (i + 1)) (rev p)) in *.
  assert (Ep : p = rev b ++ SEPARATOR :: rev a).
  { rewrite <- (rev_involutive p), Es, rev_app_distr. cbn. by rewrite <- app_assoc. }
  assert (Eb : Z.to_nat (Z.of_nat (length p) - 1 - i) = length (rev b)).
  { rewrite length_rev. unfold b. rewrite length_drop, length_rev. lia. }
  assert (Eb' : Z.to_nat (Z.of_nat (length p) - 1 - i + 1) = S (length (rev b))) by lia.
  rewrite Eb, Eb'. exists (rev b), (rev a). split_and!; [|done|].
  - rewrite Ep at 1 2. rewrite take_app_length. do 2 f_equal. rewrite drop_app_ge by lia.
    by replace (S (length (rev b)) - length (rev b))%nat with 1%nat by lia.
  - by rewrite list_elem_of_In, <- in_rev, <- list_elem_of_In.
Qed.

(** ** Descriptors *)

Section descriptors.
Context h (sb root : Z) (Hok : fs_ok h sb root).

Lemma getFd_small q e : descriptors h !! q = Some e → getFd e = fd_ e.
Proof.
  destruct Hok as (_ & Hf & _). intros Hq. destruct (c_fd _ _ Hf _ _ Hq) as (_ & ? & _). pose proof (c_num _ _ Hf).
  unfold getFd. by rewrite (wrap_small 32) by lia.
Qed.

Lemma find_fd_spec fd l : (∀ q, q ∈ l → is_Some (descriptors h !! q)) → ∃ q, find_fd h l fd = Val q ∧
  (q = 0 ∧ (∀ p e, p ∈ l → descriptors h !! p = Some e → fd_ e ≠ fd) ∨
   q ∈ l ∧ ∃ e, descriptors h !! q = Some e ∧ fd_ e = fd).
Proof.
  induction l as [|p l IH]; intros Hl.
  { exists 0. split; [done|]. left. split; [done|]. by intros ? ? ?%elem_of_nil. }
  destruct (Hl p ltac:(by left)) as [e He]. cbn [find_fd]. rewrite (deref_Some _ _ _ He). cbn [mbind res_bind].
  rewrite (getFd_small _ _ He). destruct (Z.eqb_spec (fd_ e) fd) as [E|E].
  - exists p. split; [done|]. right. split; [by left|eauto].
  - destruct IH as (q & -> & Hq); [intros; apply Hl; by right|]. exists q. split; [done|].
    destruct Hq as [[-> Hno]|[Hin Hq]]; [left|right; split; [by right|done]].
    split; [done|]. intros b g [->|Hb]%elem_of_cons Hg; [congruence|eauto].
Qed.

(** [getFileDescriptor] finds the only descriptor with a number. *)
Lemma getFileDescriptor_spec fd : 
  (getFileDescriptor h fd = Val 0 ∧ ∀ q e, descriptors h !! q = Some e → fd_ e ≠ fd) ∨
  ∃ q e y x, getFileDescriptor h fd = Val q ∧ q ≠ 0 ∧ descriptors h !! q = Some e ∧ fd_ e = fd ∧
    files h !! file_ e = Some y ∧ inodes h !! f_inode_ y = Some x ∧ i_type_ x = I_FILE ∧ superblock_ x = sb ∧
    (∃ l, data_ x = Some l ∧ length l = Z.to_nat BASIC_ALLOC).
Proof.
  pose proof Hok as (Ht & Hf & _). destruct (c_global _ _ Hf) as [_ Hg]. unfold getFileDescriptor.
  destruct (find_fd_spec fd (global_fd h)) as (q & -> & Hq); [by intros q ?%Hg|].
  destruct Hq as [[-> Hno]|[Hin (e & He & Efd)]].
  - left. split; [done|]. intros q e He. eapply Hno; [apply Hg; by exists e|done].
  - right. destruct (c_fd _ _ Hf _ _ He) as (Hl & _ & [y Hy]). destruct (c_file _ _ Hf _ _ Hy) as (_ & _ & [x Hx] & _).
    exists q, e, y, x. destruct (t_inode _ _ _ Ht _ _ Hx) as (_ & ? & _ & _ & Hk & _).
    destruct (c_inode _ _ Hf _ _ Hx) as (_ & Hin' & _). destruct Hk as [[_ E]|[? ?]].
    + rewrite E in Hin'. assert (file_ e ∈ ([] : list Z)) as []%elem_of_nil by (apply Hin'; eauto).
    + split_and!; try done. lia.
Qed.
End descriptors.

Lemma walk_pathname h q fs_info s : walk h (with_pathname q fs_info) s = walk h fs_info s.
Proof. reflexivity. Qed.

(** ** What each call does *)

Section calls.
Context h (sb root : Z) (Hok : fs_ok h sb root) (Hm : mounts_ok h root).
Context fs_info (Hinfo : info_ok h root fs_info).
Implicit Types (p name : list Z) (d : Dentry) (x : Inode).

(** The entry [a] with its inode, as a walk finds it. *)
Definition found (a : Z) d x : Prop := dentries h !! a = Some d ∧ inodes h !! d_inode_ d = Some x ∧
  i_dentry_ x = a ∧ superblock_ x = sb ∧ (i_type_ x = I_DIR ∧ i_files_ x = [] ∨ i_type_ x = I_FILE).

Lemma live_found a : is_Some (dentries h !! a) → ∃ d x, found a d x.
Proof.
  destruct Hok as (Ht & _). intros [d Hd]. destruct (inode_of _ _ _ Ht _ _ Hd) as (x & Hx & Ea & (_ & Es & _ & _ & Hk & _)).
  exists d, x. split_and!; try done. by destruct Hk as [?|[? _]]; [left|right].
Qed.

Lemma super : ∃ s, superblocks h !! sb = Some s.
Proof. destruct Hok as (_ & _ & (s & Hs & _)). by exists s. Qed.

(** The walks of a call succeed or fail. *)
Lemma walk_cases s : Z.of_nat (length s) < 2 ^ 31 - 1 →
  (∃ a d x, walk h fs_info s = Val (0, a, root_mnt_ fs_info) ∧ found a d x) ∨
  ∃ a, walk h fs_info s = Val (PW_ENOTFOUND, a, root_mnt_ fs_info).
Proof.
  intros Hl. destruct Hok as (Ht & _). destruct (walk_total _ _ _ Ht Hm _ _ Hinfo Hl) as ([[code a] m] & Hw & Hc & Ha & Em).
  cbn in *. subst m. destruct Hc as [->| ->]; [left|right; eauto]. destruct (live_found _ Ha) as (d & x & Hf). eauto 10.
Qed.

Lemma dup_cases p : Z.of_nat (length p) < 2 ^ 31 - 3 →
  (∃ a d x, dupChecking h fs_info p = Val (with_pathname (full_path p) fs_info, (0, a, root_mnt_ fs_info)) ∧
     walk h fs_info (full_path p) = Val (0, a, root_mnt_ fs_info) ∧ found a d x) ∨
  ∃ a, dupChecking h fs_info p = Val (with_pathname (full_path p) fs_info, (PW_ENOTFOUND, a, root_mnt_ fs_info)) ∧
     walk h fs_info (full_path p) = Val (PW_ENOTFOUND, a, root_mnt_ fs_info).
Proof.
  intros Hl. destruct (full_path_spec p) as [_ Hfl]. unfold dupChecking. fold (full_path p).
  rewrite walk_pathname. cbn [pathname_ with_pathname].
  destruct (walk_cases (full_path p)) as [(a & d & x & -> & Hf)|[a ->]]; [lia|left|right]; cbn [mbind res_bind]; eauto 10.
Qed.

(** The parent directory of a new entry. *)
Definition new_in p parent name (a : Z) d x : Prop :=
  full_path p = parent ++ SEPARATOR :: name ∧ SEPARATOR ∉ name ∧
  (∃ b, walk h fs_info (full_path p) = Val (PW_ENOTFOUND, b, root_mnt_ fs_info)) ∧
  walk h fs_info parent = Val (0, a, root_mnt_ fs_info) ∧ found a d x ∧ i_type_ x = I_DIR.

Lemma create_entry_then {A} (a : Z) d x name s type (k : heap * Z → res A) : found a d x → i_type_ x = I_DIR →
  superblocks h !! sb = Some s → type = I_DIR ∨ type = I_FILE →
  ('(h, sub) ← new_child h a;
   e ← deref (dentries h) sub;
   r ← createInode (put_dentry sub (with_name name e) h) sb sub type; k r) = k (created h a d name sb s type, next h + 1).
Proof.
  intros (Ha & Hx & _) Hdir Hs Htype. destruct Hok as (Ht & _).
  pose proof (create_entry h sb root Ht a d name s type Ha Htype Hs) as E.
  destruct (new_child h a) as [[h1 sub]|]; cbn [mbind res_bind] in *; [|done].
  destruct (deref (dentries h1) sub) as [e|]; cbn [mbind res_bind] in *; [|done]. by rewrite E.
Qed.

Lemma mkdir_cases p : Z.of_nat (length p) < 2 ^ 31 - 3 →
  (∃ q, mkdir h fs_info p = Val (h, with_pathname q fs_info, -1)) ∨
  ∃ parent name a d x s, new_in p parent name a d x ∧ superblocks h !! sb = Some s ∧
    mkdir h fs_info p = Val (created h a d name sb s I_DIR, with_pathname parent fs_info, 0).
Proof.
  intros Hl. unfold mkdir. destruct (dup_cases p Hl) as [(a & d & x & -> & _)|(b & -> & Hb)]; cbn [mbind res_bind Z.eqb PW_ENOTFOUND]; [eauto|].
  destruct (full_path_spec p) as [Hsep Hfl]. destruct (split_path_spec _ Hsep) as (parent & name & Esp & Ep & Hname).
  cbn [pathname_ with_pathname]. rewrite Esp. cbn [mbind res_bind pathname_ with_pathname]. rewrite !walk_pathname.
  assert (Hpl : Z.of_nat (length parent) < 2 ^ 31 - 1) by (apply (f_equal length) in Ep; rewrite length_app in Ep; cbn [length] in Ep; lia).
  destruct (walk_cases parent Hpl) as [(a & d & x & Hw & Hf)|[a ->]]; [|left; by eexists].
  rewrite Hw. cbn [mbind res_bind Z.eqb negb]. pose proof Hf as (Ha & Hx & _ & Es & _).
  rewrite (deref_Some _ _ _ Ha). cbn [mbind res_bind]. rewrite (deref_Some _ _ _ Hx). cbn [mbind res_bind].
  destruct (Z.eqb_spec (i_type_ x) I_DIR) as [Ed|]; [|left; by eexists]. right. destruct super as [s Hs].
  exists parent, name, a, d, x, s. split_and!; [split_and!; eauto|done|]. cbn [negb]. rewrite Es.
  rewrite (create_entry_then a d x name s I_DIR) by auto. done.
Qed.

Lemma chdir_cases p : Z.of_nat (length p) < 2 ^ 31 - 3 →
  (∃ q, chdir h fs_info p = Val (h, with_pathname q fs_info, -1)) ∨
  ∃ a d x, found a d x ∧ i_type_ x = I_DIR ∧ walk h fs_info (full_path p) = Val (0, a, root_mnt_ fs_info) ∧
    chdir h fs_info p = Val (h, setFsPwd a (root_mnt_ fs_info) (with_pathname (full_path p) fs_info), 0).
Proof.
  intros Hl. unfold chdir. destruct (dup_cases p Hl) as [(a & d & x & -> & Hw & Hf)|(b & -> & Hb)];
    cbn [mbind res_bind Z.eqb negb PW_ENOTFOUND]; [|eauto].
  pose proof Hf as (Ha & Hx & _). rewrite (deref_Some _ _ _ Ha). cbn [mbind res_bind]. rewrite (deref_Some _ _ _ Hx).
  cbn [mbind res_bind]. destruct (Z.eqb_spec (i_type_ x) I_DIR); cbn [negb]; [right|left]; eauto 10.
Qed.

(** An entry that can be taken out of the directory [d_parent_ d]. *)
Definition removable (a : Z) d x : Prop := found a d x ∧ a ≠ root ∧ d_child_ d = [] ∧ i_files_ x = [].

Lemma removal_then (a : Z) d x dp s : removable a d x → dentries h !! d_parent_ d = Some dp →
  superblocks h !! sb = Some s →
  ∀ fi : FileSystemInfo,
  ('(h, r) ← remove_entry h (d_inode_ d);
   if r =? INODE_DEAD then h ← delete_inode h sb (d_inode_ d); Val (h, fi, 0) else Val (h, fi, -1)) =
  Val (removed h a (d_parent_ d) dp (d_inode_ d) x sb s, fi, 0).
Proof.
  intros ((Ha & Hx & _) & Har & Hc & _) Hp Hs fi.
  pose proof (remove_steps h sb root Hok a d x dp s Ha Har Hc Hx Hp Hs) as E.
  destruct (remove_entry h (d_inode_ d)) as [[h1 r]|]; cbn [mbind res_bind] in *; [|done].
  destruct (r =? INODE_DEAD); cbn [kassert mbind res_bind] in *; [|done]. by rewrite E.
Qed.

Lemma parent_found a d : dentries h !! a = Some d → ∃ dp, dentries h !! d_parent_ d = Some dp.
Proof. intros Ha. destruct Hok as (Ht & _). destruct (parent_live _ _ _ Ht _ _ Ha) as [dp ?]. eauto. Qed.

Lemma file_entry a d x : found a d x → i_type_ x = I_FILE → a ≠ root ∧ d_child_ d = [].
Proof.
  intros (Ha & Hx & _) Hf. destruct Hok as (Ht & _). split.
  - intros ->. destruct (t_root _ _ _ Ht) as (d' & x' & Hd & _ & Hx' & E). rewrite Ha in Hd. injection Hd as <-.
    rewrite Hx in Hx'. injection Hx' as <-. by rewrite Hf in E.
  - destruct (t_node _ _ _ Ht _ _ Ha) as (_ & (y & Hy & _ & Hdir) & _). rewrite Hx in Hy. injection Hy as <-.
    destruct (d_child_ d) as [|c l]; [done|]. rewrite Hf in Hdir. by specialize (Hdir ltac:(done)).
Qed.

(** The removal of the entry [a]. *)
Definition removes (a : Z) d x h' : Prop := ∃ dp s, dentries h !! d_parent_ d = Some dp ∧ superblocks h !! sb = Some s ∧
  h' = removed h a (d_parent_ d) dp (d_inode_ d) x sb s.

Lemma rm_cases p : Z.of_nat (length p) < 2 ^ 31 - 3 →
  (rm h fs_info p = Val (h, with_pathname (full_path p) fs_info, -1) ∧
   ∀ a d x, walk h fs_info (full_path p) = Val (0, a, root_mnt_ fs_info) → found a d x → i_type_ x = I_DIR ∨ i_files_ x ≠ []) ∨
  ∃ a d x h', walk h fs_info (full_path p) = Val (0, a, root_mnt_ fs_info) ∧ removable a d x ∧ i_type_ x = I_FILE ∧
    removes a d x h' ∧ rm h fs_info p = Val (h', with_pathname (full_path p) fs_info, 0).
Proof.
  intros Hl. unfold rm. destruct (dup_cases p Hl) as [(a & d & x & -> & Hw & Hf)|(b & -> & Hb)];
    cbn [mbind res_bind Z.eqb negb PW_ENOTFOUND]; [|left; split; [done|]; intros a d x; by rewrite Hb].
  pose proof Hf as (Ha & Hx & _ & Es & Hk). rewrite (deref_Some _ _ _ Ha). cbn [mbind res_bind].
  rewrite (deref_Some _ _ _ Hx). cbn [mbind res_bind].
  assert (Huniq : ∀ a' d' x', walk h fs_info (full_path p) = Val (0, a', root_mnt_ fs_info) → found a' d' x' → x' = x).
  { intros a' d' x'. rewrite Hw. intros [= <-] (Ha' & Hx' & _). congruence. }
  destruct (Z.eqb_spec (i_type_ x) I_FILE) as [Ef|Ef]; cbn [negb].
  2: { left. split; [done|]. intros a' d' x' Hw' Hf'. rewrite (Huniq _ _ _ Hw' Hf'). left. by destruct Hk as [[? _]|]. }
  unfold RamFs.rm. rewrite (deref_Some _ _ _ Hx). cbn [mbind res_bind].
  destruct (decide (i_files_ x = [])) as [Ec|Ec].
  - right. rewrite bool_decide_true by done. cbn [negb]. destruct (file_entry _ _ _ Hf Ef) as [Har Hc].
    destruct (parent_found _ _ Ha) as [dp Hp]. destruct super as [s Hs].
    exists a, d, x, (removed h a (d_parent_ d) dp (d_inode_ d) x sb s).
    split_and!; [done|done|done|by exists dp, s|]. rewrite Es. by apply removal_then.
  - left. rewrite bool_decide_false by done. cbn [negb mbind res_bind]. split; [done|].
    intros a' d' x' Hw' Hf'. rewrite (Huniq _ _ _ Hw' Hf'). by right.
Qed.

Lemma rmdir_cases p : Z.of_nat (length p) < 2 ^ 31 - 3 →
  (∀ a, walk h fs_info (full_path p) = Val (0, a, root_mnt_ fs_info) → a ≠ root) →
  rmdir h fs_info p = Val (h, with_pathname (full_path p) fs_info, -1) ∨
  ∃ a d x h', walk h fs_info (full_path p) = Val (0, a, root_mnt_ fs_info) ∧ removable a d x ∧ i_type_ x = I_DIR ∧
    removes a d x h' ∧ rmdir h fs_info p = Val (h', with_pathname (full_path p) fs_info, 0).
Proof.
  intros Hl Hnr. unfold rmdir. destruct (dup_cases p Hl) as [(a & d & x & -> & Hw & Hf)|(b & -> & Hb)];
    cbn [mbind res_bind Z.eqb negb PW_ENOTFOUND]; [|by left].
  pose proof Hf as (Ha & Hx & Ex & Es & Hk). rewrite (deref_Some _ _ _ Ha). cbn [mbind res_bind].
  rewrite (deref_Some _ _ _ Hx). cbn [mbind res_bind].
  destruct (Z.eqb_spec (i_type_ x) I_DIR) as [Ed|Ed]; cbn [negb]; [|by left].
  unfold RamFs.rmdir. rewrite (deref_Some _ _ _ Hx). cbn [mbind res_bind]. rewrite Ed. cbn [Z.eqb I_DIR Pos.eqb negb].
  destruct (decide (d_child_ d = [])) as [Ec|Ec].
  - right. destruct (parent_found _ _ Ha) as [dp Hp]. destruct super as [s Hs].
    exists a, d, x, (removed h a (d_parent_ d) dp (d_inode_ d) x sb s).
    assert (removable a d x) by (split_and!; auto; destruct Hk as [[_ ?]|E]; [done|by rewrite Ed in E]).
    split_and!; [done|done|done|by exists dp, s|]. rewrite Es. by apply removal_then.
  - left. unfold remove_entry. rewrite (deref_Some _ _ _ Hx). cbn [mbind res_bind]. rewrite Ex. unfold emptyChild.
    rewrite (deref_Some _ _ _ Ha). cbn [mbind res_bind]. by rewrite bool_decide_false by done.
Qed.

(** [open] also sets the parent, which is set already. *)
Lemma create_file_then {A} (a : Z) d x name s (k : heap * Z → res A) : found a d x → i_type_ x = I_DIR →
  superblocks h !! sb = Some s →
  ('(h, sub) ← new_child h a;
   e ← deref (dentries h) sub;
   h ← setParent (put_dentry sub (with_name name e) h) sub a;
   r ← createInode h sb sub I_FILE; k r) = k (created h a d name sb s I_FILE, next h + 1).
Proof.
  intros Hf Hdir Hs. rewrite <- (create_entry_then a d x name s I_FILE k) by auto.
  destruct Hf as (Ha & _). destruct Hok as (Ht & _). pose proof (dentry_live _ _ _ Ht _ _ Ha).
  rewrite (new_child_eq _ _ d) by (try done; by eapply new_child_not_listed). cbn [mbind res_bind dentries].
  rewrite deref_insert. cbn [mbind res_bind]. unfold setParent.
  cbn [dentries put_dentry set_dentries]. rewrite deref_insert. cbn [mbind res_bind]. f_equal. f_equal.
  apply heap_ext; try reflexivity. cbn. by rewrite insert_insert_eq.
Qed.

Definition bad_flags (flag : Z) : bool :=
  has flag (Z.lxor (2 ^ 32 - 1) open_flags) || has flag (O_APPEND + O_TRUNC).

(** What [open] does to the heap: a new descriptor for the inode [i] of [h1], which
    is the old heap or has the new file. *)
Definition opens p flag h' : Prop := bad_flags flag = false ∧ ∃ s,
  (∃ a d x, walk h fs_info (full_path p) = Val (0, a, root_mnt_ fs_info) ∧ found a d x ∧ i_type_ x = I_FILE ∧
     superblocks h !! sb = Some s ∧ h' = opened h (d_inode_ d) x flag sb s) ∨
  (∃ parent name a d x s0, has flag O_CREAT = true ∧ new_in p parent name a d x ∧ superblocks h !! sb = Some s0 ∧
     s = with_all_inodes (all_inodes_ s0 ++ [next h + 1]) s0 ∧
     h' = opened (created h a d name sb s0 I_FILE) (next h + 1) (fresh_inode (next h) I_FILE sb) flag sb s).

Lemma open_cases p flag : Z.of_nat (length p) < 2 ^ 31 - 3 → fd_num_ h + 1 < 2 ^ 31 →
  (∃ q, open h fs_info p flag = Val (h, with_pathname q fs_info, -1)) ∨
  ∃ q h', opens p flag h' ∧ open h fs_info p flag = Val (h', with_pathname q fs_info, fd_num_ h).
Proof.
  intros Hl Hnum. unfold open. assert (Esame : fs_info = with_pathname (pathname_ fs_info) fs_info) by by destruct fs_info.
  destruct (has flag (Z.lxor (2 ^ 32 - 1) open_flags)) eqn:E1; [left; eexists; by rewrite Esame at 1|].
  destruct (has flag (O_APPEND + O_TRUNC)) eqn:E2; [left; eexists; by rewrite Esame at 1|].
  assert (Hflag : bad_flags flag = false) by (unfold bad_flags; by rewrite E1, E2).
  destruct (dup_cases p Hl) as [(a & d & x & -> & Hw & Hf)|(b & -> & Hb)]; cbn [mbind res_bind Z.eqb PW_ENOTFOUND].
  - pose proof Hf as (Ha & Hx & Ex & Es & Hk). rewrite (deref_Some _ _ _ Ha). cbn [mbind res_bind].
    rewrite (deref_Some _ _ _ Hx). cbn [mbind res_bind].
    destruct (Z.eqb_spec (i_type_ x) I_FILE) as [Ef|Ef]; cbn [negb]; [right|left; by eexists].
    destruct super as [s Hs]. rewrite Es.
    rewrite (createFd_eq _ _ _ Hok _ x flag s Hx Hs Hnum). cbn [mbind res_bind].
    eexists _, _. split; [|done]. split; [done|]. exists s. left. by exists a, d, x.
  - destruct (has flag O_CREAT) eqn:Ec; [|left; by eexists].
    destruct (full_path_spec p) as [Hsep Hfl]. destruct (split_path_spec _ Hsep) as (parent & name & Esp & Ep & Hname).
    cbn [pathname_ with_pathname]. rewrite Esp. cbn [mbind res_bind pathname_ with_pathname]. rewrite !walk_pathname.
    assert (Hpl : Z.of_nat (length parent) < 2 ^ 31 - 1) by (apply (f_equal length) in Ep; rewrite length_app in Ep; cbn [length] in Ep; lia).
    destruct (walk_cases parent Hpl) as [(a & d & x & Hw & Hf)|[a ->]]; [|left; by eexists].
    rewrite Hw. cbn [mbind res_bind Z.eqb negb]. pose proof Hf as (Ha & Hx & _ & Es & _).
    rewrite (deref_Some _ _ _ Ha). cbn [mbind res_bind]. rewrite (deref_Some _ _ _ Hx). cbn [mbind res_bind].
    destruct (Z.eqb_spec (i_type_ x) I_DIR) as [Ed|]; [|left; by eexists]. right. destruct super as [s Hs]. cbn [negb].
    rewrite Es, (create_file_then a d x name s) by auto.
    assert (Hok' : fs_ok (created h a d name sb s I_FILE) sb root) by (eapply created_ok; eauto).
    erewrite (createFd_eq _ _ _ Hok' (next h + 1)); [|apply lookup_insert_eq|apply lookup_insert_eq|done].
    cbn [mbind res_bind]. eexists _, _. split; [|done]. split; [done|]. eexists. right.
    exists parent, name, a, d, x, s. split_and!; try done. split_and!; eauto.
Qed.

Lemma opens_ok p flag h' : fd_num_ h + 1 < 2 ^ 31 → opens p flag h' → fs_ok h' sb root.
Proof.
  intros Hnum (_ & s & [(a & d & x & _ & (Ha & Hx & Ex & _) & Ef & Hs & ->)|
    (parent & name & a & d & x & s0 & _ & (_ & _ & _ & _ & (Ha & Hx & _) & Ed) & Hs & -> & ->)]).
  - eapply opened_ok; try done. destruct Hok as (Ht & _). pose proof (dentry_live _ _ _ Ht _ _ Ha). lia.
  - assert (fs_ok (created h a d name sb s0 I_FILE) sb root) by (eapply created_ok; eauto).
    eapply opened_ok; try done; [apply lookup_insert_eq| |apply lookup_insert_eq].
    destruct Hok as (Ht & _). pose proof (dentry_live _ _ _ Ht _ _ Ha). cbn. lia.
Qed.

Lemma close_cases fd : (close h fd = Val (h, -1) ∧ ∀ q e, descriptors h !! q = Some e → fd_ e ≠ fd) ∨
  ∃ q e y x s, descriptors h !! q = Some e ∧ fd_ e = fd ∧ files h !! file_ e = Some y ∧ inodes h !! f_inode_ y = Some x ∧
    superblocks h !! sb = Some s ∧ close h fd = Val (closed h (f_inode_ y) x q e sb s, 0).
Proof.
  unfold close. destruct (getFileDescriptor_spec _ _ _ Hok fd) as [[-> Hno]|(q & e & y & x & -> & Hq0 & Hq & Efd & Hy & Hx & _ & Es & _)];
    cbn [mbind res_bind]; [by left|right].
  destruct super as [s Hs]. exists q, e, y, x, s. split_and!; try done. rewrite (proj2 (Z.eqb_neq q 0)) by done.
  rewrite (deref_Some _ _ _ Hq). cbn [mbind res_bind]. rewrite (deref_Some _ _ _ Hy). cbn [mbind res_bind].
  rewrite (deref_Some _ _ _ Hx). cbn [mbind res_bind]. rewrite Es.
  by rewrite (removeFd_eq _ _ _ Hok q e y x s Hq Hx Hs).
Qed.
End calls.

End VfsSyscall.
