(* ===== verification/VfsCalls.v ===== *)
(** * Properties of the file system calls

    The open files as a flat table and its refinement, the invariant of all calls
    together from the boot on, what [mkdir], [open] and [rm] change, and small
    runs, for the calls of [VfsSyscall]. *)
From S2P Require Import Prelude LibcString Kstring Buffers Vfs RamFs VfsSyscall.
Import Vfs RamFs VfsSyscall.

Module VfsCalls.
Implicit Types (h : heap) (fs_info : FileSystemInfo) (pathname : list Z).

(** ** Descriptors as a flat table

    The abstract state of the open files: for each descriptor number the inode,
    the flags and the offset, and for each inode of a file its bytes. *)

Record flat : Type := mkFlat {
  fl_fds : gmap Z (Z * Z * Z);
  fl_data : gmap Z (list Z);
}.

Inductive file_op :=
| FRead (fd count : Z)
| FWrite (fd : Z) (buffer : list Z) (count : Z)
| FLseek (fd offset origin : Z)
| FClose (fd : Z).

Definition file_step h (o : file_op) : res (heap * (Z * list Z)) :=
  match o with
  | FRead fd count => '(h, n, l) ← read h fd count; Val (h, (n, l))
  | FWrite fd buffer count => '(h, n) ← write h fd buffer count; Val (h, (n, []))
  | FLseek fd offset origin => '(h, n) ← lseek h fd offset origin; Val (h, (n, []))
  | FClose fd => '(h, n) ← close h fd; Val (h, (n, []))
  end.

Definition seek (fl : flat) (fd i flag o : Z) : flat := mkFlat (<[fd := (i, flag, o)]> (fl_fds fl)) (fl_data fl).

(** The same calls on the table. *)
Definition flat_step (fl : flat) (op : file_op) : res (flat * (Z * list Z)) :=
  match op with
  | FRead fd count =>
      match fl_fds fl !! fd with
      | None => Val (fl, (-1, []))
      | Some (i, flag, o) =>
          if count =? 0 then Val (fl, (0, []))
          else if has flag O_RDONLY || has flag O_RDWR then
            let n := reach o count in
            Val (seek fl fd i flag (u64 (o + n)), (n, sub (default [] (fl_data fl !! i)) (u32 o) n))
          else Val (fl, (-1, []))
      end
  | FWrite fd buffer count =>
      match fl_fds fl !! fd with
      | None => Val (fl, (-1, []))
      | Some (i, flag, o) =>
          if count =? 0 then Val (fl, (0, []))
          else if has flag O_WRONLY || has flag O_RDWR then
            let n := reach o count in
            let data := patch (default [] (fl_data fl !! i)) (u32 o) (take (Z.to_nat n) buffer) in
            Val (mkFlat (<[fd := (i, flag, u64 (o + n))]> (fl_fds fl)) (<[i := data]> (fl_data fl)), (n, []))
          else Val (fl, (-1, []))
      end
  | FLseek fd offset origin =>
      match fl_fds fl !! fd with
      | None => Val (fl, (2 ^ 64 - 1, []))
      | Some (i, flag, o) =>
          if origin =? SEEK_SET then Val (seek fl fd i flag offset, (offset, []))
          else if origin =? SEEK_CUR then Val (seek fl fd i flag (u64 (o + offset)), (u64 (o + offset), []))
          else if origin =? SEEK_END then Val (seek fl fd i flag (u64 (BASIC_ALLOC + offset)), (u64 (BASIC_ALLOC + offset), []))
          else Val (fl, (2 ^ 64 - 1, []))
      end
  | FClose fd =>
      match fl_fds fl !! fd with
      | None => Val (fl, (-1, []))
      | Some _ => Val (mkFlat (delete fd (fl_fds fl)) (fl_data fl), (0, []))
      end
  end.

(** The arguments' types, and a buffer that has the bytes to be written. *)
Definition file_args (o : file_op) : Prop :=
  match o with
  | FRead _ count => 0 <= count < 2 ^ 32
  | FWrite _ buffer count => 0 <= count < 2 ^ 32 ∧ count <= Z.of_nat (length buffer)
  | FLseek _ offset _ => 0 <= offset < 2 ^ 64
  | FClose _ => True
  end.

Definition descriptor_view h (fd : Z) (v : Z * Z * Z) : Prop := ∃ q e y, descriptors h !! q = Some e ∧ fd_ e = fd ∧
  files h !! file_ e = Some y ∧ v = (f_inode_ y, flag_ y, offset_ y).

(** The table shows the open files of a heap. *)
Definition shows (sb root : Z) h (fl : flat) : Prop := fs_ok h sb root ∧
  (∀ fd v, fl_fds fl !! fd = Some v ↔ descriptor_view h fd v) ∧
  (∀ i x, inodes h !! i = Some x → i_type_ x = I_FILE → fl_data fl !! i = data_ x).

Lemma has_or flag a b : has flag (Z.lor a b) = has flag a || has flag b.
Proof.
  unfold has. rewrite Z.land_lor_distr_r.
  destruct (Z.eqb_spec (Z.land flag a) 0) as [->|Ha]; [done|]. cbn [negb orb].
  apply negb_true_iff, Z.eqb_neq. intros [E _]%Z.lor_eq_0_iff. done.
Qed.

Section shown.
Context (sb root : Z) h (fl : flat) (Hrel : shows sb root h fl).

(** A call finds no descriptor and no row, or a descriptor and its row. *)
Lemma row_cases fd :
  (getFileDescriptor h fd = Val 0 ∧ fl_fds fl !! fd = None) ∨
  ∃ q e y x l, getFileDescriptor h fd = Val q ∧ q ≠ 0 ∧ descriptors h !! q = Some e ∧ fd_ e = fd ∧
    files h !! file_ e = Some y ∧ inodes h !! f_inode_ y = Some x ∧ i_type_ x = I_FILE ∧ data_ x = Some l ∧
    fl_fds fl !! fd = Some (f_inode_ y, flag_ y, offset_ y) ∧ fl_data fl !! f_inode_ y = Some l.
Proof.
  destruct Hrel as (Hok & Hfd & Hdata).
  destruct (getFileDescriptor_spec _ _ _ Hok fd) as [[-> Hno]|(q & e & y & x & -> & Hq0 & Hq & Efd & Hy & Hx & Ef & Es & (l & Hl & _))].
  - left. split; [done|]. destruct (fl_fds fl !! fd) as [v|] eqn:E; [|done]. apply Hfd in E as (q & e & y & Hq & Efd & _).
    by destruct (Hno _ _ Hq).
  - right. exists q, e, y, x, l. split_and!; try done; [|by rewrite (Hdata _ _ Hx Ef)]. apply Hfd. by exists q, e, y.
Qed.

Context (q : Z) (e : FileDescriptor) (y : File) (x : Inode) (l l' : list Z) (o : Z).
Context (Hq : descriptors h !! q = Some e) (Hy : files h !! file_ e = Some y) (Hx : inodes h !! f_inode_ y = Some x).
Context (Hl : data_ x = Some l) (Hl' : length l' = length l) (Ho : 0 <= o < 2 ^ 64).

Lemma moved_shows : shows sb root (moved h (f_inode_ y) x (Some l') (file_ e) y o)
  (mkFlat (<[fd_ e := (f_inode_ y, flag_ y, o)]> (fl_fds fl)) (<[f_inode_ y := l']> (fl_data fl))).
Proof.
  destruct Hrel as (Hok & Hfd & Hdata). pose proof Hok as (_ & Hf & _).
  split; [by eapply moved_ok|]. split.
  - intros fd v. cbn [fl_fds]. rewrite lookup_insert. unfold descriptor_view. cbn [descriptors files moved].
    destruct (decide (fd_ e = fd)) as [<-|Hn].
    + split.
      * intros [= <-]. exists q, e, (with_offset o y). by rewrite lookup_insert_eq.
      * intros (q2 & e2 & y2 & Hq2 & E2 & Hy2 & ->).
        rewrite (c_inj _ _ Hf q q2 e e2 Hq Hq2 ltac:(by left)), Hq2 in Hq. injection Hq as ->.
        rewrite lookup_insert_eq in Hy2. by injection Hy2 as <-.
    + rewrite Hfd. unfold descriptor_view. split; intros (q2 & e2 & y2 & Hq2 & E2 & Hy2 & ->); exists q2, e2, y2;
        split_and!; try done; [|revert Hy2]; rewrite lookup_insert_ne; try done;
        intros E; apply Hn; rewrite <- E2; pose proof (c_inj _ _ Hf q q2 e e2 Hq Hq2 ltac:(by right)) as ->; congruence.
  - intros i z Hz Ez. cbn in Hz |- *. rewrite lookup_insert in Hz. rewrite lookup_insert.
    destruct (decide (f_inode_ y = i)) as [<-|]; [|by apply Hdata]. by injection Hz as <-.
Qed.

End shown.

(** A new offset alone. *)
Lemma seek_shows sb root h fl q e y x l o : shows sb root h fl → descriptors h !! q = Some e →
  files h !! file_ e = Some y → inodes h !! f_inode_ y = Some x → data_ x = Some l →
  fl_data fl !! f_inode_ y = Some l → 0 <= o < 2 ^ 64 →
  shows sb root (put_file (file_ e) (with_offset o y) h) (seek fl (fd_ e) (f_inode_ y) (flag_ y) o).
Proof.
  intros Hrel Hq Hy Hx Hl Hfl Ho. rewrite (put_file_moved _ _ _ _ _ _ Hx Hl).
  pose proof (moved_shows _ _ _ _ Hrel q e y x l l o Hq Hy Hx Hl eq_refl Ho) as H. unfold seek.
  by rewrite (insert_id (fl_data fl)) in H.
Qed.

Lemma closed_shows sb root h fl q e y x s : shows sb root h fl → descriptors h !! q = Some e →
  files h !! file_ e = Some y → inodes h !! f_inode_ y = Some x → superblocks h !! sb = Some s →
  shows sb root (closed h (f_inode_ y) x q e sb s) (mkFlat (delete (fd_ e) (fl_fds fl)) (fl_data fl)).
Proof.
  intros (Hok & Hfd & Hdata) Hq Hy Hx Hs. pose proof Hok as (_ & Hf & _). split; [by eapply closed_ok|]. split.
  - intros fd v. cbn [fl_fds]. rewrite lookup_delete. unfold descriptor_view. cbn [descriptors files closed].
    destruct (decide (fd_ e = fd)) as [<-|Hn].
    + split; [done|]. intros (q2 & e2 & y2 & Hq2 & E2 & _). rewrite lookup_delete in Hq2. case_decide as Eq; [done|].
      destruct Eq. eapply (c_inj _ _ Hf); [exact Hq|exact Hq2|by left].
    + rewrite Hfd. unfold descriptor_view. split; intros (q2 & e2 & y2 & Hq2 & E2 & Hy2 & ->); exists q2, e2, y2.
      * assert (q ≠ q2) by (intros <-; congruence). split_and!; try done; rewrite lookup_delete_ne; try done.
        intros E. pose proof (c_inj _ _ Hf q q2 e e2 Hq Hq2 ltac:(by right)). done.
      * rewrite lookup_delete in Hq2. case_decide; [done|]. rewrite lookup_delete in Hy2. by case_decide.
  - intros i z Hz Ez. cbn in Hz |- *. rewrite lookup_insert in Hz. destruct (decide (f_inode_ y = i)) as [<-|]; [|by apply Hdata].
    injection Hz as <-. cbn in Ez |- *. by apply (Hdata _ x).
Qed.

Lemma file_step_shows sb root h fl op : shows sb root h fl → file_args op →
  sim (shows sb root) (file_step h op) (flat_step fl op).
Proof.
  intros Hrel Hargs. pose proof Hrel as (Hok & _).
  destruct op as [fd count|fd buffer count|fd offset origin|fd]; cbn [file_step flat_step file_args] in *.
  - unfold read. destruct (row_cases _ _ _ _ Hrel fd) as [[-> ->]|(q & e & y & x & l & -> & Hq0 & Hq & <- & Hy & Hx & Ef & Hl & -> & Hd)];
      cbn [mbind res_bind Z.eqb]; [by split|].
    rewrite (proj2 (Z.eqb_neq q 0)) by done. destruct (count =? 0); [by split|].
    rewrite (deref_Some _ _ _ Hq). cbn [mbind res_bind]. rewrite (deref_Some _ _ _ Hy). cbn [mbind res_bind].
    change (O_RDONLY + O_RDWR) with (Z.lor O_RDONLY O_RDWR). rewrite has_or.
    destruct (has (flag_ y) O_RDONLY || has (flag_ y) O_RDWR) eqn:Eh; cbn [negb mbind res_bind]; [|by split].
    rewrite (file_read_reads _ _ _ Hok _ y x l count Hy Hx Hl Hargs Ef), Eh, Hd. cbn [mbind res_bind default].
    split; [done|]. eapply seek_shows; try done. apply (wrap_bounds 64). lia.
  - unfold write. destruct (row_cases _ _ _ _ Hrel fd) as [[-> ->]|(q & e & y & x & l & -> & Hq0 & Hq & <- & Hy & Hx & Ef & Hl & -> & Hd)];
      cbn [mbind res_bind Z.eqb]; [by split|]. destruct Hargs as [Hc Hb].
    rewrite (proj2 (Z.eqb_neq q 0)) by done. destruct (count =? 0); [by split|].
    rewrite (deref_Some _ _ _ Hq). cbn [mbind res_bind]. rewrite (deref_Some _ _ _ Hy). cbn [mbind res_bind].
    change (O_WRONLY + O_RDWR) with (Z.lor O_WRONLY O_RDWR). rewrite has_or.
    destruct (has (flag_ y) O_WRONLY || has (flag_ y) O_RDWR) eqn:Eh; cbn [negb mbind res_bind]; [|by split].
    rewrite (file_write_writes _ _ _ Hok _ y x l count Hy Hx Hl Hc Ef buffer Hb), Eh, Hd. cbn [mbind res_bind default].
    split; [done|]. eapply moved_shows; try done; [|apply (wrap_bounds 64); lia].
    apply (patched_length _ _ _ Hok _ y x l count Hy Hx Hl Hc Ef buffer Hb).
  - unfold lseek. destruct (row_cases _ _ _ _ Hrel fd) as [[-> ->]|(q & e & y & x & l & -> & Hq0 & Hq & <- & Hy & Hx & Ef & Hl & -> & Hd)];
      cbn [mbind res_bind Z.eqb]; [by split|].
    rewrite (proj2 (Z.eqb_neq q 0)) by done. rewrite (deref_Some _ _ _ Hq). cbn [mbind res_bind].
    unfold file_lseek. rewrite (deref_Some _ _ _ Hy). cbn [mbind res_bind].
    assert (Hw : ∀ o, 0 <= u64 o < 2 ^ 64) by (intros; apply (wrap_bounds 64); lia).
    destruct (origin =? SEEK_SET); [by split; [done|eapply seek_shows]|].
    destruct (origin =? SEEK_CUR); [by split; [done|eapply seek_shows]|].
    destruct (origin =? SEEK_END); [|by split]. unfold getSize. rewrite (deref_Some _ _ _ Hy). cbn [mbind res_bind].
    rewrite (deref_Some _ _ _ Hx). cbn [mbind res_bind].
    destruct (access_facts _ _ _ Hok _ y x l Hy Hx Hl Ef) as (-> & _). by split; [done|eapply seek_shows].
  - unfold close. destruct (row_cases _ _ _ _ Hrel fd) as [[-> ->]|(q & e & y & x & l & -> & Hq0 & Hq & <- & Hy & Hx & Ef & Hl & -> & Hd)];
      cbn [mbind res_bind Z.eqb]; [by split|]. rewrite (proj2 (Z.eqb_neq q 0)) by done.
    rewrite (deref_Some _ _ _ Hq). cbn [mbind res_bind]. rewrite (deref_Some _ _ _ Hy). cbn [mbind res_bind].
    rewrite (deref_Some _ _ _ Hx). cbn [mbind res_bind].
    destruct (t_inode _ _ _ (proj1 Hok) _ _ Hx) as (_ & -> & _). destruct Hok as (Ht & Hf & (s & Hs & Hr)).
    assert (Hok' : fs_ok h sb root) by (split_and!; [done|done|by exists s]).
    rewrite (removeFd_eq _ _ _ Hok' q e y x s Hq Hx Hs). cbn [mbind res_bind kassert Z.eqb].
    split; [done|]. by eapply closed_shows.
Qed.

(** A table shows at most one row for each number. *)
Definition row (fl : flat) (fd i flag o : Z) : Prop := fl_fds fl !! fd = Some (i, flag, o).

(** C10: reading, writing, seeking and closing through descriptors is working on
    a flat table.  From a well-formed heap whose open files the table shows, every
    sequence of these calls, on any numbers and with any arguments of their types
    (and buffers as long as they say), gives the same results as on the table,
    which has no descriptors, files or inodes as objects: every descriptor has its
    own offset, the bytes belong to the inode and are shared, the offset that the
    inode sees is taken modulo 2^32 while the file counts modulo 2^64, the size
    never changes and no call fails with an error or an undefined access. *)
Theorem descriptors_refine sb root h fl ops : shows sb root h fl → Forall file_args ops →
  run file_step h ops = run flat_step fl ops.
Proof.
  intros Hrel Hargs. apply (sim_run _ _ (shows sb root) file_args); [|done|done].
  intros s s' o Hs Ho. by apply file_step_shows.
Qed.

(** C22: what is written through one descriptor is read back through any other on
    the same file.  In a well-formed file system, a seek and a write through [fd]
    and then a seek to the same place and a read through [fd'] (which may be the
    same descriptor) answer the offset, the number of bytes, the offset and again
    the number of bytes together with the bytes that were written, if the flags
    allow the accesses and the bytes lie within the [BASIC_ALLOC] bytes of the
    file. *)
Theorem write_read_back sb root h fl fd fd' i flag flag' o1 o2 o buffer count :
  shows sb root h fl → row fl fd i flag o1 → row fl fd' i flag' o2 →
  has flag O_WRONLY || has flag O_RDWR = true → has flag' O_RDONLY || has flag' O_RDWR = true →
  0 <= o → 0 < count → o + count <= BASIC_ALLOC → count <= Z.of_nat (length buffer) →
  run file_step h [FLseek fd o SEEK_SET; FWrite fd buffer count; FLseek fd' o SEEK_SET; FRead fd' count] =
  Val [(o, []); (count, []); (o, []); (count, take (Z.to_nat count) buffer)].
Proof.
  intros Hrel Hfd Hfd' Hw Hr Ho Hc Hoc Hb. unfold row, BASIC_ALLOC in *.
  rewrite (sim_run file_step flat_step (shows sb root) file_args _ (file_step_shows sb root) h fl Hrel);
    [|repeat constructor; cbn; lia].
  assert (Hlen : ∃ l, fl_data fl !! i = Some l ∧ length l = 256%nat).
  { destruct Hrel as (Hok & Hv & Hd). apply Hv in Hfd as (q & e & y & Hq & _ & Hy & [= -> -> ->]).
    destruct Hok as (Ht & Hf & _). destruct (c_file _ _ Hf _ _ Hy) as (_ & _ & [x Hx] & _).
    destruct (c_inode _ _ Hf _ _ Hx) as (_ & Hin & _). assert (file_ e ∈ i_files_ x) as He by (apply Hin; eauto).
    destruct (t_inode _ _ _ Ht _ _ Hx) as (_ & _ & _ & _ & [[_ E]|[Ef (l & Hl & ?)]] & _); [rewrite E in He; by apply elem_of_nil in He|].
    exists l. rewrite (Hd _ _ Hx Ef). done. }
  destruct Hlen as (l & Hl & Hll).
  assert (Hreach : reach o count = count) by (unfold reach, BASIC_ALLOC; rewrite (wrap_small 32) by lia; lia).
  assert (Hu : u32 o = o) by (apply wrap_small; lia).
  cbn [run flat_step]. rewrite Hfd. cbn [Z.eqb SEEK_SET mbind res_bind seek fl_fds fl_data].
  rewrite lookup_insert_eq, (proj2 (Z.eqb_neq count 0)) by lia. rewrite Hw. cbn [mbind res_bind seek fl_fds fl_data].
  rewrite Hreach, Hl, Hu, insert_insert_eq. cbn [default id].
  assert (Hfd2 : ∃ o3, <[fd:=(i, flag, u64 (o + count))]> (fl_fds fl) !! fd' = Some (i, flag', o3)).
  { rewrite lookup_insert. destruct (decide (fd = fd')) as [<-|]; [|eauto]. rewrite Hfd in Hfd'. injection Hfd' as -> ->. eauto. }
  destruct Hfd2 as [o3 ->]. cbn [mbind res_bind seek fl_fds fl_data]. rewrite lookup_insert_eq, Hr.
  cbn [mbind res_bind]. rewrite Hreach, Hu, lookup_insert_eq. cbn [default id].
  pose proof (sub_patch_same l o (take (Z.to_nat count) buffer)) as E. rewrite length_take, Nat.min_l, Z2Nat.id in E by lia.
  by rewrite E by (unfold fits; lia).
Qed.

(** ** All calls together *)

Definition state : Type := heap * FileSystemInfo.

Inductive call :=
| Mkdir (p : list Z) | Rmdir (p : list Z) | Rm (p : list Z) | Chdir (p : list Z) | Readdir (p : list Z)
| Open (p : list Z) (flag : Z) | Flush (fd : Z) | GetFileSize (fd : Z) | File (op : file_op).

Definition exec (s : state) (c : call) : res (state * Z) :=
  let '(h, i) := s in
  match c with
  | Mkdir p => '(h, i, r) ← mkdir h i p; Val (h, i, r)
  | Rmdir p => '(h, i, r) ← rmdir h i p; Val (h, i, r)
  | Rm p => '(h, i, r) ← rm h i p; Val (h, i, r)
  | Chdir p => '(h, i, r) ← chdir h i p; Val (h, i, r)
  | Readdir p => '(i, l) ← readdir h i p; Val (h, i, 0)
  | Open p flag => '(h, i, r) ← open h i p flag; Val (h, i, r)
  | Flush fd => r ← flush h fd; Val (h, i, r)
  | GetFileSize fd => r ← getFileSize h fd; Val (h, i, r)
  | File op => '(h, (r, _)) ← file_step h op; Val (h, i, r)
  end.

(** Short paths, arguments of their types, a counter that has not reached its
    limit, and no removal of the root or of the working directory. *)
Definition allowed (s : state) (c : call) : Prop :=
  let '(h, i) := s in
  match c with
  | Mkdir p | Rm p | Chdir p | Readdir p => Z.of_nat (length p) < 2 ^ 31 - 3
  | Rmdir p => Z.of_nat (length p) < 2 ^ 31 - 3 ∧
      ∀ a m, walk h i (full_path p) = Val (0, a, m) → a ≠ root_ i ∧ a ≠ pwd_ i
  | Open p flag => Z.of_nat (length p) < 2 ^ 31 - 3 ∧ fd_num_ h + 1 < 2 ^ 31
  | Flush _ | GetFileSize _ => True
  | File op => file_args op
  end.

(** Before the boot. *)
Definition no_objects : heap := mkHeap ∅ ∅ ∅ ∅ ∅ ∅ [] [] 3 1.

(** After the boot with one of the file system types, and after each allowed
    call. *)
Inductive reachable (kind : fs_kind) : state → Prop :=
| reach_boot s : root_mount no_objects kind = Val s → reachable kind s
| reach_call s c s' r : reachable kind s → allowed s c → exec s c = Val (s', r) → reachable kind s'.

Definition state_ok (sb root : Z) (s : state) : Prop := fs_ok s.1 sb root ∧ mounts_ok s.1 root ∧ info_ok s.1 root s.2.

Lemma info_ok_pathname h root q i : info_ok h root i → info_ok h root (with_pathname q i).
Proof. by intros [? ? ?]. Qed.

(** A call that keeps the mounts and the working directory keeps the rest of
    [state_ok]. *)
Lemma state_ok_step sb root h i h' q : state_ok sb root (h, i) → fs_ok h' sb root → vfs_mounts h' = vfs_mounts h →
  mounts_ h' = mounts_ h → is_dir h' (pwd_ i) → state_ok sb root (h', with_pathname q i).
Proof.
  intros (_ & Hm & Hi) Hok Ev Em Hp. split_and!; [done| |].
  - intros m Hmn. cbn in *. rewrite Em in Hmn. rewrite Ev. by apply Hm.
  - destruct Hi as [? ? ?]. by split.
Qed.

Lemma same_pathname i : with_pathname (pathname_ i) i = i.
Proof. by destruct i. Qed.

(** Entries stay as they are when only open files and bytes change. *)
Lemma is_dir_like h h' i x x' a : inodes h !! i = Some x → like x x' → dentries h' = dentries h →
  inodes h' = <[i := x']> (inodes h) → is_dir h a → is_dir h' a.
Proof.
  intros Hi (_ & _ & Et & _) Ed Ei (d & z & Hd & Hz & Hdir). exists d. rewrite Ed, Ei, lookup_insert.
  destruct (decide (i = d_inode_ d)) as [->|]; [|by exists z]. rewrite Hi in Hz. injection Hz as ->.
  exists x'. by rewrite Et.
Qed.

Lemma is_dir_created h sb root p d name s type a : fs_ok h sb root → dentries h !! p = Some d →
  is_dir h a → is_dir (created h p d name sb s type) a.
Proof.
  intros (Ht & _) Hd (e & y & He & Hy & Hdir).
  destruct (created_dentry h sb root Ht p d name s type Hd _ _ He) as (e' & He' & Ei & _). exists e', y. rewrite Ei.
  split_and!; [done| |done]. by eapply created_inode.
Qed.

Lemma is_dir_removed h sb root a d x dp s b : fs_ok h sb root → dentries h !! a = Some d → a ≠ root →
  inodes h !! d_inode_ d = Some x → dentries h !! d_parent_ d = Some dp → b ≠ a → is_dir h b →
  is_dir (removed h a (d_parent_ d) dp (d_inode_ d) x sb s) b.
Proof.
  intros Hok Ha Har Hx Hdp Hb (e & y & He & Hy & Hdir). eexists _, y.
  split_and!; [by eapply removed_dentry| |done]. eapply removed_inode; [by case_decide|].
  assert (d_inode_ e ≠ d_inode_ d) by (eapply other_inode; [exact Hok|exact Ha|done|exact Hx|exact He|done]).
  by case_decide.
Qed.

(** The calls on descriptors. *)
Lemma like_files x l : i_type_ x = I_FILE → like x (with_i_files l x).
Proof. intros Hf. repeat split; try done; [by rewrite Hf|eauto]. Qed.

Section exec.
Context (sb root : Z) h i (Hs : state_ok sb root (h, i)).

(** A descriptor call changes at most one inode, alike, and nothing else that
    [state_ok] looks at. *)
Definition quiet h' : Prop := fs_ok h' sb root ∧ vfs_mounts h' = vfs_mounts h ∧ mounts_ h' = mounts_ h ∧
  ∀ a, is_dir h a → is_dir h' a.

Lemma quiet_ok h' q : quiet h' → state_ok sb root (h', with_pathname q i).
Proof.
  intros (? & ? & ? & Hd). eapply state_ok_step; try done. apply Hd. by destruct Hs as (_ & _ & [_ _ ?]).
Qed.

Lemma quiet_ok' h' : quiet h' → state_ok sb root (h', i).
Proof. intros Hq. rewrite <- (same_pathname i). by apply quiet_ok. Qed.

Lemma quiet_refl : quiet h.
Proof. destruct Hs as (Hok & _). by split_and!. Qed.

Lemma quiet_removes a d x h' : removable h sb root a d x → removes h sb a d x h' → a ≠ pwd_ i →
  ∀ q, state_ok sb root (h', with_pathname q i).
Proof.
  intros ((Ha & Hx & _) & Har & Hc & Hf) (dp & s & Hdp & Hsb & ->) Hp q. destruct Hs as (Hok & _ & [_ _ Hdir]).
  eapply state_ok_step; [exact Hs|eapply removed_ok; done|done|done|]. cbn [snd] in Hdir.
  by eapply is_dir_removed.
Qed.

Lemma quiet_opens p flag h' : fd_num_ h + 1 < 2 ^ 31 → opens h sb i p flag h' → quiet h'.
Proof.
  intros Hn Hop. destruct Hs as (Hok & _). pose proof (opens_ok _ _ _ Hok _ _ _ _ Hn Hop) as Hok'. 
  destruct Hop as (_ & s & [(a & d & x & _ & (Ha & Hx & _) & Hf & _ & ->)|(parent & name & a & d & x & s0 & _ & (_ & _ & _ & _ & (Ha & _) & _) & _ & _ & ->)]).
  - split_and!; [done|done|done|]. intros b Hb. eapply (is_dir_like h); [exact Hx| |done|reflexivity|done].
    by apply like_files.
  - split_and!; [done|done|done|]. intros b Hb.
    eapply (is_dir_like (created h a d name sb s0 I_FILE)); [apply lookup_insert_eq| |done|reflexivity|by eapply is_dir_created].
    by apply like_files.
Qed.

Lemma moved_quiet f y x l l' o : files h !! f = Some y → inodes h !! f_inode_ y = Some x → data_ x = Some l →
  length l' = length l → 0 <= o < 2 ^ 64 → quiet (moved h (f_inode_ y) x (Some l') f y o).
Proof.
  intros Hy Hx Hl Hl' Ho. destruct Hs as (Hok & _). split_and!; [by eapply moved_ok|done|done|].
  intros a Ha. eapply (is_dir_like h); [exact Hx| |done|reflexivity|done]. repeat split. intros k. rewrite Hl.
  intros [= <-]. by exists l'.
Qed.

Lemma put_file_quiet f y x l o : files h !! f = Some y → inodes h !! f_inode_ y = Some x → data_ x = Some l →
  0 <= o < 2 ^ 64 → quiet (put_file f (with_offset o y) h).
Proof. intros Hy Hx Hl Ho. rewrite (put_file_moved _ _ _ _ _ _ Hx Hl). by eapply moved_quiet. Qed.

Lemma u64_bounds o : 0 <= u64 o < 2 ^ 64.
Proof. apply (wrap_bounds 64). lia. Qed.

(** The calls on descriptors always answer. *)
Lemma file_step_quiet op : file_args op → ∃ h' r, file_step h op = Val (h', r) ∧ quiet h'.
Proof.
  intros Hargs. destruct Hs as (Hok & _). cbn [fst] in Hok. pose proof quiet_refl as Hsame. pose proof u64_bounds as Hu.
  destruct op as [fd count|fd buffer count|fd offset origin|fd]; cbn [file_step file_args] in *.
  - unfold read. destruct (getFileDescriptor_spec _ _ _ Hok fd) as [[-> _]|(q & e & y & x & -> & Hq0 & Hq & _ & Hy & Hx & Ef & _ & (l & Hl & _))];
      cbn [mbind res_bind Z.eqb]; [eauto|].
    rewrite (proj2 (Z.eqb_neq q 0)) by done. destruct (count =? 0); cbn [mbind res_bind]; [eauto|].
    rewrite (deref_Some _ _ _ Hq). cbn [mbind res_bind]. rewrite (deref_Some _ _ _ Hy). cbn [mbind res_bind].
    destruct (negb _); cbn [mbind res_bind]; [eauto|].
    rewrite (file_read_reads _ _ _ Hok _ y x l count Hy Hx Hl Hargs Ef).
    destruct (_ || _); cbn [mbind res_bind]; [|eauto]. do 2 eexists. split; [reflexivity|]. by eapply put_file_quiet.
  - unfold write. destruct (getFileDescriptor_spec _ _ _ Hok fd) as [[-> _]|(q & e & y & x & -> & Hq0 & Hq & _ & Hy & Hx & Ef & _ & (l & Hl & _))];
      cbn [mbind res_bind Z.eqb]; [eauto|]. destruct Hargs as [Hc Hb].
    rewrite (proj2 (Z.eqb_neq q 0)) by done. destruct (count =? 0); cbn [mbind res_bind]; [eauto|].
    rewrite (deref_Some _ _ _ Hq). cbn [mbind res_bind]. rewrite (deref_Some _ _ _ Hy). cbn [mbind res_bind].
    destruct (negb _); cbn [mbind res_bind]; [eauto|].
    rewrite (file_write_writes _ _ _ Hok _ y x l count Hy Hx Hl Hc Ef buffer Hb).
    destruct (_ || _); cbn [mbind res_bind]; [|eauto]. do 2 eexists. split; [reflexivity|].
    eapply moved_quiet; try done. by apply (patched_length _ _ _ Hok _ y x l count Hy Hx Hl Hc Ef buffer Hb).
  - unfold lseek. destruct (getFileDescriptor_spec _ _ _ Hok fd) as [[-> _]|(q & e & y & x & -> & Hq0 & Hq & _ & Hy & Hx & Ef & _ & (l & Hl & _))];
      cbn [mbind res_bind Z.eqb]; [eauto|].
    rewrite (proj2 (Z.eqb_neq q 0)) by done. rewrite (deref_Some _ _ _ Hq). cbn [mbind res_bind].
    unfold file_lseek. rewrite (deref_Some _ _ _ Hy). cbn [mbind res_bind].
    destruct (origin =? SEEK_SET); [do 2 eexists; split; [reflexivity|by eapply put_file_quiet]|].
    destruct (origin =? SEEK_CUR); [do 2 eexists; split; [reflexivity|by eapply put_file_quiet]|].
    destruct (origin =? SEEK_END); [|cbn [mbind res_bind]; eauto]. unfold getSize.
    rewrite (deref_Some _ _ _ Hy). cbn [mbind res_bind]. rewrite (deref_Some _ _ _ Hx). cbn [mbind res_bind].
    do 2 eexists; split; [reflexivity|by eapply put_file_quiet].
  - destruct (close_cases _ _ _ Hok fd) as [[-> _]|(q & e & y & x & s & Hq & _ & Hy & Hx & Hsb & ->)]; cbn [mbind res_bind]; [eauto|].
    do 2 eexists. split; [reflexivity|]. split_and!; [by eapply closed_ok|done|done|]. intros a Ha.
    eapply (is_dir_like h); [exact Hx| |done|reflexivity|done]. 
    destruct (t_inode _ _ _ (proj1 Hok) _ _ Hx) as (_ & _ & _ & _ & Hk & _). repeat split; [|eauto].
    intros Ed. destruct Hk as [[_ ->]|[E _]]; [done|by rewrite Ed in E].
Qed.

Lemma flush_val fd : ∃ r, flush h fd = Val r.
Proof.
  destruct Hs as (Hok & _). cbn [fst] in Hok. unfold flush. destruct (getFileDescriptor_spec _ _ _ Hok fd) as [[-> _]|(q & e & y & x & -> & Hq0 & _)];
    cbn [mbind res_bind]; [eauto|]. destruct (q =? 0); eauto.
Qed.

Lemma getFileSize_val fd : ∃ r, getFileSize h fd = Val r.
Proof.
  destruct Hs as (Hok & _). cbn [fst] in Hok. unfold getFileSize.
  destruct (getFileDescriptor_spec _ _ _ Hok fd) as [[-> _]|(q & e & y & x & -> & Hq0 & Hq & _ & Hy & Hx & _)];
    cbn [mbind res_bind]; [eauto|]. destruct (q =? 0); [eauto|]. rewrite (deref_Some _ _ _ Hq). cbn [mbind res_bind].
  unfold getSize. rewrite (deref_Some _ _ _ Hy). cbn [mbind res_bind]. rewrite (deref_Some _ _ _ Hx). cbn [mbind res_bind]. eauto.
Qed.

Lemma list_children_val l : (∀ c, c ∈ l → is_Some (dentries h !! c)) → ∃ r, list_children h l = Val r.
Proof.
  destruct Hs as (Hok & _). cbn [fst] in Hok. induction l as [|c l IH]; intros Hl; cbn [list_children]; [eauto|].
  destruct (live_found _ _ _ Hok c) as (d & x & Hd & Hx & _); [apply Hl; by left|].
  rewrite (deref_Some _ _ _ Hd). cbn [mbind res_bind]. rewrite (deref_Some _ _ _ Hx). cbn [mbind res_bind].
  destruct IH as [r ->]; [intros; apply Hl; by right|]. cbn [mbind res_bind]. eauto.
Qed.

Lemma readdir_val p : Z.of_nat (length p) < 2 ^ 31 - 3 → ∃ q l, readdir h i p = Val (with_pathname q i, l).
Proof.
  intros Hl. destruct Hs as (Hok & Hm & Hi). cbn [fst snd] in *. unfold readdir.
  destruct (dup_cases _ _ _ Hok Hm _ Hi p Hl) as [(a & d & x & -> & Hw & (Hd & Hx & _))|(b & -> & Hb)];
    cbn [mbind res_bind Z.eqb PW_ENOTFOUND]; [|eauto]. cbn [pathname_ with_pathname]. rewrite walk_pathname, Hw.
  cbn [mbind res_bind Z.eqb negb]. rewrite (deref_Some _ _ _ Hd). cbn [mbind res_bind].
  rewrite (deref_Some _ _ _ Hx). cbn [mbind res_bind]. destruct (negb _); [eauto|].
  destruct (list_children_val (d_child_ d)) as [r ->]; [|cbn [mbind res_bind]; eauto].
  intros c Hc. destruct (child_live _ _ _ (proj1 Hok) _ _ _ Hd Hc) as (_ & _ & e & He & _). by exists e.
Qed.

(** Every allowed call answers and keeps the state well formed. *)
Lemma exec_ok c : allowed (h, i) c → ∃ s' r, exec (h, i) c = Val (s', r) ∧ state_ok sb root s'.
Proof.
  pose proof Hs as (Hok & Hm & Hi). cbn [fst snd] in *. pose proof (λ q, quiet_ok h q quiet_refl) as Hsame.
  destruct c as [p|p|p|p|p|p flag|fd|fd|op]; cbn [allowed exec]; intros Hc.
  - destruct (mkdir_cases _ _ _ Hok Hm _ Hi p Hc) as [(q & ->)|(parent & name & a & d & x & s & (_ & _ & _ & _ & (Ha & Hx & _) & Hd) & Hsb & ->)];
      cbn [mbind res_bind]; do 2 eexists; (split; [reflexivity|]); [apply Hsame|].
    apply quiet_ok. split_and!; [by eapply created_ok; eauto|done|done|]. intros b Hb. by eapply is_dir_created.
  - destruct Hc as [Hc Hn].
    destruct (rmdir_cases _ _ _ Hok Hm _ Hi p Hc) as [->|(a & d & x & h' & Hw & Hr & _ & Hrm & ->)].
    + intros a Hw. apply Hn in Hw as [Hw _]. by destruct Hi as [<- _ _].
    + cbn [mbind res_bind]. do 2 eexists. split; [reflexivity|]. apply Hsame.
    + cbn [mbind res_bind]. do 2 eexists. split; [reflexivity|]. eapply quiet_removes; try done. by eapply Hn.
  - destruct (rm_cases _ _ _ Hok Hm _ Hi p Hc) as [[-> _]|(a & d & x & h' & Hw & Hr & Hf & Hrm & ->)];
      cbn [mbind res_bind]; do 2 eexists; (split; [reflexivity|]); [apply Hsame|].
    eapply quiet_removes; try done. intros ->. destruct Hi as [_ _ (d' & x' & Hd' & Hx' & E)].
    destruct Hr as ((Hd & Hx & _) & _). rewrite Hd in Hd'. injection Hd' as <-. rewrite Hx in Hx'. injection Hx' as <-.
    by rewrite Hf in E.
  - destruct (chdir_cases _ _ _ Hok Hm _ Hi p Hc) as [(q & ->)|(a & d & x & (Hd & Hx & _) & Hdir & _ & ->)];
      cbn [mbind res_bind]; do 2 eexists; (split; [reflexivity|]); [apply Hsame|].
    split_and!; [done|done|]. destruct Hi as [? [? ?] ?]. split; [done|done|]. by exists d, x.
  - destruct (readdir_val p Hc) as (q & l & ->). cbn [mbind res_bind]. do 2 eexists. split; [reflexivity|]. apply Hsame.
  - destruct Hc as [Hp Hn]. destruct (open_cases _ _ _ Hok Hm _ Hi p flag Hp Hn) as [(q & ->)|(q & h' & Hop & ->)];
      cbn [mbind res_bind]; do 2 eexists; (split; [reflexivity|]); [apply Hsame|].
    apply quiet_ok. by eapply quiet_opens.
  - destruct (flush_val fd) as [r ->]. cbn [mbind res_bind]. do 2 eexists. split; [reflexivity|]. exact Hs.
  - destruct (getFileSize_val fd) as [r ->]. cbn [mbind res_bind]. do 2 eexists. split; [reflexivity|]. exact Hs.
  - destruct (file_step_quiet op Hc) as (h' & [r l] & -> & Hq). cbn [mbind res_bind]. do 2 eexists. split; [reflexivity|].
    by apply quiet_ok'.
Qed.
End exec.

(** ** The boot *)

Definition new_dir (a sb : Z) : Inode := fresh_inode a I_DIR sb.

(** What [root_mount] makes: superblock 1, root 2 with inode 3 and for the device
    file system the directory "dev" 4 with inode 5. *)
Definition booted (kind : fs_kind) : state :=
  match kind with
  | RamFS =>
      (mkHeap (<[2 := mkDentry 3 2 [] 2 ROOT_NAME]> ∅) (<[3 := new_dir 2 1]> ∅) ∅ ∅
         (<[1 := mkSuper RamFS 2 2 [] [3] []]> ∅) (<[4 := mkMount 0 2 2 1]> ∅) [4] [] 3 5, mkInfo 2 4 2 4 [])
  | DeviceFS =>
      (mkHeap (<[2 := mkDentry 3 2 [4] 2 ROOT_NAME]> (<[4 := mkDentry 5 2 [] 0 DEVICE_ROOT_NAME]> ∅))
         (<[3 := new_dir 2 1]> (<[5 := new_dir 4 1]> ∅)) ∅ ∅
         (<[1 := mkSuper DeviceFS 2 2 [] [3; 5] []]> ∅) (<[6 := mkMount 0 2 2 1]> ∅) [6] [] 3 7, mkInfo 2 6 2 6 [])
  end.

Lemma root_mount_booted kind : root_mount no_objects kind = Val (booted kind).
Proof. by destruct kind. Qed.

Lemma booted_tree kind : tree_ok (booted kind).1 1 2.
Proof.
  destruct kind; split.
  - cbn. intros a d Ha. look. split_and!; try done; [by exists (new_dir 2 1)|apply NoDup_nil_2|by intros c ?%elem_of_nil].
  - cbn. intros i x Hx. look. split_and!; try done; [by left|]. intros _. by eexists.
  - cbn. by do 2 eexists.
  - cbn. intros a d Ha. look.
    + split_and!; try done; [by exists (new_dir 2 1)|apply NoDup_singleton|].
      intros c ->%list_elem_of_singleton. split; [done|]. by eexists.
    + split_and!; try done; [by exists (new_dir 4 1)|apply NoDup_nil_2|by intros c ?%elem_of_nil|].
      intros _. split; [done|]. eexists. split; [done|]. by left.
  - cbn. intros i x Hx. look; (split_and!; try done; [by left|]; intros _; by eexists).
  - cbn. by do 2 eexists.
Qed.

Lemma booted_files kind : files_ok (booted kind).1 1.
Proof.
  destruct kind; split; cbn; try done; try (split; [apply NoDup_nil_2|]; intros p; by split; [intros ?%elem_of_nil|intros [??]]);
    intros i x Hx; look; (split_and!; [apply NoDup_nil_2| |done]; intros f; split; [by intros ?%elem_of_nil|by intros (? & ? & _)]).
Qed.

Lemma booted_super kind : super_ok (booted kind).1 1.
Proof.
  destruct kind; (eexists; split_and!; [reflexivity|done|done| | |apply NoDup_nil_2|]); cbn.
  - apply NoDup_singleton.
  - intros i. rewrite list_elem_of_singleton. split; [intros ->; by eexists|]. intros (x & Hx & _). by look.
  - intros i. split; [by intros ?%elem_of_nil|]. intros (x & Hx & Hf). by look.
  - apply NoDup_cons. split; [|apply NoDup_singleton]. by rewrite list_elem_of_singleton.
  - intros i. rewrite elem_of_cons, list_elem_of_singleton. split; [intros [->| ->]; by eexists|].
    intros (x & Hx & _). look; auto.
  - intros i. split; [by intros ?%elem_of_nil|]. intros (x & Hx & Hf). by look.
Qed.

Lemma booted_ok kind : state_ok 1 2 (booted kind).
Proof.
  split_and!; [split_and!; [apply booted_tree|apply booted_files|apply booted_super]| |].
  - destruct kind; intros m ->%list_elem_of_singleton; by eexists.
  - destruct kind; (split; [done|done|]); eexists _, (new_dir 2 1); by repeat split.
Qed.

Lemma calls_reachable_ok kind s : reachable kind s → state_ok 1 2 s.
Proof.
  induction 1 as [s Hb|[h i] c s' r _ IH Ha He].
  - rewrite root_mount_booted in Hb. injection Hb as <-. apply booted_ok.
  - destruct (exec_ok _ _ _ _ IH c Ha) as (s1 & r1 & E & Hok). rewrite He in E. by injection E as <- _.
Qed.

(** Any [rmdir] but that of the root answers and leaves the file system
    consistent. *)
Lemma rmdir_ok sb root h i p : state_ok sb root (h, i) → Z.of_nat (length p) < 2 ^ 31 - 3 →
  (∀ a m, walk h i (full_path p) = Val (0, a, m) → a ≠ root_ i) →
  ∃ s r, exec (h, i) (Rmdir p) = Val (s, r) ∧ fs_ok s.1 sb root.
Proof.
  intros (Hok & Hm & Hi) Hl Hn. cbn [fst snd exec] in *.
  destruct (rmdir_cases _ _ _ Hok Hm _ Hi p Hl) as [->|(a & d & x & h' & Hw & ((Ha & Hx & _) & Har & Hc & Hf) & _ & (dp & s & Hdp & Hsb & ->) & ->)].
  - intros a Hw. apply Hn in Hw. by destruct Hi as [<- _ _].
  - cbn [mbind res_bind]. eauto.
  - cbn [mbind res_bind]. do 2 eexists. split; [reflexivity|]. by eapply removed_ok.
Qed.

(** C1: the file system calls are safe.  In every state that is reached from the
    boot, on either of the two file systems in memory, by calls with any short
    paths, descriptor numbers, flags and buffers, other than the removal of the root
    or of the working directory, each such call again answers: no null pointer is
    followed, no object is used after its deletion, no buffer or file is left and no
    assertion fails.  The removal of the working directory, which the code does not
    refuse, answers too and leaves the directories and files consistent; but then
    the calls that start in the working directory follow a dangling pointer
    ([rmdir_cwd_dangles]).  In every such state the directory entries form a tree
    (the parents of every entry lead to the root), entries and inodes point to each
    other, every open file belongs to one descriptor and one inode, and the lists of
    the superblock are exactly the inodes in use, the open inodes and the open
    descriptors. *)
Theorem vfs_calls_safe kind h i : reachable kind (h, i) →
  (fs_ok h 1 2 ∧ ∀ P : Z → Prop, P 2 → (∀ a d, dentries h !! a = Some d → P (d_parent_ d) → P a) →
     ∀ a, is_Some (dentries h !! a) → P a) ∧
  (∀ c, allowed (h, i) c → ∃ s r, exec (h, i) c = Val (s, r) ∧ reachable kind s) ∧
  ∀ p, Z.of_nat (length p) < 2 ^ 31 - 3 → (∀ a m, walk h i (full_path p) = Val (0, a, m) → a ≠ root_ i) →
    ∃ s r, exec (h, i) (Rmdir p) = Val (s, r) ∧ fs_ok s.1 1 2.
Proof.
  intros Hr. pose proof (calls_reachable_ok _ _ Hr) as Hok.
  split; [split; [by destruct Hok|]|split; [|intros p; by apply rmdir_ok]].
  - intros P HP Hstep. destruct Hok as ((Ht & _) & _). apply (reaches_root _ _ _ Ht); eauto.
  - intros c Hc. destruct (exec_ok _ _ _ _ Hok c Hc) as (s & r & E & _). exists s, r. split; [done|]. by eapply reach_call.
Qed.

Lemma vfs_calls_safe_witness : ∃ s r, exec (booted DeviceFS) (Mkdir [117]) = Val (s, r) ∧ reachable DeviceFS s.
Proof.
  apply (vfs_calls_safe DeviceFS (booted DeviceFS).1 (booted DeviceFS).2).
  - apply reach_boot. apply root_mount_booted.
  - done.
Defined.

(** ** Creation and removal by path *)

(** [c] is an entry of the directory [a] with a name. *)
Definition entry h (a : Z) (name : list Z) (c : Z) : Prop :=
  ∃ d e, dentries h !! a = Some d ∧ c ∈ d_child_ d ∧ dentries h !! c = Some e ∧ d_name_ e = name.

Lemma removed_entries h sb root a d x dp s : fs_ok h sb root → removable h sb root a d x →
  dentries h !! d_parent_ d = Some dp → ∀ b n k,
  entry (removed h a (d_parent_ d) dp (d_inode_ d) x sb s) b n k ↔ entry h b n k ∧ k ≠ a.
Proof.
  intros Hok ((Ha & Hx & _) & Har & Hc & _) Hdp b n k. unfold entry. split.
  - intros (e' & g' & He' & Hk & Hg' & <-).
    destruct (removed_dentry_inv _ _ _ _ _ _ _ Hdp _ _ He') as (Hb & e & He & ->).
    destruct (removed_dentry_inv _ _ _ _ _ _ _ Hdp _ _ Hg') as (Hka & g & Hg & ->).
    rewrite (strip_child _ _ _ Hok _ _ Ha _ _ _ He) in Hk. split; [|done]. exists e, g.
    split_and!; [done|by destruct Hk|done|by case_decide].
  - intros ((e & g & He & Hk & Hg & <-) & Hka).
    assert (b ≠ a) as Hb by (intros ->; rewrite Ha in He; injection He as <-; rewrite Hc in Hk; by apply elem_of_nil in Hk).
    eexists _, _. split_and!; [by eapply removed_dentry| |by eapply removed_dentry|by case_decide].
    by rewrite (strip_child _ _ _ Hok _ _ Ha _ _ _ He).
Qed.

(** [rm] removes exactly the file it is asked to remove.  In a well-formed
    state it answers -1 and changes no object if the path leads nowhere, to a
    directory or to a file that is open, and 0 otherwise; then the entry that the
    path led to is gone, every other entry of every directory is as before, and
    no open file or descriptor has changed. *)
Theorem rm_spec sb root h i p : state_ok sb root (h, i) → Z.of_nat (length p) < 2 ^ 31 - 3 →
  ∃ h' q r, rm h i p = Val (h', with_pathname q i, r) ∧
    ((r = -1 ∧ h' = h ∧ ∀ a d x, walk h i (full_path p) = Val (0, a, root_mnt_ i) → found h sb a d x →
        i_type_ x = I_DIR ∨ i_files_ x ≠ []) ∨
     (r = 0 ∧ ∃ a d x, walk h i (full_path p) = Val (0, a, root_mnt_ i) ∧ found h sb a d x ∧
        i_type_ x = I_FILE ∧ i_files_ x = [] ∧ dentries h' !! a = None ∧
        (∀ b n k, entry h' b n k ↔ entry h b n k ∧ k ≠ a) ∧
        files h' = files h ∧ descriptors h' = descriptors h ∧ global_fd h' = global_fd h)).
Proof.
  intros (Hok & Hm & Hi) Hp.
  destruct (rm_cases _ _ _ Hok Hm _ Hi p Hp) as [[E Hno]|(a & d & x & h' & Hw & Hr & Hf & (dp & s & Hdp & Hs & ->) & E)].
  - exists h, (full_path p), (-1). split; [done|]. left. done.
  - eexists _, _, 0. split; [exact E|]. right. split; [done|]. exists a, d, x. pose proof Hr as (Hfd & _ & _ & Hc).
    split_and!; try done; [cbn; by rewrite lookup_delete_eq|by eapply removed_entries].
Qed.

(** *** What a walk finds after a creation *)

Section created_walk.
Context (sb root : Z) h i (Hs : state_ok sb root (h, i)).
Context (p : Z) (d : Dentry) (x : Inode) (name : list Z) (s : Superblock) (type : Z).
Context (Hd : dentries h !! p = Some d) (Hx : inodes h !! d_inode_ d = Some x) (Hdir : i_type_ x = I_DIR).
Context (Htype : type = I_DIR ∨ type = I_FILE) (Hsb : superblocks h !! sb = Some s).

Let h' := created h p d name sb s type.

Lemma created_old a e : dentries h !! a = Some e →
  ∃ e', dentries h' !! a = Some e' ∧ d_inode_ e' = d_inode_ e ∧ d_parent_ e' = d_parent_ e ∧
    d_name_ e' = d_name_ e ∧ d_child_ e' = (if decide (a = p) then d_child_ e ++ [next h] else d_child_ e).
Proof. exact (created_dentry h sb root (proj1 (proj1 Hs)) p d name s type Hd a e). Qed.

Lemma created_state : state_ok sb root (h', i).
Proof.
  rewrite <- (same_pathname i). destruct Hs as (Hok & _ & [_ _ Hpwd]). eapply state_ok_step; [exact Hs|by eapply created_ok|done|done|].
  by eapply is_dir_created.
Qed.

Lemma check_children_created l n : (∀ c, c ∈ l → is_Some (dentries h !! c)) → ∀ l' c,
  check_children h l n = Val c → c ≠ 0 → check_children h' (l ++ l') n = Val c.
Proof.
  intros Hl l' c. induction l as [|b l IH]; cbn [check_children app]; [by intros [= <-]|].
  destruct (Hl b ltac:(by left)) as [e He]. rewrite (deref_Some _ _ _ He). cbn [mbind res_bind].
  destruct (created_old _ _ He) as (e' & He' & _ & _ & En & _).
  rewrite (deref_Some _ _ _ He'). cbn [mbind res_bind]. rewrite En. destruct (bool_decide _); [done|].
  apply IH. intros. apply Hl. by right.
Qed.

Lemma check_children_new l : (∀ c, c ∈ l → ∃ e, dentries h !! c = Some e ∧ d_name_ e ≠ name) →
  check_children h' (l ++ [next h]) name = Val (next h).
Proof.
  induction l as [|b l IH]; cbn [check_children app]; intros Hl.
  - unfold h', created. cbn [dentries]. rewrite deref_insert. cbn. by rewrite bool_decide_true.
  - destruct (Hl b ltac:(by left)) as (e & He & Hne).
    destruct (created_old _ _ He) as (e' & He' & _ & _ & En & _).
    rewrite (deref_Some _ _ _ He'). cbn [mbind res_bind]. rewrite En, bool_decide_false by done. apply IH. intros. apply Hl. by right.
Qed.

(** [follow_norm] by the result of [lookup]. *)
Lemma follow_norm_val k sb' root' a e m n c : tree_ok k sb' root' → mounts_ok k root' → dentries k !! a = Some e →
  RamFs.lookup k (d_inode_ e) n = Val c → c = 0 ∨ c ∈ d_child_ e →
  follow_norm RamFs.lookup k a m n = Val (if c =? 0 then None else Some (c, m)).
Proof.
  intros Ht Hm Ha Hl Hc. unfold follow_norm. rewrite (deref_Some _ _ _ Ha). cbn [mbind res_bind]. rewrite Hl.
  cbn [mbind res_bind]. destruct (Z.eqb_spec c 0) as [|Hn]; [done|]. destruct Hc as [|Hc]; [done|].
  destruct (child_live _ _ _ Ht _ _ _ Ha Hc) as (Hcr & _). unfold getVfsMount. rewrite (proj2 (Z.eqb_neq c 0)) by done.
  cbn [negb kassert mbind res_bind]. by rewrite (find_mount_none k root' (mounts_ k) c).
Qed.

Lemma lookup_children k sb' root' a e y n : tree_ok k sb' root' → dentries k !! a = Some e →
  inodes k !! d_inode_ e = Some y →
  RamFs.lookup k (d_inode_ e) n = if i_type_ y =? I_DIR then check_children k (d_child_ e) n else Val 0.
Proof.
  intros Ht Ha Hy. destruct (inode_of _ _ _ Ht _ _ Ha) as (y' & Hy' & Ey & _). rewrite Hy in Hy'. injection Hy' as <-.
  unfold RamFs.lookup. rewrite (deref_Some _ _ _ Hy). cbn [mbind res_bind]. destruct (_ =? _); [|done].
  rewrite Ey. unfold checkName. by rewrite (deref_Some _ _ _ Ha).
Qed.

Lemma follow_norm_created a m n r : is_Some (dentries h !! a) →
  follow_norm RamFs.lookup h a m n = Val (Some r) → follow_norm RamFs.lookup h' a m n = Val (Some r) ∧ is_Some (dentries h !! r.1).
Proof.
  intros [e He]. pose proof Hs as ((Ht & _) & Hm & _). cbn [fst] in *. pose proof created_state as ((Ht' & _) & Hm' & _). cbn [fst] in *.
  destruct (t_node _ _ _ Ht _ _ He) as (_ & (y & Hy & _) & _ & Hch & _).
  destruct (created_old _ _ He) as (e' & He' & Ei & _ & _ & Ec).
  assert (Hy' : inodes h' !! d_inode_ e' = Some y) by (rewrite Ei; by eapply (created_inode h sb root)).
  destruct (lookup_spec _ _ _ Ht _ _ n He) as (c & Hl & Hc).
  rewrite (follow_norm_val _ _ _ _ _ m n c Ht Hm He Hl) by (destruct Hc as [[? _]|[? _]]; auto).
  destruct (Z.eqb_spec c 0) as [|Hn]; [done|]. intros [= <-]. destruct Hc as [[? _]|[Hc (ce & Hce & _)]]; [done|]. split; [|by exists ce].
  rewrite (lookup_children _ _ _ _ _ _ _ Ht He Hy) in Hl. destruct (Z.eqb_spec (i_type_ y) I_DIR) as [Ed|]; [|congruence].
  assert (Hl' : RamFs.lookup h' (d_inode_ e') n = Val c).
  { rewrite (lookup_children _ _ _ _ _ _ _ Ht' He' Hy'), Ed. cbn [Z.eqb I_DIR Pos.eqb].
    assert (∃ l', d_child_ e' = d_child_ e ++ l') as [l' ->] by (rewrite Ec; case_decide; [eauto|exists []; by rewrite app_nil_r]).
    apply check_children_created; [|done..]. intros b (_ & be & Hbe & _)%Hch. by exists be. }
  rewrite (follow_norm_val _ _ _ _ _ m n c Ht' Hm' He' Hl').
  - by rewrite (proj2 (Z.eqb_neq c 0)).
  - right. rewrite Ec. case_decide; [apply elem_of_app; by left|done].
Qed.

Lemma follow_created ps : ∀ a m b m', is_Some (dentries h !! a) →
  follow RamFs.lookup h i ps a m = Val (0, b, m') → follow RamFs.lookup h' i ps a m = Val (0, b, m') ∧ is_Some (dentries h !! b).
Proof.
  pose proof Hs as ((Ht & _) & Hm & _). cbn [fst] in *. pose proof created_state as ((Ht' & _) & _). cbn [fst] in *.
  induction ps as [|[[| |n] k] ps IH]; intros a m b m' Ha; cbn [follow].
  - by intros [= <- <-].
  - by apply IH.
  - destruct Ha as [e He]. destruct (created_old _ _ He) as (e' & He' & _ & Ep & _).
    rewrite (follow_dotdot_spec _ _ _ Ht i _ _ m He), (follow_dotdot_spec _ _ _ Ht' i _ _ m He'). cbn [mbind res_bind].
    rewrite Ep. apply IH. destruct (_ && _); [by exists e|by eapply parent_live].
  - destruct (follow_norm RamFs.lookup h a m n) as [[[c mc]|]|] eqn:E; cbn [mbind res_bind]; [|done..].
    destruct (follow_norm_created _ _ _ _ Ha E) as [-> Hc]. by apply IH.
Qed.

Lemma follow_norm_new m : (∀ c e, c ∈ d_child_ d → dentries h !! c = Some e → d_name_ e ≠ name) →
  follow_norm RamFs.lookup h' p m name = Val (Some (next h, m)).
Proof.
  intros Hno. pose proof Hs as ((Ht & _) & Hm & _). cbn [fst] in *. pose proof created_state as ((Ht' & _) & Hm' & _). cbn [fst] in *.
  destruct (created_old _ _ Hd) as (d' & Hd' & Ei & _ & _ & Ec). rewrite decide_True in Ec by done.
  assert (Hx' : inodes h' !! d_inode_ d' = Some x) by (rewrite Ei; by eapply (created_inode h sb root)).
  destruct (t_node _ _ _ Ht _ _ Hd) as (_ & _ & _ & Hch & _). pose proof (dentry_live _ _ _ Ht _ _ Hd).
  rewrite (follow_norm_val _ _ _ _ _ m name (next h) Ht' Hm' Hd').
  - by rewrite (proj2 (Z.eqb_neq (next h) 0)) by lia.
  - rewrite (lookup_children _ _ _ _ _ _ _ Ht' Hd' Hx'), Hdir, Ec. cbn [Z.eqb I_DIR Pos.eqb].
    apply check_children_new. intros c Hc. destruct (Hch _ Hc) as (_ & e & He & _). eauto.
  - right. rewrite Ec. apply elem_of_app. right. by left.
Qed.

Lemma created_entries b n k : entry h' b n k ↔ entry h b n k ∨ b = p ∧ n = name ∧ k = next h.
Proof.
  pose proof Hs as ((Ht & _) & _). cbn [fst] in *. unfold entry. split.
  - intros (e' & g' & He' & Hk & Hg' & <-).
    destruct (created_dentry_inv _ _ _ _ _ _ _ Hd _ _ He') as [[-> ->]|[e He]]; [by apply elem_of_nil in Hk|].
    destruct (created_old _ _ He) as (e1 & He1 & _ & _ & _ & Ec).
    rewrite He' in He1. injection He1 as <-.
    assert (k ∈ d_child_ e ∨ b = p ∧ k = next h) as [Hk'|[-> ->]].
    { rewrite Ec in Hk. case_decide; [|by left]. apply elem_of_app in Hk as [|Hk%list_elem_of_singleton]; auto. }
    + left. destruct (t_node _ _ _ Ht _ _ He) as (_ & _ & _ & Hch & _). destruct (Hch _ Hk') as (_ & g & Hg & _).
      destruct (created_old _ _ Hg) as (g1 & Hg1 & _ & _ & En & _).
      rewrite Hg' in Hg1. injection Hg1 as <-. exists e, g. by rewrite En.
    + right. split_and!; [done| |done]. unfold h', created in Hg'. cbn [dentries] in Hg'. rewrite lookup_insert_eq in Hg'.
      by injection Hg' as <-.
  - intros [(e & g & He & Hk & Hg & <-)|(-> & -> & ->)].
    + destruct (created_old _ _ He) as (e1 & He1 & _ & _ & _ & Ec).
      destruct (created_old _ _ Hg) as (g1 & Hg1 & _ & _ & En & _).
      exists e1, g1. split_and!; [done| |done|done]. rewrite Ec. case_decide; [apply elem_of_app; by left|done].
    + destruct (created_old _ _ Hd) as (e1 & He1 & _ & _ & _ & Ec).
      rewrite decide_True in Ec by done. eexists e1, _. split_and!; [done| |apply lookup_insert_eq|done].
      rewrite Ec. apply elem_of_app. right. by left.
Qed.
End created_walk.

(** *** Paths of a new entry *)

Lemma spell_app ps qs : spell (ps ++ qs) = spell ps ++ spell qs.
Proof. induction ps as [|[q n] ps IH]; [done|]. cbn [spell app]. by rewrite IH, <- !app_assoc. Qed.

Lemma follow_app lookup h i ps qs : ∀ a m, follow lookup h i (ps ++ qs) a m =
  '(code, b, m') ← follow lookup h i ps a m; if code =? 0 then follow lookup h i qs b m' else Val (code, b, m').
Proof.
  induction ps as [|[[| |n] k] ps IH]; intros a m; cbn [follow app]; [done|apply IH| |].
  - destruct (follow_dotdot h i a m) as [[b m']|]; cbn [mbind res_bind]; [apply IH|done].
  - destruct (follow_norm lookup h a m n) as [[[b m']|]|]; cbn [mbind res_bind]; [apply IH|done..].
Qed.

Lemma last_sep_unique (a b a' b' : list Z) : SEPARATOR ∉ b → SEPARATOR ∉ b' →
  a ++ SEPARATOR :: b = a' ++ SEPARATOR :: b' → a = a' ∧ b = b'.
Proof.
  revert a'. induction a as [|c a IH]; intros [|c' a'] Hb Hb'; cbn; [by intros [= ->]|..].
  - intros [= <- ->]. destruct Hb. apply elem_of_app. right. by left.
  - intros [= -> <-]. destruct Hb'. apply elem_of_app. right. by left.
  - intros [= -> E]. by destruct (IH a' Hb Hb' E) as [-> ->].
Qed.

(** The parts before the last one, without the separator before it. *)
Lemma drop_separator ps q : good_path (ps ++ [q]) → ps ≠ [] → ∃ ps',
  spell ps = spell ps' ++ [SEPARATOR] ∧ good_path ps' ∧ ∀ lookup h i a m, follow lookup h i ps' a m = follow lookup h i ps a m.
Proof.
  induction ps as [|[t n] ps IH]; intros Hg Hne; [done|]. cbn [app good_path] in Hg. destruct Hg as (Hn & Ht & Hg).
  destruct (decide (ps = [])) as [->|Hps].
  - destruct n as [|n]; [by specialize (Hn eq_refl)|]. exists [(t, n)]. split_and!.
    + cbn [spell]. rewrite replicate_S_end, !app_nil_r. by rewrite app_assoc.
    + split; [done|]. split; [destruct t; [lia|lia|done]|done].
    + by intros; destruct t.
  - destruct (IH Hg Hps) as (ps' & Es & Hg' & Hf). exists ((t, n) :: ps'). split_and!.
    + cbn [spell]. by rewrite Es, <- !app_assoc.
    + split; [intros ->; specialize (Hn eq_refl); by destruct ps|done].
    + intros. destruct t; cbn [follow]; [apply Hf| |].
      * destruct (follow_dotdot _ _ _ _) as [[??]|]; cbn [mbind res_bind]; [apply Hf|done].
      * destruct (follow_norm _ _ _ _ _) as [[[??]|]|]; cbn [mbind res_bind]; [apply Hf|done..].
Qed.

(** A path for a new name: parts with a name behind them, which is not "/name". *)
Definition names_new (pathname : list Z) (k : nat) (ps : list (part * nat)) (name : list Z) : Prop :=
  full_path pathname = replicate k SEPARATOR ++ spell (ps ++ [(Name name, 0%nat)]) ∧
  good_path (ps ++ [(Name name, 0%nat)]) ∧ (ps = [] → k ≠ 1%nat).

Lemma good_name_no_sep name : good_name name → SEPARATOR ∉ name.
Proof. intros (Hf & _) Hin. rewrite Forall_forall in Hf. by apply Hf in Hin as [_ ?]. Qed.

Lemma good_path_app ps qs : good_path (ps ++ qs) → good_path qs.
Proof. induction ps as [|[p n] ps IH]; [done|]. intros (_ & _ & Hg). by apply IH. Qed.

(** The parent's path is that of the parts before the name. *)
Lemma parent_path pathname k ps name parent nm : names_new pathname k ps name →
  full_path pathname = parent ++ SEPARATOR :: nm → SEPARATOR ∉ nm →
  nm = name ∧ ∃ k' ps', parent = replicate k' SEPARATOR ++ spell ps' ∧ good_path ps' ∧ (k' = 0%nat ↔ k = 0%nat) ∧
    ∀ lookup h i a m, follow lookup h i ps' a m = follow lookup h i ps a m.
Proof.
  intros (Ep & Hg & Hk) Ep' Hnm. assert (Hname : SEPARATOR ∉ name).
  { apply good_name_no_sep. apply good_path_app in Hg. by destruct Hg as (_ & ? & _). }
  rewrite Ep, spell_app in Ep'. cbn [spell text replicate app] in Ep'. rewrite app_nil_r in Ep'.
  destruct (decide (ps = [])) as [->|Hps].
  - cbn [spell app] in *. destruct k as [|[|k]]; [|by destruct (Hk eq_refl)|].
    + cbn in Ep'. destruct Hname. rewrite Ep'. apply elem_of_app. right. by left.
    + rewrite replicate_S_end, <- app_assoc in Ep'. cbn [app] in Ep'.
      destruct (last_sep_unique _ _ _ _ Hname Hnm Ep') as [<- <-]. split; [done|]. exists (S k), []. cbn [spell].
      rewrite app_nil_r. by split_and!.
  - destruct (drop_separator _ _ Hg Hps) as (ps' & Es & Hg' & Hf). rewrite Es, <- app_assoc in Ep'. cbn [app] in Ep'.
    rewrite app_assoc in Ep'. destruct (last_sep_unique _ _ _ _ Hname Hnm Ep') as [<- <-].
    split; [done|]. by exists k, ps'.
Qed.

(** C21: a directory is found where it was made.  After [mkdir] of a path of the
    kind of [pathWalk_follows], other than "/name" (which the code makes in the
    working directory: [mkdir_absolute_in_cwd]), has answered 0 in a well-formed
    state, walking the path finds a directory without entries at an address where
    nothing was before; the only other difference in any directory is the entry with
    the name in the directory that the parts before the name lead to, where no entry
    had it. *)
Theorem mkdir_found sb root h i p k ps name h' i' : state_ok sb root (h, i) → Z.of_nat (length p) < 2 ^ 31 - 3 →
  names_new p k ps name → mkdir h i p = Val (h', i', 0) →
  ∃ a c d, let '(b, m) := start i (bool_decide (k ≠ 0%nat)) in
    follow RamFs.lookup h i ps b m = Val (0, a, root_mnt_ i) ∧ (∀ c', ¬ entry h a name c') ∧
    walk h' i' (full_path p) = Val (0, c, root_mnt_ i) ∧
    dentries h !! c = None ∧ dentries h' !! c = Some d ∧ d_child_ d = [] ∧ is_dir h' c ∧
    ∀ b' n c', entry h' b' n c' ↔ entry h b' n c' ∨ b' = a ∧ n = name ∧ c' = c.
Proof.
  intros Hs Hp Hnew Hmk. pose proof Hs as (Hok & Hm & Hi). cbn [fst snd] in *. pose proof Hok as (Ht & _).
  destruct (mkdir_cases _ _ _ Hok Hm _ Hi p Hp) as [(q & E)|(parent & nm & a & d & x & s & (Ep & Hnm & (bb & Hdup) & Hpar & Hf & Hdir) & Hsb & E)];
    rewrite Hmk in E; [done|]. injection E as -> ->.
  destruct (parent_path _ _ _ _ _ _ Hnew Ep Hnm) as (-> & k' & ps' & -> & Hg' & Hkk & Hfol).
  destruct Hnew as (Efull & Hg & _). pose proof Hf as (Hd & Hx & _). destruct (full_path_spec p) as [_ Hfl].
  assert (Hst : bool_decide (k' ≠ 0%nat) = bool_decide (k ≠ 0%nat)) by (apply bool_decide_ext; tauto).
  assert (Hlive : let '(b, m) := start i (bool_decide (k ≠ 0%nat)) in b ≠ 0 ∧ m = root_mnt_ i ∧ is_Some (dentries h !! b)).
  { destruct Hi as [Er [_ Em] (pd & px & Hpd & _)]. unfold start. rewrite Er, Em. destruct (bool_decide (k ≠ 0%nat)).
    - destruct (root_live _ _ _ Ht) as [r Hr]. pose proof (dentry_live _ _ _ Ht _ _ Hr). split_and!; [lia|done|by exists r].
    - pose proof (dentry_live _ _ _ Ht _ _ Hpd). split_and!; [lia|done|by exists pd]. }
  assert (Hmnt : root_mnt_ i ≠ 0) by by destruct Hi as [_ [? _] _].
  pose proof (λ h, pathWalk_parts RamFs.lookup h i k' ps') as Hw1.
  pose proof (λ h, pathWalk_parts RamFs.lookup h i k (ps ++ [(Name name, 0%nat)])) as Hw2.
  rewrite Hst in Hw1. destruct (start i (bool_decide (k ≠ 0%nat))) as [b m] eqn:Est. destruct Hlive as (Hb & -> & Hbl).
  assert (Hlen1 : Z.of_nat (length (spell ps')) < 2 ^ 31 - 1).
  { apply (f_equal length) in Ep. rewrite !length_app in Ep. cbn [length] in Ep. lia. }
  assert (Hlen2 : Z.of_nat (length (spell (ps ++ [(Name name, 0%nat)]))) < 2 ^ 31 - 1).
  { apply (f_equal length) in Efull. rewrite length_app in Efull. lia. }
  unfold walk in Hpar, Hdup. rewrite Hw1, Hfol in Hpar by done. rewrite Efull, Hw2, follow_app, Hpar in Hdup by done.
  cbn [mbind res_bind Z.eqb follow] in Hdup.
  assert (Hno : ∀ c e, c ∈ d_child_ d → dentries h !! c = Some e → d_name_ e ≠ name).
  { destruct (follow_norm_spec _ _ _ Ht Hm _ _ (root_mnt_ i) name Hd) as [(c & _ & _ & E)|[_ ?]]; [|done].
    rewrite E in Hdup. by cbn [mbind res_bind follow] in Hdup. }
  destruct (follow_created sb root h i Hs a d x name s I_DIR Hd Hx Hdir ltac:(by left) Hsb ps _ _ _ _ Hbl Hpar) as [Hpar' _].
  exists a, (next h), (mkDentry (next h + 1) a [] 0 name). split_and!.
  - done.
  - intros c' (d0 & e & Hd0 & Hc & He & En). rewrite Hd in Hd0. injection Hd0 as <-. by apply (Hno _ _ Hc He).
  - rewrite walk_pathname. unfold walk. rewrite Efull, Hw2, follow_app, Hpar' by done. cbn [mbind res_bind Z.eqb follow].
    by rewrite (follow_norm_new sb root h i Hs a d x name s I_DIR Hd Hx Hdir ltac:(by left) Hsb).
  - apply (dentry_fresh _ _ _ Ht). lia.
  - apply lookup_insert_eq.
  - done.
  - exists (mkDentry (next h + 1) a [] 0 name), (fresh_inode (next h) I_DIR sb). split_and!; [apply lookup_insert_eq|apply lookup_insert_eq|done].
  - intros b' n c'. by apply (created_entries sb root h i Hs).
Qed.

(** ** Opening and the table *)

Lemma opened_shows sb root h fl i x flag s : shows sb root h fl → inodes h !! i = Some x → i_type_ x = I_FILE →
  i_dentry_ x ≠ 0 → superblocks h !! sb = Some s → fd_num_ h + 1 < 2 ^ 31 →
  shows sb root (opened h i x flag sb s) (mkFlat (<[fd_num_ h := (i, flag, 0)]> (fl_fds fl)) (fl_data fl)).
Proof.
  intros (Hok & Hfd & Hdata) Hi Hf Hl Hs Hn. pose proof Hok as (_ & Hfo & _). split; [by eapply opened_ok|]. split.
  - intros fd v. cbn [fl_fds]. rewrite lookup_insert. unfold descriptor_view. cbn [descriptors files opened].
    destruct (decide (fd_num_ h = fd)) as [<-|Hne].
    + split.
      * intros [= <-]. do 3 eexists. split_and!; [apply lookup_insert_eq|done|apply lookup_insert_eq|done].
      * intros (q & e & y & Hq & E & Hy & ->). rewrite lookup_insert in Hq. case_decide as Eq.
        -- injection Hq as <-. cbn [file_] in Hy. rewrite lookup_insert_eq in Hy. by injection Hy as <-.
        -- destruct (c_fd _ _ Hfo _ _ Hq) as (_ & ? & _). lia.
    + rewrite Hfd. unfold descriptor_view. split.
      * intros (q & e & y & Hq & E & Hy & ->). exists q, e, y. destruct (c_fd _ _ Hfo _ _ Hq) as (? & _).
        destruct (c_file _ _ Hfo _ _ Hy) as (? & _). by rewrite !lookup_insert_ne by lia.
      * intros (q & e & y & Hq & E & Hy & ->). rewrite lookup_insert in Hq. case_decide as Eq.
        -- injection Hq as <-. by destruct Hne.
        -- exists q, e, y. destruct (c_fd _ _ Hfo _ _ Hq) as (_ & _ & [z Hz]).
           destruct (c_file _ _ Hfo _ _ Hz) as (? & _). by rewrite lookup_insert_ne in Hy by lia.
  - intros j z Hz Ez. cbn in Hz |- *. rewrite lookup_insert in Hz. destruct (decide (i = j)) as [<-|]; [|by apply Hdata].
    injection Hz as <-. cbn. by apply Hdata.
Qed.

Lemma created_shows sb root h fl p d x name s : shows sb root h fl → dentries h !! p = Some d →
  inodes h !! d_inode_ d = Some x → i_type_ x = I_DIR → superblocks h !! sb = Some s →
  shows sb root (created h p d name sb s I_FILE) (mkFlat (fl_fds fl) (<[next h + 1 := new_data]> (fl_data fl))).
Proof.
  intros (Hok & Hfd & Hdata) Hd Hx Hdir Hs. split; [by eapply created_ok; eauto|]. split; [done|].
  intros j z Hz Ez. cbn in Hz |- *. rewrite lookup_insert in Hz. rewrite lookup_insert. destruct (decide (next h + 1 = j)); [by injection Hz as <-|].
  by apply Hdata.
Qed.

(** [open] gives a new row.  In a well-formed state [open] answers -1 and
    changes no object, or answers the number [fd_num_], which no descriptor has.
    Then the table has a row for it with the offset 0 and the flags of the call,
    and every other row as before: for the inode of the file the path leads to,
    or, if there is none and the flags have [O_CREAT], for a new inode of
    [BASIC_ALLOC] zero bytes. *)
Theorem open_row sb root h i p flag fl : state_ok sb root (h, i) → shows sb root h fl →
  Z.of_nat (length p) < 2 ^ 31 - 3 → fd_num_ h + 1 < 2 ^ 31 →
  ∃ h' q r, open h i p flag = Val (h', with_pathname q i, r) ∧
    (r = -1 ∧ h' = h ∨
     r = fd_num_ h ∧ bad_flags flag = false ∧ fl_fds fl !! r = None ∧ ∃ j data,
       shows sb root h' (mkFlat (<[r := (j, flag, 0)]> (fl_fds fl)) data) ∧
       ((∃ a d x, walk h i (full_path p) = Val (0, a, root_mnt_ i) ∧ found h sb a d x ∧ i_type_ x = I_FILE ∧
           j = d_inode_ d ∧ data = fl_data fl) ∨
        has flag O_CREAT = true ∧ (∃ b, walk h i (full_path p) = Val (PW_ENOTFOUND, b, root_mnt_ i)) ∧
          inodes h !! j = None ∧ data = <[j := new_data]> (fl_data fl))).
Proof.
  intros (Hok & Hm & Hi) Hsh Hp Hn. cbn [fst snd] in *.
  destruct (open_cases _ _ _ Hok Hm _ Hi p flag Hp Hn) as [(q & ->)|(q & h' & (Hbad & s & Hop) & ->)].
  { exists h, q, (-1). split; [done|]. by left. }
  exists h', q, (fd_num_ h). split; [done|]. right. split_and!; [done|done| |].
  { destruct Hsh as (_ & Hfd & _). destruct (fl_fds fl !! fd_num_ h) as [v|] eqn:E; [|done].
    apply Hfd in E as (r & e & y & Hr & En & _). destruct Hok as (_ & Hf & _). destruct (c_fd _ _ Hf _ _ Hr) as (_ & ? & _). lia. }
  destruct Hok as (Ht & _).
  destruct Hop as [(a & d & x & Hw & Hf & Ef & Hs & ->)|(parent & name & a & d & x & s0 & Hcr & (_ & _ & Hw & _ & (Ha & Hx & _) & Hd) & Hs0 & -> & ->)].
  - exists (d_inode_ d), (fl_data fl). split; [|left; by exists a, d, x]. pose proof Hf as (Ha & Hx & Ex & _).
    pose proof (dentry_live _ _ _ Ht _ _ Ha). eapply opened_shows; try done. lia.
  - exists (next h + 1), (<[next h + 1 := new_data]> (fl_data fl)). pose proof (dentry_live _ _ _ Ht _ _ Ha). split.
    + refine (opened_shows sb root (created h a d name sb s0 I_FILE) (mkFlat (fl_fds fl) (<[next h + 1 := new_data]> (fl_data fl)))
        (next h + 1) (fresh_inode (next h) I_FILE sb) flag (with_all_inodes (all_inodes_ s0 ++ [next h + 1]) s0) _ _ _ _ _ _);
        [by eapply created_shows|apply lookup_insert_eq|done|cbn; lia|apply lookup_insert_eq|done].
    + right. split_and!; [done|done|apply (inode_fresh _ _ _ Ht); lia|done].
Qed.

(** ** A small run *)

Definition ram : state := booted RamFS.
Definition empty_table : flat := mkFlat ∅ ∅.

Lemma ram_shows : shows 1 2 ram.1 empty_table.
Proof.
  split; [by destruct (booted_ok RamFS)|]. split.
  - intros fd v. split; [done|]. by intros (q & e & y & Hq & _).
  - intros i x Hx E. cbn in Hx. look. done.
Qed.

(** The heap after [open("f", O_RDWR | O_CREAT)]. *)
Definition opened_ram : heap :=
  opened (created ram.1 2 (mkDentry 3 2 [] 2 ROOT_NAME) [102] 1 (mkSuper RamFS 2 2 [] [3] []) I_FILE) 6
    (fresh_inode 5 I_FILE 1) 12 1 (mkSuper RamFS 2 2 [] [3; 6] []).
Definition one_row : flat := mkFlat (<[3 := (6, 12, 0)]> ∅) (<[6 := new_data]> ∅).

Lemma opened_ram_open : open ram.1 ram.2 [102] 12 = Val (opened_ram, with_pathname [46] ram.2, 3).
Proof. reflexivity. Qed.

Lemma opened_ram_shows : shows 1 2 opened_ram one_row.
Proof.
  refine (opened_shows 1 2 (created ram.1 2 (mkDentry 3 2 [] 2 ROOT_NAME) [102] 1 (mkSuper RamFS 2 2 [] [3] []) I_FILE)
    (mkFlat ∅ (<[6 := new_data]> ∅)) 6 (fresh_inode 5 I_FILE 1) 12 (mkSuper RamFS 2 2 [] [3; 6] []) _ _ _ _ _ _); [|done..].
  by apply (created_shows 1 2 ram.1 empty_table 2 (mkDentry 3 2 [] 2 ROOT_NAME) (new_dir 2 1) [102] _ ram_shows).
Qed.

Lemma descriptors_refine_witness : shows 1 2 opened_ram one_row ∧
  run file_step opened_ram [FWrite 3 [7; 8; 9] 3; FLseek 3 1 SEEK_SET; FRead 3 2; FClose 3; FRead 3 2] =
  Val [(3, []); (1, []); (2, [8; 9]); (0, []); (-1, [])].
Proof.
  split; [apply opened_ram_shows|]. rewrite (descriptors_refine 1 2 opened_ram one_row); [reflexivity|apply opened_ram_shows|].
  repeat constructor; cbn; lia.
Defined.

Lemma write_read_back_witness :
  run file_step opened_ram [FLseek 3 250 SEEK_SET; FWrite 3 [1; 2; 3] 3; FLseek 3 250 SEEK_SET; FRead 3 3] =
  Val [(250, []); (3, []); (250, []); (3, [1; 2; 3])].
Proof.
  apply (write_read_back 1 2 opened_ram one_row 3 3 6 12 12 0 0 250 [1; 2; 3] 3);
    [apply opened_ram_shows|reflexivity|reflexivity|reflexivity|reflexivity|lia|lia|unfold BASIC_ALLOC; lia|cbn; lia].
Defined.

Lemma open_row_witness : ∃ h' q r, open ram.1 ram.2 [102] 12 = Val (h', with_pathname q ram.2, r) ∧ r = 3.
Proof.
  destruct (open_row 1 2 ram.1 ram.2 [102] 12 empty_table (booted_ok RamFS) ram_shows) as (h' & q & r & E & Hc); [cbn; lia|cbn; lia|].
  exists h', q, r. split; [exact E|]. destruct Hc as [[-> _]|[-> _]]; [|reflexivity]. rewrite opened_ram_open in E. discriminate E.
Defined.

Lemma rm_spec_witness : ∃ h' q r, rm ram.1 ram.2 [102] = Val (h', with_pathname q ram.2, r) ∧ r = -1.
Proof.
  destruct (rm_spec 1 2 ram.1 ram.2 [102] (booted_ok RamFS)) as (h' & q & r & E & Hc); [cbn; lia|].
  exists h', q, r. split; [exact E|]. destruct Hc as [[-> _]|[-> (a & d & x & Hw & _)]]; [reflexivity|]. discriminate Hw.
Defined.

(** The heap after [mkdir("u")]. *)
Definition made : heap := created ram.1 2 (mkDentry 3 2 [] 2 ROOT_NAME) [117] 1 (mkSuper RamFS 2 2 [] [3] []) I_DIR.

Lemma made_mkdir : mkdir ram.1 ram.2 [117] = Val (made, with_pathname [46] ram.2, 0).
Proof. reflexivity. Qed.

Lemma u_names_new : names_new [117] 0 [(Dot, 1%nat)] [117].
Proof. split; [reflexivity|]. split; [|done]. cbn. split_and!; try done; repeat constructor; done. Qed.

Lemma mkdir_found_witness : ∃ c d, walk made ram.2 (full_path [117]) = Val (0, c, 4) ∧
  dentries made !! c = Some d ∧ d_child_ d = [].
Proof.
  destruct (mkdir_found 1 2 ram.1 ram.2 [117] 0 [(Dot, 1%nat)] [117] made (with_pathname [46] ram.2) (booted_ok RamFS))
    as (a & c & d & H); [cbn; lia|apply u_names_new|apply made_mkdir|].
  destruct H as (_ & _ & Hw & _ & Hd & Hc & _). exists c, d. split; [exact Hw|]. split; [exact Hd|exact Hc].
Defined.

(** ** Deviations *)

(** "/b" is made in the working directory, next to a "b" that is there. *)
Definition in_u : list call := [Mkdir [117]; Chdir [117]; Mkdir [98]; Mkdir [47; 98]].

Fixpoint play (s : state) (cs : list call) : res state :=
  match cs with [] => Val s | c :: cs => '(s, _) ← exec s c; play s cs end.

Lemma mkdir_absolute_in_cwd :
  ('(h, i) ← play ram in_u; '(_, l) ← readdir h i [46]; '(_, l') ← readdir h i [47; 47]; Val (l, l')) =
  Val ([(I_DIR, [98]); (I_DIR, [98])], [(I_DIR, [117])]).
Proof. reflexivity. Qed.

(** After [rmdir(".")] the working directory is gone and the next call that uses
    it follows a pointer to a deleted object. *)
Lemma rmdir_cwd_dangles :
  (s ← play ram [Mkdir [117]; Chdir [117]; Rmdir [46]]; '(s, _) ← exec s (Mkdir [98]); Val (pwd_ s.2)) = Err EUndef.
Proof. reflexivity. Qed.

(** A seek beyond 4 GiB reads from the start of the file. *)
Lemma offset_wraps :
  run file_step opened_ram [FWrite 3 [7] 1; FLseek 3 (2 ^ 32) SEEK_SET; FRead 3 1] = Val [(1, []); (2 ^ 32, []); (1, [7])].
Proof. reflexivity. Qed.

End VfsCalls.
