(* ===== verification/MinixTree.v ===== *)
(** * MINIX file system: the tree of a mounted volume

    Models the rest of [common/source/fs/minixfs/]: the objects of
    [MinixFSInode.cpp] and [MinixFSFile.cpp] with their links to the [Dentry] and
    [File] objects of the virtual file system, and the inodes of
    [MinixFSSuperblock.cpp].  What is kept on the disc is a volume of
    [MinixInode]; the dentries, files and descriptors live on the heap of [Vfs],
    which also hands out the addresses of the inodes. *)
From S2P Require Import Prelude Bitmap LibcString Kstring Buffers BlockDevice MinixStorage MinixDisc MinixZone MinixInode MinixDir Vfs RamFs.

Import Storage Disc.
Import Vfs.

Module Tree.

(** A [MinixFSInode]: what is kept on the disc and the links to other objects.
    [i_mode_], which is set by the constructor only, allows everything. *)
Record MinixFSInode : Set := mkObj {
  node : Inode.MinixFSInode;
  i_dentry_ : Z;
  i_files_ : list Z;
  children_loaded_ : bool;
  other_dentries_ : list Z;
}.

Definition with_node (i : Inode.MinixFSInode) (o : MinixFSInode) : MinixFSInode :=
  mkObj i (i_dentry_ o) (i_files_ o) (children_loaded_ o) (other_dentries_ o).
Definition with_dentry (d : Z) (o : MinixFSInode) : MinixFSInode :=
  mkObj (node o) d (i_files_ o) (children_loaded_ o) (other_dentries_ o).
Definition with_files (l : list Z) (o : MinixFSInode) : MinixFSInode :=
  mkObj (node o) (i_dentry_ o) l (children_loaded_ o) (other_dentries_ o).
Definition with_loaded (b : bool) (o : MinixFSInode) : MinixFSInode :=
  mkObj (node o) (i_dentry_ o) (i_files_ o) b (other_dentries_ o).
Definition with_others (l : list Z) (o : MinixFSInode) : MinixFSInode :=
  mkObj (node o) (i_dentry_ o) (i_files_ o) (children_loaded_ o) l.

Definition set_type (t : Z) (i : Inode.MinixFSInode) : Inode.MinixFSInode :=
  Inode.mkInode t (Inode.i_size_ i) (Inode.i_nlink_ i) (Inode.i_num_ i) (Inode.i_zones_ i).
Definition set_nlink (n : Z) (i : Inode.MinixFSInode) : Inode.MinixFSInode :=
  Inode.mkInode (Inode.i_type_ i) (Inode.i_size_ i) n (Inode.i_num_ i) (Inode.i_zones_ i).

Section tree.
Context {D : Type} `{BDDriver D}.

(** The superblock object at [this_sb] with its disc, and all other objects.
    [dirty_inodes_] is never filled. *)
Record volume : Type := mkVolume {
  disc_ : fs D;
  heap_ : heap;
  objs : gmap Z MinixFSInode;
  this_sb : Z;
  s_root_ : Z;
  mounted_over_ : Z;
  used_inodes_ : list Z;
  all_inodes_ : list Z;
  s_files_ : list Z;
  all_inodes_set_ : gmap Z Z;
}.
Implicit Types s : volume.

Definition set_disc_ (f : fs D) (s : volume) : volume :=
  mkVolume f (heap_ s) (objs s) (this_sb s) (s_root_ s) (mounted_over_ s) (used_inodes_ s) (all_inodes_ s) (s_files_ s) (all_inodes_set_ s).
Definition set_heap (h : heap) (s : volume) : volume :=
  mkVolume (disc_ s) h (objs s) (this_sb s) (s_root_ s) (mounted_over_ s) (used_inodes_ s) (all_inodes_ s) (s_files_ s) (all_inodes_set_ s).
Definition set_objs (m : gmap Z MinixFSInode) (s : volume) : volume :=
  mkVolume (disc_ s) (heap_ s) m (this_sb s) (s_root_ s) (mounted_over_ s) (used_inodes_ s) (all_inodes_ s) (s_files_ s) (all_inodes_set_ s).
Definition set_roots (r m : Z) (s : volume) : volume :=
  mkVolume (disc_ s) (heap_ s) (objs s) (this_sb s) r m (used_inodes_ s) (all_inodes_ s) (s_files_ s) (all_inodes_set_ s).
Definition set_used (l : list Z) (s : volume) : volume :=
  mkVolume (disc_ s) (heap_ s) (objs s) (this_sb s) (s_root_ s) (mounted_over_ s) l (all_inodes_ s) (s_files_ s) (all_inodes_set_ s).
Definition set_all (l : list Z) (m : gmap Z Z) (s : volume) : volume :=
  mkVolume (disc_ s) (heap_ s) (objs s) (this_sb s) (s_root_ s) (mounted_over_ s) (used_inodes_ s) l (s_files_ s) m.
Definition set_fds (l : list Z) (s : volume) : volume :=
  mkVolume (disc_ s) (heap_ s) (objs s) (this_sb s) (s_root_ s) (mounted_over_ s) (used_inodes_ s) (all_inodes_ s) l (all_inodes_set_ s).

Definition put_obj (a : Z) (o : MinixFSInode) (s : volume) : volume := set_objs (<[a := o]> (objs s)) s.

(** A new inode object. *)
Definition new_obj (i : Inode.MinixFSInode) s : volume * Z :=
  let a := next (heap_ s) in
  (put_obj a (mkObj i 0 [] false []) (set_heap (set_next (a + 1) (heap_ s)) s), a).

(** Operations on the heap alone. *)
Definition on_heap (s : volume) (m : res heap) : res volume := h ← m; Val (set_heap h s).

(** [writeDentry] and [writeInode] of the inode at [this]. *)
Definition writeDentry s (this dest_i_num src_i_num : Z) (name : list Z) : res volume :=
  o ← deref (objs s) this;
  '(f, i) ← Inode.writeDentry (disc_ s) (node o) dest_i_num src_i_num (name ++ [0]);
  Val (put_obj this (with_node i o) (set_disc_ f s)).

Definition writeInode s (inode : Z) : res volume :=
  _ ← kassert (negb (inode =? 0));
  _ ← kassert (bool_decide (inode ∈ all_inodes_ s));
  o ← deref (objs s) inode;
  f ← Inode.writeInode (disc_ s) (node o);
  Val (set_disc_ f s).

(** ** The inodes of the superblock *)

Definition all_inodes_add_inode s (inode : Z) : res volume :=
  o ← deref (objs s) inode;
  Val (set_all (all_inodes_ s ++ [inode]) (<[Inode.i_num_ (node o) := inode]> (all_inodes_set_ s)) s).
Definition all_inodes_remove_inode s (inode : Z) : res volume :=
  o ← deref (objs s) inode;
  Val (set_all (list_remove inode (all_inodes_ s)) (delete (Inode.i_num_ (node o)) (all_inodes_set_ s)) s).

(** [getInode(uint16 i_num)] *)
Definition getInode_disc s (i_num : Z) : res (volume * Z) :=
  '(f, r) ← Inode.getInode (disc_ s) i_num;
  let s := set_disc_ f s in
  match r with None => Val (s, 0) | Some i => Val (new_obj i s) end.

(** [getInode(uint16 i_num, bool &is_already_loaded)]; [operator[]] of the map
    enters a null pointer for a number it does not have. *)
Definition getInode s (i_num : Z) : res (volume * Z * bool) :=
  let tmp := default 0 (all_inodes_set_ s !! i_num) in
  let s := set_all (all_inodes_ s) (<[i_num := tmp]> (all_inodes_set_ s)) s in
  if negb (tmp =? 0) then Val (s, tmp, true)
  else '(s, tmp) ← getInode_disc s i_num; Val (s, tmp, false).

(** ** MinixFSInode.cpp *)

(** One entry of [loadChildren]: the inode number and the bytes of the name. *)
Definition load_entry s (this inode_index : Z) (name : list Z) : res volume :=
  '(s, inode, is_already_loaded) ← getInode s inode_index;
  if inode =? 0 then writeDentry s this inode_index 0 []
  else
    let '(h, new_dentry) := new_dentry name (heap_ s) in
    o ← deref (objs s) this;
    '(h, _) ← setChild h (i_dentry_ o) new_dentry;
    h ← setParent h new_dentry (i_dentry_ o);
    let s := set_heap h s in
    i ← deref (objs s) inode;
    s ← (if negb is_already_loaded
         then all_inodes_add_inode (put_obj inode (with_dentry new_dentry i) s) inode
         else Val (put_obj inode (with_others (other_dentries_ i ++ [new_dentry]) i) s));
    on_heap s (setInode (heap_ s) new_dentry inode).

(** The slots of one block from [curr_dentry] on; [n] are left. *)
Fixpoint load_block (n : nat) s (this : Z) (dbuffer : list Z) (curr_dentry : Z) : res volume :=
  match n with
  | O => Val s
  | S n =>
      let sb := header (disc_ s) in
      inode_index ← Kstring.load_le 2 dbuffer curr_dentry;
      s ← (if inode_index =? 0 then Val s
           else
             name ← slice dbuffer (curr_dentry + INODE_BYTES sb) (MAX_NAME_LENGTH sb);
             load_entry s this inode_index (Dir.until_nul name));
      load_block n s this dbuffer (curr_dentry + INODE_SIZE sb)
  end.

(** The zones from [zone] on; their number is looked up again in every turn. *)
Fixpoint load_zones (n : nat) s (this zone : Z) : res volume :=
  o ← deref (objs s) this;
  let z := Inode.i_zones_ (node o) in
  if zone <? Zone.getNumZones z then
    match n with
    | O => Err EFuel
    | S n =>
        v ← Zone.getZone (header (disc_ s)) z zone;
        '(f, dbuffer) ← readZone (disc_ s) v (local_array ZONE_SIZE);
        s ← load_block (Z.to_nat (BLOCK_SIZE / INODE_SIZE (header f))) (set_disc_ f s) this dbuffer 0;
        load_zones n s this (zone + 1)
    end
  else Val s.

Definition loadChildren s (this : Z) : res volume :=
  o ← deref (objs s) this;
  if children_loaded_ o then Val s
  else
    s ← load_zones (Z.to_nat (Zone.getNumZones (Inode.i_zones_ (node o)))) s this 0;
    o ← deref (objs s) this;
    Val (put_obj this (with_loaded true o) s).

(** [dentry->getParent()->getInode()] *)
Definition parent_inode (h : heap) (dentry : Z) : res Z :=
  d ← deref (dentries h) dentry;
  p ← deref (dentries h) (d_parent_ d);
  Val (d_inode_ p).
Definition getName (h : heap) (dentry : Z) : res (list Z) := d ← deref (dentries h) dentry; Val (d_name_ d).

Definition change s (this : Z) (g : Inode.MinixFSInode → Inode.MinixFSInode) : res volume :=
  o ← deref (objs s) this; Val (put_obj this (with_node (g (node o)) o) s).
Definition more_links (i : Inode.MinixFSInode) : Inode.MinixFSInode := set_nlink (u32 (Inode.i_nlink_ i + 1)) i.
Definition fewer_links (i : Inode.MinixFSInode) : Inode.MinixFSInode := set_nlink (u32 (Inode.i_nlink_ i - 1)) i.

Definition mknod s (this dentry : Z) : res (volume * Z) :=
  if dentry =? 0 then Val (s, -1)
  else
    o ← deref (objs s) this;
    if (Inode.i_type_ (node o) =? Inode.I_DIR) || (Inode.i_type_ (node o) =? Inode.I_FILE) then Val (s, -1)
    else
      parent ← parent_inode (heap_ s) dentry;
      name ← getName (heap_ s) (i_dentry_ o);
      s ← writeDentry s parent 0 (Inode.i_num_ (node o)) name;
      o ← deref (objs s) this;
      let s := put_obj this (with_dentry dentry o) s in
      s ← on_heap s (setInode (heap_ s) dentry this);
      Val (s, 0).

(** "." and ".." *)
Definition dot : list Z := [46].
Definition dotdot : list Z := [46; 46].

Definition mkdir s (this dentry : Z) : res (volume * Z) :=
  if dentry =? 0 then Val (s, -1)
  else
    o ← deref (objs s) this;
    if negb (Inode.i_type_ (node o) =? Inode.I_DIR) then Val (s, -1)
    else
      let i_num := Inode.i_num_ (node o) in
      s ← on_heap (put_obj this (with_dentry dentry o) s) (setInode (heap_ s) dentry this);
      parent ← parent_inode (heap_ s) dentry;
      name ← getName (heap_ s) dentry;
      s ← writeDentry s parent 0 i_num name;
      s ← change s this more_links;
      s ← writeDentry s this 0 i_num dot;
      s ← change s this more_links;
      parent ← parent_inode (heap_ s) dentry;
      p ← deref (objs s) parent;
      s ← writeDentry s this 0 (Inode.i_num_ (node p)) dotdot;
      s ← change s parent more_links;
      Val (s, 0).

Definition mkfile s (this dentry : Z) : res (volume * Z) :=
  if dentry =? 0 then Val (s, -1)
  else
    o ← deref (objs s) this;
    if negb (Inode.i_type_ (node o) =? Inode.I_FILE) then Val (s, -1)
    else
      let s := put_obj this (with_dentry dentry o) s in
      parent ← parent_inode (heap_ s) dentry;
      name ← getName (heap_ s) dentry;
      s ← writeDentry s parent 0 (Inode.i_num_ (node o)) name;
      s ← on_heap s (setInode (heap_ s) dentry this);
      s ← change s this more_links;
      Val (s, 0).

(** With [new MinixFSFile(this, i_dentry_, flag)]. *)
Definition link s (this flag : Z) : res (volume * Z) :=
  o ← deref (objs s) this;
  let file := next (heap_ s) in
  let s := set_heap (set_next (file + 1) (RamFs.put_file file (mkFile (this_sb s) this (i_dentry_ o) flag 0) (heap_ s))) s in
  Val (put_obj this (with_files (i_files_ o ++ [file]) o) s, file).

Definition unlink s (this file : Z) : res (volume * Z) :=
  o ← deref (objs s) this;
  let s := put_obj this (with_files (list_remove file (i_files_ o)) o) s in
  Val (set_heap (set_files (delete file (files (heap_ s))) (heap_ s)) s, 0).

(** Is there a child that is not called "." or ".."? *)
Fixpoint other_children (h : heap) (l : list Z) : res bool :=
  match l with
  | [] => Val false
  | a :: l =>
      d ← deref (dentries h) a;
      if negb (bool_decide (d_name_ d = dot)) && negb (bool_decide (d_name_ d = dotdot)) then Val true
      else other_children h l
  end.

Definition rmdir s (this : Z) : res (volume * Z) :=
  o ← deref (objs s) this;
  if negb (Inode.i_type_ (node o) =? Inode.I_DIR) then Val (s, -1)
  else
    let i_num := Inode.i_num_ (node o) in
    let dentry := i_dentry_ o in
    d ← deref (dentries (heap_ s)) dentry;
    let parent_dentry := d_parent_ d in
    others ← other_children (heap_ s) (d_child_ d);
    if others : bool then Val (s, -1)
    else
      '(h, _) ← childRemove (heap_ s) parent_dentry dentry;
      let s := set_heap h s in
      s ← writeDentry s this i_num 0 [];
      s ← change s this fewer_links;
      pd ← deref (dentries (heap_ s)) parent_dentry;
      p ← deref (objs s) (d_inode_ pd);
      s ← writeDentry s this (Inode.i_num_ (node p)) 0 [];
      s ← change s (d_inode_ pd) fewer_links;
      s ← writeDentry s (d_inode_ pd) i_num 0 [];
      s ← change s this fewer_links;
      s ← on_heap s (releaseInode (heap_ s) dentry);
      s ← on_heap s (delete_dentry (heap_ s) dentry);
      o ← deref (objs s) this;
      Val (put_obj this (with_dentry 0 (with_node (set_nlink 0 (node o)) o)) s, RamFs.INODE_DEAD).

Definition rm s (this : Z) : res (volume * Z) :=
  o ← deref (objs s) this;
  if negb (bool_decide (i_files_ o = [])) then Val (s, -1)
  else
    let dentry := i_dentry_ o in
    d ← deref (dentries (heap_ s)) dentry;
    if bool_decide (d_child_ d = []) then
      s ← change s this (set_type RamFs.INODE_DEAD);
      let parent_dentry := d_parent_ d in
      '(h, _) ← childRemove (heap_ s) parent_dentry dentry;
      let s := set_heap h s in
      pd ← deref (dentries h) parent_dentry;
      d ← deref (dentries h) dentry;
      i ← deref (objs s) (d_inode_ d);
      s ← writeDentry s (d_inode_ pd) (Inode.i_num_ (node i)) 0 [];
      s ← change s this fewer_links;
      s ← on_heap s (releaseInode (heap_ s) dentry);
      s ← on_heap s (delete_dentry (heap_ s) dentry);
      o ← deref (objs s) this;
      Val (put_obj this (with_dentry 0 o) s, RamFs.INODE_DEAD)
    else Val (s, -1).

Definition lookup s (this : Z) (name : list Z) : res (volume * Z) :=
  o ← deref (objs s) this;
  if Inode.i_type_ (node o) =? Inode.I_DIR then
    dentry_update ← checkName (heap_ s) (i_dentry_ o) name;
    if dentry_update =? 0 then Val (s, 0)
    else
      d ← deref (dentries (heap_ s)) dentry_update;
      i ← deref (objs s) (d_inode_ d);
      s ← (if Inode.i_type_ (node i) =? Inode.I_DIR then loadChildren s (d_inode_ d) else Val s);
      Val (s, dentry_update)
  else Val (s, 0).

(** ** MinixFSFile.cpp *)

(** The mode every inode gets from the constructor of [Inode]; nothing changes it. *)
Definition i_mode_ : Z := Z.lxor (Z.lxor RamFs.A_READABLE RamFs.A_WRITABLE) RamFs.A_EXECABLE.

(** [buffer] is the caller's array from its pointer on. *)
Definition file_read s (this : Z) (buffer : list Z) (count offset : Z) : res (volume * list Z * Z) :=
  y ← deref (files (heap_ s)) this;
  if (RamFs.has (flag_ y) RamFs.O_RDONLY || RamFs.has (flag_ y) RamFs.O_RDWR) && RamFs.has i_mode_ RamFs.A_READABLE then
    o ← deref (objs s) (f_inode_ y);
    '(f, buffer, read_bytes) ← Inode.readData (disc_ s) (node o) (u32 (u64 (offset_ y + offset))) (u32 count) buffer;
    let read_bytes := s32 read_bytes in
    let s := set_heap (RamFs.put_file this (RamFs.with_offset (u64 (offset_ y + read_bytes)) y) (heap_ s)) (set_disc_ f s) in
    Val (s, buffer, read_bytes)
  else Val (s, buffer, -1).

Definition file_write s (this : Z) (buffer : list Z) (count offset : Z) : res (volume * Z) :=
  y ← deref (files (heap_ s)) this;
  if (RamFs.has (flag_ y) RamFs.O_WRONLY || RamFs.has (flag_ y) RamFs.O_RDWR) && RamFs.has i_mode_ RamFs.A_WRITABLE then
    o ← deref (objs s) (f_inode_ y);
    '(f, i, written) ← Inode.writeData (disc_ s) (node o) (u32 (u64 (offset_ y + offset))) (u32 count) buffer;
    let written := s32 written in
    let s := put_obj (f_inode_ y) (with_node i o) (set_disc_ f s) in
    Val (set_heap (RamFs.put_file this (RamFs.with_offset (u64 (offset_ y + written)) y) (heap_ s)) s, written)
  else Val (s, -1).

Definition flush s (this : Z) : res (volume * Z) :=
  y ← deref (files (heap_ s)) this; s ← writeInode s (f_inode_ y); Val (s, 0).

(** ** MinixFSSuperblock.cpp *)

Definition ROOT_NAME : list Z := [47].

(** [s_root_] is the mount point, or null for the root file system. *)
Definition initInodes s : res volume :=
  '(s, root_inode) ← getInode_disc s 1;
  let '(h, root_dentry) := new_dentry ROOT_NAME (heap_ s) in
  let s := set_heap h s in
  s ← (if negb (s_root_ s =? 0)
       then s' ← on_heap s (setMountPoint h (s_root_ s) root_dentry); Val (set_roots root_dentry (s_root_ s) s')
       else Val (set_roots root_dentry root_dentry s));
  s ← on_heap s (setParent (heap_ s) root_dentry root_dentry);
  o ← deref (objs s) root_inode;
  let s := put_obj root_inode (with_dentry root_dentry o) s in
  s ← on_heap s (setInode (heap_ s) root_dentry root_inode);
  s ← all_inodes_add_inode s root_inode;
  loadChildren s root_inode.

(** The constructor: the disc is mounted, then the root directory is loaded. *)
Definition new_volume (v : BD.BDVirtualDevice) (d : D) (h : heap) (s_root : Z) : res volume :=
  f ← mount v d;
  let this := next h in
  initInodes (mkVolume f (set_next (this + 1) h) ∅ this s_root 0 [] [] [] ∅).

Definition createInode s (dentry type : Z) : res (volume * Z) :=
  let mode := if type =? Inode.I_FILE then Z.lor 0x01ff 0x8000
              else if type =? Inode.I_DIR then Z.lor 0x01ff 0x4000 else 0x01ff in
  let f := disc_ s in
  '(sm, i_num) ← allocInode (round (inode_bitmap_ (storage_manager_ f))) (storage_manager_ f);
  '(f, i) ← Inode.new (set_storage sm f) mode 0 0 (local_array (NUM_ZONES (header f))) i_num;
  let '(s, inode) := new_obj i (set_disc_ f s) in
  s ← all_inodes_add_inode s inode;
  s ← writeInode s inode;
  s ← (if type =? Inode.I_DIR then '(s, inode_init) ← mkdir s inode dentry; _ ← kassert (inode_init =? 0); Val s
       else if type =? Inode.I_FILE then '(s, inode_init) ← mkfile s inode dentry; _ ← kassert (inode_init =? 0); Val s
       else Val s);
  Val (s, inode).

Fixpoint delete_dentries (h : heap) (l : list Z) : res heap :=
  match l with
  | [] => Val h
  | a :: l => h ← delete_dentry h a; delete_dentries h l
  end.

(** [~MinixFSInode] *)
Definition delete_obj s (inode : Z) : res volume :=
  o ← deref (objs s) inode;
  h ← delete_dentries (heap_ s) (other_dentries_ o);
  Val (set_objs (delete inode (objs s)) (set_heap h s)).

Definition delete_inode s (inode : Z) : res volume :=
  o ← deref (objs s) inode;
  _ ← kassert (i_dentry_ o =? 0);
  _ ← kassert (negb (bool_decide (inode ∈ used_inodes_ s)));
  s ← all_inodes_remove_inode s inode;
  _ ← kassert (bool_decide (i_files_ o = []));
  let i_num := Inode.i_num_ (node o) in
  f ← Zone.freeZones (disc_ s) (Inode.i_zones_ (node o));
  sm ← freeInode (storage_manager_ f) i_num;
  let f := set_storage sm f in
  let sb := header f in
  '(f, _) ← writeBytes f (Zone.inode_block sb i_num) (Zone.inode_offset sb i_num) (INODE_SIZE sb) (local_array (INODE_SIZE sb));
  delete_obj (set_disc_ f s) inode.

Definition createFd s (inode flag : Z) : res (volume * Z) :=
  _ ← kassert (negb (inode =? 0));
  '(s, file) ← link s inode flag;
  let '(h, fd) := RamFs.new_descriptor (heap_ s) file in
  let s := set_fds (s_files_ s ++ [fd]) (set_heap (RamFs.fd_add h fd) s) in
  let s := set_used (RamFs.add_once inode (used_inodes_ s)) s in
  e ← deref (descriptors (heap_ s)) fd;
  Val (s, s32 (RamFs.getFd e)).

Definition removeFd s (inode fd : Z) : res (volume * Z) :=
  _ ← kassert (negb (inode =? 0));
  _ ← kassert (negb (fd =? 0));
  let s := set_heap (RamFs.fd_remove (heap_ s) fd) (set_fds (list_remove fd (s_files_ s)) s) in
  e ← deref (descriptors (heap_ s)) fd;
  '(s, tmp) ← unlink s inode (file_ e);
  o ← deref (objs s) inode;
  let s := if bool_decide (i_files_ o = []) then set_used (list_remove inode (used_inodes_ s)) s else s in
  Val (set_heap (set_descriptors (delete fd (descriptors (heap_ s))) (global_fd (heap_ s)) (heap_ s)) s, tmp).

(** The loops of the destructor: files with their descriptors, then inodes. *)
Fixpoint delete_files s (l : list Z) : res volume :=
  match l with
  | [] => Val s
  | fd :: l =>
      e ← deref (descriptors (heap_ s)) fd;
      let h := set_files (delete (file_ e) (files (heap_ s))) (heap_ s) in
      delete_files (set_heap (set_descriptors (delete fd (descriptors h)) (global_fd h) h) s) l
  end.
Fixpoint delete_inodes s (l : list Z) : res volume :=
  match l with
  | [] => Val s
  | inode :: l =>
      s ← writeInode s inode;
      o ← deref (objs s) inode;
      s ← (if i_dentry_ o =? 0 then Val s else on_heap s (delete_dentry (heap_ s) (i_dentry_ o)));
      s ← delete_obj s inode;
      delete_inodes s l
  end.

(** [~MinixFSSuperblock]; [fresh] is the uninitialised buffer of the storage
    manager's [flush]. *)
Definition destruct_volume (fresh : list Z) s : res volume :=
  f ← flush_storage fresh (disc_ s);
  s ← delete_files (set_disc_ f s) (s_files_ s);
  s ← delete_inodes (set_fds [] s) (all_inodes_ s);
  Val (set_all [] ∅ s).

End tree.
(** ** Loading a directory *)

Section loading.
Context {D : Type} `{BDDriverLaws D}.
Implicit Types (s : volume (D := D)).

Lemma found {A} (m : gmap Z A) a x : m !! a = Some x → deref m a = Val x.
Proof. unfold deref. by intros ->. Qed.

(** Addresses below [next] only; the table of inodes names objects with the
    right number. *)
Record wf (s : volume (D := D)) : Prop := {
  wf_next : 0 < next (heap_ s);
  wf_set n a : all_inodes_set_ s !! n = Some a → a ≠ 0 → ∃ o, objs s !! a = Some o ∧ Inode.i_num_ (node o) = n;
  wf_obj a o : objs s !! a = Some o → 0 < a < next (heap_ s);
  wf_dentry a d : dentries (heap_ s) !! a = Some d → 0 < a < next (heap_ s);
  wf_child a d c : dentries (heap_ s) !! a = Some d → c ∈ d_child_ d → c < next (heap_ s);
}.

(** An inode that is loaded, or that is found on the disc. *)
Definition readable (s : volume (D := D)) (n : Z) : Prop :=
  (∃ a, all_inodes_set_ s !! n = Some a ∧ a ≠ 0) ∨
  ∃ i, Inode.getInode (disc_ s) n = Val (disc_ s, Some i) ∧ Inode.i_num_ i = n.

(** The dentry [a] under [pd] stands for an entry. *)
Definition child_of (s : volume (D := D)) (pd a : Z) (e : Z * list Z) : Prop :=
  ∃ d o, dentries (heap_ s) !! a = Some d ∧ d_name_ d = e.2 ∧ d_parent_ d = pd ∧
    objs s !! d_inode_ d = Some o ∧ Inode.i_num_ (node o) = e.1.

(** What the steps of loading the directory [this] keep. *)
Record extends (pd : Z) (s s' : volume (D := D)) : Prop := {
  ex_disc : disc_ s' = disc_ s;
  ex_obj a o : objs s !! a = Some o → ∃ o', objs s' !! a = Some o' ∧ node o' = node o ∧ i_dentry_ o' = i_dentry_ o ∧
    children_loaded_ o' = children_loaded_ o ∧ i_files_ o' = i_files_ o;
  ex_dentry a d : dentries (heap_ s) !! a = Some d → a ≠ pd → dentries (heap_ s') !! a = Some d;
  ex_pd d : dentries (heap_ s) !! pd = Some d → ∃ l, dentries (heap_ s') !! pd = Some (with_child (d_child_ d ++ l) d);
  ex_readable n : readable s n → readable s' n;
}.

Lemma extends_refl pd s : extends pd s s.
Proof.
  split; eauto 10. intros d Hd. exists []. rewrite app_nil_r, Hd. by destruct d.
Qed.

Lemma extends_trans pd s1 s2 s3 : extends pd s1 s2 → extends pd s2 s3 → extends pd s1 s3.
Proof.
  intros [D1 O1 T1 P1 R1] [D2 O2 T2 P2 R2]. split; [congruence| |eauto| |eauto].
  - intros a o Ho. destruct (O1 a o Ho) as (o1 & Ho1 & ? & ? & ? & ?). destruct (O2 a o1 Ho1) as (o2 & ? & ? & ? & ? & ?).
    exists o2. split_and!; congruence.
  - intros d Hd. destruct (P1 d Hd) as [l1 E1]. destruct (P2 _ E1) as [l2 E2]. exists (l1 ++ l2). rewrite E2.
    simpl. by rewrite (assoc_L (++)).
Qed.

Lemma child_of_extends pd s s' a e : extends pd s s' → child_of s pd a e → child_of s' pd a e.
Proof.
  intros Hex (d & o & Hd & Hn & Hp & Ho & Hi). destruct (ex_obj _ _ _ Hex _ _ Ho) as (o' & Ho' & En & _).
  destruct (decide (a = pd)) as [->|Hne].
  - destruct (ex_pd _ _ _ Hex _ Hd) as [l El]. exists (with_child (d_child_ d ++ l) d), o'. split_and!; [done..|congruence].
  - exists d, o'. split_and!; [by eapply ex_dentry|done..|congruence].
Qed.

(** Hanging a new dentry under [pd]. *)
Lemma hang_dentry h pd d nm : dentries h !! pd = Some d → next h ∉ d_child_ d → pd < next h → 0 < next h →
  ∃ h1 h2, setChild (new_dentry nm h).1 pd (next h) = Val (h1, 0) ∧ setParent h1 (next h) pd = Val h2 ∧
    next h2 = next h + 1 ∧
    ∀ inode, ∃ h3, setInode h2 (next h) inode = Val h3 ∧ next h3 = next h + 1 ∧
      dentries h3 = <[next h := mkDentry inode pd [] 0 nm]> (<[pd := with_child (d_child_ d ++ [next h]) d]> (dentries h)).
Proof.
  intros Hd Hfresh Hpd Hpos. unfold setChild, new_dentry. simpl.
  rewrite (found _ pd d) by (rewrite lookup_insert_ne by lia; done). cbn [mbind res_bind].
  rewrite (proj2 (Z.eqb_neq (next h) 0)), bool_decide_false by (done || lia). cbn [orb]. cbv iota.
  do 2 eexists. split; [done|]. unfold setParent. simpl.
  rewrite (found _ (next h) (mkDentry 0 (next h) [] 0 nm))
    by (rewrite lookup_insert_ne by lia; by rewrite lookup_insert_eq).
  cbn [mbind res_bind]. split; [done|]. split; [done|]. intros inode. unfold setInode. simpl.
  rewrite (found _ (next h) _ (lookup_insert_eq _ _ _)). cbn [mbind res_bind]. eexists. split; [done|]. split; [done|].
  simpl. rewrite insert_insert_eq, (insert_insert_ne _ pd) by lia. by rewrite insert_insert_eq.
Qed.

(** [getInode] finds the object, or makes one of what is on the disc. *)
Lemma getInode_gives s n : wf s → readable s n → ∃ s1 a b o1, getInode s n = Val (s1, a, b) ∧ 0 < a ∧
  objs s1 !! a = Some o1 ∧ Inode.i_num_ (node o1) = n ∧ disc_ s1 = disc_ s ∧ dentries (heap_ s1) = dentries (heap_ s) ∧
  next (heap_ s) <= next (heap_ s1) ∧ a < next (heap_ s1) ∧
  (∀ c o, objs s !! c = Some o → objs s1 !! c = Some o) ∧ (∀ c o, objs s1 !! c = Some o → c = a ∨ objs s !! c = Some o) ∧
  (∀ m, m ≠ n → all_inodes_set_ s1 !! m = all_inodes_set_ s !! m) ∧
  (if b then all_inodes_set_ s1 !! n = Some a else objs s !! a = None).
Proof.
  intros Hwf Hread. unfold getInode. destruct (default 0 (all_inodes_set_ s !! n) =? 0) eqn:E; cbn [negb]; cbv iota.
  - apply Z.eqb_eq in E. destruct Hread as [(a & Ha & Hne)|(i & Hi & Hn)]; [by rewrite Ha in E|].
    unfold getInode_disc. cbn [disc_ set_all]. rewrite Hi. cbn [mbind res_bind]. unfold new_obj. cbn [mbind res_bind].
    pose proof (wf_next _ Hwf). do 4 eexists. split; [done|]. simpl. rewrite lookup_insert_eq.
    split_and!; [lia|done..|lia|lia| | | |].
    + intros c o Hc. rewrite lookup_insert_ne; [done|]. pose proof (wf_obj _ Hwf c o Hc). lia.
    + intros c o Hc. destruct (decide (c = next (heap_ s))) as [->|]; [by left|right]. by rewrite lookup_insert_ne in Hc.
    + intros m Hm. by rewrite lookup_insert_ne.
    + destruct (objs s !! next (heap_ s)) as [o|] eqn:E'; [|done]. pose proof (wf_obj _ Hwf _ o E'). lia.
  - apply Z.eqb_neq in E. destruct (all_inodes_set_ s !! n) as [a|] eqn:Ha; [|done]. simpl in E.
    destruct (wf_set _ Hwf n a Ha E) as (o & Ho & Hn). pose proof (wf_obj _ Hwf a o Ho).
    do 3 eexists. exists o. split; [done|]. simpl. rewrite lookup_insert_eq.
    split_and!; [lia|done..|lia|lia|done|by right| |done].
    intros m Hm. by rewrite lookup_insert_ne.
Qed.

Lemma load_entry_loads s this o d n nm : wf s → objs s !! this = Some o → dentries (heap_ s) !! i_dentry_ o = Some d →
  readable s n →
  ∃ s' a, load_entry s this n nm = Val s' ∧ wf s' ∧ extends (i_dentry_ o) s s' ∧
    dentries (heap_ s') !! i_dentry_ o = Some (with_child (d_child_ d ++ [a]) d) ∧ child_of s' (i_dentry_ o) a (n, nm).
Proof.
  intros Hwf Ho Hd Hread. set (pd := i_dentry_ o) in *. unfold load_entry.
  destruct (getInode_gives s n Hwf Hread) as (s1 & a & b & o1 & -> & Ha & Ho1 & Hn1 & Ed & Edt & Enx & Hax & Hk & Hk' & Hset & Hb).
  cbn [mbind res_bind]. rewrite (proj2 (Z.eqb_neq a 0)) by lia.
  pose proof (wf_dentry _ Hwf pd d Hd) as Hpd. set (nd := next (heap_ s1)) in *.
  destruct (hang_dentry (heap_ s1) pd d nm) as (h1 & h2 & E1 & E2 & Enx2 & E3); [by rewrite Edt| |fold nd; lia|fold nd; lia|].
  { intros Hc. pose proof (wf_child _ Hwf pd d _ Hd Hc) as Hlt. fold nd in Hlt. lia. }
  change (new_dentry nm (heap_ s1)) with ((new_dentry nm (heap_ s1)).1, nd). cbv iota beta.
  rewrite (found _ _ _ (Hk _ _ Ho)). cbn [mbind res_bind]. fold pd. fold nd in E1, E2, E3. rewrite E1. cbn [mbind res_bind].
  rewrite E2. cbn [mbind res_bind]. cbn [objs set_heap]. rewrite (found _ _ _ Ho1). cbn [mbind res_bind].
  destruct (E3 a) as (h3 & E3a & Enx3 & Edt3).
  set (o2 := if b then with_others (other_dentries_ o1 ++ [nd]) o1 else with_dentry nd o1).
  set (m3 := if b then all_inodes_set_ s1 else <[n := a]> (all_inodes_set_ s1)).
  assert (Hm3 : m3 !! n = Some a ∧ ∀ m, m ≠ n → m3 !! m = all_inodes_set_ s !! m).
  { unfold m3. destruct b; [by split|]. rewrite lookup_insert_eq. split; [done|]. intros m Hm. rewrite lookup_insert_ne by done. auto. }
  destruct Hm3 as [Hm3 Hm3'].
  set (s' := mkVolume (disc_ s) h3 (<[a := o2]> (objs s1)) (this_sb s1) (s_root_ s1) (mounted_over_ s1) (used_inodes_ s1)
               (if b then all_inodes_ s1 else all_inodes_ s1 ++ [a]) (s_files_ s1) m3).
  exists s', nd. split.
  { unfold s', o2, m3, all_inodes_add_inode, on_heap, put_obj. rewrite <- Ed. destruct b; cbn [negb mbind res_bind heap_ objs set_heap set_objs].
    - rewrite E3a. done.
    - rewrite (found _ a _ (lookup_insert_eq _ _ _)). cbn [mbind res_bind node with_dentry]. rewrite Hn1.
      change (heap_ (set_all _ _ _)) with h2. rewrite E3a. done. }
  assert (Hnode : node o2 = node o1 ∧ children_loaded_ o2 = children_loaded_ o1 ∧ i_files_ o2 = i_files_ o1) by (unfold o2; by destruct b).
  assert (Hobj : ∀ c x, objs s1 !! c = Some x → ∃ x', objs s' !! c = Some x' ∧ node x' = node x).
  { intros c x Hx. destruct (decide (c = a)) as [->|Hne]; unfold s'; simpl.
    - exists o2. rewrite lookup_insert_eq. split; [done|]. replace x with o1 by congruence. apply Hnode.
    - exists x. by rewrite lookup_insert_ne. }
  split_and!.
  - split; simpl; rewrite ?Enx3, ?Edt3; [lia|..].
    + intros m c Hm Hc. destruct (decide (m = n)) as [->|Hne].
      * rewrite Hm3 in Hm. injection Hm as <-. exists o2. rewrite lookup_insert_eq. split; [done|]. by rewrite (proj1 Hnode).
      * rewrite Hm3' in Hm by done. destruct (wf_set _ Hwf m c Hm Hc) as (x & Hx & <-).
        destruct (Hobj c x (Hk _ _ Hx)) as (x' & Hx' & <-). eauto.
    + intros c x Hx. apply lookup_insert_Some in Hx as [[<- _]|[_ Hx]]; [lia|].
      destruct (Hk' c x Hx) as [->|Hx']; [lia|]. pose proof (wf_obj _ Hwf c x Hx'). lia.
    + intros c x Hx. apply lookup_insert_Some in Hx as [[<- _]|[_ Hx]]; [lia|].
      apply lookup_insert_Some in Hx as [[<- _]|[_ Hx]]; [lia|]. rewrite Edt in Hx. pose proof (wf_dentry _ Hwf c x Hx). lia.
    + intros c x y Hx Hy. apply lookup_insert_Some in Hx as [[<- <-]|[_ Hx]]; [by apply not_elem_of_nil in Hy|].
      apply lookup_insert_Some in Hx as [[<- <-]|[_ Hx]].
      * simpl in Hy. apply elem_of_app in Hy as [Hy|Hy%list_elem_of_singleton]; [|lia]. pose proof (wf_child _ Hwf pd d y Hd Hy). lia.
      * rewrite Edt in Hx. pose proof (wf_child _ Hwf c x y Hx Hy). lia.
  - split; simpl; rewrite ?Edt3; [done|..].
    + intros c x Hx. pose proof (Hk c x Hx) as Hx1. destruct (decide (a = c)) as [<-|Hne].
      * exists o2. rewrite lookup_insert_eq. replace x with o1 by congruence. split_and!; [done|apply Hnode| |apply Hnode..].
        unfold o2. destruct b; [done|congruence].
      * exists x. by rewrite lookup_insert_ne.
    + intros c x Hx Hc. pose proof (wf_dentry _ Hwf c x Hx). rewrite !lookup_insert_ne by lia. by rewrite Edt.
    + intros x Hx. exists [nd]. rewrite lookup_insert_ne by lia. rewrite lookup_insert_eq. by replace x with d by congruence.
    + intros m [(c & Hc & Hc0)|Hi]; [|by right]. left. destruct (decide (m = n)) as [->|Hne]; [exists a; split; [done|lia]|].
      exists c. by rewrite Hm3'.
  - simpl. rewrite Edt3, lookup_insert_ne by lia. apply lookup_insert_eq.
  - exists (mkDentry a pd [] 0 nm), o2. simpl. rewrite Edt3, !lookup_insert_eq. split_and!; [done..|]. by rewrite (proj1 Hnode).
Qed.

(** What a part of the loading of [this] achieves for the entries [es]. *)
Definition loads (s : volume (D := D)) (pd : Z) (es : list (Z * list Z)) (s' : volume (D := D)) : Prop :=
  wf s' ∧ extends pd s s' ∧ ∀ d, dentries (heap_ s) !! pd = Some d →
    ∃ l, dentries (heap_ s') !! pd = Some (with_child (d_child_ d ++ l) d) ∧ Forall2 (child_of s' pd) l es.

Lemma loads_refl s pd : wf s → loads s pd [] s.
Proof.
  intros Hwf. split_and!; [done|apply extends_refl|]. intros d Hd. exists []. rewrite app_nil_r, Hd. split; [by destruct d|constructor].
Qed.

Lemma loads_trans s1 s2 s3 pd es1 es2 : loads s1 pd es1 s2 → loads s2 pd es2 s3 → loads s1 pd (es1 ++ es2) s3.
Proof.
  intros (_ & E1 & P1) (W2 & E2 & P2). split_and!; [done|by eapply extends_trans|].
  intros d Hd. destruct (P1 d Hd) as (l1 & D1 & F1). destruct (P2 _ D1) as (l2 & D2 & F2). exists (l1 ++ l2). split.
  - rewrite D2. simpl. by rewrite (assoc_L (++)).
  - apply Forall2_app; [|done]. eapply Forall2_impl; [exact F1|]. intros a e. by apply child_of_extends.
Qed.

Lemma load_block_loads b this : Z.of_nat (length b) = BLOCK_SIZE → ∀ n k s o d, 0 <= k →
  k + Z.of_nat n <= Dir.per_block (header (disc_ s)) → wf s → objs s !! this = Some o →
  dentries (heap_ s) !! i_dentry_ o = Some d →
  (∀ e, e ∈ Dir.children (header (disc_ s)) (Dir.slot (header (disc_ s)) b <$> seqZ k (Z.of_nat n)) → readable s e.1) →
  ∃ s', load_block n s this b (k * INODE_SIZE (header (disc_ s))) = Val s' ∧
    loads s (i_dentry_ o) (Dir.children (header (disc_ s)) (Dir.slot (header (disc_ s)) b <$> seqZ k (Z.of_nat n))) s'.
Proof.
  intros Hb. induction n as [|n IH]; intros k s o d Hk Hn Hwf Ho Hd Hread.
  { exists s. split; [done|]. by apply loads_refl. }
  set (h := header (disc_ s)) in *. pose proof (Dir.layout_facts h) as (HS & HB & HN & HP & HP0 & HM).
  destruct (Dir.slot_fits h b k Hb ltac:(lia)) as (F1 & _ & F2).
  assert (Hseq : seqZ k (Z.of_nat (S n)) = k :: seqZ (k + 1) (Z.of_nat n)).
  { rewrite seqZ_cons by lia. f_equal. f_equal; lia. }
  rewrite Hseq in Hread |- *. rewrite fmap_cons in Hread |- *.
  change (Dir.children h (Dir.slot h b k :: (Dir.slot h b <$> seqZ (k + 1) (Z.of_nat n)))) with
    (Dir.held h (Dir.slot h b k) ++ Dir.children h (Dir.slot h b <$> seqZ (k + 1) (Z.of_nat n))) in Hread |- *.
  cbn [load_block]. fold h. rewrite load_le_sub by (repeat split; simpl; lia). cbn [mbind res_bind].
  assert (En : unle (sub b (k * INODE_SIZE h) (Z.of_nat 2)) = Dir.slot_num (Dir.slot h b k)).
  { unfold Dir.slot_num, Inode.word_at, Dir.slot. rewrite sub_sub by (simpl; lia). by rewrite Z.add_0_r. }
  rewrite En. clear En.
  assert (Hstep : ∃ s1, (if Dir.slot_num (Dir.slot h b k) =? 0 then Val s
      else name ← slice b (k * INODE_SIZE h + INODE_BYTES h) (MAX_NAME_LENGTH h);
           load_entry s this (Dir.slot_num (Dir.slot h b k)) (Dir.until_nul name)) = Val s1 ∧
      loads s (i_dentry_ o) (Dir.held h (Dir.slot h b k)) s1).
  { unfold Dir.held in Hread |- *. destruct (Dir.slot_num (Dir.slot h b k) =? 0); [exists s; split; [done|by apply loads_refl]|].
    rewrite slice_fits by (repeat split; lia). cbn [mbind res_bind].
    destruct (load_entry_loads s this o d (Dir.slot_num (Dir.slot h b k)) (Dir.slot_name h (Dir.slot h b k)))
      as (s1 & a & E & W & X & P & C); [done..|apply (Hread (_, Dir.slot_name h (Dir.slot h b k))); by left|].
    exists s1. split.
    - rewrite <- E. unfold Dir.slot_name, Dir.slot. by rewrite sub_sub by lia.
    - split_and!; [done..|]. intros d' Hd'. exists [a]. replace d' with d by congruence. split; [done|]. by repeat constructor. }
  destruct Hstep as (s1 & -> & Hl1). cbn [mbind res_bind]. pose proof Hl1 as (W1 & X1 & P1).
  pose proof (ex_disc _ _ _ X1) as Ed. destruct (ex_obj _ _ _ X1 _ _ Ho) as (o1 & Ho1 & _ & Ei & _).
  destruct (ex_pd _ _ _ X1 _ Hd) as [l El].
  destruct (IH (k + 1) s1 o1 (with_child (d_child_ d ++ l) d)) as (s2 & E2 & Hl2);
    [lia|rewrite Ed; fold h; lia|done|done|by rewrite Ei| |].
  { rewrite Ed. fold h. intros e He. apply (ex_readable _ _ _ X1), Hread, elem_of_app. by right. }
  exists s2. rewrite Ed in E2, Hl2. fold h in E2, Hl2. rewrite Ei in Hl2. split; [|by eapply loads_trans].
  rewrite <- E2. f_equal. lia.
Qed.

Lemma load_zones_loads this zs : ∀ n zone s o d, 0 <= zone → zone + Z.of_nat n = Z.of_nat (length zs) →
  disc_ok (disc_ s) → Zone.rep (header (disc_ s)) (Inode.i_zones_ (node o)) zs → (∀ z, z ∈ zs → on_disc (disc_ s) z) →
  wf s → objs s !! this = Some o → dentries (heap_ s) !! i_dentry_ o = Some d →
  (∀ e, e ∈ Dir.dir_children (disc_ s) (drop (Z.to_nat zone) zs) → readable s e.1) →
  ∃ s', load_zones n s this zone = Val s' ∧ loads s (i_dentry_ o) (Dir.dir_children (disc_ s) (drop (Z.to_nat zone) zs)) s'.
Proof.
  induction n as [|n IH]; intros zone s o d Hz Hn Hdisc Hr Hin Hwf Ho Hd Hread; cbn [load_zones];
    rewrite (found _ _ _ Ho); cbn [mbind res_bind]; unfold Zone.getNumZones; rewrite (Zone.rep_num _ _ _ Hr).
  { rewrite (proj2 (Z.ltb_ge zone _)) by lia. exists s. rewrite drop_ge by lia. split; [done|by apply loads_refl]. }
  rewrite (proj2 (Z.ltb_lt zone _)) by lia.
  destruct (lookup_lt_is_Some_2 zs (Z.to_nat zone)) as [v Hv]; [lia|].
  rewrite (Zone.getZone_gets _ _ _ _ Hr) by done. rewrite Hv. cbn [mbind res_bind].
  assert (Hvd : on_disc (disc_ s) v) by (apply Hin; by eapply list_elem_of_lookup_2).
  rewrite readZone_reads by done. cbn [mbind res_bind].
  set (h := header (disc_ s)) in *. pose proof (Dir.layout_facts h) as (_ & _ & _ & _ & HP0 & _).
  replace (set_disc_ (disc_ s) s) with s by (by destruct s).
  rewrite (drop_S _ _ _ Hv) in Hread |- *.
  assert (Edc : Dir.dir_children (disc_ s) (v :: drop (S (Z.to_nat zone)) zs) =
    Dir.children h (Dir.slots h (block (disc_ s) v)) ++ Dir.dir_children (disc_ s) (drop (S (Z.to_nat zone)) zs)).
  { unfold Dir.dir_children. fold h. rewrite <- Dir.children_app. done. }
  rewrite Edc in Hread |- *. clear Edc.
  destruct (load_block_loads (block (disc_ s) v) this (block_length _ _ Hdisc Hvd) (Z.to_nat (Dir.per_block h)) 0 s o d)
    as (s1 & E1 & Hl1); [done|fold h; lia|done..| |].
  { fold h. rewrite Z2Nat.id by lia. intros e He. apply Hread, elem_of_app. by left. }
  fold h in E1, Hl1. rewrite Z2Nat.id in Hl1 by lia. change (0 * INODE_SIZE h) with 0 in E1.
  fold (Dir.per_block h). rewrite E1. cbn [mbind res_bind]. pose proof Hl1 as (W1 & X1 & _).
  pose proof (ex_disc _ _ _ X1) as Ed. destruct (ex_obj _ _ _ X1 _ _ Ho) as (o1 & Ho1 & En & Ei & _).
  destruct (ex_pd _ _ _ X1 _ Hd) as [l El].
  destruct (IH (zone + 1) s1 o1 (with_child (d_child_ d ++ l) d)) as (s2 & -> & Hl2);
    [lia|lia|by rewrite Ed|by rewrite Ed, En|by rewrite Ed|done|done|by rewrite Ei| |].
  { rewrite Ed. replace (Z.to_nat (zone + 1)) with (S (Z.to_nat zone)) by lia.
    intros e He. apply (ex_readable _ _ _ X1), Hread, elem_of_app. by right. }
  exists s2. split; [done|]. rewrite Ed, Ei in Hl2. replace (Z.to_nat (zone + 1)) with (S (Z.to_nat zone)) in Hl2 by lia.
  by eapply loads_trans.
Qed.

Lemma check_children_found s pd nm n : ∀ l es j, Forall2 (child_of s pd) l es → es !! j = Some (n, nm) →
  (∀ i e, (i < j)%nat → es !! i = Some e → e.2 ≠ nm) →
  ∃ a, check_children (heap_ s) l nm = Val a ∧ l !! j = Some a ∧ child_of s pd a (n, nm).
Proof.
  intros l es j Hall. revert j. induction Hall as [|a e l es Ha Hall IH]; intros j Hj Hfirst; [done|].
  pose proof Ha as (d & o & Hd & Hnm & _). cbn [check_children]. rewrite (found _ _ _ Hd). cbn [mbind res_bind].
  destruct j as [|j]; simpl in Hj.
  - injection Hj as ->. rewrite bool_decide_true by done. exists a. done.
  - rewrite bool_decide_false by (rewrite Hnm; apply (Hfirst 0%nat); [lia|done]).
    destruct (IH j Hj) as (a' & ? & ? & ?); [|by exists a'].
    intros i e' Hi He'. apply (Hfirst (S i)); [lia|done].
Qed.

Lemma wf_put s a o o' : wf s → objs s !! a = Some o → Inode.i_num_ (node o') = Inode.i_num_ (node o) → wf (put_obj a o' s).
Proof.
  intros [W1 W2 W3 W4 W5] Ho Hn. split; simpl; try done.
  - intros n c Hc Hc0. destruct (W2 n c Hc Hc0) as (x & Hx & <-). destruct (decide (a = c)) as [<-|Hne].
    + exists o'. rewrite lookup_insert_eq. split; [done|]. congruence.
    + exists x. by rewrite lookup_insert_ne.
  - intros c x Hx. apply lookup_insert_Some in Hx as [[<- _]|[_ Hx]]; eauto.
Qed.

(** C30: Loading a directory for the first time from the disc, the inodes of whose
    entries can all be found, makes a dentry for every entry of all its zones, in
    their order, with the name and the inode of the entry, leaves the disc alone, is
    done only once, and afterwards the first entry with a name is found under the
    name.  (An entry whose inode is in use but not found is erased:
    [load_entry_forgets].) *)
Theorem loadChildren_loads s this o d zs : wf s → objs s !! this = Some o → dentries (heap_ s) !! i_dentry_ o = Some d →
  d_child_ d = [] → children_loaded_ o = false → fs_ok (disc_ s) → Dir.dir_ok (disc_ s) (node o) zs →
  (∀ e, e ∈ Dir.dir_children (disc_ s) zs → readable s e.1) →
  ∃ s' l, loadChildren s this = Val s' ∧ wf s' ∧ disc_ s' = disc_ s ∧ loadChildren s' this = Val s' ∧
    dentries (heap_ s') !! i_dentry_ o = Some (with_child l d) ∧
    Forall2 (child_of s' (i_dentry_ o)) l (Dir.dir_children (disc_ s) zs) ∧
    ∀ j n nm, Dir.dir_children (disc_ s) zs !! j = Some (n, nm) →
      (∀ i e, (i < j)%nat → Dir.dir_children (disc_ s) zs !! i = Some e → e.2 ≠ nm) →
      ∃ a, checkName (heap_ s') (i_dentry_ o) nm = Val a ∧ child_of s' (i_dentry_ o) a (n, nm).
Proof.
  intros Hwf Ho Hd Hnil Hload Hok Hdir Hread. unfold loadChildren at 1. rewrite (found _ _ _ Ho). cbn [mbind res_bind].
  rewrite Hload. unfold Zone.getNumZones. rewrite (Zone.rep_num _ _ _ (Dir.dr_rep _ _ _ Hdir)).
  destruct (load_zones_loads this zs (length zs) 0 s o d) as (s1 & E & W & X & P);
    [done|done|apply Hok|apply Hdir|intros z; by eapply Dir.dir_on_disc|done..|].
  rewrite Nat2Z.id, E. cbn [mbind res_bind]. destruct (ex_obj _ _ _ X _ _ Ho) as (o1 & Ho1 & _).
  rewrite (found _ _ _ Ho1). cbn [mbind res_bind]. destruct (P d Hd) as (l & Hl & Hall). rewrite Hnil in Hl. simpl in Hl.
  change (drop (Z.to_nat 0) zs) with zs in Hall.
  assert (Hall' : Forall2 (child_of (put_obj this (with_loaded true o1) s1) (i_dentry_ o)) l (Dir.dir_children (disc_ s) zs)).
  { eapply Forall2_impl; [exact Hall|]. intros a e (x & y & Hx & ? & ? & Hy & ?). exists x. simpl.
    destruct (decide (this = d_inode_ x)) as [Ei|Hne].
    - exists (with_loaded true o1). rewrite <- Ei in Hy |- *. rewrite lookup_insert_eq. assert (y = o1) as -> by congruence. done.
    - exists y. by rewrite lookup_insert_ne. }
  exists (put_obj this (with_loaded true o1) s1), l. split_and!; [done|by eapply wf_put|apply X| |done|done|].
  - unfold loadChildren. simpl. by rewrite (found _ _ _ (lookup_insert_eq _ _ _)).
  - intros j n nm Hj Hfirst. destruct (check_children_found _ _ _ n l _ j Hall' Hj Hfirst) as (a & Ea & _ & Hc).
    exists a. split; [|done]. unfold checkName. simpl. by rewrite (found _ _ _ Hl).
Qed.

(** An entry whose inode is in use but has a number beyond the count of the used
    ones is taken for dead: loading the directory erases it from the disc. *)
Lemma load_entry_forgets s this o zs n nm : fs_ok (disc_ s) → Dir.dir_ok (disc_ s) (node o) zs → objs s !! this = Some o →
  n ≠ 0 → getNumUsedInodes (storage_manager_ (disc_ s)) <= n → default 0 (all_inodes_set_ s !! n) = 0 →
  (n, nm) ∈ Dir.dir_children (disc_ s) zs →
  ∃ s' nm', load_entry s this n nm = Val s' ∧ heap_ s' = heap_ s ∧
    Dir.dir_children (disc_ s) zs ≡ₚ (n, nm') :: Dir.dir_children (disc_ s') zs.
Proof.
  intros Hok Hdir Ho Hn Hc Hset Hin. unfold load_entry, getInode. rewrite Hset. change (0 =? 0) with true. cbn [negb]. cbv iota.
  unfold getInode_disc. cbn [disc_ set_all]. rewrite (Inode.getInode_beyond_count _ _ Hc). cbn [mbind res_bind].
  change (0 =? 0) with true. cbv iota. unfold writeDentry. cbn [objs disc_ set_all set_disc_]. rewrite (found _ _ _ Ho). cbn [mbind res_bind].
  destruct (Dir.writeDentry_erases (disc_ s) (node o) zs n) as (f & nm' & E & _ & _ & _ & Hch); [done..|by exists nm|].
  change ([] ++ [0]) with [0]. rewrite E. cbn [mbind res_bind]. do 2 eexists. by split_and!.
Qed.

(** ** Creating a file *)

(** A dentry under the directory [p], which has the zones [zs], on a volume whose
    next free inode is number [n]. *)
Record creatable (s : volume (D := D)) (dentry : Z) (d : Dentry) (p : Z) (po : MinixFSInode) (zs : list Z) (n : Z) : Prop := {
  cr_wf : wf s;
  cr_fs : fs_ok (disc_ s);
  cr_dentry : dentries (heap_ s) !! dentry = Some d;
  cr_parent : ∃ pd, dentries (heap_ s) !! d_parent_ d = Some pd ∧ d_inode_ pd = p;
  cr_obj : objs s !! p = Some po;
  cr_dir : Dir.dir_ok (disc_ s) (node po) zs;
  cr_name : Dir.name_ok (d_name_ d);
  cr_next : next_inode (storage_manager_ (disc_ s)) = Some n;
  cr_number : 1 <= n;
  cr_block : on_disc (disc_ s) (Zone.inode_block (header (disc_ s)) n) ∧
    Zone.inode_block (header (disc_ s)) n < s_1st_datazone_ (header (disc_ s));
  cr_layout : 0 <= s_num_inode_bm_blocks_ (header (disc_ s)) < 2 ^ 16 ∧ 0 <= s_num_zone_bm_blocks_ (header (disc_ s)) < 2 ^ 16;
  cr_room : Z.of_nat (length zs) + 1 <= Zone.capacity (header (disc_ s)) ∧ 4 <= free (disc_ s);
}.

Definition new_file (h : MinixFSSuperblock) (nlink n : Z) : Inode.MinixFSInode :=
  Inode.mkInode Inode.I_FILE 0 nlink n (Zone.no_zones h).

Lemma no_tables (f : fs D) : Zone.tables_stored f (Zone.no_zones (header f)).
Proof.
  split_and!; [..|constructor]; simpl; by intros v ->%Zone.zeros_lookup.
Qed.

Lemma no_meta h : Zone.meta (Zone.no_zones h) = [].
Proof.
  unfold Zone.meta, Zone.no_zones. simpl. rewrite app_nil_r. unfold Zone.zeros. rewrite drop_replicate.
  pose proof (Zone.zeros_filter (Z.of_nat (Z.to_nat (NUM_ZONES h) - 7))) as Ez. unfold Zone.zeros in Ez. by rewrite Nat2Z.id in Ez.
Qed.

(** [new MinixFSInode(...)] for an empty file. *)
Lemma new_empty (f : fs D) n : fs_ok f →
  Inode.new f (Z.lor 0x01ff 0x8000) 0 0 (local_array (NUM_ZONES (header f))) n = Val (f, new_file (header f) 0 n).
Proof.
  intros Hok. unfold Inode.new. pose proof (Zone.new_reads f (Zone.no_zones (header f)) []) as E.
  pose proof (no_meta (header f)) as Hm.
  change (Zone.direct_zones_ (Zone.no_zones (header f))) with (local_array (NUM_ZONES (header f))) in E.
  rewrite E; [done|apply Hok|apply Zone.rep_empty|rewrite Hm; by intros b ?%not_elem_of_nil|by apply no_tables].
Qed.

Lemma set_storage_ok (f : fs D) sm : fs_ok f → storage_ok sm → zone_bitmap_ sm = zone_bitmap_ (storage_manager_ f) → fs_ok (set_storage sm f).
Proof.
  intros [[Hd Hs] Hst Hz Hf Hb Hn] Hsm E. unfold zone_used, num_bits in *. split; simpl; unfold zone_used, num_bits; simpl; rewrite ?E; done.
Qed.

Lemma moved_dir (f f' : fs D) ino zs : header f' = header f → zone_bitmap_ (storage_manager_ f') = zone_bitmap_ (storage_manager_ f) →
  Dir.dir_ok f ino zs → Dir.dir_ok f' ino zs.
Proof.
  intros Hh Hb [Hr Hu Hn Hs]. split; rewrite ?Hh; try done. intros z Hz. destruct (Hu z Hz) as [Hd Hus].
  unfold data_zone, zused, zone_used, zone_bit, num_bits in *. by rewrite Hh, Hb.
Qed.

Lemma used_inodes_bound sm : storage_ok sm → 0 <= Bitmap.num_bits_set_ (inode_bitmap_ sm) < 2 ^ 31.
Proof.
  intros Hok. pose proof (st_inodes _ Hok) as Hb. pose proof (st_num_inodes _ Hok).
  rewrite (Bitmap.ok_count _ Hb). pose proof (Bitmap.popcount_range _ (Bitmap.ok_bytes _ Hb)) as Hp.
  rewrite (Bitmap.ok_length _ Hb) in Hp. unfold Bitmap.BITMAP_BYTE_COUNT, Bitmap.bits_per_bitmap_atom_ in Hp.
  destruct (0 <? _) in Hp;
  Z.to_euclidean_division_equations; lia.
Qed.

(** What the creation of a file does to the disc: the inode is allocated and
    stored, and its number and name are entered into the directory. *)
Lemma create_on_disc (f : fs D) ino zs n text : fs_ok f → Dir.dir_ok f ino zs → Dir.name_ok text →
  next_inode (storage_manager_ f) = Some n → 1 <= n →
  on_disc f (Zone.inode_block (header f) n) → Zone.inode_block (header f) n < s_1st_datazone_ (header f) →
  0 <= s_num_inode_bm_blocks_ (header f) < 2 ^ 16 → 0 <= s_num_zone_bm_blocks_ (header f) < 2 ^ 16 →
  Z.of_nat (length zs) + 1 <= Zone.capacity (header f) → 4 <= free f →
  ∃ sm f2 f3 ino' zs' stale,
    allocInode (round (inode_bitmap_ (storage_manager_ f))) (storage_manager_ f) = Val (sm, n) ∧
    Inode.new (set_storage sm f) (Z.lor 0x01ff 0x8000) 0 0 (local_array (NUM_ZONES (header f))) n = Val (set_storage sm f, new_file (header f) 0 n) ∧
    Inode.writeInode (set_storage sm f) (new_file (header f) 0 n) = Val f2 ∧
    Inode.writeDentry f2 ino 0 n (text ++ [0]) = Val (f3, ino') ∧
    header f3 = header f ∧ fs_ok f3 ∧ Dir.dir_ok f3 ino' zs' ∧ Inode.i_num_ ino' = Inode.i_num_ ino ∧
    Dir.dir_children f3 zs' ≡ₚ (n, take (Z.to_nat (MAX_NAME_LENGTH (header f))) text) :: Dir.dir_children f zs ++ stale ∧
    (zs' = zs ∧ stale = [] ∨ ∃ v, zs' = zs ++ [v] ∧ data_zone f v ∧ zused f v = false ∧
       stale = Dir.children (header f) (drop 1 (Dir.slots (header f) (block f v)))) ∧
    Inode.getInode f3 n = Val (f3, if n <=? getNumUsedInodes (storage_manager_ f)
      then Some (new_file (header f) (if is_v3 (header f) then 0 else 0x81FF) n) else None).
Proof.
  intros Hok Hdir Hname Hnext Hn Hbd Hblow Hl1 Hl2 Hcap Hfree. pose proof (fo_storage _ Hok) as Hst.
  destruct (next_inode_free _ _ Hst Hnext) as [Hnr Hnu].
  assert (Hround : Bitmap.size_ (inode_bitmap_ (storage_manager_ f)) < Z.of_nat (round (inode_bitmap_ (storage_manager_ f))))
    by (unfold round, Bitmap.getSize; lia).
  pose proof (allocInode_next _ _ Hst Hround ltac:(lia)) as Ha. rewrite Hnext in Ha. destruct Ha as (sm & Ha & _ & Hup).
  destruct (allocInode_counts _ _ _ _ Hst Hround ltac:(lia) Ha) as [Hcount Hzb].
  set (h := header f) in *. set (f1 := set_storage sm f).
  assert (Hok1 : fs_ok f1) by (apply set_storage_ok; [done|apply Hup|done]).
  set (i := new_file h 0 n). set (b := Zone.inode_block h n) in *.
  assert (Hplace : Inode.inode_place_ok f1 i).
  { unfold Inode.inode_place_ok. simpl. change (header f1) with h. rewrite no_meta. fold b.
    split; [|apply NoDup_singleton]. intros c ->%list_elem_of_singleton. apply Hbd. }
  destruct (Inode.writeInode_writes f1 i [] (fo_disc _ Hok1) (Zone.rep_empty h) Hplace) as (f2 & Hw & Ht & Htab & Hblk);
    [by left|done|done|].
  simpl in Ht, Hblk. change (header f1) with h in Ht, Hblk. rewrite no_meta in Ht. fold b in Ht, Hblk.
  pose proof (touched_header _ _ _ Ht) as Hh2. change (header f1) with h in Hh2. pose proof (touched_storage _ _ _ Ht) as Hs2.
  change (storage_manager_ f1) with sm in Hs2.
  assert (Hok2 : fs_ok f2) by (by eapply Inode.touched_fs_ok).
  assert (Hdir2 : Dir.dir_ok f2 ino zs) by (apply (moved_dir f); [done|by rewrite Hs2|done]).
  assert (Hfree2 : free f2 = free f).
  { unfold free, num_bits. rewrite Hs2, Hzb. f_equal. f_equal. apply list_filter_iff. intros q. unfold zone_used. by rewrite Hzb. }
  assert (Hblocks : ∀ v, on_disc f v → v ≠ b → block f2 v = block f v).
  { intros v Hv Hne. rewrite (touched_others _ _ _ Ht); [done|exact Hv|]. by intros ->%list_elem_of_singleton. }
  assert (Hdata : ∀ v, data_zone f v → v ≠ b).
  { intros v [Hv _] ->. unfold zone_bit in Hv. fold h in Hv. lia. }
  destruct (Dir.directory_gains f2 ino zs n text [] Hok2 Hdir2 Hname) as (f3 & ino' & zs' & stale & Hwd & Hok3 & Hdir3 & Hfr & Hch & Hstale);
    [pose proof (st_num_inodes _ Hst); lia|rewrite Hh2; done|lia|].
  pose proof (Inode.fr_header _ _ _ _ _ _ Hfr) as Hh3. rewrite Hh2 in Hh3.
  assert (Hzone : ∀ v, data_zone f3 v → data_zone f v).
  { intros v. pose proof (Inode.fr_bits _ _ _ _ _ _ Hfr) as Hnb. unfold data_zone, zone_bit. rewrite Hh3, Hnb. unfold num_bits. by rewrite Hs2, Hzb. }
  assert (Edc : Dir.dir_children f2 zs = Dir.dir_children f zs).
  { unfold Dir.dir_children, Dir.dir_slots. rewrite Hh2. fold h. do 2 f_equal. apply list_fmap_ext. intros k z Hz. f_equal.
    apply list_elem_of_lookup_2 in Hz. apply Hblocks; [by eapply Dir.dir_on_disc|]. apply Hdata.
    apply (Dir.dr_used _ _ _ Hdir), elem_of_app. by left. }
  rewrite Hh2, Edc in Hch. rewrite Hh2 in Hstale. fold h in Hch, Hstale.
  exists sm, f2, f3, ino', zs', stale. split_and!; [done|by apply new_empty|done|done|done|done|done|apply Hfr|done| |].
  - destruct Hstale as [?|(v & -> & Hvd & Hvu & ->)]; [by left|right]. exists v. split; [done|].
    assert (Hvd' : data_zone f v) by (unfold data_zone, zone_bit, num_bits in *; by rewrite Hh2, Hs2, Hzb in Hvd).
    split; [done|]. split; [unfold zused, zone_used, zone_bit in *; by rewrite Hh2, Hs2, Hzb in Hvu|].
    rewrite Hblocks; [done|by eapply data_zone_on_disc|by apply Hdata].
  - pose proof (Dir.writeDentry_inodes _ _ _ _ _ _ _ Hwd) as Hib. unfold Dir.inodes_of in Hib. rewrite Hs2 in Hib.
    assert (Hb3 : block f3 b = block f2 b).
    { apply Hfr; [unfold on_disc, num_blocks in *; by rewrite Hh2|]. intros Hin. by apply (Dir.dr_used _ _ _ Hdir3) in Hin as [Hin%Hzone%Hdata _]. }
    pose proof (used_inodes_bound _ Hst) as Hub. pose proof (st_num_inodes _ (fo_storage _ Hok)) as Hni.
    assert (Hused : getNumUsedInodes (storage_manager_ f3) = getNumUsedInodes (storage_manager_ f) + 1).
    { unfold getNumUsedInodes, Bitmap.getNumBitsSet in *. rewrite Hib, Hcount, !(wrap_small 32) by lia. done. }
    destruct (Z.leb_spec n (getNumUsedInodes (storage_manager_ f))) as [Hle|Hle]; [|apply Inode.getInode_beyond_count; lia].
    pose proof (Inode.getInode_image f3 i [] (block f1 b)) as E. rewrite Hh3 in E. simpl in E. rewrite no_meta in E. fold b in E.
    apply E; try done; clear E.
    + apply Hok3.
    + apply Hok3.
    + apply Zone.rep_empty.
    + intros c ->%list_elem_of_singleton. unfold on_disc, num_blocks in *. by rewrite Hh3.
    + apply block_length; [apply Hok1|exact Hbd].
    + by rewrite Hb3.
    + by left.
    + rewrite Hib, (up_num_inodes _ _ _ _ Hup). lia.
    + unfold inode_used. rewrite Hib. pose proof (up_inodes _ _ _ _ Hup n ltac:(lia)) as E. unfold inode_used, with_used in E.
      by rewrite bool_decide_true in E.
    + lia.
Qed.

(** The volume with the file [n] at the address [next]. *)
Definition created (s : volume (D := D)) (dentry : Z) (d : Dentry) (p : Z) (po : MinixFSInode) (n : Z) (f : fs D) (ino : Inode.MinixFSInode) : volume :=
  let a := next (heap_ s) in
  mkVolume f (put_dentry dentry (with_inode a d) (set_next (a + 1) (heap_ s)))
    (<[a := mkObj (new_file (header (disc_ s)) 1 n) dentry [] false []]> (<[p := with_node ino po]> (objs s)))
    (this_sb s) (s_root_ s) (mounted_over_ s) (used_inodes_ s) (all_inodes_ s ++ [a]) (s_files_ s)
    (<[n := a]> (all_inodes_set_ s)).

Ltac vol := cbn [disc_ heap_ objs this_sb s_root_ mounted_over_ used_inodes_ all_inodes_ s_files_ all_inodes_set_
  set_disc_ set_heap set_objs set_roots set_used set_all set_fds put_obj].

Lemma volume_ext s s' : disc_ s = disc_ s' → heap_ s = heap_ s' → objs s = objs s' → this_sb s = this_sb s' →
  s_root_ s = s_root_ s' → mounted_over_ s = mounted_over_ s' → used_inodes_ s = used_inodes_ s' →
  all_inodes_ s = all_inodes_ s' → s_files_ s = s_files_ s' → all_inodes_set_ s = all_inodes_set_ s' → s = s'.
Proof. destruct s, s'. simpl. by intros -> -> -> -> -> -> -> -> -> ->. Qed.

(** What mkfile leaves of a volume: the parent's directory has the entry, the file has its
    dentry and one more link. *)
Lemma mkfile_runs t a dentry o d p po f ino : dentry ≠ 0 → p ≠ a → objs t !! a = Some o → Inode.i_type_ (node o) = Inode.I_FILE →
  dentries (heap_ t) !! dentry = Some d → (∃ pd, dentries (heap_ t) !! d_parent_ d = Some pd ∧ d_inode_ pd = p) → objs t !! p = Some po →
  Inode.writeDentry (disc_ t) (node po) 0 (Inode.i_num_ (node o)) (d_name_ d ++ [0]) = Val (f, ino) →
  mkfile t a dentry = Val (mkVolume f (put_dentry dentry (with_inode a d) (heap_ t))
    (<[a := with_node (more_links (node o)) (with_dentry dentry o)]> (<[p := with_node ino po]> (objs t)))
    (this_sb t) (s_root_ t) (mounted_over_ t) (used_inodes_ t) (all_inodes_ t) (s_files_ t) (all_inodes_set_ t), 0).
Proof.
  destruct t as [f0 h m sb r mo used all fds set]. cbn [objs heap_ disc_ this_sb s_root_ mounted_over_ used_inodes_ all_inodes_ s_files_ all_inodes_set_].
  intros Hd0 Hpa Ho Ht Hd (pd & Hpd & Hpi) Hpo Ed. unfold mkfile. vol. rewrite (proj2 (Z.eqb_neq dentry 0) Hd0), (found _ a _ Ho).
  cbn [mbind res_bind]. rewrite Ht. change (negb (Inode.I_FILE =? Inode.I_FILE)) with false. cbv iota. unfold parent_inode, getName. vol.
  rewrite (found _ _ _ Hd). cbn [mbind res_bind]. rewrite (found _ _ _ Hpd). cbn [mbind res_bind]. rewrite Hpi.
  unfold writeDentry at 1. vol. rewrite (found _ p po) by (by rewrite lookup_insert_ne). cbn [mbind res_bind]. rewrite Ed. cbn [mbind res_bind].
  unfold on_heap, setInode. vol. rewrite (found _ _ _ Hd). cbn [mbind res_bind]. unfold change. vol.
  rewrite (found _ a (with_dentry dentry o)) by (rewrite lookup_insert_ne by done; apply lookup_insert_eq). cbn [mbind res_bind].
  match goal with |- Val (?x, 0) = Val (?y, 0) => assert (x = y) as ->; [|done] end.
  apply volume_ext; [reflexivity|reflexivity| |reflexivity..]. vol. rewrite (insert_insert_ne _ p a) by done. by rewrite insert_insert_eq.
Qed.

Lemma createInode_runs s dentry d p po n sm f2 f3 ino : wf s → dentries (heap_ s) !! dentry = Some d →
  (∃ pd, dentries (heap_ s) !! d_parent_ d = Some pd ∧ d_inode_ pd = p) → objs s !! p = Some po →
  allocInode (round (inode_bitmap_ (storage_manager_ (disc_ s)))) (storage_manager_ (disc_ s)) = Val (sm, n) →
  Inode.new (set_storage sm (disc_ s)) (Z.lor 0x01ff 0x8000) 0 0 (local_array (NUM_ZONES (header (disc_ s)))) n =
    Val (set_storage sm (disc_ s), new_file (header (disc_ s)) 0 n) →
  Inode.writeInode (set_storage sm (disc_ s)) (new_file (header (disc_ s)) 0 n) = Val f2 →
  Inode.writeDentry f2 (node po) 0 n (d_name_ d ++ [0]) = Val (f3, ino) →
  createInode s dentry Inode.I_FILE = Val (created s dentry d p po n f3 ino, next (heap_ s)).
Proof.
  intros Hwf Hd Hpd Hpo Ea En Ew Ed. set (a := next (heap_ s)).
  pose proof (wf_next _ Hwf) as Hpos. pose proof (wf_dentry _ Hwf _ _ Hd) as Hdr. pose proof (wf_obj _ Hwf _ _ Hpo) as Hpr. fold a in Hpos, Hdr, Hpr.
  clear Hwf. destruct s as [f0 h m sb r mo used all fds mset].
  unfold createInode. unfold created. cbn [disc_ heap_ objs this_sb s_root_ mounted_over_ used_inodes_ all_inodes_ s_files_ all_inodes_set_] in *.
  change (Inode.I_FILE =? Inode.I_FILE) with true. cbv iota. rewrite Ea. cbn [mbind res_bind].
  change (header (set_storage sm f0)) with (header f0). rewrite En. cbn [mbind res_bind].
  unfold new_obj. vol. fold a. unfold all_inodes_add_inode. vol.
  rewrite (found _ a _ (lookup_insert_eq _ _ _)). cbn [mbind res_bind node new_file Inode.i_num_]. fold (new_file (header f0) 0 n).
  unfold writeInode. vol. rewrite (proj2 (Z.eqb_neq a 0)) by lia. cbn [negb kassert mbind res_bind].
  rewrite bool_decide_true by (apply elem_of_app; right; by left). cbn [kassert mbind res_bind].
  rewrite (found _ a _ (lookup_insert_eq _ _ _)). cbn [mbind res_bind node]. rewrite Ew. cbn [mbind res_bind].
  change (Inode.I_FILE =? Inode.I_DIR) with false. cbv iota.
  set (o := mkObj (new_file (header f0) 0 n) 0 [] false []).
  rewrite (mkfile_runs _ a dentry o d p po f3 ino); vol; [|lia|lia|apply lookup_insert_eq|done|done|done|by rewrite lookup_insert_ne by lia|done].
  cbn [mbind res_bind]. change (0 =? 0) with true. cbn [kassert mbind res_bind].
  assert (Hl : with_node (more_links (node o)) (with_dentry dentry o) = mkObj (new_file (header f0) 1 n) dentry [] false []) by reflexivity.
  rewrite Hl. do 3 f_equal. rewrite (insert_insert_ne _ a p), insert_insert_eq by lia. by rewrite (insert_insert_ne _ p a) by lia.
Qed.

Lemma wf_created s dentry d p po n f ino : wf s → dentries (heap_ s) !! dentry = Some d → objs s !! p = Some po →
  Inode.i_num_ ino = Inode.i_num_ (node po) → wf (created s dentry d p po n f ino).
Proof.
  intros Hwf Hd Hpo Hn. pose proof (wf_next _ Hwf). set (a := next (heap_ s)) in *.
  assert (Ha : ∀ c o, objs s !! c = Some o → c ≠ a) by (intros c o Hc; pose proof (wf_obj _ Hwf c o Hc); unfold a; lia).
  split; unfold created; simpl; fold a; [lia|..].
  - intros m c Hm Hc. apply lookup_insert_Some in Hm as [[<- <-]|[Hne Hm]]; [eexists; split; [apply lookup_insert_eq|done]|].
    destruct (wf_set _ Hwf m c Hm Hc) as (o & Ho & <-). pose proof (Ha c o Ho). rewrite lookup_insert_ne by done.
    destruct (decide (p = c)) as [<-|Hpc].
    + exists (with_node ino po). rewrite lookup_insert_eq. split; [done|]. simpl. congruence.
    + exists o. by rewrite lookup_insert_ne.
  - intros c o Hc. apply lookup_insert_Some in Hc as [[<- _]|[_ Hc]]; [lia|].
    apply lookup_insert_Some in Hc as [[<- _]|[_ Hc]]; [pose proof (wf_obj _ Hwf p po Hpo)|pose proof (wf_obj _ Hwf c o Hc)]; unfold a; lia.
  - intros c x Hc. apply lookup_insert_Some in Hc as [[<- _]|[_ Hc]]; [pose proof (wf_dentry _ Hwf _ _ Hd)|pose proof (wf_dentry _ Hwf c x Hc)]; unfold a; lia.
  - intros c x y Hc Hy. apply lookup_insert_Some in Hc as [[<- <-]|[_ Hc]];
      [pose proof (wf_child _ Hwf _ _ y Hd Hy)|pose proof (wf_child _ Hwf c x y Hc Hy)]; unfold a; lia.
Qed.

(** C31: Creating a file on a volume with a free inode, four free zones and room in
    the directory takes the next free inode, links the new inode with its dentry,
    stores it on the disc, and enters number and name into the directory, whose
    other entries stay.  [getInode] finds the stored inode by its number if the
    number is at most the count of the inodes in use before, and otherwise, as after
    deletions, does not find it.  A directory that needs a new zone gains the
    entries that the zone's block held before. *)
Theorem createInode_stores s dentry d p po zs n : creatable s dentry d p po zs n →
  ∃ s' po' zs' stale, createInode s dentry Inode.I_FILE = Val (s', next (heap_ s)) ∧ wf s' ∧ fs_ok (disc_ s') ∧
    objs s' !! next (heap_ s) = Some (mkObj (new_file (header (disc_ s)) 1 n) dentry [] false []) ∧
    dentries (heap_ s') = <[dentry := with_inode (next (heap_ s)) d]> (dentries (heap_ s)) ∧
    all_inodes_set_ s' !! n = Some (next (heap_ s)) ∧ all_inodes_ s' = all_inodes_ s ++ [next (heap_ s)] ∧
    objs s' !! p = Some po' ∧ i_dentry_ po' = i_dentry_ po ∧ Dir.dir_ok (disc_ s') (node po') zs' ∧
    Dir.dir_children (disc_ s') zs' ≡ₚ
      (n, take (Z.to_nat (MAX_NAME_LENGTH (header (disc_ s)))) (d_name_ d)) :: Dir.dir_children (disc_ s) zs ++ stale ∧
    (zs' = zs ∧ stale = [] ∨ ∃ v, zs' = zs ++ [v] ∧ data_zone (disc_ s) v ∧ zused (disc_ s) v = false ∧
       stale = Dir.children (header (disc_ s)) (drop 1 (Dir.slots (header (disc_ s)) (block (disc_ s) v)))) ∧
    Inode.getInode (disc_ s') n = Val (disc_ s', if n <=? getNumUsedInodes (storage_manager_ (disc_ s))
      then Some (new_file (header (disc_ s)) (if is_v3 (header (disc_ s)) then 0 else 0x81FF) n) else None).
Proof.
  intros [Hwf Hok Hd (pd & Hpd & Hpi) Hpo Hdir Hname Hnext Hn [Hb1 Hb2] [Hl1 Hl2] [Hcap Hfree]].
  destruct (create_on_disc (disc_ s) (node po) zs n (d_name_ d))
    as (sm & f2 & f3 & ino' & zs' & stale & Ea & En & Ew & Ed & Hh & Hok3 & Hdir3 & Hnum & Hch & Hst & Hg); [done..|].
  pose proof (wf_obj _ Hwf _ _ Hpo) as Hpr.
  exists (created s dentry d p po n f3 ino'), (with_node ino' po), zs', stale.
  split_and!; try done.
  - eapply createInode_runs; eauto.
  - by apply wf_created.
  - apply lookup_insert_eq.
  - apply lookup_insert_eq.
  - simpl. rewrite lookup_insert_ne by lia. apply lookup_insert_eq.
Qed.

(** ** Removing a file *)

(** The file [this], not open, with the dentry [dentry] in the directory [p],
    which has the dentry [pd], and the zones [zs]. *)
Record removable (s : volume (D := D)) (this : Z) (o : MinixFSInode) (d pd : Dentry) (po : MinixFSInode) (zs : list Z) : Prop := {
  rm_fs : fs_ok (disc_ s);
  rm_obj : objs s !! this = Some o;
  rm_number : Inode.i_num_ (node o) ≠ 0;
  rm_null : i_dentry_ o ≠ 0;
  rm_dentry : dentries (heap_ s) !! i_dentry_ o = Some d;
  rm_inode : d_inode_ d = this;
  rm_parent : dentries (heap_ s) !! d_parent_ d = Some pd;
  rm_other : d_parent_ d ≠ i_dentry_ o ∧ d_inode_ pd ≠ this;
  rm_pobj : objs s !! d_inode_ pd = Some po;
  rm_dir : Dir.dir_ok (disc_ s) (node po) zs;
}.

(** The volume after the file's entry was erased on the disc, with the result [f]. *)
Definition removed (s : volume (D := D)) (this : Z) (o : MinixFSInode) (d pd : Dentry) (f : fs D) : volume :=
  mkVolume f
    (set_dentries (delete (i_dentry_ o) (<[d_parent_ d := with_child (list_remove (i_dentry_ o) (d_child_ pd)) pd]> (dentries (heap_ s)))) (heap_ s))
    (<[this := with_dentry 0 (with_node (fewer_links (set_type RamFs.INODE_DEAD (node o))) o)]> (objs s))
    (this_sb s) (s_root_ s) (mounted_over_ s) (used_inodes_ s) (all_inodes_ s) (s_files_ s) (all_inodes_set_ s).

(** Taking a dentry without children from its parent and deleting it. *)
Lemma unhang_dentry h a d pd : a ≠ 0 → dentries h !! a = Some d → d_child_ d = [] → d_parent_ d ≠ a → dentries h !! d_parent_ d = Some pd →
  ∃ h1 h2, childRemove h (d_parent_ d) a = Val (h1, 0) ∧
    dentries h1 !! d_parent_ d = Some (with_child (list_remove a (d_child_ pd)) pd) ∧ dentries h1 !! a = Some (with_parent 0 d) ∧
    releaseInode h1 a = Val h2 ∧
    delete_dentry h2 a = Val (set_dentries (delete a (<[d_parent_ d := with_child (list_remove a (d_child_ pd)) pd]> (dentries h))) h).
Proof.
  intros Ha Hd Hc Hne Hpd. unfold childRemove. rewrite (proj2 (Z.eqb_neq a 0) Ha). cbn [negb kassert mbind res_bind].
  rewrite (found _ _ _ Hpd). cbn [mbind res_bind]. unfold put_dentry. cbn [dentries set_dentries].
  rewrite (found _ _ d) by (by rewrite lookup_insert_ne). cbn [mbind res_bind dentries set_dentries].
  do 2 eexists. split; [done|]. cbn [dentries set_dentries]. split; [rewrite lookup_insert_ne by done; apply lookup_insert_eq|].
  split; [apply lookup_insert_eq|]. unfold releaseInode, setInode. cbn [dentries set_dentries].
  rewrite (found _ a _ (lookup_insert_eq _ _ _)). cbn [mbind res_bind]. split; [done|].
  unfold delete_dentry, put_dentry. cbn [dentries set_dentries].
  rewrite (found _ a _ (lookup_insert_eq _ _ _)). cbn [mbind res_bind d_parent_ with_inode with_parent].
  change (0 =? 0) with true. cbn [negb andb mbind res_bind dentries set_dentries].
  rewrite (found _ a _ (lookup_insert_eq _ _ _)). cbn [mbind res_bind d_child_ with_inode with_parent]. rewrite Hc. cbn [orphan mbind res_bind dentries set_dentries].
  by rewrite !delete_insert_eq.
Qed.

Lemma rm_runs s this o d pd po zs r : removable s this o d pd po zs → i_files_ o = [] → d_child_ d = [] →
  Inode.writeDentry (disc_ s) (node po) (Inode.i_num_ (node o)) 0 [0] = r →
  (∀ f ino, r = Val (f, ino) → ino = node po) →
  rm s this = '(f, _) ← r; Val (removed s this o d pd f, RamFs.INODE_DEAD).
Proof.
  intros [_ Ho _ Hnull Hd Hdi Hpd [Hne Hni] Hpo _] Hf Hc Ew Hsame. destruct s as [f0 h m sb root mo used all fds mset].
  unfold removed. cbn [objs heap_ disc_ this_sb s_root_ mounted_over_ used_inodes_ all_inodes_ s_files_ all_inodes_set_] in *.
  destruct (unhang_dentry h (i_dentry_ o) d pd) as (h1 & h2 & E1 & Hp1 & Hd1 & E2 & E3); [done..|].
  unfold rm. vol. rewrite (found _ _ _ Ho). cbn [mbind res_bind]. rewrite Hf. cbv zeta. rewrite bool_decide_true by done. cbn [negb]. cbv iota.
  rewrite (found _ _ _ Hd). cbn [mbind res_bind]. rewrite Hc, bool_decide_true by done.
  unfold change. vol. rewrite (found _ _ _ Ho). cbn [mbind res_bind]. vol. rewrite E1. cbn [mbind res_bind]. vol.
  rewrite (found _ _ _ Hp1). cbn [mbind res_bind]. rewrite (found _ _ _ Hd1). cbn [mbind res_bind d_inode_ with_parent with_child].
  rewrite Hdi, (found _ _ _ (lookup_insert_eq _ _ _)). cbn [mbind res_bind]. cbn [node with_node set_type Inode.i_num_].
  unfold writeDentry at 1. vol. rewrite (found _ _ po) by (by rewrite lookup_insert_ne). cbn [mbind res_bind].
  change ([] ++ [0]) with [0]. rewrite Ew. destruct r as [[f ino]|e]; [|done]. cbn [mbind res_bind]. rewrite (Hsame _ _ eq_refl).
  set (o1 := with_node (set_type RamFs.INODE_DEAD (node o)) o) in *. assert (with_node (node po) po = po) as -> by (by destruct po).
  match goal with |- context [put_obj (d_inode_ pd) po (set_disc_ f ?y)] =>
    change (put_obj (d_inode_ pd) po (set_disc_ f y)) with (mkVolume f h1 (<[d_inode_ pd := po]> (<[this := o1]> m)) sb root mo used all fds mset) end.
  vol. rewrite (found _ this o1) by (rewrite lookup_insert_ne by done; apply lookup_insert_eq).
  cbn [mbind res_bind]. unfold on_heap. vol. rewrite E2. cbn [mbind res_bind]. vol. rewrite E3. cbn [mbind res_bind]. vol.
  rewrite (found _ _ _ (lookup_insert_eq _ _ _)). cbn [mbind res_bind]. do 3 f_equal. vol.
  apply volume_ext; [reflexivity|reflexivity| |reflexivity..]. vol. rewrite (insert_insert_ne _ (d_inode_ pd) this), !insert_insert_eq by done.
  by rewrite (insert_id _ _ po).
Qed.

(** C32: [rm] of a file that is open, or whose dentry has children, answers -1 and
    changes nothing.  Else it erases exactly one entry with the file's number
    from the directory on the disc, takes the dentry from its parent, deletes it
    and marks the inode as dead; it keeps the inode and its zones allocated.  A
    file without an entry on the disc fails an assertion. *)
Theorem rm_erases s this o d pd po zs : removable s this o d pd po zs →
  (i_files_ o ≠ [] ∨ d_child_ d ≠ [] → rm s this = Val (s, -1)) ∧
  (i_files_ o = [] → d_child_ d = [] →
    (∀ nm, (Inode.i_num_ (node o), nm) ∈ Dir.dir_children (disc_ s) zs →
      ∃ f nm, rm s this = Val (removed s this o d pd f, RamFs.INODE_DEAD) ∧ fs_ok f ∧ Dir.dir_ok f (node po) zs ∧
        Dir.dir_children (disc_ s) zs ≡ₚ (Inode.i_num_ (node o), nm) :: Dir.dir_children f zs ∧
        inode_bitmap_ (storage_manager_ f) = inode_bitmap_ (storage_manager_ (disc_ s)) ∧
        (∀ z, data_zone (disc_ s) z → zused (disc_ s) z = true → zused f z = true) ∧
        (∀ b, on_disc (disc_ s) b → b ∉ Inode.owned (node po) zs → block f b = block (disc_ s) b)) ∧
    ((∀ nm, (Inode.i_num_ (node o), nm) ∉ Dir.dir_children (disc_ s) zs) → rm s this = Err EAssert)).
Proof.
  intros Hr. pose proof Hr as [Hok Ho Hn Hnull Hd _ _ _ _ Hdir]. split; [|intros Hf Hc; split].
  - intros Hbusy. unfold rm. rewrite (found _ _ _ Ho). cbn [mbind res_bind]. case_bool_decide as Hf; [|done]. cbn [negb].
    rewrite (found _ _ _ Hd). cbn [mbind res_bind]. rewrite bool_decide_false by (destruct Hbusy; done). done.
  - intros nm Hin. destruct (Dir.writeDentry_erases (disc_ s) (node po) zs (Inode.i_num_ (node o))) as (f & nm' & Ew & Hok' & Hdir' & Hfr & Hch);
      [done..|by exists nm|].
    exists f, nm'. split_and!; [|done..| | |].
    + rewrite (rm_runs s this o d pd po zs _ Hr Hf Hc Ew) by congruence. done.
    + exact (Dir.writeDentry_inodes _ _ _ _ _ _ _ Ew).
    + intros z Hz Hu. destruct (decide (z ∈ Inode.owned (node po) zs)) as [Hz'|Hz'].
      * by apply (Dir.dr_used _ _ _ Hdir').
      * by apply (Inode.fr_others _ _ _ _ _ _ Hfr).
    + apply Hfr.
  - intros Hno. assert (Ew : Inode.writeDentry (disc_ s) (node po) (Inode.i_num_ (node o)) 0 [0] = Err EAssert).
    { apply (Dir.writeDentry_missing _ _ zs); [done..|]. destruct (Dir.find_slot _ _) as [k|] eqn:Hk; [|done].
      destruct (Dir.some_held _ _ (header (disc_ s)) _ Hn Hk) as [nm Hin]. by apply Hno in Hin. }
    by rewrite (rm_runs s this o d pd po zs _ Hr Hf Hc Ew).
Qed.
End loading.

(** ** A small volume *)

Section example.
Import Mem.

(** The root is inode 1, an empty directory at the address 1 with the dentry 2. *)
Definition ex_root : Inode.MinixFSInode := Inode.mkInode Inode.I_DIR 0 2 1 (Zone.no_zones Inode.ex_header).
Definition ex_volume (f : fs MemDisc) (ino : Inode.MinixFSInode) (ds : gmap Z Dentry) : volume :=
  mkVolume f (mkHeap ds ∅ ∅ ∅ ∅ ∅ [] [] 3 4) {[1 := mkObj ino 2 [] false []]} 9 2 2 [] [1] [] {[1 := 1]}.
Definition ex_file_dentry : Dentry := mkDentry 0 2 [] 0 [97].
Definition ex_ds : gmap Z Dentry := {[2 := mkDentry 1 2 [3] 0 []; 3 := ex_file_dentry]}.

Lemma ex_fs2_ok : fs_ok Inode.ex_fs2.
Proof.
  destruct (blank_device 40 ltac:(lia)) as [Hd Hn].
  assert (∀ b n, n < 8 → Bitmap.popcount b = n → 0 <= n → Forall is_byte b → length b = 4%nat → Bitmap.bitmap_ok (Bitmap.mkBitmap 32 n b)) as Hb.
  { intros b n Hn' Hc ? ? Hl. split; simpl; [lia|rewrite Hl; reflexivity|done|done]. }
  split; [by split| |done..]. split; simpl; try lia; apply Hb; try lia; try reflexivity; apply Forall_is_byte; reflexivity.
Qed.

Lemma ex_root_ok : Dir.dir_ok Inode.ex_fs2 ex_root [].
Proof.
  assert (Hm : Inode.owned ex_root [] = []) by reflexivity.
  split; rewrite ?Hm.
  - exact (Zone.rep_empty Inode.ex_header).
  - intros z Hz. by apply not_elem_of_nil in Hz.
  - constructor.
  - by exists 0.
Qed.

Lemma ex_wf f ino ds : Inode.i_num_ ino = 1 → (∀ a d, ds !! a = Some d → 0 < a < 4 ∧ ∀ c, c ∈ d_child_ d → c < 4) → wf (ex_volume f ino ds).
Proof.
  intros Hn Hds. split; simpl; [lia|..].
  - intros n a [<- <-]%lookup_singleton_Some _. eexists. by rewrite lookup_singleton_eq.
  - intros a o [<- _]%lookup_singleton_Some. lia.
  - intros a d Ha. apply Hds in Ha. lia.
  - intros a d c Ha Hc. apply Hds in Ha as [_ Ha]. by apply Ha.
Qed.

(** Blocks of zeros hold no entries. *)
Lemma ex_blank_children v : on_disc Inode.ex_fs2 v →
  Dir.children Inode.ex_header (drop 1 (Dir.slots Inode.ex_header (block Inode.ex_fs2 v))) = [].
Proof.
  intros Hv. pose proof (block_length _ _ (fo_disc _ ex_fs2_ok) Hv) as Hl.
  assert (Hb : ∃ k, block Inode.ex_fs2 v = replicate k 0).
  { unfold block, BD.dev_bytes. change (drv_bytes (disc Inode.ex_fs2)) with (replicate (Z.to_nat (40 * 1024)) 0).
    unfold sub. rewrite drop_replicate, take_replicate, drop_replicate, take_replicate. by eexists. }
  destruct Hb as [k Hk]. rewrite Hk in Hl |- *. rewrite length_replicate in Hl.
  replace k with 1024%nat by (unfold BLOCK_SIZE in Hl; lia). vm_compute. reflexivity.
Qed.

Lemma createInode_stores_witness : ∃ s' po' zs', createInode (ex_volume Inode.ex_fs2 ex_root ex_ds) 3 Inode.I_FILE = Val (s', 4) ∧
  objs s' !! 1 = Some po' ∧ Dir.dir_ok (disc_ s') (node po') zs' ∧ Dir.dir_children (disc_ s') zs' = [(3, [97])].
Proof.
  destruct (createInode_stores (ex_volume Inode.ex_fs2 ex_root ex_ds) 3 ex_file_dentry 1 (mkObj ex_root 2 [] false []) [] 3)
    as (s' & po' & zs' & stale & Ec & _ & _ & _ & _ & _ & _ & Hp & _ & Hd & Hch & Hst & _).
  - split.
    + apply ex_wf; [reflexivity|]. intros a d. unfold ex_ds.
      intros [[<- <-]|[_ [<- <-]%lookup_singleton_Some]]%lookup_insert_Some; (split; [lia|]); intros c Hc;
        [apply list_elem_of_singleton in Hc as ->; lia|by apply not_elem_of_nil in Hc].
    + exact ex_fs2_ok.
    + reflexivity.
    + eexists. by split.
    + reflexivity.
    + exact ex_root_ok.
    + repeat constructor; discriminate.
    + reflexivity.
    + discriminate.
    + split; [|reflexivity]. split; [|reflexivity]. unfold num_blocks. split; [discriminate|].
      destruct (blank_device 40 ltac:(split; [discriminate|reflexivity])) as [_ Hn]. change (s_dev_ _) with (whole 40). rewrite Hn. reflexivity.
    + split; split; (discriminate || reflexivity).
    + split; vm_compute; discriminate.
  - exists s', po', zs'. split_and!; [exact Ec|exact Hp|exact Hd|]. apply Permutation_singleton_r.
    assert (stale = []) as ->; [|exact Hch].
    destruct Hst as [[_ ?]|(v & -> & Hv & _ & ->)]; [done|]. apply ex_blank_children, (data_zone_on_disc _ _ ex_fs2_ok Hv).
Defined.

(** The root with the entry "." for itself, written by [writeDentry], is loaded again. *)
Lemma loadChildren_loads_witness : ∃ f root zs s' c a, Dir.dir_children f zs = [(1, [46])] ∧
  loadChildren (ex_volume f root {[2 := mkDentry 1 2 [] 0 []]}) 1 = Val s' ∧
  dentries (heap_ s') !! 2 = Some (mkDentry 1 2 [c] 0 []) ∧ checkName (heap_ s') 2 [46] = Val a ∧ child_of s' 2 a (1, [46]).
Proof.
  destruct (Dir.directory_gains Inode.ex_fs2 ex_root [] 1 [46] [])
    as (f & root & zs & stale & _ & Hok & Hdir & Hfr & Hch & Hst);
    [exact ex_fs2_ok|exact ex_root_ok|repeat constructor; discriminate|split; reflexivity|vm_compute; discriminate..|].
  assert (stale = []) as ->.
  { destruct Hst as [[_ ?]|(v & -> & Hv & _ & ->)]; [done|]. apply ex_blank_children, (data_zone_on_disc _ _ ex_fs2_ok Hv). }
  apply Permutation_singleton_r in Hch. change (take _ [46]) with [46] in Hch.
  destruct (loadChildren_loads (ex_volume f root {[2 := mkDentry 1 2 [] 0 []]}) 1 (mkObj root 2 [] false []) (mkDentry 1 2 [] 0 []) zs)
    as (s' & l & El & _ & _ & _ & Hl & Hall & Hfirst).
  - apply ex_wf; [exact (proj2 (proj2 (Inode.fr_same _ _ _ _ _ _ Hfr)))|]. intros a d [<- <-]%lookup_singleton_Some.
    split; [lia|]. intros c Hc. by apply not_elem_of_nil in Hc.
  - reflexivity.
  - reflexivity.
  - reflexivity.
  - reflexivity.
  - exact Hok.
  - exact Hdir.
  - simpl. rewrite Hch. intros e ->%list_elem_of_singleton. left. by exists 1.
  - simpl in Hall, Hfirst, Hl. rewrite Hch in Hall, Hfirst.
    destruct (Hfirst 0%nat 1 [46]) as (a & Ea & Hc); [reflexivity|lia|].
    inversion Hall as [|c e l' es' _ Hnil E1 E2]. inversion Hnil. subst l l'.
    exists f, root, zs, s', c, a. split_and!; [exact Hch|exact El|exact Hl|exact Ea|exact Hc].
Defined.

(** A file in the root directory is removed from memory and from the disc. *)
Lemma rm_erases_witness : ∃ f root zs s', Dir.dir_children f zs = [(2, [97])] ∧
  let d := mkDentry 3 2 [] 0 [97] in
  let s := mkVolume f (mkHeap {[2 := mkDentry 1 2 [3] 0 []; 3 := d]} ∅ ∅ ∅ ∅ ∅ [] [] 3 4)
             {[1 := mkObj root 2 [] false []; 3 := mkObj Inode.ex_file 3 [] false []]} 9 2 2 [] [1; 3] [] {[1 := 1; 2 := 3]} in
  rm s 3 = Val (s', RamFs.INODE_DEAD) ∧ Dir.dir_children (disc_ s') zs = [] ∧ dentries (heap_ s') !! 3 = None.
Proof.
  destruct (Dir.directory_gains Inode.ex_fs2 ex_root [] 2 [97] [])
    as (f & root & zs & stale & _ & Hok & Hdir & Hfr & Hch & Hst);
    [exact ex_fs2_ok|exact ex_root_ok|repeat constructor; discriminate|split; reflexivity|vm_compute; discriminate..|].
  assert (stale = []) as ->.
  { destruct Hst as [[_ ?]|(v & -> & Hv & _ & ->)]; [done|]. apply ex_blank_children, (data_zone_on_disc _ _ ex_fs2_ok Hv). }
  apply Permutation_singleton_r in Hch. change (take _ [97]) with [97] in Hch.
  set (s := mkVolume f (mkHeap {[2 := mkDentry 1 2 [3] 0 []; 3 := mkDentry 3 2 [] 0 [97]]} ∅ ∅ ∅ ∅ ∅ [] [] 3 4)
             {[1 := mkObj root 2 [] false []; 3 := mkObj Inode.ex_file 3 [] false []]} 9 2 2 [] [1; 3] [] {[1 := 1; 2 := 3]}).
  destruct (rm_erases s 3 (mkObj Inode.ex_file 3 [] false []) (mkDentry 3 2 [] 0 [97]) (mkDentry 1 2 [3] 0 []) (mkObj root 2 [] false []) zs)
    as [_ Hrm]; [split; try reflexivity; [exact Hok|discriminate|discriminate|split; discriminate|exact Hdir]|].
  destruct (Hrm eq_refl eq_refl) as [Hin _]. destruct (Hin [97]) as (f' & nm & Er & _ & _ & Hp & _); [simpl; rewrite Hch; by left|].
  exists f, root, zs. eexists. split; [exact Hch|]. cbv zeta. split; [exact Er|]. split; [|reflexivity].
  simpl. simpl in Hp. rewrite Hch in Hp. apply Permutation_length in Hp. simpl in Hp.
  destruct (Dir.dir_children f' zs); [reflexivity|discriminate].
Defined.

End example.
End Tree.
